(* ===== verification/_CoqProject ===== *)
-Q . S2P
Prelude.v
Amf0.v
RtmpChunk.v
RtmpClient.v
Rtp.v
H264.v
AudioCodec.v
Text.v
Speech.v
F32.v
Value.v
Pixels.v
Watermark.v
Edges.v
Away.v
AwayWatch.v
Tracking.v
Zones.v
RtspAuth.v
RtspFraming.v
RtspServer.v
RateLimit.v
Sessions.v
WebAuth.v
AuthFlow.v
Media.v
Outputs.v
Live.v
Capture.v
Calendar.v
Remux.v
Recording.v
Resources.v
Hub.v
CameraConfig.v
Manager.v
Listen.v
Rounds.v
DescGate.v
FeatureGate.v
Elastic.v
