(* ===== verification/Prelude.v ===== *)
(** * A verification development for the camera server

    ** The program and its parts

    The repository is a camera and voice appliance written in Rust: it captures
    video, encodes it, fans it out to network outputs, serves it over RTSP,
    pushes it over RTMP, and runs detection, speech and language models on the
    host as far as its memory allows.  This library models the parts of it
    that carry logic of their own and can be checked without the devices, the
    inference engines and the database:

    - the wire protocols of [crates/protocols];
    - the media pipeline of [crates/streaming]: the capture source, hub, outputs,
      and the bookkeeping of slots, memory and buffers; and the manager of
      [crates/web] that builds and stops the pipelines of the cameras;
    - the admission of features and language models at boot and their
      adaptation at run time ([crates/streaming], [src/runtime]);
    - the security of the web server: rate limiter, sessions, lockout and the
      authentication handlers ([crates/security], [crates/web]);
    - what the appliance notices and says: tracks of detections and the events
      of zones drawn by the user, alarms of detections and sounds, away mode with its visitors, what the
      microphone is listened to for, and the spoken answers with their
      interruption.

    They interact as follows.  The stream manager makes the source of a camera
    from its configuration, attaches the outputs and runs a hub, which a
    monitor stops when the stream is stopped or replaced.  A capture source
    turns and overlays the pictures of the camera and hands the units of the encoder
    to the hub as media frames; the hub's source task broadcasts them, and a
    task for each output sends them on.  The RTSP output turns units into RTP
    packets, which the delivery loop of every playing RTSP connection writes
    on its socket; the RTMP output pushes them through the RTMP client, which
    is built on chunks and AMF0 commands.  At boot, the form, the persisted
    decision of the elasticity controller, the hardware and the memory decide
    which features the configuration keeps and which language model is
    loaded; the controller then moves the model up and down a ladder.

    ** Files

    Every file names in its first comment the source files it models;
    definitions keep the names of the source, in a module where two parts
    use the same name.

    - [Prelude]: this header, the outcome type [Res] and the state monad [ST],
      bytes and machine integers, UTF-8 and decimal text, the tactics [guards],
      [inv_ok], [post_steps], [zsolve] and the hint and rewrite databases.
    - [Amf0] ([rtmp/amf0.rs]): [Amf0Value], [parse], [serialize].
    - [RtmpChunk] ([rtmp/chunk.rs]): chunk headers and [ChunkStreamParser].
    - [RtmpClient] ([rtmp/mod.rs], the client side of [rtmp/handshake.rs]):
      [RtmpPushClient] with its socket as a record of incoming segments and
      bytes written, chunked writing, commands, FLV video and audio payloads.
    - [Rtp] ([rtp.rs]): packets, FU-A and STAP-A.
    - [H264] ([h264.rs]): bit reader, parameter sets, Annex B and AVCC.
    - [AudioCodec] ([audio_codec.rs], [rtcp.rs]): G.711, RTP audio, RTCP sender
      reports.
    - [Text]: the methods of [str] that the source uses, on UTF-8 bytes.
    - [Speech] ([streaming/src/sentence.rs], the speaker task of
      [runtime/voice_bridge.rs]): think filter and sentence splitter.
    - [F32]: binary32 arithmetic.
    - [Value]: JSON values with the accessors of [serde_json].
    - [Pixels] ([encoder/convert.rs]): YUV frames, flips, turns, downscaling and
      the conversions from and to RGB and YUYV.
    - [Watermark] ([watermark.rs]): settings, masks, blending and the renderer;
      the font library is the class [FontLib] with its laws.
    - [Edges] ([web/src/alarm.rs], [audio_ai/state.rs], the worker of
      [audio_ai/mod.rs], the clip detector of [audio_level.rs]): the modules
      [Alarm], [Sound] and [Clip].
    - [Away] ([web/src/away.rs]): the decision engine of away mode, its listening
      slot, voice commands and schedule.
    - [AwayWatch] ([away_monitor.rs], the away events of [web/src/db.rs]): the
      modules [Table] and [Watch], the latter with the watch loop and the task
      of every visitor interleaved.
    - [Tracking] ([ai/tracking.rs]): the tracker of detections.
    - [Zones] ([ai/zones.rs], [runtime/zone_bridge.rs], [web/src/zones.rs]): the
      modules [Geometry], [Engine], [Bridge], the latter with the detection
      workers, and [Store] with the requests that edit zones.
    - [RtspAuth] ([rtsp_server/auth.rs]): MD5 and the Digest check.
    - [RtspFraming] ([rtsp_server/framing.rs]): Transport header, interleaved
      frames, sequence tracking.
    - [RtspServer] ([rtsp_server/server.rs], [rtsp_server/mod.rs]): requests,
      responses, sessions, and [handle_connection] as the step function
      [conn_step] over the events of a connection.
    - [RateLimit] ([crates/security/src/rate_limit.rs]).
    - [Sessions] ([crates/security/src/auth.rs], [password.rs]): the users and
      sessions tables, one atomic operation for each SQL statement.
    - [WebAuth] ([security/src/middleware.rs], [web/src/routes/mod.rs],
      [web/src/errors.rs], CSRF in [web/src/server.rs]): client keys,
      middleware, lockout, cookies, and the handlers of [/api/auth].
    - [AuthFlow]: the critical sections of these handlers interleaved, with a
      trace that serves as the specification.
    - [Media] ([source.rs], the trait of [output/mod.rs]): [MediaFrame] and the
      classes [Source] and [Output].
    - [Outputs] ([encoder/h264.rs], [output/rtsp.rs], [output/rtmp.rs],
      [output/mod.rs]): the modules [Encoder], [RtspOut] and [RtmpOut], the
      latter two instances of [Output].
    - [Live]: the composition of [Outputs] and [RtspServer].
    - [Capture] ([capture_source.rs], [encoder/h264.rs]): the source of a
      camera, its encoder sessions, substream and JPEG tap; OpenH264 and the
      JPEG codec are the classes [OpenH264] and [JpegLib].
    - [Calendar], [Recording] ([output/file.rs]): the time stamp of a file, and
      the output that writes rolling files, over a disk as the list of the
      files ever created, each being written, finished or torn, and a directory.
    - [Remux] ([fmp4.rs], the task of [web/src/routes/mse.rs]): fragmented MP4
      for a browser; muxide's muxer is the class [FragmentedMuxer].
    - [Resources] ([resource.rs], [buffer.rs]): the modules [Controller],
      [Budget], [Lifecycle] and [Pool]; the semaphore of tokio is the class
      [Semaphore] with its laws.
    - [Hub] ([hub.rs]): the source and output tasks of any number of hubs,
      interleaved; tokio's broadcast channel is the class [Broadcast] with its
      laws, and [LogChannel] an instance.
    - [CameraConfig] ([web/src/stream_manager.rs], the checks of
      [web/src/routes/cameras.rs]): from the JSON of a camera to its source, and
      the tasks fed by the frame broadcasts.
    - [Manager] ([web/src/stream_manager.rs]): the table of streams, with the
      calls that create and stop them as processes cut at every lock and await
      ([create_step], [stop_step]) over the hubs of [Hub]; [mstep] interleaves
      them with the hubs, the monitors and the dropping of calls.
    - [Listen] ([streaming/src/voice/mod.rs]): the worker behind the microphone
      ([worker_step], cut at every access to what it shares with the host), the
      registry of speakers and the calls of the host, interleaved by [lstep];
      the detector, the wake word and the table of voiceprints are the classes
      [Vad], [Kws] and [Speakers] with their laws.
    - [Rounds] ([runtime/voice_bridge.rs], parts of [decision.rs], [lang.rs]):
      the bridge ([bridge_step]), the answer rounds ([round_step]) with their
      generator and speaker tasks ([gen_delta], the blocking [gen_send],
      [speaker_step]) and the conversation, interleaved by [vstep] with each
      other and with the utterances of the away watch
      ([away_monitor.rs], [speak_text] and the greeting), which hold the same
      mute.
    - [DescGate] ([src/desc_gate.rs]): single flight of frame descriptions, one
      step for each atomic operation.
    - [FeatureGate] ([feature_gate.rs], parts of [tools.rs] and [llm/mod.rs],
      [runtime/forms.rs], the boot path of [runtime/full.rs]): hardware, tiers,
      forms, [plan] and [boot].
    - [Elastic] ([runtime/elastic.rs]): [decide], the wired controller, and its
      composition with [boot].

    ** Conventions

    The code is modelled as it is compiled for release: integer arithmetic
    wraps ([wrap8] to [wrap64]) except where the source saturates; [usize] has
    64 bits.  Bytes and integers are [Z] with range predicates, text is a list
    of UTF-8 bytes, a [HashMap] is a [gmap], or an association list in an
    arbitrary order where the source depends on its iteration order.  An index
    or slice out of range is [Panic], an [anyhow] error is [Err] with the
    literal part of its message.  State is passed explicitly or through [ST] (the database through [DbM]);
    tasks are step functions, and statements about them quantify over all
    sequences of events or all reachable worlds; a future that is dropped stops
    at one of its awaits.  Code outside the repository
    is a parameter or a class with the laws its documentation promises
    ([hex::encode], base64, the allocator, TCP, semaphore, channel, file
    sizes, bcrypt, header values, inference); witnesses instantiate it.  An SQL statement is
    an atomic operation on finite maps that may fail at any time.  Metrics and log lines are not modelled.  [f32] is
    the executable binary32 of the Standard Library; times in milliseconds and
    their sums with configured windows are taken to be below 2^64 (so
    [AwayWatch.Watch.ask] adds without bound).  The watch of away mode has one
    clock that never goes back: the time of day that the code compares and the
    timer of its sleep are taken to agree.

    ** Fuel

    Loops that are not structural take fuel computed from their input: the
    length of what is left to parse, which each iteration shortens.  That it is
    enough is part of the theorems: [Amf0.parse_total],
    [RtmpChunk.parse_chunk_safe], [RtmpClient.connect_safe],
    [H264.parse_parameter_sets_safe], [RtspServer.connection_invariant],
    [AudioCodec.packetize_pcm_packets] and the round trips state results that
    are neither [OutOfFuel] nor [Panic].

    ** Theorems

    Web security.  [AuthFlow.session_refines] refines the session table to a
    trace of logins, logouts and resets under every interleaving of requests
    and every pattern of failing statements; [AuthFlow.session_origins] says
    which logins obtain a session, [AuthFlow.lockout_schedule] when an account
    is locked, [WebAuth.rate_limit_key] whom the request limit binds,
    [AuthFlow.login_usable] that the cookies of a login work until the logout,
    [AuthFlow.single_admin] that there is one user.

    Protocols.  Round trips in both directions for AMF0, RTMP chunks, RTP, FU-A,
    STAP-A, NAL splitting, parameter sets, Transport headers and RTSP requests;
    safety of every parser on arbitrary bytes; an RTMP session against a
    conforming and against an arbitrary server; the state machine of an RTSP
    connection over all event sequences, the guard of authentication, and
    exactly which Digest responses are accepted.

    Pipeline.  [Live.live_delivery] follows a unit from the encoder to the
    client of an RTSP connection.  [Hub.hub_delivery] says what an output has
    received in any reachable world, [Hub.hub_lifecycle] ties the lifecycle
    table to the source task, [Hub.hub_limits] shows what the slots bound and
    what they do not.  [Resources.budget_refines] refines the memory budget to
    a table of totals, [Resources.pool_invariant] is the invariant of the
    buffer pool, [DescGate.single_flight] mutual exclusion and spacing under
    every interleaving.

    Streams.  [Manager.pipelines_owned] says who keeps every pipeline under all
    interleavings of calls, [Manager.stop_stream_complete] that a stop comes
    back and what it leaves, the lemmas after them what overlapping calls leave
    behind; [CameraConfig.usb_source_ready] which configurations make a source
    that [Capture.capture_picture] and [Capture.capture_delivery] then follow
    from the picture of the camera to the units the hub is given.

    Pictures.  [Pixels.frame_geometry] says where flips and turns take every
    sample of a frame and how they compose, [Pixels.downscale_nearest] and
    [Pixels.conversions_correct] give the pixels of the other conversions and
    the frames they unwind on, [Pixels.preview_colours] what is shown of
    greys, and [Watermark.render_into_blends] every sample of a frame with the
    overlay.

    Recording and browsers.  [Remux.mse_body] gives the body of a response as a
    function of the frames, [Recording.recording_kept] what the files of the
    disk were given after any run and which of them are torn, [Recording.prune_oldest] what pruning removes, and
    [Calendar.stamp_correct] compares the conversion of seconds to a date with
    a calendar that counts days.

    Boot and adaptation.  [FeatureGate.plan_admission] specifies the greedy
    plan, [FeatureGate.boot_gate_budget] what the boot leaves enabled,
    [Elastic.elastic_hysteresis] when the controller may act, and
    [Elastic.elastic_after_boot] what it can reach from the boot.

    Alarms and away mode.  [Edges.Alarm.alarm_edges] and
    [Edges.Sound.sound_edges] say exactly which samples become alarms,
    [Away.visits_recorded] which detections become records of away mode,
    [Away.schedule_alternates] when the schedule acts, and
    [AwayWatch.Watch.visits_settle] that the record of every visitor is settled
    under all interleavings, up to faults it names.  [Speech.spoken_reply] says
    what is spoken of a streamed reply however it is cut.

    Voice.  [Listen.muted_deaf] says what the microphone does not hear while
    the device speaks, from the worker's next return to its channel on, and
    which mute is lost; [Listen.transcripts_exact] which audio a transcript is
    of and what became of every other chunk, [Listen.enrollment_sound] what a session of enrollment holds,
    [Listen.worker_returns] that the worker comes back to its channel.
    [Rounds.one_answer] is the exclusion of answers, [Rounds.pipeline_speaks]
    refines the tasks of a round to [Speech.speak],
    [Rounds.interrupted_round] and [Rounds.interrupted_ends] bound what an
    interrupted answer still says and does, the latter that its generator and
    its speaker never block each other on their channel, and [Rounds.mute_is_held] says
    who will lift a mute; the examples at the end of [Rounds] are runs in
    which the parts get in each other's way.  A detector and a wake word say
    how much they hold back, which bounds the loops over them.

    Zones.  [Tracking.Tracker.tracker_frames] is the life of ids over every
    run of a tracker and [Tracking.Tracker.greedy_association] its assignment;
    [Zones.Bridge.zone_pipeline] gives the events of any interleaving of
    detections, restarts, losses and edits as a function of the history of a
    camera, [Zones.Engine.occupancy_events] those of one stay in a zone, and
    [Zones.Store.zones_stored] what edits leave behind and what a restart
    finds of it.

    Many statements also pin down behaviour that differs from what comments
    or standards say; each such theorem says so in its comment.  Lemmas with a
    doc comment that are not among the listed properties (for example
    [H264.read_signed_inverted] or [RtmpChunk.interleaved_streams_mix]) record
    further behaviour of that kind.

    ** Not modelled

    Inference and its pre- and post-processing, speech, language and vision
    engines (their drivers; the worker around the speech models is modelled), the
    agent and cloud calls of an answer (outcomes of a step), capture devices, the bytes OpenH264, AAC and the JPEG codecs make
    (bindings, floating point, or device I/O); the web server apart from authentication,
    its routes, the database and the agent (HTTP and SQL glue); GB28181 and
    ONVIF (external crates); encryption at rest and TLS (wrappers of external
    crates); the bytes of MP4 containers (muxide); the summary of away mode (a language model prompt) and its
    push webhook; the records of sounds of away mode ([record_audio_event],
    written as settled); a detection worker of a camera that was replaced and
    still finishes an inference next to its successor ([Zones.Bridge.Input]
    replaces the tracker at once); the frames a file output still holds when it
    is dropped without a stop; the level meter (a logarithm of the platform's
    library); the
    accept loop of the
    RTSP server, which spawns one connection for each client; the RTMP server
    handshake, which only tests use; [system_time_to_ntp], which computes in
    floating point; RSS measurement.  *)
From Stdlib Require Import ZArith Lia List Bool String.
From stdpp Require Import base option list numbers list_numbers.

#[global] Open Scope Z_scope.

(** ** Outcomes of fallible code

    [Ok] and [Err] are the two variants of [anyhow::Result]; the payload of
    [Err] is the literal part of the message the code builds.  [Panic] is an
    out-of-bounds index or slice (or an explicit panic), which in Rust unwinds
    the task.  [OutOfFuel] is an artefact of the fuelled recursions; each
    fuelled definition comes with a theorem that it is never reached. *)
Inductive Res (A : Type) : Type :=
  | Ok (a : A)
  | Err (msg : string)
  | Panic
  | OutOfFuel.
Arguments Ok {A} a.
Arguments Err {A} msg%_string_scope.
Arguments Panic {A}.
Arguments OutOfFuel {A}.

#[export] Instance Res_ret : MRet Res := λ A a, Ok a.

#[export] Instance Res_bind : MBind Res := λ A B f m,
  match m with
  | Ok a => f a
  | Err e => Err e
  | Panic => Panic
  | OutOfFuel => OutOfFuel
  end.

#[export] Instance Res_fmap : FMap Res := λ A B f m, (m ≫= λ a, Ok (f a)).

(** A computation is [safe] when it neither panics nor runs out of fuel. *)
Definition safe {A} (r : Res A) : Prop :=
  match r with Ok _ | Err _ => True | _ => False end.

(** [post Q r]: [r] is safe and its value, if any, satisfies [Q]. *)
Definition post {A} (Q : A → Prop) (r : Res A) : Prop :=
  match r with Ok a => Q a | Err _ => True | _ => False end.

Definition is_ok {A} (r : Res A) : bool :=
  match r with Ok _ => true | _ => false end.

Lemma post_safe {A} (Q : A → Prop) r : post Q r → safe r.
Proof. by destruct r. Qed.

Lemma post_bind {A B} (P : A → Prop) (Q : B → Prop) (m : Res A) (f : A → Res B) :
  post P m → (∀ a, P a → post Q (f a)) → post Q (m ≫= f).
Proof. destruct m; cbn; auto. Qed.

Lemma post_mono {A} (P Q : A → Prop) (m : Res A) :
  (∀ a, P a → Q a) → post P m → post Q m.
Proof. destruct m; cbn; auto. Qed.

Lemma bind_Ok_inv {A B} (m : Res A) (f : A → Res B) b :
  m ≫= f = Ok b → ∃ a, m = Ok a ∧ f a = Ok b.
Proof. destruct m; cbn; intros; try discriminate; eauto. Qed.

(** [inv_ok] takes apart a hypothesis that a chain of binds succeeded. *)
Ltac inv_ok :=
  repeat match goal with
  | H : mbind _ _ = Ok _ |- _ =>
      apply bind_Ok_inv in H; destruct H as (? & ? & ?)
  | H : Ok _ = Ok _ |- _ => injection H as H; try subst
  | H : (if ?b then Err _ else _) = Ok _ |- _ =>
      let E := fresh "Hg" in destruct b eqn:E; [discriminate H|]
  end.

(** ** Bytes and machine integers

    A byte and an unsigned machine integer are a [Z] in range. *)
Abbreviation bytes := (list Z).

Definition is_byte (b : Z) : Prop := 0 ≤ b < 256.
Definition bytes_ok (l : bytes) : Prop := Forall is_byte l.

Definition is_u16 (x : Z) : Prop := 0 ≤ x < 2 ^ 16.
Definition is_u32 (x : Z) : Prop := 0 ≤ x < 2 ^ 32.
Definition is_u64 (x : Z) : Prop := 0 ≤ x < 2 ^ 64.

(** [as u8], [as u16], ... and the wrapping arithmetic of release builds. *)
Definition wrap8 (x : Z) : Z := x mod 2 ^ 8.
Definition wrap16 (x : Z) : Z := x mod 2 ^ 16.
Definition wrap32 (x : Z) : Z := x mod 2 ^ 32.
Definition wrap64 (x : Z) : Z := x mod 2 ^ 64.

Definition Z_of_bool (b : bool) : Z := if b then 1 else 0.

(** [usize::MAX], [saturating_add] and [saturating_sub] of a 64-bit target. *)
Definition usize_max : Z := 2 ^ 64 - 1.
Definition saturating_add (x y : Z) : Z := Z.min (x + y) usize_max.
Definition saturating_sub (x y : Z) : Z := Z.max (x - y) 0.

(** [slice::len] *)
Definition zlen {A} (l : list A) : Z := Z.of_nat (length l).

(** [data[i]] *)
Definition at_ {A} (l : list A) (i : Z) : Res A :=
  if i <? 0 then Panic
  else match l !! Z.to_nat i with Some b => Ok b | None => Panic end.

(** [data[a..b]] *)
Definition slice {A} (l : list A) (a b : Z) : Res (list A) :=
  if (0 <=? a) && (a <=? b) && (b <=? zlen l)
  then Ok (take (Z.to_nat (b - a)) (drop (Z.to_nat a) l))
  else Panic.

(** [&data[a..]] *)
Definition slice_from {A} (l : list A) (a : Z) : Res (list A) :=
  slice l a (zlen l).

(** Big-endian value of a byte string ([uN::from_be_bytes]). *)
Definition from_be (l : bytes) : Z :=
  fold_left (λ acc b, acc * 256 + b) l 0.

(** The [n] big-endian bytes of [x] ([to_be_bytes]). *)
Fixpoint to_be (n : nat) (x : Z) : bytes :=
  match n with
  | O => []
  | S k => (x / 256 ^ Z.of_nat k) mod 256 :: to_be k x
  end.

Definition from_le (l : bytes) : Z := from_be (rev l).
Definition to_le (n : nat) (x : Z) : bytes := rev (to_be n x).

(** [[data[i], data[i + 1], .., data[i + n - 1]]], each index checked. *)
Fixpoint bytes_at (n : nat) (data : bytes) (i : Z) : Res bytes :=
  match n with
  | O => Ok []
  | S k => b ← at_ data i; bs ← bytes_at k data (i + 1); Ok (b :: bs)
  end.

(** [uN::from_be_bytes([data[i], ..])] *)
Definition be_at (n : nat) (data : bytes) (i : Z) : Res Z :=
  bs ← bytes_at n data i; Ok (from_be bs).

(** ** Lengths *)
Lemma zlen_nil {A} : zlen (@nil A) = 0.
Proof. done. Qed.
Lemma zlen_cons {A} (x : A) l : zlen (x :: l) = 1 + zlen l.
Proof. unfold zlen; cbn [length]; lia. Qed.
Lemma zlen_app {A} (l k : list A) : zlen (l ++ k) = zlen l + zlen k.
Proof. unfold zlen; rewrite length_app; lia. Qed.
Lemma zlen_nonneg {A} (l : list A) : 0 ≤ zlen l.
Proof. unfold zlen; lia. Qed.
Lemma zlen_0 {A} (l : list A) : zlen l = 0 → l = [].
Proof. destruct l; [done|rewrite zlen_cons; pose proof (zlen_nonneg l); lia]. Qed.
Lemma length_zlen {A} (l : list A) : Z.to_nat (zlen l) = length l.
Proof. unfold zlen; lia. Qed.
Lemma zlen_take {A} (l : list A) (n : Z) :
  0 ≤ n ≤ zlen l → zlen (take (Z.to_nat n) l) = n.
Proof. unfold zlen; rewrite length_take; lia. Qed.
Lemma zlen_drop {A} (l : list A) (n : Z) :
  0 ≤ n ≤ zlen l → zlen (drop (Z.to_nat n) l) = zlen l - n.
Proof. unfold zlen; rewrite length_drop; lia. Qed.

Create HintDb mibee discriminated.
Create Rewrite HintDb zlen.
#[export] Hint Rewrite @zlen_nil @zlen_cons @zlen_app : zlen.

(** [zsolve] normalises list lengths and calls [lia]. *)
Ltac zlen_facts :=
  repeat match goal with
  | |- context [zlen ?l] =>
      lazymatch goal with
      | _ : 0 ≤ zlen l |- _ => fail
      | _ => pose proof (zlen_nonneg l)
      end
  | _ : context [zlen ?l] |- _ =>
      lazymatch goal with
      | _ : 0 ≤ zlen l |- _ => fail
      | _ => pose proof (zlen_nonneg l)
      end
  end.
Ltac zsolve := autorewrite with zlen in *; zlen_facts; lia.

(** [lia] with [/] and [mod] by constants unfolded. *)
Ltac dm_lia := Z.to_euclidean_division_equations; lia.

(** ** Indexing and slicing *)
Section indexing.
Context {A : Type}.
Implicit Types l k : list A.

Lemma at_Ok_iff l i x : at_ l i = Ok x ↔ 0 ≤ i ∧ l !! Z.to_nat i = Some x.
Proof.
  unfold at_. destruct (Z.ltb_spec i 0).
  - split; [done|lia].
  - destruct (l !! Z.to_nat i) eqn:E; split.
    + intros [= ->]. done.
    + intros [_ [= ->]]. done.
    + done.
    + intros [_ ?]. done.
Qed.

Lemma at_in_range l i : 0 ≤ i < zlen l → ∃ x, at_ l i = Ok x.
Proof.
  intros Hi. destruct (lookup_lt_is_Some_2 l (Z.to_nat i)) as [x Hx].
  { unfold zlen in Hi. lia. }
  exists x. apply at_Ok_iff. split; [lia|done].
Qed.

Lemma at_app_add l k i : 0 ≤ i → at_ (l ++ k) (zlen l + i) = at_ k i.
Proof.
  intros Hi. unfold at_. pose proof (zlen_nonneg l).
  rewrite !(proj2 (Z.ltb_ge _ _)) by lia.
  replace (Z.to_nat (zlen l + i)) with (length l + Z.to_nat i)%nat
    by (unfold zlen; lia).
  rewrite lookup_app_r by lia. by rewrite Nat.add_comm, Nat.add_sub.
Qed.

Lemma at_app_here l x k : at_ (l ++ x :: k) (zlen l) = Ok x.
Proof. by rewrite <-(Z.add_0_r (zlen l)), at_app_add by lia. Qed.

Lemma at_app_l l k i : i < zlen l → at_ (l ++ k) i = at_ l i.
Proof.
  intros Hi. unfold at_. destruct (Z.ltb_spec i 0); [done|].
  rewrite lookup_app_l; [done|]. unfold zlen in Hi; lia.
Qed.

Lemma at_cons_succ x l i : 0 ≤ i → at_ (x :: l) (1 + i) = at_ l i.
Proof. intros. apply (at_app_add [x] l i). done. Qed.

Lemma slice_app_add l k a b :
  0 ≤ a → slice (l ++ k) (zlen l + a) (zlen l + b) = slice k a b.
Proof.
  intros Ha. unfold slice. pose proof (zlen_nonneg l).
  replace (0 <=? zlen l + a) with (0 <=? a) by lia.
  replace (zlen l + a <=? zlen l + b) with (a <=? b) by lia.
  replace (zlen l + b <=? zlen (l ++ k)) with (b <=? zlen k) by (rewrite zlen_app; lia).
  replace (zlen l + b - (zlen l + a)) with (b - a) by lia.
  replace (Z.to_nat (zlen l + a)) with (length l + Z.to_nat a)%nat by (unfold zlen; lia).
  by rewrite drop_app_add.
Qed.

Lemma slice_prefix l k : slice (l ++ k) 0 (zlen l) = Ok l.
Proof.
  unfold slice. replace (_ && _ && _) with true.
  - rewrite Z.sub_0_r, length_zlen, drop_0, take_app_length. done.
  - symmetry. rewrite !andb_true_iff, !Z.leb_le. zsolve.
Qed.

(** The middle of three segments. *)
Lemma slice_app_mid l m k a b :
  a = zlen l → b = zlen l + zlen m → slice (l ++ m ++ k) a b = Ok m.
Proof.
  intros -> ->. rewrite <-(Z.add_0_r (zlen l)) at 1.
  rewrite slice_app_add by lia. apply slice_prefix.
Qed.

Lemma slice_from_app l k : slice_from (l ++ k) (zlen l) = Ok k.
Proof.
  unfold slice_from. rewrite zlen_app.
  rewrite <-(app_nil_r k) at 1. by apply slice_app_mid.
Qed.

Lemma slice_from_app' l k p : p = zlen l → slice_from (l ++ k) p = Ok k.
Proof. intros ->. apply slice_from_app. Qed.

(** What an in-range slice returns. *)
Lemma slice_in_range l a b :
  0 ≤ a ≤ b → b ≤ zlen l →
  slice l a b = Ok (take (Z.to_nat (b - a)) (drop (Z.to_nat a) l)).
Proof.
  intros. unfold slice. replace (_ && _ && _) with true; [done|].
  symmetry. rewrite !andb_true_iff, !Z.leb_le. lia.
Qed.

Lemma zlen_slice l a b :
  0 ≤ a ≤ b → b ≤ zlen l →
  zlen (take (Z.to_nat (b - a)) (drop (Z.to_nat a) l)) = b - a.
Proof. intros. rewrite zlen_take; rewrite ?zlen_drop; lia. Qed.
End indexing.

Lemma post_at {A} (P : A → Prop) (l : list A) i :
  Forall P l → 0 ≤ i < zlen l → post P (at_ l i).
Proof.
  intros HP Hi. destruct (at_in_range l i Hi) as [x Hx]. rewrite Hx; cbn.
  apply at_Ok_iff in Hx as [_ Hx]. by eapply Forall_lookup_1.
Qed.

Lemma post_slice {A} (P : A → Prop) (l : list A) a b :
  Forall P l → 0 ≤ a ≤ b → b ≤ zlen l →
  post (λ s, Forall P s ∧ zlen s = b - a) (slice l a b).
Proof.
  intros HP Hab Hb. rewrite slice_in_range by done. cbn. split.
  - by apply Forall_take, Forall_drop.
  - by apply zlen_slice.
Qed.

Lemma post_slice_from {A} (P : A → Prop) (l : list A) a :
  Forall P l → 0 ≤ a ≤ zlen l →
  post (λ s, Forall P s ∧ zlen s = zlen l - a) (slice_from l a).
Proof. intros. unfold slice_from. apply post_slice; [done|lia|lia]. Qed.

(** ** Finite enumeration

    Facts about the bits of a byte are decided by running the check over the
    whole (small) domain. *)
Lemma forall_range (P : Z → bool) (lo n : Z) :
  forallb P (seqZ lo n) = true → ∀ x, lo ≤ x < lo + n → P x = true.
Proof.
  intros H x Hx. rewrite forallb_forall in H. apply H.
  apply list_elem_of_In, elem_of_seqZ. lia.
Qed.

Lemma forall_range2 (P : Z → Z → bool) (lo1 n1 lo2 n2 : Z) :
  forallb (λ x, forallb (P x) (seqZ lo2 n2)) (seqZ lo1 n1) = true →
  ∀ x y, lo1 ≤ x < lo1 + n1 → lo2 ≤ y < lo2 + n2 → P x y = true.
Proof.
  intros H x y Hx Hy. apply (forall_range _ lo1 n1) with (x := x) in H; [|done].
  by apply (forall_range _ lo2 n2).
Qed.

(** For larger domains: the same by binary recursion. *)
Fixpoint all_from (P : Z → bool) (lo : Z) (n : positive) : bool :=
  match n with
  | xH => P lo
  | xO m => all_from P lo m && all_from P (lo + Zpos m) m
  | xI m => P lo && all_from P (lo + 1) m && all_from P (lo + 1 + Zpos m) m
  end.

Lemma all_from_spec P lo n :
  all_from P lo n = true → ∀ x, lo ≤ x < lo + Zpos n → P x = true.
Proof.
  revert lo. induction n as [m IH|m IH|]; intros lo; cbn [all_from].
  - intros [[H0 H1]%andb_true_iff H2]%andb_true_iff x Hx.
    destruct (decide (x = lo)) as [->|]; [done|].
    destruct (decide (x < lo + 1 + Zpos m)); [apply (IH _ H1)|apply (IH _ H2)]; lia.
  - intros [H1 H2]%andb_true_iff x Hx.
    destruct (decide (x < lo + Zpos m)); [apply (IH _ H1)|apply (IH _ H2)]; lia.
  - intros H x Hx. by replace x with lo by lia.
Qed.

(** [by_enum x lo n]: decide [E = F], both depending on [x] in [lo, lo+n). *)
Ltac by_enum x lo n :=
  match goal with
  | |- @eq Z ?e ?f =>
      apply Z.eqb_eq; pattern x;
      match goal with |- ?P x =>
        let g := constr:(λ x : Z, ltac:(let r := eval cbv beta in (P x) in
                  match r with ?b = true => exact b end)) in
        refine (forall_range g lo n _ x _); [vm_compute; reflexivity | lia]
      end
  | |- @eq bool ?e ?f =>
      apply eqb_true_iff; pattern x;
      match goal with |- ?P x =>
        let g := constr:(λ x : Z, ltac:(let r := eval cbv beta in (P x) in
                  match r with ?b = true => exact b end)) in
        refine (forall_range g lo n _ x _); [vm_compute; reflexivity | lia]
      end
  end.

(** ** Big-endian encoding *)
Lemma from_be_acc l a :
  fold_left (λ acc b, acc * 256 + b) l a = a * 256 ^ zlen l + from_be l.
Proof.
  unfold from_be. revert a. induction l as [|b l IH]; intros a; cbn [fold_left].
  - rewrite zlen_nil. lia.
  - rewrite IH, (IH (0 * 256 + b)), zlen_cons, Z.pow_add_r by (zlen_facts; lia). lia.
Qed.

Lemma from_be_cons b l : from_be (b :: l) = b * 256 ^ zlen l + from_be l.
Proof. unfold from_be at 1. cbn [fold_left]. by rewrite from_be_acc. Qed.

Lemma from_be_app l k : from_be (l ++ k) = from_be l * 256 ^ zlen k + from_be k.
Proof.
  unfold from_be at 1. rewrite fold_left_app. rewrite from_be_acc. done.
Qed.

Lemma from_be_bound l : bytes_ok l → 0 ≤ from_be l < 256 ^ zlen l.
Proof.
  induction 1 as [|b l Hb Hl IH].
  - by vm_compute.
  - rewrite from_be_cons, zlen_cons, Z.pow_add_r by (zlen_facts; lia).
    unfold is_byte in Hb. nia.
Qed.

Lemma length_to_be n x : length (to_be n x) = n.
Proof. revert x. induction n; intros; cbn; auto. Qed.
Lemma zlen_to_be n x : zlen (to_be n x) = Z.of_nat n.
Proof. unfold zlen. by rewrite length_to_be. Qed.

Lemma bytes_ok_to_be n x : bytes_ok (to_be n x).
Proof.
  revert x. induction n as [|n IH]; intros; cbn [to_be]; constructor.
  - unfold is_byte. apply Z.mod_pos_bound. lia.
  - apply IH.
Qed.

Lemma from_be_to_be_mod n x : from_be (to_be n x) = x mod 256 ^ Z.of_nat n.
Proof.
  induction n as [|n IH]; cbn [to_be].
  - change (256 ^ Z.of_nat 0) with 1. by rewrite Z.mod_1_r.
  - rewrite from_be_cons, IH, zlen_to_be, Nat2Z.inj_succ.
    unfold Z.succ. rewrite Z.pow_add_r, Z.pow_1_r by lia.
    rewrite Z.rem_mul_r by lia. lia.
Qed.

Lemma from_be_to_be n x : 0 ≤ x < 256 ^ Z.of_nat n → from_be (to_be n x) = x.
Proof. intros. rewrite from_be_to_be_mod. by apply Z.mod_small. Qed.

Lemma to_be_from_be l : bytes_ok l → to_be (length l) (from_be l) = l.
Proof.
  induction 1 as [|b l Hb Hl IH]; [done|].
  pose proof (from_be_bound _ Hl) as HB. unfold zlen in HB.
  cbn [length to_be]. rewrite from_be_cons. unfold zlen.
  rewrite Z.div_add_l, (Z.div_small (from_be l)), Z.add_0_r, Z.mod_small by (auto; lia).
  f_equal. transitivity (to_be (length l) (from_be l)); [|exact IH].
  clear IH Hb. remember (length l) as n eqn:E. clear E.
  assert (∀ m y z, (m ≤ n)%nat → to_be m (y * 256 ^ Z.of_nat n + z) = to_be m z) as Hm.
  { induction m as [|m IHm]; intros y z Hmn; [done|]. cbn [to_be]. f_equal.
    - replace (Z.of_nat n) with ((Z.of_nat n - Z.of_nat m - 1) + 1 + Z.of_nat m) by lia.
      rewrite !Z.pow_add_r, Z.pow_1_r by lia.
      rewrite !Z.mul_assoc, Z.div_add_l by lia.
      rewrite Z.add_comm, Z.mod_add by lia. done.
    - apply IHm. lia. }
  by apply Hm.
Qed.

Lemma bytes_ok_app l k : bytes_ok (l ++ k) ↔ bytes_ok l ∧ bytes_ok k.
Proof. apply Forall_app. Qed.
Lemma bytes_ok_cons b l : bytes_ok (b :: l) ↔ is_byte b ∧ bytes_ok l.
Proof. apply Forall_cons. Qed.
Lemma bytes_ok_nil : bytes_ok [].
Proof. constructor. Qed.
#[export] Hint Resolve bytes_ok_to_be bytes_ok_nil : mibee.

Lemma bytes_ok_rev l : bytes_ok l → bytes_ok (rev l).
Proof. intros H. by apply List.Forall_rev. Qed.

Lemma from_le_to_le n x : 0 ≤ x < 256 ^ Z.of_nat n → from_le (to_le n x) = x.
Proof. intros. unfold from_le, to_le. rewrite rev_involutive. by apply from_be_to_be. Qed.
Lemma length_to_le n x : length (to_le n x) = n.
Proof. unfold to_le. by rewrite length_rev, length_to_be. Qed.
Lemma zlen_to_le n x : zlen (to_le n x) = Z.of_nat n.
Proof. unfold zlen. by rewrite length_to_le. Qed.
Lemma bytes_ok_to_le n x : bytes_ok (to_le n x).
Proof. apply bytes_ok_rev, bytes_ok_to_be. Qed.
#[export] Hint Resolve bytes_ok_to_le : mibee.
#[export] Hint Rewrite zlen_to_be zlen_to_le : zlen.

(** ** Multi-byte reads *)
Lemma bytes_at_app_add n pre k i :
  0 ≤ i → bytes_at n (pre ++ k) (zlen pre + i) = bytes_at n k i.
Proof.
  revert i. induction n as [|n IH]; intros i Hi; [done|]. cbn [bytes_at].
  rewrite at_app_add by done. rewrite <-Z.add_assoc, IH by lia. done.
Qed.

Lemma bytes_at_prefix l k : bytes_at (length l) (l ++ k) 0 = Ok l.
Proof.
  induction l as [|b l IH]; [done|]. cbn [length bytes_at app].
  change (at_ (b :: l ++ k) 0) with (Ok b). cbn [mbind Res_bind].
  change (b :: l ++ k) with ([b] ++ (l ++ k)).
  change (0 + 1) with (zlen [b] + 0). rewrite bytes_at_app_add by lia.
  rewrite IH. done.
Qed.

Lemma bytes_at_here n pre l k p :
  length l = n → p = zlen pre → bytes_at n (pre ++ l ++ k) p = Ok l.
Proof.
  intros <- ->. rewrite <-(Z.add_0_r (zlen pre)), bytes_at_app_add by lia.
  apply bytes_at_prefix.
Qed.

Lemma be_at_app_add n pre k i :
  0 ≤ i → be_at n (pre ++ k) (zlen pre + i) = be_at n k i.
Proof. intros. unfold be_at. by rewrite bytes_at_app_add. Qed.

(** Reading back an encoded integer, wherever it sits. *)
Lemma be_at_to_be n x pre k p :
  0 ≤ x < 256 ^ Z.of_nat n → p = zlen pre →
  be_at n (pre ++ to_be n x ++ k) p = Ok x.
Proof.
  intros Hx ->. rewrite <-(Z.add_0_r (zlen pre)), be_at_app_add by lia.
  unfold be_at. rewrite <-(length_to_be n x) at 1. rewrite bytes_at_prefix.
  cbn. by rewrite from_be_to_be.
Qed.

(** Any [n] bytes are the encoding of a number. *)
Lemma split_be n rest :
  bytes_ok rest → Z.of_nat n ≤ zlen rest →
  ∃ x rest', rest = to_be n x ++ rest' ∧ 0 ≤ x < 256 ^ Z.of_nat n ∧ bytes_ok rest'.
Proof.
  intros Hr Hn. assert (length (take n rest) = n) as Hl
    by (rewrite length_take; unfold zlen in Hn; lia).
  rewrite <-(take_drop n rest) in Hr. apply bytes_ok_app in Hr as [Ht Hd].
  exists (from_be (take n rest)), (drop n rest).
  pose proof (from_be_bound _ Ht) as Hb. unfold zlen in Hb. rewrite Hl in Hb.
  split_and!; [|lia|lia|done].
  pose proof (to_be_from_be (take n rest) Ht) as E. rewrite Hl in E.
  by rewrite E, take_drop.
Qed.

Lemma post_bytes_at n data i :
  bytes_ok data → 0 ≤ i → i + Z.of_nat n ≤ zlen data →
  post (λ bs, bytes_ok bs ∧ length bs = n) (bytes_at n data i).
Proof.
  intros Hd. revert i. induction n as [|n IH]; intros i Hi Hn; cbn [bytes_at].
  - cbn. split; [constructor|done].
  - eapply post_bind; [apply (post_at is_byte); [done|lia]|]. intros b Hb.
    eapply post_bind; [apply IH; lia|]. intros bs [Hbs Hl]. cbn. split.
    + by constructor.
    + by rewrite Hl.
Qed.

Lemma post_be_at n data i :
  bytes_ok data → 0 ≤ i → i + Z.of_nat n ≤ zlen data →
  post (λ x, 0 ≤ x < 256 ^ Z.of_nat n) (be_at n data i).
Proof.
  intros. unfold be_at. eapply post_bind; [by apply post_bytes_at|].
  intros bs [Hbs Hl]. cbn. apply from_be_bound in Hbs. unfold zlen in Hbs.
  by rewrite Hl in Hbs.
Qed.

(** ** Text

    A Rust [String] or [&str] is its UTF-8 byte sequence. *)
Definition bytes_of_string (s : string) : bytes :=
  map (λ c, Z.of_N (Ascii.N_of_ascii c)) (list_ascii_of_string s).

Definition utf8_cont (b : Z) : bool := (0x80 <=? b) && (b <=? 0xBF).

(** The check of [String::from_utf8] (Unicode, table 3-7). *)
Fixpoint utf8_valid (l : bytes) : bool :=
  match l with
  | [] => true
  | b0 :: l1 =>
      if b0 <? 0x80 then utf8_valid l1
      else if (0xC2 <=? b0) && (b0 <=? 0xDF) then
        match l1 with
        | b1 :: l2 => utf8_cont b1 && utf8_valid l2
        | _ => false
        end
      else if (0xE0 <=? b0) && (b0 <=? 0xEF) then
        match l1 with
        | b1 :: b2 :: l3 =>
            ((if b0 =? 0xE0 then 0xA0 else 0x80) <=? b1)
            && (b1 <=? (if b0 =? 0xED then 0x9F else 0xBF))
            && utf8_cont b2 && utf8_valid l3
        | _ => false
        end
      else if (0xF0 <=? b0) && (b0 <=? 0xF4) then
        match l1 with
        | b1 :: b2 :: b3 :: l4 =>
            ((if b0 =? 0xF0 then 0x90 else 0x80) <=? b1)
            && (b1 <=? (if b0 =? 0xF4 then 0x8F else 0xBF))
            && utf8_cont b2 && utf8_cont b3 && utf8_valid l4
        | _ => false
        end
      else false
  end.

Definition is_ascii (b : Z) : Prop := 0 ≤ b < 128.

Lemma utf8_valid_ascii l : Forall is_ascii l → utf8_valid l = true.
Proof.
  induction 1 as [|b l Hb Hl IH]; [done|]. cbn [utf8_valid].
  unfold is_ascii in Hb. by rewrite (proj2 (Z.ltb_lt b 128)) by lia.
Qed.

(** [format!("{n}")] for an unsigned integer: least significant digit first,
    then reversed.  [Z.log2 n + 1] digits are always enough. *)
Fixpoint dec_rev (fuel : nat) (n : Z) : bytes :=
  match fuel with
  | O => []
  | S k => (48 + n mod 10) :: (if n <? 10 then [] else dec_rev k (n / 10))
  end.
Definition dec_of_Z (n : Z) : bytes := rev (dec_rev (S (Z.to_nat (Z.log2 n))) n).

Lemma dec_rev_ascii fuel n : Forall is_ascii (dec_rev fuel n).
Proof.
  revert n. induction fuel as [|k IH]; intros n; cbn [dec_rev]; constructor.
  - unfold is_ascii. pose proof (Z.mod_pos_bound n 10). lia.
  - destruct (n <? 10); [constructor|apply IH].
Qed.
Lemma dec_of_Z_ascii n : Forall is_ascii (dec_of_Z n).
Proof. by apply List.Forall_rev, dec_rev_ascii. Qed.

Lemma ascii_bytes_ok l : Forall is_ascii l → bytes_ok l.
Proof.
  intros H. eapply Forall_impl; [exact H|]. unfold is_ascii, is_byte. lia.
Qed.

(** ** IEEE-754 doubles as their 64-bit patterns

    [f64::to_be_bytes]/[from_be_bytes] keep the pattern; the code converts
    only small unsigned integers to [f64] and back. *)
Definition f64_of_u32 (n : Z) : Z :=
  if n =? 0 then 0
  else let e := Z.log2 n in (1023 + e) * 2 ^ 52 + (n - 2 ^ e) * 2 ^ (52 - e).

(** [x as u32]: truncation, saturating, NaN to 0. *)
Definition f64_to_u32 (bits : Z) : Z :=
  let sgn := bits / 2 ^ 63 in
  let e := (bits / 2 ^ 52) mod 2 ^ 11 in
  let m := bits mod 2 ^ 52 in
  if e =? 2047 then (if (m =? 0) && (sgn =? 0) then 2 ^ 32 - 1 else 0)
  else if sgn =? 1 then 0
  else if e <? 1023 then 0
  else Z.min (2 ^ 32 - 1) ((2 ^ 52 + m) * 2 ^ (e - 1023) / 2 ^ 52).

Lemma f64_of_u32_range n : is_u32 n → is_u64 (f64_of_u32 n).
Proof.
  unfold is_u32, is_u64, f64_of_u32. intros Hn.
  destruct (Z.eqb_spec n 0) as [->|Hz]; [lia|].
  pose proof (Z.log2_spec n) as [Hl Hu]; [lia|].
  pose proof (Z.log2_nonneg n) as He.
  assert (Z.log2 n < 32) by (apply Z.log2_lt_pow2; lia).
  set (e := Z.log2 n) in *. rewrite Z.pow_succ_r in Hu by done.
  assert (0 ≤ (n - 2 ^ e) * 2 ^ (52 - e) < 2 ^ e * 2 ^ (52 - e)) as Hm.
  { assert (0 < 2 ^ (52 - e)) by (apply Z.pow_pos_nonneg; lia). nia. }
  rewrite <-Z.pow_add_r in Hm by lia.
  replace (e + (52 - e)) with 52 in Hm by lia. lia.
Qed.

Lemma f64_u32_roundtrip n : is_u32 n → f64_to_u32 (f64_of_u32 n) = n.
Proof.
  intros Hn. pose proof (f64_of_u32_range n Hn) as Hr. revert Hr.
  unfold is_u32, is_u64, f64_of_u32 in *.
  destruct (Z.eqb_spec n 0) as [->|Hz]; [intros; vm_compute; done|].
  pose proof (Z.log2_spec n) as [Hl Hu]; [lia|].
  pose proof (Z.log2_nonneg n) as He.
  assert (Z.log2 n < 32) by (apply Z.log2_lt_pow2; lia).
  set (e := Z.log2 n) in *. rewrite Z.pow_succ_r in Hu by done.
  set (m := (n - 2 ^ e) * 2 ^ (52 - e)). intros Hr.
  assert (0 ≤ m < 2 ^ 52) as Hm.
  { assert (0 ≤ m < 2 ^ e * 2 ^ (52 - e)) as Hm.
    { unfold m. assert (0 < 2 ^ (52 - e)) by (apply Z.pow_pos_nonneg; lia). nia. }
    rewrite <-Z.pow_add_r in Hm by lia. by replace (e + (52 - e)) with 52 in Hm by lia. }
  unfold f64_to_u32.
  assert (((1023 + e) * 2 ^ 52 + m) / 2 ^ 63 = 0) as -> by (apply Z.div_small; lia).
  assert (((1023 + e) * 2 ^ 52 + m) / 2 ^ 52 = 1023 + e) as ->.
  { rewrite Z.div_add_l by lia. rewrite (Z.div_small m) by lia. lia. }
  assert (((1023 + e) * 2 ^ 52 + m) mod 2 ^ 52 = m) as ->.
  { rewrite Z.add_comm, Z.mod_add by lia. by apply Z.mod_small. }
  rewrite (Z.mod_small (1023 + e)) by lia.
  replace (1023 + e =? 2047) with false by lia. cbn [Z.eqb].
  replace (1023 + e <? 1023) with false by lia.
  replace (1023 + e - 1023) with e by lia.
  assert ((2 ^ 52 + m) * 2 ^ e = n * 2 ^ 52) as ->.
  { unfold m. replace (2 ^ 52) with (2 ^ e * 2 ^ (52 - e))
      by (rewrite <-Z.pow_add_r by lia; f_equal; lia). ring. }
  rewrite Z.div_mul by lia. lia.
Qed.

(** ** Interface: a prefix code

    What one component promises to the code that reads its values back from
    a stream: an encoder and a decoder that returns the value and the number
    of bytes it consumed. *)
Class WireCodec (A : Type) := {
  wire_ok : A → bool;
  wire_encode : A → bytes;
  wire_decode : bytes → Res (A * Z);
}.
Class WireCodecLaws (A : Type) `{WireCodec A} := {
  wire_roundtrip a rest :
    wire_ok a = true →
    wire_decode (wire_encode a ++ rest) = Ok (a, zlen (wire_encode a));
  wire_safe data : bytes_ok data → safe (wire_decode data);
  wire_progress data a n :
    bytes_ok data → wire_decode data = Ok (a, n) → 1 ≤ n ≤ zlen data;
  wire_nonempty a : wire_encode a ≠ [];
}.

(** ** Automation for [post]

    [post_steps] walks through a guarded byte parser: it splits on the guards,
    and discharges every index and slice with the guard that protects it. *)
Lemma post_if {A} (Q : A → Prop) (c : bool) (e : string) (r : Res A) :
  (c = false → post Q r) → post Q (if c then Err e else r).
Proof. destruct c; cbn; auto. Qed.

Lemma post_at_bind {B} (Q : B → Prop) (data : bytes) i (f : Z → Res B) :
  bytes_ok data → 0 ≤ i < zlen data →
  (∀ b, is_byte b → post Q (f b)) → post Q (at_ data i ≫= f).
Proof. intros. eapply post_bind; [by apply (post_at is_byte)|]. auto. Qed.

Lemma post_be_bind {B} (Q : B → Prop) n (data : bytes) i (f : Z → Res B) :
  bytes_ok data → 0 ≤ i → i + Z.of_nat n ≤ zlen data →
  (∀ x, 0 ≤ x < 256 ^ Z.of_nat n → post Q (f x)) → post Q (be_at n data i ≫= f).
Proof. intros. eapply post_bind; [by apply post_be_at|]. auto. Qed.

Lemma post_slice_bind {B} (Q : B → Prop) (data : bytes) a b (f : bytes → Res B) :
  bytes_ok data → 0 ≤ a ≤ b → b ≤ zlen data →
  (∀ s, bytes_ok s → zlen s = b - a → post Q (f s)) → post Q (slice data a b ≫= f).
Proof.
  intros ??? Hf. eapply post_bind; [by apply (post_slice is_byte)|].
  intros s []. by apply Hf.
Qed.

Lemma post_slice_from_bind {B} (Q : B → Prop) (data : bytes) a (f : bytes → Res B) :
  bytes_ok data → 0 ≤ a ≤ zlen data →
  (∀ s, bytes_ok s → zlen s = zlen data - a → post Q (f s)) →
  post Q (slice_from data a ≫= f).
Proof.
  intros ?? Hf. eapply post_bind; [by apply (post_slice_from is_byte)|].
  intros s []. by apply Hf.
Qed.

Lemma post_ret {A} (Q : A → Prop) a : Q a → post Q (Ok a).
Proof. done. Qed.

(** Turns the boolean guards in the context into propositions. *)
Ltac guards :=
  repeat match goal with
  | H : negb _ = true |- _ => apply negb_true_iff in H
  | H : negb _ = false |- _ => apply negb_false_iff in H
  | H : (_ <? _) = false |- _ => apply Z.ltb_ge in H
  | H : (_ <? _) = true |- _ => apply Z.ltb_lt in H
  | H : (_ <=? _) = false |- _ => apply Z.leb_gt in H
  | H : (_ <=? _) = true |- _ => apply Z.leb_le in H
  | H : (_ =? _) = true |- _ => apply Z.eqb_eq in H
  | H : (_ =? _) = false |- _ => apply Z.eqb_neq in H
  | H : andb _ _ = true |- _ => let H' := fresh in apply andb_true_iff in H as [H H']
  | H : orb _ _ = false |- _ => let H' := fresh in apply orb_false_iff in H as [H H']
  end.

Ltac post_arith :=
  guards; unfold is_byte, is_u16, is_u32, is_u64 in *;
  change (256 ^ Z.of_nat 2) with 65536 in *;
  change (256 ^ Z.of_nat 4) with 4294967296 in *;
  zlen_facts; lia.

Ltac post_step :=
  match goal with
  | |- post _ (if _ then Err _ else _) => apply post_if; intro
  | |- post _ (mbind _ (at_ _ _)) =>
      apply post_at_bind; [assumption | post_arith | intros ? ?]
  | |- post _ (mbind _ (be_at _ _ _)) =>
      apply post_be_bind; [assumption | post_arith | post_arith | intros ? ?]
  | |- post _ (mbind _ (slice _ _ _)) =>
      apply post_slice_bind; [assumption | post_arith | post_arith | intros ? ? ?]
  | |- post _ (mbind _ (slice_from _ _)) =>
      apply post_slice_from_bind; [assumption | post_arith | intros ? ? ?]
  | |- post _ (Ok _) => apply post_ret
  | |- post _ (Err _) => exact I
  end.
Ltac post_steps := repeat (cbv zeta; post_step).

(** ** Stateful fallible code

    [ST S A]: a computation on a mutable [S] that may fail; what it changed
    before failing stays changed, as in Rust. *)
Definition ST (S A : Type) : Type := S → Res A * S.

#[export] Instance ST_ret S : MRet (ST S) := λ A a s, (Ok a, s).
#[export] Instance ST_bind S : MBind (ST S) := λ A B f m s,
  match m s with
  | (Ok a, s') => f a s'
  | (Err e, s') => (Err e, s')
  | (Panic, s') => (Panic, s')
  | (OutOfFuel, s') => (OutOfFuel, s')
  end.

Definition st_ret {S A} (a : A) : ST S A := λ s, (Ok a, s).
Definition st_lift {S A} (r : Res A) : ST S A := λ s, (r, s).
Definition st_fail {S A} (e : string) : ST S A := λ s, (Err e, s).
Definition st_get {S A} (f : S → A) : ST S A := λ s, (Ok (f s), s).
Definition st_modify {S} (f : S → S) : ST S unit := λ s, (Ok tt, f s).

(** [.context(msg)]: replaces the message of an error. *)
Definition context {S A} (msg : string) (m : ST S A) : ST S A := λ s,
  match m s with
  | (Err _, s') => (Err msg, s')
  | r => r
  end.

(** A reader over a byte slice ([&[u8]] or [Cursor<&[u8]>]): the bytes left.
    [read_exact] on a too short reader fails and leaves it at its end. *)
Definition read_exact (n : Z) : ST bytes bytes := λ r,
  if n <=? zlen r then (Ok (take (Z.to_nat n) r), drop (Z.to_nat n) r)
  else (Err "failed to fill whole buffer", []).

Lemma st_bind_ok {S A B} (m : ST S A) (f : A → ST S B) s a s' :
  m s = (Ok a, s') → (m ≫= f) s = f a s'.
Proof. intros E. unfold mbind, ST_bind. by rewrite E. Qed.

Lemma st_bind_err {S A B} (m : ST S A) (f : A → ST S B) s e s' :
  m s = (Err e, s') → (m ≫= f) s = (Err e, s').
Proof. intros E. unfold mbind, ST_bind. by rewrite E. Qed.

Lemma read_exact_app n l k :
  zlen l = n → read_exact n (l ++ k) = (Ok l, k).
Proof.
  intros <-. unfold read_exact. rewrite (proj2 (Z.leb_le _ _)) by zsolve.
  by rewrite length_zlen, take_app_length, drop_app_length.
Qed.

Lemma read_exact_short n r :
  zlen r < n → read_exact n r = (Err "failed to fill whole buffer", []).
Proof. intros. unfold read_exact. by rewrite (proj2 (Z.leb_gt _ _)). Qed.

Lemma context_ok {S A} msg (m : ST S A) s a s' :
  m s = (Ok a, s') → context msg m s = (Ok a, s').
Proof. intros E. unfold context. by rewrite E. Qed.

(** [st_post I Q m]: from a state satisfying [I], [m] is safe, keeps [I], and
    its value satisfies [Q]. *)
Definition st_post {S A} (I : S → Prop) (Q : A → Prop) (m : ST S A) : Prop :=
  ∀ s, I s → post Q (m s).1 ∧ I (m s).2.

Lemma st_post_bind {S A B} (I : S → Prop) (P : A → Prop) (Q : B → Prop)
    (m : ST S A) (f : A → ST S B) :
  st_post I P m → (∀ a, P a → st_post I Q (f a)) → st_post I Q (m ≫= f).
Proof.
  intros Hm Hf s Hs. destruct (Hm s Hs) as [HP HI]. unfold mbind, ST_bind.
  destruct (m s) as [[a|e| |] s']; cbn in *; auto. by apply Hf.
Qed.

Lemma st_post_ret {S A} (I : S → Prop) (Q : A → Prop) a :
  Q a → st_post I Q (st_ret a).
Proof. intros ? s ?. done. Qed.

Lemma st_post_fail {S A} (I : S → Prop) (Q : A → Prop) e :
  st_post I Q (@st_fail S A e).
Proof. intros s ?. done. Qed.

Lemma st_post_lift {S A} (I : S → Prop) (Q : A → Prop) (r : Res A) :
  post Q r → st_post I Q (st_lift r).
Proof. intros ? s ?. done. Qed.

Lemma st_post_mono {S A} (I : S → Prop) (P Q : A → Prop) (m : ST S A) :
  (∀ a, P a → Q a) → st_post I P m → st_post I Q m.
Proof. intros HPQ Hm s Hs. destruct (Hm s Hs). split; [by eapply post_mono|done]. Qed.

Lemma st_post_modify {S} (I : S → Prop) (f : S → S) :
  (∀ s, I s → I (f s)) → st_post I (λ _, True) (st_modify f).
Proof. intros Hf s Hs. split; [done|by apply Hf]. Qed.

Lemma st_post_context {S A} (I : S → Prop) (Q : A → Prop) msg (m : ST S A) :
  st_post I Q m → st_post I Q (context msg m).
Proof.
  intros Hm s Hs. destruct (Hm s Hs) as [HQ HI]. unfold context.
  destruct (m s) as [[] ?]; done.
Qed.

Lemma st_post_read_exact n :
  0 ≤ n → st_post bytes_ok (λ l, bytes_ok l ∧ zlen l = n) (read_exact n).
Proof.
  intros Hn r Hr. unfold read_exact. destruct (Z.leb_spec n (zlen r)); cbn.
  - split_and!; [by apply Forall_take|by rewrite zlen_take by lia|by apply Forall_drop].
  - split; [done|constructor].
Qed.

(** Forward execution: [st_next tac] runs the first computation of a bind,
    whose result [tac] proves. *)
Lemma st_bind_eq {S A B} (m : ST S A) (f : A → ST S B) s a s' r :
  m s = (Ok a, s') → f a s' = r → (m ≫= f) s = r.
Proof. intros E <-. by apply st_bind_ok. Qed.

Lemma context_read_exact_app msg n l k :
  zlen l = n → context msg (read_exact n) (l ++ k) = (Ok l, k).
Proof. intros. by apply context_ok, read_exact_app. Qed.

Lemma st_lift_ok {S A} (r : Res A) a (s : S) : r = Ok a → st_lift r s = (Ok a, s).
Proof. by intros ->. Qed.

Tactic Notation "st_next" tactic3(tac) := eapply st_bind_eq; [tac | cbv beta iota].
