(* ===== verification/Amf0.v ===== *)
(** * AMF0 values ([crates/protocols/src/rtmp/amf0.rs])

    The parser and serializer of the RTMP command payloads.  [f64] numbers are
    64-bit patterns, strings are UTF-8 byte sequences.  The recursion of
    [Amf0Value::parse] is open: every helper takes the recursive parser [rec],
    and [parse_f] ties the knot with a depth fuel; [parse] instantiates the
    fuel from the input length, which [parse_total] shows is always enough. *)
From Stdlib Require Import ZArith Lia List Bool String.
From stdpp Require Import base option list numbers.
From S2P Require Import Prelude.

Definition AMF0_NUMBER : Z := 0x00.
Definition AMF0_BOOLEAN : Z := 0x01.
Definition AMF0_STRING : Z := 0x02.
Definition AMF0_OBJECT : Z := 0x03.
Definition AMF0_NULL : Z := 0x05.
Definition AMF0_UNDEFINED : Z := 0x06.
Definition AMF0_ECMA_ARRAY : Z := 0x08.
Definition AMF0_OBJECT_END : Z := 0x09.
Definition AMF0_STRICT_ARRAY : Z := 0x0A.
Definition AMF0_DATE : Z := 0x0B.
Definition AMF0_LONG_STRING : Z := 0x0C.
Definition AMF0_XML : Z := 0x0F.
Definition AMF0_TYPED_OBJECT : Z := 0x10.
Definition AMF0_AMF3 : Z := 0x11.

Inductive Amf0Value : Type :=
  | Number (bits : Z)
  | Boolean (b : bool)
  | AString (s : bytes)
  | Object (entries : list (bytes * Amf0Value))
  | Null
  | Undefined
  | EcmaArray (count : Z) (entries : list (bytes * Amf0Value)).

(** ** Serialization *)
Definition serialize_object_entries (serialize : Amf0Value → bytes)
    (entries : list (bytes * Amf0Value)) : bytes :=
  flat_map (λ kv : bytes * Amf0Value,
    to_be 2 (wrap16 (zlen kv.1)) ++ kv.1 ++ serialize kv.2) entries.

Fixpoint serialize (v : Amf0Value) : bytes :=
  match v with
  | Number n => AMF0_NUMBER :: to_be 8 n
  | Boolean b => [AMF0_BOOLEAN; if b then 1 else 0]
  | AString s => AMF0_STRING :: to_be 2 (wrap16 (zlen s)) ++ s
  | Object entries =>
      AMF0_OBJECT :: serialize_object_entries serialize entries
        ++ [0x00; 0x00; AMF0_OBJECT_END]
  | Null => [AMF0_NULL]
  | Undefined => [AMF0_UNDEFINED]
  | EcmaArray count entries =>
      AMF0_ECMA_ARRAY :: to_be 4 count ++ serialize_object_entries serialize entries
        ++ [0x00; 0x00; AMF0_OBJECT_END]
  end.

(** ** Parsing *)
Section parse.
Context (rec : bytes → Res (Amf0Value * Z)).

(** The [loop] of [parse_object_entries], from position [pos] with the
    entries read so far; one unit of fuel per iteration. *)
Fixpoint entries_loop (fuel : nat) (data : bytes) (pos : Z)
    (entries : list (bytes * Amf0Value)) : Res (list (bytes * Amf0Value) * Z) :=
  match fuel with
  | O => OutOfFuel
  | S fuel =>
    if zlen data <? pos + 2 then
      Err "Insufficient data for AMF0 object key length"
    else
    key_len ← be_at 2 data pos;
    let pos := pos + 2 in
    is_end ← (if key_len =? 0 then
                if zlen data <? pos + 1 then
                  Err "Insufficient data for AMF0 object end marker"
                else
                  b ← at_ data pos; Ok (b =? AMF0_OBJECT_END)
              else Ok false);
    if (is_end : bool) then Ok (entries, pos + 1)
    else if zlen data <? pos + key_len then
      Err "Insufficient data for AMF0 object key value"
    else
    key ← slice data pos (pos + key_len);
    if negb (utf8_valid key) then Err "Invalid UTF-8 in AMF0 object key"
    else
    let pos := pos + key_len in
    sub ← slice_from data pos;
    '(value, consumed) ← rec sub;
    entries_loop fuel data (pos + consumed) (entries ++ [(key, value)])
  end.

Definition parse_object_entries (data : bytes) (offset : Z)
    : Res (list (bytes * Amf0Value) * Z) :=
  '(entries, pos) ← entries_loop (S (length data)) data offset [];
  Ok (entries, pos - offset).

Definition parse_object (data : bytes) (offset : Z) : Res (Amf0Value * Z) :=
  '(entries, consumed) ← parse_object_entries data offset;
  Ok (Object entries, offset + consumed).

(** The [for _ in 0..count] loop of [parse_strict_array]. *)
Fixpoint strict_loop (fuel : nat) (data : bytes) (todo pos : Z)
    (entries : list (bytes * Amf0Value)) : Res (list (bytes * Amf0Value) * Z) :=
  match fuel with
  | O => OutOfFuel
  | S fuel =>
    if todo <=? 0 then Ok (entries, pos)
    else
    sub ← slice_from data pos;
    '(value, consumed) ← rec sub;
    strict_loop fuel data (todo - 1) (pos + consumed)
      (entries ++ [(dec_of_Z (zlen entries), value)])
  end.

Definition parse_strict_array (data : bytes) (offset : Z) : Res (Amf0Value * Z) :=
  if zlen data <? offset + 4 then
    Err "Insufficient data for AMF0 strict array count"
  else
  count ← be_at 4 data offset;
  '(entries, pos) ← strict_loop (S (length data)) data count (offset + 4) [];
  Ok (EcmaArray (wrap32 count) entries, pos).

Definition parse_date (data : bytes) (offset : Z) : Res (Amf0Value * Z) :=
  if zlen data <? offset + 10 then Err "Insufficient data for AMF0 date"
  else
  ms ← be_at 8 data offset;
  tz ← be_at 2 data (offset + 8);
  Ok (EcmaArray 2 [(bytes_of_string "ms", Number ms);
                   (bytes_of_string "tz", Number (f64_of_u32 tz))],
      offset + 10).

Definition parse_long_string (data : bytes) (offset : Z) : Res (Amf0Value * Z) :=
  if zlen data <? offset + 4 then
    Err "Insufficient data for AMF0 long string length"
  else
  len ← be_at 4 data offset;
  if zlen data <? offset + 4 + len then
    Err "Insufficient data for AMF0 long string value"
  else
  value ← slice data (offset + 4) (offset + 4 + len);
  if negb (utf8_valid value) then Err "Invalid UTF-8 in AMF0 long string"
  else Ok (AString value, offset + 4 + len).

Definition parse_xml (data : bytes) (offset : Z) : Res (Amf0Value * Z) :=
  parse_long_string data offset.

Definition parse_typed_object (data : bytes) (offset : Z) : Res (Amf0Value * Z) :=
  if zlen data <? offset + 2 then
    Err "Insufficient data for AMF0 typed object class name length"
  else
  class_name_len ← be_at 2 data offset;
  let pos := offset + 2 in
  if zlen data <? pos + class_name_len then
    Err "Insufficient data for AMF0 typed object class name"
  else
  class_name ← slice data pos (pos + class_name_len);
  if negb (utf8_valid class_name) then
    Err "Invalid UTF-8 in AMF0 typed object class name"
  else
  let pos := pos + class_name_len in
  '(entries, consumed) ← parse_object_entries data pos;
  if zlen data <? pos + consumed + 3 then
    Err "Insufficient data for AMF0 typed object end marker"
  else
  tail ← slice data (pos + consumed) (pos + consumed + 3);
  if negb (bool_decide (tail = [0x00; 0x00; AMF0_OBJECT_END])) then
    Err "Invalid AMF0 typed object end marker"
  else Ok (Object entries, pos + consumed + 3).

Definition parse_string (data : bytes) (offset : Z) : Res (Amf0Value * Z) :=
  if zlen data <? offset + 2 then Err "Insufficient data for AMF0 string length"
  else
  len ← be_at 2 data offset;
  if zlen data <? offset + 2 + len then
    Err "Insufficient data for AMF0 string value"
  else
  value ← slice data (offset + 2) (offset + 2 + len);
  if negb (utf8_valid value) then Err "Invalid UTF-8 in AMF0 string"
  else Ok (AString value, offset + 2 + len).

(** The body of [Amf0Value::parse]. *)
Definition parse_step (data : bytes) : Res (Amf0Value * Z) :=
  if zlen data =? 0 then Err "Cannot parse AMF0 value from empty data"
  else
  marker ← at_ data 0;
  let offset := 1 in
  if marker =? AMF0_NUMBER then
    if zlen data <? offset + 8 then Err "Insufficient data for AMF0 number"
    else value ← be_at 8 data offset; Ok (Number value, offset + 8)
  else if marker =? AMF0_BOOLEAN then
    if zlen data <? offset + 1 then Err "Insufficient data for AMF0 boolean"
    else b ← at_ data offset; Ok (Boolean (negb (b =? 0)), offset + 1)
  else if marker =? AMF0_STRING then parse_string data offset
  else if marker =? AMF0_OBJECT then parse_object data offset
  else if marker =? AMF0_NULL then Ok (Null, offset)
  else if marker =? AMF0_UNDEFINED then Ok (Undefined, offset)
  else if marker =? AMF0_ECMA_ARRAY then
    if zlen data <? offset + 4 then
      Err "Insufficient data for AMF0 ECMA array count"
    else
    count ← be_at 4 data offset;
    '(entries, consumed) ← parse_object_entries data (offset + 4);
    Ok (EcmaArray count entries, offset + 4 + consumed)
  else if marker =? AMF0_STRICT_ARRAY then parse_strict_array data offset
  else if marker =? AMF0_DATE then parse_date data offset
  else if marker =? AMF0_LONG_STRING then parse_long_string data offset
  else if marker =? AMF0_XML then parse_xml data offset
  else if marker =? AMF0_TYPED_OBJECT then parse_typed_object data offset
  else if marker =? AMF0_AMF3 then Err "AMF3 encoding not supported"
  else Err "Unknown AMF0 type marker".
End parse.

(** Nesting depth is bounded by the fuel; each level consumes its marker. *)
Fixpoint parse_f (fuel : nat) (data : bytes) : Res (Amf0Value * Z) :=
  match fuel with
  | O => OutOfFuel
  | S fuel => parse_step (parse_f fuel) data
  end.

Definition parse (data : bytes) : Res (Amf0Value * Z) := parse_f (S (length data)) data.

(** ** Well-formed values

    [value_okb max v]: numbers and counts are in range and every string is
    UTF-8 of at most [max] bytes.  The wire format has 16-bit string lengths,
    so a value can be encoded when [value_okb 65535 v]. *)
Definition str_okb (max : Z) (s : bytes) : bool :=
  forallb (λ b, (0 <=? b) && (b <? 256)) s && utf8_valid s && (zlen s <=? max).

Fixpoint value_okb (max : Z) (v : Amf0Value) : bool :=
  match v with
  | Number n => (0 <=? n) && (n <? 2 ^ 64)
  | Boolean _ | Null | Undefined => true
  | AString s => str_okb max s
  | Object es => forallb (λ kv, str_okb max kv.1 && value_okb max kv.2) es
  | EcmaArray c es =>
      (0 <=? c) && (c <? 2 ^ 32)
      && forallb (λ kv, str_okb max kv.1 && value_okb max kv.2) es
  end.

Definition entries_okb (max : Z) (es : list (bytes * Amf0Value)) : bool :=
  forallb (λ kv, str_okb max kv.1 && value_okb max kv.2) es.

Lemma bytes_okb_iff s : forallb (λ b, (0 <=? b) && (b <? 256)) s = true ↔ bytes_ok s.
Proof.
  unfold bytes_ok, is_byte. rewrite forallb_forall, List.Forall_forall.
  split; intros H x Hx; specialize (H x Hx); cbn in *.
  - guards. lia.
  - rewrite andb_true_iff, Z.leb_le, Z.ltb_lt. lia.
Qed.

Lemma str_okb_iff max s :
  str_okb max s = true ↔ bytes_ok s ∧ utf8_valid s = true ∧ zlen s ≤ max.
Proof.
  unfold str_okb. rewrite !andb_true_iff, bytes_okb_iff, Z.leb_le. tauto.
Qed.

Lemma entries_okb_snoc max es k v :
  entries_okb max es = true → str_okb max k = true → value_okb max v = true →
  entries_okb max (es ++ [(k, v)]) = true.
Proof.
  unfold entries_okb. intros He Hk Hv. rewrite forallb_app, He. cbn. by rewrite Hk, Hv.
Qed.

(** ** The parser is total and stays inside its input *)
Definition max_str : Z := 2 ^ 32 - 1.

Definition parsed (data : bytes) (r : Amf0Value * Z) : Prop :=
  value_okb max_str r.1 = true ∧ 1 ≤ r.2 ≤ zlen data.

(** What the helpers assume of the recursive parser: it is right on inputs
    shorter than the current one. *)
Definition rec_ok (rec : bytes → Res (Amf0Value * Z)) (L : Z) : Prop :=
  ∀ d, bytes_ok d → zlen d < L → post (parsed d) (rec d).

Section safety.
Context (rec : bytes → Res (Amf0Value * Z)) (data : bytes).
Hypothesis Hrec : rec_ok rec (zlen data).
Hypothesis Hdata : bytes_ok data.

Lemma entries_loop_safe fuel pos es :
  0 ≤ pos ≤ zlen data → zlen data - pos < Z.of_nat fuel →
  entries_okb max_str es = true →
  post (λ r, entries_okb max_str r.1 = true ∧ pos + 3 ≤ r.2 ≤ zlen data)
       (entries_loop rec fuel data pos es).
Proof.
  revert pos es. induction fuel as [|fuel IH]; intros pos es Hpos Hfuel Hes;
    [lia|]. cbn [entries_loop].
  post_steps.
  eapply post_bind with (P := λ b : bool, b = true → pos + 3 ≤ zlen data).
  { destruct (_ =? 0); post_steps; intros; post_arith. }
  intros is_end Hend. destruct is_end.
  { post_steps. cbn. split; [done|]. specialize (Hend eq_refl). lia. }
  clear Hend.
  post_steps.
  eapply post_bind; [apply Hrec; [done|post_arith]|].
  intros [v n] [Hv Hn]. cbn in Hv, Hn.
  eapply post_mono; [|apply IH].
  - intros [es' p] [? Hp']. cbn in *. split; [done|post_arith].
  - post_arith.
  - post_arith.
  - apply entries_okb_snoc; [done| |done].
    apply str_okb_iff. split_and!; [done|by guards|]. unfold max_str. post_arith.
Qed.

Lemma parse_object_entries_safe offset :
  0 ≤ offset ≤ zlen data →
  post (λ r, entries_okb max_str r.1 = true ∧ 3 ≤ r.2 ≤ zlen data - offset)
       (parse_object_entries rec data offset).
Proof.
  intros. unfold parse_object_entries.
  eapply post_bind; [apply entries_loop_safe; [done| |done]|].
  { unfold zlen in *. lia. }
  intros [es p]; cbn. intros []. split; [done|lia].
Qed.

Lemma strict_loop_safe fuel todo pos es :
  0 ≤ pos ≤ zlen data → 1 ≤ pos → zlen data - pos < Z.of_nat fuel →
  entries_okb max_str es = true → zlen es + Z.max 0 todo < 2 ^ 32 →
  post (λ r, entries_okb max_str r.1 = true ∧ pos ≤ r.2 ≤ zlen data)
       (strict_loop rec fuel data todo pos es).
Proof.
  revert todo pos es. induction fuel as [|fuel IH];
    intros todo pos es Hpos Hp Hfuel Hes Htodo; [lia|]. cbn [strict_loop].
  destruct (Z.leb_spec todo 0); [cbn; split; [done|lia]|].
  post_steps.
  eapply post_bind; [apply Hrec; [done|post_arith]|].
  intros [v n] [Hv Hn]. cbn in Hv, Hn.
  eapply post_mono; [|apply IH].
  - intros [es' p] [? Hp']. cbn in *. split; [done|post_arith].
  - post_arith.
  - post_arith.
  - post_arith.
  - apply entries_okb_snoc; [done| |done].
    pose proof (dec_of_Z_ascii (zlen es)) as Ha.
    apply str_okb_iff. split_and!; [by apply ascii_bytes_ok|by apply utf8_valid_ascii|].
    unfold zlen, dec_of_Z, max_str. rewrite length_rev.
    assert (∀ f n, (length (dec_rev f n) ≤ f)%nat) as Hl.
    { induction f as [|f IHf]; intros m; cbn; [lia|]. specialize (IHf (m / 10)).
      destruct (m <? 10); cbn; lia. }
    specialize (Hl (S (Z.to_nat (Z.log2 (Z.of_nat (length es))))) (Z.of_nat (length es))).
    pose proof (Z.log2_le_lin (Z.of_nat (length es))). unfold zlen in *. lia.
  - rewrite zlen_app. change (zlen [_]) with 1. lia.
Qed.
End safety.

Lemma parsed_intro data v n :
  value_okb max_str v = true → 1 ≤ n ≤ zlen data → parsed data (v, n).
Proof. done. Qed.

Lemma in_range_okb x n : 0 ≤ x < n → (0 <=? x) && (x <? n) = true.
Proof. intros. rewrite andb_true_iff, Z.leb_le, Z.ltb_lt. lia. Qed.

Section safety_step.
Context (rec : bytes → Res (Amf0Value * Z)) (data : bytes).
Hypothesis Hrec : rec_ok rec (zlen data).
Hypothesis Hdata : bytes_ok data.

Lemma parse_long_string_safe : post (parsed data) (parse_long_string data 1).
Proof.
  unfold parse_long_string. post_steps. apply parsed_intro; [|post_arith].
  apply str_okb_iff. split_and!; [done|by guards|unfold max_str; post_arith].
Qed.

Lemma parse_string_safe : post (parsed data) (parse_string data 1).
Proof.
  unfold parse_string. post_steps. apply parsed_intro; [|post_arith].
  apply str_okb_iff. split_and!; [done|by guards|unfold max_str; post_arith].
Qed.

Lemma parse_date_safe : post (parsed data) (parse_date data 1).
Proof.
  unfold parse_date. post_steps. apply parsed_intro; [|post_arith].
  cbn [value_okb forallb fst snd].
  assert (str_okb max_str (bytes_of_string "ms") = true) as -> by (vm_compute; reflexivity).
  assert (str_okb max_str (bytes_of_string "tz") = true) as -> by (vm_compute; reflexivity).
  assert (is_u64 (f64_of_u32 x0)) as Htz.
  { apply f64_of_u32_range. unfold is_u32. post_arith. }
  rewrite (in_range_okb x), (in_range_okb (f64_of_u32 x0)); done.
Qed.

Lemma parse_object_safe : 1 ≤ zlen data → post (parsed data) (parse_object rec data 1).
Proof.
  intros. unfold parse_object.
  eapply post_bind; [by apply parse_object_entries_safe; [..|lia]|].
  intros [es n] [Hes Hn]. cbn in Hes, Hn. apply parsed_intro; [done|lia].
Qed.

Lemma parse_strict_array_safe : post (parsed data) (parse_strict_array rec data 1).
Proof.
  unfold parse_strict_array. post_steps.
  eapply post_bind.
  - apply strict_loop_safe; try done; try post_arith.
    + unfold zlen in *. post_arith.
    + change (zlen []) with 0. post_arith.
  - intros [es p] [Hes Hp]. cbn in Hes, Hp. post_steps.
    apply parsed_intro; [|post_arith].
    cbn [value_okb]. unfold entries_okb in Hes. rewrite Hes, andb_true_r.
    apply in_range_okb. unfold wrap32. by apply Z.mod_pos_bound.
Qed.

Lemma parse_typed_object_safe : post (parsed data) (parse_typed_object rec data 1).
Proof.
  unfold parse_typed_object. post_steps.
  eapply post_bind; [apply parse_object_entries_safe; [done|done|post_arith]|].
  intros [es n] [Hes Hn]. cbn in Hes, Hn. post_steps.
  apply parsed_intro; [done|post_arith].
Qed.

Lemma parse_step_safe : post (parsed data) (parse_step rec data).
Proof.
  unfold parse_step. post_steps.
  repeat match goal with
  | |- post _ (if ?c then _ else _) => destruct c eqn:?
  end; post_steps;
    try (apply parsed_intro; [reflexivity || idtac | post_arith]).
  - apply in_range_okb. done.
  - apply parse_string_safe.
  - apply parse_object_safe. post_arith.
  - eapply post_bind; [apply parse_object_entries_safe; [done|done|post_arith]|].
    intros [es n] [Hes Hn]. cbn in Hes, Hn. apply parsed_intro; [|lia].
    cbn [value_okb]. unfold entries_okb in Hes. rewrite Hes, andb_true_r.
    by apply in_range_okb.
  - apply parse_strict_array_safe.
  - apply parse_date_safe.
  - apply parse_long_string_safe.
  - apply parse_long_string_safe.
  - apply parse_typed_object_safe.
Qed.
End safety_step.

Lemma parse_f_safe fuel data :
  bytes_ok data → zlen data < Z.of_nat fuel → post (parsed data) (parse_f fuel data).
Proof.
  revert data. induction fuel as [|fuel IH]; intros data Hd Hf.
  - zlen_facts. lia.
  - cbn [parse_f]. apply parse_step_safe; [|done].
    intros d Hd' Hlt. apply IH; [done|lia].
Qed.

(** ** Reading back what was serialized *)
Lemma serialize_head v : ∃ m t, serialize v = m :: t ∧ m ≠ AMF0_OBJECT_END.
Proof. destruct v; cbn [serialize]; eexists _, _; split; reflexivity || done. Qed.

Lemma zlen_serialize_pos v : 1 ≤ zlen (serialize v).
Proof. destruct (serialize_head v) as (m & t & -> & _). rewrite zlen_cons. zlen_facts. lia. Qed.

Lemma serialize_entries_cons k v es :
  serialize_object_entries serialize ((k, v) :: es)
  = to_be 2 (wrap16 (zlen k)) ++ k ++ serialize v ++ serialize_object_entries serialize es.
Proof. unfold serialize_object_entries. cbn [flat_map fst snd]. by rewrite <-!app_assoc. Qed.

Lemma zlen_serialize_entries es :
  3 * zlen es ≤ zlen (serialize_object_entries serialize es).
Proof.
  induction es as [|[k v] es IH]; [done|].
  rewrite serialize_entries_cons, zlen_cons, !zlen_app, zlen_to_be.
  pose proof (zlen_serialize_pos v). zlen_facts. lia.
Qed.

Lemma entry_smaller k v es :
  (k, v) ∈ es → zlen (serialize v) < zlen (serialize_object_entries serialize es).
Proof.
  induction es as [|[k' v'] es IH]; intros Hin; [by apply elem_of_nil in Hin|].
  rewrite serialize_entries_cons, !zlen_app, zlen_to_be.
  apply elem_of_cons in Hin as [[= -> ->]|Hin].
  - zlen_facts. lia.
  - specialize (IH Hin). zlen_facts. lia.
Qed.

Definition object_end : bytes := [0x00; 0x00; AMF0_OBJECT_END].

(** The guard [if c then Err e else r] falls through when [c] is false. *)
Ltac skip_guard :=
  match goal with
  | |- (if ?c then Err _ else _) = _ =>
      let H := fresh in
      assert (c = false) as H;
      [ try (apply Z.ltb_ge); zsolve | rewrite H; clear H ]
  end.

Section roundtrip.
Context (rec : bytes → Res (Amf0Value * Z)).

(** One iteration of the loop on an encoded entry. *)
Lemma entries_loop_entry fuel pre k v tl acc :
  str_okb 65535 k = true →
  rec (serialize v ++ tl) = Ok (v, zlen (serialize v)) →
  entries_loop rec (S fuel)
    (pre ++ to_be 2 (wrap16 (zlen k)) ++ k ++ serialize v ++ tl) (zlen pre) acc
  = entries_loop rec fuel
      (pre ++ to_be 2 (wrap16 (zlen k)) ++ k ++ serialize v ++ tl)
      (zlen pre + 2 + zlen k + zlen (serialize v)) (acc ++ [(k, v)]).
Proof.
  intros (Hk & Hu & Hl)%str_okb_iff Hrec. pose proof (zlen_nonneg k).
  assert (wrap16 (zlen k) = zlen k) as Hw by (apply Z.mod_small; lia). rewrite Hw.
  set (data := pre ++ _). cbn [entries_loop].
  assert (zlen data = zlen pre + 2 + zlen k + zlen (serialize v) + zlen tl) as Hlen
    by (unfold data; rewrite !zlen_app, zlen_to_be; lia).
  pose proof (zlen_serialize_pos v). pose proof (zlen_nonneg tl).
  replace (zlen data <? zlen pre + 2) with false by (symmetry; apply Z.ltb_ge; lia).
  assert (be_at 2 data (zlen pre) = Ok (zlen k)) as -> by (apply be_at_to_be; lia).
  cbn [mbind Res_bind]. cbv zeta.
  assert ((if zlen k =? 0
           then if zlen data <? zlen pre + 2 + 1
                then Err "Insufficient data for AMF0 object end marker"
                else b ← at_ data (zlen pre + 2); Ok (b =? AMF0_OBJECT_END)
           else Ok false) = Ok false) as ->.
  { destruct (Z.eqb_spec (zlen k) 0) as [Hz|]; [|done].
    apply zlen_0 in Hz. subst k.
    replace (zlen data <? zlen pre + 2 + 1) with false by (symmetry; apply Z.ltb_ge; lia).
    destruct (serialize_head v) as (m & t & Hs & Hm).
    unfold data. rewrite Hs, (app_assoc pre).
    replace (zlen pre + 2) with (zlen (pre ++ to_be 2 (zlen (@nil Z)))) by (rewrite zlen_app, zlen_to_be; lia).
    cbn [app]. rewrite at_app_here. cbn [mbind Res_bind].
    by rewrite (proj2 (Z.eqb_neq _ _)). }
  cbn [mbind Res_bind].
  replace (zlen data <? zlen pre + 2 + zlen k) with false by (symmetry; apply Z.ltb_ge; lia).
  assert (slice data (zlen pre + 2) (zlen pre + 2 + zlen k) = Ok k) as ->.
  { unfold data. rewrite app_assoc. apply slice_app_mid; rewrite zlen_app, zlen_to_be; lia. }
  cbn [mbind Res_bind]. rewrite Hu. cbn [negb].
  assert (slice_from data (zlen pre + 2 + zlen k) = Ok (serialize v ++ tl)) as ->.
  { unfold data. rewrite app_assoc, app_assoc.
    apply slice_from_app'. rewrite !zlen_app, zlen_to_be. lia. }
  cbn [mbind Res_bind]. rewrite Hrec. done.
Qed.

(** The iteration that reads the end marker. *)
Lemma entries_loop_end fuel pre rest acc :
  entries_loop rec (S fuel) (pre ++ object_end ++ rest) (zlen pre) acc
  = Ok (acc, zlen pre + 3).
Proof.
  set (data := pre ++ _). cbn [entries_loop].
  assert (zlen data = zlen pre + 3 + zlen rest) as Hlen
    by (unfold data; rewrite !zlen_app; change (zlen object_end) with 3; lia).
  pose proof (zlen_nonneg rest).
  replace (zlen data <? zlen pre + 2) with false by (symmetry; apply Z.ltb_ge; lia).
  assert (be_at 2 data (zlen pre) = Ok 0) as ->.
  { unfold data, object_end. change ([0; 0; AMF0_OBJECT_END]) with (to_be 2 0 ++ [AMF0_OBJECT_END]).
    rewrite <-app_assoc. by apply be_at_to_be. }
  cbn [mbind Res_bind Z.eqb]. cbv zeta.
  replace (zlen data <? zlen pre + 2 + 1) with false by (symmetry; apply Z.ltb_ge; lia).
  assert (at_ data (zlen pre + 2) = Ok AMF0_OBJECT_END) as ->.
  { unfold data. rewrite at_app_add by lia. done. }
  cbn. do 2 f_equal. lia.
Qed.

Lemma entries_loop_serialized es pre rest acc fuel :
  entries_okb 65535 es = true →
  (∀ k v, (k, v) ∈ es → ∀ tl, rec (serialize v ++ tl) = Ok (v, zlen (serialize v))) →
  (length es < fuel)%nat →
  entries_loop rec fuel
    (pre ++ serialize_object_entries serialize es ++ object_end ++ rest) (zlen pre) acc
  = Ok (acc ++ es, zlen pre + zlen (serialize_object_entries serialize es) + 3).
Proof.
  revert pre acc fuel. induction es as [|[k v] es IH]; intros pre acc fuel Hok Hrec Hf.
  - destruct fuel as [|fuel]; [cbn in Hf; lia|].
    change (serialize_object_entries serialize []) with (@nil Z). cbn [app].
    rewrite entries_loop_end, app_nil_r. by rewrite zlen_nil, Z.add_0_r.
  - destruct fuel as [|fuel]; [cbn in Hf; lia|].
    cbn [entries_okb forallb fst snd] in Hok.
    apply andb_true_iff in Hok as [[Hk Hv]%andb_true_iff Hes].
    rewrite serialize_entries_cons, <-!app_assoc.
    rewrite entries_loop_entry; [|done|].
    2: { apply Hrec with (k := k). by left. }
    specialize (IH (pre ++ to_be 2 (wrap16 (zlen k)) ++ k ++ serialize v)
                   (acc ++ [(k, v)]) fuel Hes).
    rewrite <-!app_assoc in IH. rewrite !zlen_app, zlen_to_be in IH.
    replace (zlen pre + 2 + zlen k + zlen (serialize v))
      with (zlen pre + (Z.of_nat 2 + (zlen k + zlen (serialize v)))) by lia.
    rewrite IH.
    + cbn [app]. do 2 f_equal. rewrite !zlen_app, zlen_to_be. lia.
    + intros k' v' Hin. apply (Hrec k'). by right.
    + cbn [length] in Hf. lia.
Qed.

Lemma parse_object_entries_serialized es pre rest :
  entries_okb 65535 es = true →
  (∀ k v, (k, v) ∈ es → ∀ tl, rec (serialize v ++ tl) = Ok (v, zlen (serialize v))) →
  parse_object_entries rec
    (pre ++ serialize_object_entries serialize es ++ object_end ++ rest) (zlen pre)
  = Ok (es, zlen (serialize_object_entries serialize es) + 3).
Proof.
  intros Hok Hrec. unfold parse_object_entries.
  rewrite entries_loop_serialized; [|done|done|].
  - cbn. do 2 f_equal. lia.
  - pose proof (zlen_serialize_entries es) as H3. unfold zlen in H3.
    rewrite !length_app. lia.
Qed.
End roundtrip.

(** The dispatch of [parse_step] on a known, in-range marker. *)
Lemma zlen_cons_eqb {A} (m : A) t : (zlen (m :: t) =? 0) = false.
Proof. apply Z.eqb_neq. rewrite zlen_cons. zlen_facts. lia. Qed.

Ltac dispatch :=
  unfold parse_step; rewrite zlen_cons_eqb;
  lazymatch goal with |- context [at_ (?m :: ?t) 0] =>
    change (at_ (m :: t) 0) with (Ok m) end;
  cbn [mbind Res_bind]; cbv zeta;
  repeat match goal with |- context [?a =? ?b] =>
    let r := eval vm_compute in (a =? b) in
    lazymatch r with true => idtac | false => idtac end;
    change (a =? b) with r; cbv iota end.

Lemma parse_step_string rec s rest :
  str_okb 65535 s = true →
  parse_step rec (AMF0_STRING :: to_be 2 (wrap16 (zlen s)) ++ s ++ rest)
  = Ok (AString s, 3 + zlen s).
Proof.
  intros (Hs & Hu & Hl)%str_okb_iff. pose proof (zlen_nonneg s). pose proof (zlen_nonneg rest).
  assert (wrap16 (zlen s) = zlen s) as Hw by (apply Z.mod_small; lia). rewrite Hw. clear Hw.
  dispatch. unfold parse_string.
  set (data := AMF0_STRING :: _).
  assert (zlen data = 3 + zlen s + zlen rest) as Hlen
    by (unfold data; rewrite zlen_cons, !zlen_app, zlen_to_be; lia).
  replace (zlen data <? 1 + 2) with false by (symmetry; apply Z.ltb_ge; lia).
  assert (be_at 2 data 1 = Ok (zlen s)) as ->.
  { apply (be_at_to_be 2 (zlen s) [AMF0_STRING]); [lia|done]. }
  cbn [mbind Res_bind].
  replace (zlen data <? 1 + 2 + zlen s) with false by (symmetry; apply Z.ltb_ge; lia).
  assert (slice data (1 + 2) (1 + 2 + zlen s) = Ok s) as ->.
  { apply (slice_app_mid (AMF0_STRING :: to_be 2 (zlen s)) s rest);
      rewrite zlen_cons, zlen_to_be; lia. }
  cbn [mbind Res_bind]. rewrite Hu. done.
Qed.

Lemma parse_step_number rec n rest :
  is_u64 n → parse_step rec (AMF0_NUMBER :: to_be 8 n ++ rest) = Ok (Number n, 9).
Proof.
  intros Hn. dispatch. set (data := AMF0_NUMBER :: _).
  assert (zlen data = 9 + zlen rest) as Hlen
    by (unfold data; rewrite zlen_cons, !zlen_app, zlen_to_be; lia).
  pose proof (zlen_nonneg rest).
  replace (zlen data <? 1 + 8) with false by (symmetry; apply Z.ltb_ge; lia).
  assert (be_at 8 data 1 = Ok n) as ->; [|done].
  apply (be_at_to_be 8 n [AMF0_NUMBER]); [exact Hn|done].
Qed.

Section roundtrip_step.
Context (rec : bytes → Res (Amf0Value * Z)) (es : list (bytes * Amf0Value)).
Hypothesis Hok : entries_okb 65535 es = true.
Hypothesis Hrec : ∀ k v, (k, v) ∈ es →
  ∀ tl, rec (serialize v ++ tl) = Ok (v, zlen (serialize v)).
Let body := serialize_object_entries serialize es.

Lemma parse_step_object rest :
  parse_step rec (AMF0_OBJECT :: body ++ object_end ++ rest)
  = Ok (Object es, 4 + zlen body).
Proof.
  dispatch. unfold parse_object.
  pose proof (parse_object_entries_serialized rec es [AMF0_OBJECT] rest Hok Hrec) as E.
  change (zlen [AMF0_OBJECT]) with 1 in E. cbn [app] in E. fold body in E. rewrite E.
  cbn [mbind Res_bind]. do 2 f_equal. lia.
Qed.

Lemma parse_step_ecma count rest :
  is_u32 count →
  parse_step rec (AMF0_ECMA_ARRAY :: to_be 4 count ++ body ++ object_end ++ rest)
  = Ok (EcmaArray count es, 8 + zlen body).
Proof.
  intros Hc. dispatch. set (data := AMF0_ECMA_ARRAY :: _).
  assert (zlen data = 8 + zlen body + zlen rest) as Hlen
    by (unfold data; rewrite zlen_cons, !zlen_app, zlen_to_be;
        change (zlen object_end) with 3; lia).
  pose proof (zlen_nonneg rest). pose proof (zlen_nonneg body).
  replace (zlen data <? 1 + 4) with false by (symmetry; apply Z.ltb_ge; lia).
  assert (be_at 4 data 1 = Ok count) as ->.
  { apply (be_at_to_be 4 count [AMF0_ECMA_ARRAY]); [exact Hc|done]. }
  cbn [mbind Res_bind].
  pose proof (parse_object_entries_serialized rec es
                (AMF0_ECMA_ARRAY :: to_be 4 count) rest Hok Hrec) as E.
  change (zlen (AMF0_ECMA_ARRAY :: to_be 4 count)) with (1 + 4) in E. fold body in E.
  rewrite <-app_comm_cons in E. fold data in E. rewrite E.
  cbn [mbind Res_bind]. do 2 f_equal. lia.
Qed.
End roundtrip_step.

Lemma parse_f_serialize fuel v rest :
  value_okb 65535 v = true → zlen (serialize v) ≤ Z.of_nat fuel →
  parse_f fuel (serialize v ++ rest) = Ok (v, zlen (serialize v)).
Proof.
  revert v rest. induction fuel as [|fuel IH]; intros v rest Hok Hf.
  { pose proof (zlen_serialize_pos v). lia. }
  assert (∀ es, entries_okb 65535 es = true →
            zlen (serialize_object_entries serialize es) ≤ Z.of_nat fuel →
            ∀ k w, (k, w) ∈ es →
            ∀ tl, parse_f fuel (serialize w ++ tl) = Ok (w, zlen (serialize w))) as Hsub.
  { intros es Hes Hle k w Hin tl. apply IH.
    - unfold entries_okb in Hes. rewrite forallb_forall in Hes.
      apply list_elem_of_In in Hin. apply Hes in Hin. cbn in Hin. by guards.
    - pose proof (entry_smaller k w es Hin). lia. }
  cbn [parse_f]. destruct v as [n|b|s|es| | |c es]; cbn [serialize value_okb app] in *.
  - guards. rewrite parse_step_number by (unfold is_u64; lia).
    by rewrite zlen_cons, zlen_to_be.
  - dispatch. rewrite !zlen_cons. pose proof (zlen_nonneg rest).
    replace (_ <? 1 + 1) with false by (symmetry; apply Z.ltb_ge; lia).
    by destruct b.
  - rewrite <-app_assoc, parse_step_string by done.
    rewrite zlen_cons, zlen_app, zlen_to_be. do 2 f_equal. lia.
  - rewrite zlen_cons, zlen_app in Hf. change (zlen [_; _; _]) with 3 in Hf.
    rewrite <-app_assoc, parse_step_object; [|done|by apply Hsub; [|lia]].
    rewrite zlen_cons, zlen_app. do 2 f_equal. change (zlen [_; _; _]) with 3. lia.
  - done.
  - done.
  - rewrite zlen_cons, !zlen_app, zlen_to_be in Hf. change (zlen [_; _; _]) with 3 in Hf.
    apply andb_true_iff in Hok as [Hc Hes]. guards.
    rewrite <-!app_assoc, parse_step_ecma; [|done|by apply Hsub; [|lia]|unfold is_u32; lia].
    rewrite zlen_cons, !zlen_app, zlen_to_be. change (zlen [_; _; _]) with 3.
    do 2 f_equal. lia.
Qed.

#[export] Instance Amf0Codec : WireCodec Amf0Value := {
  wire_ok := value_okb 65535;
  wire_encode := serialize;
  wire_decode := parse;
}.

Lemma parse_post data : bytes_ok data → post (parsed data) (parse data).
Proof. intros. apply parse_f_safe; [done|]. unfold zlen. lia. Qed.

Lemma parse_fuel_enough v rest :
  zlen (serialize v) ≤ Z.of_nat (S (length (serialize v ++ rest))).
Proof. unfold zlen. rewrite length_app. lia. Qed.

#[export] Instance Amf0CodecLaws : WireCodecLaws Amf0Value.
Proof.
  split.
  - intros v rest Hv. apply parse_f_serialize; [done|apply parse_fuel_enough].
  - intros data Hd. eapply post_safe, (parse_post data Hd).
  - intros data v n Hd Hp. change (parse data = Ok (v, n)) in Hp.
    pose proof (parse_post data Hd) as Hpost. rewrite Hp in Hpost. apply Hpost.
  - intros v. change (serialize v ≠ []).
    destruct (serialize_head v) as (m & t & -> & _). done.
Qed.

(** ** Typed objects *)
Definition typed_object_bytes (name : bytes) (es : list (bytes * Amf0Value)) : bytes :=
  AMF0_TYPED_OBJECT :: to_be 2 (wrap16 (zlen name)) ++ name
    ++ serialize_object_entries serialize es ++ object_end.

Lemma slice_object_end (l : bytes) :
  3 ≤ zlen l → (slice l 0 3 = Ok (take 3 l)).
Proof. intros. rewrite slice_in_range by lia. by rewrite drop_0. Qed.

Lemma parse_typed_object_tail rec name es rest :
  str_okb 65535 name = true → entries_okb 65535 es = true →
  (∀ k v, (k, v) ∈ es → ∀ tl, rec (serialize v ++ tl) = Ok (v, zlen (serialize v))) →
  parse_typed_object rec (typed_object_bytes name es ++ rest) 1
  = (if zlen rest <? 3 then Err "Insufficient data for AMF0 typed object end marker"
     else if bool_decide (take 3 rest = object_end)
     then Ok (Object es, zlen (typed_object_bytes name es) + 3)
     else Err "Invalid AMF0 typed object end marker").
Proof.
  intros (Hn & Hu & Hl)%str_okb_iff Hes Hrec. pose proof (zlen_nonneg name).
  assert (wrap16 (zlen name) = zlen name) as Hw by (apply Z.mod_small; lia).
  unfold parse_typed_object, typed_object_bytes. rewrite Hw.
  set (body := serialize_object_entries serialize es).
  set (hdr := AMF0_TYPED_OBJECT :: to_be 2 (zlen name)).
  assert (zlen hdr = 3) as Hh by (unfold hdr; by rewrite zlen_cons, zlen_to_be).
  change (AMF0_TYPED_OBJECT :: to_be 2 (zlen name) ++ name ++ body ++ object_end)
    with (hdr ++ name ++ body ++ object_end).
  set (data := (hdr ++ _) ++ rest).
  assert (zlen (hdr ++ name ++ body ++ object_end) = 6 + zlen name + zlen body) as Hp
    by (rewrite !zlen_app; change (zlen object_end) with 3; lia).
  assert (zlen data = 6 + zlen name + zlen body + zlen rest) as Hlen
    by (unfold data; rewrite zlen_app; lia).
  pose proof (zlen_nonneg body). pose proof (zlen_nonneg rest).
  replace (zlen data <? 1 + 2) with false by (symmetry; apply Z.ltb_ge; lia).
  assert (be_at 2 data 1 = Ok (zlen name)) as ->.
  { unfold data, hdr. rewrite <-!app_assoc.
    apply (be_at_to_be 2 (zlen name) [AMF0_TYPED_OBJECT]); [lia|done]. }
  cbn [mbind Res_bind].
  replace (zlen data <? 1 + 2 + zlen name) with false by (symmetry; apply Z.ltb_ge; lia).
  assert (slice data (1 + 2) (1 + 2 + zlen name) = Ok name) as ->.
  { unfold data. rewrite <-!app_assoc. apply slice_app_mid; lia. }
  cbn [mbind Res_bind]. rewrite Hu. cbn [negb].
  assert (parse_object_entries rec data (1 + 2 + zlen name) = Ok (es, zlen body + 3)) as ->.
  { pose proof (parse_object_entries_serialized rec es (hdr ++ name) rest Hes Hrec) as E.
    rewrite zlen_app, Hh in E. unfold data. rewrite <-!app_assoc in *. exact E. }
  cbn [mbind Res_bind].
  replace (1 + 2 + zlen name + (zlen body + 3))
    with (zlen (hdr ++ name ++ body ++ object_end) + 0) by lia.
  replace (zlen data <? _) with (zlen rest <? 3)
    by (apply eq_iff_eq_true; rewrite !Z.ltb_lt; lia).
  destruct (Z.ltb_spec (zlen rest) 3) as [|Hr]; [done|].
  unfold data. rewrite <-Z.add_assoc, slice_app_add by lia.
  rewrite slice_object_end by done. cbn [mbind Res_bind].
  change [0; 0; AMF0_OBJECT_END] with object_end.
  destruct (bool_decide (take 3 rest = object_end)); cbn [negb]; [|done].
  done.
Qed.

(** ** Properties *)

(** C34 Round trip: parsing the serialization of an encodable value, whatever
    bytes follow it on the stream, returns that value and exactly its length. *)
Theorem parse_serialize v rest :
  value_okb 65535 v = true →
  parse (serialize v ++ rest) = Ok (v, zlen (serialize v)).
Proof. intros. apply parse_f_serialize; [done|apply parse_fuel_enough]. Qed.

Definition sample_value : Amf0Value :=
  Object [(bytes_of_string "app", AString (bytes_of_string "live"));
          ([], EcmaArray 1 [(bytes_of_string "x", Null)]);
          (bytes_of_string "audioCodecs", Number (f64_of_u32 3575))].

Lemma parse_serialize_witness :
  value_okb 65535 sample_value = true ∧
  parse (serialize sample_value ++ [7; 7]) = Ok (sample_value, zlen (serialize sample_value)).
Proof. split; [vm_compute; reflexivity|]. apply parse_serialize. vm_compute. reflexivity. Defined.

(** Safety on network input: on every byte string the parser returns (the
    depth fuel never runs out) without indexing out of bounds, and a parsed
    value is well-formed and consumed at least one and at most all bytes. *)
Theorem parse_total data :
  bytes_ok data →
  safe (parse data) ∧
  ∀ v n, parse data = Ok (v, n) → value_okb max_str v = true ∧ 1 ≤ n ≤ zlen data.
Proof.
  intros Hd. pose proof (parse_post data Hd) as Hp. split; [by eapply post_safe|].
  intros v n E. by rewrite E in Hp.
Qed.

Definition sample_garbage : bytes := [16; 0; 1; 65; 0; 0; 9; 3].

Lemma parse_total_witness :
  bytes_ok sample_garbage ∧ safe (parse sample_garbage).
Proof.
  assert (bytes_ok sample_garbage) as H by (apply bytes_okb_iff; reflexivity).
  split; [exact H|]. apply (parse_total sample_garbage H).
Defined.

(** Typed objects: [parse_object_entries] has already consumed the
    [00 00 09] marker when [parse_typed_object] looks for it, so a typed object
    as the format defines it is accepted exactly when a second end marker
    happens to follow it. *)
Theorem typed_object_needs_second_marker name es rest :
  str_okb 65535 name = true → entries_okb 65535 es = true →
  is_ok (parse (typed_object_bytes name es ++ rest))
  = bool_decide (take 3 rest = object_end).
Proof.
  intros Hn Hes. unfold parse. cbn [parse_f].
  set (F := length _). assert (Z.of_nat F = zlen (typed_object_bytes name es ++ rest)) as HF
    by done.
  unfold typed_object_bytes at 1. rewrite <-app_comm_cons. dispatch.
  rewrite app_comm_cons.
  change (AMF0_TYPED_OBJECT :: to_be 2 (wrap16 (zlen name)) ++ name
    ++ serialize_object_entries serialize es ++ object_end) with (typed_object_bytes name es).
  rewrite parse_typed_object_tail; [|done|done|].
  - destruct (Z.ltb_spec (zlen rest) 3) as [Hr|Hr].
    + symmetry. apply bool_decide_eq_false_2. intros E.
      apply (f_equal length) in E. rewrite length_take in E. unfold zlen in Hr. change (length object_end) with 3%nat in E. lia.
    + by destruct (bool_decide _).
  - intros k v Hin tl. apply parse_f_serialize.
    + unfold entries_okb in Hes. rewrite forallb_forall in Hes.
      apply list_elem_of_In in Hin. apply Hes in Hin. cbn in Hin. by guards.
    + rewrite HF. unfold typed_object_bytes.
      pose proof (entry_smaller k v es Hin).
      rewrite zlen_app, zlen_cons, !zlen_app. zlen_facts. lia.
Qed.

Lemma typed_object_needs_second_marker_witness :
  is_ok (parse (typed_object_bytes (bytes_of_string "A") [(bytes_of_string "k", Null)] ++ []))
  = bool_decide (take 3 (@nil Z) = object_end).
Proof. apply typed_object_needs_second_marker; vm_compute; reflexivity. Defined.
