(* ===== verification/RtmpChunk.v ===== *)
(** * RTMP chunk stream ([crates/protocols/src/rtmp/chunk.rs])

    Basic and message headers, and [ChunkStreamParser].  A reader is the list
    of bytes left ([read_exact] of the prelude); the parser's methods are
    computations of the state monad [ST] over the parser, or over the parser
    and the reader. *)
From Stdlib Require Import ZArith Lia List Bool String.
From stdpp Require Import base option list numbers gmap.
From S2P Require Import Prelude.

Inductive ChunkType := Type0 | Type1 | Type2 | Type3.

Definition ChunkType_from_u8 (val : Z) : Res ChunkType :=
  if val =? 0 then Ok Type0
  else if val =? 1 then Ok Type1
  else if val =? 2 then Ok Type2
  else if val =? 3 then Ok Type3
  else Err "Invalid chunk type".

Definition ChunkType_to_u8 (t : ChunkType) : Z :=
  match t with Type0 => 0 | Type1 => 1 | Type2 => 2 | Type3 => 3 end.

Definition header_size (t : ChunkType) : Z :=
  match t with Type0 => 11 | Type1 => 7 | Type2 => 3 | Type3 => 0 end.

Inductive MessageType :=
  | SetChunkSize | AbortMessage | Acknowledgement | UserControlMessage
  | WindowAckSize | SetPeerBandwidth | Audio | Video | Data | SharedObject
  | Command | Aggregate.

#[export] Instance ChunkType_eq_dec : EqDecision ChunkType.
Proof. solve_decision. Defined.
#[export] Instance MessageType_eq_dec : EqDecision MessageType.
Proof. solve_decision. Defined.

Definition MessageType_to_u8 (t : MessageType) : Z :=
  match t with
  | SetChunkSize => 1 | AbortMessage => 2 | Acknowledgement => 3
  | UserControlMessage => 4 | WindowAckSize => 5 | SetPeerBandwidth => 6
  | Audio => 8 | Video => 9 | Data => 18 | SharedObject => 19
  | Command => 20 | Aggregate => 22
  end.

Definition MessageType_from_u8 (val : Z) : Res MessageType :=
  if val =? 1 then Ok SetChunkSize
  else if val =? 2 then Ok AbortMessage
  else if val =? 3 then Ok Acknowledgement
  else if val =? 4 then Ok UserControlMessage
  else if val =? 5 then Ok WindowAckSize
  else if val =? 6 then Ok SetPeerBandwidth
  else if val =? 8 then Ok Audio
  else if val =? 9 then Ok Video
  else if val =? 18 then Ok Data
  else if val =? 19 then Ok SharedObject
  else if val =? 20 then Ok Command
  else if val =? 22 then Ok Aggregate
  else Err "Unknown message type".

(** ** Basic header *)
Record ChunkBasicHeader := mkBasic {
  chunk_type : ChunkType;
  chunk_stream_id : Z;
}.

Definition MAX_1BYTE_CSID : Z := 63.
Definition MAX_2BYTE_CSID : Z := 319.

Definition basic_parse : ST bytes ChunkBasicHeader :=
  first_byte ← context "Failed to read first byte of basic header" (read_exact 1);
  b ← st_lift (at_ first_byte 0);
  let fmt := Z.land (Z.shiftr b 6) 0x03 in
  ct ← st_lift (ChunkType_from_u8 fmt);
  let cs_id := Z.land b 0x3F in
  csid ← (if cs_id =? 0 then
            byte ← context "Failed to read 2-byte CSID" (read_exact 1);
            b0 ← st_lift (at_ byte 0);
            st_ret (b0 + 64)
          else if cs_id =? 1 then
            bs ← context "Failed to read 3-byte CSID" (read_exact 2);
            b0 ← st_lift (at_ bs 0);
            b1 ← st_lift (at_ bs 1);
            st_ret (b0 + b1 * 256 + 64)
          else if cs_id =? 2 then st_ret 2
          else if (3 <=? cs_id) && (cs_id <=? MAX_1BYTE_CSID) then st_ret cs_id
          else st_fail "Invalid chunk stream ID");
  st_ret (mkBasic ct csid).

Definition basic_serialize (h : ChunkBasicHeader) : bytes :=
  let fmt := ChunkType_to_u8 (chunk_type h) in
  let cs_id := chunk_stream_id h in
  if (2 <=? cs_id) && (cs_id <=? MAX_1BYTE_CSID) then
    [Z.lor (wrap8 (Z.shiftl fmt 6)) (wrap8 cs_id)]
  else if (64 <=? cs_id) && (cs_id <=? MAX_2BYTE_CSID) then
    [wrap8 (Z.shiftl fmt 6); wrap8 (cs_id - 64)]
  else if (320 <=? cs_id) && (cs_id <=? 65599) then
    [Z.lor (wrap8 (Z.shiftl fmt 6)) 1;
     wrap8 ((cs_id - 64) mod 256); wrap8 ((cs_id - 64) / 256)]
  else [wrap8 (Z.shiftl fmt 6); 64].

(** ** Message header *)
Record ChunkMessageHeader := mkHeader {
  timestamp : Z;
  message_length : Z;
  message_type : MessageType;
  message_stream_id : option Z;
  extended : bool;
}.

Definition EXTENDED_TIMESTAMP_THRESHOLD : Z := 0xFFFFFF.

Definition header_default : ChunkMessageHeader := mkHeader 0 0 Command None false.

(** The extended timestamp that the three header parsers read last. *)
Definition read_ext_timestamp (ts : Z) : ST bytes Z :=
  if ts =? EXTENDED_TIMESTAMP_THRESHOLD then
    ext_buf ← context "Failed to read extended timestamp" (read_exact 4);
    st_ret (from_be ext_buf)
  else st_ret ts.

Definition parse_type0 : ST bytes ChunkMessageHeader :=
  buf ← context "Failed to read Type 0 header" (read_exact 11);
  ts ← st_lift (be_at 3 buf 0);
  len ← st_lift (be_at 3 buf 3);
  ty ← st_lift (at_ buf 6);
  mt ← st_lift (MessageType_from_u8 ty);
  msid ← st_lift (bytes_at 4 buf 7);
  let ext := ts =? EXTENDED_TIMESTAMP_THRESHOLD in
  ts ← read_ext_timestamp ts;
  st_ret (mkHeader ts len mt (Some (from_le msid)) ext).

Definition parse_type1 : ST bytes ChunkMessageHeader :=
  buf ← context "Failed to read Type 1 header" (read_exact 7);
  ts ← st_lift (be_at 3 buf 0);
  len ← st_lift (be_at 3 buf 3);
  ty ← st_lift (at_ buf 6);
  mt ← st_lift (MessageType_from_u8 ty);
  let ext := ts =? EXTENDED_TIMESTAMP_THRESHOLD in
  ts ← read_ext_timestamp ts;
  st_ret (mkHeader ts len mt None ext).

Definition parse_type2 : ST bytes ChunkMessageHeader :=
  buf ← context "Failed to read Type 2 header" (read_exact 3);
  ts ← st_lift (be_at 3 buf 0);
  let ext := ts =? EXTENDED_TIMESTAMP_THRESHOLD in
  ts ← read_ext_timestamp ts;
  st_ret (mkHeader ts 0 Command None ext).

Definition header_parse (t : ChunkType) : ST bytes ChunkMessageHeader :=
  match t with
  | Type0 => parse_type0
  | Type1 => parse_type1
  | Type2 => parse_type2
  | Type3 => st_ret header_default
  end.

Definition header_serialize (h : ChunkMessageHeader) (t : ChunkType) : bytes :=
  let ts := if extended h then EXTENDED_TIMESTAMP_THRESHOLD
            else Z.min (timestamp h) EXTENDED_TIMESTAMP_THRESHOLD in
  let len := Z.min (message_length h) EXTENDED_TIMESTAMP_THRESHOLD in
  let ext := if extended h then to_be 4 (timestamp h) else [] in
  match t with
  | Type0 =>
      drop 1 (to_be 4 ts) ++ drop 1 (to_be 4 len)
      ++ [MessageType_to_u8 (message_type h)]
      ++ (match message_stream_id h with Some msid => to_le 4 msid | None => [] end)
      ++ ext
  | Type1 =>
      drop 1 (to_be 4 ts) ++ drop 1 (to_be 4 len)
      ++ [MessageType_to_u8 (message_type h)] ++ ext
  | Type2 => drop 1 (to_be 4 ts) ++ ext
  | Type3 => []
  end.

(** ** Chunk stream parser *)
Record ChunkStreamState := mkStream {
  last_header : option ChunkMessageHeader;
  received_bytes : Z;
}.
Definition stream_default : ChunkStreamState := mkStream None 0.

Record ChunkStreamParser := mkParser {
  streams : gmap Z ChunkStreamState;
  chunk_size : Z;
  current_message : bytes;
  ack_window_size : Z;
  total_bytes_received : Z;
  bytes_since_last_ack : Z;
}.

Definition DEFAULT_CHUNK_SIZE : Z := 128.
Definition parser_new : ChunkStreamParser := mkParser ∅ DEFAULT_CHUNK_SIZE [] 0 0 0.

Definition set_streams s p :=
  mkParser s (chunk_size p) (current_message p) (ack_window_size p)
    (total_bytes_received p) (bytes_since_last_ack p).
Definition set_chunk_size n p :=
  mkParser (streams p) n (current_message p) (ack_window_size p)
    (total_bytes_received p) (bytes_since_last_ack p).
Definition set_current_message m p :=
  mkParser (streams p) (chunk_size p) m (ack_window_size p)
    (total_bytes_received p) (bytes_since_last_ack p).
Definition set_ack_window_size w p :=
  mkParser (streams p) (chunk_size p) (current_message p) w
    (total_bytes_received p) (bytes_since_last_ack p).
Definition set_counters t b p :=
  mkParser (streams p) (chunk_size p) (current_message p) (ack_window_size p) t b.

(** [streams.entry(csid).or_default()] as a value. *)
Definition stream_of (csid : Z) (p : ChunkStreamParser) : ChunkStreamState :=
  default stream_default (streams p !! csid).
Definition update_stream (csid : Z) (f : ChunkStreamState → ChunkStreamState)
    (p : ChunkStreamParser) : ChunkStreamParser :=
  set_streams (<[csid := f (stream_of csid p)]> (streams p)) p.

Definition set_last_header h (st : ChunkStreamState) := mkStream (Some h) (received_bytes st).
Definition set_received n (st : ChunkStreamState) := mkStream (last_header st) n.

Definition handle_set_chunk_size (data : bytes) : ST ChunkStreamParser unit :=
  if zlen data <? 4 then st_fail "SetChunkSize data too short"
  else
  n ← st_lift (be_at 4 data 0);
  let n := Z.land n 0x7FFFFFFF in
  if negb ((1 <=? n) && (n <=? 0xFFFFFF)) then st_fail "Invalid chunk size"
  else st_modify (set_chunk_size n).

Definition handle_window_ack_size (data : bytes) : ST ChunkStreamParser unit :=
  if zlen data <? 4 then st_fail "WindowAckSize data too short"
  else
  n ← st_lift (be_at 4 data 0);
  st_modify (set_ack_window_size n).

Definition take_ack_if_needed : ST ChunkStreamParser (option Z) := λ p,
  if (0 <? ack_window_size p) && (ack_window_size p / 2 <=? bytes_since_last_ack p)
  then (Ok (Some (wrap32 (total_bytes_received p))),
        set_counters (total_bytes_received p) 0 p)
  else (Ok None, p).

(** Running a reader's or a parser's method on the pair. *)
Definition on_reader {A} (m : ST bytes A) : ST (ChunkStreamParser * bytes) A :=
  λ '(p, r), let '(a, r') := m r in (a, (p, r')).
Definition on_parser {A} (m : ST ChunkStreamParser A) : ST (ChunkStreamParser * bytes) A :=
  λ '(p, r), let '(a, p') := m p in (a, (p', r)).

(** The message header of a chunk: Type 3 reuses the previous one. *)
Definition chunk_header (basic : ChunkBasicHeader)
    : ST (ChunkStreamParser * bytes) ChunkMessageHeader :=
  let csid := chunk_stream_id basic in
  match chunk_type basic with
  | Type3 =>
      st ← on_parser (st_get (stream_of csid));
      match last_header st with
      | Some h => st_ret h
      | None => st_fail "Type 3 chunk without previous header"
      end
  | t =>
      h ← on_reader (header_parse t);
      _ ← on_parser (st_modify (update_stream csid (set_last_header h)));
      st_ret h
  end.

(** Accumulating the chunk data and the byte counters. *)
Definition accumulate (csid : Z) (chunk_data : bytes) (p : ChunkStreamParser)
    : ChunkStreamParser :=
  let n := zlen chunk_data in
  let p := update_stream csid (λ st, set_received (received_bytes st + n) st) p in
  let p := set_current_message (current_message p ++ chunk_data) p in
  set_counters (wrap64 (total_bytes_received p + n))
    (wrap64 (bytes_since_last_ack p + n)) p.

(** The end of [parse_chunk_inner]: hand out the message when it is complete. *)
Definition finish_chunk (csid : Z) (header : ChunkMessageHeader)
    : ST ChunkStreamParser (option bytes) :=
  st ← st_get (stream_of csid);
  if message_length header <=? received_bytes st then
    message ← st_get current_message;
    _ ← st_modify (set_current_message []);
    _ ← st_modify (update_stream csid (set_received 0));
    _ ← (if bool_decide (message_type header = WindowAckSize)
         then handle_window_ack_size message else st_ret tt);
    st_ret (Some message)
  else st_ret None.

Definition parse_chunk : ST (ChunkStreamParser * bytes) (option bytes) :=
  basic ← on_reader basic_parse;
  let csid := chunk_stream_id basic in
  _ ← on_parser (st_modify (update_stream csid (λ st, st)));
  header ← chunk_header basic;
  st ← on_parser (st_get (stream_of csid));
  cs ← on_parser (st_get chunk_size);
  let remaining := Z.max 0 (message_length header - received_bytes st) in
  let chunk_data_size := Z.min remaining cs in
  chunk_data ← on_reader (context "Failed to read chunk data" (read_exact chunk_data_size));
  _ ← on_parser (st_modify (accumulate csid chunk_data));
  _ ← (if extended header then
         ext ← on_reader (context "Failed to read extended timestamp" (read_exact 4));
         st_ret tt
       else st_ret tt);
  on_parser (finish_chunk csid header).

(** ** Headers are read back *)
Lemma fmt_roundtrip t :
  ChunkType_from_u8 (Z.land (Z.shiftr (wrap8 (Z.shiftl (ChunkType_to_u8 t) 6)) 6) 3) = Ok t.
Proof. by destruct t. Qed.

Lemma small_csid_bits t c :
  2 ≤ c < 64 →
  Z.land (Z.lor (wrap8 (Z.shiftl (ChunkType_to_u8 t) 6)) (wrap8 c)) 0x3F = c ∧
  Z.land (Z.shiftr (Z.lor (wrap8 (Z.shiftl (ChunkType_to_u8 t) 6)) (wrap8 c)) 6) 3
  = ChunkType_to_u8 t.
Proof. intros. destruct t; split; by_enum c 2 62. Qed.

Lemma ChunkType_from_to_u8 t : ChunkType_from_u8 (ChunkType_to_u8 t) = Ok t.
Proof. by destruct t. Qed.

Lemma MessageType_from_to_u8 t : MessageType_from_u8 (MessageType_to_u8 t) = Ok t.
Proof. by destruct t. Qed.

Lemma basic_parse_serialize h rest :
  2 ≤ chunk_stream_id h ≤ 65599 →
  basic_parse (basic_serialize h ++ rest) = (Ok h, rest).
Proof.
  destruct h as [t c]. cbn [chunk_stream_id]. intros Hc.
  unfold basic_serialize, MAX_1BYTE_CSID, MAX_2BYTE_CSID. cbn [chunk_stream_id chunk_type].
  destruct (Z.leb_spec 2 c) as [_|]; [|lia]. cbn [andb].
  destruct (Z.leb_spec c 63) as [H1|H1]; [|destruct (Z.leb_spec 64 c) as [_|]; [|lia];
    cbn [andb]; destruct (Z.leb_spec c 319) as [H2|H2]].
  - destruct (small_csid_bits t c) as [Hid Hf]; [lia|].
    unfold basic_parse. st_next (by apply context_read_exact_app).
    st_next (by apply st_lift_ok).
    st_next (by apply st_lift_ok; rewrite Hf, ChunkType_from_to_u8).
    rewrite Hid. rewrite !(proj2 (Z.eqb_neq c _)) by lia.
    destruct (Z.eqb_spec c 2) as [->|]; [done|].
    unfold MAX_1BYTE_CSID. rewrite !(proj2 (Z.leb_le _ _)) by lia. done.
  - unfold basic_parse. st_next (by apply (context_read_exact_app _ 1 [_])).
    st_next (by apply st_lift_ok).
    st_next (by apply st_lift_ok, fmt_roundtrip).
    replace (Z.land _ _) with 0 by (by destruct t). cbn [Z.eqb].
    st_next (st_next (by apply (context_read_exact_app _ 1 [_]));
             st_next (by apply st_lift_ok); reflexivity).
    unfold wrap8. rewrite Z.mod_small by lia. unfold st_ret. do 3 f_equal. lia.
  - replace (320 <=? c) with true by lia. replace (c <=? 65599) with true by lia.
    cbn [andb]. unfold basic_parse.
    st_next (by apply (context_read_exact_app _ 1 [_])).
    st_next (by apply st_lift_ok).
    st_next (apply st_lift_ok; by destruct t).
    replace (Z.land _ 63) with 1 by (by destruct t). cbn [Z.eqb Pos.eqb].
    st_next (st_next (by apply (context_read_exact_app _ 2 [_; _]));
             st_next (by apply st_lift_ok); st_next (by apply st_lift_ok); reflexivity).
    unfold wrap8, st_ret. change (2 ^ 8) with 256.
    rewrite Z.mod_mod, (Z.mod_small ((c - 64) / 256))
      by (try split; first [lia | apply Z.div_pos; lia | apply Z.div_lt_upper_bound; lia]).
    do 3 f_equal. dm_lia.
Qed.

(** The headers the writer produces: fields in range, the extended flag set
    exactly when the timestamp does not fit in 24 bits. *)
Definition header_ok (h : ChunkMessageHeader) : Prop :=
  is_u32 (timestamp h) ∧ 0 ≤ message_length h ≤ 0xFFFFFF ∧
  extended h = (EXTENDED_TIMESTAMP_THRESHOLD <=? timestamp h) ∧
  match message_stream_id h with Some m => is_u32 m | None => False end.

Lemma read_ext_timestamp_spec ts rest :
  is_u32 ts →
  read_ext_timestamp
    (if EXTENDED_TIMESTAMP_THRESHOLD <=? ts then EXTENDED_TIMESTAMP_THRESHOLD
     else Z.min ts EXTENDED_TIMESTAMP_THRESHOLD)
    ((if EXTENDED_TIMESTAMP_THRESHOLD <=? ts then to_be 4 ts else []) ++ rest)
  = (Ok ts, rest).
Proof.
  unfold read_ext_timestamp. intros Hts.
  destruct (Z.leb_spec EXTENDED_TIMESTAMP_THRESHOLD ts) as [H|H].
  - rewrite Z.eqb_refl. st_next (by apply context_read_exact_app; rewrite zlen_to_be).
    by rewrite from_be_to_be.
  - rewrite Z.min_l by lia. by rewrite (proj2 (Z.eqb_neq _ _)) by lia.
Qed.

Lemma header_parse_serialize h rest :
  header_ok h → header_parse Type0 (header_serialize h Type0 ++ rest) = (Ok h, rest).
Proof.
  destruct h as [ts len mt [msid|] ext]; intros (Hts & Hl & He & Hm); [|done].
  cbn [timestamp message_length extended message_stream_id] in *.
  cbn [header_parse header_serialize timestamp message_length extended message_type
       message_stream_id]. subst ext.
  set (ts24 := if (_ : bool) then EXTENDED_TIMESTAMP_THRESHOLD else _).
  assert (0 ≤ ts24 < 256 ^ Z.of_nat 3) as Ht.
  { unfold ts24, EXTENDED_TIMESTAMP_THRESHOLD, is_u32 in *. destruct (_ <=? ts) eqn:E; lia. }
  rewrite (Z.min_l len) by (unfold EXTENDED_TIMESTAMP_THRESHOLD; lia).
  change (drop 1 (to_be 4 ts24)) with (to_be 3 ts24).
  change (drop 1 (to_be 4 len)) with (to_be 3 len).
  set (buf := to_be 3 ts24 ++ to_be 3 len ++ [MessageType_to_u8 mt] ++ to_le 4 msid).
  set (tail := if (_ : bool) then to_be 4 ts else []).
  replace ((to_be 3 ts24 ++ to_be 3 len ++ [MessageType_to_u8 mt] ++ to_le 4 msid ++ tail)
           ++ rest) with (buf ++ tail ++ rest) by (unfold buf; by rewrite <-!app_assoc).
  unfold parse_type0.
  st_next (apply context_read_exact_app; unfold buf;
           by rewrite !zlen_app, !zlen_to_be, zlen_to_le).
  st_next (apply st_lift_ok; apply (be_at_to_be 3 ts24 []); done).
  st_next (apply st_lift_ok; apply (be_at_to_be 3 len (to_be 3 ts24)); [lia|done]).
  st_next (apply st_lift_ok; reflexivity).
  st_next (apply st_lift_ok, MessageType_from_to_u8).
  assert (bytes_at 4 buf 7 = Ok (to_le 4 msid)) as Hid.
  { unfold buf. rewrite <-(app_nil_r (to_le 4 msid)).
    apply (bytes_at_here 4 (to_be 3 ts24 ++ to_be 3 len ++ [MessageType_to_u8 mt])
             (to_le 4 msid) []); done. }
  st_next (apply st_lift_ok; exact Hid).
  st_next (by apply read_ext_timestamp_spec).
  unfold st_ret. do 2 f_equal. rewrite from_le_to_le by done. f_equal.
  unfold ts24. destruct (Z.leb_spec EXTENDED_TIMESTAMP_THRESHOLD ts) as [E|E].
  - by rewrite Z.eqb_refl.
  - rewrite Z.min_l by lia. apply Z.eqb_neq. lia.
Qed.

(** ** Running the parser on one chunk *)
Lemma stream_of_update csid f p : stream_of csid (update_stream csid f p) = f (stream_of csid p).
Proof. unfold stream_of at 1, update_stream. cbn. by rewrite lookup_insert_eq. Qed.

Lemma stream_of_update_ne csid csid' f p :
  csid ≠ csid' → stream_of csid' (update_stream csid f p) = stream_of csid' p.
Proof. intros. unfold stream_of at 1, update_stream. cbn. by rewrite lookup_insert_ne. Qed.

Lemma on_reader_ok {A} (m : ST bytes A) p r a r' :
  m r = (Ok a, r') → on_reader m (p, r) = (Ok a, (p, r')).
Proof. intros E. unfold on_reader. by rewrite E. Qed.

Lemma on_parser_ok {A} (m : ST ChunkStreamParser A) p r a p' :
  m p = (Ok a, p') → on_parser m (p, r) = (Ok a, (p', r)).
Proof. intros E. unfold on_parser. by rewrite E. Qed.

(** [p] has received [n] bytes of the message announced by [h] on [csid], and
    the shared accumulator holds [acc]. *)
Record in_flight (p : ChunkStreamParser) (csid : Z) (h : ChunkMessageHeader)
    (acc : bytes) (n : Z) : Prop := {
  fl_stream : stream_of csid p = mkStream (Some h) n;
  fl_message : current_message p = acc;
}.

(** The chunk data that a parser in flight expects next. *)
Definition next_len (cs : Z) (todo : bytes) : Z := Z.min (zlen todo) cs.

Lemma accumulate_in_flight p csid h acc n d :
  in_flight p csid h acc n →
  in_flight (accumulate csid d p) csid h (acc ++ d) (n + zlen d).
Proof.
  intros [Hs Hm]. split.
  - unfold accumulate. transitivity (stream_of csid
      (update_stream csid (λ st, set_received (received_bytes st + zlen d) st) p)); [done|].
    rewrite stream_of_update, Hs. done.
  - cbn. by rewrite Hm.
Qed.

Lemma accumulate_chunk_size csid d p : chunk_size (accumulate csid d p) = chunk_size p.
Proof. done. Qed.

(** A chunk of another stream leaves the stream's state alone. *)
Lemma stream_of_accumulate_ne csid csid' d p :
  csid ≠ csid' → stream_of csid' (accumulate csid d p) = stream_of csid' p.
Proof.
  intros Hne. transitivity (stream_of csid'
    (update_stream csid (λ st, set_received (received_bytes st + zlen d) st) p)); [done|].
  by apply stream_of_update_ne.
Qed.

Section one_chunk.
Context (p p1 : ChunkStreamParser) (basic : ChunkBasicHeader) (h : ChunkMessageHeader).
Context (acc todo gap r1 rest : bytes) (n : Z).
Let csid := chunk_stream_id basic.
Let d := take (Z.to_nat (next_len (chunk_size p1) todo)) todo.
Hypothesis Hcsid : 2 ≤ csid ≤ 65599.
Hypothesis Hcs : 1 ≤ chunk_size p1.
Hypothesis Hheader :
  chunk_header basic (update_stream csid (λ st, st) p, r1) = (Ok h, (p1, d ++ gap ++ rest)).
Hypothesis Hext : zlen gap = if extended h then 4 else 0.
Hypothesis Hty : message_type h ≠ WindowAckSize.
Hypothesis Hfl : in_flight p1 csid h acc n.
Hypothesis Hlen : message_length h = n + zlen todo.

Lemma zlen_chunk : zlen d = next_len (chunk_size p1) todo.
Proof. unfold d, next_len. apply zlen_take. zlen_facts. lia. Qed.

Lemma parse_chunk_prefix :
  parse_chunk (p, basic_serialize basic ++ r1)
  = on_parser (finish_chunk csid h) (accumulate csid d p1, rest).
Proof.
  unfold parse_chunk.
  st_next (by apply on_reader_ok, basic_parse_serialize).
  st_next (by apply on_parser_ok). fold csid.
  st_next (exact Hheader).
  st_next (by apply on_parser_ok). st_next (by apply on_parser_ok).
  rewrite (fl_stream _ _ _ _ _ Hfl). cbn [received_bytes].
  rewrite Hlen. replace (Z.max 0 (n + zlen todo - n)) with (zlen todo)
    by (zlen_facts; lia).
  st_next (by apply on_reader_ok, context_read_exact_app, zlen_chunk).
  st_next (by apply on_parser_ok).
  destruct (extended h).
  - st_next (st_next (by apply on_reader_ok, context_read_exact_app); reflexivity). done.
  - apply zlen_0 in Hext. rewrite Hext. by st_next (reflexivity).
Qed.

(** More data is expected. *)
Lemma parse_chunk_more :
  chunk_size p1 < zlen todo →
  ∃ p', parse_chunk (p, basic_serialize basic ++ r1) = (Ok None, (p', rest)) ∧
        in_flight p' csid h (acc ++ d) (n + zlen d) ∧ p' = accumulate csid d p1.
Proof.
  intros Hmore. exists (accumulate csid d p1). rewrite parse_chunk_prefix.
  pose proof (accumulate_in_flight _ _ _ _ _ d Hfl) as Hfl'. split_and!; [|done|done].
  apply on_parser_ok. unfold finish_chunk. st_next (reflexivity).
  rewrite (fl_stream _ _ _ _ _ Hfl'). cbn [received_bytes].
  rewrite (proj2 (Z.leb_gt _ _)); [done|].
  rewrite Hlen, zlen_chunk. unfold next_len. lia.
Qed.

(** The message is complete: the accumulator is handed out. *)
Lemma parse_chunk_last :
  zlen todo ≤ chunk_size p1 →
  ∃ p', parse_chunk (p, basic_serialize basic ++ r1)
          = (Ok (Some (acc ++ todo)), (p', rest)) ∧
        stream_of csid p' = mkStream (Some h) 0 ∧ current_message p' = [] ∧
        chunk_size p' = chunk_size p1 ∧ ack_window_size p' = ack_window_size p1 ∧
        bytes_since_last_ack p' = wrap64 (bytes_since_last_ack p1 + zlen todo) ∧
        ∀ c, csid ≠ c → stream_of c p' = stream_of c p1.
Proof.
  intros Hlast. rewrite parse_chunk_prefix.
  assert (d = todo) as Hd.
  { unfold d, next_len. rewrite Z.min_l, length_zlen by done. apply take_ge. lia. }
  pose proof (accumulate_in_flight _ _ _ _ _ d Hfl) as Hfl'. rewrite Hd in *.
  eexists. split.
  - apply on_parser_ok. unfold finish_chunk. st_next (reflexivity).
    rewrite (fl_stream _ _ _ _ _ Hfl'). cbn [received_bytes].
    rewrite Hlen, Z.leb_refl. st_next (reflexivity). st_next (reflexivity).
    st_next (reflexivity). rewrite bool_decide_eq_false_2 by done.
    st_next (reflexivity). rewrite (fl_message _ _ _ _ _ Hfl'). reflexivity.
  - rewrite stream_of_update.
    change (stream_of csid (set_current_message [] (accumulate csid todo p1)))
      with (stream_of csid (accumulate csid todo p1)).
    rewrite (fl_stream _ _ _ _ _ Hfl'). split_and!; try done.
    intros c Hc. rewrite stream_of_update_ne by done.
    by rewrite <-(stream_of_accumulate_ne csid c todo p1 Hc).
Qed.
End one_chunk.

(** ** Safety and the parser's invariant *)

(** The reader [r] is what is left of [r0]. *)
Definition within (r0 r : bytes) : Prop := r `suffix_of` r0.

Lemma bytes_ok_suffix r0 r : bytes_ok r0 → within r0 r → bytes_ok r.
Proof. intros Hr0 [k ->]. by apply bytes_ok_app in Hr0 as []. Qed.

Lemma st_post_context_read r0 msg n :
  bytes_ok r0 → 0 ≤ n →
  st_post (within r0) (λ l, bytes_ok l ∧ zlen l = n) (context msg (read_exact n)).
Proof.
  intros Hr0 Hn. apply st_post_context. intros r Hr.
  destruct (st_post_read_exact n Hn r (bytes_ok_suffix _ _ Hr0 Hr)) as [HQ _].
  split; [exact HQ|]. unfold read_exact. destruct (n <=? zlen r); cbn [snd].
  - unfold within. etrans; [apply suffix_drop|exact Hr].
  - apply suffix_nil.
Qed.

Ltac st_step :=
  match goal with
  | H : bytes_ok ?r0 |- st_post (within ?r0) _ (mbind _ (context _ (read_exact _))) =>
      eapply st_post_bind;
        [apply st_post_context_read; [exact H|lia] | intros ? [? ?]]
  | |- st_post _ _ (mbind _ (st_lift (at_ _ _))) =>
      eapply st_post_bind;
        [apply st_post_lift, (post_at is_byte); [assumption|lia] | intros ? ?]
  | |- st_post _ _ (mbind _ (st_lift (be_at _ _ _))) =>
      eapply st_post_bind;
        [apply st_post_lift, post_be_at; [assumption|lia|lia] | intros ? ?]
  | |- st_post _ _ (if ?b then _ else _) => destruct b eqn:?
  | |- st_post _ _ (st_ret _) => apply st_post_ret
  | |- st_post _ _ (st_fail _) => apply st_post_fail
  end.

Lemma ChunkType_from_u8_post v : post (λ _, True) (ChunkType_from_u8 v).
Proof. unfold ChunkType_from_u8. repeat case_match; done. Qed.
Lemma MessageType_from_u8_post v : post (λ _, True) (MessageType_from_u8 v).
Proof. unfold MessageType_from_u8. repeat case_match; done. Qed.

Lemma land_fmt_ok b : post (λ _, True) (ChunkType_from_u8 (Z.land (Z.shiftr b 6) 3)).
Proof. apply ChunkType_from_u8_post. Qed.

Lemma basic_parse_run b r :
  bytes_ok (b :: r) →
  let m := basic_parse (b :: r) in
  post (λ h, 2 ≤ chunk_stream_id h ≤ 65599) m.1 ∧ within r m.2.
Proof.
  intros [Hb Hr]%bytes_ok_cons. unfold basic_parse.
  rewrite (st_bind_ok _ _ _ [b] r) by by apply (context_read_exact_app _ 1 [b]).
  cbv beta. rewrite (st_bind_ok _ _ _ b r) by done. cbv beta zeta.
  apply (st_post_bind (within r) (λ _, True)); [apply st_post_lift, land_fmt_ok| |by exists []].
  intros ct _.
  eapply st_post_bind with (P := λ c, 2 ≤ c ≤ 65599); [|intros c Hc; by apply st_post_ret].
  unfold MAX_1BYTE_CSID. repeat (st_step; unfold is_byte in *; guards); lia.
Qed.

(** Ranges of a stored header. *)
Definition stored_header (h : ChunkMessageHeader) : Prop :=
  is_u32 (timestamp h) ∧ 0 ≤ message_length h ≤ 0xFFFFFF.

Lemma read_ext_timestamp_post r0 ts :
  bytes_ok r0 → is_u32 ts → st_post (within r0) is_u32 (read_ext_timestamp ts).
Proof.
  intros Hr0 Hts. unfold read_ext_timestamp. case_match; [|by apply st_post_ret].
  eapply st_post_bind; [by apply st_post_context_read|intros l [Hl Hz]].
  apply st_post_ret. pose proof (from_be_bound l Hl) as Hb. by rewrite Hz in Hb.
Qed.

Lemma from_be_24 x : 0 ≤ x < 256 ^ Z.of_nat 3 → is_u32 x ∧ 0 ≤ x ≤ 0xFFFFFF.
Proof. unfold is_u32. lia. Qed.

Lemma post_from_le_at n data i :
  bytes_ok data → 0 ≤ i → i + Z.of_nat n ≤ zlen data →
  post bytes_ok (bytes_at n data i).
Proof.
  intros. eapply post_mono; [|by apply post_bytes_at]. by intros ? [].
Qed.

Lemma header_parse_post r0 t :
  bytes_ok r0 → st_post (within r0) stored_header (header_parse t).
Proof.
  intros Hr0. assert (stored_header header_default) as Hd by by split; [split|]; cbn.
  assert (∀ mt, st_post (within r0) (λ _, True) (st_lift (MessageType_from_u8 mt))) as Hmt.
  { intros mt. apply st_post_lift, MessageType_from_u8_post. }
  destruct t; cbn [header_parse]; unfold parse_type0, parse_type1, parse_type2.
  - st_step. do 3 st_step. eapply st_post_bind; [apply Hmt|intros mt _].
    eapply st_post_bind; [apply st_post_lift, post_from_le_at; [done|lia|lia]|intros msid _].
    eapply st_post_bind; [by apply read_ext_timestamp_post, from_be_24|intros ts Hts].
    apply st_post_ret. split; [done|]. cbn. by apply from_be_24.
  - st_step. do 3 st_step. eapply st_post_bind; [apply Hmt|intros mt _].
    eapply st_post_bind; [by apply read_ext_timestamp_post, from_be_24|intros ts Hts].
    apply st_post_ret. split; [done|]. cbn. by apply from_be_24.
  - st_step. do 1 st_step.
    eapply st_post_bind; [by apply read_ext_timestamp_post, from_be_24|intros ts Hts].
    apply st_post_ret. split; [done|]. cbn. lia.
  - by apply st_post_ret.
Qed.

(** What the parser's fields satisfy after any input. *)
Record stream_ok (st : ChunkStreamState) : Prop := {
  so_header : match last_header st with Some h => stored_header h | None => True end;
  so_received : 0 ≤ received_bytes st ≤ 0xFFFFFF;
}.
Record parser_ok (p : ChunkStreamParser) : Prop := {
  po_chunk_size : 1 ≤ chunk_size p ≤ 0xFFFFFF;
  po_message : bytes_ok (current_message p);
  po_ack : is_u32 (ack_window_size p);
  po_total : is_u64 (total_bytes_received p);
  po_since : is_u64 (bytes_since_last_ack p);
  po_streams : map_Forall (λ _ st, stream_ok st) (streams p);
}.

Lemma stream_default_ok : stream_ok stream_default.
Proof. split; cbn; [done|lia]. Qed.

Lemma parser_new_ok : parser_ok parser_new.
Proof. split; cbn; unfold is_u32, is_u64, DEFAULT_CHUNK_SIZE; try lia; [constructor|]. intros ?? [=]. Qed.

Lemma stream_of_ok csid p : parser_ok p → stream_ok (stream_of csid p).
Proof.
  intros Hp. unfold stream_of. destruct (streams p !! csid) as [st|] eqn:E; cbn.
  - by apply (po_streams _ Hp) in E.
  - apply stream_default_ok.
Qed.

Lemma update_stream_ok csid f p :
  parser_ok p → (stream_ok (stream_of csid p) → stream_ok (f (stream_of csid p))) →
  parser_ok (update_stream csid f p).
Proof.
  intros Hp Hf. pose proof (stream_of_ok csid p Hp). destruct Hp. split; cbn; try done.
  by apply map_Forall_insert_2; [apply Hf|].
Qed.

Lemma wrap64_u64 x : is_u64 (wrap64 x).
Proof. apply Z.mod_pos_bound. lia. Qed.

(** The parser keeps its invariant, and the reader stays within its input. *)
Definition parsing (r0 : bytes) : ChunkStreamParser * bytes → Prop :=
  λ '(p, r), parser_ok p ∧ within r0 r.

Lemma on_reader_post {A} r0 (Q : A → Prop) (m : ST bytes A) :
  st_post (within r0) Q m → st_post (parsing r0) Q (on_reader m).
Proof.
  intros Hm [p r] [Hp Hr]. unfold on_reader. specialize (Hm r Hr).
  destruct (m r). by destruct Hm.
Qed.

Lemma on_parser_post {A} r0 (Q : A → Prop) (m : ST ChunkStreamParser A) :
  st_post parser_ok Q m → st_post (parsing r0) Q (on_parser m).
Proof.
  intros Hm [p r] [Hp Hr]. unfold on_parser. specialize (Hm p Hp).
  destruct (m p). by destruct Hm.
Qed.

Lemma st_post_get {S A} (I : S → Prop) (Q : A → Prop) (f : S → A) :
  (∀ s, I s → Q (f s)) → st_post I Q (st_get f).
Proof. intros H s Hs. split; [by apply H|done]. Qed.

Lemma modify_stream_post r0 csid f :
  (∀ st, stream_ok st → stream_ok (f st)) →
  st_post (parsing r0) (λ _, True) (on_parser (st_modify (update_stream csid f))).
Proof.
  intros Hf. apply on_parser_post, st_post_modify. intros p Hp.
  apply update_stream_ok; [done|apply Hf].
Qed.

Lemma chunk_header_post r0 basic :
  bytes_ok r0 → st_post (parsing r0) stored_header (chunk_header basic).
Proof.
  intros Hr0. unfold chunk_header.
  assert (∀ t, st_post (parsing r0) stored_header
    (h ← on_reader (header_parse t);
     _ ← on_parser (st_modify (update_stream (chunk_stream_id basic) (set_last_header h)));
     st_ret h)) as Hnew.
  { intros t. eapply st_post_bind; [by apply on_reader_post, header_parse_post|intros h Hh].
    eapply st_post_bind; [|intros _ _; by apply st_post_ret].
    apply modify_stream_post. intros st []. by split. }
  destruct (chunk_type basic); try apply Hnew.
  eapply st_post_bind.
  { apply on_parser_post, st_post_get. intros p Hp. by apply stream_of_ok. }
  cbn beta. intros st [Hh _]. destruct (last_header st); [by apply st_post_ret|apply st_post_fail].
Qed.

Lemma accumulate_ok csid d p :
  parser_ok p → bytes_ok d → received_bytes (stream_of csid p) + zlen d ≤ 0xFFFFFF →
  parser_ok (accumulate csid d p).
Proof.
  intros Hp Hd Hn.
  assert (parser_ok (update_stream csid (λ st, set_received (received_bytes st + zlen d) st) p))
    as [].
  { apply update_stream_ok; [done|]. intros [Hh Hr]. split; [done|]. cbn. zlen_facts. lia. }
  split; cbn; try done.
  - by apply bytes_ok_app; split; [apply Hp|].
  - apply wrap64_u64.
  - apply wrap64_u64.
Qed.

Lemma handle_window_ack_size_post data :
  bytes_ok data → st_post parser_ok (λ _, True) (handle_window_ack_size data).
Proof.
  intros Hd. unfold handle_window_ack_size. st_step; [apply st_post_fail|]. guards.
  st_step. apply st_post_modify. intros p []. by split.
Qed.

Lemma finish_chunk_post csid h :
  st_post parser_ok (λ m, match m with Some msg => bytes_ok msg | None => True end)
    (finish_chunk csid h).
Proof.
  unfold finish_chunk.
  eapply st_post_bind with (P := λ _, True); [by apply st_post_get|intros st _].
  st_step; [|by apply st_post_ret].
  eapply st_post_bind; [apply st_post_get, po_message|intros msg Hmsg].
  eapply st_post_bind with (P := λ _, True).
  { apply st_post_modify. intros p []. split; try done. constructor. }
  intros _ _. eapply st_post_bind with (P := λ _, True).
  { apply st_post_modify. intros p Hp. apply update_stream_ok; [done|]. intros [Hh _].
    split; [done|]. cbn. lia. }
  intros _ _. eapply st_post_bind with (P := λ _, True); [|intros _ _; by apply st_post_ret].
  case_match; [by apply handle_window_ack_size_post|by apply st_post_ret].
Qed.

(** The part of [parse_chunk] after the header. *)
Lemma chunk_data_post r0 csid header p r :
  bytes_ok r0 → stored_header header → parsing r0 (p, r) →
  let n := Z.min (Z.max 0 (message_length header - received_bytes (stream_of csid p)))
             (chunk_size p) in
  let m := (chunk_data ← on_reader (context "Failed to read chunk data" (read_exact n));
            _ ← on_parser (st_modify (accumulate csid chunk_data));
            _ ← (if extended header then
                   ext ← on_reader (context "Failed to read extended timestamp" (read_exact 4));
                   st_ret tt
                 else st_ret tt);
            on_parser (finish_chunk csid header)) (p, r) in
  post (λ m, match m with Some msg => bytes_ok msg | None => True end) m.1 ∧
  parsing r0 m.2.
Proof.
  intros Hr0 [_ Hlen] [Hp Hr] n. pose proof (stream_of_ok csid p Hp) as [_ Hrecv].
  pose proof (po_chunk_size p Hp).
  destruct (st_post_context_read r0 "Failed to read chunk data" n Hr0 ltac:(lia) r Hr)
    as [Hd Hr'].
  destruct (context _ _ r) as [[d|e| |] r'] eqn:E; cbn in Hd, Hr'; cbv zeta; try done.
  2: { unfold mbind, ST_bind, on_reader. rewrite E. by split. }
  destruct Hd as [Hd Hzd].
  assert (parsing r0 (accumulate csid d p, r')) as Hacc.
  { split; [|done]. apply accumulate_ok; [done|done|lia]. }
  rewrite (st_bind_ok _ _ _ d (p, r')) by (unfold on_reader; by rewrite E).
  rewrite (st_bind_ok _ _ _ tt (accumulate csid d p, r')) by done.
  eapply (st_post_bind (parsing r0) (λ _, True)); [| |exact Hacc].
  - case_match; [|by apply st_post_ret].
    eapply (st_post_bind _ (λ _, True)); [|by intros; apply st_post_ret].
    eapply st_post_mono; [|by apply on_reader_post, st_post_context_read]. done.
  - intros _ _. apply on_parser_post, finish_chunk_post.
Qed.

Definition message_ok (m : option bytes) : Prop :=
  match m with Some msg => bytes_ok msg | None => True end.

(** One chunk: whatever the bytes, the parser returns, keeps its invariant and
    moves the reader forward. *)
Lemma parse_chunk_run p b r :
  parser_ok p → bytes_ok (b :: r) →
  let m := parse_chunk (p, b :: r) in post message_ok m.1 ∧ parsing r m.2.
Proof.
  intros Hp Hbr. pose proof (proj2 (proj1 (bytes_ok_cons _ _) Hbr)) as Hr.
  destruct (basic_parse_run b r Hbr) as [Hb Hr']. cbv zeta. unfold parse_chunk.
  destruct (basic_parse (b :: r)) as [[basic|e| |] r'] eqn:E;
    cbn in Hb, Hr'; try done.
  2: { unfold mbind, ST_bind, on_reader. rewrite E. by split. }
  rewrite (st_bind_ok _ _ _ basic (p, r')) by (unfold on_reader; by rewrite E). cbv beta zeta.
  apply (st_post_bind (parsing r) (λ _, True)); [by apply modify_stream_post| |by split].
  intros _ _. eapply st_post_bind; [by apply chunk_header_post|intros header Hh].
  intros [p1 r1] Hpr. by apply chunk_data_post.
Qed.

Lemma parse_chunk_nil p :
  parse_chunk (p, []) = (Err "Failed to read first byte of basic header", (p, [])).
Proof. done. Qed.

(** A message header of type 0 starts a message: the stream's header is
    replaced, and what it has received so far is kept. *)
Lemma chunk_header_type0 csid h p rest :
  header_ok h →
  chunk_header (mkBasic Type0 csid) (p, header_serialize h Type0 ++ rest)
  = (Ok h, (update_stream csid (set_last_header h) p, rest)).
Proof.
  intros Hh. unfold chunk_header. cbn [chunk_type chunk_stream_id].
  st_next (by apply on_reader_ok, header_parse_serialize).
  by st_next (by apply on_parser_ok).
Qed.

Lemma in_flight_type0 csid h p :
  received_bytes (stream_of csid p) = 0 →
  in_flight (update_stream csid (set_last_header h) (update_stream csid (λ st, st) p))
    csid h (current_message p) 0.
Proof.
  intros Hr. split; [|done].
  rewrite !stream_of_update. unfold set_last_header. by rewrite Hr.
Qed.

Lemma in_flight_touch csid h p acc n :
  in_flight p csid h acc n → in_flight (update_stream csid (λ st, st) p) csid h acc n.
Proof. intros [Hs Hm]. split; [by rewrite stream_of_update|done]. Qed.

Lemma chunk_header_type3 csid h p acc n r :
  in_flight p csid h acc n →
  chunk_header (mkBasic Type3 csid) (update_stream csid (λ st, st) p, r)
  = (Ok h, (update_stream csid (λ st, st) p, r)).
Proof.
  intros Hfl%in_flight_touch. unfold chunk_header. cbn [chunk_type chunk_stream_id].
  st_next (by apply on_parser_ok). by rewrite (fl_stream _ _ _ _ _ Hfl).
Qed.

(** ** Properties *)

(** Safety and invariant: on any bytes and from any well-formed parser,
    [parse_chunk] neither indexes out of range nor loops, keeps the parser
    well-formed (chunk size in 1..0xFFFFFF, header fields and counters within
    their widths), leaves a suffix of its input, and makes progress whenever
    it succeeds. *)
Theorem parse_chunk_safe p r :
  parser_ok p → bytes_ok r →
  let '(m, (p', r')) := parse_chunk (p, r) in
  safe m ∧ parser_ok p' ∧ within r r' ∧
  (is_ok m = true → zlen r' < zlen r) ∧ post message_ok m.
Proof.
  intros Hp Hr. destruct r as [|b r].
  { rewrite parse_chunk_nil. split_and!; try done. by exists []. }
  pose proof (parse_chunk_run p b r Hp Hr) as [Hpost Hst].
  destruct (parse_chunk (p, b :: r)) as [m [p' r']]. cbn in Hst, Hpost.
  destruct Hst as [Hp' [k ->]]. split_and!; [by eapply post_safe|done| | |done].
  - exists (b :: k). done.
  - intros _. rewrite zlen_cons, zlen_app. zlen_facts. lia.
Qed.

Definition sample_chunk : bytes := [0x43; 0; 0; 0; 0; 0; 4; 8; 1; 2; 3; 4; 5].

Lemma parse_chunk_safe_witness :
  is_ok (parse_chunk (parser_new, sample_chunk)).1 = true ∧
  let '(m, (p', r')) := parse_chunk (parser_new, sample_chunk) in
  safe m ∧ parser_ok p' ∧ within sample_chunk r' ∧
  (is_ok m = true → zlen r' < zlen sample_chunk) ∧ post message_ok m.
Proof.
  split; [vm_compute; reflexivity|]. apply parse_chunk_safe; [apply parser_new_ok|].
  repeat constructor; done.
Defined.

(** Interleaving: while a message [d1 ++ d2] on one chunk stream is half
    received, a complete single-chunk message on another stream does not come
    out as sent: the shared accumulator makes it [d1 ++ e], and the first
    message then comes out as [d2] alone. *)
Theorem interleaved_streams_mix p a b ha hb d1 d2 e rest :
  2 ≤ a ≤ 65599 → 2 ≤ b ≤ 65599 → a ≠ b → header_ok ha → header_ok hb →
  extended ha = false → extended hb = false →
  message_type ha ≠ WindowAckSize → message_type hb ≠ WindowAckSize →
  current_message p = [] →
  received_bytes (stream_of a p) = 0 → received_bytes (stream_of b p) = 0 →
  message_length ha = zlen (d1 ++ d2) → message_length hb = zlen e →
  zlen d1 = chunk_size p → 1 ≤ zlen d1 → 0 < zlen d2 ≤ zlen d1 → zlen e ≤ zlen d1 →
  let chunk1 := basic_serialize (mkBasic Type0 a) ++ header_serialize ha Type0 ++ d1 in
  let chunk2 := basic_serialize (mkBasic Type0 b) ++ header_serialize hb Type0 ++ e in
  let chunk3 := basic_serialize (mkBasic Type3 a) ++ d2 in
  ∃ p1 p2 p3,
    parse_chunk (p, chunk1 ++ chunk2 ++ chunk3 ++ rest)
      = (Ok None, (p1, chunk2 ++ chunk3 ++ rest)) ∧
    parse_chunk (p1, chunk2 ++ chunk3 ++ rest)
      = (Ok (Some (d1 ++ e)), (p2, chunk3 ++ rest)) ∧
    parse_chunk (p2, chunk3 ++ rest) = (Ok (Some d2), (p3, rest)).
Proof.
  intros Ha Hb Hab Hha Hhb Hea Heb Hta Htb Hcur Hra Hrb Hla Hlb Hcs Hd1 Hd2 He chunk1 chunk2 chunk3.
  set (p0 := update_stream a (set_last_header ha) (update_stream a (λ st, st) p)).
  pose proof (in_flight_type0 a ha p Hra) as Hfl0. fold p0 in Hfl0. rewrite Hcur in Hfl0.
  assert (chunk_size p0 = zlen d1) as Hcs0 by (symmetry; exact Hcs).
  assert (take (Z.to_nat (next_len (chunk_size p0) (d1 ++ d2))) (d1 ++ d2) = d1) as Htk.
  { unfold next_len. rewrite zlen_app, Z.min_r, Hcs0, length_zlen by lia. apply take_app_length. }
  destruct (parse_chunk_more p p0 (mkBasic Type0 a) ha [] (d1 ++ d2) []
    (header_serialize ha Type0 ++ d1 ++ chunk2 ++ chunk3 ++ rest) (chunk2 ++ chunk3 ++ rest) 0)
    as (p1 & E1 & Hfl1 & Hp1); rewrite ?Hea; try done; rewrite ?Htk in *.
  { lia. }
  { by apply chunk_header_type0. }
  { rewrite zlen_app. lia. }
  cbn [chunk_stream_id] in *. rewrite ?app_nil_l in *.
  set (q := update_stream b (set_last_header hb) (update_stream b (λ st, st) p1)).
  assert (chunk_size q = zlen d1) as Hcsq.
  { transitivity (chunk_size p1); [done|]. by rewrite Hp1. }
  assert (stream_of b p1 = stream_of b p) as Hsb.
  { rewrite Hp1, stream_of_accumulate_ne by done. unfold p0.
    by rewrite !stream_of_update_ne by done. }
  assert (in_flight q b hb d1 0) as Hflq.
  { rewrite <-(fl_message _ _ _ _ _ Hfl1 : _ = d1). apply in_flight_type0. by rewrite Hsb. }
  destruct (parse_chunk_last p1 q (mkBasic Type0 b) hb d1 e []
    (header_serialize hb Type0 ++ e ++ chunk3 ++ rest) (chunk3 ++ rest) 0)
    as (p2 & E2 & _ & Hm2 & Hcs2 & _ & _ & Hframe); rewrite ?Heb; try done; cbn [chunk_stream_id app] in *.
  { lia. }
  { rewrite take_ge by (unfold next_len, zlen in *; lia). by apply chunk_header_type0. }
  { lia. }
  assert (stream_of a p2 = mkStream (Some ha) (zlen d1)) as Hs2.
  { rewrite Hframe by done. unfold q. rewrite !stream_of_update_ne by done.
    apply (fl_stream _ _ _ _ _ Hfl1). }
  set (p2t := update_stream a (λ st, st) p2).
  assert (in_flight p2t a ha [] (zlen d1)) as Hfl2.
  { apply in_flight_touch. by split. }
  assert (chunk_size p2t = zlen d1) as Hcs2t by (rewrite <-Hcsq, <-Hcs2; done).
  destruct (parse_chunk_last p2 p2t (mkBasic Type3 a) ha [] d2 []
    (d2 ++ rest) rest (zlen d1)) as (p3 & E3 & _); rewrite ?Hea; try done; cbn [chunk_stream_id app] in *.
  { lia. }
  { rewrite take_ge by (unfold next_len, zlen in *; lia).
    apply (chunk_header_type3 a ha p2 [] (zlen d1)). by split. }
  { rewrite zlen_app in Hla. exact Hla. }
  { lia. }
  exists p1, p2, p3. revert E1 E2 E3. unfold chunk1, chunk2, chunk3.
  rewrite <-!app_assoc. by intros.
Qed.

Lemma interleaved_streams_mix_witness :
  let ha := mkHeader 0 4 Audio (Some 1) false in
  let hb := mkHeader 0 1 Video (Some 1) false in
  let p := set_chunk_size 2 parser_new in
  let chunk1 := basic_serialize (mkBasic Type0 4) ++ header_serialize ha Type0 ++ [1; 2] in
  let chunk2 := basic_serialize (mkBasic Type0 5) ++ header_serialize hb Type0 ++ [9] in
  let chunk3 := basic_serialize (mkBasic Type3 4) ++ [3; 4] in
  ∃ p1 p2 p3,
    parse_chunk (p, chunk1 ++ chunk2 ++ chunk3 ++ [])
      = (Ok None, (p1, chunk2 ++ chunk3 ++ [])) ∧
    parse_chunk (p1, chunk2 ++ chunk3 ++ [])
      = (Ok (Some ([1; 2] ++ [9])), (p2, chunk3 ++ [])) ∧
    parse_chunk (p2, chunk3 ++ []) = (Ok (Some [3; 4]), (p3, [])).
Proof.
  apply interleaved_streams_mix; try done; unfold header_ok, is_u32; cbn; try lia; split_and!; try done; lia.
Defined.
