(* ===== verification/RtmpClient.v ===== *)
(** * RTMP push client ([crates/protocols/src/rtmp/mod.rs], [handshake.rs])

    The connection script of [RtmpPushClient], the chunk writer, the response
    reader, and the FLV-style payload builders and extractors.  The TCP socket
    is the record [Sock]: the segments that successive [read] calls return,
    and the bytes written so far; writes succeed. *)
From Stdlib Require Import ZArith Lia List Bool String.
From stdpp Require Import base option list numbers gmap.
From S2P Require Import Prelude Amf0 RtmpChunk.

Definition DEFAULT_PORT : Z := 1935.
Definition CHUNK_SIZE : Z := 65536.
Definition RTMP_VERSION : Z := 3.
Definition HANDSHAKE_SIZE : Z := 1536.

(** ** Handshake packets *)

(** The linear congruential filler: [n] bytes from [seed : u64]. *)
Fixpoint lcg_fill (n : nat) (seed : Z) : bytes :=
  match n with
  | O => []
  | S k =>
      let seed := wrap64 (wrap64 (seed * 1103515245) + 12345) in
      wrap8 (Z.shiftr seed 8) :: lcg_fill k seed
  end.

(** [time] is the clock in milliseconds, already truncated to [u32]. *)
Definition generate_c1 (time : Z) : bytes :=
  to_be 4 time ++ [0; 0; 0; 0] ++ lcg_fill 1528 time.

Definition generate_c2 (s1 c1 : bytes) : bytes :=
  take 4 s1 ++ take 4 c1 ++ drop 8 s1.

(** ** Chunk writer *)
Fixpoint write_body (fuel : nat) (csid chunk_size : Z) (data : bytes) (offset : Z)
    : Res bytes :=
  match fuel with
  | O => OutOfFuel
  | S fuel =>
      if offset <? zlen data then
        let e := Z.min (offset + chunk_size) (zlen data) in
        part ← slice data offset e;
        let offset := e in
        let cont := if offset <? zlen data
                    then basic_serialize (mkBasic Type3 csid) else [] in
        more ← write_body fuel csid chunk_size data offset;
        Ok (part ++ cont ++ more)
      else Ok []
  end.

(** What [write_chunked] puts on the wire. *)
Definition write_chunked (csid : Z) (msg_type : MessageType) (msid ts chunk_size : Z)
    (data : bytes) : Res bytes :=
  let ext := 0xFFFFFF <=? ts in
  let basic := mkBasic Type0 csid in
  let msg_header := mkHeader ts (wrap32 (zlen data)) msg_type (Some msid) ext in
  body ← write_body (S (length data)) csid chunk_size data 0;
  Ok (basic_serialize basic ++ header_serialize msg_header Type0 ++ body).

Definition write_protocol_message (msg_type : MessageType) (data : bytes) : Res bytes :=
  write_chunked 2 msg_type 0 0 128 data.

Definition write_command_chunk (msid ts : Z) (amf_payload : bytes) : Res bytes :=
  write_chunked 3 Command msid ts 128 amf_payload.

Definition write_data_chunk (csid : Z) (msg_type : MessageType) (msid ts chunk_size : Z)
    (data : bytes) : Res bytes :=
  write_chunked csid msg_type msid ts chunk_size data.

(** ** AMF0 command payloads *)
Definition astr (s : string) : Amf0Value := AString (bytes_of_string s).
Definition anum (n : Z) : Amf0Value := Number (f64_of_u32 n).

Definition encode_values (vs : list Amf0Value) : bytes := flat_map serialize vs.

Definition tc_url (app host : bytes) (port : Z) : bytes :=
  bytes_of_string "rtmp://" ++ host ++ bytes_of_string ":" ++ dec_of_Z port
  ++ bytes_of_string "/" ++ app.

Definition encode_connect (app host : bytes) (port : Z) : bytes :=
  encode_values
    [astr "connect"; anum 1;
     Object [(bytes_of_string "app", AString app);
             (bytes_of_string "tcUrl", AString (tc_url app host port));
             (bytes_of_string "flashVer", astr "FMLE/3.0 (compatible; mibeerec)");
             (bytes_of_string "swfUrl", astr "");
             (bytes_of_string "fpad", Boolean false);
             (bytes_of_string "capabilities", anum 239);
             (bytes_of_string "audioCodecs", anum 3575);
             (bytes_of_string "videoCodecs", anum 252);
             (bytes_of_string "videoFunction", anum 1);
             (bytes_of_string "pageUrl", astr "");
             (bytes_of_string "objectEncoding", anum 0)];
     Object [(bytes_of_string "level", astr "status")]].

Definition encode_create_stream : bytes :=
  encode_values [astr "createStream"; anum 2; Null].

Definition encode_publish (stream_name : bytes) : bytes :=
  encode_values [astr "publish"; anum 0; Null; AString stream_name; astr "live"].

Definition encode_fcunpublish (stream_name : bytes) : bytes :=
  encode_values [astr "FCUnpublish"; anum 0; Null; AString stream_name].

(** ** Response decoding *)

(** The loop of [parse_amf_values], for any prefix code: decode until the end
    or the first failure. *)
Section decode_all.
Context {A : Type} `{WireCodec A}.

Fixpoint decode_loop (fuel : nat) (data : bytes) (pos : Z) (values : list A)
    : Res (list A) :=
  match fuel with
  | O => OutOfFuel
  | S fuel =>
      if pos <? zlen data then
        sub ← slice_from data pos;
        match wire_decode sub with
        | Ok (v, consumed) => decode_loop fuel data (pos + consumed) (values ++ [v])
        | Err _ => Ok values
        | Panic => Panic
        | OutOfFuel => OutOfFuel
        end
      else Ok values
  end.
End decode_all.

Definition parse_amf_values (data : bytes) : Res (list Amf0Value) :=
  values ← decode_loop (S (length data)) data 0 [];
  if zlen values =? 0 then Err "No AMF values found" else Ok values.

(** ** The socket *)
Record Sock := mkSock { inbox : list bytes; outbox : bytes }.

Definition sock_write (b : bytes) : ST Sock unit :=
  st_modify (λ s, mkSock (inbox s) (outbox s ++ b)).

(** [stream.read(&mut tmp)] with a 4096-byte buffer; no bytes is end of file. *)
Definition sock_read : ST Sock bytes := λ s,
  match inbox s with
  | [] => (Ok [], s)
  | seg :: more =>
      if zlen seg <=? 4096 then (Ok seg, mkSock more (outbox s))
      else (Ok (take 4096 seg), mkSock (drop 4096 seg :: more) (outbox s))
  end.

Fixpoint take_segments (n : nat) (segs : list bytes) : option (bytes * list bytes) :=
  match segs with
  | [] => if bool_decide (n = O) then Some ([], []) else None
  | seg :: more =>
      if bool_decide (n < length seg)%nat then Some (take n seg, drop n seg :: more)
      else '(l, rest) ← take_segments (n - length seg) more; Some (seg ++ l, rest)
  end.

(** [stream.read_exact(&mut buf)]. *)
Definition sock_read_exact (n : Z) : ST Sock bytes := λ s,
  match take_segments (Z.to_nat n) (inbox s) with
  | Some (l, rest) => (Ok l, mkSock rest (outbox s))
  | None => (Err "early eof", mkSock [] (outbox s))
  end.

(** Writing what [write_chunked] produces. *)
Definition sock_send (r : Res bytes) : ST Sock unit :=
  b ← st_lift r; sock_write b.

(** ** [read_until_command] *)
Definition is_reply (values : list Amf0Value) : bool :=
  match values with
  | AString s :: _ =>
      bool_decide (s = bytes_of_string "_result")
      || bool_decide (s = bytes_of_string "onStatus")
  | _ => false
  end.

(** The inner loop: parse messages from [buf] until a reply is found ([inl])
    or the buffer needs more data ([inr], with the parser and the buffer). *)
Fixpoint parse_buffer (fuel : nat) (parser : ChunkStreamParser) (buf : bytes)
    : ST Sock (list Amf0Value + ChunkStreamParser * bytes) :=
  match fuel with
  | O => st_lift OutOfFuel
  | S fuel =>
      match parse_chunk (parser, buf) with
      | (Ok (Some msg), (parser, rest)) =>
          let buf := rest in
          ack ← st_lift (take_ack_if_needed parser).1;
          let parser := (take_ack_if_needed parser).2 in
          _ ← match ack with
              | Some seq =>
                  sock_send (write_protocol_message Acknowledgement (to_be 4 seq))
              | None => st_ret tt
              end;
          size ← (if zlen msg =? 4 then
                    n ← st_lift (be_at 4 msg 0);
                    st_ret (if (1 <=? n) && (n <=? 0xFFFFFF) then Some n else None)
                  else st_ret None);
          match size with
          | Some n => parse_buffer fuel (set_chunk_size n parser) buf
          | None =>
              match parse_amf_values msg with
              | Ok values =>
                  if is_reply values then st_ret (inl values)
                  else parse_buffer fuel parser buf
              | Err _ => parse_buffer fuel parser buf
              | Panic => st_lift Panic
              | OutOfFuel => st_lift OutOfFuel
              end
          end
      | (Ok None, (parser, _)) => st_ret (inr (parser, buf))
      | (Err _, (parser, rest)) => st_ret (inr (parser, rest))
      | (Panic, _) => st_lift Panic
      | (OutOfFuel, _) => st_lift OutOfFuel
      end
  end.

(** The outer loop: one TCP read per iteration. *)
Fixpoint read_loop (fuel : nat) (parser : ChunkStreamParser) (buf : bytes)
    : ST Sock (list Amf0Value) :=
  match fuel with
  | O => st_lift OutOfFuel
  | S fuel =>
      tmp ← sock_read;
      if zlen tmp =? 0 then
        st_fail "Connection closed while waiting for RTMP response"
      else
      let buf := buf ++ tmp in
      r ← parse_buffer (S (length buf)) parser buf;
      match r with
      | inl values => st_ret values
      | inr (parser, buf) => read_loop fuel parser buf
      end
  end.

Definition inbox_bytes (s : Sock) : nat := length (concat (inbox s)).

Definition read_until_command : ST Sock (list Amf0Value) := λ s,
  read_loop (S (inbox_bytes s)) parser_new [] s.

(** The number after the first [Null], else the fourth value. *)
Fixpoint number_after_null (values : list Amf0Value) : option Z :=
  match values with
  | [] => None
  | v :: rest =>
      match v, rest with
      | Null, Number id :: _ => Some (f64_to_u32 id)
      | _, _ => number_after_null rest
      end
  end.

Definition stream_id_of (values : list Amf0Value) : Res Z :=
  match number_after_null values with
  | Some id => Ok id
  | None =>
      match values !! 3%nat with
      | Some (Number id) => Ok (f64_to_u32 id)
      | _ => Err "Could not extract stream ID from createStream response"
      end
  end.

Definition read_stream_id : ST Sock Z :=
  values ← read_until_command; st_lift (stream_id_of values).

(** ** The client *)
Record RtmpPushClient := mkClient {
  host : bytes;
  port : Z;
  app_name : bytes;
  stream_name : bytes;
  stream : option Sock;
  stream_id : Z;
  client_chunk_size : Z;
  video_timestamp : Z;
  audio_timestamp : Z;
}.

Definition client_new (host : bytes) (port : Z) (app_name stream_name : bytes) :=
  mkClient host port app_name stream_name None 0 128 0 0.

Definition is_connected (c : RtmpPushClient) : bool :=
  match stream c with Some _ => true | None => false end.

(** Steps 2 of [connect]: C0 C1, S0 S1 S2, C2. *)
Definition client_handshake (time : Z) : ST Sock unit :=
  let c1 := generate_c1 time in
  _ ← sock_write [RTMP_VERSION];
  _ ← sock_write c1;
  s0 ← sock_read_exact 1;
  v ← st_lift (at_ s0 0);
  if negb (v =? RTMP_VERSION) then st_fail "Unsupported RTMP version from server"
  else
  s1 ← sock_read_exact HANDSHAKE_SIZE;
  s2 ← sock_read_exact HANDSHAKE_SIZE;
  s2_time ← st_lift (be_at 4 s2 0);
  c1_time ← st_lift (be_at 4 c1 0);
  if negb (s2_time =? c1_time) then st_fail "S2 time does not match C1 time"
  else if negb (bool_decide (drop 8 s2 = drop 8 c1)) then
    st_fail "S2 random data does not match C1"
  else sock_write (generate_c2 s1 c1).

(** Running a socket operation during [connect(&mut self)]. *)
Definition on_sock {A} (m : ST Sock A) : ST (Sock * RtmpPushClient) A :=
  λ '(k, c), let '(a, k') := m k in (a, (k', c)).

Definition set_chunk (n : Z) (c : RtmpPushClient) : RtmpPushClient :=
  mkClient (host c) (port c) (app_name c) (stream_name c) (stream c)
    (stream_id c) n (video_timestamp c) (audio_timestamp c).
Definition set_stream_id (n : Z) (c : RtmpPushClient) : RtmpPushClient :=
  mkClient (host c) (port c) (app_name c) (stream_name c) (stream c)
    n (client_chunk_size c) (video_timestamp c) (audio_timestamp c).
Definition set_stream (s : option Sock) (c : RtmpPushClient) : RtmpPushClient :=
  mkClient (host c) (port c) (app_name c) (stream_name c) s
    (stream_id c) (client_chunk_size c) (video_timestamp c) (audio_timestamp c).
Definition set_timestamps (v a : Z) (c : RtmpPushClient) : RtmpPushClient :=
  mkClient (host c) (port c) (app_name c) (stream_name c) (stream c)
    (stream_id c) (client_chunk_size c) v a.

(** Steps 2 to 6 of [connect], on the connected socket; [time] is the clock.
    What is assigned to the client before an error stays assigned. *)
Definition negotiate (time : Z) : ST (Sock * RtmpPushClient) unit :=
  _ ← on_sock (client_handshake time);
  _ ← on_sock (sock_send (write_protocol_message SetChunkSize (to_be 4 CHUNK_SIZE)));
  _ ← st_modify (λ '(k, c), (k, set_chunk CHUNK_SIZE c));
  payload ← st_get (λ '(k, c), encode_connect (app_name c) (host c) (port c));
  _ ← on_sock (sock_send (write_command_chunk 0 0 payload));
  _ ← on_sock read_until_command;
  _ ← on_sock read_until_command;
  _ ← on_sock (sock_send (write_command_chunk 0 0 encode_create_stream));
  sid ← on_sock read_stream_id;
  _ ← st_modify (λ '(k, c), (k, set_stream_id sid c));
  payload ← st_get (λ '(k, c), encode_publish (stream_name c));
  _ ← on_sock (sock_send (write_command_chunk sid 0 payload));
  _ ← on_sock read_until_command;
  st_ret tt.

Definition connect (time : Z) : ST (Sock * RtmpPushClient) unit :=
  _ ← negotiate time;
  st_modify (λ '(k, c), (k, set_stream (Some k) c)).

(** [close]: the final bytes written to the socket, and the reset client. *)
Definition close (c : RtmpPushClient) : Res bytes * RtmpPushClient :=
  let c' := set_timestamps 0 0 (set_chunk 128 (set_stream_id 0 (set_stream None c))) in
  match stream c with
  | Some k => (write_command_chunk 0 0 (encode_fcunpublish (stream_name c)), c')
  | None => (Ok [], c')
  end.

(** [send_video], [send_audio]: the timestamp is recorded even when the client
    is not connected. *)
Definition send_media (csid : Z) (ty : MessageType) (data : bytes) (ts : Z)
    (c : RtmpPushClient) : Res unit * RtmpPushClient :=
  match stream c with
  | None => (Err "Not connected", c)
  | Some k =>
      let '(r, k') := sock_send
        (write_data_chunk csid ty (stream_id c) ts (client_chunk_size c) data) k in
      (r, set_stream (Some k') c)
  end.

Definition send_video (data : bytes) (ts : Z) (c : RtmpPushClient)
    : Res unit * RtmpPushClient :=
  send_media 5 Video data ts (set_timestamps ts (audio_timestamp c) c).

Definition send_audio (data : bytes) (ts : Z) (c : RtmpPushClient)
    : Res unit * RtmpPushClient :=
  send_media 4 Audio data ts (set_timestamps (video_timestamp c) ts c).

(** ** Media payloads *)
Definition nth_or (l : bytes) (i : nat) (d : Z) : Z := default d (l !! i).

Definition build_video_sequence_header (sps pps : bytes) : bytes :=
  let profile := if 3 <=? zlen sps then nth_or sps 1 0 else 0x42 in
  let level := if 3 <=? zlen sps then nth_or sps 2 0 else 0x1E in
  let profile_compat := if 4 <=? zlen sps then nth_or sps 3 0 else 0x80 in
  [0x17] ++ [0x00; 0x00; 0x00] ++ [0x00]
  ++ [0x01; profile; profile_compat; level; 0xFF; 0xE1]
  ++ to_be 2 (wrap16 (zlen sps)) ++ sps
  ++ [0x01] ++ to_be 2 (wrap16 (zlen pps)) ++ pps.

Definition build_video_nalus (nal_data : bytes) (is_keyframe : bool)
    (composition_offset : Z) : bytes :=
  let frame_type := if is_keyframe then 1 else 2 in
  let offset := Z.max (-8388608) (Z.min composition_offset 8388607) in
  [Z.lor (Z.shiftl frame_type 4) 7] ++ [0x00; 0x00; 0x00] ++ [0x01]
  ++ drop 1 (to_be 4 (wrap32 offset)) ++ nal_data.

Definition build_audio_sequence_header (audio_specific_config : bytes) : bytes :=
  [0xAF; 0x00] ++ audio_specific_config.

Definition build_audio_raw (aac_data : bytes) : bytes := [0xAF; 0x01] ++ aac_data.

(** The AVCC loop of [extract_h264_nal_units]. *)
Fixpoint extract_loop (fuel : nat) (nal_data : bytes) (pos : Z) (nal_units : list bytes)
    : Res (list bytes) :=
  match fuel with
  | O => OutOfFuel
  | S fuel =>
      if pos + 4 <=? zlen nal_data then
        nal_len ← be_at 4 nal_data pos;
        if zlen nal_data <? pos + 4 + nal_len then Err "NAL unit extends beyond data"
        else
        nal ← slice nal_data (pos + 4) (pos + 4 + nal_len);
        extract_loop fuel nal_data (pos + (4 + nal_len)) (nal_units ++ [nal])
      else Ok nal_units
  end.

Definition extract_h264_nal_units (data : bytes) : Res (list bytes) :=
  if zlen data <? 5 then Err "RTMP video data too short"
  else
  first_byte ← at_ data 0;
  let codec_id := Z.land first_byte 0x0F in
  if negb (codec_id =? 7) then Err "Unsupported video codec"
  else
  avc_packet_type ← at_ data 4;
  payload ← slice_from data 5;
  if avc_packet_type =? 0 then
    if zlen payload <? 11 then Err "AVC sequence header too short"
    else
    sps_len ← be_at 2 payload 6;
    sps ← slice payload 8 (8 + sps_len);
    let pps_offset := 8 + sps_len + 1 in
    pps_len ← be_at 2 payload pps_offset;
    pps ← slice payload (pps_offset + 2) (pps_offset + 2 + pps_len);
    Ok [sps; pps]
  else if avc_packet_type =? 1 then
    nal_data ← slice_from data 8;
    extract_loop (S (length nal_data)) nal_data 0 []
  else if avc_packet_type =? 2 then Ok []
  else Err "Unknown AVC packet type".

Definition extract_aac_frame (data : bytes) : Res bytes :=
  if zlen data <? 2 then Err "RTMP audio data too short"
  else
  first_byte ← at_ data 0;
  let sound_format := Z.land (Z.shiftr first_byte 4) 0x0F in
  if negb (sound_format =? 10) then Err "Unsupported audio codec"
  else slice_from data 2.

(** ** The chunk parser reads what the chunk writer writes *)

(** Parse chunks until a message is complete. *)
Fixpoint parse_message (fuel : nat) : ST (ChunkStreamParser * bytes) bytes :=
  match fuel with
  | O => st_lift OutOfFuel
  | S fuel =>
      r ← parse_chunk;
      match r with Some msg => st_ret msg | None => parse_message fuel end
  end.

(** Between messages: nothing received on [csid], nothing accumulated. *)
Record idle (p : ChunkStreamParser) (csid : Z) : Prop := {
  idle_received : received_bytes (stream_of csid p) = 0;
  idle_message : current_message p = [];
}.

Definition cont_bytes (csid : Z) (todo : bytes) : bytes :=
  if zlen todo =? 0 then [] else basic_serialize (mkBasic Type3 csid).

Section write_body.
Context (csid cs : Z).
Hypothesis Hcs : 1 ≤ cs.

Lemma write_body_done fuel sent :
  write_body (S fuel) csid cs sent (zlen sent) = Ok [].
Proof. cbn [write_body]. by rewrite Z.ltb_irrefl. Qed.

Lemma write_body_step fuel sent todo :
  let n := Z.to_nat (next_len cs todo) in
  0 < zlen todo →
  write_body (S fuel) csid cs (sent ++ todo) (zlen sent)
  = (more ← write_body fuel csid cs ((sent ++ take n todo) ++ drop n todo)
              (zlen (sent ++ take n todo));
     Ok (take n todo ++ cont_bytes csid (drop n todo) ++ more)).
Proof.
  intros n Hpos. cbn [write_body].
  assert (zlen (take n todo) = next_len cs todo) as Hd
    by (apply zlen_take; unfold next_len; lia).
  assert (zlen (drop n todo) = zlen todo - next_len cs todo) as Hr
    by (apply zlen_drop; unfold next_len; lia).
  rewrite zlen_app, (proj2 (Z.ltb_lt _ _)) by lia.
  replace (Z.min (zlen sent + cs) (zlen sent + zlen todo))
    with (zlen (sent ++ take n todo)) by (rewrite zlen_app, Hd; unfold next_len; lia).
  rewrite <-app_assoc, take_drop.
  assert (slice (sent ++ todo) (zlen sent) (zlen (sent ++ take n todo)) = Ok (take n todo)) as ->.
  { rewrite <-(take_drop n todo) at 1. apply slice_app_mid; [done|]. by rewrite zlen_app. }
  cbn [mbind Res_bind]. unfold cont_bytes.
  replace (zlen (sent ++ take n todo) <? zlen sent + zlen todo)
    with (negb (zlen (drop n todo) =? 0)); [by destruct (_ =? 0)|].
  apply eq_iff_eq_true. rewrite negb_true_iff, Z.eqb_neq, Z.ltb_lt, zlen_app.
  unfold next_len in *. lia.
Qed.

Lemma write_body_total fuel sent todo :
  (length todo < fuel)%nat →
  ∃ body, write_body fuel csid cs (sent ++ todo) (zlen sent) = Ok body.
Proof.
  revert sent todo. induction fuel as [|fuel IH]; intros sent todo Hf; [lia|].
  destruct (Z.eq_dec (zlen todo) 0) as [->%zlen_0|Hz].
  - exists []. rewrite app_nil_r. apply write_body_done.
  - zlen_facts. rewrite write_body_step by lia.
    set (n := Z.to_nat (next_len cs todo)).
    destruct (IH (sent ++ take n todo) (drop n todo)) as [body ->].
    + rewrite length_drop. unfold n, next_len, zlen in *. lia.
    + eexists. reflexivity.
Qed.
End write_body.

Section message.
Context (csid cs : Z) (h : ChunkMessageHeader).
Hypothesis Hcsid : 2 ≤ csid ≤ 65599.
Hypothesis Hcs : 1 ≤ cs.
Hypothesis Hext : extended h = false.
Hypothesis Hty : message_type h ≠ WindowAckSize.

Lemma message_chunks fuel todo sent cur basic p p1 r1 body rest :
  (length todo < fuel)%nat → chunk_stream_id basic = csid → chunk_size p1 = cs →
  message_length h = zlen sent + zlen todo →
  write_body fuel csid cs (sent ++ todo) (zlen sent) = Ok body →
  chunk_header basic (update_stream csid (λ st, st) p, r1) = (Ok h, (p1, body ++ rest)) →
  in_flight p1 csid h (cur ++ sent) (zlen sent) →
  ∃ p', parse_message fuel (p, basic_serialize basic ++ r1)
          = (Ok (cur ++ sent ++ todo), (p', rest)) ∧
        idle p' csid ∧ chunk_size p' = cs.
Proof.
  revert todo sent basic p p1 r1 body.
  induction fuel as [|fuel IH]; intros todo sent basic p p1 r1 body Hf Hb Hsz Hl Hbody Hh Hfl;
    [lia|]. cbn [parse_message]. pose proof (zlen_nonneg todo).
  destruct (Z.leb_spec (zlen todo) cs) as [Hlast|Hmore].
  - assert (body = take (Z.to_nat (next_len (chunk_size p1) todo)) todo) as Hd.
    { rewrite Hsz. destruct (Z.eq_dec (zlen todo) 0) as [->%zlen_0|Hz].
      - rewrite app_nil_r, write_body_done in Hbody. injection Hbody as <-. by rewrite take_nil.
      - rewrite write_body_step in Hbody by lia.
        assert (Z.to_nat (next_len cs todo) = length todo) as Hn
          by (unfold next_len, zlen in *; lia).
        rewrite Hn in *. rewrite take_ge, drop_ge in Hbody by lia.
        rewrite take_ge by lia.
        destruct fuel as [|f]; [unfold zlen in *; lia|]. rewrite app_nil_r in Hbody.
        rewrite write_body_done in Hbody. cbn in Hbody. injection Hbody as <-.
        by rewrite app_nil_r. }
    edestruct (parse_chunk_last p p1 basic h (cur ++ sent) todo [] r1 rest (zlen sent))
      as (p' & E & Hs & Hm & Hc & _); rewrite ?Hb, ?Hsz, ?Hext; try done.
    { by rewrite Hh, Hd, Hsz. }
    exists p'. split_and!; [st_next (exact E); by rewrite <-app_assoc| |by rewrite Hc].
    split; [rewrite <-Hb, Hs|]; done.
  - rewrite write_body_step in Hbody by lia.
    set (n := Z.to_nat (next_len cs todo)) in *.
    apply bind_Ok_inv in Hbody as (more & Hbody & E). injection E as <-.
    assert (0 < zlen (drop n todo)) as Hrem.
    { unfold n. rewrite zlen_drop by (unfold next_len; lia). unfold next_len. lia. }
    unfold cont_bytes in Hh. rewrite (proj2 (Z.eqb_neq _ _)) in Hh by lia.
    edestruct (parse_chunk_more p p1 basic h (cur ++ sent) todo [] r1
                 (basic_serialize (mkBasic Type3 csid) ++ more ++ rest) (zlen sent))
      as (p' & E & Hfl' & Hp'); rewrite ?Hb, ?Hsz, ?Hext; try done.
    { rewrite Hh. fold n. by rewrite <-!app_assoc. }
    rewrite Hb, Hsz in Hfl'. fold n in Hfl'. rewrite <-app_assoc, <-zlen_app in Hfl'.
    edestruct (IH (drop n todo) (sent ++ take n todo) (mkBasic Type3 csid) p'
                 (update_stream csid (λ st, st) p') (more ++ rest) more) as (p'' & E' & Hi & Hc);
      try done.
    + rewrite length_drop. unfold n, next_len, zlen in *. lia.
    + by rewrite Hp'.
    + rewrite zlen_app, <-Z.add_assoc, <-zlen_app, take_drop. exact Hl.
    + by eapply chunk_header_type3.
    + by apply in_flight_touch.
    + exists p''. split_and!; [|done|done]. st_next (exact E).
      rewrite E'. by rewrite <-app_assoc, take_drop.
Qed.
End message.

(** ** The writer's output *)
Definition message_header (ty : MessageType) (msid ts : Z) (data : bytes) :=
  mkHeader ts (zlen data) ty (Some msid) (0xFFFFFF <=? ts).

Lemma message_header_ok ty msid ts data :
  is_u32 ts → is_u32 msid → zlen data ≤ 0xFFFFFF → header_ok (message_header ty msid ts data).
Proof. intros. pose proof (zlen_nonneg data). by split_and!. Qed.

Lemma write_chunked_ok csid ty msid ts cs data :
  1 ≤ cs → zlen data ≤ 0xFFFFFF →
  ∃ body, write_body (S (length data)) csid cs data 0 = Ok body ∧
    write_chunked csid ty msid ts cs data
    = Ok (basic_serialize (mkBasic Type0 csid)
          ++ header_serialize (message_header ty msid ts data) Type0 ++ body).
Proof.
  intros Hcs Hl. destruct (write_body_total csid cs Hcs (S (length data)) [] data)
    as [body E]; [lia|]. cbn [app] in E. change (zlen (@nil Z)) with 0 in E.
  exists body. split; [done|]. unfold write_chunked. rewrite E. cbn [mbind Res_bind].
  unfold message_header, wrap32. rewrite Z.mod_small by (zlen_facts; lia). done.
Qed.

Lemma write_chunked_total csid ty msid ts cs data :
  1 ≤ cs → zlen data ≤ 0xFFFFFF → ∃ wire, write_chunked csid ty msid ts cs data = Ok wire.
Proof.
  intros Hcs Hl. destruct (write_chunked_ok csid ty msid ts cs data Hcs Hl) as (? & _ & E).
  by eexists.
Qed.

(** A message that fits in one chunk has its payload as its body. *)
Lemma write_body_single csid cs data :
  1 ≤ cs → zlen data ≤ cs → write_body (S (length data)) csid cs data 0 = Ok data.
Proof.
  intros Hcs Hl. destruct data as [|b data]; [done|].
  pose proof (write_body_step csid cs Hcs (length (b :: data)) [] (b :: data)) as E.
  cbn [app] in E. change (zlen (@nil Z)) with 0 in E.
  rewrite E by (rewrite zlen_cons; zlen_facts; lia).
  unfold next_len. rewrite Z.min_l, length_zlen, firstn_all, drop_ge by lia.
  rewrite app_nil_r. change (length (b :: data)) with (S (length data)).
  rewrite write_body_done. cbn. by rewrite app_nil_r.
Qed.

Lemma write_chunked_single csid ty msid ts cs data :
  1 ≤ cs → zlen data ≤ cs → zlen data ≤ 0xFFFFFF →
  write_chunked csid ty msid ts cs data
  = Ok (basic_serialize (mkBasic Type0 csid)
        ++ header_serialize (message_header ty msid ts data) Type0 ++ data).
Proof.
  intros Hcs Hl Hm. destruct (write_chunked_ok csid ty msid ts cs data Hcs Hm) as (body & E & ->).
  rewrite write_body_single in E by done. by injection E as <-.
Qed.

(** Parsing a message that comes in one chunk; [gap] is what the parser skips
    after a chunk whose timestamp is extended. *)
Lemma parse_single p csid ty msid ts data gap rest :
  2 ≤ csid ≤ 65599 → is_u32 ts → is_u32 msid → zlen data ≤ 0xFFFFFF →
  ty ≠ WindowAckSize → 1 ≤ chunk_size p → zlen data ≤ chunk_size p →
  received_bytes (stream_of csid p) = 0 →
  zlen gap = (if 0xFFFFFF <=? ts then 4 else 0) →
  ∃ p',
    parse_chunk (p, basic_serialize (mkBasic Type0 csid)
      ++ header_serialize (message_header ty msid ts data) Type0 ++ data ++ gap ++ rest)
    = (Ok (Some (current_message p ++ data)), (p', rest)) ∧
    idle p' csid ∧ chunk_size p' = chunk_size p ∧ ack_window_size p' = ack_window_size p.
Proof.
  intros Hcsid Hts Hms Hl Hty Hcs Hfit Hr Hgap.
  pose proof (message_header_ok ty msid ts data Hts Hms Hl) as Hh.
  set (h := message_header ty msid ts data) in *.
  set (p1 := update_stream csid (set_last_header h) (update_stream csid (λ st, st) p)).
  destruct (parse_chunk_last p p1 (mkBasic Type0 csid) h (current_message p) data gap
    (header_serialize h Type0 ++ data ++ gap ++ rest) rest 0)
    as (p' & E & Hs & Hm & Hc & Ha & _); try done.
  - rewrite take_ge by (change (chunk_size p1) with (chunk_size p); unfold next_len, zlen in *; lia).
    by apply chunk_header_type0.
  - by apply in_flight_type0.
  - exists p'. split_and!; [exact E| |by rewrite Hc|by rewrite Ha].
    cbn [chunk_stream_id] in Hs. split; [by rewrite Hs|done].
Qed.

(** ** Properties of the chunk stream *)

(** C8 Round trip: what [write_chunked] puts on the wire, followed by anything,
    is read back by a parser that uses the same chunk size and is idle on that
    chunk stream: the parser returns exactly the payload, leaves exactly what
    followed, and is idle again.  For every payload of at most 0xFFFFFF bytes
    (so any number of chunks), chunk size, stream id and chunk stream id from 2
    to 65599, timestamps below 0xFFFFFF and every type but the window
    acknowledgement size, which the parser takes for itself; for extended
    timestamps it is false, [extended_timestamp_swallows_next]. *)
Theorem write_read_message csid ty msid ts cs data rest p :
  2 ≤ csid ≤ 65599 → 1 ≤ cs → 0 ≤ ts < 0xFFFFFF → is_u32 msid →
  zlen data ≤ 0xFFFFFF → ty ≠ WindowAckSize → chunk_size p = cs → idle p csid →
  ∃ wire p',
    write_chunked csid ty msid ts cs data = Ok wire ∧
    parse_message (S (length data)) (p, wire ++ rest) = (Ok data, (p', rest)) ∧
    idle p' csid ∧ chunk_size p' = cs.
Proof.
  intros Hcsid Hcs Hts Hms Hl Hty Hpcs [Hr Hm].
  destruct (write_chunked_ok csid ty msid ts cs data Hcs Hl) as (body & Hbody & Hw).
  set (h := message_header ty msid ts data) in *.
  assert (header_ok h) as Hh by (apply message_header_ok; unfold is_u32 in *; lia).
  set (p1 := update_stream csid (set_last_header h) (update_stream csid (λ st, st) p)).
  destruct (message_chunks csid cs h Hcsid Hcs) with (fuel := S (length data)) (todo := data)
    (sent := @nil Z) (cur := @nil Z) (basic := mkBasic Type0 csid) (p := p) (p1 := p1)
    (r1 := header_serialize h Type0 ++ body ++ rest) (body := body) (rest := rest)
    as (p' & E & Hi & Hc); try done.
  - cbn. apply Z.leb_gt. lia.
  - lia.
  - by apply chunk_header_type0.
  - pose proof (in_flight_type0 csid h p Hr) as Hfl. by rewrite Hm in Hfl.
  - eexists _, p'. split; [exact Hw|]. split; [|done]. rewrite <-!app_assoc. exact E.
Qed.

Definition sample_payload : bytes := List.map (λ n, Z.of_nat n mod 256) (seq 0 300).

Lemma write_read_message_witness :
  ∃ wire p',
    write_chunked 4 Audio 1 40 128 sample_payload = Ok wire ∧
    parse_message (S (length sample_payload)) (parser_new, wire ++ [1; 2])
      = (Ok sample_payload, (p', [1; 2])) ∧
    idle p' 4 ∧ chunk_size p' = 128.
Proof. apply write_read_message; unfold is_u32; try done; lia. Defined.

(** Extended timestamps: when the timestamp needs the extended field, the
    parser reads that field twice, once in the header and once more after the
    chunk data, so it returns the message but loses the four bytes that follow
    it (the start of the next chunk). *)
Theorem extended_timestamp_swallows_next csid ty msid ts cs data next rest p :
  2 ≤ csid ≤ 65599 → 1 ≤ cs → 0xFFFFFF ≤ ts < 2 ^ 32 → is_u32 msid →
  zlen data ≤ cs → zlen data ≤ 0xFFFFFF → ty ≠ WindowAckSize →
  chunk_size p = cs → idle p csid → zlen next = 4 →
  ∃ wire p',
    write_chunked csid ty msid ts cs data = Ok wire ∧
    parse_chunk (p, wire ++ next ++ rest) = (Ok (Some data), (p', rest)).
Proof.
  intros Hcsid Hcs Hts Hms Hfit Hl Hty Hpcs [Hr Hm] Hn.
  destruct (parse_single p csid ty msid ts data next rest) as (p' & E & _); try done.
  - unfold is_u32; lia.
  - lia.
  - lia.
  - by rewrite (proj2 (Z.leb_le _ _)) by lia.
  - eexists _, p'. split; [by apply write_chunked_single|].
    rewrite <-!app_assoc. rewrite Hm in E. exact E.
Qed.

Lemma extended_timestamp_swallows_next_witness :
  ∃ wire p',
    write_chunked 5 Video 1 16777216 128 [1; 2; 3] = Ok wire ∧
    parse_chunk (parser_new, wire ++ [0x44; 0; 0; 0] ++ [9])
      = (Ok (Some [1; 2; 3]), (p', [9])).
Proof. apply extended_timestamp_swallows_next; unfold is_u32; try done; lia. Defined.

(** ** Commands and the negotiated chunk size *)
Lemma zlen_encode_connect app host port : 128 < zlen (encode_connect app host port).
Proof.
  unfold encode_connect, encode_values, astr, anum.
  cbn [flat_map serialize serialize_object_entries].
  repeat (rewrite ?zlen_app, ?zlen_cons, ?zlen_to_be; cbn [fst snd serialize]).
  repeat match goal with
  | |- context [zlen (bytes_of_string ?s)] =>
      let n := eval vm_compute in (zlen (bytes_of_string s)) in
      change (zlen (bytes_of_string s)) with n
  end. zlen_facts. lia.
Qed.

(** The first 129 bytes of a body chunked at 128: the 129th is the basic header
    of the continuation chunk. *)
Lemma write_body_129 data :
  128 < zlen data →
  ∃ tl, write_body (S (length data)) 3 128 data 0 = Ok (take 128 data ++ 0xC3 :: tl) ∧
        zlen data ≤ 128 + zlen tl.
Proof.
  intros Hl. pose proof (write_body_step 3 128 ltac:(lia) (length data) [] data) as E.
  cbn [app] in E. change (zlen (@nil Z)) with 0 in E. rewrite E by lia.
  assert (Z.to_nat (next_len 128 data) = 128%nat) as -> by (unfold next_len; lia).
  assert (zlen (drop 128 data) = zlen data - 128) as Hd by (apply (zlen_drop data 128); lia).
  destruct (write_body_total 3 128 ltac:(lia) (length data) (take 128 data) (drop 128 data))
    as [more Hm]; [rewrite length_drop; unfold zlen in Hl; lia|].
  rewrite Hm. cbn [mbind Res_bind]. unfold cont_bytes.
  rewrite (proj2 (Z.eqb_neq _ _)) by lia. exists more. split; [done|].
  cut (zlen (drop 128 data) ≤ zlen more); [lia|]. clear -Hm. revert Hm. generalize (length data) (take 128 data) (drop 128 data).
  intros fuel sent todo. revert sent todo more.
  induction fuel as [|fuel IH]; intros sent todo more Hm; [done|].
  destruct (Z.eq_dec (zlen todo) 0) as [->|Hz]; [apply zlen_nonneg|].
  zlen_facts. rewrite write_body_step in Hm by lia.
  apply bind_Ok_inv in Hm as (more' & Hm & [= <-]). apply IH in Hm.
  rewrite <-(take_drop (Z.to_nat (next_len 128 todo)) todo) at 1.
  rewrite !zlen_app. zlen_facts. lia.
Qed.

(** Negotiated chunk size: [connect] announces a chunk size of 65536 before
    it sends the connect command, but writes the command in 128-byte chunks.
    A peer that follows the announcement (here: this crate's own parser with
    that chunk size) never gets the command: the message it decodes has the
    continuation header 0xC3 as its byte 128. *)
Theorem connect_command_ignores_chunk_size app host port p :
  zlen (encode_connect app host port) ≤ CHUNK_SIZE →
  chunk_size p = CHUNK_SIZE → idle p 3 →
  ∃ wire m p' rest,
    write_command_chunk 0 0 (encode_connect app host port) = Ok wire ∧
    parse_chunk (p, wire) = (Ok (Some m), (p', rest)) ∧
    zlen m = zlen (encode_connect app host port) ∧ m !! 128%nat = Some 0xC3.
Proof.
  unfold CHUNK_SIZE. intros Hmax Hcs [Hr Hcur].
  pose proof (zlen_encode_connect app host port) as Hmin.
  set (data := encode_connect app host port) in *.
  destruct (write_chunked_ok 3 Command 0 0 128 data) as (body & Hb & Hw); [lia|lia|].
  destruct (write_body_129 data Hmin) as (tl & Hb' & Htl). rewrite Hb in Hb'.
  injection Hb' as ->. set (body := take 128 data ++ 0xC3 :: tl) in *.
  assert (zlen (take 128 data) = 128) as H128 by (apply (zlen_take data 128); lia).
  assert (zlen data ≤ zlen body) as Hlb by (unfold body; rewrite zlen_app, zlen_cons; lia).
  set (h := message_header Command 0 0 data) in *.
  assert (header_ok h) as Hh by (apply message_header_ok; unfold is_u32; lia).
  set (p1 := update_stream 3 (set_last_header h) (update_stream 3 (λ st, st) p)).
  set (m := take (length data) body).
  assert (zlen m = zlen data) as Hm
    by (unfold m, zlen in *; rewrite length_take; lia).
  destruct (parse_chunk_last p p1 (mkBasic Type0 3) h [] m []
    (header_serialize h Type0 ++ body) (drop (length data) body) 0)
    as (p' & E & _); try done.
  - change (chunk_size p1) with (chunk_size p). lia.
  - rewrite (take_ge m) by
      (change (chunk_size p1) with (chunk_size p); unfold next_len, zlen in *; lia).
    rewrite app_nil_l. unfold m. rewrite take_drop. by apply chunk_header_type0.
  - pose proof (in_flight_type0 3 h p Hr) as Hfl. by rewrite Hcur in Hfl.
  - change (chunk_size p1) with (chunk_size p). lia.
  - eexists _, m, p', _. split; [exact Hw|]. split; [exact E|]. split; [done|].
    unfold m, body, zlen in *. rewrite lookup_take_lt by lia.
    rewrite lookup_app_r by lia. by replace (128 - _)%nat with O by lia.
Qed.

Definition negotiated_parser : ChunkStreamParser := RtmpChunk.set_chunk_size CHUNK_SIZE parser_new.

Lemma connect_command_ignores_chunk_size_witness :
  ∃ wire m p' rest,
    write_command_chunk 0 0
      (encode_connect (bytes_of_string "live") (bytes_of_string "h") 1935) = Ok wire ∧
    parse_chunk (negotiated_parser, wire) = (Ok (Some m), (p', rest)) ∧
    zlen m = zlen (encode_connect (bytes_of_string "live") (bytes_of_string "h") 1935) ∧
    m !! 128%nat = Some 0xC3.
Proof.
  apply connect_command_ignores_chunk_size; [vm_compute; discriminate|done|by split].
Defined.

(** ** Safety on any network input *)
Definition sock_ok (k : Sock) : Prop := bytes_ok (concat (inbox k)).

Section decode_all_safe.
Context {A : Type} `{WireCodecLaws A}.

Lemma decode_loop_safe fuel data pos (values : list A) :
  bytes_ok data → 0 ≤ pos ≤ zlen data → zlen data - pos < Z.of_nat fuel →
  safe (decode_loop fuel data pos values).
Proof.
  intros Hd. revert pos values. induction fuel as [|fuel IH]; intros pos values Hpos Hf; [lia|].
  cbn [decode_loop]. destruct (Z.ltb_spec pos (zlen data)); [|done].
  pose proof (post_slice_from is_byte data pos Hd Hpos) as Hp.
  destruct (slice_from data pos) as [sub|e| |]; try done. destruct Hp as [Hsub Hl].
  cbn [mbind Res_bind]. pose proof (wire_safe sub Hsub) as Hs.
  destruct (wire_decode sub) as [[v n]|e| |] eqn:E; try done.
  apply wire_progress in E; [|done]. apply IH; lia.
Qed.
End decode_all_safe.

Lemma parse_amf_values_safe data : bytes_ok data → safe (parse_amf_values data).
Proof.
  intros Hd. unfold parse_amf_values.
  pose proof (decode_loop_safe (A := Amf0Value) (S (length data)) data 0 [] Hd) as Hs.
  assert (safe (decode_loop (A := Amf0Value) (S (length data)) data 0 [])) as Hs'
    by (apply Hs; unfold zlen; lia).
  destruct (decode_loop _ _ _ _); try done. cbn. by case_match.
Qed.

Lemma sock_send_ok r b k : r = Ok b → sock_send r k = (Ok tt, mkSock (inbox k) (outbox k ++ b)).
Proof. by intros ->. Qed.

Lemma sock_send_post I csid ty msid ts cs data :
  (∀ k o, I k → I (mkSock (inbox k) o)) → 1 ≤ cs → zlen data ≤ 0xFFFFFF →
  st_post I (λ _, True) (sock_send (write_chunked csid ty msid ts cs data)).
Proof.
  intros HI Hcs Hl k Hk.
  destruct (write_chunked_ok csid ty msid ts cs data Hcs Hl) as (body & _ & E).
  rewrite (sock_send_ok _ _ _ E). split; [done|by apply HI].
Qed.

Lemma take_ack_ok p : parser_ok p → parser_ok (take_ack_if_needed p).2.
Proof. intros []. unfold take_ack_if_needed. case_match; by split. Qed.

Lemma set_chunk_size_ok n p :
  1 ≤ n ≤ 0xFFFFFF → parser_ok p → parser_ok (RtmpChunk.set_chunk_size n p).
Proof. intros ? []. by split. Qed.

Definition buffered (r : list Amf0Value + ChunkStreamParser * bytes) : Prop :=
  match r with inl _ => True | inr (p, b) => parser_ok p ∧ bytes_ok b end.

Lemma parse_buffer_post fuel segs p buf :
  parser_ok p → bytes_ok buf → (length buf < fuel)%nat →
  st_post (λ k, inbox k = segs) buffered (parse_buffer fuel p buf).
Proof.
  revert p buf. induction fuel as [|fuel IH]; intros p buf Hp Hbuf Hf; [lia|].
  cbn [parse_buffer]. destruct buf as [|b buf].
  { rewrite parse_chunk_nil. by apply st_post_ret. }
  pose proof (parse_chunk_run p b buf Hp Hbuf) as [Hm Hst].
  destruct (parse_chunk (p, b :: buf)) as [[[msg|]|e| |] [p' r]]; cbn in Hm, Hst; try done.
  - destruct Hst as [Hp' Hr]. pose proof (proj2 (proj1 (bytes_ok_cons _ _) Hbuf)) as Hbuf'.
    pose proof (bytes_ok_suffix _ _ Hbuf' Hr) as Hrok.
    assert (length r < fuel)%nat as Hlen
      by (destruct Hr as [k ->]; rewrite length_cons, length_app in Hf; lia).
    pose proof (take_ack_ok p' Hp') as Hp''.
    eapply (st_post_bind _ (λ _, True)).
    { apply st_post_lift. unfold take_ack_if_needed. by case_match. }
    intros ack _. eapply (st_post_bind _ (λ _, True)).
    { destruct ack; [|by apply st_post_ret]. apply sock_send_post; [done|lia|].
      rewrite zlen_to_be. lia. }
    intros _ _. eapply (st_post_bind _ (λ s, match s with Some n => 1 ≤ n ≤ 0xFFFFFF | None => True end)).
    { destruct (zlen msg =? 4) eqn:E4; [|by apply st_post_ret]. guards.
      eapply st_post_bind; [apply st_post_lift, post_be_at; [done|lia|lia]|].
      intros n _. apply st_post_ret. destruct (_ && _) eqn:E; [|done]. guards. lia. }
    intros [n|] Hn; [apply IH; [by apply set_chunk_size_ok|done|done]|].
    pose proof (parse_amf_values_safe msg Hm) as Hs.
    destruct (parse_amf_values msg) as [values|e| |]; try done; [|by apply IH].
    destruct (is_reply values); [by apply st_post_ret|by apply IH].
  - apply st_post_ret. by split; [apply Hst|].
  - apply st_post_ret. destruct Hst as [Hp' Hr]. split; [done|].
    apply bytes_ok_cons in Hbuf as [_ Hbuf]. by eapply bytes_ok_suffix.
Qed.

Lemma sock_read_spec k :
  sock_ok k → ∃ seg k', sock_read k = (Ok seg, k') ∧ bytes_ok seg ∧ sock_ok k' ∧
    outbox k' = outbox k ∧ (inbox_bytes k' + length seg = inbox_bytes k)%nat.
Proof.
  unfold sock_ok, sock_read, inbox_bytes. destruct k as [[|seg more] out]; cbn [inbox outbox].
  { intros _. eexists _, _. split_and!; try done; cbn. all: constructor. }
  cbn [concat]. intros [Hs Hm]%bytes_ok_app. case_match.
  - eexists _, _. split_and!; try done. cbn. rewrite length_app. lia.
  - eexists _, _. split; [done|]. rewrite <-(take_drop 4096 seg) in Hs.
    apply bytes_ok_app in Hs as [Ht Hd]. split_and!; try done; cbn [inbox concat].
    + by apply bytes_ok_app.
    + rewrite <-(take_drop 4096 seg) at 3. rewrite !length_app. lia.
Qed.

Lemma read_loop_post fuel p buf k :
  parser_ok p → bytes_ok buf → sock_ok k → (inbox_bytes k < fuel)%nat →
  safe (read_loop fuel p buf k).1 ∧ sock_ok (read_loop fuel p buf k).2.
Proof.
  revert p buf k. induction fuel as [|fuel IH]; intros p buf k Hp Hbuf Hk Hf; [lia|].
  cbn [read_loop]. destruct (sock_read_spec k Hk) as (seg & k' & E & Hseg & Hk' & _ & Hb).
  rewrite (st_bind_ok _ _ _ _ _ E). destruct (Z.eqb_spec (zlen seg) 0); [done|].
  assert (bytes_ok (buf ++ seg)) as Hbs by by apply bytes_ok_app.
  pose proof (parse_buffer_post (S (length (buf ++ seg))) (inbox k') p (buf ++ seg)
                Hp Hbs ltac:(lia) k' eq_refl) as [Hq Hi].
  cbv zeta. destruct (parse_buffer _ _ _ k') as [r k''] eqn:E'. cbn in Hq, Hi.
  assert (sock_ok k'') as Hk'' by (unfold sock_ok; by rewrite Hi).
  destruct r as [[values|[p' b']]|e| |]; try done.
  - by rewrite (st_bind_ok _ _ _ _ _ E').
  - rewrite (st_bind_ok _ _ _ _ _ E'). destruct Hq. apply IH; try done.
    unfold inbox_bytes in *. rewrite Hi. unfold zlen in *. lia.
  - by rewrite (st_bind_err _ _ _ _ _ E').
Qed.

Lemma read_until_command_post : st_post sock_ok (λ _, True) read_until_command.
Proof.
  intros k Hk. unfold read_until_command.
  destruct (read_loop_post (S (inbox_bytes k)) parser_new [] k parser_new_ok) as [Hs Hk'];
    [constructor|done|lia|]. split; [|done]. by destruct (read_loop _ _ _ k).1.
Qed.

(** ** The connection script *)
Lemma take_segments_spec n segs l rest :
  take_segments n segs = Some (l, rest) → length l = n ∧ concat segs = l ++ concat rest.
Proof.
  revert n l. induction segs as [|seg more IH]; intros n l; cbn [take_segments].
  { case_bool_decide; [|done]. by intros [= <- <-]. }
  case_bool_decide as Hn.
  - intros [= <- <-]. cbn [concat]. rewrite app_assoc, take_drop, length_take. split; [lia|done].
  - destruct (take_segments (n - length seg) more) as [[l' r']|] eqn:E; [|done].
    intros [= <- <-]. destruct (IH _ _ E) as [Hl Hc]. cbn [concat].
    rewrite length_app, Hc, app_assoc. split; [lia|done].
Qed.

Lemma sock_read_exact_post n :
  0 ≤ n → st_post sock_ok (λ l, bytes_ok l ∧ zlen l = n) (sock_read_exact n).
Proof.
  intros Hn k Hk. unfold sock_read_exact.
  destruct (take_segments (Z.to_nat n) (inbox k)) as [[l rest]|] eqn:E; [|by split; [|constructor]].
  apply take_segments_spec in E as [Hl Hc]. unfold sock_ok in Hk. rewrite Hc in Hk.
  apply bytes_ok_app in Hk as [Hl' Hr]. split; [|done]. split; [done|]. unfold zlen. lia.
Qed.

Lemma zlen_lcg_fill n seed : zlen (lcg_fill n seed) = Z.of_nat n.
Proof. revert seed. induction n as [|n IH]; intros; [done|]. cbn [lcg_fill]. rewrite zlen_cons, IH. lia. Qed.

Lemma bytes_ok_lcg_fill n seed : bytes_ok (lcg_fill n seed).
Proof.
  revert seed. induction n as [|n IH]; intros; [constructor|]. cbn [lcg_fill].
  apply bytes_ok_cons. split; [|apply IH]. apply Z.mod_pos_bound. lia.
Qed.

Lemma generate_c1_ok time : bytes_ok (generate_c1 time) ∧ zlen (generate_c1 time) = 1536.
Proof.
  unfold generate_c1. split.
  2: { rewrite !zlen_app, zlen_to_be, zlen_lcg_fill. unfold zlen. cbn [length]. lia. }
  apply bytes_ok_app. split; [apply bytes_ok_to_be|]. apply bytes_ok_app.
  split; [by repeat constructor|apply bytes_ok_lcg_fill].
Qed.

Lemma sock_write_post b : st_post sock_ok (λ _, True) (sock_write b).
Proof. by apply st_post_modify. Qed.

Lemma client_handshake_post time : st_post sock_ok (λ _, True) (client_handshake time).
Proof.
  destruct (generate_c1_ok time) as [Hok Hl]. unfold client_handshake, HANDSHAKE_SIZE.
  eapply st_post_bind; [apply sock_write_post|intros _ _].
  eapply st_post_bind; [apply sock_write_post|intros _ _].
  eapply st_post_bind; [by apply sock_read_exact_post|intros s0 [Hs0 Hl0]].
  eapply st_post_bind; [apply st_post_lift, (post_at is_byte); [done|lia]|intros v _].
  case_match; [apply st_post_fail|].
  eapply st_post_bind; [by apply sock_read_exact_post|intros s1 _].
  eapply st_post_bind; [by apply sock_read_exact_post|intros s2 [Hs2 Hl2]].
  eapply st_post_bind; [apply st_post_lift, post_be_at; [done|lia|lia]|intros t2 _].
  eapply st_post_bind; [apply st_post_lift, post_be_at; [done|lia|lia]|intros t1 _].
  repeat (case_match; [apply st_post_fail|]). apply sock_write_post.
Qed.

Lemma f64_to_u32_range bits : is_u32 (f64_to_u32 bits).
Proof.
  unfold f64_to_u32, is_u32. destruct (_ =? 2047); [case_match; lia|].
  destruct (_ =? 1); [lia|]. destruct (_ <? 1023); [lia|].
  set (e := _ - 1023). pose proof (Z.mod_pos_bound bits (2 ^ 52) ltac:(lia)).
  pose proof (Z.pow_nonneg 2 e ltac:(lia)).
  assert (0 ≤ (2 ^ 52 + bits mod 2 ^ 52) * 2 ^ e / 2 ^ 52) by (apply Z.div_pos; nia). lia.
Qed.

Lemma number_after_null_range values id : number_after_null values = Some id → is_u32 id.
Proof.
  induction values as [|v rest IH]; [done|]. cbn [number_after_null].
  destruct v; try exact IH. destruct rest as [|[] ?]; try exact IH.
  intros [= <-]. apply f64_to_u32_range.
Qed.

Lemma stream_id_of_post values : post is_u32 (stream_id_of values).
Proof.
  unfold stream_id_of. destruct (number_after_null values) eqn:E.
  - by eapply number_after_null_range.
  - destruct (values !! 3%nat) as [[]|]; try done. apply f64_to_u32_range.
Qed.

(** During [negotiate] the network input is bytes, and [self.stream] is not
    touched. *)
Definition negotiating (s0 : option Sock) : Sock * RtmpPushClient → Prop :=
  λ '(k, c), sock_ok k ∧ stream c = s0.

Lemma on_sock_post {A} s0 (Q : A → Prop) (m : ST Sock A) :
  st_post sock_ok Q m → st_post (negotiating s0) Q (on_sock m).
Proof.
  intros Hm [k c] [Hk Hc]. unfold on_sock. specialize (Hm k Hk). destruct (m k). by destruct Hm.
Qed.

Lemma sock_ok_outbox k o : sock_ok k → sock_ok (mkSock (inbox k) o).
Proof. done. Qed.

(** The commands fit in a message. *)
Definition payload_fits (c : RtmpPushClient) : Prop :=
  zlen (encode_connect (app_name c) (host c) (port c)) ≤ 0xFFFFFF ∧
  zlen (encode_publish (stream_name c)) ≤ 0xFFFFFF.

Lemma negotiate_post time c0 k0 :
  sock_ok k0 → payload_fits c0 →
  post (λ _, True) (negotiate time (k0, c0)).1 ∧
  negotiating (stream c0) (negotiate time (k0, c0)).2.
Proof.
  intros Hk0 [Hfit1 Hfit2].
  set (I := λ '(k, c), sock_ok k ∧ stream c = stream c0 ∧ host c = host c0 ∧ port c = port c0 ∧
             app_name c = app_name c0 ∧ stream_name c = stream_name c0).
  assert (∀ (A : Type) (Q : A → Prop) (m : ST Sock A), st_post sock_ok Q m → st_post I Q (on_sock m)) as HI.
  { intros A Q m Hm [k c] [Hk Hc]. unfold on_sock. specialize (Hm k Hk).
    destruct (m k). by destruct Hm. }
  assert (st_post I (λ _, True) (negotiate time)) as H.
  { unfold negotiate.
    eapply st_post_bind; [apply HI, client_handshake_post|intros _ _].
    eapply st_post_bind; [by apply HI, sock_send_post; [apply sock_ok_outbox|..]|intros _ _].
    eapply (st_post_bind _ (λ _, True)); [by apply st_post_modify; intros []|intros _ _].
    eapply (st_post_bind _ (λ d, zlen d ≤ 0xFFFFFF)).
    { apply st_post_get. intros [k c] (_ & _ & -> & -> & -> & _). done. }
    intros payload Hp.
    eapply st_post_bind; [by apply HI, sock_send_post; [apply sock_ok_outbox|..]|intros _ _].
    eapply st_post_bind; [apply HI, read_until_command_post|intros _ _].
    eapply st_post_bind; [apply HI, read_until_command_post|intros _ _].
    eapply st_post_bind; [by apply HI, sock_send_post; [apply sock_ok_outbox|..]|intros _ _].
    eapply (st_post_bind _ is_u32).
    { apply HI. eapply st_post_bind; [apply read_until_command_post|intros vs _].
      apply st_post_lift, stream_id_of_post. }
    intros sid Hsid.
    eapply (st_post_bind _ (λ _, True)); [by apply st_post_modify; intros []|intros _ _].
    eapply (st_post_bind _ (λ d, zlen d ≤ 0xFFFFFF)).
    { apply st_post_get. intros [k c] (_ & _ & _ & _ & _ & ->). done. }
    intros payload' Hp'.
    eapply st_post_bind; [by apply HI, sock_send_post; [apply sock_ok_outbox|..]|intros _ _].
    eapply st_post_bind; [apply HI, read_until_command_post|intros _ _].
    by apply st_post_ret. }
  destruct (H (k0, c0)) as [HQ Hi]; [by split_and!|]. split; [done|].
  destruct (negotiate time (k0, c0)) as [? [k c]]. destruct Hi as (? & ? & _). by split.
Qed.

(** [connect] against an arbitrary peer: whatever bytes the server sends, in
    whatever segments, [connect] returns (the read loop's fuel suffices) and
    never indexes out of range; it succeeds exactly when the client ends up
    connected, and on failure [self.stream] is as it was. *)
Theorem connect_safe time k c :
  sock_ok k → payload_fits c →
  let '(r, (k', c')) := connect time (k, c) in
  safe r ∧
  (r = Ok tt → stream c' = Some k') ∧
  (is_ok r = false → stream c' = stream c).
Proof.
  intros Hk Hfit. destruct (negotiate_post time c k Hk Hfit) as [Hp Hn].
  unfold connect, mbind, ST_bind. destruct (negotiate time (k, c)) as [[[]|e| |] [k' c']];
    cbn in Hp, Hn |- *; try done. destruct Hn. by split_and!.
Qed.

Definition sample_client : RtmpPushClient :=
  client_new (bytes_of_string "cdn") 1935 (bytes_of_string "live") (bytes_of_string "s").

Lemma connect_safe_witness :
  let '(r, (k', c')) := connect 7 (mkSock [[3; 255]; [1]] [], sample_client) in
  safe r ∧ (r = Ok tt → stream c' = Some k') ∧
  (is_ok r = false → stream c' = stream sample_client).
Proof.
  apply connect_safe; [repeat constructor; done|split; vm_compute; discriminate].
Defined.

(** ** A conforming server *)

(** A reply in one chunk of the default size, as a message on chunk stream 3. *)
Definition reply_wire (payload : bytes) : bytes :=
  basic_serialize (mkBasic Type0 3)
  ++ header_serialize (message_header Command 0 0 payload) Type0 ++ payload.

(** Values that a server's reply can consist of: encodable, led by [_result] or
    [onStatus], fitting one chunk (and not the four bytes that the reader takes
    for a chunk size). *)
Definition reply_ok (vs : list Amf0Value) : bool :=
  forallb (value_okb 65535) vs && is_reply vs
  && (zlen (encode_values vs) <=? 128) && negb (zlen (encode_values vs) =? 4).

Lemma zlen_encode_values_pos v vs : 1 ≤ zlen (encode_values (v :: vs)).
Proof.
  unfold encode_values. cbn [flat_map]. rewrite zlen_app.
  pose proof (zlen_serialize_pos v). pose proof (zlen_nonneg (flat_map serialize vs)). lia.
Qed.

Lemma decode_loop_encoded vs pre acc fuel :
  forallb (value_okb 65535) vs = true → (length (encode_values vs) < fuel)%nat →
  decode_loop fuel (pre ++ encode_values vs) (zlen pre) acc = Ok (acc ++ vs).
Proof.
  revert pre acc fuel. induction vs as [|v vs IH]; intros pre acc fuel Hok Hf.
  - destruct fuel; [lia|]. cbn [encode_values flat_map decode_loop].
    rewrite !app_nil_r. by rewrite Z.ltb_irrefl.
  - destruct fuel as [|fuel]; [lia|]. cbn [decode_loop forallb] in *.
    apply andb_true_iff in Hok as [Hv Hvs].
    pose proof (zlen_encode_values_pos v vs).
    rewrite (proj2 (Z.ltb_lt _ _)) by (rewrite zlen_app; lia).
    rewrite slice_from_app. cbn [mbind Res_bind].
    change (encode_values (v :: vs)) with (wire_encode v ++ encode_values vs).
    rewrite wire_roundtrip by done.
    rewrite app_assoc, <-zlen_app.
    rewrite IH; [by rewrite <-app_assoc|done|].
    change (encode_values (v :: vs)) with (serialize v ++ encode_values vs) in Hf.
    pose proof (zlen_serialize_pos v). unfold zlen in *. rewrite length_app in Hf. lia.
Qed.

Lemma parse_amf_values_encoded v vs :
  forallb (value_okb 65535) (v :: vs) = true →
  parse_amf_values (encode_values (v :: vs)) = Ok (v :: vs).
Proof.
  intros Hok. unfold parse_amf_values.
  pose proof (decode_loop_encoded (v :: vs) [] [] (S (length (encode_values (v :: vs)))) Hok) as E.
  change ([] ++ ?x) with x in E. change (zlen []) with 0 in E.
  rewrite E by lia. cbn [mbind Res_bind]. rewrite zlen_cons.
  zlen_facts. by rewrite (proj2 (Z.eqb_neq _ _)) by lia.
Qed.

Lemma take_ack_disabled p : ack_window_size p = 0 → take_ack_if_needed p = (Ok None, p).
Proof. intros E. unfold take_ack_if_needed. by rewrite E. Qed.

Lemma zlen_reply_wire payload : zlen (reply_wire payload) = 12 + zlen payload.
Proof.
  unfold reply_wire. rewrite !zlen_app. change (zlen (basic_serialize _)) with 1.
  change (zlen (header_serialize _ _)) with 11. lia.
Qed.

Lemma parse_buffer_reply vs fuel k :
  reply_ok vs = true →
  parse_buffer (S fuel) parser_new (reply_wire (encode_values vs)) k = (Ok (inl vs), k).
Proof.
  intros Hok. unfold reply_ok in Hok. guards. destruct vs as [|v vs]; [done|].
  pose proof (zlen_encode_values_pos v vs) as Hpos.
  pose proof (parse_amf_values_encoded v vs) as Hparse.
  set (payload := encode_values (v :: vs)) in *.
  destruct (parse_single parser_new 3 Command 0 0 payload [] [])
    as (p' & E & Hi & Hc & Ha); try done;
    try (cbn [chunk_size parser_new]; unfold DEFAULT_CHUNK_SIZE; lia).
  rewrite !app_nil_r in E. change (current_message parser_new ++ payload) with payload in E.
  cbn [parse_buffer]. unfold reply_wire. rewrite E.
  rewrite take_ack_disabled by by rewrite Ha. cbn [fst snd].
  st_next (reflexivity). st_next (reflexivity).
  rewrite (proj2 (Z.eqb_neq (zlen payload) 4)) by done. st_next (reflexivity).
  rewrite Hparse by done. by rewrite H1.
Qed.

Lemma read_reply vs segs out :
  reply_ok vs = true →
  read_until_command (mkSock (reply_wire (encode_values vs) :: segs) out)
  = (Ok vs, mkSock segs out).
Proof.
  intros Hok. pose proof (zlen_reply_wire (encode_values vs)) as Hl.
  assert (0 ≤ zlen (encode_values vs) ≤ 128) as Hb
    by (unfold reply_ok in Hok; guards; zlen_facts; lia).
  unfold read_until_command. cbn [read_loop]. 
  st_next (cbn [sock_read inbox]; by rewrite (proj2 (Z.leb_le _ _)) by lia).
  rewrite (proj2 (Z.eqb_neq _ _)) by lia. rewrite app_nil_l. cbv zeta.
  st_next (by apply parse_buffer_reply). done.
Qed.

Lemma take_segments_inner n l r rest :
  length l = n → r ≠ [] → take_segments n ((l ++ r) :: rest) = Some (l, r :: rest).
Proof.
  intros <- Hr. cbn [take_segments].
  rewrite bool_decide_eq_true_2 by (rewrite length_app; destruct r; [done|cbn; lia]).
  by rewrite take_app_length, drop_app_length.
Qed.

Lemma take_segments_whole n l r rest :
  length l = n → r ≠ [] → take_segments n (l :: r :: rest) = Some (l, r :: rest).
Proof.
  intros <- Hr. cbn [take_segments]. rewrite bool_decide_eq_false_2 by lia.
  rewrite Nat.sub_diag, bool_decide_eq_true_2 by (destruct r; [done|cbn; lia]).
  cbn. by rewrite app_nil_r.
Qed.

Lemma sock_read_exact_ok n segs l rest out :
  take_segments (Z.to_nat n) segs = Some (l, rest) →
  sock_read_exact n (mkSock segs out) = (Ok l, mkSock rest out).
Proof. intros E. unfold sock_read_exact. cbn [inbox]. by rewrite E. Qed.

Lemma be_at_first data : 4 ≤ zlen data → be_at 4 data 0 = Ok (from_be (take 4 data)).
Proof.
  intros Hl. unfold be_at. rewrite <-(take_drop 4 data) at 1.
  pose proof (bytes_at_prefix (take 4 data) (drop 4 data)) as E.
  replace (length (take 4 data)) with 4%nat in E by (rewrite length_take; unfold zlen in Hl; lia).
  by rewrite E.
Qed.

Lemma handshake_conforming time s1 s2 seg rest out :
  let c1 := generate_c1 time in
  zlen s1 = HANDSHAKE_SIZE → zlen s2 = HANDSHAKE_SIZE →
  take 4 s2 = take 4 c1 → drop 8 s2 = drop 8 c1 → seg ≠ [] →
  client_handshake time (mkSock ((([RTMP_VERSION] ++ s1 ++ s2)) :: seg :: rest) out)
  = (Ok tt, mkSock (seg :: rest) (out ++ [RTMP_VERSION] ++ c1 ++ generate_c2 s1 c1)).
Proof.
  intros c1 Hs1 Hs2 Ht Hr Hseg. unfold HANDSHAKE_SIZE in *.
  destruct (generate_c1_ok time) as [_ Hc1]. fold c1 in Hc1.
  assert (length s1 = 1536%nat ∧ length s2 = 1536%nat) as [Hl1 Hl2] by (unfold zlen in *; lia).
  unfold client_handshake. fold c1. st_next (reflexivity). st_next (reflexivity).
  st_next (eapply sock_read_exact_ok, (take_segments_inner _ [RTMP_VERSION]);
           [done|by destruct s1]).
  st_next (reflexivity).
  st_next (eapply sock_read_exact_ok, take_segments_inner; [done|by destruct s2]).
  st_next (eapply sock_read_exact_ok, take_segments_whole; done).
  st_next (apply st_lift_ok, be_at_first; lia).
  st_next (apply st_lift_ok, be_at_first; lia).
  rewrite Ht, Z.eqb_refl, bool_decide_eq_true_2 by done. cbn [negb].
  unfold sock_write, st_modify. cbn [inbox outbox]. by rewrite <-!app_assoc.
Qed.

(** C11 A conforming session in separate segments: against a server that echoes
    C1 in S2, whose S0 S1 S2 arrive in exactly one TCP segment and whose four
    replies arrive each in exactly one segment of its own, each a command of
    one chunk and at most 128 bytes, [connect] succeeds (what a segment holds
    behind the reply is dropped, so a server that coalesces its replies is not
    covered); the client is connected with the stream id of the createStream
    reply and the negotiated chunk size, it has written exactly C0 C1 C2,
    SetChunkSize, connect, createStream and publish, in this order, and what
    the server sent after that is still unread. *)
Theorem connect_conforming time c s1 s2 v1 v2 v3 v4 sid more out :
  zlen s1 = HANDSHAKE_SIZE → zlen s2 = HANDSHAKE_SIZE →
  take 4 s2 = take 4 (generate_c1 time) → drop 8 s2 = drop 8 (generate_c1 time) →
  reply_ok v1 = true → reply_ok v2 = true → reply_ok v3 = true → reply_ok v4 = true →
  stream_id_of v3 = Ok sid → payload_fits c →
  ∃ w1 w2 w3 w4,
    write_protocol_message SetChunkSize (to_be 4 CHUNK_SIZE) = Ok w1 ∧
    write_command_chunk 0 0 (encode_connect (app_name c) (host c) (port c)) = Ok w2 ∧
    write_command_chunk 0 0 encode_create_stream = Ok w3 ∧
    write_command_chunk sid 0 (encode_publish (stream_name c)) = Ok w4 ∧
    let k := mkSock (([RTMP_VERSION] ++ s1 ++ s2)
                     :: reply_wire (encode_values v1) :: reply_wire (encode_values v2)
                     :: reply_wire (encode_values v3) :: reply_wire (encode_values v4)
                     :: more) out in
    let k' := mkSock more (out ++ ([RTMP_VERSION] ++ generate_c1 time
                                   ++ generate_c2 s1 (generate_c1 time))
                           ++ w1 ++ w2 ++ w3 ++ w4) in
    connect time (k, c)
    = (Ok tt, (k', set_stream (Some k') (set_stream_id sid (set_chunk CHUNK_SIZE c)))).
Proof.
  intros Hs1 Hs2 Ht Hr H1 H2 H3 H4 Hsid [Hf1 Hf2].
  destruct (write_chunked_total 2 SetChunkSize 0 0 128 (to_be 4 CHUNK_SIZE)) as [b1 E1];
    [lia|done|].
  destruct (write_chunked_total 3 Command 0 0 128 (encode_connect (app_name c) (host c) (port c)))
    as [b2 E2]; [lia|done|].
  destruct (write_chunked_total 3 Command 0 0 128 encode_create_stream) as [b3 E3];
    [lia|done|].
  destruct (write_chunked_total 3 Command sid 0 128 (encode_publish (stream_name c)))
    as [b4 E4]; [lia|done|].
  eexists _, _, _, _. do 4 (split; [eassumption|]). intros k k'.
  unfold connect, negotiate.
  assert (∀ {A} (m : ST Sock A) k1 a k2 c1, m k1 = (Ok a, k2) →
            on_sock m (k1, c1) = (Ok a, (k2, c1))) as Hon
    by (intros A m k1 a k2 c1 E; unfold on_sock; by rewrite E).
  eapply (st_bind_eq _ _ _ tt (k', set_stream_id sid (set_chunk CHUNK_SIZE c))); [|reflexivity].
  st_next (apply Hon; by apply handshake_conforming).
  st_next (apply Hon; by apply sock_send_ok). st_next (reflexivity). st_next (reflexivity).
  cbn [app_name host port set_chunk].
  st_next (apply Hon; by apply sock_send_ok). cbn [inbox outbox].
  st_next (apply Hon; by apply read_reply). st_next (apply Hon; by apply read_reply).
  st_next (apply Hon; by apply sock_send_ok). cbn [inbox outbox].
  st_next (apply Hon; st_next (by apply read_reply); by apply st_lift_ok).
  st_next (reflexivity). st_next (reflexivity). cbn [stream_name set_stream_id set_chunk].
  st_next (apply Hon; by apply sock_send_ok). cbn [inbox outbox].
  st_next (apply Hon; by apply read_reply).
  unfold k'. rewrite <-!app_assoc. reflexivity.
Qed.

Definition sample_reply (n : Z) : list Amf0Value := [astr "_result"; anum n; Null; anum 9].

Lemma connect_conforming_witness :
  ∃ w1 w2 w3 w4,
    write_protocol_message SetChunkSize (to_be 4 CHUNK_SIZE) = Ok w1 ∧
    write_command_chunk 0 0 (encode_connect (app_name sample_client)
      (host sample_client) (port sample_client)) = Ok w2 ∧
    write_command_chunk 0 0 encode_create_stream = Ok w3 ∧
    write_command_chunk 9 0 (encode_publish (stream_name sample_client)) = Ok w4 ∧
    let k := mkSock (([RTMP_VERSION] ++ lcg_fill 1536 5 ++ generate_c1 7)
                     :: reply_wire (encode_values (sample_reply 1))
                     :: reply_wire (encode_values (sample_reply 1))
                     :: reply_wire (encode_values (sample_reply 2))
                     :: reply_wire (encode_values (sample_reply 3)) :: []) [] in
    let k' := mkSock [] ([] ++ ([RTMP_VERSION] ++ generate_c1 7
                                   ++ generate_c2 (lcg_fill 1536 5) (generate_c1 7))
                           ++ w1 ++ w2 ++ w3 ++ w4) in
    connect 7 (k, sample_client)
    = (Ok tt, (k', set_stream (Some k') (set_stream_id 9 (set_chunk CHUNK_SIZE sample_client)))).
Proof.
  apply connect_conforming; try reflexivity; try (vm_compute; reflexivity).
  split; vm_compute; discriminate.
Defined.

(** ** Partial reads *)
Lemma zlen_type0_header ty msid ts data :
  ts < 0xFFFFFF → zlen (header_serialize (message_header ty msid ts data) Type0) = 11.
Proof.
  intros Hts. unfold header_serialize, message_header.
  cbn [timestamp message_length message_type message_stream_id extended].
  rewrite (proj2 (Z.leb_gt _ _)) by lia. by rewrite !zlen_app, zlen_to_le.
Qed.

Lemma context_read_short msg n r :
  zlen r < n → context msg (read_exact n) r = (Err msg, []).
Proof. intros. unfold context. by rewrite read_exact_short. Qed.

Lemma on_reader_err {A} (m : ST bytes A) p r e r' :
  m r = (Err e, r') → on_reader m (p, r) = (Err e, (p, r')).
Proof. intros E. unfold on_reader. by rewrite E. Qed.

(** Reading a chunk that ends too early fails at the end of the input. *)
Lemma parse_chunk_short_header p csid t :
  2 ≤ csid ≤ 65599 → zlen t < 11 →
  ∃ e p', parse_chunk (p, basic_serialize (mkBasic Type0 csid) ++ t) = (Err e, (p', [])).
Proof.
  intros Hc Ht. eexists _, _. unfold parse_chunk.
  st_next (by apply on_reader_ok, basic_parse_serialize).
  st_next (by apply on_parser_ok). apply st_bind_err.
  unfold chunk_header. cbn [chunk_type]. apply st_bind_err.
  apply on_reader_err, st_bind_err. by apply context_read_short.
Qed.

Lemma parse_chunk_short_data p csid h d :
  2 ≤ csid ≤ 65599 → header_ok h → received_bytes (stream_of csid p) = 0 →
  zlen d < message_length h ≤ chunk_size p →
  ∃ e p', parse_chunk (p, basic_serialize (mkBasic Type0 csid) ++ header_serialize h Type0 ++ d)
          = (Err e, (p', [])).
Proof.
  intros Hc Hh Hr Hd. eexists _, _. unfold parse_chunk.
  st_next (by apply on_reader_ok, basic_parse_serialize).
  st_next (by apply on_parser_ok). cbn [chunk_stream_id].
  st_next (by apply chunk_header_type0).
  st_next (by apply on_parser_ok). st_next (by apply on_parser_ok).
  pose proof (in_flight_type0 csid h p Hr) as Hfl. rewrite (fl_stream _ _ _ _ _ Hfl).
  apply st_bind_err, on_reader_err, context_read_short. cbn [received_bytes].
  match goal with |- _ < Z.min _ (chunk_size ?q) => change (chunk_size q) with (chunk_size p) end.
  lia.
Qed.

(** Partial reads: a chunk that TCP delivers in two reads is lost.  When a
    read ends inside a chunk (here: a command chunk on stream 3, as the client
    itself writes them), [read_until_command] drops everything it has
    buffered and carries on with the rest of the chunk as if a new chunk
    started there. *)
Theorem partial_chunk_dropped payload msid n p segs out :
  is_u32 msid → 1 ≤ chunk_size p → zlen payload ≤ chunk_size p → zlen payload ≤ 0xFFFFFF →
  received_bytes (stream_of 3 p) = 0 →
  let wire := basic_serialize (mkBasic Type0 3)
              ++ header_serialize (message_header Command msid 0 payload) Type0 ++ payload in
  (0 < n < length wire)%nat → (n ≤ 4096)%nat →
  ∃ p', ∀ fuel,
    read_loop (S fuel) p [] (mkSock (take n wire :: segs) out)
    = read_loop fuel p' [] (mkSock segs out).
Proof.
  intros Hms Hcs Hfit Hlen Hr wire Hn H4096.
  set (h := message_header Command msid 0 payload) in *.
  pose proof (zlen_type0_header Command msid 0 payload ltac:(lia)) as Hh. fold h in Hh.
  assert (∃ e p', parse_chunk (p, take n wire) = (Err e, (p', []))) as (e & p' & E).
  { unfold wire in *. clear wire. change (basic_serialize (mkBasic Type0 3)) with [3] in *.
    rewrite length_app in Hn. change (length [3]) with 1%nat in Hn.
    destruct n as [|n]; [lia|]. change (take (S n) ([3] ++ ?x)) with ([3] ++ take n x).
    rewrite length_app in Hn. assert (length (header_serialize h Type0) = 11%nat) as Hh'
      by (unfold zlen in Hh; lia).
    destruct (decide (n < 11)%nat).
    - apply (parse_chunk_short_header p 3); [lia|]. unfold zlen. rewrite length_take. lia.
    - rewrite take_app_ge by lia.
      apply (parse_chunk_short_data p 3 h); [lia|by apply message_header_ok|done|].
      cbn [message_length h message_header]. unfold zlen in *. rewrite length_take. lia. }
  exists p'. intros fuel. cbn [read_loop].
  assert (zlen (take n wire) = Z.of_nat n) as Hl by (unfold zlen; rewrite length_take; lia).
  st_next (cbn [sock_read inbox]; by rewrite (proj2 (Z.leb_le _ _)) by lia).
  rewrite (proj2 (Z.eqb_neq _ _)) by lia. rewrite app_nil_l. cbv zeta.
  st_next (cbn [parse_buffer]; by rewrite E). done.
Qed.

Lemma partial_chunk_dropped_witness :
  ∃ p', ∀ fuel,
    read_loop (S fuel) parser_new []
      (mkSock [take 20 (reply_wire (encode_values (sample_reply 1))); [1; 2; 3]] [])
    = read_loop fuel p' [] (mkSock [[1; 2; 3]] []).
Proof.
  apply (partial_chunk_dropped (encode_values (sample_reply 1)) 0 20 parser_new [[1; 2; 3]] []);
    try (vm_compute; done); try (vm_compute; discriminate); unfold is_u32; vm_compute; lia.
Defined.

(** ** Media payloads *)

(** The AVCC form: each NAL unit behind its 32-bit length. *)
Definition avcc (nals : list bytes) : bytes := flat_map (λ n, to_be 4 (zlen n) ++ n) nals.

Lemma extract_loop_avcc nals pre acc fuel :
  Forall (λ n, zlen n < 2 ^ 32) nals → (length (avcc nals) < fuel)%nat →
  extract_loop fuel (pre ++ avcc nals) (zlen pre) acc = Ok (acc ++ nals).
Proof.
  revert pre acc fuel. induction nals as [|n nals IH]; intros pre acc fuel Hn Hf;
    (destruct fuel as [|fuel]; [lia|]); cbn [extract_loop].
  - rewrite zlen_app. change (zlen (avcc [])) with 0.
    by rewrite (proj2 (Z.leb_gt _ _)), app_nil_r by lia.
  - apply Forall_cons in Hn as [Hn Hns].
    change (avcc (n :: nals)) with ((to_be 4 (zlen n) ++ n) ++ avcc nals) in *.
    rewrite <-app_assoc in *. set (all := pre ++ _).
    assert (zlen all = zlen pre + 4 + zlen n + zlen (avcc nals)) as Hl
      by (unfold all; rewrite !zlen_app, zlen_to_be; lia).
    pose proof (zlen_nonneg (avcc nals)). pose proof (zlen_nonneg n).
    rewrite (proj2 (Z.leb_le _ _)) by lia.
    assert (be_at 4 all (zlen pre) = Ok (zlen n)) as ->
      by (apply (be_at_to_be 4 (zlen n) pre); [lia|done]).
    cbn [mbind Res_bind]. rewrite (proj2 (Z.ltb_ge _ _)) by lia.
    assert (slice all (zlen pre + 4) (zlen pre + 4 + zlen n) = Ok n) as ->.
    { unfold all. rewrite app_assoc. apply slice_app_mid; rewrite zlen_app, zlen_to_be; lia. }
    cbn [mbind Res_bind]. unfold all. rewrite !app_assoc.
    replace (zlen pre + (4 + zlen n)) with (zlen ((pre ++ to_be 4 (zlen n)) ++ n))
      by (rewrite !zlen_app, zlen_to_be; lia).
    rewrite IH; [by rewrite <-app_assoc|done|].
    rewrite !length_app, length_to_be in Hf. lia.
Qed.

(** Video frames: [extract_h264_nal_units] inverts [build_video_nalus] on any
    list of NAL units in AVCC form, for any composition offset. *)
Theorem extract_build_nalus nals is_keyframe offset :
  Forall (λ n, zlen n < 2 ^ 32) nals →
  extract_h264_nal_units (build_video_nalus (avcc nals) is_keyframe offset) = Ok nals.
Proof.
  intros Hn. unfold build_video_nalus.
  set (o := drop 1 (to_be 4 _)). assert (zlen o = 3) as Ho by done.
  set (b := Z.lor _ 7). unfold extract_h264_nal_units.
  set (data := [b] ++ _). assert (zlen data = 8 + zlen (avcc nals)) as Hl
    by (unfold data; rewrite !zlen_app, Ho, !zlen_cons, !zlen_nil; lia).
  pose proof (zlen_nonneg (avcc nals)).
  rewrite (proj2 (Z.ltb_ge _ _)) by lia.
  change (at_ data 0) with (Ok b). cbn [mbind Res_bind].
  assert (Z.land b 15 = 7) as -> by (unfold b; by destruct is_keyframe).
  cbn [Z.eqb Pos.eqb negb].
  change (at_ data 4) with (Ok 1). cbn [mbind Res_bind].
  assert (slice_from data 5 = Ok (o ++ avcc nals)) as ->
    by (unfold data; by apply (slice_from_app' [b; 0; 0; 0; 1])).
  cbn [mbind Res_bind Z.eqb Pos.eqb].
  assert (slice_from data 8 = Ok (avcc nals)) as ->.
  { unfold data. rewrite !app_assoc. apply slice_from_app'.
    by rewrite !zlen_app, Ho. }
  cbn [mbind Res_bind].
  pose proof (extract_loop_avcc nals [] [] (S (length (avcc nals))) Hn) as E.
  rewrite app_nil_l in E. apply E. lia.
Qed.

Lemma extract_build_nalus_witness :
  extract_h264_nal_units (build_video_nalus (avcc [[0x65; 1; 2]; []; [0x41]]) true (-40))
  = Ok [[0x65; 1; 2]; []; [0x41]].
Proof. apply extract_build_nalus. repeat constructor; done. Defined.

(** Sequence headers: the parameter sets come back from the configuration
    record, which however carries [sps[2]] (the constraint flags) as its level
    and [sps[3]] (the level) as its profile compatibility. *)
Theorem extract_build_sequence_header sps pps b0 profile compat level tl :
  sps = b0 :: profile :: compat :: level :: tl →
  zlen sps < 2 ^ 16 → zlen pps < 2 ^ 16 →
  let data := build_video_sequence_header sps pps in
  extract_h264_nal_units data = Ok [sps; pps] ∧
  at_ data 6 = Ok profile ∧ at_ data 7 = Ok level ∧ at_ data 8 = Ok compat.
Proof.
  intros Hsps Hs Hp data. assert (4 ≤ zlen sps) as H4
    by (rewrite Hsps, !zlen_cons; zlen_facts; lia).
  pose proof (zlen_nonneg pps).
  unfold data, build_video_sequence_header.
  rewrite !(proj2 (Z.leb_le _ _)) by lia.
  replace (nth_or sps 1 0) with profile by by rewrite Hsps.
  replace (nth_or sps 2 0) with compat by by rewrite Hsps.
  replace (nth_or sps 3 0) with level by by rewrite Hsps.
  split; [|done]. unfold wrap16. rewrite !Z.mod_small by lia.
  clear data. set (tail := to_be 2 (zlen sps) ++ _).
  set (data := [0x17] ++ _). set (payload := [1; profile; level; compat; 255; 225] ++ tail).
  assert (zlen payload = 11 + zlen sps + zlen pps) as Hpl
    by (unfold payload, tail; rewrite !zlen_app, !zlen_to_be, !zlen_cons, !zlen_nil; lia).
  assert (zlen data = 5 + zlen payload) as Hl
    by (unfold data; change ([0x17] ++ _) with ([0x17; 0; 0; 0; 0] ++ payload);
        by rewrite zlen_app).
  unfold extract_h264_nal_units. rewrite (proj2 (Z.ltb_ge _ _)) by lia.
  change (at_ data 0) with (Ok 0x17). cbn [mbind Res_bind].
  change (negb _) with false. cbv iota.
  change (at_ data 4) with (Ok 0). cbn [mbind Res_bind].
  assert (slice_from data 5 = Ok payload) as ->
    by by apply (slice_from_app' [0x17; 0; 0; 0; 0]).
  cbn [mbind Res_bind Z.eqb]. rewrite (proj2 (Z.ltb_ge _ _)) by lia.
  assert (be_at 2 payload 6 = Ok (zlen sps)) as ->
    by (apply (be_at_to_be 2 (zlen sps) [1; profile; level; compat; 255; 225]); [lia|done]).
  cbn [mbind Res_bind].
  assert (slice payload 8 (8 + zlen sps) = Ok sps) as ->.
  { unfold payload, tail. rewrite app_assoc. by apply slice_app_mid; rewrite zlen_app. }
  cbn [mbind Res_bind].
  set (pre := [1; profile; level; compat; 255; 225] ++ to_be 2 (zlen sps) ++ sps ++ [1]).
  assert (zlen pre = 8 + zlen sps + 1) as Hpre
    by (unfold pre; rewrite !zlen_app, zlen_to_be, !zlen_cons, !zlen_nil; lia).
  assert (payload = pre ++ to_be 2 (zlen pps) ++ pps) as ->
    by (unfold payload, tail, pre; by rewrite <-!app_assoc).
  rewrite <-Hpre.
  rewrite (be_at_to_be 2 (zlen pps) pre pps) by (done || lia). cbn [mbind Res_bind].
  rewrite app_assoc.
  assert (zlen (pre ++ to_be 2 (zlen pps)) = zlen pre + 2) as Hpre2
    by (by rewrite zlen_app, zlen_to_be).
  rewrite <-Hpre2. assert (∀ A, slice (A ++ pps) (zlen A) (zlen A + zlen pps) = Ok pps) as ->;
    [|done]. intros A. rewrite <-(app_nil_r pps) at 1. by apply slice_app_mid.
Qed.

Lemma extract_build_sequence_header_witness :
  let data := build_video_sequence_header [0x67; 0x42; 0xC0; 0x1E; 9] [0x68; 1] in
  extract_h264_nal_units data = Ok [[0x67; 0x42; 0xC0; 0x1E; 9]; [0x68; 1]] ∧
  at_ data 6 = Ok 0x42 ∧ at_ data 7 = Ok 0x1E ∧ at_ data 8 = Ok 0xC0.
Proof. by eapply extract_build_sequence_header. Defined.
