(* ===== verification/Rtp.v ===== *)
(** * RTP packets and the H.264 payload format ([crates/protocols/src/rtp.rs])

    [RtpPacket] parsing and serialization (RFC 3550), FU-A fragmentation and
    reassembly, and STAP-A aggregation (RFC 6184). *)
From Stdlib Require Import ZArith Lia List Bool String.
From stdpp Require Import base option list numbers gmap.
From S2P Require Import Prelude.

Definition RTP_HEADER_SIZE : Z := 12.
Definition RTP_VERSION : Z := 2.
Definition H264_PAYLOAD_TYPE : Z := 96.
Definition RTP_MTU : Z := 1400.

Record RtpHeaderFlags := mkFlags {
  version : Z;
  padding : bool;
  extension : bool;
  csrc_count : Z;
  marker : bool;
  payload_type : Z;
}.

Definition flags_default : RtpHeaderFlags :=
  mkFlags RTP_VERSION false false 0 false H264_PAYLOAD_TYPE.

Record RtpPacket := mkPacket {
  flags : RtpHeaderFlags;
  sequence_number : Z;
  timestamp : Z;
  ssrc : Z;
  csrc_list : list Z;
  extension_profile : option Z;
  extension_data : bytes;
  payload : bytes;
}.

(** [((b >> n) & 0x01) != 0] *)
Definition bit_at (b n : Z) : bool := negb (Z.land (Z.shiftr b n) 1 =? 0).

(** The CSRC loop: [n] entries from [offset]. *)
Fixpoint parse_csrcs (n : nat) (data : bytes) (offset : Z) (acc : list Z)
    : Res (list Z * Z) :=
  match n with
  | O => Ok (acc, offset)
  | S n =>
      if zlen data <? offset + 4 then Err "RTP packet truncated: missing CSRC entry"
      else
      csrc ← be_at 4 data offset;
      parse_csrcs n data (offset + 4) (acc ++ [csrc])
  end.

Definition parse_extension (extension : bool) (data : bytes) (offset : Z)
    : Res (option Z * bytes * Z) :=
  if extension then
    if zlen data <? offset + 4 then Err "RTP packet truncated: missing extension header"
    else
    profile ← be_at 2 data offset;
    ext_len_words ← be_at 2 data (offset + 2);
    let offset := offset + 4 in
    let ext_data_end_byte := offset + ext_len_words * 4 in
    if zlen data <? ext_data_end_byte then
      Err "RTP packet truncated: extension data extends past the packet"
    else
    ext_data ← slice data offset ext_data_end_byte;
    Ok (Some profile, ext_data, ext_data_end_byte)
  else Ok (None, [], offset).

Definition strip_padding (padding : bool) (raw_payload : bytes) : Res bytes :=
  if padding then
    if zlen raw_payload =? 0 then Err "RTP padding flag is set but no payload present"
    else
    let pad_len := default 0 (list.last raw_payload) in
    if (pad_len =? 0) || (zlen raw_payload <? pad_len) then Err "Invalid RTP padding length"
    else slice raw_payload 0 (zlen raw_payload - pad_len)
  else Ok raw_payload.

Definition parse (data : bytes) : Res RtpPacket :=
  if zlen data <? RTP_HEADER_SIZE then Err "RTP packet too short"
  else
  first_byte ← at_ data 0;
  second_byte ← at_ data 1;
  let version := Z.land (Z.shiftr first_byte 6) 0x03 in
  if negb (version =? RTP_VERSION) then Err "Unsupported RTP version"
  else
  let padding := bit_at first_byte 5 in
  let extension := bit_at first_byte 4 in
  let csrc_count := Z.land first_byte 0x0F in
  let marker := bit_at second_byte 7 in
  let payload_type := Z.land second_byte 0x7F in
  sequence_number ← be_at 2 data 2;
  timestamp ← be_at 4 data 4;
  ssrc ← be_at 4 data 8;
  '(csrc_list, offset) ← parse_csrcs (Z.to_nat csrc_count) data RTP_HEADER_SIZE [];
  '(extension_profile, extension_data, offset) ← parse_extension extension data offset;
  raw_payload ← slice_from data offset;
  payload ← strip_padding padding raw_payload;
  Ok (mkPacket (mkFlags version padding extension csrc_count marker payload_type)
        sequence_number timestamp ssrc csrc_list extension_profile extension_data payload).

(** [(raw_len + 3) & !3] *)
Definition padded_len (raw_len : Z) : Z := Z.land (raw_len + 3) (Z.lnot 3).

Definition to_bytes (p : RtpPacket) : bytes :=
  let f := flags p in
  let first_byte :=
    Z.lor (Z.lor (Z.lor (wrap8 (Z.shiftl (version f) 6))
                        (Z.shiftl (Z_of_bool (padding f)) 5))
                 (Z.shiftl (Z_of_bool (extension f)) 4))
          (Z.land (csrc_count f) 0x0F) in
  let second_byte :=
    Z.lor (Z.shiftl (Z_of_bool (marker f)) 7) (Z.land (payload_type f) 0x7F) in
  let ext_data_len := if extension f then padded_len (zlen (extension_data p)) else 0 in
  [first_byte; second_byte]
  ++ to_be 2 (sequence_number p) ++ to_be 4 (timestamp p) ++ to_be 4 (ssrc p)
  ++ flat_map (to_be 4) (csrc_list p)
  ++ (if extension f then
        to_be 2 (default 0 (extension_profile p))
        ++ to_be 2 (wrap16 (ext_data_len / 4))
        ++ extension_data p
        ++ replicate (Z.to_nat (ext_data_len - zlen (extension_data p))) 0
      else [])
  ++ payload p.

(** ** H.264 payload types *)
Inductive RtpNalType := Single (ty : Z) | StapA | FuA.

Definition RtpNalType_try_from (value : Z) : Res RtpNalType :=
  if (1 <=? value) && (value <=? 23) then Ok (Single value)
  else if value =? 24 then Ok StapA
  else if value =? 28 then Ok FuA
  else Err "Unsupported RTP H.264 NAL type".

Record FuAIndicator := mkIndicator { forbidden_zero_bit : Z; nal_ref_idc : Z }.
Record FuAHeader := mkFuHeader { fu_start : bool; fu_end : bool; reserved : Z; nal_unit_type : Z }.

Definition parse_fua_indicator (byte : Z) : FuAIndicator :=
  mkIndicator (Z.land (Z.shiftr byte 7) 0x01) (Z.land (Z.shiftr byte 5) 0x03).

Definition parse_fua_header (byte : Z) : FuAHeader :=
  mkFuHeader (bit_at byte 7) (bit_at byte 6) (Z.land (Z.shiftr byte 5) 0x01)
    (Z.land byte 0x1F).

Definition build_fua_indicator (nal_ref_idc : Z) : Z :=
  Z.lor (Z.shiftl (Z.land nal_ref_idc 0x03) 5) 28.

Definition build_fua_header (start e : bool) (nal_unit_type : Z) : Z :=
  Z.lor (Z.lor (Z.shiftl (Z_of_bool start) 7) (Z.shiftl (Z_of_bool e) 6))
    (Z.land nal_unit_type 0x1F).

Definition get_rtp_nal_type (payload : bytes) : Res RtpNalType :=
  if zlen payload =? 0 then Err "Empty RTP payload"
  else
  b ← at_ payload 0;
  RtpNalType_try_from (Z.land b 0x1F).

Definition first_type (payload : bytes) (ok : Z → bool) : bool :=
  match payload with b :: _ => ok (Z.land b 0x1F) | [] => false end.
Definition is_single_nal (payload : bytes) : bool :=
  first_type payload (λ t, (1 <=? t) && (t <=? 23)).
Definition is_stapa (payload : bytes) : bool := first_type payload (λ t, t =? 24).
Definition is_fua (payload : bytes) : bool := first_type payload (λ t, t =? 28).

(** ** FU-A *)
Definition div_ceil (a b : Z) : Z := (a + b - 1) / b.

(** The fragment loop, [k] packets before the end; [i] counts from 0. *)
Section fragment_loop.
Context (nal_data : bytes) (fu_indicator nal_ty pt ts src max_payload num_packets : Z).

Fixpoint fragment_loop (k : nat) (i offset seq : Z) : Res (list RtpPacket) :=
  match k with
  | O => Ok []
  | S k =>
      let is_first := i =? 0 in
      let is_last := i =? num_packets - 1 in
      let chunk_end := Z.min (offset + max_payload) (zlen nal_data) in
      chunk ← slice nal_data offset chunk_end;
      let fu_header := build_fua_header is_first is_last nal_ty in
      let packet := mkPacket (mkFlags RTP_VERSION false false 0 is_last pt) seq ts src
                      [] None [] ([fu_indicator; fu_header] ++ chunk) in
      packets ← fragment_loop k (i + 1) chunk_end (wrap16 (seq + 1));
      Ok (packet :: packets)
  end.
End fragment_loop.

Definition fragment_nal (nal_data : bytes) (nri nal_ty pt seq ts src mtu : Z)
    : Res (list RtpPacket) :=
  if zlen nal_data =? 0 then Err "Cannot fragment empty NAL data"
  else if mtu <=? RTP_HEADER_SIZE + 2 then Err "MTU too small for FU-A"
  else
  let fu_indicator := build_fua_indicator nri in
  let max_payload := mtu - RTP_HEADER_SIZE - 2 in
  if max_payload =? 0 then Err "MTU too small"
  else
  let num_packets := div_ceil (zlen nal_data) max_payload in
  fragment_loop nal_data fu_indicator nal_ty pt ts src max_payload num_packets
    (Z.to_nat num_packets) 0 0 seq.

(** The consistency loop of [reassemble_fua] over packets [i..n-1]. *)
Fixpoint check_fragments (indicator : FuAIndicator) (header : FuAHeader) (n i : Z)
    (packets : list RtpPacket) : Res unit :=
  match packets with
  | [] => Ok tt
  | packet :: packets =>
      let pld := payload packet in
      if zlen pld <? 2 then Err "FU-A fragment payload too short"
      else
      b0 ← at_ pld 0;
      b1 ← at_ pld 1;
      let fi := parse_fua_indicator b0 in
      let fh := parse_fua_header b1 in
      if negb (nal_ref_idc fi =? nal_ref_idc indicator) then
        Err "FU-A fragment nal_ref_idc mismatch"
      else if negb (nal_unit_type fh =? nal_unit_type header) then
        Err "FU-A fragment nal_unit_type mismatch"
      else if (i =? 0) && negb (fu_start fh) then Err "FU-A fragment 0 must have start=1"
      else if (i =? n - 1) && negb (fu_end fh) then Err "FU-A fragment must have end=1"
      else if (0 <? i) && (i <? n - 1) && (fu_start fh || fu_end fh) then
        Err "FU-A fragment: middle fragment has start or end"
      else check_fragments indicator header n (i + 1) packets
  end.

Fixpoint collect_fragments (packets : list RtpPacket) : Res bytes :=
  match packets with
  | [] => Ok []
  | packet :: packets =>
      part ← slice_from (payload packet) 2;
      rest ← collect_fragments packets;
      Ok (part ++ rest)
  end.

Definition reassemble_fua (packets : list RtpPacket) : Res bytes :=
  match packets with
  | [] => Err "No FU-A packets to reassemble"
  | first :: _ =>
      let first_payload := payload first in
      if zlen first_payload <? 2 then Err "FU-A packet 0 payload too short"
      else
      b0 ← at_ first_payload 0;
      b1 ← at_ first_payload 1;
      let indicator := parse_fua_indicator b0 in
      let header := parse_fua_header b1 in
      if negb (forbidden_zero_bit indicator =? 0) then
        Err "FU-A forbidden zero bit is set in fragment 0"
      else if negb (fu_start header) then
        Err "First FU-A fragment must have the start flag set"
      else
      let nal_header_byte :=
        Z.lor (Z.lor (wrap8 (Z.shiftl (forbidden_zero_bit indicator) 7))
                     (wrap8 (Z.shiftl (nal_ref_idc indicator) 5)))
              (nal_unit_type header) in
      _ ← check_fragments indicator header (zlen packets) 0 packets;
      nal_unit ← collect_fragments packets;
      Ok (nal_header_byte :: nal_unit)
  end.

(** ** STAP-A *)
Fixpoint stapa_loop (fuel : nat) (payload : bytes) (offset : Z) (nals : list bytes)
    : Res (list bytes) :=
  match fuel with
  | O => OutOfFuel
  | S fuel =>
      if offset <? zlen payload then
        if zlen payload <? offset + 2 then Err "STAP-A truncated: missing 16-bit NAL size"
        else
        nal_size ← be_at 2 payload offset;
        let offset := offset + 2 in
        if nal_size =? 0 then Err "STAP-A: zero-length NAL unit"
        else if zlen payload <? offset + nal_size then Err "STAP-A truncated"
        else
        nal ← slice payload offset (offset + nal_size);
        stapa_loop fuel payload (offset + nal_size) (nals ++ [nal])
      else Ok nals
  end.

Definition parse_stapa (payload : bytes) : Res (list bytes) :=
  if zlen payload =? 0 then Err "Empty STAP-A payload"
  else
  b ← at_ payload 0;
  if negb (Z.land b 0x1F =? 24) then Err "Not a STAP-A payload"
  else stapa_loop (S (length payload)) payload 1 [].

Definition nri_of (b : Z) : Z := Z.land (Z.shiftr b 5) 0x03.

Fixpoint check_nris (nri : Z) (nalus : list bytes) : Res unit :=
  match nalus with
  | [] => Ok tt
  | [] :: _ => Err "STAP-A: NAL unit is empty"
  | (first :: _) :: nalus =>
      if negb (nri_of first =? nri) then Err "STAP-A: NAL unit has another nal_ref_idc"
      else check_nris nri nalus
  end.

Definition build_stapa (nalus : list bytes) : Res bytes :=
  match nalus with
  | [] => Err "Cannot build STAP-A from empty NAL list"
  | [] :: _ => Err "Empty NAL unit 0 in STAP-A"
  | (b :: _) :: _ =>
      let nri := nri_of b in
      _ ← check_nris nri nalus;
      Ok (Z.lor (wrap8 (Z.shiftl nri 5)) 24
          :: flat_map (λ nal, to_be 2 (wrap16 (zlen nal)) ++ nal) nalus)
  end.

(** ** Header bits *)
Definition header_byte0 (pad ext : bool) (cc : Z) : Z :=
  Z.lor (Z.lor (Z.lor 128 (Z.shiftl (Z_of_bool pad) 5)) (Z.shiftl (Z_of_bool ext) 4)) cc.
Definition header_byte1 (m : bool) (pt : Z) : Z := Z.lor (Z.shiftl (Z_of_bool m) 7) pt.

Lemma header_byte0_fields pad ext cc :
  0 ≤ cc < 16 →
  let b := header_byte0 pad ext cc in
  Z.land (Z.shiftr b 6) 3 = 2 ∧ bit_at b 5 = pad ∧ bit_at b 4 = ext ∧ Z.land b 15 = cc ∧
  Z.land cc 15 = cc.
Proof. intros Hcc. cbv zeta. destruct pad, ext; split_and!; by_enum cc 0 16. Qed.

Lemma header_byte1_fields m pt :
  0 ≤ pt < 128 →
  let b := header_byte1 m pt in
  bit_at b 7 = m ∧ Z.land b 127 = pt ∧ Z.land pt 127 = pt.
Proof. intros Hpt. cbv zeta. destruct m; split_and!; by_enum pt 0 128. Qed.

Lemma header_byte0_rebuild b :
  is_byte b → Z.land (Z.shiftr b 6) 3 = 2 →
  header_byte0 (bit_at b 5) (bit_at b 4) (Z.land b 15) = b.
Proof.
  unfold is_byte. intros Hb Hv.
  assert (negb (Z.land (Z.shiftr b 6) 3 =? 2)
          || (header_byte0 (bit_at b 5) (bit_at b 4) (Z.land b 15) =? b) = true) as H
    by (clear Hv; by_enum b 0 256).
  rewrite Hv in H. by apply Z.eqb_eq in H.
Qed.

Lemma header_byte1_rebuild b :
  is_byte b → header_byte1 (bit_at b 7) (Z.land b 127) = b.
Proof. unfold is_byte. intros. by_enum b 0 256. Qed.

Lemma land15_range b : is_byte b → 0 ≤ Z.land b 15 < 16.
Proof.
  intros _. pose proof (Z.land_ones b 4 ltac:(lia)) as E. change (Z.ones 4) with 15 in E. rewrite E.
  apply Z.mod_pos_bound. lia.
Qed.

Lemma padded_len_spec n :
  padded_len n = (n + 3) / 4 * 4.
Proof.
  unfold padded_len. rewrite <-Z.ldiff_land.
  pose proof (Z.ldiff_ones_r (n + 3) 2 ltac:(lia)) as E.
  rewrite Z.shiftl_mul_pow2, Z.shiftr_div_pow2 in E by lia. exact E.
Qed.

(** ** Parsing what was serialized *)

(** The values [to_bytes] is meant for. *)
Record packet_ok (p : RtpPacket) : Prop := {
  pk_version : version (flags p) = RTP_VERSION;
  pk_count : csrc_count (flags p) = zlen (csrc_list p) ∧ zlen (csrc_list p) < 16;
  pk_type : 0 ≤ payload_type (flags p) < 128;
  pk_seq : is_u16 (sequence_number p);
  pk_ts : is_u32 (timestamp p);
  pk_ssrc : is_u32 (ssrc p);
  pk_csrc : Forall is_u32 (csrc_list p);
  pk_ext : if extension (flags p)
           then (∃ pr, extension_profile p = Some pr ∧ is_u16 pr) ∧
                zlen (extension_data p) ≤ 4 * 65535
           else extension_profile p = None ∧ extension_data p = [];
}.

Definition padding_zeros (n : Z) : bytes := replicate (Z.to_nat (padded_len n - n)) 0.

(** The packet with its extension data filled up to a 32-bit boundary and the
    given payload. *)
Definition canonical (p : RtpPacket) (pl : bytes) : RtpPacket :=
  mkPacket (flags p) (sequence_number p) (timestamp p) (ssrc p) (csrc_list p)
    (extension_profile p)
    (extension_data p ++ padding_zeros (zlen (extension_data p))) pl.

Lemma zlen_padding_zeros n : 0 ≤ n → zlen (padding_zeros n) = padded_len n - n.
Proof.
  intros. unfold padding_zeros, zlen. rewrite length_replicate, padded_len_spec.
  pose proof (Z.div_mod (n + 3) 4). pose proof (Z.mod_pos_bound (n + 3) 4). lia.
Qed.

Lemma parse_csrcs_spec cs pre tl acc :
  Forall is_u32 cs →
  parse_csrcs (length cs) (pre ++ flat_map (to_be 4) cs ++ tl) (zlen pre) acc
  = Ok (acc ++ cs, zlen pre + 4 * zlen cs).
Proof.
  revert pre acc. induction cs as [|c cs IH]; intros pre acc Hcs; cbn [length parse_csrcs].
  - rewrite app_nil_r. do 2 f_equal. change (zlen []) with 0. lia.
  - apply Forall_cons in Hcs as [Hc Hcs]. cbn [flat_map]. rewrite <-app_assoc.
    set (rest := flat_map (to_be 4) cs ++ tl).
    rewrite (proj2 (Z.ltb_ge _ _)) by (rewrite !zlen_app, zlen_to_be; zlen_facts; lia).
    rewrite (be_at_to_be 4 c pre rest) by done. cbn [mbind Res_bind].
    rewrite app_assoc. replace (zlen pre + 4) with (zlen (pre ++ to_be 4 c))
      by (rewrite zlen_app, zlen_to_be; lia).
    unfold rest. rewrite IH by done. rewrite <-app_assoc, zlen_app, zlen_to_be, zlen_cons.
    do 2 f_equal. lia.
Qed.

Lemma parse_extension_spec pr ed pre tl :
  is_u16 pr → zlen ed ≤ 4 * 65535 →
  let words := wrap16 (padded_len (zlen ed) / 4) in
  let ext := to_be 2 pr ++ to_be 2 words ++ ed ++ padding_zeros (zlen ed) in
  parse_extension true (pre ++ ext ++ tl) (zlen pre)
  = Ok (Some pr, ed ++ padding_zeros (zlen ed), zlen pre + zlen ext).
Proof.
  intros Hpr Hl words ext. unfold parse_extension.
  pose proof (zlen_nonneg ed). pose proof (zlen_padding_zeros (zlen ed) H) as Hz.
  pose proof (padded_len_spec (zlen ed)) as Hpl.
  assert (words = (zlen ed + 3) / 4) as Hw.
  { unfold words. rewrite Hpl, Z.div_mul by lia. apply Z.mod_small. dm_lia. }
  set (data := pre ++ ext ++ tl).
  assert (zlen ext = 4 + padded_len (zlen ed)) as He
    by (unfold ext; rewrite !zlen_app, !zlen_to_be, Hz; lia).
  assert (zlen data = zlen pre + zlen ext + zlen tl) as Hd
    by (unfold data; rewrite !zlen_app; lia).
  zlen_facts. assert (0 ≤ padded_len (zlen ed)) by (rewrite Hpl; dm_lia).
  rewrite (proj2 (Z.ltb_ge _ _)) by lia.
  assert (be_at 2 data (zlen pre) = Ok pr) as ->.
  { unfold data, ext. rewrite <-!app_assoc. by apply be_at_to_be. }
  cbn [mbind Res_bind].
  assert (be_at 2 data (zlen pre + 2) = Ok words) as ->.
  { unfold data, ext. rewrite <-!app_assoc, (app_assoc pre). apply be_at_to_be.
    - rewrite Hw. change (256 ^ Z.of_nat 2) with 65536. dm_lia.
    - by rewrite zlen_app, zlen_to_be. }
  cbn [mbind Res_bind]. rewrite Hw.
  replace (zlen pre + 4 + (zlen ed + 3) / 4 * 4) with (zlen pre + zlen ext) by lia.
  rewrite (proj2 (Z.ltb_ge _ _)) by lia.
  assert (slice data (zlen pre + 4) (zlen pre + zlen ext) = Ok (ed ++ padding_zeros (zlen ed)))
    as ->.
  { unfold data. replace (pre ++ ext ++ tl) with ((pre ++ to_be 2 pr ++ to_be 2 words)
      ++ (ed ++ padding_zeros (zlen ed)) ++ tl) by (unfold ext; by rewrite <-!app_assoc).
    apply slice_app_mid; rewrite !zlen_app, !zlen_to_be; [lia|]. rewrite Hz. lia. }
  done.
Qed.

(** The fixed header: what [parse] reads from any packet that starts with it. *)
Definition fixed_header (f : RtpHeaderFlags) (seq ts src : Z) : bytes :=
  [header_byte0 (padding f) (extension f) (csrc_count f);
   header_byte1 (marker f) (payload_type f)]
  ++ to_be 2 seq ++ to_be 4 ts ++ to_be 4 src.

Lemma zlen_fixed_header f seq ts src : zlen (fixed_header f seq ts src) = 12.
Proof. unfold fixed_header. by rewrite !zlen_app, !zlen_to_be. Qed.

Section fixed_header.
Context (f : RtpHeaderFlags) (seq ts src : Z) (body : bytes).
Hypothesis Hv : version f = RTP_VERSION.
Hypothesis Hcc : 0 ≤ csrc_count f < 16.
Hypothesis Hpt : 0 ≤ payload_type f < 128.
Hypothesis Hseq : is_u16 seq.
Hypothesis Hts : is_u32 ts.
Hypothesis Hsrc : is_u32 src.

Lemma parse_fixed_header :
  parse (fixed_header f seq ts src ++ body)
  = ('(csrcs, offset) ← parse_csrcs (Z.to_nat (csrc_count f))
       (fixed_header f seq ts src ++ body) RTP_HEADER_SIZE [];
     '(profile, ext, offset) ← parse_extension (extension f)
       (fixed_header f seq ts src ++ body) offset;
     raw ← slice_from (fixed_header f seq ts src ++ body) offset;
     payload ← strip_padding (padding f) raw;
     Ok (mkPacket f seq ts src csrcs profile ext payload)).
Proof.
  set (data := fixed_header f seq ts src ++ body).
  unfold parse. pose proof (zlen_fixed_header f seq ts src).
  unfold RTP_HEADER_SIZE.
  rewrite (proj2 (Z.ltb_ge _ _)) by (unfold data; rewrite zlen_app; zlen_facts; lia).
  set (b0 := header_byte0 (padding f) (extension f) (csrc_count f)).
  set (b1 := header_byte1 (marker f) (payload_type f)).
  change (at_ data 0) with (Ok b0). change (at_ data 1) with (Ok b1). cbn [mbind Res_bind].
  destruct (header_byte0_fields (padding f) (extension f) (csrc_count f) Hcc)
    as (Ev & Ep & Ee & Ec & _). fold b0 in Ev, Ep, Ee, Ec.
  destruct (header_byte1_fields (marker f) (payload_type f) Hpt) as (Em & Et & _).
  fold b1 in Em, Et. rewrite Ev, Ep, Ee, Ec, Em, Et. cbn [Z.eqb Pos.eqb negb RTP_VERSION].
  assert (data = [b0; b1] ++ to_be 2 seq ++ to_be 4 ts ++ to_be 4 src ++ body) as Hd
    by (unfold data, fixed_header; by rewrite <-!app_assoc).
  assert (be_at 2 data 2 = Ok seq) as ->
    by (rewrite Hd; by apply be_at_to_be).
  assert (be_at 4 data 4 = Ok ts) as ->
    by (rewrite Hd, app_assoc; by apply be_at_to_be).
  assert (be_at 4 data 8 = Ok src) as ->.
  { rewrite Hd, app_assoc, (app_assoc _ (to_be 4 ts)). by apply be_at_to_be. }
  cbn [mbind Res_bind].
  replace (mkFlags 2 (padding f) (extension f) (csrc_count f) (marker f) (payload_type f))
    with f; [done|].
  destruct f as [v ? ? ? ? ?]. cbn in Hv. by rewrite Hv.
Qed.
End fixed_header.

Lemma to_bytes_layout p :
  packet_ok p →
  to_bytes p
  = fixed_header (flags p) (sequence_number p) (timestamp p) (ssrc p)
    ++ flat_map (to_be 4) (csrc_list p)
    ++ (if extension (flags p) then
          to_be 2 (default 0 (extension_profile p))
          ++ to_be 2 (wrap16 (padded_len (zlen (extension_data p)) / 4))
          ++ extension_data p ++ padding_zeros (zlen (extension_data p))
        else [])
    ++ payload p.
Proof.
  intros [Hv [Hc Hc16] Hpt _ _ _ _ _]. unfold to_bytes, fixed_header, header_byte0, header_byte1.
  pose proof (zlen_nonneg (csrc_list p)).
  destruct (header_byte0_fields false false (csrc_count (flags p))) as (_ & _ & _ & _ & ->);
    [lia|].
  destruct (header_byte1_fields false (payload_type (flags p))) as (_ & _ & ->); [lia|].
  rewrite Hv. change (wrap8 (Z.shiftl RTP_VERSION 6)) with 128.
  rewrite <-!app_assoc. by destruct (extension (flags p)).
Qed.

Lemma parse_layout p :
  packet_ok p →
  parse (to_bytes p)
  = (pl ← strip_padding (padding (flags p)) (payload p); Ok (canonical p pl)).
Proof.
  intros Hp. rewrite (to_bytes_layout p Hp). destruct Hp as [Hv [Hc Hc16] Hpt Hs Ht Hr Hcs He].
  pose proof (zlen_nonneg (csrc_list p)).
  set (hdr := fixed_header _ _ _ _). set (cs := flat_map (to_be 4) (csrc_list p)).
  set (ext := if extension (flags p) then _ else []).
  assert (zlen hdr = 12) as Hh by apply zlen_fixed_header.
  unfold hdr at 1. rewrite parse_fixed_header by (done || lia). fold hdr.
  replace (Z.to_nat (csrc_count (flags p))) with (length (csrc_list p))
    by (rewrite Hc; unfold zlen; lia).
  change RTP_HEADER_SIZE with 12. rewrite <-Hh. unfold cs.
  rewrite parse_csrcs_spec by done. cbn [mbind Res_bind app].
  assert (zlen hdr + 4 * zlen (csrc_list p) = zlen (hdr ++ cs)) as Hoff.
  { rewrite zlen_app. unfold cs. clear. f_equal. induction (csrc_list p) as [|c l IH]; [done|].
    cbn [flat_map]. rewrite zlen_cons, zlen_app, zlen_to_be. lia. }
  rewrite Hoff. fold cs. rewrite app_assoc.
  assert (parse_extension (extension (flags p)) ((hdr ++ cs) ++ ext ++ payload p) (zlen (hdr ++ cs))
    = Ok (extension_profile p, extension_data p ++ padding_zeros (zlen (extension_data p)),
          zlen (hdr ++ cs) + zlen ext)) as ->.
  { unfold ext. destruct (extension (flags p)).
    - destruct He as [(pr & Hpr & Hpr16) Hl]. rewrite Hpr.
      cbn [default]. by apply parse_extension_spec.
    - destruct He as [-> ->]. cbn [parse_extension].
      change (zlen []) with 0. by rewrite Z.add_0_r. }
  cbn [mbind Res_bind]. rewrite <-zlen_app, (app_assoc (hdr ++ cs)), slice_from_app.
  cbn [mbind Res_bind]. by destruct (strip_padding _ _).
Qed.

(** ** Serializing what was parsed *)
Lemma parse_csrcs_inv n pre rest acc :
  bytes_ok rest →
  post (λ '(l, off), ∃ cs rest', l = acc ++ cs ∧ length cs = n ∧ Forall is_u32 cs ∧
          rest = flat_map (to_be 4) cs ++ rest' ∧ bytes_ok rest' ∧
          off = zlen (pre ++ flat_map (to_be 4) cs))
    (parse_csrcs n (pre ++ rest) (zlen pre) acc).
Proof.
  revert pre rest acc. induction n as [|n IH]; intros pre rest acc Hr; cbn [parse_csrcs].
  - exists [], rest. rewrite !app_nil_r. split_and!; try done.
  - destruct (Z.ltb_spec (zlen (pre ++ rest)) (zlen pre + 4)) as [|Hl]; [done|].
    rewrite zlen_app in Hl.
    destruct (split_be 4 rest Hr) as (c & rest' & -> & Hc & Hr'); [lia|].
    rewrite (be_at_to_be 4 c pre rest') by done. cbn [mbind Res_bind].
    rewrite app_assoc. replace (zlen pre + 4) with (zlen (pre ++ to_be 4 c))
      by (by rewrite zlen_app, zlen_to_be).
    eapply post_mono; [|by apply IH]. intros [l off] (cs & r & -> & <- & Hcs & -> & Hro & ->).
    exists (c :: cs), r. cbn [flat_map length]. rewrite <-!app_assoc. split_and!; try done.
    by constructor.
Qed.

Lemma parse_extension_inv ext pre rest :
  bytes_ok rest →
  post (λ '(profile, ed, off), ∃ eb rest',
          rest = eb ++ rest' ∧ bytes_ok rest' ∧ off = zlen (pre ++ eb) ∧
          if (ext : bool) then ∃ pr words, profile = Some pr ∧ is_u16 pr ∧ is_u16 words ∧
            zlen ed = 4 * words ∧ eb = to_be 2 pr ++ to_be 2 words ++ ed
          else profile = None ∧ ed = [] ∧ eb = [])
    (parse_extension ext (pre ++ rest) (zlen pre)).
Proof.
  intros Hr. unfold parse_extension. destruct ext.
  2: { exists [], rest. by rewrite app_nil_r. }
  destruct (Z.ltb_spec (zlen (pre ++ rest)) (zlen pre + 4)) as [|Hl]; [done|].
  rewrite zlen_app in Hl.
  destruct (split_be 2 rest Hr) as (pr & r1 & -> & Hpr & Hr1); [lia|].
  rewrite zlen_app, zlen_to_be in Hl.
  destruct (split_be 2 r1 Hr1) as (words & r2 & -> & Hw & Hr2); [lia|].
  set (data := pre ++ _).
  assert (be_at 2 data (zlen pre) = Ok pr) as -> by by apply be_at_to_be.
  assert (be_at 2 data (zlen pre + 2) = Ok words) as ->.
  { unfold data. rewrite app_assoc. apply be_at_to_be; [done|]. by rewrite zlen_app, zlen_to_be. }
  cbn [mbind Res_bind]. set (hdr := pre ++ to_be 2 pr ++ to_be 2 words).
  assert (zlen pre + 4 = zlen hdr) as -> by (unfold hdr; rewrite !zlen_app, !zlen_to_be; lia).
  assert (data = hdr ++ r2) as -> by (unfold data, hdr; by rewrite <-!app_assoc).
  destruct (Z.ltb_spec (zlen (hdr ++ r2)) (zlen hdr + words * 4)) as [|Hl2]; [done|].
  rewrite zlen_app in Hl2. set (k := Z.to_nat (words * 4)).
  assert (zlen (take k r2) = words * 4) as Hk by (apply zlen_take; lia).
  rewrite <-(take_drop k r2) at 1. rewrite (slice_app_mid hdr (take k r2)) by lia.
  cbn [mbind Res_bind post]. exists (to_be 2 pr ++ to_be 2 words ++ take k r2), (drop k r2).
  split_and!.
  - by rewrite <-!app_assoc, take_drop.
  - by apply Forall_drop.
  - unfold hdr. rewrite <-Hk, <-zlen_app. by rewrite <-!app_assoc.
  - exists pr, words. split_and!; try done. lia.
Qed.

Lemma padding_zeros_aligned words : 0 ≤ words → padding_zeros (4 * words) = [].
Proof.
  intros Hw. apply zlen_0. rewrite zlen_padding_zeros, padded_len_spec by lia. dm_lia.
Qed.

Lemma wrap16_words words : 0 ≤ words < 2 ^ 16 → wrap16 (padded_len (4 * words) / 4) = words.
Proof.
  intros Hw. rewrite padded_len_spec, Z.div_mul by lia. unfold wrap16.
  assert ((4 * words + 3) / 4 = words) as -> by dm_lia. by apply Z.mod_small.
Qed.

(** Padding bytes that [strip_padding] accepts. *)
Lemma strip_padding_inv pad raw :
  bytes_ok raw →
  post (λ pl, bytes_ok pl ∧
          if (pad : bool) then ∃ k, raw = pl ++ k ∧ k ≠ [] ∧ list.last k = Some (zlen k)
          else pl = raw)
    (strip_padding pad raw).
Proof.
  intros Hr. unfold strip_padding. destruct pad; [|done].
  destruct raw as [|b raw] using rev_ind; [done|]. clear IHraw.
  rewrite last_snoc. change (default 0 (Some b)) with b. rewrite zlen_app. change (zlen [b]) with 1.
  pose proof (zlen_nonneg raw). rewrite (proj2 (Z.eqb_neq _ _)) by lia.
  destruct (Z.eqb_spec b 0) as [|Hb]; [done|]. cbn [orb].
  destruct (Z.ltb_spec (zlen raw + 1) b) as [|Hl]; [done|].
  pose proof (proj2 (proj1 (bytes_ok_app _ _) Hr)) as Hbb. apply bytes_ok_cons in Hbb as [Hbb _].
  unfold is_byte in Hbb. set (all := raw ++ [b]) in *.
  assert (zlen all = zlen raw + 1) as Ha by (unfold all; by rewrite zlen_app).
  set (n := Z.to_nat (zlen raw + 1 - b)).
  assert (zlen (take n all) = zlen raw + 1 - b) as Hn by (apply zlen_take; lia).
  assert (zlen (drop n all) = b) as Hd.
  { unfold n. rewrite zlen_drop; lia. }
  rewrite <-Hn. rewrite <-(take_drop n all) at 1. rewrite slice_prefix.
  split; [by apply Forall_take|]. exists (drop n all). split_and!.
  - by rewrite take_drop.
  - intros E. rewrite E in Hd. rewrite zlen_nil in Hd. lia.
  - rewrite Hd. unfold all. rewrite drop_app_le by (unfold n, zlen in *; lia).
    apply last_snoc.
Qed.

(** What a parsed packet says about the bytes: they are the packet's own
    serialization, followed by the padding when the padding bit is set. *)
Definition padding_of (pad : bool) (k : bytes) : Prop :=
  if pad then k ≠ [] ∧ list.last k = Some (zlen k) else k = [].

Definition parsed_from (data : bytes) (p : RtpPacket) : Prop :=
  packet_ok p ∧ bytes_ok (payload p) ∧
  ∃ k, data = to_bytes p ++ k ∧ padding_of (padding (flags p)) k.

Lemma parse_body_inv f seq ts src body :
  version f = RTP_VERSION → 0 ≤ csrc_count f < 16 → 0 ≤ payload_type f < 128 →
  is_u16 seq → is_u32 ts → is_u32 src → bytes_ok body →
  post (parsed_from (fixed_header f seq ts src ++ body)) (parse (fixed_header f seq ts src ++ body)).
Proof.
  intros Hv Hcc Hpt Hseq Hts Hsrc Hb. rewrite parse_fixed_header by done.
  set (hdr := fixed_header f seq ts src).
  assert (zlen hdr = 12) as Hh by apply zlen_fixed_header.
  change RTP_HEADER_SIZE with 12. rewrite <-Hh.
  eapply post_bind; [by apply parse_csrcs_inv|].
  intros [l off] (cs & r1 & -> & Hn & Hcs & Hbody & Hr1 & ->). cbn [app].
  replace (hdr ++ body) with ((hdr ++ flat_map (to_be 4) cs) ++ r1)
    by (rewrite Hbody; by rewrite <-app_assoc).
  eapply post_bind; [by apply parse_extension_inv|].
  intros [[profile ed] off] (eb & r2 & Hr & Hr2 & -> & Hext).
  rewrite Hr, app_assoc, slice_from_app. cbn [mbind Res_bind].
  eapply post_bind; [by apply strip_padding_inv|].
  intros pl [Hpl Hpad]. cbn [post].
  set (p := mkPacket f seq ts src cs profile ed pl).
  assert (packet_ok p) as Hp.
  { split; cbn; try done.
    - unfold zlen. lia.
    - destruct (extension f).
      + destruct Hext as (pr & words & -> & Hpr & Hw & Hl & _). unfold is_u16 in *.
        split; [by eexists|lia].
      + by destruct Hext as (-> & -> & _). }
  split; [done|]. split; [done|].
  assert (to_bytes p = (hdr ++ flat_map (to_be 4) cs ++ eb) ++ pl) as Hto.
  { rewrite (to_bytes_layout p Hp). cbn. fold hdr. rewrite <-!app_assoc. do 2 f_equal.
    destruct (extension f).
    - destruct Hext as (pr & words & -> & Hpr & Hw & Hl & ->). unfold is_u16 in *.
      rewrite Hl, padding_zeros_aligned, app_nil_r, wrap16_words by lia.
      by rewrite <-!app_assoc.
    - by destruct Hext as (-> & -> & ->). }
  rewrite Hto. change (padding (flags p)) with (padding f). unfold padding_of.
  destruct (padding f).
  - destruct Hpad as (k & -> & Hk & Hlast). exists k. by rewrite <-!app_assoc.
  - exists []. by rewrite Hpad, app_nil_r, <-!app_assoc.
Qed.

Lemma parse_inv data : bytes_ok data → post (parsed_from data) (parse data).
Proof.
  intros Hd. destruct (Z.ltb_spec (zlen data) RTP_HEADER_SIZE) as [Hs|Hl].
  { unfold parse. by rewrite (proj2 (Z.ltb_lt _ _)) by done. }
  unfold RTP_HEADER_SIZE in Hl.
  destruct data as [|b0 [|b1 rest]]; [done|done|].
  apply bytes_ok_cons in Hd as [Hb0 Hd]. apply bytes_ok_cons in Hd as [Hb1 Hd].
  rewrite !zlen_cons in Hl.
  destruct (Z.eq_dec (Z.land (Z.shiftr b0 6) 3) 2) as [Hv|Hv].
  2: { unfold parse. rewrite (proj2 (Z.ltb_ge _ _)) by (rewrite !zlen_cons; unfold RTP_HEADER_SIZE; lia).
       change (at_ (b0 :: b1 :: rest) 0) with (Ok b0). change (at_ (b0 :: b1 :: rest) 1) with (Ok b1).
       cbn [mbind Res_bind]. by rewrite (proj2 (Z.eqb_neq _ _)). }
  destruct (split_be 2 rest Hd) as (seq & r1 & -> & Hseq & Hr1); [lia|].
  rewrite zlen_app, zlen_to_be in Hl.
  destruct (split_be 4 r1 Hr1) as (ts & r2 & -> & Hts & Hr2); [lia|].
  rewrite zlen_app, zlen_to_be in Hl.
  destruct (split_be 4 r2 Hr2) as (src & body & -> & Hsrc & Hbody); [lia|].
  set (f := mkFlags 2 (bit_at b0 5) (bit_at b0 4) (Z.land b0 15) (bit_at b1 7) (Z.land b1 127)).
  assert (b0 :: b1 :: to_be 2 seq ++ to_be 4 ts ++ to_be 4 src ++ body
          = fixed_header f seq ts src ++ body) as ->.
  { unfold fixed_header. rewrite <-!app_assoc. cbn [f padding extension csrc_count marker payload_type].
    by rewrite header_byte0_rebuild, header_byte1_rebuild. }
  apply parse_body_inv; try done; cbn [f csrc_count payload_type].
  - by apply land15_range.
  - clear -Hb1. unfold is_byte in Hb1.
    pose proof (Z.land_ones b1 7 ltac:(lia)) as E. change (Z.ones 7) with 127 in E. rewrite E.
    apply Z.mod_pos_bound. lia.
Qed.

(** ** FU-A fragments *)
Lemma build_parse_indicator nri :
  0 ≤ nri < 4 → parse_fua_indicator (build_fua_indicator nri) = mkIndicator 0 nri.
Proof.
  intros. unfold parse_fua_indicator. f_equal; by_enum nri 0 4.
Qed.

Lemma build_parse_header s e ty :
  0 ≤ ty < 32 → parse_fua_header (build_fua_header s e ty) = mkFuHeader s e 0 ty.
Proof. intros. unfold parse_fua_header. destruct s, e; f_equal; by_enum ty 0 32. Qed.

Section chunks.
Context (mp : Z).

(** A NAL unit cut in chunks of [mp] bytes. *)
Fixpoint chunks (k : nat) (todo : bytes) : list bytes :=
  match k with
  | O => []
  | S k => take (Z.to_nat mp) todo :: chunks k (drop (Z.to_nat mp) todo)
  end.

Lemma concat_chunks k todo :
  0 < mp → zlen todo ≤ Z.of_nat k * mp → concat (chunks k todo) = todo.
Proof.
  intros Hmp. revert todo. induction k as [|k IH]; intros todo Hle; cbn [chunks concat].
  - symmetry. apply zlen_0. pose proof (zlen_nonneg todo). lia.
  - rewrite IH; [apply take_drop|]. unfold zlen in *. rewrite length_drop. nia.
Qed.

Lemma length_chunks k todo : length (chunks k todo) = k.
Proof. revert todo. induction k; intros; cbn; [done|by f_equal]. Qed.

Lemma chunks_bound k todo : 0 < mp → Forall (λ c, zlen c ≤ mp) (chunks k todo).
Proof.
  intros Hmp. revert todo. induction k; intros; constructor; [|done].
  unfold zlen. rewrite length_take. lia.
Qed.

End chunks.

(** The packet that carries fragment [i] of [n]. *)
Section fragments.
Context (nri ty pt ts src mp n : Z).
Let ind := build_fua_indicator nri.

Definition fragment (i seq : Z) (chunk : bytes) : RtpPacket :=
  mkPacket (mkFlags RTP_VERSION false false 0 (i =? n - 1) pt) seq ts src [] None []
    ([ind; build_fua_header (i =? 0) (i =? n - 1) ty] ++ chunk).

Lemma fragment_loop_spec k sent todo i seq :
  0 < mp → zlen todo ≤ Z.of_nat k * mp → is_u16 seq →
  fragment_loop (sent ++ todo) ind ty pt ts src mp n k i (zlen sent) seq
  = Ok (imap (λ j c, fragment (i + Z.of_nat j) ((seq + Z.of_nat j) mod 2 ^ 16) c)
          (chunks mp k todo)).
Proof.
  intros Hmp. revert sent todo i seq.
  induction k as [|k IH]; intros sent todo i seq Hle Hseq; [done|].
  assert (0 ≤ zlen todo) by apply zlen_nonneg.
  cbn [fragment_loop chunks imap]. rewrite zlen_app.
  set (m := Z.to_nat mp).
  assert (zlen (take m todo) = Z.min mp (zlen todo)) as Ht
    by (unfold m, zlen; rewrite length_take; unfold zlen in *; lia).
  assert (Z.min (zlen sent + mp) (zlen sent + zlen todo) = zlen (sent ++ take m todo)) as Hmin
    by (rewrite zlen_app, Ht; lia).
  rewrite Hmin.
  assert (slice (sent ++ todo) (zlen sent) (zlen (sent ++ take m todo)) = Ok (take m todo)) as ->.
  { rewrite <-(take_drop m todo) at 1. apply slice_app_mid; [done|]. by rewrite zlen_app. }
  cbn [mbind Res_bind].
  replace (sent ++ todo) with ((sent ++ take m todo) ++ drop m todo)
    by by rewrite <-app_assoc, take_drop.
  assert (zlen (drop m todo) = Z.max 0 (zlen todo - mp)) as Hd
    by (unfold m, zlen; rewrite length_drop; unfold zlen in *; lia).
  rewrite IH; [|rewrite Hd; nia|apply Z.mod_pos_bound; lia].
  cbn [mbind Res_bind]. do 2 f_equal.
  - unfold fragment. rewrite !Z.add_0_r. by rewrite (Z.mod_small seq).
  - apply imap_ext. intros j c _. cbn. f_equal; [lia|].
    unfold wrap16. rewrite Zplus_mod_idemp_l. f_equal. lia.
Qed.

(** The consistency checks accept the fragments. *)
Lemma check_fragments_ok cs i (f : nat → Z) :
  0 ≤ nri < 4 → 0 ≤ ty < 32 → 0 ≤ i → i + zlen cs = n →
  check_fragments (mkIndicator 0 nri) (mkFuHeader true (n =? 1) 0 ty) n i
    (imap (λ j c, fragment (i + Z.of_nat j) (f j) c) cs) = Ok tt.
Proof.
  intros Hnri Hty. revert i f. induction cs as [|c cs IH]; intros i f Hi Hn; [done|].
  cbn [imap check_fragments]. rewrite Z.add_0_r. cbn [fragment payload].
  rewrite zlen_app, (proj2 (Z.ltb_ge _ _)) by (change (zlen [_; _]) with 2; zlen_facts; lia).
  change (at_ ([ind; ?h] ++ c) 0) with (Ok ind).
  change (at_ ([ind; ?h] ++ c) 1) with (Ok h). cbn [mbind Res_bind].
  unfold ind. rewrite build_parse_indicator, build_parse_header by done.
  cbn [nal_ref_idc nal_unit_type fu_start fu_end]. rewrite !Z.eqb_refl. cbn [negb].
  rewrite zlen_cons in Hn. pose proof (zlen_nonneg cs).
  destruct (Z.eqb_spec i 0); cbn [negb andb];
    (destruct (Z.eqb_spec i (n - 1)); cbn [negb andb]).
  all: try replace (0 <? i) with false by lia;
    try replace (i <? n - 1) with false by lia; cbn [andb]; rewrite ?andb_false_r; cbn [orb].
  all: rewrite <-(IH (i + 1) (λ j, f (S j))) by lia; f_equal; apply imap_ext;
    intros j x _; cbn; f_equal; lia.
Qed.

Lemma collect_fragments_ok cs i (f : nat → Z) :
  collect_fragments (imap (λ j c, fragment (i + Z.of_nat j) (f j) c) cs) = Ok (concat cs).
Proof.
  revert i f. induction cs as [|c cs IH]; intros i f; [done|].
  cbn [imap collect_fragments concat fragment payload].
  rewrite (slice_from_app' [_; _] c) by done. cbn [mbind Res_bind].
  erewrite imap_ext; [rewrite (IH (i + 1) (λ j, f (S j))); done|].
  intros j x _. cbn. f_equal. lia.
Qed.
End fragments.

Lemma div_ceil_spec a b :
  0 < a → 0 < b → 1 ≤ div_ceil a b ∧ a ≤ div_ceil a b * b ∧ (div_ceil a b - 1) * b < a.
Proof.
  intros Ha Hb. unfold div_ceil. pose proof (Z.div_mod (a + b - 1) b ltac:(lia)).
  pose proof (Z.mod_pos_bound (a + b - 1) b Hb). nia.
Qed.

Lemma fragment_nal_spec data nri ty pt seq ts src mtu :
  data ≠ [] → RTP_HEADER_SIZE + 2 < mtu → is_u16 seq →
  let mp := mtu - 14 in
  let n := div_ceil (zlen data) mp in
  fragment_nal data nri ty pt seq ts src mtu
  = Ok (imap (λ j c, fragment nri ty pt ts src n (Z.of_nat j) ((seq + Z.of_nat j) mod 2 ^ 16) c)
          (chunks mp (Z.to_nat n) data)).
Proof.
  intros Hd Hm Hs mp n. unfold fragment_nal, RTP_HEADER_SIZE in *.
  assert (0 < zlen data) by (destruct data; [done|rewrite zlen_cons; zlen_facts; lia]).
  rewrite (proj2 (Z.eqb_neq _ _)), (proj2 (Z.leb_gt _ _)), (proj2 (Z.eqb_neq _ _)) by lia.
  replace (mtu - 12 - 2) with mp by lia. fold n.
  destruct (div_ceil_spec (zlen data) mp) as (Hn & Hle & _); [lia..|]. fold n in Hn, Hle.
  pose proof (fragment_loop_spec nri ty pt ts src mp n (Z.to_nat n) [] data 0 seq) as E.
  rewrite app_nil_l in E. apply E; [lia|lia|done].
Qed.

Lemma header_byte_rebuild hdr :
  0 ≤ hdr < 128 →
  Z.lor (Z.lor (wrap8 (Z.shiftl 0 7)) (wrap8 (Z.shiftl (nri_of hdr) 5))) (Z.land hdr 31) = hdr ∧
  (0 ≤ nri_of hdr < 4) ∧ (0 ≤ Z.land hdr 31 < 32).
Proof.
  intros Hh. split_and!.
  - by_enum hdr 0 128.
  - apply Z.land_nonneg. right; lia.
  - unfold nri_of. pose proof (Z.land_ones (Z.shiftr hdr 5) 2 ltac:(lia)) as E.
    change (Z.ones 2) with 3 in E. rewrite E. apply Z.mod_pos_bound. lia.
  - apply Z.land_nonneg. right; lia.
  - pose proof (Z.land_ones hdr 5 ltac:(lia)) as E. change (Z.ones 5) with 31 in E.
    rewrite E. apply Z.mod_pos_bound. lia.
Qed.

Lemma check_fua_ok nri ty pt ts src n cs f :
  0 ≤ nri < 4 → 0 ≤ ty < 32 → zlen cs = n → cs ≠ [] →
  let ps := imap (λ j c, fragment nri ty pt ts src n (Z.of_nat j) (f j) c) cs in
  reassemble_fua ps
  = Ok (Z.lor (Z.lor (wrap8 (Z.shiftl 0 7)) (wrap8 (Z.shiftl nri 5))) ty :: concat cs).
Proof.
  intros Hnri Hty Hn Hcs ps.
  assert (check_fragments (mkIndicator 0 nri) (mkFuHeader true (n =? 1) 0 ty) n 0 ps = Ok tt)
    as Hc by (by apply (check_fragments_ok nri ty pt ts src n cs 0 f)).
  assert (collect_fragments ps = Ok (concat cs)) as Hl
    by (apply (collect_fragments_ok nri ty pt ts src n cs 0 f)).
  assert (zlen ps = n) as Hz by (unfold ps, zlen; rewrite length_imap; done).
  assert (∃ p ps' c, ps = p :: ps' ∧
    payload p = [build_fua_indicator nri; build_fua_header true (n =? 1) ty] ++ c)
    as (p & ps' & c & Ep & Hp).
  { destruct cs as [|c cs]; [done|]. eexists _, _, c. split; [reflexivity|].
    unfold fragment. cbn [payload]. change (Z.of_nat 0) with 0.
    change (0 =? 0) with true. replace (0 =? n - 1) with (n =? 1); [done|].
    apply eq_iff_eq_true. rewrite !Z.eqb_eq. lia. }
  clearbody ps. subst ps. unfold reassemble_fua.
  rewrite Hp, zlen_app, (proj2 (Z.ltb_ge _ _)) by (change (zlen [_; _]) with 2; zlen_facts; lia).
  change (at_ ([?x; ?h] ++ c) 0) with (Ok x). change (at_ ([?x; ?h] ++ c) 1) with (Ok h).
  cbn [mbind Res_bind]. rewrite build_parse_indicator, build_parse_header by done.
  cbn [forbidden_zero_bit fu_start nal_ref_idc nal_unit_type]. rewrite Z.eqb_refl. cbn [negb].
  rewrite Hz, Hc. cbn [mbind Res_bind]. by rewrite Hl.
Qed.

(** ** STAP-A *)
Definition stapa_body (nals : list bytes) : bytes :=
  flat_map (λ nal, to_be 2 (wrap16 (zlen nal)) ++ nal) nals.

Lemma stapa_loop_spec nals pre acc fuel :
  Forall (λ n, 0 < zlen n < 2 ^ 16) nals → (length (stapa_body nals) < fuel)%nat →
  stapa_loop fuel (pre ++ stapa_body nals) (zlen pre) acc = Ok (acc ++ nals).
Proof.
  revert pre acc fuel. induction nals as [|n nals IH]; intros pre acc fuel Hn Hf;
    (destruct fuel as [|fuel]; [lia|]); cbn [stapa_loop].
  - cbn [stapa_body flat_map]. rewrite !app_nil_r. by rewrite Z.ltb_irrefl.
  - apply Forall_cons in Hn as [Hn Hns].
    change (stapa_body (n :: nals))
      with ((to_be 2 (wrap16 (zlen n)) ++ n) ++ stapa_body nals) in *.
    unfold wrap16 in *. rewrite (Z.mod_small (zlen n)) in * by lia.
    rewrite <-app_assoc in *. set (all := pre ++ _).
    assert (zlen all = zlen pre + 2 + zlen n + zlen (stapa_body nals)) as Hl
      by (unfold all; rewrite !zlen_app, zlen_to_be; lia).
    pose proof (zlen_nonneg (stapa_body nals)).
    rewrite (proj2 (Z.ltb_lt _ _)), (proj2 (Z.ltb_ge _ _)) by lia.
    assert (be_at 2 all (zlen pre) = Ok (zlen n)) as ->
      by (apply (be_at_to_be 2 (zlen n) pre); [change (256 ^ Z.of_nat 2) with (2 ^ 16); lia|done]).
    cbn [mbind Res_bind].
    rewrite (proj2 (Z.eqb_neq _ _)), (proj2 (Z.ltb_ge _ _)) by lia.
    assert (slice all (zlen pre + 2) (zlen pre + 2 + zlen n) = Ok n) as ->.
    { unfold all. rewrite app_assoc. apply slice_app_mid; rewrite zlen_app, zlen_to_be; lia. }
    cbn [mbind Res_bind]. unfold all. rewrite !app_assoc.
    replace (zlen pre + 2 + zlen n) with (zlen ((pre ++ to_be 2 (zlen n)) ++ n))
      by (rewrite !zlen_app, zlen_to_be; lia).
    rewrite IH; [by rewrite <-app_assoc|done|].
    rewrite !length_app, length_to_be in Hf. lia.
Qed.

Lemma check_nris_ok nri nals :
  Forall (λ n, ∃ b tl, n = b :: tl ∧ nri_of b = nri) nals → check_nris nri nals = Ok tt.
Proof.
  induction 1 as [|n nals (b & tl & -> & Hb) _ IH]; [done|]. cbn [check_nris].
  by rewrite Hb, Z.eqb_refl.
Qed.

(** ** Properties *)

(** Parsing a serialized packet gives the packet back, its extension data
    filled up to the 32-bit boundary; [to_bytes] does not append padding, so
    when the padding flag is set the end of the payload itself is read as
    padding (and removed, or refused). *)
Theorem parse_to_bytes p :
  packet_ok p →
  parse (to_bytes p)
  = (pl ← strip_padding (padding (flags p)) (payload p); Ok (canonical p pl)).
Proof. apply parse_layout. Qed.

Definition sample_packet : RtpPacket :=
  mkPacket (mkFlags 2 false true 2 true 96) 65535 7 0xDEADBEEF [1; 2] (Some 0xBEDE)
    [1; 2; 3; 4; 5] [0x65; 9].

Lemma sample_packet_ok : packet_ok sample_packet.
Proof.
  split; unfold is_u16, is_u32; cbn; try lia; try done; [repeat constructor; done|].
  split; [|done]. exists 0xBEDE. split; [done|lia].
Qed.

Lemma parse_to_bytes_witness :
  parse (to_bytes sample_packet)
  = (pl ← strip_padding (padding (flags sample_packet)) (payload sample_packet);
     Ok (canonical sample_packet pl)).
Proof. apply parse_to_bytes, sample_packet_ok. Defined.

(** Parsing any bytes from the network is safe, and what is parsed is
    exactly what was there: serializing it again gives the input back up to
    the padding bytes, whose count is their last byte. *)
Theorem to_bytes_parse data :
  bytes_ok data →
  safe (parse data) ∧ ∀ p, parse data = Ok p → parsed_from data p.
Proof.
  intros Hd. pose proof (parse_inv data Hd) as H. split; [by eapply post_safe|].
  intros p E. by rewrite E in H.
Qed.

Lemma to_bytes_parse_witness :
  bytes_ok (to_bytes sample_packet) ∧ safe (parse (to_bytes sample_packet)) ∧
  ∀ p, parse (to_bytes sample_packet) = Ok p → parsed_from (to_bytes sample_packet) p.
Proof.
  assert (bytes_ok (to_bytes sample_packet)) as H by (vm_compute; repeat constructor; discriminate).
  split; [exact H|]. apply (to_bytes_parse _ H).
Defined.

(** FU-A: fragmenting a NAL unit and reassembling the fragments gives the
    unit back, header byte included, for every length and every usable MTU. *)
Theorem reassemble_fragment hdr data pt seq ts src mtu :
  0 ≤ hdr < 128 → data ≠ [] → RTP_HEADER_SIZE + 2 < mtu → is_u16 seq →
  ∃ ps, fragment_nal data (nri_of hdr) (Z.land hdr 0x1F) pt seq ts src mtu = Ok ps ∧
        reassemble_fua ps = Ok (hdr :: data).
Proof.
  intros Hh Hd Hm Hs. destruct (header_byte_rebuild hdr Hh) as (Hr & Hnri & Hty).
  pose proof (fragment_nal_spec data (nri_of hdr) (Z.land hdr 31) pt seq ts src mtu Hd Hm Hs) as E.
  cbv zeta in E. unfold RTP_HEADER_SIZE in Hm.
  assert (0 < zlen data) by (destruct data; [done|rewrite zlen_cons; zlen_facts; lia]).
  destruct (div_ceil_spec (zlen data) (mtu - 14)) as (Hn & Hle & _); [lia..|].
  set (n := div_ceil (zlen data) (mtu - 14)) in *.
  assert (length (chunks (mtu - 14) (Z.to_nat n) data) = Z.to_nat n) as Hlen
    by apply length_chunks.
  eexists. split; [exact E|]. rewrite check_fua_ok by
    (done || (intros Ec; rewrite Ec in Hlen; cbn in Hlen; lia) || (unfold zlen at 1; rewrite Hlen; lia)).
  rewrite Hr, concat_chunks by (rewrite ?Z2Nat.id by lia; lia). done.
Qed.

Lemma reassemble_fragment_witness :
  ∃ ps, fragment_nal (replicate 40 7) (nri_of 0x65) (Z.land 0x65 0x1F) 96 65534 9 1 30 = Ok ps ∧
        reassemble_fua ps = Ok (0x65 :: replicate 40 7).
Proof. apply reassemble_fragment; unfold is_u16, RTP_HEADER_SIZE; (done || lia). Defined.

(** FU-A fragments on the wire: every packet fits the MTU and is an FU-A
    packet of the given stream and timestamp; the sequence numbers count up
    modulo 2^16 from the given one, and exactly the last packet is marked. *)
Theorem fragment_packets data nri ty pt seq ts src mtu ps :
  data ≠ [] → RTP_HEADER_SIZE + 2 < mtu → is_u16 seq → 0 ≤ nri < 4 →
  fragment_nal data nri ty pt seq ts src mtu = Ok ps →
  ∀ i p, ps !! i = Some p →
    zlen (to_bytes p) ≤ mtu ∧ is_fua (payload p) = true ∧
    sequence_number p = (seq + Z.of_nat i) mod 2 ^ 16 ∧
    timestamp p = ts ∧ ssrc p = src ∧
    marker (flags p) = bool_decide (S i = length ps).
Proof.
  intros Hd Hm Hs Hnri E i p Hi.
  pose proof (fragment_nal_spec data nri ty pt seq ts src mtu Hd Hm Hs) as E'.
  cbv zeta in E'. rewrite E' in E. injection E as <-. unfold RTP_HEADER_SIZE in Hm.
  set (n := div_ceil (zlen data) (mtu - 14)) in *.
  assert (0 < zlen data) by (destruct data; [done|rewrite zlen_cons; zlen_facts; lia]).
  destruct (div_ceil_spec (zlen data) (mtu - 14)) as (Hn & _); [lia..|]. fold n in Hn.
  rewrite list_lookup_imap in Hi.
  destruct (chunks (mtu - 14) (Z.to_nat n) data !! i) as [c|] eqn:Hc; [|done].
  cbn in Hi. injection Hi as <-. cbn [fragment payload sequence_number timestamp ssrc flags marker].
  assert (zlen c ≤ mtu - 14) as Hlc.
  { pose proof (chunks_bound (mtu - 14) (Z.to_nat n) data ltac:(lia)) as Hb.
    rewrite Forall_lookup in Hb. by eapply Hb. }
  apply lookup_lt_Some in Hc. rewrite length_chunks in Hc.
  rewrite length_imap, length_chunks. split_and!; try done.
  - unfold to_bytes. cbn [fragment flags extension csrc_list payload flat_map].
    rewrite !zlen_app, !zlen_to_be, !zlen_cons, !zlen_nil. lia.
  - unfold is_fua, first_type. cbn [app]. by_enum nri 0 4.
  - apply eq_iff_eq_true. rewrite bool_decide_eq_true, Z.eqb_eq. lia.
Qed.

Lemma fragment_packets_witness :
  ∃ ps, fragment_nal (replicate 40 7) 3 5 96 65534 9 1 30 = Ok ps ∧
  ∀ i p, ps !! i = Some p →
    zlen (to_bytes p) ≤ 30 ∧ is_fua (payload p) = true ∧
    sequence_number p = (65534 + Z.of_nat i) mod 2 ^ 16 ∧
    timestamp p = 9 ∧ ssrc p = 1 ∧ marker (flags p) = bool_decide (S i = length ps).
Proof.
  eexists. split; [vm_compute; reflexivity|].
  apply (fragment_packets (replicate 40 7) 3 5 96 65534 9 1 30);
    unfold is_u16, RTP_HEADER_SIZE; try lia; [done|vm_compute; reflexivity].
Defined.

(** STAP-A: NAL units that share their reference level and fit the 16-bit
    size field can be aggregated, the payload is a STAP-A payload, and
    parsing it gives the units back. *)
Theorem parse_build_stapa nals nri :
  nals ≠ [] → Forall (λ n, ∃ b tl, n = b :: tl ∧ nri_of b = nri) nals →
  Forall (λ n, zlen n < 2 ^ 16) nals → 0 ≤ nri < 4 →
  ∃ payload, build_stapa nals = Ok payload ∧ is_stapa payload = true ∧
             parse_stapa payload = Ok nals.
Proof.
  intros Hne Hnri Hlen Hr.
  set (h := Z.lor (wrap8 (Z.shiftl nri 5)) 24).
  assert (Z.land h 31 = 24) as Hh by (unfold h; by_enum nri 0 4).
  exists (h :: stapa_body nals). split_and!.
  - destruct nals as [|n nals]; [done|]. pose proof Hnri as Hnri'.
    apply Forall_cons in Hnri as [(b & tl & -> & Hb) _]. unfold build_stapa.
    rewrite Hb, check_nris_ok by done. done.
  - unfold is_stapa, first_type. by rewrite Hh.
  - unfold parse_stapa. rewrite zlen_cons.
    rewrite (proj2 (Z.eqb_neq _ _)) by (zlen_facts; lia).
    change (at_ (h :: stapa_body nals) 0) with (Ok h). cbn [mbind Res_bind].
    rewrite Hh. cbn [Z.eqb Pos.eqb negb].
    pose proof (stapa_loop_spec nals [h] [] (S (length (h :: stapa_body nals)))) as E.
    change ([] ++ nals) with nals in E. apply E; [|cbn; lia].
    rewrite Forall_forall in *. intros n Hin. specialize (Hlen n Hin).
    destruct (Hnri n Hin) as (b & tl & -> & _). rewrite zlen_cons in *. zlen_facts. lia.
Qed.

Lemma parse_build_stapa_witness :
  ∃ payload, build_stapa [[0x67; 1; 2]; [0x68; 3]] = Ok payload ∧ is_stapa payload = true ∧
             parse_stapa payload = Ok [[0x67; 1; 2]; [0x68; 3]].
Proof.
  apply (parse_build_stapa _ 3); [done| | |lia].
  - repeat constructor; eexists _, _; split; reflexivity.
  - repeat constructor.
Defined.
