(* ===== verification/H264.v ===== *)
(** * H.264 elementary streams ([crates/protocols/src/h264.rs])

    The bit reader and Exp-Golomb codes, NAL unit headers, Annex B and AVCC
    splitting, parameter sets and keyframe search.  The bit reader's methods
    are computations of the state monad [ST] over the iterator. *)
From Stdlib Require Import ZArith Lia List Bool String.
From stdpp Require Import base option list numbers gmap.
From S2P Require Import Prelude.

(** ** NAL unit headers *)
Inductive NalUnitType :=
  | Unspecified | Slice | SliceA | SliceB | SliceC | Idr | Sei | Sps | Pps | Aud
  | EndOfSequence | EndOfStream | Filler | SpsExt | Prefix | SubsetSps | SliceAux
  | Reserved.

#[export] Instance NalUnitType_eq_dec : EqDecision NalUnitType.
Proof. solve_decision. Defined.

Definition NalUnitType_try_from (value : Z) : Res NalUnitType :=
  if value =? 0 then Ok Unspecified
  else if value =? 1 then Ok Slice
  else if value =? 2 then Ok SliceA
  else if value =? 3 then Ok SliceB
  else if value =? 4 then Ok SliceC
  else if value =? 5 then Ok Idr
  else if value =? 6 then Ok Sei
  else if value =? 7 then Ok Sps
  else if value =? 8 then Ok Pps
  else if value =? 9 then Ok Aud
  else if value =? 10 then Ok EndOfSequence
  else if value =? 11 then Ok EndOfStream
  else if value =? 12 then Ok Filler
  else if value =? 13 then Ok SpsExt
  else if value =? 14 then Ok Prefix
  else if value =? 15 then Ok SubsetSps
  else if value =? 19 then Ok SliceAux
  else if (24 <=? value) && (value <=? 30) then Ok Reserved
  else Err "Invalid NAL unit type".

Record NalHeader := mkNalHeader {
  forbidden_zero_bit : Z;
  nal_ref_idc : Z;
  nal_unit_type : NalUnitType;
}.

Definition parse_nal_header (nal_data : bytes) : Res (NalHeader * bytes) :=
  if zlen nal_data =? 0 then Err "Empty NAL unit data"
  else
  first_byte ← at_ nal_data 0;
  let forbidden := Z.land (Z.shiftr first_byte 7) 0x01 in
  let ref_idc := Z.land (Z.shiftr first_byte 5) 0x03 in
  let type_val := Z.land first_byte 0x1F in
  if negb (forbidden =? 0) then Err "Forbidden zero bit is set (invalid NAL unit)"
  else
  ty ← NalUnitType_try_from type_val;
  rest ← slice_from nal_data 1;
  Ok (mkNalHeader forbidden ref_idc ty, rest).

(** ** Bit reader *)
Record BitIter := mkBits { data : bytes; byte_pos : Z; bit_pos : Z }.

Definition bits_new (data : bytes) : BitIter := mkBits data 0 0.

Definition read_bit : ST BitIter bool := λ it,
  if zlen (data it) <=? byte_pos it then (Err "Bit read out of bounds", it)
  else
  match at_ (data it) (byte_pos it) with
  | Ok b =>
      let bit := Z.land (Z.shiftr b (7 - bit_pos it)) 1 in
      let pos := bit_pos it + 1 in
      (Ok (negb (bit =? 0)),
       if 8 <=? pos then mkBits (data it) (byte_pos it + 1) 0
       else mkBits (data it) (byte_pos it) pos)
  | Err e => (Err e, it)
  | Panic => (Panic, it)
  | OutOfFuel => (OutOfFuel, it)
  end.

Fixpoint read_bits_loop (n : nat) (result : Z) : ST BitIter Z :=
  match n with
  | O => st_ret result
  | S n =>
      b ← read_bit;
      read_bits_loop n (Z.lor (wrap32 (Z.shiftl result 1)) (Z_of_bool b))
  end.

Definition read_bits (n : Z) : ST BitIter Z :=
  if 32 <? n then st_fail "Cannot read more than 32 bits at once"
  else read_bits_loop (Z.to_nat n) 0.

(** The zero-counting loop; each iteration reads one bit. *)
Fixpoint count_zeroes (fuel : nat) (leading_zeroes : Z) : ST BitIter Z :=
  match fuel with
  | O => st_lift OutOfFuel
  | S fuel =>
      b ← read_bit;
      if (b : bool) then st_ret leading_zeroes
      else count_zeroes fuel (wrap32 (leading_zeroes + 1))
  end.

(** The bits an iterator still has, as a number. *)
Definition bits_left (it : BitIter) : nat :=
  Z.to_nat (8 * (zlen (data it) - byte_pos it) - bit_pos it).

(** [1 << n] on a [u32] in a release build shifts by [n mod 32]. *)
Definition shl1_u32 (n : Z) : Z := Z.shiftl 1 (n mod 32).

Definition read_exp_golomb : ST BitIter Z := λ it,
  (leading_zeroes ← count_zeroes (S (bits_left it)) 0;
   if leading_zeroes =? 0 then st_ret 0
   else
   value ← read_bits (wrap8 leading_zeroes);
   st_ret (wrap32 (wrap32 (shl1_u32 leading_zeroes - 1) + value))) it.

(** [x as i32] *)
Definition as_i32 (x : Z) : Z := if x <? 2 ^ 31 then x else x - 2 ^ 32.
Definition wrap_i32 (x : Z) : Z := as_i32 (wrap32 x).

Definition read_signed_exp_golomb : ST BitIter Z :=
  ue ← read_exp_golomb;
  let positive := ue mod 2 =? 0 in
  let value := as_i32 (Z.shiftr (wrap32 (ue + 1)) 1) in
  st_ret (if positive then value else wrap_i32 (- value)).

(** ** Splitting byte streams *)
Fixpoint find_loop (fuel : nat) (data : bytes) (i : Z) : Res (list (Z * Z)) :=
  match fuel with
  | O => OutOfFuel
  | S fuel =>
      if i + 3 <? zlen data then
        b0 ← at_ data i;
        b1 ← at_ data (i + 1);
        b2 ← at_ data (i + 2);
        b3 ← at_ data (i + 3);
        if (b0 =? 0) && (b1 =? 0) && (b2 =? 0) && (b3 =? 1) then
          more ← find_loop fuel data (i + 4); Ok ((i, i + 4) :: more)
        else if (b0 =? 0) && (b1 =? 0) && (b2 =? 1) then
          more ← find_loop fuel data (i + 3); Ok ((i, i + 3) :: more)
        else find_loop fuel data (i + 1)
      else Ok []
  end.

Definition find_start_codes (data : bytes) : Res (list (Z * Z)) :=
  find_loop (S (length data)) data 0.

(** The units between consecutive start codes. *)
Fixpoint units_between (data : bytes) (codes : list (Z * Z)) : Res (list bytes) :=
  match codes with
  | [] => Ok []
  | (_, data_start) :: codes =>
      let end_pos := match codes with (next, _) :: _ => next | [] => zlen data end in
      unit_ ← (if data_start <? end_pos
               then u ← slice data data_start end_pos; Ok [u] else Ok []);
      units ← units_between data codes;
      Ok (unit_ ++ units)
  end.

Definition split_nal_units (data : bytes) : Res (list bytes) :=
  start_codes ← find_start_codes data;
  match start_codes with
  | [] => if zlen data =? 0 then Ok [] else Ok [data]
  | _ => units_between data start_codes
  end.

Fixpoint avcc_loop (fuel : nat) (data : bytes) (pos : Z) : Res (list bytes) :=
  match fuel with
  | O => OutOfFuel
  | S fuel =>
      if pos + 4 <=? zlen data then
        len ← be_at 4 data pos;
        if len =? 0 then Ok []
        else
        let nal_start := pos + 4 in
        let nal_end := nal_start + len in
        if zlen data <? nal_end then Ok []
        else
        nal ← slice data nal_start nal_end;
        more ← avcc_loop fuel data nal_end;
        Ok (nal :: more)
      else Ok []
  end.

Definition split_nal_units_avcc (data : bytes) : Res (list bytes) :=
  avcc_loop (S (length data)) data 0.

(** ** Parameter sets *)
Record FrameCropping := mkCrop {
  left_offset : Z; right_offset : Z; top_offset : Z; bottom_offset : Z;
}.

Record SpsParams := mkSps {
  profile_idc : Z;
  constraint_flags : list Z;
  level_idc : Z;
  sps_id : Z;
  chroma_format_idc : Z;
  pic_width_in_mbs_minus1 : Z;
  pic_height_in_map_units_minus1 : Z;
  frame_cropping_flag : bool;
  frame_cropping : option FrameCropping;
}.

Definition width (s : SpsParams) : Z :=
  let base_width := wrap32 (wrap32 (pic_width_in_mbs_minus1 s + 1) * 16) in
  let crop := match frame_cropping s with
              | Some c => wrap32 (left_offset c + right_offset c) | None => 0 end in
  let c := chroma_format_idc s in
  if c =? 0 then wrap32 (base_width - crop)
  else if (c =? 1) || (c =? 2) then wrap32 (base_width - wrap32 (crop * 2))
  else wrap32 (base_width - crop).

Definition height (s : SpsParams) : Z :=
  let base_height := wrap32 (wrap32 (pic_height_in_map_units_minus1 s + 1) * 16) in
  let crop := match frame_cropping s with
              | Some c => wrap32 (top_offset c + bottom_offset c) | None => 0 end in
  let c := chroma_format_idc s in
  if c =? 0 then wrap32 (base_height - crop)
  else if c =? 1 then wrap32 (base_height - wrap32 (crop * 2))
  else wrap32 (base_height - crop).

Record PpsParams := mkPps { pic_parameter_set_id : Z; pps_sps_id : Z }.

(** [read_scaling_list]: [i32] arithmetic, [%] truncates towards zero. *)
Fixpoint scaling_loop (n : nat) (last_scale next_scale : Z) : ST BitIter unit :=
  match n with
  | O => st_ret tt
  | S n =>
      next_scale ← (if negb (next_scale =? 0) then
                      delta_scale ← read_signed_exp_golomb;
                      st_ret (Z.rem (wrap_i32 (last_scale + delta_scale)) 256)
                    else st_ret next_scale);
      scaling_loop n (if next_scale =? 0 then 8 else next_scale) next_scale
  end.

Definition read_scaling_list (size : Z) : ST BitIter unit :=
  scaling_loop (Z.to_nat size) 8 8.

(** The scaling matrix lists [i..7]. *)
Fixpoint scaling_lists (n : nat) (i : Z) : ST BitIter unit :=
  match n with
  | O => st_ret tt
  | S n =>
      present ← read_bit;
      _ ← (if (present : bool) then read_scaling_list (if i <? 6 then 16 else 64)
           else st_ret tt);
      scaling_lists n (i + 1)
  end.

(** [for _ in 0..num { read_signed_exp_golomb()?; }]: every iteration reads at
    least one bit. *)
Fixpoint skip_signed (fuel : nat) (num : Z) : ST BitIter unit :=
  match fuel with
  | O => st_lift OutOfFuel
  | S fuel =>
      if num =? 0 then st_ret tt
      else
      _ ← read_signed_exp_golomb;
      skip_signed fuel (num - 1)
  end.

Definition skip_ref_frames (num : Z) : ST BitIter unit := λ it,
  skip_signed (S (bits_left it)) num it.

Definition high_profile (p : Z) : bool :=
  existsb (Z.eqb p) [100; 110; 122; 244; 44; 83; 86; 118; 128].

(** The extra fields of the high profiles; the chroma format. *)
Definition read_high : ST BitIter Z :=
  chroma ← read_exp_golomb;
  _ ← (if chroma =? 3 then _ ← read_bit; st_ret tt else st_ret tt);
  _ ← read_exp_golomb;
  _ ← read_exp_golomb;
  _ ← read_bit;
  matrix ← read_bit;
  _ ← (if (matrix : bool) then scaling_lists 8 0 else st_ret tt);
  st_ret chroma.

Definition read_poc : ST BitIter unit :=
  pic_order_cnt_type ← read_exp_golomb;
  if pic_order_cnt_type =? 0 then _ ← read_exp_golomb; st_ret tt
  else if pic_order_cnt_type =? 1 then
    _ ← read_bit;
    _ ← read_signed_exp_golomb;
    _ ← read_signed_exp_golomb;
    num_ref_frames ← read_exp_golomb;
    skip_ref_frames num_ref_frames
  else st_ret tt.

Definition read_cropping : ST BitIter (option FrameCropping) :=
  frame_cropping_flag ← read_bit;
  if (frame_cropping_flag : bool) then
    l ← read_exp_golomb;
    r ← read_exp_golomb;
    t ← read_exp_golomb;
    b ← read_exp_golomb;
    st_ret (Some (mkCrop l r t b))
  else st_ret None.

Definition sps_body : ST BitIter SpsParams :=
  profile ← read_bits 8;
  constraint_byte ← read_bits 8;
  level ← read_bits 8;
  id ← read_exp_golomb;
  chroma ← (if high_profile profile then read_high else st_ret 1);
  _ ← read_exp_golomb;
  _ ← read_poc;
  _ ← read_exp_golomb;
  _ ← read_bit;
  w ← read_exp_golomb;
  h ← read_exp_golomb;
  frame_mbs_only_flag ← read_bit;
  _ ← (if negb frame_mbs_only_flag then _ ← read_bit; st_ret tt else st_ret tt);
  _ ← read_bit;
  crop ← read_cropping;
  st_ret (mkSps profile [constraint_byte; 0; 0] level id chroma w h
            (match crop with Some _ => true | None => false end) crop).

Definition parse_sps (nal_data : bytes) : Res SpsParams :=
  '(header, payload) ← parse_nal_header nal_data;
  if negb (bool_decide (nal_unit_type header = Sps)) then Err "Expected SPS (type 7)"
  else (sps_body (bits_new payload)).1.

Definition pps_body : ST BitIter PpsParams :=
  pps_id ← read_exp_golomb;
  sps_id ← read_exp_golomb;
  _ ← read_bit;
  _ ← read_bit;
  num_slice_groups ← read_exp_golomb;
  _ ← (if 0 <? num_slice_groups then _ ← read_exp_golomb; st_ret tt else st_ret tt);
  st_ret (mkPps pps_id sps_id).

Definition parse_pps (nal_data : bytes) : Res PpsParams :=
  '(header, payload) ← parse_nal_header nal_data;
  if negb (bool_decide (nal_unit_type header = Pps)) then Err "Expected PPS (type 8)"
  else (pps_body (bits_new payload)).1.

(** ** Keyframes *)
Definition is_keyframe (ty : NalUnitType) (ref_idc : Z) : bool :=
  if bool_decide (ty = Idr) then true
  else if bool_decide (ty = Slice) && (0 <? ref_idc) then false
  else false.

(** The first start code at or after [offset]. *)
Fixpoint first_from (offset : Z) (codes : list (Z * Z)) : list Z :=
  match codes with
  | [] => []
  | (start, _) :: codes => if offset <=? start then [start] else first_from offset codes
  end.

Fixpoint keyframes_loop (codes : list (Z * Z)) (offset : Z) (nal_units : list bytes)
    : Res (list Z) :=
  match nal_units with
  | [] => Ok []
  | nal_unit :: nal_units =>
      found ← match parse_nal_header nal_unit with
              | Ok (header, _) =>
                  Ok (if is_keyframe (nal_unit_type header) (nal_ref_idc header)
                      then first_from offset codes else [])
              | Err _ => Ok []
              | Panic => Panic
              | OutOfFuel => OutOfFuel
              end;
      more ← keyframes_loop codes (offset + zlen nal_unit) nal_units;
      Ok (found ++ more)
  end.

Definition find_keyframes (data : bytes) : Res (list Z) :=
  nal_units ← split_nal_units data;
  start_codes ← find_start_codes data;
  keyframes_loop start_codes 0 nal_units.

(** ** The bit string behind an iterator *)
Definition byte_bits (b : Z) : list bool :=
  List.map (Z.testbit b) [7; 6; 5; 4; 3; 2; 1; 0].
Definition bits_of (l : bytes) : list bool := flat_map byte_bits l.

Definition bit_index (it : BitIter) : nat := Z.to_nat (8 * byte_pos it + bit_pos it).

(** What is left to read. *)
Definition remaining (it : BitIter) : list bool := drop (bit_index it) (bits_of (data it)).

Record iter_ok (it : BitIter) : Prop := {
  io_byte : 0 ≤ byte_pos it;
  io_bit : 0 ≤ bit_pos it < 8;
  io_end : 8 * byte_pos it + bit_pos it ≤ 8 * zlen (data it);
}.

Lemma length_bits_of l : length (bits_of l) = (8 * length l)%nat.
Proof.
  induction l as [|b l IH]; [done|].
  change (bits_of (b :: l)) with (byte_bits b ++ bits_of l).
  rewrite length_app, IH. cbn [byte_bits List.map length]. lia.
Qed.

Lemma lookup_bits_of l i j b :
  l !! i = Some b → (j < 8)%nat →
  bits_of l !! (8 * i + j)%nat = Some (Z.testbit b (7 - Z.of_nat j)).
Proof.
  revert i. induction l as [|c l IH]; intros i Hi Hj; [done|].
  change (bits_of (c :: l)) with (byte_bits c ++ bits_of l).
  destruct i as [|i].
  - injection Hi as ->. rewrite lookup_app_l by (cbn; lia).
    do 8 (destruct j as [|j]; [done|]). lia.
  - rewrite lookup_app_r by (cbn; lia). cbn [length byte_bits List.map].
    replace (8 * S i + j - 8)%nat with (8 * i + j)%nat by lia. by apply IH.
Qed.

Lemma land1_testbit b n : 0 ≤ n → negb (Z.land (Z.shiftr b n) 1 =? 0) = Z.testbit b n.
Proof.
  intros Hn. change 1 with (Z.ones 1) at 1. rewrite Z.land_ones by lia.
  change (2 ^ 1) with 2. rewrite <-Z.bit0_mod, Z.shiftr_spec by lia.
  replace (0 + n) with n by lia. by destruct (Z.testbit b n).
Qed.

Lemma bits_left_remaining it : iter_ok it → bits_left it = length (remaining it).
Proof.
  intros [H1 H2 H3]. unfold bits_left, remaining, bit_index.
  rewrite length_drop, length_bits_of. unfold zlen in *. lia.
Qed.

(** [read_bit] takes the first bit that is left. *)
Lemma read_bit_spec it :
  iter_ok it →
  match remaining it with
  | [] => read_bit it = (Err "Bit read out of bounds", it)
  | b :: rest => ∃ it', read_bit it = (Ok b, it') ∧ iter_ok it' ∧ remaining it' = rest
  end.
Proof.
  intros Hok. pose proof (bits_left_remaining it Hok) as Hlen. destruct Hok as [H1 H2 H3].
  unfold read_bit. destruct (Z.leb_spec (zlen (data it)) (byte_pos it)) as [Hend|Hin].
  - assert (bit_pos it = 0 ∧ byte_pos it = zlen (data it)) as [E1 E2] by lia.
    destruct (remaining it); [done|]. unfold bits_left in Hlen. cbn in Hlen. lia.
  - destruct (at_in_range (data it) (byte_pos it)) as [b Hb]; [lia|]. rewrite Hb.
    apply at_Ok_iff in Hb as [_ Hb].
    pose proof (lookup_bits_of _ _ (Z.to_nat (bit_pos it)) b Hb ltac:(lia)) as Hbit.
    replace (8 * Z.to_nat (byte_pos it) + Z.to_nat (bit_pos it))%nat with (bit_index it)
      in Hbit by (unfold bit_index; lia).
    rewrite Z2Nat.id in Hbit by lia.
    pose proof (drop_S _ _ _ Hbit) as Hrem. fold (remaining it) in Hrem. rewrite Hrem.
    rewrite land1_testbit by lia. eexists. split; [reflexivity|].
    destruct (Z.leb_spec 8 (bit_pos it + 1)); (split; [split; cbn; lia|]);
      unfold remaining, bit_index; cbn; f_equal; lia.
Qed.

(** [reads m bs a]: on any iterator whose next bits are [bs], [m] returns [a]
    and consumes exactly [bs]. *)
Definition reads {A} (m : ST BitIter A) (bs : list bool) (a : A) : Prop :=
  ∀ it rest, iter_ok it → remaining it = bs ++ rest →
    ∃ it', m it = (Ok a, it') ∧ iter_ok it' ∧ remaining it' = rest.

Lemma reads_ret {A} (a : A) : reads (st_ret a) [] a.
Proof. intros it rest Hok Hr. by exists it. Qed.

Lemma reads_bind {A B} (m : ST BitIter A) (f : A → ST BitIter B) bs1 bs2 a b :
  reads m bs1 a → reads (f a) bs2 b → reads (m ≫= f) (bs1 ++ bs2) b.
Proof.
  intros Hm Hf it rest Hok Hr. rewrite <-app_assoc in Hr.
  destruct (Hm it _ Hok Hr) as (it1 & E1 & Hok1 & Hr1).
  destruct (Hf it1 _ Hok1 Hr1) as (it2 & E2 & Hok2 & Hr2).
  exists it2. split; [|done]. by rewrite (st_bind_ok _ _ _ _ _ E1).
Qed.

Lemma reads_bind_nil {A B} (m : ST BitIter A) (f : A → ST BitIter B) bs a b :
  reads m [] a → reads (f a) bs b → reads (m ≫= f) bs b.
Proof. apply (reads_bind m f [] bs). Qed.

Lemma reads_bind_last {A B} (m : ST BitIter A) (f : A → ST BitIter B) bs a b :
  reads m bs a → reads (f a) [] b → reads (m ≫= f) bs b.
Proof. intros Hm Hf. rewrite <-(app_nil_r bs). by eapply reads_bind. Qed.

Lemma reads_bit b : reads read_bit [b] b.
Proof.
  intros it rest Hok Hr. pose proof (read_bit_spec it Hok) as H. by rewrite Hr in H.
Qed.

(** The value of a bit string, most significant bit first. *)
Definition bits_value (bs : list bool) : Z :=
  fold_left (λ a b, 2 * a + Z_of_bool b) bs 0.

Lemma bits_value_snoc_acc bs a :
  fold_left (λ a b, 2 * a + Z_of_bool b) bs a = a * 2 ^ zlen bs + bits_value bs.
Proof.
  unfold bits_value. revert a. induction bs as [|b bs IH]; intros a; cbn [fold_left].
  - change (zlen []) with 0. lia.
  - rewrite IH, (IH (2 * 0 + Z_of_bool b)), zlen_cons.
    rewrite Z.pow_add_r by (zlen_facts; lia). ring.
Qed.

Lemma bits_value_cons b bs : bits_value (b :: bs) = Z_of_bool b * 2 ^ zlen bs + bits_value bs.
Proof. unfold bits_value at 1. cbn [fold_left]. by rewrite bits_value_snoc_acc. Qed.

Lemma bits_value_range bs : 0 ≤ bits_value bs < 2 ^ zlen bs.
Proof.
  induction bs as [|b bs IH]; [done|]. rewrite bits_value_cons, zlen_cons.
  rewrite Z.pow_add_r by (zlen_facts; lia). destruct b; cbn [Z_of_bool]; lia.
Qed.

Lemma lor_double a b : 0 ≤ a → Z.lor (Z.shiftl a 1) (Z_of_bool b) = 2 * a + Z_of_bool b.
Proof.
  intros Ha. rewrite Z.shiftl_mul_pow2 by lia. change (2 ^ 1) with 2.
  rewrite <-Z.add_nocarry_lor.
  - lia.
  - apply Z.bits_inj'. intros n Hn. rewrite Z.land_spec, Z.bits_0.
    destruct (Z.eq_dec n 0) as [->|].
    + by rewrite Z.mul_comm, Z.testbit_even_0.
    + destruct b; cbn [Z_of_bool]; [|by rewrite Z.bits_0, andb_false_r].
      replace n with (Z.succ (n - 1)) by lia.
      change 1 with (2 * 0 + 1) at 2. rewrite Z.testbit_odd_succ by lia.
      by rewrite Z.bits_0, andb_false_r.
Qed.

Lemma reads_bits_loop bs result :
  0 ≤ result → result * 2 ^ zlen bs + bits_value bs < 2 ^ 32 →
  reads (read_bits_loop (length bs) result) bs (result * 2 ^ zlen bs + bits_value bs).
Proof.
  revert result. induction bs as [|b bs IH]; intros result Hr Hb; cbn [length read_bits_loop].
  - change (zlen []) with 0. rewrite Z.pow_0_r, Z.mul_1_r. change (bits_value []) with 0.
    rewrite Z.add_0_r. apply reads_ret.
  - rewrite bits_value_cons, zlen_cons, Z.pow_add_r in * by (zlen_facts; lia).
    pose proof (bits_value_range bs). change (2 ^ 1) with 2 in *.
    assert (0 < 2 ^ zlen bs) by (apply Z.pow_pos_nonneg; zlen_facts; lia).
    assert (0 ≤ Z_of_bool b ≤ 1) by (destruct b; cbn; lia).
    assert (0 ≤ 2 * result + Z_of_bool b < 2 ^ 32) by nia.
    assert (Z.lor (wrap32 (Z.shiftl result 1)) (Z_of_bool b) = 2 * result + Z_of_bool b) as E.
    { unfold wrap32. rewrite Z.mod_small by (rewrite Z.shiftl_mul_pow2 by lia; lia).
      by apply lor_double. }
    eapply (reads_bind _ _ [b] bs); [apply reads_bit|]. rewrite E.
    replace (result * (2 * 2 ^ zlen bs) + (Z_of_bool b * 2 ^ zlen bs + bits_value bs))
      with ((2 * result + Z_of_bool b) * 2 ^ zlen bs + bits_value bs) by ring.
    apply IH; nia.
Qed.

Lemma reads_bits bs : zlen bs ≤ 32 → reads (read_bits (zlen bs)) bs (bits_value bs).
Proof.
  intros Hl. unfold read_bits. rewrite (proj2 (Z.ltb_ge _ _)) by lia.
  rewrite length_zlen. pose proof (bits_value_range bs).
  apply (reads_bits_loop bs 0); [lia|].
  pose proof (Z.pow_le_mono_r 2 (zlen bs) 32 ltac:(lia) Hl). lia.
Qed.

(** ** Exp-Golomb codes *)
Fixpoint value_bits (k : nat) (x : Z) : list bool :=
  match k with
  | O => []
  | S k => Z.testbit x (Z.of_nat k) :: value_bits k x
  end.

Lemma length_value_bits k x : length (value_bits k x) = k.
Proof. induction k; cbn; [done|by f_equal]. Qed.
Lemma zlen_value_bits k x : zlen (value_bits k x) = Z.of_nat k.
Proof. unfold zlen. by rewrite length_value_bits. Qed.

Lemma bits_value_value_bits k x : 0 ≤ x → bits_value (value_bits k x) = x mod 2 ^ Z.of_nat k.
Proof.
  intros Hx. induction k as [|k IH]; [by rewrite Z.mod_1_r|].
  cbn [value_bits]. rewrite bits_value_cons, zlen_value_bits, IH.
  rewrite Nat2Z.inj_succ, Z.pow_succ_r by lia.
  pose proof (Z.pow_pos_nonneg 2 (Z.of_nat k) ltac:(lia) ltac:(lia)) as Hp.
  rewrite (Z.mul_comm 2), Z.rem_mul_r by lia.
  assert (Z_of_bool (Z.testbit x (Z.of_nat k)) = (x / 2 ^ Z.of_nat k) mod 2) as ->; [|lia].
  rewrite <-Z.shiftr_div_pow2, <-Z.bit0_mod, Z.shiftr_spec by lia.
  rewrite Z.add_0_l. by destruct (Z.testbit _ _).
Qed.

(** The code of [v] in the standard: [k] zeroes, a one, [k] bits, where [v + 1]
    has [k + 1] bits. *)
Definition ue_width (v : Z) : nat := Z.to_nat (Z.log2 (v + 1)).
Definition ue_bits (v : Z) : list bool :=
  replicate (ue_width v) false ++ [true] ++ value_bits (ue_width v) (v + 1).

Lemma reads_count_zeroes k fuel acc :
  (k < fuel)%nat → 0 ≤ acc → acc + Z.of_nat k < 2 ^ 32 →
  reads (count_zeroes fuel acc) (replicate k false ++ [true]) (acc + Z.of_nat k).
Proof.
  revert fuel acc. induction k as [|k IH]; intros [|fuel] acc Hf Ha Hb; try lia;
    cbn [count_zeroes replicate app].
  - rewrite Z.add_0_r. eapply (reads_bind _ _ [true] []); [apply reads_bit|apply reads_ret].
  - eapply (reads_bind _ _ [false]); [apply reads_bit|]. cbv iota.
    unfold wrap32. rewrite Z.mod_small by lia.
    replace (acc + Z.of_nat (S k)) with (acc + 1 + Z.of_nat k) by lia.
    apply IH; lia.
Qed.

Lemma reads_exp_golomb_bits k bs :
  (k ≤ 31)%nat → length bs = k →
  reads read_exp_golomb (replicate k false ++ [true] ++ bs) (2 ^ Z.of_nat k - 1 + bits_value bs).
Proof.
  intros Hk Hl it rest Hok Hr. pose proof (bits_left_remaining it Hok) as Hb.
  rewrite Hr, !length_app, length_replicate in Hb. cbn in Hb.
  unfold read_exp_golomb. revert it rest Hok Hr Hb. 
  assert (∀ f, (k < f)%nat → reads
    (leading_zeroes ← count_zeroes f 0;
     if leading_zeroes =? 0 then st_ret 0
     else
     value ← read_bits (wrap8 leading_zeroes);
     st_ret (wrap32 (wrap32 (shl1_u32 leading_zeroes - 1) + value)))
    (replicate k false ++ [true] ++ bs) (2 ^ Z.of_nat k - 1 + bits_value bs)) as H.
  { intros f Hf. rewrite app_assoc. eapply reads_bind; [by apply reads_count_zeroes; lia|].
    rewrite Z.add_0_l. destruct (Z.eqb_spec (Z.of_nat k) 0) as [E|E].
    { assert (k = O) as -> by lia. destruct bs; [|done]. apply reads_ret. }
    assert (zlen bs = Z.of_nat k) as Hz by (unfold zlen; lia).
    unfold wrap8. rewrite Z.mod_small by lia. rewrite <-Hz at 1.
    eapply reads_bind_last; [apply reads_bits; lia|].
    unfold shl1_u32. rewrite (Z.mod_small (Z.of_nat k)), Z.shiftl_mul_pow2, Z.mul_1_l by lia.
    pose proof (bits_value_range bs) as Hv. rewrite Hz in Hv.
    assert (0 < 2 ^ Z.of_nat k) by (apply Z.pow_pos_nonneg; lia).
    assert (2 ^ Z.of_nat k ≤ 2 ^ 31) by (apply Z.pow_le_mono_r; lia).
    unfold wrap32. rewrite (Z.mod_small (2 ^ Z.of_nat k - 1)) by lia.
    rewrite Z.mod_small by lia. apply reads_ret. }
  intros it rest Hok Hr Hb. apply H; [lia|done|done].
Qed.

Lemma ue_width_bounds v : 0 ≤ v < 2 ^ 32 - 1 →
  (ue_width v ≤ 31)%nat ∧ 2 ^ Z.of_nat (ue_width v) ≤ v + 1 < 2 * 2 ^ Z.of_nat (ue_width v).
Proof.
  intros Hv. unfold ue_width. pose proof (Z.log2_nonneg (v + 1)).
  pose proof (Z.log2_spec (v + 1) ltac:(lia)) as Hs. rewrite Z.pow_succ_r in Hs by done.
  assert (Z.log2 (v + 1) < 32) by (apply Z.log2_lt_pow2; lia).
  rewrite Z2Nat.id by done. lia.
Qed.

Lemma reads_exp_golomb v : 0 ≤ v < 2 ^ 32 - 1 → reads read_exp_golomb (ue_bits v) v.
Proof.
  intros Hv. destruct (ue_width_bounds v Hv) as [Hw Hb]. unfold ue_bits.
  replace v with (2 ^ Z.of_nat (ue_width v) - 1 + bits_value (value_bits (ue_width v) (v + 1)))
    at 4.
  - apply reads_exp_golomb_bits; [done|apply length_value_bits].
  - rewrite bits_value_value_bits by lia. set (p := 2 ^ Z.of_nat (ue_width v)) in *.
    rewrite <-(Z_mod_plus_full (v + 1) (-1) p), Z.mod_small; lia.
Qed.

(** The signed mapping of the standard: 1, -1, 2, -2, ... for 1, 2, 3, 4, ... *)
Definition se_value (ue : Z) : Z := if ue mod 2 =? 0 then - (ue / 2) else (ue + 1) / 2.

Lemma reads_signed ue :
  0 ≤ ue < 2 ^ 31 - 1 → reads read_signed_exp_golomb (ue_bits ue) (- se_value ue).
Proof.
  intros Hu. unfold read_signed_exp_golomb. eapply reads_bind_last; [apply reads_exp_golomb; lia|].
  assert (0 ≤ (ue + 1) / 2 < 2 ^ 30 + 1) by dm_lia.
  assert (as_i32 (Z.shiftr (wrap32 (ue + 1)) 1) = (ue + 1) / 2) as E0.
  { unfold wrap32, as_i32. rewrite Z.mod_small, Z.shiftr_div_pow2 by lia.
    change (2 ^ 1) with 2. by rewrite (proj2 (Z.ltb_lt _ _)) by lia. }
  cbv zeta. rewrite E0.
  unfold se_value. destruct (Z.eqb_spec (ue mod 2) 0) as [E|E].
  - replace (- - (ue / 2)) with ((ue + 1) / 2) by dm_lia. apply reads_ret.
  - unfold wrap_i32, wrap32, as_i32.
    assert ((- ((ue + 1) / 2)) mod 2 ^ 32 = 2 ^ 32 - (ue + 1) / 2) as ->.
    { rewrite <-(Z_mod_plus_full _ 1), Z.mod_small; [lia|]. dm_lia. }
    rewrite (proj2 (Z.ltb_ge _ _)) by lia.
    replace (2 ^ 32 - (ue + 1) / 2 - 2 ^ 32) with (- ((ue + 1) / 2)) by lia. apply reads_ret.
Qed.

(** ** The syntax of a sequence parameter set

    Bit for bit what the standard (7.3.2.1.1) puts on the wire, without
    scaling matrices; signed codes are given by their code numbers. *)
Record HighSyntax := mkHigh {
  hs_chroma : Z; hs_separate_plane : bool; hs_luma : Z; hs_chroma_depth : Z; hs_bypass : bool;
}.
Inductive PocSyntax :=
  | Poc0 (log2_max_lsb : Z)
  | Poc1 (always_zero : bool) (non_ref top_to_bottom : Z) (ref_frames : list Z)
  | PocOther (ty : Z).
Record SpsSyntax := mkSyntax {
  sx_profile : Z; sx_constraint : Z; sx_level : Z; sx_id : Z;
  sx_high : option HighSyntax;
  sx_log2_frame_num : Z; sx_poc : PocSyntax; sx_refs : Z; sx_gaps : bool;
  sx_width : Z; sx_height : Z;
  sx_frame_mbs_only : bool; sx_mbaff : bool; sx_direct8x8 : bool;
  sx_crop : option FrameCropping;
}.

Definition high_bits (h : HighSyntax) : list bool :=
  ue_bits (hs_chroma h) ++ (if hs_chroma h =? 3 then [hs_separate_plane h] else [])
  ++ ue_bits (hs_luma h) ++ ue_bits (hs_chroma_depth h) ++ [hs_bypass h] ++ [false].

Definition poc_bits (p : PocSyntax) : list bool :=
  match p with
  | Poc0 n => ue_bits 0 ++ ue_bits n
  | Poc1 z a b refs =>
      ue_bits 1 ++ [z] ++ ue_bits a ++ ue_bits b ++ ue_bits (zlen refs) ++ flat_map ue_bits refs
  | PocOther t => ue_bits t
  end.

Definition crop_bits (c : option FrameCropping) : list bool :=
  match c with
  | Some c => [true] ++ ue_bits (left_offset c) ++ ue_bits (right_offset c)
              ++ ue_bits (top_offset c) ++ ue_bits (bottom_offset c)
  | None => [false]
  end.

Definition sps_bits (s : SpsSyntax) : list bool :=
  value_bits 8 (sx_profile s) ++ value_bits 8 (sx_constraint s) ++ value_bits 8 (sx_level s)
  ++ ue_bits (sx_id s)
  ++ (match sx_high s with Some h => high_bits h | None => [] end)
  ++ ue_bits (sx_log2_frame_num s) ++ poc_bits (sx_poc s) ++ ue_bits (sx_refs s)
  ++ [sx_gaps s] ++ ue_bits (sx_width s) ++ ue_bits (sx_height s)
  ++ [sx_frame_mbs_only s] ++ (if sx_frame_mbs_only s then [] else [sx_mbaff s])
  ++ [sx_direct8x8 s] ++ crop_bits (sx_crop s).

Definition params_of (s : SpsSyntax) : SpsParams :=
  mkSps (sx_profile s) [sx_constraint s; 0; 0] (sx_level s) (sx_id s)
    (match sx_high s with Some h => hs_chroma h | None => 1 end)
    (sx_width s) (sx_height s)
    (match sx_crop s with Some _ => true | None => false end) (sx_crop s).

Definition is_ue (v : Z) : Prop := 0 ≤ v < 2 ^ 31 - 1.
Definition high_ok (h : HighSyntax) : Prop :=
  is_ue (hs_chroma h) ∧ is_ue (hs_luma h) ∧ is_ue (hs_chroma_depth h).
Definition poc_ok (p : PocSyntax) : Prop :=
  match p with
  | Poc0 n => is_ue n
  | Poc1 _ a b refs => is_ue a ∧ is_ue b ∧ Forall is_ue refs ∧ is_ue (zlen refs)
  | PocOther t => 2 ≤ t < 2 ^ 31 - 1
  end.
Definition crop_ok (c : option FrameCropping) : Prop :=
  match c with
  | Some c => is_ue (left_offset c) ∧ is_ue (right_offset c)
              ∧ is_ue (top_offset c) ∧ is_ue (bottom_offset c)
  | None => True
  end.
(** The profiles whose sets carry the chroma format in the standard (edition
    of 2014 and later), and the ones of them that [high_profile] lacks. *)
Definition standard_high (p : Z) : bool :=
  existsb (Z.eqb p) [100; 110; 122; 244; 44; 83; 86; 118; 128; 138; 139; 134; 135].
Definition missed_profiles : list Z := [138; 139; 134; 135].

Record syntax_ok (s : SpsSyntax) : Prop := {
  sk_bytes : is_byte (sx_profile s) ∧ is_byte (sx_constraint s) ∧ is_byte (sx_level s);
  sk_ues : is_ue (sx_id s) ∧ is_ue (sx_log2_frame_num s) ∧ is_ue (sx_refs s)
           ∧ is_ue (sx_width s) ∧ is_ue (sx_height s);
  sk_high : match sx_high s with Some h => high_ok h | None => True end
            ∧ standard_high (sx_profile s) = bool_decide (is_Some (sx_high s));
  sk_poc : poc_ok (sx_poc s);
  sk_crop : crop_ok (sx_crop s);
}.

Lemma reads_ue v : is_ue v → reads read_exp_golomb (ue_bits v) v.
Proof. unfold is_ue. intros. apply reads_exp_golomb. lia. Qed.

Lemma reads_byte b : is_byte b → reads (read_bits 8) (value_bits 8 b) b.
Proof.
  intros Hb. pose proof (reads_bits (value_bits 8 b)) as H.
  rewrite zlen_value_bits, bits_value_value_bits in H by (unfold is_byte in Hb; lia).
  rewrite Z.mod_small in H by exact Hb. by apply H.
Qed.

(** One step of a reader: the next bits are a code, a byte or a flag. *)
Ltac reads_step :=
  match goal with
  | |- reads (mbind _ read_exp_golomb) (ue_bits _ ++ _) _ =>
      eapply reads_bind; [by apply reads_ue|]
  | |- reads (mbind _ read_exp_golomb) (ue_bits _) _ =>
      eapply reads_bind_last; [by apply reads_ue|]
  | |- reads (mbind _ (read_bits 8)) (value_bits 8 _ ++ _) _ =>
      eapply reads_bind; [by apply reads_byte|]
  | |- reads (mbind _ read_bit) ([_] ++ _) _ => eapply reads_bind; [apply reads_bit|]
  | |- reads (mbind _ read_bit) [_] _ => eapply reads_bind_last; [apply reads_bit|]
  | |- reads (st_ret _) [] _ => apply reads_ret
  end; cbv beta iota zeta.

Lemma reads_skip_signed refs fuel :
  Forall is_ue refs → (length refs < fuel)%nat →
  reads (skip_signed fuel (zlen refs)) (flat_map ue_bits refs) tt.
Proof.
  revert fuel. induction refs as [|r refs IH]; intros [|fuel] Hr Hf; cbn [length] in Hf; try lia;
    cbn [skip_signed flat_map]; [apply reads_ret|].
  apply Forall_cons in Hr as [Hr Hrs]. rewrite zlen_cons.
  rewrite (proj2 (Z.eqb_neq _ _)) by (zlen_facts; lia).
  eapply reads_bind; [by apply reads_signed|].
  replace (1 + zlen refs - 1) with (zlen refs) by lia. apply IH; [done|lia].
Qed.

Lemma length_ue_bits v : (1 ≤ length (ue_bits v))%nat.
Proof. unfold ue_bits. rewrite !length_app. cbn. lia. Qed.

Lemma reads_skip_ref_frames refs :
  Forall is_ue refs → reads (skip_ref_frames (zlen refs)) (flat_map ue_bits refs) tt.
Proof.
  intros Hr it rest Hok Hrem. unfold skip_ref_frames.
  apply reads_skip_signed; [done| |done|done].
  rewrite (bits_left_remaining it Hok), Hrem, length_app.
  assert (length refs ≤ length (flat_map ue_bits refs))%nat; [|lia].
  clear. induction refs as [|r refs IH]; [done|]. cbn [flat_map length].
  rewrite length_app. pose proof (length_ue_bits r). lia.
Qed.

Lemma reads_poc p : poc_ok p → reads read_poc (poc_bits p) tt.
Proof.
  unfold read_poc. destruct p as [n|z a b refs|t]; cbn [poc_ok poc_bits].
  - intros Hn. eapply reads_bind; [by apply reads_ue|]. cbn [Z.eqb]. repeat reads_step.
  - intros (Ha & Hb & Hr & Hl). eapply reads_bind; [by apply reads_ue|]. cbn [Z.eqb Pos.eqb].
    reads_step. eapply reads_bind; [by apply reads_signed|].
    eapply reads_bind; [by apply reads_signed|]. reads_step. by apply reads_skip_ref_frames.
  - intros Ht. eapply reads_bind_last; [apply reads_ue; unfold is_ue; lia|].
    rewrite !(proj2 (Z.eqb_neq t _)) by lia. apply reads_ret.
Qed.

Lemma reads_high h : high_ok h → reads read_high (high_bits h) (hs_chroma h).
Proof.
  intros (Hc & Hl & Hd). unfold read_high, high_bits. reads_step.
  eapply (reads_bind _ _ _ _ tt).
  { destruct (hs_chroma h =? 3); repeat reads_step. }
  repeat reads_step. eapply reads_bind_nil; [apply reads_ret|]. apply reads_ret.
Qed.

Lemma reads_crop c : crop_ok c → reads read_cropping (crop_bits c) c.
Proof.
  unfold read_cropping. destruct c as [[l r t b]|]; cbn [crop_ok crop_bits left_offset
    right_offset top_offset bottom_offset].
  - intros (Hl & Hr & Ht & Hb). repeat reads_step.
  - intros _. repeat reads_step.
Qed.

Lemma high_profile_standard p : p ∉ missed_profiles → high_profile p = standard_high p.
Proof.
  intros Hp. assert (standard_high p = high_profile p || existsb (Z.eqb p) missed_profiles) as ->.
  { unfold standard_high, high_profile. by rewrite <-existsb_app. }
  destruct (existsb (Z.eqb p) missed_profiles) eqn:E; [|by rewrite orb_false_r].
  apply existsb_exists in E as (q & Hq & Heq). apply Z.eqb_eq in Heq as <-. destruct Hp. by apply list_elem_of_In.
Qed.

Lemma reads_sps s : syntax_ok s → sx_profile s ∉ missed_profiles → reads sps_body (sps_bits s) (params_of s).
Proof.
  intros [(Hp & Hc & Hl) (Hi & Hf & Hr & Hw & Hh) [Hhigh Hprof] Hpoc Hcrop] Hm.
  rewrite <-(high_profile_standard _ Hm) in Hprof.
  unfold sps_body, sps_bits. do 4 reads_step.
  eapply (reads_bind _ _ _ _ (match sx_high s with Some h => hs_chroma h | None => 1 end)).
  { rewrite Hprof. destruct (sx_high s) as [h|].
    - rewrite bool_decide_eq_true_2 by done. by apply reads_high.
    - rewrite bool_decide_eq_false_2 by (by intros []). apply reads_ret. }
  reads_step. eapply reads_bind; [by apply reads_poc|].
  do 5 reads_step. eapply (reads_bind _ _ _ _ tt).
  { destruct (sx_frame_mbs_only s); cbn [negb]; repeat reads_step. }
  reads_step. eapply reads_bind_last; [by apply reads_crop|]. apply reads_ret.
Qed.

Lemma bits_new_ok l : iter_ok (bits_new l).
Proof. split; cbn; zlen_facts; lia. Qed.

Lemma remaining_new l : remaining (bits_new l) = bits_of l.
Proof. done. Qed.

(** ** Safety of the bit reader *)

(** At most [n] bits are left. *)
Definition upto (n : nat) (it : BitIter) : Prop := iter_ok it ∧ (length (remaining it) ≤ n)%nat.

Definition anything {A} : A → Prop := λ _, True.

Lemma read_bit_run it n :
  iter_ok it → (length (remaining it) ≤ n)%nat →
  (∃ e, read_bit it = (Err e, it) ∧ remaining it = []) ∨
  (∃ b it' m, n = S m ∧ read_bit it = (Ok b, it') ∧ upto m it').
Proof.
  intros Hok Hn. pose proof (read_bit_spec it Hok) as H.
  destruct (remaining it) as [|b rest] eqn:E; [left; by eexists|right].
  destruct H as (it' & E' & Hok' & Hr'). cbn in Hn. destruct n as [|m]; [lia|].
  exists b, it', m. split_and!; try done. split; [done|]. rewrite Hr'. lia.
Qed.

Lemma upto_weaken n m it : (n ≤ m)%nat → upto n it → upto m it.
Proof. intros ? []. split; [done|lia]. Qed.

Lemma read_bit_post n : st_post (upto n) anything read_bit.
Proof.
  intros it [Hok Hn].
  destruct (read_bit_run it n Hok Hn) as [(e & -> & _)|(b & it' & m & -> & -> & Hm)].
  - by split.
  - split; [done|]. eapply upto_weaken, Hm. lia.
Qed.

Lemma read_bits_loop_post n k r : st_post (upto n) anything (read_bits_loop k r).
Proof.
  revert r. induction k as [|k IH]; intros r; cbn [read_bits_loop]; [by apply st_post_ret|].
  eapply st_post_bind; [apply read_bit_post|]. intros b _. apply IH.
Qed.

Lemma read_bits_post n k : st_post (upto n) anything (read_bits k).
Proof.
  unfold read_bits. destruct (32 <? k); [apply st_post_fail|]. apply read_bits_loop_post.
Qed.

(** The zero-counting loop: with more fuel than bits left it returns, and a
    one costs a bit. *)
Lemma count_zeroes_run fuel n acc it :
  upto n it → (n < fuel)%nat →
  post (λ _, ∃ m, (m < n)%nat ∧ upto m (count_zeroes fuel acc it).2) (count_zeroes fuel acc it).1
  ∧ upto n (count_zeroes fuel acc it).2.
Proof.
  revert n acc it. induction fuel as [|fuel IH]; intros n acc it [Hok Hn] Hf; [lia|].
  cbn [count_zeroes].
  destruct (read_bit_run it n Hok Hn) as [(e & E & _)|(b & it' & m & -> & E & Hm)].
  - rewrite (st_bind_err _ _ _ _ _ E). by split.
  - rewrite (st_bind_ok _ _ _ _ _ E). destruct b.
    + cbn. split; [exists m; split; [lia|done]|]. eapply upto_weaken, Hm. lia.
    + destruct (IH m (wrap32 (acc + 1)) it' Hm ltac:(lia)) as [Hp Hu].
      split; [|eapply upto_weaken, Hu; lia]. eapply post_mono; [|exact Hp].
      intros _ (m' & Hm' & Hu'). exists m'. split; [lia|done].
Qed.

Lemma st_post_run {S A} (I : S → Prop) (Q : A → Prop) (m : ST S A) s :
  st_post I Q m → I s → post Q (m s).1 ∧ I (m s).2.
Proof. auto. Qed.

Lemma read_exp_golomb_run it n :
  upto n it →
  post (λ _, ∃ m, (m < n)%nat ∧ upto m (read_exp_golomb it).2) (read_exp_golomb it).1
  ∧ upto n (read_exp_golomb it).2.
Proof.
  intros [Hok Hn]. unfold read_exp_golomb.
  pose proof (count_zeroes_run (S (bits_left it)) (length (remaining it)) 0 it) as H.
  destruct H as [Hp Hu]; [by split|by rewrite (bits_left_remaining it Hok); lia|].
  destruct (count_zeroes (S (bits_left it)) 0 it) as [[lz|e| |] it1] eqn:E; cbn in Hp, Hu;
    try done.
  2: { rewrite (st_bind_err _ _ _ _ _ E). split; [done|]. by eapply upto_weaken, Hu. }
  rewrite (st_bind_ok _ _ _ _ _ E). destruct Hp as (m & Hm & Hu1).
  assert (st_post (upto m) anything
    (if lz =? 0 then st_ret 0
     else value ← read_bits (wrap8 lz);
          st_ret (wrap32 (wrap32 (shl1_u32 lz - 1) + value)))) as Hrest.
  { destruct (lz =? 0); [by apply st_post_ret|].
    eapply st_post_bind; [apply read_bits_post|intros v _]. by apply st_post_ret. }
  destruct (Hrest it1 Hu1) as [Hq Hu2].
  split; [|eapply upto_weaken, Hu2; lia].
  eapply post_mono; [|exact Hq]. intros _ _. exists m. split; [lia|exact Hu2].
Qed.

Lemma read_exp_golomb_post n : st_post (upto n) anything read_exp_golomb.
Proof.
  intros it Hit. destruct (read_exp_golomb_run it n Hit) as [Hp Hu]. split; [|done].
  eapply post_mono; [|exact Hp]. done.
Qed.

Lemma read_signed_run it n :
  upto n it →
  post (λ _, ∃ m, (m < n)%nat ∧ upto m (read_signed_exp_golomb it).2) (read_signed_exp_golomb it).1
  ∧ upto n (read_signed_exp_golomb it).2.
Proof.
  intros Hit. destruct (read_exp_golomb_run it n Hit) as [Hp Hu].
  unfold read_signed_exp_golomb, mbind, ST_bind.
  destruct (read_exp_golomb it) as [[]]; by split.
Qed.

Lemma read_signed_post n : st_post (upto n) anything read_signed_exp_golomb.
Proof.
  intros it Hit. destruct (read_signed_run it n Hit) as [Hp Hu]. split; [|done].
  eapply post_mono; [|exact Hp]. done.
Qed.

Lemma skip_signed_run fuel n num it :
  upto n it → (n < fuel)%nat →
  post anything (skip_signed fuel num it).1 ∧ upto n (skip_signed fuel num it).2.
Proof.
  revert n num it. induction fuel as [|fuel IH]; intros n num it Hit Hf; [lia|].
  cbn [skip_signed]. destruct (num =? 0); [by split|].
  destruct (read_signed_run it n Hit) as [Hp Hu]. unfold mbind, ST_bind.
  destruct (read_signed_exp_golomb it) as [[v|e| |] it']; cbn in Hp, Hu; try done.
  destruct Hp as (m & Hm & Hum). destruct (IH m (num - 1) it' Hum) as [Hp Hu']; [lia|].
  split; [done|]. eapply upto_weaken, Hu'. lia.
Qed.

Lemma skip_ref_frames_post n num : st_post (upto n) anything (skip_ref_frames num).
Proof.
  intros it [Hok Hn]. unfold skip_ref_frames.
  destruct (skip_signed_run (S (bits_left it)) (length (remaining it)) num it) as [Hp Hu];
    [by split|by rewrite (bits_left_remaining it Hok); lia|].
  split; [done|]. by eapply upto_weaken, Hu.
Qed.

(** A computation built from the reader's methods is safe. *)
Ltac bits_safe :=
  repeat match goal with
  | |- st_post _ _ (mbind _ _) => eapply (st_post_bind _ anything); [|intros ? _]
  | |- st_post _ _ (st_ret _) => by apply st_post_ret
  | |- st_post _ _ (if ?b then _ else _) => destruct b
  | |- st_post _ _ read_bit => apply read_bit_post
  | |- st_post _ _ (read_bits _) => apply read_bits_post
  | |- st_post _ _ read_exp_golomb => apply read_exp_golomb_post
  | |- st_post _ _ read_signed_exp_golomb => apply read_signed_post
  | |- st_post _ _ (skip_ref_frames _) => apply skip_ref_frames_post
  end.

Lemma scaling_loop_post n k l x : st_post (upto n) anything (scaling_loop k l x).
Proof.
  revert l x. induction k as [|k IH]; intros l x; cbn [scaling_loop]; [bits_safe|].
  bits_safe; apply IH.
Qed.

Lemma scaling_lists_post n k i : st_post (upto n) anything (scaling_lists k i).
Proof.
  revert i. induction k as [|k IH]; intros i; cbn [scaling_lists]; [bits_safe|].
  bits_safe; [apply scaling_loop_post|apply IH..].
Qed.

Lemma sps_body_post n : st_post (upto n) anything sps_body.
Proof.
  unfold sps_body, read_high, read_poc, read_cropping.
  bits_safe; apply scaling_lists_post.
Qed.

Lemma pps_body_post n : st_post (upto n) anything pps_body.
Proof. unfold pps_body. bits_safe. Qed.

Lemma parse_nal_header_post d :
  bytes_ok d → post (λ '(h, rest), bytes_ok rest ∧ d ≠ []) (parse_nal_header d).
Proof.
  intros Hd. unfold parse_nal_header. destruct d as [|b d]; [done|].
  rewrite (proj2 (Z.eqb_neq _ _)) by (rewrite zlen_cons; zlen_facts; lia).
  change (at_ (b :: d) 0) with (Ok b). cbn [mbind Res_bind].
  destruct (negb _); [done|].
  eapply (post_bind (λ _, True)).
  { unfold NalUnitType_try_from. repeat case_match; done. }
  intros ty _. assert (slice_from (b :: d) 1 = Ok d) as -> by by apply (slice_from_app' [b] d 1).
  cbn. split; [|done].
  by apply bytes_ok_cons in Hd as [].
Qed.

Lemma parse_set_safe {A} (m : ST BitIter A) d :
  (∀ n, st_post (upto n) anything m) → safe (m (bits_new d)).1.
Proof.
  intros Hm. destruct (Hm (length (remaining (bits_new d))) (bits_new d)) as [Hp _].
  - split; [apply bits_new_ok|done].
  - by eapply post_safe.
Qed.

(** ** Byte streams *)

(** The Annex B form: each NAL unit behind a four-byte start code. *)
Definition start_code : bytes := [0; 0; 0; 1].
Definition annexb (nals : list bytes) : bytes := flat_map (λ n, start_code ++ n) nals.

(** No start code inside: what emulation prevention guarantees of a NAL unit. *)
Fixpoint no_code (n : bytes) : bool :=
  match n with
  | b0 :: ((b1 :: b2 :: _) as tl) =>
      negb ((b0 =? 0) && (b1 =? 0) && (b2 =? 1)) && no_code tl
  | _ => true
  end.

(** The scan of a stream that starts inside a NAL unit. *)
Fixpoint code_positions (p : Z) (nals : list bytes) : list (Z * Z) :=
  match nals with
  | [] => []
  | n :: nals => (p, p + 4) :: code_positions (p + 4 + zlen n) nals
  end.

Lemma find_loop_unfold fuel pre b0 b1 b2 b3 tl :
  find_loop (S fuel) (pre ++ b0 :: b1 :: b2 :: b3 :: tl) (zlen pre)
  = (let d := pre ++ b0 :: b1 :: b2 :: b3 :: tl in
     if (b0 =? 0) && (b1 =? 0) && (b2 =? 0) && (b3 =? 1) then
       more ← find_loop fuel d (zlen pre + 4); Ok ((zlen pre, zlen pre + 4) :: more)
     else if (b0 =? 0) && (b1 =? 0) && (b2 =? 1) then
       more ← find_loop fuel d (zlen pre + 3); Ok ((zlen pre, zlen pre + 3) :: more)
     else find_loop fuel d (zlen pre + 1)).
Proof.
  cbn [find_loop]. rewrite zlen_app, !zlen_cons.
  rewrite (proj2 (Z.ltb_lt _ _)) by (zlen_facts; lia).
  rewrite at_app_here, !at_app_add by lia. done.
Qed.

Lemma find_loop_short fuel d i : zlen d ≤ i + 3 → find_loop (S fuel) d i = Ok [].
Proof. intros. cbn [find_loop]. by rewrite (proj2 (Z.ltb_ge _ _)). Qed.

(** A byte that starts no code is skipped. *)
Lemma no_code_head b0 b1 b2 tl :
  no_code (b0 :: b1 :: b2 :: tl) = true →
  (b0 =? 0) && (b1 =? 0) && (b2 =? 1) = false ∧ no_code (b1 :: b2 :: tl) = true.
Proof. cbn [no_code]. intros [H1 H2]%andb_true_iff. by apply negb_true_iff in H1. Qed.

Lemma no_code_window b0 n nals b1 b2 b3 tl :
  no_code (b0 :: n) = true → n ++ annexb nals = b1 :: b2 :: b3 :: tl →
  (b0 =? 0) && (b1 =? 0) && (b2 =? 0) && (b3 =? 1) = false ∧
  (b0 =? 0) && (b1 =? 0) && (b2 =? 1) = false.
Proof.
  intros Hn E. destruct n as [|x [|y [|z n]]].
  1-2: destruct nals as [|m nals]; [done|]; cbn in E; injection E as <- <- <- <-;
       by rewrite !andb_false_r.
  - apply no_code_head in Hn as [Hn _]. destruct nals as [|m nals]; [done|].
    cbn in E. injection E as <- <- <- <-. by rewrite !andb_false_r.
  - pose proof Hn as Hn'. apply no_code_head in Hn as [Hn Hm]. apply no_code_head in Hm as [Hm _].
    cbn in E. injection E as <- <- <- <-. split; [|done].
    rewrite <-!andb_assoc in *. destruct (b0 =? 0); [|done]. cbn [andb].
    by rewrite andb_assoc in Hm |- *.
Qed.

Lemma find_loop_unit fuel pre n nals :
  no_code n = true → (length (n ++ annexb nals) < fuel)%nat →
  (∀ fuel' pre', (length (annexb nals) < fuel')%nat →
     find_loop fuel' (pre' ++ annexb nals) (zlen pre')
     = Ok (code_positions (zlen pre') nals)) →
  find_loop fuel (pre ++ n ++ annexb nals) (zlen pre)
  = Ok (code_positions (zlen (pre ++ n)) nals).
Proof.
  revert fuel pre. induction n as [|b0 n IH]; intros fuel pre Hn Hf Hnals.
  { rewrite app_nil_r. by apply Hnals. }
  destruct fuel as [|fuel]; [lia|].
  assert (find_loop fuel ((pre ++ [b0]) ++ n ++ annexb nals) (zlen (pre ++ [b0]))
          = Ok (code_positions (zlen (pre ++ b0 :: n)) nals)) as Hskip.
  { replace (pre ++ b0 :: n) with ((pre ++ [b0]) ++ n) by by rewrite <-app_assoc.
    apply IH; [|cbn in Hf; lia|done].
    destruct n as [|b1 [|b2 n]]; [done|done|]. by apply no_code_head in Hn as []. }
  rewrite zlen_app in Hskip. change (zlen [b0]) with 1 in Hskip.
  rewrite <-app_assoc in Hskip. change ([b0] ++ n ++ annexb nals) with (b0 :: n ++ annexb nals) in Hskip.
  change ((b0 :: n) ++ annexb nals) with (b0 :: n ++ annexb nals).
  destruct (n ++ annexb nals) as [|b1 [|b2 [|b3 tl]]] eqn:E.
  1-3: assert (nals = []) as -> by (destruct nals; [done|]; apply (f_equal length) in E;
         rewrite length_app in E; cbn in E; lia);
       apply find_loop_short; rewrite zlen_app, !zlen_cons; change (zlen []) with 0; lia.
  rewrite find_loop_unfold. destruct (no_code_window b0 n nals b1 b2 b3 tl Hn E) as [-> ->].
  exact Hskip.
Qed.

Lemma find_loop_annexb nals fuel pre :
  Forall (λ n, no_code n = true) nals → (length (annexb nals) < fuel)%nat →
  find_loop fuel (pre ++ annexb nals) (zlen pre) = Ok (code_positions (zlen pre) nals).
Proof.
  revert fuel pre. induction nals as [|n nals IH]; intros fuel pre Hn Hf.
  - destruct fuel as [|fuel]; [lia|]. apply find_loop_short. rewrite app_nil_r. lia.
  - apply Forall_cons in Hn as [Hn Hns]. destruct fuel as [|fuel]; [lia|].
    change (annexb (n :: nals)) with (0 :: 0 :: 0 :: 1 :: n ++ annexb nals) in *.
    rewrite find_loop_unfold. cbn [Z.eqb Pos.eqb andb].
    pose proof (find_loop_unit fuel (pre ++ start_code) n nals Hn) as H.
    rewrite <-app_assoc in H. change (start_code ++ n ++ annexb nals)
      with (0 :: 0 :: 0 :: 1 :: n ++ annexb nals) in H.
    rewrite zlen_app in H. change (zlen start_code) with 4 in H. cbv zeta.
    rewrite H; [|cbn in Hf; lia|intros; by apply IH].
    cbn [mbind Res_bind code_positions]. do 3 f_equal. rewrite !zlen_app. done.
Qed.

Lemma units_between_annexb nals pre :
  Forall (λ n, n ≠ []) nals →
  units_between (pre ++ annexb nals) (code_positions (zlen pre) nals) = Ok nals.
Proof.
  revert pre. induction nals as [|n nals IH]; intros pre Hn; [done|].
  apply Forall_cons in Hn as [Hn Hns]. cbn [code_positions units_between].
  change (annexb (n :: nals)) with (start_code ++ n ++ annexb nals).
  set (d := pre ++ _).
  assert (0 < zlen n) by (destruct n; [done|rewrite zlen_cons; zlen_facts; lia]).
  assert (zlen pre + 4 = zlen (pre ++ start_code)) as Hp by (by rewrite zlen_app).
  assert ((match code_positions (zlen pre + 4 + zlen n) nals with
           | [] => zlen d | (next, _) :: _ => next end) = zlen (pre ++ start_code) + zlen n) as ->.
  { destruct nals; cbn [code_positions]; [|lia].
    unfold d. rewrite app_nil_r, !zlen_app. lia. }
  rewrite Hp, (proj2 (Z.ltb_lt _ _)) by lia.
  assert (slice d (zlen (pre ++ start_code)) (zlen (pre ++ start_code) + zlen n) = Ok n) as ->.
  { unfold d. rewrite app_assoc. by apply slice_app_mid. }
  cbn [mbind Res_bind].
  assert (d = ((pre ++ start_code) ++ n) ++ annexb nals) as ->
    by (unfold d; by rewrite <-!app_assoc).
  rewrite <-zlen_app, IH by done. done.
Qed.

Lemma find_start_codes_annexb nals :
  Forall (λ n, no_code n = true) nals →
  find_start_codes (annexb nals) = Ok (code_positions 0 nals).
Proof. intros H. apply (find_loop_annexb nals _ []); [done|lia]. Qed.

Lemma split_annexb nals :
  Forall (λ n, n ≠ []) nals → Forall (λ n, no_code n = true) nals →
  split_nal_units (annexb nals) = Ok nals.
Proof.
  intros Hne Hnc. unfold split_nal_units. rewrite find_start_codes_annexb by done.
  cbn [mbind Res_bind]. destruct nals as [|n nals]; [done|].
  apply (units_between_annexb (n :: nals) []). done.
Qed.

(** The AVCC form. *)
Definition avcc (nals : list bytes) : bytes := flat_map (λ n, to_be 4 (zlen n) ++ n) nals.

Lemma avcc_loop_spec nals pre fuel :
  Forall (λ n, 0 < zlen n < 2 ^ 32) nals → (length (avcc nals) < fuel)%nat →
  avcc_loop fuel (pre ++ avcc nals) (zlen pre) = Ok nals.
Proof.
  revert pre fuel. induction nals as [|n nals IH]; intros pre fuel Hn Hf;
    (destruct fuel as [|fuel]; [lia|]); cbn [avcc_loop].
  - rewrite zlen_app. change (zlen (avcc [])) with 0. by rewrite (proj2 (Z.leb_gt _ _)) by lia.
  - apply Forall_cons in Hn as [Hn Hns].
    change (avcc (n :: nals)) with ((to_be 4 (zlen n) ++ n) ++ avcc nals) in *.
    rewrite <-app_assoc in *. set (all := pre ++ _).
    assert (zlen all = zlen pre + 4 + zlen n + zlen (avcc nals)) as Hl
      by (unfold all; rewrite !zlen_app, zlen_to_be; lia).
    pose proof (zlen_nonneg (avcc nals)).
    rewrite (proj2 (Z.leb_le _ _)) by lia.
    assert (be_at 4 all (zlen pre) = Ok (zlen n)) as ->
      by (apply (be_at_to_be 4 (zlen n) pre); [lia|done]).
    cbn [mbind Res_bind].
    rewrite (proj2 (Z.eqb_neq _ _)), (proj2 (Z.ltb_ge _ _)) by lia.
    assert (slice all (zlen pre + 4) (zlen pre + 4 + zlen n) = Ok n) as ->.
    { unfold all. rewrite app_assoc. apply slice_app_mid; rewrite zlen_app, zlen_to_be; lia. }
    cbn [mbind Res_bind]. unfold all. rewrite !app_assoc.
    replace (zlen pre + 4 + zlen n) with (zlen ((pre ++ to_be 4 (zlen n)) ++ n))
      by (rewrite !zlen_app, zlen_to_be; lia).
    rewrite IH; [done|done|]. rewrite !length_app, length_to_be in Hf. lia.
Qed.

(** ** Properties *)

(** Exp-Golomb: the code that the standard assigns to a value is read back as
    that value, wherever it stands in the bit string, and exactly its bits
    are consumed. *)
Theorem read_exp_golomb_code v it rest :
  0 ≤ v < 2 ^ 32 - 1 → iter_ok it → remaining it = ue_bits v ++ rest →
  ∃ it', read_exp_golomb it = (Ok v, it') ∧ iter_ok it' ∧ remaining it' = rest.
Proof. intros Hv Hok Hr. by apply (reads_exp_golomb v). Qed.

Lemma read_exp_golomb_code_witness :
  remaining (mkBits [0xE4] 0 3) = ue_bits 3 ++ [] ∧
  ∃ it', read_exp_golomb (mkBits [0xE4] 0 3) = (Ok 3, it') ∧ iter_ok it' ∧ remaining it' = [].
Proof.
  split; [reflexivity|]. apply read_exp_golomb_code; [lia| |reflexivity].
  split; unfold zlen; cbn; lia.
Defined.

(** Signed Exp-Golomb: the sign is inverted.  The standard maps the code
    numbers 1, 2, 3, 4, ... to 1, -1, 2, -2, ...; the reader returns the
    negated value for every code number. *)
Theorem read_signed_inverted ue it rest :
  0 ≤ ue < 2 ^ 31 - 1 → iter_ok it → remaining it = ue_bits ue ++ rest →
  ∃ it', read_signed_exp_golomb it = (Ok (- se_value ue), it') ∧ iter_ok it' ∧
         remaining it' = rest.
Proof. intros Hv Hok Hr. by apply (reads_signed ue). Qed.

Lemma read_signed_inverted_witness :
  se_value 1 = 1 ∧
  ∃ it', read_signed_exp_golomb (bits_new [0x40]) = (Ok (- se_value 1), it') ∧ iter_ok it' ∧
         remaining it' = [false; false; false; false; false].
Proof.
  split; [reflexivity|]. apply read_signed_inverted; [lia|apply bits_new_ok|reflexivity].
Defined.

(** C35 Sequence parameter sets: on the bit string of any set in the syntax of
    the standard (any picture order count type and cropping, codes below
    2^31 - 1, no scaling matrices) whose profile is none of the four that the
    list of profiles with a chroma format lacks (138, 139, 134, 135, the
    multiview and depth profiles added last), whatever follows it, [parse_sps]
    returns exactly the parameters that were encoded. *)
Theorem parse_sps_correct s nri body tail :
  syntax_ok s → sx_profile s ∉ missed_profiles → 0 ≤ nri < 4 → bits_of body = sps_bits s ++ tail →
  parse_sps (nri * 32 + 7 :: body) = Ok (params_of s).
Proof.
  intros Hs Hm Hnri Hb. unfold parse_sps.
  assert (parse_nal_header (nri * 32 + 7 :: body) = Ok (mkNalHeader 0 nri Sps, body)) as ->.
  { unfold parse_nal_header. rewrite zlen_cons.
    rewrite (proj2 (Z.eqb_neq _ _)) by (zlen_facts; lia).
    change (at_ (?b :: body) 0) with (Ok b). cbn [mbind Res_bind].
    assert (Z.land (Z.shiftr (nri * 32 + 7) 7) 1 = 0) as -> by by_enum nri 0 4.
    assert (Z.land (Z.shiftr (nri * 32 + 7) 5) 3 = nri) as -> by by_enum nri 0 4.
    assert (Z.land (nri * 32 + 7) 31 = 7) as -> by by_enum nri 0 4.
    assert (slice_from (nri * 32 + 7 :: body) 1 = Ok body) as -> by by apply (slice_from_app' [_]).
    done. }
  cbn [mbind Res_bind nal_unit_type]. rewrite bool_decide_eq_true_2 by done. cbn [negb].
  destruct (reads_sps s Hs Hm (bits_new body) tail) as (it' & E & _);
    [apply bits_new_ok|done|]. by rewrite E.
Qed.

(** Baseline profile, 640x480: level 3.0, one reference frame. *)
Definition sample_sps : SpsSyntax :=
  mkSyntax 66 0xC0 30 0 None 0 (PocOther 2) 1 false 39 29 true false true None.
Definition sample_body : bytes := [66; 0xC0; 30; 0xDA; 2; 0x80; 0xF6; 0x40].

Lemma parse_sps_correct_witness :
  bits_of sample_body = sps_bits sample_sps ++ drop (length (sps_bits sample_sps)) (bits_of sample_body)
  ∧ parse_sps (3 * 32 + 7 :: sample_body) = Ok (params_of sample_sps)
  ∧ (width (params_of sample_sps), height (params_of sample_sps)) = (640, 480).
Proof.
  assert (bits_of sample_body
    = sps_bits sample_sps ++ drop (length (sps_bits sample_sps)) (bits_of sample_body)) as H
    by (vm_compute; reflexivity).
  split; [exact H|]. split; [|vm_compute; reflexivity].
  refine (parse_sps_correct sample_sps 3 sample_body _ _ _ _ H); [| |lia].
  - split; unfold is_byte, is_ue; cbn; repeat split; try lia.
  - apply (bool_decide_unpack (66 ∉ missed_profiles)). vm_compute. exact I.
Defined.

(** The same picture with a profile of the list that the code lacks: the
    dimensions are not those of the set. *)
Definition depth_sps : SpsSyntax :=
  mkSyntax 138 0xC0 30 0 (Some (mkHigh 1 false 0 0 false)) 0 (PocOther 2) 1 false 39 29 true false true None.
Definition depth_body : bytes := [138; 0xC0; 30; 0xAC; 0xB4; 5; 1; 0xEC; 0x80].
Lemma missed_profile_misread :
  bits_of depth_body = sps_bits depth_sps ++ drop (length (sps_bits depth_sps)) (bits_of depth_body)
  ∧ (width (params_of depth_sps), height (params_of depth_sps)) = (640, 480)
  ∧ parse_sps (3 * 32 + 7 :: depth_body) ≠ Ok (params_of depth_sps).
Proof. vm_compute. split; [reflexivity|]. split; [reflexivity | discriminate]. Qed.

(** C39 Parameter sets from the network: for every byte string [parse_sps] and
    [parse_pps] return (the Exp-Golomb and reference-frame loops end with the
    data) and never read out of bounds. *)
Theorem parse_parameter_sets_safe d :
  bytes_ok d → safe (parse_sps d) ∧ safe (parse_pps d).
Proof.
  intros Hd. pose proof (parse_nal_header_post d Hd) as Hh. unfold parse_sps, parse_pps.
  destruct (parse_nal_header d) as [[h rest]|e| |]; try done. cbn [mbind Res_bind].
  split; (destruct (negb _); [done|]).
  - apply parse_set_safe, sps_body_post.
  - apply parse_set_safe, pps_body_post.
Qed.

Lemma parse_parameter_sets_safe_witness :
  bytes_ok [0x67; 66; 0; 30; 0; 0; 0] ∧
  safe (parse_sps [0x67; 66; 0; 30; 0; 0; 0]) ∧ safe (parse_pps [0x67; 66; 0; 30; 0; 0; 0]).
Proof.
  assert (bytes_ok [0x67; 66; 0; 30; 0; 0; 0]) as H by (repeat constructor; discriminate).
  split; [exact H|]. apply (parse_parameter_sets_safe _ H).
Defined.

(** Splitting: [split_nal_units] and [split_nal_units_avcc] invert the
    Annex B and the AVCC form of any list of non-empty NAL units (for Annex
    B: without an embedded start code). *)
Theorem split_joined nals :
  Forall (λ n, 0 < zlen n < 2 ^ 32) nals → Forall (λ n, no_code n = true) nals →
  split_nal_units (annexb nals) = Ok nals ∧ split_nal_units_avcc (avcc nals) = Ok nals.
Proof.
  intros Hl Hnc. split.
  - apply split_annexb; [|done]. eapply Forall_impl; [exact Hl|].
    intros n Hn ->. change (zlen []) with 0 in Hn. lia.
  - apply (avcc_loop_spec nals []); [done|lia].
Qed.

Definition sample_units : list bytes := [[0x67; 1; 0; 0]; [0x68; 2; 3; 4]; [0x65; 0; 0; 3; 1]].

Lemma split_joined_witness :
  split_nal_units (annexb sample_units) = Ok sample_units ∧
  split_nal_units_avcc (avcc sample_units) = Ok sample_units.
Proof. apply split_joined; repeat constructor. Defined.

(** Whether [find_keyframes] takes a unit for a keyframe. *)
Definition key_unit (n : bytes) : Prop :=
  ∃ h rest, parse_nal_header n = Ok (h, rest) ∧
            is_keyframe (nal_unit_type h) (nal_ref_idc h) = true.
Definition other_unit (n : bytes) : Prop :=
  ∃ h rest, parse_nal_header n = Ok (h, rest) ∧
            is_keyframe (nal_unit_type h) (nal_ref_idc h) = false.

(** Keyframe positions: [find_keyframes] adds up the lengths of the units but
    not of their start codes, so a later keyframe is reported too early: after
    a unit [a] and a unit [b] of at most four bytes (a usual picture
    parameter set) the keyframe [c] is reported at the start code of [b]. *)
Theorem keyframe_after_short_unit a b c :
  a ≠ [] → 0 < zlen b ≤ 4 → c ≠ [] →
  no_code a = true → no_code b = true → no_code c = true →
  other_unit a → other_unit b → key_unit c →
  find_keyframes (annexb [a; b; c]) = Ok [4 + zlen a] ∧
  find_start_codes (annexb [a; b; c])
  = Ok [(0, 4); (4 + zlen a, 8 + zlen a); (8 + zlen a + zlen b, 12 + zlen a + zlen b)].
Proof.
  intros Ha Hb Hc Na Nb Nc (ha & ra & Ea & Ka) (hb & rb & Eb & Kb) (hc & rc & Ec & Kc).
  assert (find_start_codes (annexb [a; b; c])
    = Ok [(0, 4); (4 + zlen a, 8 + zlen a); (8 + zlen a + zlen b, 12 + zlen a + zlen b)]) as Hcodes.
  { rewrite find_start_codes_annexb by (by repeat constructor).
    cbn [code_positions]. do 2 f_equal. f_equal; [f_equal; lia|]. do 2 f_equal; lia. }
  split; [|exact Hcodes].
  assert (b ≠ []) as Hb' by (intros ->; change (zlen []) with 0 in Hb; lia).
  assert (0 < zlen a) by (destruct a; [done|rewrite zlen_cons; zlen_facts; lia]).
  unfold find_keyframes. rewrite split_annexb by (by repeat constructor).
  cbn [mbind Res_bind]. rewrite Hcodes. cbn [mbind Res_bind keyframes_loop].
  rewrite Ea, Eb, Ec, Ka, Kb, Kc. cbn [mbind Res_bind app first_from].
  rewrite (proj2 (Z.leb_gt _ _)), (proj2 (Z.leb_le _ _)) by lia. done.
Qed.

Lemma keyframe_after_short_unit_witness :
  find_keyframes (annexb [[0x67; 66; 0; 30]; [0x68; 0xCE; 0x38; 0x80]; [0x65; 0x88]]) = Ok [4 + 4] ∧
  find_start_codes (annexb [[0x67; 66; 0; 30]; [0x68; 0xCE; 0x38; 0x80]; [0x65; 0x88]])
  = Ok [(0, 4); (4 + 4, 8 + 4); (8 + 4 + 4, 12 + 4 + 4)].
Proof.
  apply (keyframe_after_short_unit [0x67; 66; 0; 30] [0x68; 0xCE; 0x38; 0x80] [0x65; 0x88]);
    try done; try (eexists _, _; split; reflexivity).
Defined.
