(* ===== verification/AudioCodec.v ===== *)
(** * G.711 and RTP audio, RTCP sender reports
      ([crates/protocols/src/audio_codec.rs], [rtcp.rs])

    The mu-law and A-law codecs on 16-bit samples, the RTP audio packetizer,
    and the construction of RTCP sender reports. *)
From Stdlib Require Import ZArith Lia List Bool String.
From stdpp Require Import base option list numbers gmap.
From S2P Require Import Prelude Rtp.

(** ** G.711 *)
Definition BIAS : Z := 0x84.
Definition CLIP : Z := 32635.

(** The [if .. else if ..] chains that pick the segment of a magnitude. *)
Definition mulaw_segment (mag : Z) : Z :=
  if 0x4000 <=? mag then 7
  else if 0x2000 <=? mag then 6
  else if 0x1000 <=? mag then 5
  else if 0x0800 <=? mag then 4
  else if 0x0400 <=? mag then 3
  else if 0x0200 <=? mag then 2
  else if 0x0100 <=? mag then 1
  else 0.

Definition pcm_to_mulaw (sample : Z) : Z :=
  let sign := if sample <? 0 then 0x80 else 0 in
  let mag := Z.min (Z.abs sample) CLIP + BIAS in
  let segment := mulaw_segment mag in
  let mantissa := wrap8 (Z.land (Z.shiftr mag (segment + 3)) 0x0F) in
  let encoded := Z.lor (Z.lor sign (Z.shiftl segment 4)) mantissa in
  Z.lxor encoded 0xFF.

Definition mulaw_to_pcm (encoded : Z) : Z :=
  let u := Z.land (Z.lnot encoded) 0xFF in
  let sign := Z.land u 0x80 in
  let segment := Z.land (Z.shiftr u 4) 0x07 in
  let mantissa := Z.land u 0x0F in
  let mag := Z.shiftl (Z.shiftl mantissa 3 + BIAS) segment - BIAS in
  if negb (sign =? 0) then - mag else mag.

Definition alaw_segment (mag : Z) : Z :=
  if 0x0800 <=? mag then 7
  else if 0x0400 <=? mag then 6
  else if 0x0200 <=? mag then 5
  else if 0x0100 <=? mag then 4
  else if 0x0080 <=? mag then 3
  else if 0x0040 <=? mag then 2
  else if 0x0020 <=? mag then 1
  else 0.

Definition pcm_to_alaw (sample : Z) : Z :=
  let pcm := Z.shiftr sample 3 in
  let mask := if 0 <=? pcm then 0xD5 else 0x55 in
  let mag := if 0 <=? pcm then pcm else - pcm - 1 in
  let segment := alaw_segment mag in
  let aval :=
    if 8 <=? segment then 0x7F
    else
    let step := if segment <? 2 then Z.land (Z.shiftr mag 1) 0x0F
                else Z.land (Z.shiftr mag segment) 0x0F in
    Z.lor (Z.shiftl segment 4) (wrap8 step) in
  Z.lxor aval mask.

Definition alaw_to_pcm (encoded : Z) : Z :=
  let a := Z.lxor encoded 0x55 in
  let sign := Z.land a 0x80 in
  let segment := Z.land (Z.shiftr a 4) 0x07 in
  let step := Z.land a 0x0F in
  let t := Z.shiftl step 4 in
  let t := if segment =? 0 then t + 8 else Z.shiftl (t + 0x108) (segment - 1) in
  if negb (sign =? 0) then t else - t.

(** ** RTP audio packets *)
Record RtpHeader := mkRtpHeader {
  h_version : Z; h_padding : bool; h_extension : bool; h_csrc_count : Z; h_marker : bool;
  h_payload_type : Z; h_sequence_number : Z; h_timestamp : Z; h_ssrc : Z;
}.

Definition RtpHeader_new (payload_type sequence_number timestamp ssrc : Z) : RtpHeader :=
  mkRtpHeader 2 false false 0 false payload_type sequence_number timestamp ssrc.

Definition RtpHeader_to_bytes (h : RtpHeader) : bytes :=
  [Z.lor (Z.lor (Z.lor (wrap8 (Z.shiftl (h_version h) 6))
                       (Z.shiftl (Z_of_bool (h_padding h)) 5))
                (Z.shiftl (Z_of_bool (h_extension h)) 4)) (h_csrc_count h);
   Z.lor (Z.shiftl (Z_of_bool (h_marker h)) 7) (h_payload_type h)]
  ++ to_be 2 (h_sequence_number h) ++ to_be 4 (h_timestamp h) ++ to_be 4 (h_ssrc h).

(** [RtpAudioPacketizer] is its sequence number. *)
Definition packetizer_new : Z := 0.

(** [x.saturating_mul(y)] on [u32]. *)
Definition saturating_mul_u32 (x y : Z) : Z := Z.min (x * y) (2 ^ 32 - 1).

Definition packet_timestamp (timestamp sample_offset sample_rate : Z) : Z :=
  wrap32 (timestamp
    + saturating_mul_u32 (wrap32 sample_offset) 8000 / Z.max sample_rate 1).

Section packetize.
Context (pcm_samples : list Z) (sample_rate timestamp ssrc payload_type samples_per_packet : Z).

Fixpoint packetize_loop (fuel : nat) (sequence_number sample_offset : Z)
    : Res (list bytes * Z) :=
  match fuel with
  | O => OutOfFuel
  | S fuel =>
      if sample_offset <? zlen pcm_samples then
        let end_offset := Z.min (sample_offset + samples_per_packet) (zlen pcm_samples) in
        chunk ← slice pcm_samples sample_offset end_offset;
        let encoded := if payload_type =? 0 then List.map pcm_to_mulaw chunk
                       else List.map pcm_to_alaw chunk in
        let header := RtpHeader_new payload_type sequence_number
                        (packet_timestamp timestamp sample_offset sample_rate) ssrc in
        '(packets, seq) ← packetize_loop fuel (wrap16 (sequence_number + 1)) end_offset;
        Ok ((RtpHeader_to_bytes header ++ encoded) :: packets, seq)
      else Ok ([], sequence_number)
  end.
End packetize.

(** [packetize_pcm]: the packets and the packetizer's new sequence number. *)
Definition packetize_pcm (sequence_number : Z) (pcm_samples : list Z)
    (sample_rate channels timestamp ssrc payload_type : Z) : Res (list bytes * Z) :=
  let samples_per_packet := Z.max (sample_rate / 50) 1 in
  packetize_loop pcm_samples sample_rate timestamp ssrc payload_type samples_per_packet
    (S (length pcm_samples)) sequence_number 0.

Definition packetize_pcm_ulaw (seq : Z) (pcm : list Z) (rate channels ts ssrc : Z) :=
  packetize_pcm seq pcm rate channels ts ssrc 0.
Definition packetize_pcm_alaw (seq : Z) (pcm : list Z) (rate channels ts ssrc : Z) :=
  packetize_pcm seq pcm rate channels ts ssrc 8.

(** ** RTCP *)
Definition ntp_to_rtp (ntp clock_rate : Z) : Z :=
  let secs := Z.shiftr ntp 32 in
  let frac := Z.land ntp 0xFFFFFFFF in
  let rtp := wrap64 (wrap64 (secs * clock_rate)
                     + wrap64 (Z.shiftr ((frac * clock_rate) mod 2 ^ 128) 32)) in
  wrap32 (Z.land rtp 0xFFFFFFFF).

Definition build_sender_report (ssrc ntp_timestamp rtp_timestamp packet_count octet_count : Z)
    : bytes :=
  [0x80; 200] ++ to_be 2 6 ++ to_be 4 ssrc ++ to_be 8 ntp_timestamp ++ to_be 4 rtp_timestamp
  ++ to_be 4 packet_count ++ to_be 4 octet_count.

(** ** Lemmas *)

(** The header is the one that [RtpPacket] serializes. *)
Definition audio_packet (pt seq ts src : Z) (pl : bytes) : RtpPacket :=
  mkPacket (mkFlags RTP_VERSION false false 0 false pt) seq ts src [] None [] pl.

Lemma audio_packet_bytes pt seq ts src pl :
  0 ≤ pt < 128 →
  RtpHeader_to_bytes (RtpHeader_new pt seq ts src) ++ pl = to_bytes (audio_packet pt seq ts src pl).
Proof.
  intros Hpt. unfold RtpHeader_to_bytes, RtpHeader_new, to_bytes, audio_packet.
  cbn -[Z.lor Z.land Z.shiftl to_be].
  destruct (header_byte1_fields false pt Hpt) as (_ & _ & ->). by rewrite <-!app_assoc.
Qed.

Definition encode_sample (pt : Z) : Z → Z := if pt =? 0 then pcm_to_mulaw else pcm_to_alaw.

(** The packet for the chunk at [offset], [i] packets after [seq]. *)
Definition audio_chunk (pt rate ts src seq spp : Z) (i : nat) (chunk : list Z) : bytes :=
  to_bytes (audio_packet pt ((seq + Z.of_nat i) mod 2 ^ 16)
    (packet_timestamp ts (spp * Z.of_nat i) rate) src (List.map (encode_sample pt) chunk)).

(** Samples cut into packets. *)
Fixpoint cut (fuel : nat) (spp : Z) (todo : list Z) : list (list Z) :=
  match fuel with
  | O => []
  | S fuel =>
      match todo with
      | [] => []
      | _ => take (Z.to_nat spp) todo :: cut fuel spp (drop (Z.to_nat spp) todo)
      end
  end.

Lemma concat_cut fuel spp todo :
  1 ≤ spp → (length todo ≤ fuel)%nat → concat (cut fuel spp todo) = todo.
Proof.
  intros Hs. revert todo. induction fuel as [|fuel IH]; intros todo Hf; cbn [cut].
  - by destruct todo; [|cbn in Hf; lia].
  - destruct todo as [|x todo]; [done|]. cbn [concat]. rewrite IH; [apply take_drop|].
    rewrite length_drop. cbn [length] in *. lia.
Qed.

Lemma cut_chunks fuel spp todo :
  1 ≤ spp → Forall (λ c, 1 ≤ zlen c ≤ spp) (cut fuel spp todo).
Proof.
  intros Hs. revert todo. induction fuel as [|fuel IH]; intros todo; cbn [cut]; [constructor|].
  destruct todo as [|x todo]; constructor; [|done].
  unfold zlen. rewrite length_take. cbn [length]. lia.
Qed.

Lemma packetize_loop_spec rate ts src pt spp fuel sent todo seq i :
  1 ≤ spp → (length todo < fuel)%nat → zlen sent = spp * Z.of_nat i ∨ todo = [] →
  0 ≤ pt < 128 →
  packetize_loop (sent ++ todo) rate ts src pt spp fuel ((seq + Z.of_nat i) mod 2 ^ 16) (zlen sent)
  = Ok (imap (λ j, audio_chunk pt rate ts src seq spp (i + j)) (cut fuel spp todo),
        (seq + Z.of_nat i + zlen (cut fuel spp todo)) mod 2 ^ 16).
Proof.
  intros Hs. revert sent todo i. induction fuel as [|fuel IH]; intros sent todo i Hf Hoff Hpt; [lia|].
  cbn [packetize_loop cut]. rewrite zlen_app.
  destruct todo as [|x todo].
  { change (zlen []) with 0. rewrite (proj2 (Z.ltb_ge _ _)) by lia. by rewrite Z.add_0_r. }
  destruct Hoff as [Hoff|]; [|done]. set (l := x :: todo) in *.
  assert (0 < zlen l) by (unfold l; rewrite zlen_cons; zlen_facts; lia).
  rewrite (proj2 (Z.ltb_lt _ _)) by lia. set (m := Z.to_nat spp).
  assert (zlen (take m l) = Z.min spp (zlen l)) as Ht
    by (unfold m, zlen; rewrite length_take; unfold zlen in *; lia).
  assert (Z.min (zlen sent + spp) (zlen sent + zlen l) = zlen (sent ++ take m l)) as Hmin
    by (rewrite zlen_app, Ht; lia).
  rewrite Hmin.
  assert (slice (sent ++ l) (zlen sent) (zlen (sent ++ take m l)) = Ok (take m l)) as ->.
  { rewrite <-(take_drop m l) at 1. apply slice_app_mid; [done|]. by rewrite zlen_app. }
  cbn [mbind Res_bind].
  replace (sent ++ l) with ((sent ++ take m l) ++ drop m l) by by rewrite <-app_assoc, take_drop.
  assert (wrap16 ((seq + Z.of_nat i) mod 2 ^ 16 + 1) = (seq + Z.of_nat (S i)) mod 2 ^ 16) as ->.
  { unfold wrap16. rewrite Zplus_mod_idemp_l. f_equal. lia. }
  rewrite IH; [|rewrite length_drop; unfold m, zlen in *; lia| |done].
  2: { destruct (decide (drop m l = [])) as [|Hd]; [by right|left].
       rewrite zlen_app, Ht, Hoff. rewrite Z.min_l; [lia|].
       destruct (Z.le_gt_cases spp (zlen l)); [done|]. exfalso. apply Hd, drop_ge.
       unfold m, zlen in *. lia. }
  cbn [mbind Res_bind imap]. rewrite zlen_cons. do 2 f_equal.
  - f_equal.
    + rewrite audio_packet_bytes by done. unfold audio_chunk, encode_sample.
      rewrite Nat.add_0_r, Hoff. by destruct (pt =? 0).
    + apply imap_ext. intros j c _. unfold compose.
      by replace (i + S j)%nat with (S i + j)%nat by lia.
  - f_equal. lia.
Qed.

(** ** Properties *)

(** The RTP audio packetizer: [packetize_pcm] terminates for every sample
    rate; the packets carry the encoded samples, all of them and in order, at
    most 20 ms each; each packet is the RTP serialization of its header with
    consecutive sequence numbers modulo 2^16, the sample offset scaled to the
    8 kHz clock, and the packetizer goes on with the next number. *)
Theorem packetize_pcm_packets seq pcm rate channels ts src pt :
  is_u16 seq → 0 ≤ rate → 0 ≤ pt < 128 →
  let spp := Z.max (rate / 50) 1 in
  ∃ chunks,
    concat chunks = pcm ∧ Forall (λ c, 1 ≤ zlen c ≤ spp) chunks ∧
    packetize_pcm seq pcm rate channels ts src pt
    = Ok (imap (audio_chunk pt rate ts src seq spp) chunks, (seq + zlen chunks) mod 2 ^ 16).
Proof.
  intros Hseq Hrate Hpt spp. exists (cut (S (length pcm)) spp pcm).
  split_and!; [apply concat_cut; lia|apply cut_chunks; lia|].
  pose proof (packetize_loop_spec rate ts src pt spp (S (length pcm)) [] pcm seq 0
                ltac:(lia) ltac:(lia)) as E.
  unfold packetize_pcm. fold spp. rewrite Z.add_0_r, (Z.mod_small seq) in E by done.
  apply E; [left; unfold zlen; cbn; lia|done].
Qed.

Lemma packetize_pcm_packets_witness :
  ∃ chunks,
    concat chunks = replicate 200 (-5) ∧
    Forall (λ c, 1 ≤ zlen c ≤ Z.max (8000 / 50) 1) chunks ∧
    packetize_pcm 65535 (replicate 200 (-5)) 8000 1 7 9 0
    = Ok (imap (audio_chunk 0 8000 7 9 65535 (Z.max (8000 / 50) 1)) chunks,
          (65535 + zlen chunks) mod 2 ^ 16).
Proof. apply packetize_pcm_packets; unfold is_u16; lia. Defined.

(** G.711 codes: every mu-law code except the negative zero 0x7F and every
    A-law code decodes to a sample that encodes to the same code; 0x7F is
    decoded to 0, which encodes to 0xFF. *)
Theorem g711_codes b :
  is_byte b →
  (b ≠ 0x7F → pcm_to_mulaw (mulaw_to_pcm b) = b) ∧
  (b = 0x7F → mulaw_to_pcm b = 0 ∧ pcm_to_mulaw 0 = 0xFF) ∧
  pcm_to_alaw (alaw_to_pcm b) = b.
Proof.
  unfold is_byte. intros Hb. split_and!.
  - intros Hne. assert ((b =? 0x7F) || (pcm_to_mulaw (mulaw_to_pcm b) =? b) = true) as H
      by (clear Hne; by_enum b 0 256).
    rewrite (proj2 (Z.eqb_neq _ _)) in H by done. by apply Z.eqb_eq in H.
  - intros ->. done.
  - by_enum b 0 256.
Qed.

Lemma g711_codes_witness :
  (0 ≠ 0x7F → pcm_to_mulaw (mulaw_to_pcm 0) = 0) ∧
  (0 = 0x7F → mulaw_to_pcm 0 = 0 ∧ pcm_to_mulaw 0 = 0xFF) ∧
  pcm_to_alaw (alaw_to_pcm 0) = 0.
Proof. apply g711_codes. unfold is_byte. lia. Defined.

(** Quantization is checked on every 16-bit sample. *)
Definition mulaw_error_ok (s : Z) : bool :=
  (CLIP <? Z.abs s) || (32 * Z.abs (mulaw_to_pcm (pcm_to_mulaw s) - s) <=? Z.abs s + 132).
Definition alaw_error_ok (s : Z) : bool :=
  32 * Z.abs (alaw_to_pcm (pcm_to_alaw s) - s) <=? Z.abs s + 256.

Lemma quantization_checked :
  all_from (λ s, mulaw_error_ok s && alaw_error_ok s) (-32768) 65536 = true.
Proof. vm_compute. reflexivity. Qed.

(** G.711 quantization: encoding and decoding any 16-bit sample keeps it
    within 1/32 of its magnitude plus a constant (half a step at every
    segment), for mu-law up to the clipping level. *)
Theorem g711_error s :
  -32768 ≤ s < 32768 →
  (Z.abs s ≤ CLIP → 32 * Z.abs (mulaw_to_pcm (pcm_to_mulaw s) - s) ≤ Z.abs s + 132) ∧
  32 * Z.abs (alaw_to_pcm (pcm_to_alaw s) - s) ≤ Z.abs s + 256.
Proof.
  intros Hs. pose proof (all_from_spec _ _ _ quantization_checked s ltac:(lia)) as H.
  cbv beta in H. apply andb_true_iff in H as [Hm Ha]. split; [|by apply Z.leb_le].
  intros Hc. unfold mulaw_error_ok in Hm. rewrite (proj2 (Z.ltb_ge _ _)) in Hm by done.
  by apply Z.leb_le.
Qed.

Lemma g711_error_witness :
  (Z.abs (-1000) ≤ CLIP →
     32 * Z.abs (mulaw_to_pcm (pcm_to_mulaw (-1000)) - -1000) ≤ Z.abs (-1000) + 132) ∧
  32 * Z.abs (alaw_to_pcm (pcm_to_alaw (-1000)) - -1000) ≤ Z.abs (-1000) + 256.
Proof. apply g711_error. lia. Defined.

(** RTCP: the RTP timestamp derived from an NTP timestamp is the exact
    product with the clock rate, rounded down and reduced modulo 2^32 (no
    intermediate overflow), and the sender report carries all five values at
    their places in a 28-byte packet of type 200 and length field 6. *)
Theorem sender_report_correct ssrc ntp rate packets octets :
  is_u32 ssrc → is_u64 ntp → is_u32 rate → is_u32 packets → is_u32 octets →
  let rtp := ntp_to_rtp ntp rate in
  let sr := build_sender_report ssrc ntp rtp packets octets in
  rtp = (ntp * rate / 2 ^ 32) mod 2 ^ 32 ∧
  zlen sr = 28 ∧ be_at 2 sr 0 = Ok 0x80C8 ∧ be_at 2 sr 2 = Ok (zlen sr / 4 - 1) ∧
  be_at 4 sr 4 = Ok ssrc ∧ be_at 8 sr 8 = Ok ntp ∧ be_at 4 sr 16 = Ok rtp ∧
  be_at 4 sr 20 = Ok packets ∧ be_at 4 sr 24 = Ok octets.
Proof.
  intros Hssrc Hntp Hrate Hp Ho rtp sr. unfold is_u32, is_u64 in *.
  assert (rtp = (ntp * rate / 2 ^ 32) mod 2 ^ 32) as Hrtp.
  { unfold rtp, ntp_to_rtp. rewrite Z.shiftr_div_pow2 by lia.
    pose proof (Z.land_ones ntp 32 ltac:(lia)) as E. change (Z.ones 32) with 0xFFFFFFFF in E.
    rewrite E. clear E.
    set (q := ntp / 2 ^ 32). set (f := ntp mod 2 ^ 32).
    assert (ntp = 2 ^ 32 * q + f) as Hd by (apply Z.div_mod; lia).
    assert (0 ≤ f < 2 ^ 32) as Hf by (apply Z.mod_pos_bound; lia).
    assert (0 ≤ q < 2 ^ 32) as Hq by lia.
    rewrite (Z.mod_small (f * rate)) by nia. rewrite Z.shiftr_div_pow2 by lia.
    assert (0 ≤ f * rate / 2 ^ 32 < 2 ^ 32).
    { split; [apply Z.div_pos; nia|]. apply Z.div_lt_upper_bound; nia. }
    unfold wrap64. rewrite (Z.mod_small (q * rate)), (Z.mod_small (f * rate / 2 ^ 32)) by nia.
    rewrite (Z.mod_small (q * rate + _)) by nia.
    pose proof (Z.land_ones (q * rate + f * rate / 2 ^ 32) 32 ltac:(lia)) as E.
    change (Z.ones 32) with 0xFFFFFFFF in E. rewrite E. clear E.
    unfold wrap32. rewrite Z.mod_mod by lia. f_equal.
    rewrite Hd. replace ((2 ^ 32 * q + f) * rate) with (f * rate + q * rate * 2 ^ 32) by ring.
    rewrite Z.div_add by lia. lia. }
  assert (0 ≤ rtp < 2 ^ 32) as Hr by (rewrite Hrtp; apply Z.mod_pos_bound; lia).
  split; [done|]. clear Hrtp. clearbody rtp. unfold sr, build_sender_report.
  set (h := [0x80; 200] ++ to_be 2 6).
  split_and!; try done.
  - by apply (be_at_to_be 4 ssrc h (to_be 8 ntp ++ to_be 4 rtp ++ to_be 4 packets ++ to_be 4 octets)).
  - by apply (be_at_to_be 8 ntp (h ++ to_be 4 ssrc)
                (to_be 4 rtp ++ to_be 4 packets ++ to_be 4 octets)).
  - by apply (be_at_to_be 4 rtp (h ++ to_be 4 ssrc ++ to_be 8 ntp)
                (to_be 4 packets ++ to_be 4 octets)).
  - by apply (be_at_to_be 4 packets (h ++ to_be 4 ssrc ++ to_be 8 ntp ++ to_be 4 rtp)
                (to_be 4 octets)).
  - by apply (be_at_to_be 4 octets
                (h ++ to_be 4 ssrc ++ to_be 8 ntp ++ to_be 4 rtp ++ to_be 4 packets) []).
Qed.

Lemma sender_report_correct_witness :
  let rtp := ntp_to_rtp (2 ^ 32 * 3900000000 + 2 ^ 31) 90000 in
  let sr := build_sender_report 7 (2 ^ 32 * 3900000000 + 2 ^ 31) rtp 10 2000 in
  rtp = ((2 ^ 32 * 3900000000 + 2 ^ 31) * 90000 / 2 ^ 32) mod 2 ^ 32 ∧
  zlen sr = 28 ∧ be_at 2 sr 0 = Ok 0x80C8 ∧ be_at 2 sr 2 = Ok (zlen sr / 4 - 1) ∧
  be_at 4 sr 4 = Ok 7 ∧ be_at 8 sr 8 = Ok (2 ^ 32 * 3900000000 + 2 ^ 31) ∧
  be_at 4 sr 16 = Ok rtp ∧ be_at 4 sr 20 = Ok 10 ∧ be_at 4 sr 24 = Ok 2000.
Proof. apply sender_report_correct; unfold is_u32, is_u64; lia. Defined.
