(* ===== verification/Text.v ===== *)
(** * Text as the code handles it

    A Rust [str] is the list of its UTF-8 bytes.  This file models the methods
    of [str], the integer parsers and the formatting that the RTSP server
    uses, and proves how they undo one another. *)
From Stdlib Require Import ZArith Lia List Bool String.
From stdpp Require Import base option list numbers gmap.
From S2P Require Import Prelude.

Abbreviation lit s := (bytes_of_string s%string) (only parsing).

(** ** Prefixes, suffixes and substrings *)
Definition bytes_eqb (a b : bytes) : bool := bool_decide (a = b).

Fixpoint strip_prefix (p l : bytes) : option bytes :=
  match p, l with
  | [], _ => Some l
  | x :: p, y :: l => if x =? y then strip_prefix p l else None
  | _ :: _, [] => None
  end.
Definition starts_with (p l : bytes) : bool := bool_decide (is_Some (strip_prefix p l)).
Definition strip_suffix (p l : bytes) : option bytes :=
  option_map (@rev Z) (strip_prefix (rev p) (rev l)).
Definition ends_with (p l : bytes) : bool := bool_decide (is_Some (strip_suffix p l)).

(** [l.find(p)]: the position of the first occurrence of [p]. *)
Fixpoint find_sub (p l : bytes) : option nat :=
  if starts_with p l then Some O
  else match l with
       | [] => None
       | _ :: l => option_map S (find_sub p l)
       end.
Definition contains (p l : bytes) : bool := bool_decide (is_Some (find_sub p l)).

(** [l.find(|c| ..)] for a predicate on ASCII characters. *)
Fixpoint find_byte (f : Z → bool) (l : bytes) : option nat :=
  match l with
  | [] => None
  | b :: l => if f b then Some O else option_map S (find_byte f l)
  end.

(** [l.split_once(c)] *)
Definition split_once (c : Z) (l : bytes) : option (bytes * bytes) :=
  option_map (λ i, (take i l, drop (S i) l)) (find_byte (Z.eqb c) l).

(** [l.splitn(n, c)] and [l.split(c)] *)
Fixpoint splitn (n : nat) (c : Z) (l : bytes) : list bytes :=
  match n with
  | O => []
  | S O => [l]
  | S n => match split_once c l with
           | Some (a, r) => a :: splitn n c r
           | None => [l]
           end
  end.
Definition split (c : Z) (l : bytes) : list bytes := splitn (S (S (length l))) c l.

(** [l.trim_end_matches(p)] and [l.trim_start_matches(p)], for [p] not empty. *)
Fixpoint trim_matches_f (fuel : nat) (p l : bytes) : bytes :=
  match fuel with
  | O => l
  | S fuel => match strip_prefix p l with
              | Some r => trim_matches_f fuel p r
              | None => l
              end
  end.
Definition trim_start_matches (p l : bytes) : bytes := trim_matches_f (length l) p l.
Definition trim_end_matches (p l : bytes) : bytes := rev (trim_start_matches (rev p) (rev l)).

(** ** White space and letter case *)

(** The bytes after a leading character of Unicode's [White_Space] set, the
    one [str::trim] removes: U+0009..000D, 0020, 0085, 00A0, 1680, 2000..200A,
    2028, 2029, 202F, 205F and 3000. *)
Definition is_space (b : Z) : bool := ((9 <=? b) && (b <=? 13)) || (b =? 32).

Definition is_space2 (a b : Z) : bool := (a =? 0xC2) && ((b =? 0x85) || (b =? 0xA0)).

Definition is_space3 (a b c : Z) : bool :=
  ((a =? 0xE1) && (b =? 0x9A) && (c =? 0x80))
  || ((a =? 0xE2) && (b =? 0x80)
      && (((0x80 <=? c) && (c <=? 0x8A)) || (c =? 0xA8) || (c =? 0xA9) || (c =? 0xAF)))
  || ((a =? 0xE2) && (b =? 0x81) && (c =? 0x9F))
  || ((a =? 0xE3) && (b =? 0x80) && (c =? 0x80)).

Definition skip_space (l : bytes) : option bytes :=
  match l with
  | a :: r =>
      if is_space a then Some r
      else match r with
           | b :: r' =>
               if is_space2 a b then Some r'
               else match r' with
                    | c :: r'' => if is_space3 a b c then Some r'' else None
                    | [] => None
                    end
           | [] => None
           end
  | [] => None
  end.

(** The same for the last character of a reversed string. *)
Definition skip_space_rev (l : bytes) : option bytes :=
  match l with
  | a :: r =>
      if is_space a then Some r
      else match r with
           | b :: r' =>
               if is_space2 b a then Some r'
               else match r' with
                    | c :: r'' => if is_space3 c b a then Some r'' else None
                    | [] => None
                    end
           | [] => None
           end
  | [] => None
  end.

Fixpoint skip_spaces (skip : bytes → option bytes) (fuel : nat) (l : bytes) : bytes :=
  match fuel with
  | O => l
  | S fuel => match skip l with Some r => skip_spaces skip fuel r | None => l end
  end.
Definition trim_start (l : bytes) : bytes := skip_spaces skip_space (length l) l.
Definition trim_end (l : bytes) : bytes := rev (skip_spaces skip_space_rev (length l) (rev l)).
Definition trim (l : bytes) : bytes := trim_end (trim_start l).

(** [str::lines]: a line ends with a line feed, before which a carriage return is dropped. *)
Definition strip_cr (l : bytes) : bytes := default l (strip_suffix [13] l).
Fixpoint lines_from (acc l : bytes) : list bytes :=
  match l with
  | [] => if bool_decide (acc = []) then [] else [rev acc]
  | b :: l => if b =? 10 then strip_cr (rev acc) :: lines_from [] l else lines_from (b :: acc) l
  end.
Definition lines (l : bytes) : list bytes := lines_from [] l.

(** [str::split_whitespace] *)
Fixpoint words_from (fuel : nat) (acc l : bytes) : list bytes :=
  let flush := if bool_decide (acc = []) then [] else [rev acc] in
  match fuel, l with
  | O, _ | _, [] => flush
  | S fuel, b :: l' =>
      match skip_space l with
      | Some r => flush ++ words_from fuel [] r
      | None => words_from fuel (b :: acc) l'
      end
  end.
Definition split_whitespace (l : bytes) : list bytes := words_from (length l) [] l.

Definition lower (b : Z) : Z := if (65 <=? b) && (b <=? 90) then b + 32 else b.
(** [str::to_ascii_lowercase]; it agrees with [str::to_lowercase] on whether
    the result equals an ASCII word without the letter [k] (only U+212A, the
    Kelvin sign, lowers to a lone ASCII letter, and U+0130 to two characters). *)
Definition to_lowercase (l : bytes) : bytes := List.map lower l.
Definition eq_ignore_ascii_case (a b : bytes) : bool :=
  bytes_eqb (to_lowercase a) (to_lowercase b).

(** ** Numbers *)
Definition digit_val (radix b : Z) : option Z :=
  let v := if (48 <=? b) && (b <=? 57) then b - 48
           else if (97 <=? b) && (b <=? 122) then b - 87
           else if (65 <=? b) && (b <=? 90) then b - 55
           else radix in
  if v <? radix then Some v else None.

(** Digits are accumulated with [checked_mul] and [checked_add]. *)
Fixpoint digits_val (radix max acc : Z) (l : bytes) : option Z :=
  match l with
  | [] => Some acc
  | b :: l =>
      match digit_val radix b with
      | Some v => let n := acc * radix + v in
                  if n <=? max then digits_val radix max n l else None
      | None => None
      end
  end.

(** [uN::from_str_radix], and [str::parse::<uN>] for radix 10: an optional
    leading [+], at least one digit, [None] for any error. *)
Definition from_str_radix (radix max : Z) (l : bytes) : option Z :=
  match l with
  | [] => None
  | 43 :: [] => None
  | 43 :: l => digits_val radix max 0 l
  | l => digits_val radix max 0 l
  end.
Definition parse_u8 : bytes → option Z := from_str_radix 10 (2 ^ 8 - 1).
Definition parse_u16 : bytes → option Z := from_str_radix 10 (2 ^ 16 - 1).
Definition parse_u32 : bytes → option Z := from_str_radix 10 (2 ^ 32 - 1).
Definition parse_usize : bytes → option Z := from_str_radix 10 (2 ^ 64 - 1).
Definition parse_u64 : bytes → option Z := from_str_radix 10 (2 ^ 64 - 1).

Definition hex_digit (v : Z) : Z := if v <? 10 then 48 + v else 87 + v.
Fixpoint hex_digits (n : nat) (v : Z) : bytes :=
  match n with
  | O => []
  | S n => hex_digits n (v / 16) ++ [hex_digit (v mod 16)]
  end.
(** [format!("{v:08x}")] of a [u32]. *)
Definition fmt_08x (v : Z) : bytes := hex_digits 8 v.

(** ** Lemmas: prefixes, suffixes, substrings *)
Lemma bytes_eqb_eq a b : bytes_eqb a b = true ↔ a = b.
Proof. apply bool_decide_eq_true. Qed.

Lemma bytes_eqb_refl a : bytes_eqb a a = true.
Proof. by apply bytes_eqb_eq. Qed.

Lemma strip_prefix_Some p l r : strip_prefix p l = Some r ↔ l = p ++ r.
Proof.
  revert l. induction p as [|x p IH]; intros l; cbn.
  - split; [by intros [= ->] | by intros ->].
  - destruct l as [|y l]; [split; discriminate|].
    destruct (Z.eqb_spec x y) as [->|Hne].
    + rewrite IH. split; [by intros -> | by intros [= ->]].
    + split; [discriminate | by intros [= ? _]].
Qed.

Lemma strip_prefix_app p l : strip_prefix p (p ++ l) = Some l.
Proof. by apply strip_prefix_Some. Qed.

Lemma strip_suffix_Some p l r : strip_suffix p l = Some r ↔ l = r ++ p.
Proof.
  unfold strip_suffix, option_map. split.
  - destruct (strip_prefix _ _) as [r'|] eqn:E; [|discriminate]. intros [= <-].
    apply strip_prefix_Some in E. rewrite <-(rev_involutive l), E, rev_app_distr.
    by rewrite rev_involutive.
  - intros ->. by rewrite rev_app_distr, strip_prefix_app, rev_involutive.
Qed.

Lemma starts_with_true p l : starts_with p l = true ↔ ∃ r, l = p ++ r.
Proof.
  unfold starts_with. rewrite bool_decide_eq_true.
  split; intros [r Hr]; exists r; by apply strip_prefix_Some.
Qed.

Lemma ends_with_true p l : ends_with p l = true ↔ ∃ r, l = r ++ p.
Proof.
  unfold ends_with. rewrite bool_decide_eq_true.
  split; intros [r Hr]; exists r; by apply strip_suffix_Some.
Qed.

Lemma find_sub_eq p l :
  find_sub p l = if starts_with p l then Some O
                 else match l with [] => None | _ :: l => option_map S (find_sub p l) end.
Proof. by destruct l. Qed.

Lemma find_sub_sound p l i : find_sub p l = Some i → ∃ a b, l = a ++ p ++ b ∧ length a = i.
Proof.
  revert i. induction l as [|x l IH]; intros i; rewrite find_sub_eq;
    destruct (starts_with p _) eqn:E.
  1, 3: apply starts_with_true in E as [r ->]; intros [= <-]; by exists [], r.
  - discriminate.
  - destruct (find_sub p l) as [j|] eqn:Ej; [|discriminate]. intros [= <-].
    destruct (IH _ eq_refl) as (a & b & -> & <-). by exists (x :: a), b.
Qed.

Lemma find_sub_complete p a b : is_Some (find_sub p (a ++ p ++ b)).
Proof.
  induction a as [|x a IH]; rewrite find_sub_eq.
  - assert (starts_with p ([] ++ p ++ b) = true) as -> by (apply starts_with_true; by exists b).
    done.
  - destruct (starts_with p _); [done|]. cbn. by destruct IH as [j ->].
Qed.

Lemma contains_true p l : contains p l = true ↔ ∃ a b, l = a ++ p ++ b.
Proof.
  unfold contains. rewrite bool_decide_eq_true. split.
  - intros [i Hi]. apply find_sub_sound in Hi as (a & b & -> & _). by exists a, b.
  - intros (a & b & ->). apply find_sub_complete.
Qed.

Lemma find_byte_here f a c l :
  Forall (λ b, f b = false) a → f c = true → find_byte f (a ++ c :: l) = Some (length a).
Proof. intros Ha Hc. induction Ha as [|x a Hx Ha IH]; cbn; [by rewrite Hc | by rewrite Hx, IH]. Qed.

Lemma find_byte_none f l : Forall (λ b, f b = false) l → find_byte f l = None.
Proof. induction 1 as [|x l Hx Hl IH]; cbn; [done | by rewrite Hx, IH]. Qed.

(** No byte of [l] is [c]. *)
Definition lacks (c : Z) (l : bytes) : Prop := Forall (λ b, (c =? b) = false) l.
#[export] Instance lacks_dec c l : Decision (lacks c l).
Proof. unfold lacks. apply _. Defined.

Lemma lacks_app c a b : lacks c (a ++ b) ↔ lacks c a ∧ lacks c b.
Proof. apply Forall_app. Qed.

Lemma split_once_app c a l : lacks c a → split_once c (a ++ c :: l) = Some (a, l).
Proof.
  intros Ha. unfold split_once. rewrite (find_byte_here _ a c l Ha (Z.eqb_refl c)). cbn.
  by rewrite take_app_length, (cons_middle c a l), app_assoc, drop_app_length'
    by (rewrite length_app; cbn; lia).
Qed.

Lemma split_once_none c l : lacks c l → split_once c l = None.
Proof. intros H. unfold split_once. by rewrite find_byte_none. Qed.

(** [parts.join(c)] *)
Fixpoint join (c : Z) (parts : list bytes) : bytes :=
  match parts with
  | [] => []
  | [a] => a
  | a :: parts => a ++ c :: join c parts
  end.

Lemma splitn_join c parts n :
  Forall (lacks c) parts → parts ≠ [] → (length parts ≤ n)%nat →
  splitn n c (join c parts) = parts.
Proof.
  intros H. revert n. induction H as [|a parts Ha Hp IH]; [done|].
  intros n _ Hn. destruct parts as [|b parts].
  - destruct n as [|[|n]]; cbn in *; [lia | done | by rewrite (split_once_none c a Ha)].
  - destruct n as [|[|n]]; [cbn in Hn; lia..|].
    change (join c (a :: b :: parts)) with (a ++ c :: join c (b :: parts)).
    cbn [splitn]. rewrite (split_once_app c a _ Ha). f_equal.
    apply (IH (S n)); [done | cbn in *; lia].
Qed.

Lemma length_join c parts : (length parts ≤ S (length (join c parts)))%nat.
Proof.
  induction parts as [|a [|b parts] IH]; cbn in *; [lia..|].
  rewrite length_app. cbn. lia.
Qed.

Lemma split_join c parts :
  Forall (lacks c) parts → parts ≠ [] → split c (join c parts) = parts.
Proof.
  intros H Hne. apply splitn_join; [done..|]. pose proof (length_join c parts). lia.
Qed.

Lemma trim_start_matches_once p l :
  p ≠ [] → strip_prefix p l = None → trim_start_matches p (p ++ l) = l.
Proof.
  intros Hp Hl. unfold trim_start_matches. destruct p as [|c p]; [done|].
  cbn [length app trim_matches_f].
  change (c :: p ++ l) with ((c :: p) ++ l). rewrite strip_prefix_app.
  destruct (length (p ++ l)); cbn [trim_matches_f]; [done | by rewrite Hl].
Qed.

(** ** Lemmas: white space *)

(** The two conditions under which [trim] has nothing to remove. *)
Definition trimmed (l : bytes) : bool :=
  bool_decide (skip_space l = None) && bool_decide (skip_space_rev (rev l) = None).

Lemma skip_spaces_id skip n l : skip l = None → skip_spaces skip n l = l.
Proof. intros H. destruct n; cbn; [done | by rewrite H]. Qed.

Lemma trim_id l : trimmed l = true → trim l = l.
Proof.
  unfold trimmed. rewrite andb_true_iff, !bool_decide_eq_true. intros [Ha Hb].
  unfold trim, trim_start, trim_end. rewrite (skip_spaces_id _ _ l Ha).
  by rewrite (skip_spaces_id _ _ (rev l) Hb), rev_involutive.
Qed.

(** An ASCII character that is not white space. *)
Definition is_solid (b : Z) : bool := (0 <=? b) && (b <? 128) && negb (is_space b).

Lemma solid_head b l : is_solid b = true → skip_space (b :: l) = None.
Proof.
  unfold is_solid. rewrite !andb_true_iff, negb_true_iff, Z.leb_le, Z.ltb_lt.
  intros [[Hlo Hhi] Hsp]. cbn [skip_space]. rewrite Hsp. destruct l as [|c l]; [done|].
  unfold is_space2, is_space3.
  rewrite !(proj2 (Z.eqb_neq b _)) by lia. cbn [andb orb]. by destruct l.
Qed.

Lemma solid_last b l : is_solid b = true → skip_space_rev (b :: l) = None.
Proof.
  unfold is_solid. rewrite !andb_true_iff, negb_true_iff, Z.leb_le, Z.ltb_lt.
  intros [[Hlo Hhi] Hsp]. cbn [skip_space_rev]. rewrite Hsp. destruct l as [|c l]; [done|].
  unfold is_space2. rewrite !(proj2 (Z.eqb_neq b _)) by lia.
  rewrite andb_false_r. destruct l as [|d l]; [done|].
  unfold is_space3. rewrite !(proj2 (Z.eqb_neq b _)) by lia.
  rewrite (proj2 (Z.leb_gt 0x80 b)) by lia. by rewrite ?andb_false_r.
Qed.

Lemma trimmed_solid a m b :
  is_solid a = true → is_solid b = true → trimmed (a :: m ++ [b]) = true.
Proof.
  intros Ha Hb. unfold trimmed. rewrite (solid_head _ _ Ha).
  rewrite app_comm_cons, rev_app_distr. cbn [rev app].
  by rewrite (solid_last _ _ Hb).
Qed.

Lemma trimmed_all_solid l : forallb is_solid l = true → trimmed l = true.
Proof.
  destruct l as [|a l]; [done|]. cbn. rewrite andb_true_iff. intros [Ha Hl].
  destruct l as [|b l _] using rev_ind.
  - unfold trimmed. rewrite (solid_head _ _ Ha). cbn [rev app]. by rewrite (solid_last _ _ Ha).
  - rewrite forallb_app, andb_true_iff in Hl. apply trimmed_solid; [done|].
    destruct Hl as [_ Hl]. cbn in Hl. by rewrite andb_true_r in Hl.
Qed.

(** Two ASCII characters in front of a string do not make its end white space. *)
Lemma skip_space_rev_app m c d r :
  skip_space_rev m = None → m ≠ [] → is_solid c = true → is_solid d = true →
  skip_space_rev (m ++ c :: d :: r) = None.
Proof.
  intros Hm Hne Hc Hd. unfold is_solid in Hc, Hd. rewrite !andb_true_iff, Z.leb_le, Z.ltb_lt in Hc, Hd.
  destruct m as [|a [|b [|x m]]]; [done| | |]; cbn [app skip_space_rev] in *;
    destruct (is_space a); try done.
  - unfold is_space2, is_space3. by rewrite !(proj2 (Z.eqb_neq c _)), !(proj2 (Z.eqb_neq d _)) by lia.
  - destruct (is_space2 b a); [done|]. unfold is_space3.
    by rewrite !(proj2 (Z.eqb_neq c _)) by lia.
  - destruct (is_space2 b a); [done|]. by destruct (is_space3 x b a).
Qed.

Lemma trimmed_prefix a p c d m :
  is_solid a = true → is_solid c = true → is_solid d = true → trimmed m = true →
  trimmed (a :: p ++ d :: c :: m) = true.
Proof.
  intros Ha Hc Hd Hm. destruct m as [|b m].
  - rewrite (cons_middle d), app_assoc. by apply trimmed_solid.
  - unfold trimmed in *. apply andb_true_iff in Hm as [_ Hm]. rewrite (solid_head _ _ Ha).
    cbn [andb]. rewrite bool_decide_eq_true in *. rewrite bool_decide_eq_true_2 by done. cbn [andb].
    apply bool_decide_eq_true_2.
    change (d :: c :: b :: m) with ([d; c] ++ b :: m).
    rewrite app_comm_cons, !rev_app_distr. cbn [rev]. rewrite <-!app_assoc.
    cbn [app]. replace (rev m ++ b :: c :: d :: rev p ++ [a])
      with (rev (b :: m) ++ c :: d :: rev p ++ [a]) by (cbn [rev]; by rewrite <-app_assoc).
    apply skip_space_rev_app; try done. cbn [rev]. by destruct (rev m).
Qed.

Lemma trim_space l : trim (32 :: l) = trim l.
Proof. done. Qed.

Lemma length_skip_spaces skip n l :
  (∀ l r, skip l = Some r → (length r ≤ length l)%nat) →
  (length (skip_spaces skip n l) ≤ length l)%nat.
Proof.
  intros H. revert l. induction n as [|n IH]; intros l; cbn; [lia|].
  destruct (skip l) as [r|] eqn:E; [|lia]. etrans; [apply IH | by apply H].
Qed.

Lemma length_trim l : (length (trim l) ≤ length l)%nat.
Proof.
  unfold trim, trim_end, trim_start. rewrite length_rev.
  etrans; [apply length_skip_spaces|]; [|rewrite length_rev; apply length_skip_spaces];
    intros k r; [unfold skip_space_rev | unfold skip_space];
    repeat case_match; intros [= <-]; cbn; lia.
Qed.

Lemma skip_spaces_end skip n l : (∀ k r, skip k = Some r → (length r < length k)%nat) → (length l ≤ n)%nat →
  skip (skip_spaces skip n l) = None.
Proof.
  intros H. revert l. induction n as [|n IH]; intros l Hn; cbn.
  - destruct (skip l) as [r|] eqn:E; [|done]. apply H in E. lia.
  - destruct (skip l) as [r|] eqn:E; [|done]. apply IH. apply H in E. lia.
Qed.
Lemma skip_space_shorter k r : skip_space k = Some r → (length r < length k)%nat.
Proof. unfold skip_space. repeat case_match; intros [= <-]; cbn; lia. Qed.
Lemma skip_space_rev_shorter k r : skip_space_rev k = Some r → (length r < length k)%nat.
Proof. unfold skip_space_rev. repeat case_match; intros [= <-]; cbn; lia. Qed.
Lemma skip_space_prefix p q r : skip_space p = Some r → skip_space (p ++ q) = Some (r ++ q).
Proof.
  destruct p as [|a [|b [|c p]]]; cbn; try done; destruct (is_space a); try done; try (by intros [= <-]);
    destruct (is_space2 a b); try done; try (by intros [= <-]).
  destruct (is_space3 a b c); [|done]. by intros [= <-].
Qed.
Lemma skip_spaces_suffix skip n l : (∀ k r, skip k = Some r → r `suffix_of` k) → skip_spaces skip n l `suffix_of` l.
Proof.
  intros H. revert l. induction n as [|n IH]; intros l; cbn; [done|].
  destruct (skip l) as [r|] eqn:E; [|done]. etrans; [apply IH | by apply H].
Qed.
Lemma skip_space_rev_suffix k r : skip_space_rev k = Some r → r `suffix_of` k.
Proof.
  unfold skip_space_rev. destruct k as [|a [|b [|c k]]]; cbn; repeat case_match; intros [= <-];
    solve [by exists [a] | by exists [a; b] | by exists [a; b; c]].
Qed.

(** What [trim] leaves has nothing more to remove. *)
Lemma trim_trimmed l : trimmed (trim l) = true.
Proof.
  unfold trimmed. rewrite andb_true_iff, !bool_decide_eq_true. unfold trim, trim_end. set (k := trim_start l).
  rewrite rev_involutive. split.
  - destruct (skip_spaces_suffix skip_space_rev (length k) (rev k) skip_space_rev_suffix) as [q Hq].
    destruct (skip_space _) as [r|] eqn:E; [|done]. apply (skip_space_prefix _ (rev q)) in E.
    rewrite <-rev_app_distr, <-Hq, rev_involutive in E. unfold k, trim_start in E.
    by rewrite (skip_spaces_end skip_space _ _ skip_space_shorter) in E.
  - apply skip_spaces_end; [apply skip_space_rev_shorter | by rewrite length_rev].
Qed.
Lemma trim_trim l : trim (trim l) = trim l.
Proof. apply trim_id, trim_trimmed. Qed.

Lemma find_byte_lt f l i : find_byte f l = Some i → (i < length l)%nat.
Proof.
  revert i. induction l as [|b l IH]; intros i; cbn; [done|].
  destruct (f b); [intros [= <-]; lia|].
  destruct (find_byte f l) as [j|]; [|done]. intros [= <-]. specialize (IH _ eq_refl). lia.
Qed.

(** ** Lemmas: numbers *)
Lemma digit_val_dec d : 0 ≤ d < 10 → digit_val 10 (48 + d) = Some d.
Proof.
  intros Hd. unfold digit_val.
  rewrite (proj2 (Z.leb_le 48 _)), (proj2 (Z.leb_le _ 57)) by lia. cbn [andb].
  rewrite (proj2 (Z.ltb_lt _ 10)) by lia. f_equal. lia.
Qed.

Lemma digit_val_hex d : 0 ≤ d < 16 → digit_val 16 (hex_digit d) = Some d.
Proof.
  intros Hd. unfold hex_digit, digit_val.
  destruct (Z.ltb_spec d 10);
    repeat (case_match || (rewrite ?andb_true_iff, ?andb_false_iff, ?Z.leb_le, ?Z.leb_gt,
                             ?Z.ltb_lt, ?Z.ltb_ge in *)); try lia; f_equal; lia.
Qed.

Lemma digits_val_app radix max acc l k :
  digits_val radix max acc (l ++ k)
  = match digits_val radix max acc l with Some n => digits_val radix max n k | None => None end.
Proof.
  revert acc. induction l as [|b l IH]; intros acc; [done|]. cbn [app digits_val].
  destruct (digit_val radix b); [|done]. cbv zeta. destruct (_ <=? max); [apply IH | done].
Qed.

Lemma log2_div_10 n : 10 ≤ n → (S (Z.to_nat (Z.log2 (n / 10))) ≤ Z.to_nat (Z.log2 n))%nat.
Proof.
  intros Hn. pose proof (Z.log2_le_mono (n / 10) (n / 2)) as H1.
  assert (Z.log2 (n / 2) = Z.log2 n - 1) as H2.
  { replace (n / 2) with (Z.shiftr n 1) by (now rewrite Z.shiftr_div_pow2 by lia).
    rewrite Z.log2_shiftr by lia. pose proof (Z.log2_pos n). lia. }
  assert (n / 10 ≤ n / 2) as H3 by dm_lia.
  specialize (H1 H3). pose proof (Z.log2_pos n ltac:(lia)).
  pose proof (Z.log2_nonneg (n / 10)). lia.
Qed.

Lemma digits_val_dec fuel n max :
  0 ≤ n ≤ max → (Z.to_nat (Z.log2 n) < fuel)%nat →
  digits_val 10 max 0 (rev (dec_rev fuel n)) = Some n.
Proof.
  revert n. induction fuel as [|k IH]; intros n Hn Hf; [lia|]. cbn [dec_rev rev].
  rewrite digits_val_app. destruct (Z.ltb_spec n 10) as [Hlt|Hge].
  - cbn [rev digits_val]. rewrite digit_val_dec by dm_lia. cbv zeta.
    rewrite Z.mod_small by lia. by rewrite (proj2 (Z.leb_le _ max)) by lia.
  - rewrite IH; [| dm_lia | pose proof (log2_div_10 n Hge); lia].
    cbn [digits_val]. rewrite digit_val_dec by dm_lia. cbv zeta.
    replace (n / 10 * 10 + n mod 10) with n by dm_lia.
    by rewrite (proj2 (Z.leb_le n max)) by lia.
Qed.

(** What every digit list of [dec_of_Z] and [fmt_08x] consists of. *)
Definition is_digit16 (b : Z) : bool :=
  ((48 <=? b) && (b <=? 57)) || ((97 <=? b) && (b <=? 102)).

Lemma dec_rev_digits fuel n : Forall (λ b, 48 ≤ b ≤ 57) (dec_rev fuel n).
Proof.
  revert n. induction fuel as [|k IH]; intros n; cbn [dec_rev]; constructor; [dm_lia|].
  destruct (n <? 10); [constructor | apply IH].
Qed.

Lemma dec_of_Z_digits n : Forall (λ b, 48 ≤ b ≤ 57) (dec_of_Z n).
Proof. apply List.Forall_rev, dec_rev_digits. Qed.

Lemma dec_of_Z_nonempty n : dec_of_Z n ≠ [].
Proof.
  unfold dec_of_Z. cbn [dec_rev rev]. intros H. apply app_eq_nil in H as [_ [=]].
Qed.

Lemma from_str_radix_digits radix max l :
  l ≠ [] → Forall (λ b, 43 < b) l → from_str_radix radix max l = digits_val radix max 0 l.
Proof.
  intros Hne H. destruct l as [|b l]; [done|]. inversion H as [|? ? Hb _]; subst.
  unfold from_str_radix. destruct b as [|p|p]; try lia.
  do 6 (destruct p as [p|p|]; try lia; try done).
Qed.

Lemma parse_dec max n : 0 ≤ n ≤ max → from_str_radix 10 max (dec_of_Z n) = Some n.
Proof.
  intros Hn. rewrite from_str_radix_digits.
  - apply digits_val_dec; [done | lia].
  - apply dec_of_Z_nonempty.
  - eapply Forall_impl; [apply dec_of_Z_digits|]. cbn. lia.
Qed.

Lemma hex_digit_range d : 0 ≤ d < 16 → is_digit16 (hex_digit d) = true.
Proof.
  intros Hd. unfold is_digit16, hex_digit. destruct (Z.ltb_spec d 10);
    rewrite orb_true_iff, !andb_true_iff, !Z.leb_le; lia.
Qed.

Lemma hex_digits_digits n v : Forall (λ b, is_digit16 b = true) (hex_digits n v).
Proof.
  revert v. induction n as [|n IH]; intros v; cbn; [constructor|].
  apply Forall_app. split; [apply IH|]. constructor; [|constructor].
  apply hex_digit_range. dm_lia.
Qed.

Lemma length_hex_digits n v : length (hex_digits n v) = n.
Proof. revert v. induction n as [|n IH]; intros v; cbn; [done|]. rewrite length_app, IH. cbn. lia. Qed.

Lemma digits_val_hex n v max :
  0 ≤ v < 16 ^ Z.of_nat n → v ≤ max → digits_val 16 max 0 (hex_digits n v) = Some v.
Proof.
  revert v. induction n as [|n IH]; intros v Hv Hmax; cbn [hex_digits].
  - cbn. f_equal. cbn in Hv. lia.
  - rewrite Nat2Z.inj_succ, Z.pow_succ_r in Hv by lia.
    rewrite digits_val_app, IH by dm_lia. cbn [digits_val].
    rewrite digit_val_hex by dm_lia. cbv zeta.
    replace (v / 16 * 16 + v mod 16) with v by dm_lia.
    by rewrite (proj2 (Z.leb_le v max)) by lia.
Qed.

Lemma parse_08x v max : is_u32 v → v ≤ max → from_str_radix 16 max (fmt_08x v) = Some v.
Proof.
  intros Hv Hmax. unfold fmt_08x. rewrite from_str_radix_digits.
  - apply digits_val_hex; [exact Hv | done].
  - intros H. apply (f_equal length) in H. by rewrite length_hex_digits in H.
  - eapply Forall_impl; [apply hex_digits_digits|]. intros b. cbn. unfold is_digit16.
    rewrite orb_true_iff, !andb_true_iff, !Z.leb_le. lia.
Qed.

#[export] Hint Resolve trimmed_all_solid dec_of_Z_nonempty : mibee.
