(* ===== verification/Speech.v ===== *)
(** * Spoken replies ([crates/streaming/src/sentence.rs])

    The filter that hides think blocks from a stream of text deltas, the
    splitter that cuts the rest into sentences, and the loop of
    [src/runtime/voice_bridge.rs] that feeds them.  What is spoken is shown
    not to depend on how the text is cut into deltas. *)
From Stdlib Require Import ZArith Lia List Bool String.
From stdpp Require Import base option list numbers.
From S2P Require Import Prelude Text.

(** ** The filter *)
Record ThinkFilter := mkFilter { in_think : bool; pending : bytes }.

Definition filter_new : ThinkFilter := mkFilter false [].

Definition THINK_OPEN : bytes := lit "<think>".
Definition THINK_CLOSE : bytes := lit "</think>".

(** The loop of [marker_prefix_len], from [len] down. *)
Fixpoint marker_len (len : nat) (text marker : bytes) : nat :=
  match len with
  | O => O
  | S k => if eq_ignore_ascii_case (drop (length text - len) text) (take len marker) then len
           else marker_len k text marker
  end.

Definition marker_prefix_len (text marker : bytes) : nat :=
  marker_len (Nat.min (length text) (length marker - 1)) text marker.

(** The loop of [ThinkFilter::push] on the pending text: each round but the
    last removes a marker. *)
Fixpoint filter_loop (fuel : nat) (thinking : bool) (text : bytes) : ThinkFilter * bytes :=
  match fuel with
  | O => (mkFilter thinking text, [])
  | S fuel =>
      if thinking then
        match find_sub THINK_CLOSE text with
        | Some at_ => filter_loop fuel false (drop (at_ + length THINK_CLOSE) text)
        | None =>
            let keep := marker_prefix_len text THINK_CLOSE in
            (mkFilter true (drop (length text - keep) text), [])
        end
      else
        match find_sub THINK_OPEN text with
        | Some at_ =>
            let '(f, out) := filter_loop fuel true (drop (at_ + length THINK_OPEN) text) in
            (f, take at_ text ++ out)
        | None =>
            let hold := marker_prefix_len text THINK_OPEN in
            (mkFilter false (drop (length text - hold) text), take (length text - hold) text)
        end
  end.

Definition filter_push (f : ThinkFilter) (delta : bytes) : ThinkFilter * bytes :=
  let text := pending f ++ delta in filter_loop (S (length text)) (in_think f) text.

(** ** The splitter *)

(** The UTF-8 length of a terminator at the head of the text:
    [。！？!?;；] and the newline. *)
Definition terminator (l : bytes) : option nat :=
  match l with
  | a :: l =>
      if (a =? 33) || (a =? 63) || (a =? 59) || (a =? 10) then Some 1%nat
      else match l with
           | b :: c :: _ =>
               if (a =? 0xE3) && (b =? 0x80) && (c =? 0x82) then Some 3%nat
               else if (a =? 0xEF) && (b =? 0xBC) && ((c =? 0x81) || (c =? 0x9F) || (c =? 0x9B))
               then Some 3%nat else None
           | _ => None
           end
  | [] => None
  end.

(** The end of the first sentence: [idx + c.len_utf8()]. *)
Fixpoint sentence_end (l : bytes) : option nat :=
  match terminator l with
  | Some n => Some n
  | None => match l with [] => None | _ :: l => option_map S (sentence_end l) end
  end.

(** The loop of [SentenceSplitter::push]: sentences and what stays buffered. *)
Fixpoint split_loop (fuel : nat) (buf : bytes) : list bytes * bytes :=
  match fuel with
  | O => ([], buf)
  | S fuel =>
      match sentence_end buf with
      | Some e =>
          let trimmed := trim (take e buf) in
          let '(out, buf) := split_loop fuel (drop e buf) in
          ((if bytes_eqb trimmed [] then out else trimmed :: out), buf)
      | None => ([], buf)
      end
  end.

Definition splitter_push (buf text : bytes) : list bytes * bytes :=
  split_loop (S (length (buf ++ text))) (buf ++ text).

(** [SentenceSplitter::flush]: the last sentence; the buffer is empty after
    it. *)
Definition splitter_flush (buf : bytes) : option bytes * bytes :=
  let rest := trim buf in (if bytes_eqb rest [] then None else Some rest, []).

(** ** The speaker *)

(** The sentences handed to the synthesizer for the deltas, when the reply
    is not cancelled: those of each delta, then the flushed rest. *)
Fixpoint speak_loop (f : ThinkFilter) (buf : bytes) (deltas : list bytes) : list bytes :=
  match deltas with
  | delta :: deltas =>
      let '(f, visible) := filter_push f delta in
      let '(sentences, buf) := splitter_push buf visible in
      sentences ++ speak_loop f buf deltas
  | [] => match (splitter_flush buf).1 with Some tail => [tail] | None => [] end
  end.

Definition speak (deltas : list bytes) : list bytes := speak_loop filter_new [] deltas.

(** ** Searching in pieces *)
Lemma starts_with_app p a b : starts_with p a = true → starts_with p (a ++ b) = true.
Proof. rewrite !starts_with_true. intros [r ->]. exists (r ++ b). by rewrite app_assoc. Qed.

Lemma starts_with_long p a b :
  (length p ≤ length a)%nat → starts_with p (a ++ b) = true → starts_with p a = true.
Proof.
  rewrite !starts_with_true. intros Hl [r Hr]. exists (drop (length p) a).
  apply (f_equal (take (length p))) in Hr. rewrite take_app_le, take_app_length in Hr by done.
  rewrite <-(take_drop (length p) a) at 1. by rewrite Hr.
Qed.

(** The first occurrence stays the first when text is appended. *)
Lemma find_sub_app p a b i : find_sub p a = Some i → find_sub p (a ++ b) = Some i.
Proof.
  revert i. induction a as [|x a IH]; intros i; rewrite find_sub_eq.
  - destruct (starts_with p []) eqn:E; [|done]. intros [= <-].
    rewrite find_sub_eq. by rewrite (starts_with_app _ _ _ E).
  - destruct (starts_with p (x :: a)) eqn:E.
    + intros [= <-]. rewrite find_sub_eq. by rewrite (starts_with_app _ _ _ E).
    + destruct (find_sub p a) as [j|] eqn:Ej; [|done]. intros [= <-].
      rewrite find_sub_eq. destruct (starts_with p ((x :: a) ++ b)) eqn:E'.
      * apply starts_with_long in E'; [by rewrite E in E'|].
        apply find_sub_sound in Ej as (u & v & -> & _). cbn. rewrite !length_app. lia.
      * cbn. by rewrite (IH j).
Qed.

(** Text in which no occurrence starts does not matter. *)
Lemma find_sub_skip p e q :
  (∀ e1 x e2, e = e1 ++ x :: e2 → starts_with p (x :: e2 ++ q) = false) →
  find_sub p (e ++ q) = option_map (Nat.add (length e)) (find_sub p q).
Proof.
  induction e as [|x e IH]; intros He; cbn [app].
  - by destruct (find_sub p q).
  - rewrite find_sub_eq. rewrite (He [] x e eq_refl). rewrite IH.
    + by destruct (find_sub p q).
    + intros e1 y e2 ->. apply (He (x :: e1)). done.
Qed.

Lemma marker_len_spec n text m :
  (marker_len n text m ≤ n)%nat
  ∧ (∀ len, marker_len n text m < len ≤ n →
       eq_ignore_ascii_case (drop (length text - len) text) (take len m) = false)%nat
  ∧ (marker_len n text m = 0%nat
     ∨ eq_ignore_ascii_case (drop (length text - marker_len n text m) text)
         (take (marker_len n text m) m) = true).
Proof.
  induction n as [|n (IH1 & IH2 & IH3)]; cbn [marker_len]; [split_and!; [lia | lia | by left]|].
  destruct (eq_ignore_ascii_case (drop (length text - S n) text) _) eqn:E.
  - split_and!; [lia | lia | by right].
  - split_and!; [lia | | done]. intros len Hlen. destruct (decide (len = S n)) as [->|]; [done|].
    apply IH2. lia.
Qed.

Lemma marker_len_skip n k text m :
  (k ≤ n)%nat →
  (∀ len, k < len ≤ n → eq_ignore_ascii_case (drop (length text - len) text) (take len m) = false)%nat →
  marker_len n text m = marker_len k text m.
Proof.
  induction n as [|n IH]; intros Hk Hf; [by replace k with O by lia|].
  destruct (decide (k = S n)) as [->|]; [done|]. cbn [marker_len].
  rewrite Hf by lia. apply IH; [lia|]. intros len Hlen. apply Hf. lia.
Qed.

Lemma marker_len_app n e q m :
  (n ≤ length q)%nat → marker_len n (e ++ q) m = marker_len n q m.
Proof.
  induction n as [|n IH]; intros Hn; [done|]. cbn [marker_len].
  rewrite IH by lia. rewrite length_app.
  replace (length e + length q - S n)%nat with (length e + (length q - S n))%nat by lia.
  by rewrite drop_app_add.
Qed.

Lemma eq_ignore_prefix x y m n :
  eq_ignore_ascii_case (x ++ y) (take n m) = true → (length x ≤ n)%nat →
  eq_ignore_ascii_case x (take (length x) m) = true.
Proof.
  unfold eq_ignore_ascii_case, to_lowercase, bytes_eqb. rewrite !bool_decide_eq_true, List.map_app.
  intros H Hn. apply (f_equal (take (length x))) in H.
  rewrite take_app_length' in H by (by rewrite length_map).
  by rewrite List.firstn_map, take_take, Nat.min_l in H by lia.
Qed.

Lemma eq_ignore_refl a : eq_ignore_ascii_case a a = true.
Proof. unfold eq_ignore_ascii_case. apply bytes_eqb_refl. Qed.

(** ** The tail that is held back *)
Section held.
Context (m a b : bytes) (Hnone : find_sub m a = None).
Let h := marker_prefix_len a m.
Let e := take (length a - h) a.
Let p := drop (length a - h) a.

Lemma held_le : (h ≤ length a ∧ h ≤ length m - 1)%nat.
Proof using. unfold h, marker_prefix_len. pose proof (marker_len_spec (Nat.min (length a) (length m - 1)) a m). lia. Qed.

Lemma held_app : a = e ++ p.
Proof using. unfold e, p. by rewrite take_drop. Qed.

Lemma length_held : length p = h.
Proof using. unfold p. rewrite length_drop. pose proof held_le. lia. Qed.

(** No longer tail of [a] could begin a marker. *)
Lemma held_longest e1 x e2 :
  e = e1 ++ x :: e2 → (length (x :: e2 ++ p) ≤ length m - 1)%nat →
  eq_ignore_ascii_case (x :: e2 ++ p) (take (length (x :: e2 ++ p)) m) = false.
Proof using.
  intros He Hl. pose proof held_app as Ha. pose proof length_held as Hp.
  assert (a = e1 ++ x :: e2 ++ p) as Ha'.
  { rewrite Ha at 1. rewrite He. by rewrite <-app_assoc. }
  pose proof (marker_len_spec (Nat.min (length a) (length m - 1)) a m) as (_ & Hf & _).
  fold (marker_prefix_len a m) in Hf. fold h in Hf.
  assert (length a = (length e1 + length (x :: e2 ++ p))%nat) as Hla
    by (rewrite Ha' at 1; by rewrite length_app).
  specialize (Hf (length (x :: e2 ++ p))).
  replace (drop (length a - length (x :: e2 ++ p)) a) with (x :: e2 ++ p) in Hf.
  - apply Hf. cbn [length] in *. rewrite length_app in *. lia.
  - rewrite Hla, Ha' at 1.
    replace (length e1 + length (x :: e2 ++ p) - length (x :: e2 ++ p))%nat with (length e1) by lia.
    by rewrite drop_app_length.
Qed.

Lemma held_no_start e1 x e2 :
  e = e1 ++ x :: e2 → starts_with m (x :: e2 ++ p ++ b) = false.
Proof using Hnone.
  intros He. destruct (starts_with m (x :: e2 ++ p ++ b)) eqn:E; [|done]. exfalso.
  change (x :: e2 ++ p ++ b) with ((x :: e2) ++ p ++ b) in E. rewrite app_assoc in E.
  destruct (decide (length m ≤ length ((x :: e2) ++ p))%nat) as [Hl|Hl].
  - apply starts_with_long in E; [|done]. apply starts_with_true in E as [r Hr].
    pose proof (find_sub_complete m e1 r) as [i Hi].
    assert (a = e1 ++ m ++ r) as Ha.
    { rewrite held_app, He, <-app_assoc. by rewrite <-Hr. }
    by rewrite <-Ha, Hnone in Hi.
  - pose proof (held_longest e1 x e2 He) as Hf.
    apply starts_with_true in E as [r Hr].
    apply (f_equal (take (length ((x :: e2) ++ p)))) in Hr.
    rewrite take_app_length, take_app_le in Hr by lia.
    change (x :: e2 ++ p) with ((x :: e2) ++ p) in Hf. rewrite <-Hr, eq_ignore_refl in Hf.
    discriminate Hf. lia.
Qed.

(** The search goes on in the held tail. *)
Lemma held_find : find_sub m (a ++ b) = option_map (Nat.add (length e)) (find_sub m (p ++ b)).
Proof using Hnone.
  rewrite held_app at 1. rewrite <-app_assoc. apply find_sub_skip. apply held_no_start.
Qed.

Lemma held_hold : marker_prefix_len (a ++ b) m = marker_prefix_len (p ++ b) m.
Proof using.
  rewrite held_app at 1. rewrite <-app_assoc. unfold marker_prefix_len.
  rewrite (marker_len_skip _ (Nat.min (length (p ++ b)) (length m - 1))).
  - apply marker_len_app. lia.
  - rewrite (length_app e). lia.
  - intros len Hlen. rewrite (length_app e) in *.
    set (q := p ++ b) in *.
    destruct (decide (len ≤ length q)%nat); [lia|].
    replace (length e + length q - len)%nat with (length e - (len - length q))%nat by lia.
    set (k := (length e - (len - length q))%nat).
    assert (k < length e)%nat as Hk by lia.
    rewrite drop_app_le by lia.
    destruct (drop k e) as [|x e2] eqn:D; [apply (f_equal length) in D; rewrite length_drop in D; cbn in D; lia|].
    assert (e = take k e ++ x :: e2) as He by (rewrite <-D; by rewrite take_drop).
    assert (length (x :: e2) = (length e - k)%nat) as Hl by (rewrite <-D; apply length_drop).
    destruct (eq_ignore_ascii_case ((x :: e2) ++ q) (take len m)) eqn:E; [|done]. exfalso.
    unfold q in E. rewrite app_assoc in E. apply eq_ignore_prefix in E.
    + change ((x :: e2) ++ p) with (x :: e2 ++ p) in E. rewrite (held_longest _ _ _ He) in E; [done|].
      change (x :: e2 ++ p) with ((x :: e2) ++ p). rewrite length_app.
      assert (length p ≤ length q)%nat by (unfold q; rewrite length_app; lia). lia.
    + rewrite length_app. assert (length p ≤ length q)%nat by (unfold q; rewrite length_app; lia). lia.
Qed.
End held.

(** ** The filter does not depend on the deltas *)
Lemma find_sub_end p a i : find_sub p a = Some i → (i + length p ≤ length a)%nat.
Proof. intros E. apply find_sub_sound in E as (u & v & -> & <-). rewrite !length_app. lia. Qed.

Lemma filter_loop_fuel n k t text :
  (length text < n)%nat → (length text < k)%nat → filter_loop n t text = filter_loop k t text.
Proof.
  revert k t text. induction n as [|n IH]; intros k t text Hn Hk; [lia|].
  destruct k as [|k]; [lia|]. cbn [filter_loop].
  destruct t.
  - destruct (find_sub THINK_CLOSE text) as [i|] eqn:E; [|done].
    apply find_sub_end in E. change (length THINK_CLOSE) with 8%nat in *.
    apply IH; rewrite length_drop; lia.
  - destruct (find_sub THINK_OPEN text) as [i|] eqn:E; [|done].
    apply find_sub_end in E. change (length THINK_OPEN) with 7%nat in *.
    rewrite (IH k); [done|..]; rewrite length_drop; lia.
Qed.

(** The whole text at once. *)
Definition filter_all (t : bool) (text : bytes) : ThinkFilter * bytes :=
  filter_loop (S (length text)) t text.

Lemma filter_push_all f delta : filter_push f delta = filter_all (in_think f) (pending f ++ delta).
Proof. done. Qed.

Lemma filter_all_eq t text :
  filter_all t text =
  if t then
    match find_sub THINK_CLOSE text with
    | Some i => filter_all false (drop (i + length THINK_CLOSE) text)
    | None => (mkFilter true (drop (length text - marker_prefix_len text THINK_CLOSE) text), [])
    end
  else
    match find_sub THINK_OPEN text with
    | Some i => let '(f, out) := filter_all true (drop (i + length THINK_OPEN) text) in
                (f, take i text ++ out)
    | None => (mkFilter false (drop (length text - marker_prefix_len text THINK_OPEN) text),
               take (length text - marker_prefix_len text THINK_OPEN) text)
    end.
Proof.
  unfold filter_all at 1. cbn [filter_loop]. destruct t.
  - destruct (find_sub THINK_CLOSE text) as [i|] eqn:E; [|done].
    apply find_sub_sound in E as (u & v & -> & <-). apply filter_loop_fuel; [|lia].
    rewrite length_drop, !length_app. change (length THINK_CLOSE) with 8%nat. lia.
  - destruct (find_sub THINK_OPEN text) as [i|] eqn:E; [|done].
    apply find_sub_sound in E as (u & v & -> & <-). unfold filter_all.
    rewrite (filter_loop_fuel _ (S (length (drop (length u + length THINK_OPEN) (u ++ THINK_OPEN ++ v)))));
      [done | | lia].
    rewrite length_drop, !length_app. change (length THINK_OPEN) with 7%nat. lia.
Qed.

Lemma marker_prefix_len_le text m : (marker_prefix_len text m ≤ length text)%nat.
Proof. unfold marker_prefix_len. pose proof (marker_len_spec (Nat.min (length text) (length m - 1)) text m). lia. Qed.

Lemma cut_app (e q : bytes) k :
  (k ≤ length q)%nat →
  drop (length (e ++ q) - k) (e ++ q) = drop (length q - k) q
  ∧ take (length (e ++ q) - k) (e ++ q) = e ++ take (length q - k) q.
Proof.
  intros Hk. rewrite length_app. replace (length e + length q - k)%nat with (length e + (length q - k))%nat by lia.
  by rewrite drop_app_add, take_app_add.
Qed.

Lemma filter_all_app t a b :
  filter_all t (a ++ b)
  = let '(f, out) := filter_all t a in
    let '(f', out') := filter_all (in_think f) (pending f ++ b) in (f', out ++ out').
Proof.
  remember (length a) as n eqn:Hn. revert t a Hn.
  induction n as [n IH] using (well_founded_induction lt_wf). intros t a ->.
  rewrite (filter_all_eq t a), (filter_all_eq t (a ++ b)). destruct t.
  - destruct (find_sub THINK_CLOSE a) as [i|] eqn:E.
    + rewrite (find_sub_app _ _ _ _ E). apply find_sub_end in E.
      rewrite drop_app_le by done. apply (IH (length (drop (i + length THINK_CLOSE) a))); [|done].
      rewrite length_drop. change (length THINK_CLOSE) with 8%nat in *. lia.
    + cbn [in_think pending]. rewrite (held_find _ _ b E), (held_hold _ a b).
      rewrite (filter_all_eq true). pose proof (held_app THINK_CLOSE a) as Ha.
      set (p := drop _ a) in *. set (e := take _ a) in *.
      assert (a ++ b = e ++ p ++ b) as -> by (rewrite Ha at 1; by rewrite <-app_assoc).
      destruct (find_sub THINK_CLOSE (p ++ b)) as [i|]; cbn [option_map].
      * rewrite <-Nat.add_assoc, drop_app_add. by destruct (filter_all false _).
      * by rewrite (proj1 (cut_app e (p ++ b) _ (marker_prefix_len_le _ _))).
  - destruct (find_sub THINK_OPEN a) as [i|] eqn:E.
    + rewrite (find_sub_app _ _ _ _ E). apply find_sub_end in E.
      rewrite drop_app_le, take_app_le by (change (length THINK_OPEN) with 7%nat in *; lia).
      rewrite (IH (length (drop (i + length THINK_OPEN) a))); [| |done].
      * destruct (filter_all true _) as [f out]. destruct (filter_all (in_think f) _) as [f' out'].
        by rewrite app_assoc.
      * rewrite length_drop. change (length THINK_OPEN) with 7%nat in *. lia.
    + cbn [in_think pending]. rewrite (held_find _ _ b E), (held_hold _ a b).
      rewrite (filter_all_eq false). pose proof (held_app THINK_OPEN a) as Ha.
      set (p := drop _ a) in *. set (e := take _ a) in *.
      assert (a ++ b = e ++ p ++ b) as -> by (rewrite Ha at 1; by rewrite <-app_assoc).
      destruct (find_sub THINK_OPEN (p ++ b)) as [i|]; cbn [option_map].
      * rewrite <-Nat.add_assoc, drop_app_add, take_app_add. destruct (filter_all true _).
        by rewrite app_assoc.
      * destruct (cut_app e (p ++ b) _ (marker_prefix_len_le (p ++ b) THINK_OPEN)) as [-> ->]. done.
Qed.

(** ** The splitter does not depend on the deltas *)
Lemma terminator_app l b n : terminator l = Some n → terminator (l ++ b) = Some n.
Proof.
  destruct l as [|x [|y [|z l]]]; cbn; [done|..]; destruct (_ || _ || _ || _); by auto.
Qed.

(** A terminator that is not there is not completed over the next sentence end. *)
Lemma terminator_none l b e :
  terminator l = None → sentence_end (tail l) = Some e → terminator (l ++ b) = None.
Proof.
  destruct l as [|x [|y [|z l]]]; cbn [terminator tail app]; [done|done| |done].
  destruct (_ || _ || _ || _) eqn:E; [done|]. intros _ He. destruct b as [|c b]; [done|].
  cbn in He. destruct ((y =? 33) || (y =? 63) || (y =? 59) || (y =? 10)) eqn:Ey; [|done].
  replace (y =? 0x80) with false; [replace (y =? 0xBC) with false|].
  - by rewrite !andb_false_r.
  - symmetry. apply Z.eqb_neq. intros ->. done.
  - symmetry. apply Z.eqb_neq. intros ->. done.
Qed.

Lemma sentence_end_eq l :
  sentence_end l = match terminator l with
                   | Some n => Some n
                   | None => match l with [] => None | _ :: l => option_map S (sentence_end l) end
                   end.
Proof. by destruct l. Qed.

Lemma sentence_end_app l b e : sentence_end l = Some e → sentence_end (l ++ b) = Some e.
Proof.
  revert e. induction l as [|x l IH]; intros e H; [done|]. rewrite sentence_end_eq in H.
  rewrite sentence_end_eq. destruct (terminator (x :: l)) as [n|] eqn:T.
  - by rewrite (terminator_app _ _ _ T).
  - destruct (sentence_end l) as [e'|] eqn:E; [|done].
    rewrite (terminator_none _ _ _ T E). cbn [app]. by rewrite (IH _ eq_refl).
Qed.

Lemma terminator_range l n : terminator l = Some n → (0 < n ≤ length l)%nat.
Proof.
  unfold terminator. destruct l as [|x [|y [|z l]]]; [done|..];
    repeat (destruct (_ || _)); intros H; simplify_eq; cbn [length]; try lia;
    repeat (destruct (_ && _)); simplify_eq; lia.
Qed.

Lemma sentence_end_range l e : sentence_end l = Some e → (0 < e ≤ length l)%nat.
Proof.
  revert e. induction l as [|x l IH]; intros e; [done|]. rewrite sentence_end_eq.
  destruct (terminator (x :: l)) as [n|] eqn:T.
  - intros [= <-]. by apply terminator_range.
  - destruct (sentence_end l) as [e'|] eqn:E; [|done]. intros [= <-].
    specialize (IH _ eq_refl). cbn. lia.
Qed.

Lemma sentence_end_take l e : sentence_end l = Some e → sentence_end (take e l) = Some e.
Proof.
  revert e. induction l as [|x l IH]; intros e; [done|]. rewrite (sentence_end_eq (x :: l)).
  destruct (terminator (x :: l)) as [n|] eqn:T.
  - intros [= <-]. rewrite sentence_end_eq.
    assert (terminator (take n (x :: l)) = Some n) as ->; [|done].
    destruct l as [|y [|z l]]; cbn in T |- *; repeat case_match; simplify_eq; cbn;
      repeat case_match; simplify_eq; done.
  - destruct (sentence_end l) as [e'|] eqn:E; [|done]. intros [= <-].
    cbn [take]. rewrite sentence_end_eq.
    destruct (terminator (x :: take e' l)) as [n|] eqn:T'.
    + apply (terminator_app _ (drop e' l)) in T'. cbn [app] in T'. rewrite take_drop, T in T'. done.
    + by rewrite (IH _ eq_refl).
Qed.

Lemma split_loop_fuel n k buf :
  (length buf < n)%nat → (length buf < k)%nat → split_loop n buf = split_loop k buf.
Proof.
  revert k buf. induction n as [|n IH]; intros k buf Hn Hk; [lia|].
  destruct k as [|k]; [lia|]. cbn [split_loop].
  destruct (sentence_end buf) as [e|] eqn:E; [|done]. apply sentence_end_range in E.
  rewrite (IH k); [done|..]; rewrite length_drop; lia.
Qed.

Definition split_all (text : bytes) : list bytes * bytes := split_loop (S (length text)) text.

Lemma split_all_eq text :
  split_all text =
  match sentence_end text with
  | Some e => let trimmed := trim (take e text) in
              let '(out, buf) := split_all (drop e text) in
              ((if bytes_eqb trimmed [] then out else trimmed :: out), buf)
  | None => ([], text)
  end.
Proof.
  unfold split_all at 1. cbn [split_loop]. destruct (sentence_end text) as [e|] eqn:E; [|done].
  apply sentence_end_range in E. unfold split_all.
  rewrite (split_loop_fuel _ (S (length (drop e text)))); [done | | lia].
  rewrite length_drop. lia.
Qed.

Lemma split_all_app a b :
  split_all (a ++ b)
  = let '(out, buf) := split_all a in
    let '(out', buf') := split_all (buf ++ b) in (out ++ out', buf').
Proof.
  remember (length a) as n eqn:Hn. revert a Hn.
  induction n as [n IH] using (well_founded_induction lt_wf). intros a ->.
  rewrite (split_all_eq a). destruct (sentence_end a) as [e|] eqn:E.
  - rewrite (split_all_eq (a ++ b)), (sentence_end_app _ _ _ E). apply sentence_end_range in E.
    rewrite take_app_le, drop_app_le by lia. cbv zeta.
    rewrite (IH (length (drop e a))); [| rewrite length_drop; lia | done].
    destruct (split_all (drop e a)) as [out buf]. destruct (split_all (buf ++ b)) as [out' buf'].
    by destruct (bytes_eqb _ _).
  - cbn [app]. by destruct (split_all (a ++ b)).
Qed.

(** ** What is spoken *)
Lemma filter_settled t a f out :
  filter_all t a = (f, out) → filter_all (in_think f) (pending f) = (f, []).
Proof.
  intros E. pose proof (filter_all_app t a []) as H. rewrite app_nil_r, E, app_nil_r in H.
  destruct (filter_all (in_think f) (pending f)) as [f' out']. injection H as <- Ho.
  f_equal. apply (app_inv_head out). by rewrite <-Ho, app_nil_r.
Qed.

Lemma split_settled text out buf : split_all text = (out, buf) → split_all buf = ([], buf).
Proof.
  intros E. pose proof (split_all_app text []) as H. rewrite app_nil_r, E, app_nil_r in H.
  destruct (split_all buf) as [out' buf']. injection H as Ho <-.
  f_equal. apply (app_inv_head out). by rewrite <-Ho, app_nil_r.
Qed.

(** The sentences of a text. *)
Definition sentences (text : bytes) : list bytes :=
  let '(out, buf) := split_all text in
  out ++ match (splitter_flush buf).1 with Some tail => [tail] | None => [] end.

Lemma speak_loop_all f buf deltas :
  filter_all (in_think f) (pending f) = (f, []) → split_all buf = ([], buf) →
  speak_loop f buf deltas
  = sentences (buf ++ (filter_all (in_think f) (pending f ++ concat deltas)).2).
Proof.
  revert f buf. induction deltas as [|delta deltas IH]; intros f buf Hf Hb; cbn [speak_loop concat].
  - rewrite app_nil_r, Hf. cbn [snd]. rewrite app_nil_r. unfold sentences. by rewrite Hb.
  - rewrite filter_push_all, (app_assoc (pending f)), (filter_all_app _ (pending f ++ delta)).
    destruct (filter_all (in_think f) (pending f ++ delta)) as [f1 visible] eqn:E1.
    unfold splitter_push. fold (split_all (buf ++ visible)).
    destruct (split_all (buf ++ visible)) as [out buf1] eqn:E2.
    rewrite (IH f1 buf1) by (eapply filter_settled || eapply split_settled; eassumption).
    destruct (filter_all (in_think f1) (pending f1 ++ concat deltas)) as [f2 rest]. cbn [snd].
    unfold sentences. rewrite app_assoc, (split_all_app (buf ++ visible) rest), E2.
    destruct (split_all (buf1 ++ rest)) as [out2 buf2]. by rewrite app_assoc.
Qed.

Lemma speak_all deltas : speak deltas = sentences (filter_all false (concat deltas)).2.
Proof. apply (speak_loop_all filter_new []); done. Qed.

(** The first marker after text that has none. *)
Lemma find_marker c m v r :
  forallb (λ b, negb (c =? b)) m = true → find_sub (c :: m) v = None → find_sub (c :: m) (v ++ (c :: m) ++ r) = Some (length v).
Proof.
  intros Hc Hv. rewrite find_sub_skip.
  - rewrite find_sub_eq. replace (starts_with (c :: m) ((c :: m) ++ r)) with true.
    + cbn. f_equal. lia.
    + symmetry. apply starts_with_true. by exists r.
  - intros e1 x e2 ->. destruct (starts_with (c :: m) (x :: e2 ++ (c :: m) ++ r)) eqn:E; [|done]. exfalso.
    change (x :: e2 ++ (c :: m) ++ r) with ((x :: e2) ++ (c :: m) ++ r) in E.
    destruct (decide (length (c :: m) ≤ length (x :: e2))%nat) as [Hl|Hl].
    + apply starts_with_long in E; [|done]. apply starts_with_true in E as [s Hs].
      destruct (find_sub_complete (c :: m) e1 s) as [i Hi]. by rewrite <-Hs, Hv in Hi.
    + apply starts_with_true in E as [s Hs]. injection Hs as -> Hs.
      apply (f_equal (λ l, l !! length e2)) in Hs.
      rewrite list_lookup_middle in Hs by done. cbn [length] in Hl.
      rewrite lookup_app_l in Hs by lia. symmetry in Hs. apply list_elem_of_lookup_2, list_elem_of_In in Hs.
      rewrite forallb_forall in Hc. specialize (Hc _ Hs). by rewrite Z.eqb_refl in Hc.
Qed.

(** A reply with think blocks: text, then thoughts [t] and texts [v] in turn. *)
Definition reply (v : bytes) (parts : list (bytes * bytes)) : bytes :=
  v ++ (parts ≫= λ tv, THINK_OPEN ++ tv.1 ++ THINK_CLOSE ++ tv.2).
Definition said (v : bytes) (parts : list (bytes * bytes)) : bytes := v ++ (parts ≫= snd).
Definition last_said (v : bytes) (parts : list (bytes * bytes)) : bytes :=
  fold_left (λ _ tv, tv.2) parts v.
Definition well_marked (v : bytes) (parts : list (bytes * bytes)) : Prop :=
  find_sub THINK_OPEN v = None
  ∧ Forall (λ tv, find_sub THINK_CLOSE tv.1 = None ∧ find_sub THINK_OPEN tv.2 = None) parts.

Lemma filter_reply v parts :
  well_marked v parts →
  let hold := marker_prefix_len (last_said v parts) THINK_OPEN in
  (hold ≤ length (said v parts))%nat
  ∧ (filter_all false (reply v parts)).2 = take (length (said v parts) - hold) (said v parts).
Proof.
  intros [Hv Hp]. revert v Hv. induction Hp as [|[t v'] parts [Ht Hv'] Hp IH]; intros v Hv.
  - cbv zeta. change (last_said v []) with v. unfold reply, said. cbn [mbind list_bind].
    rewrite !app_nil_r. split; [apply marker_prefix_len_le|]. by rewrite filter_all_eq, Hv.
  - cbn [fst snd] in *. destruct (IH v' Hv') as [Hle IHf].
    assert (last_said v ((t, v') :: parts) = last_said v' parts) as Hlast by done.
    assert (said v ((t, v') :: parts) = v ++ said v' parts) as -> by done.
    assert (reply v ((t, v') :: parts) = v ++ THINK_OPEN ++ t ++ THINK_CLOSE ++ reply v' parts) as ->.
    { unfold reply. cbn [mbind list_bind fst snd]. by rewrite <-!app_assoc. }
    rewrite Hlast. cbv zeta. split; [rewrite length_app; lia|].
    rewrite filter_all_eq.
    rewrite (find_marker 60 (lit "think>") v) by done.
    rewrite drop_app_add, drop_app_length, filter_all_eq.
    rewrite (find_marker 60 (lit "/think>") t) by done.
    rewrite drop_app_add, drop_app_length. cbv zeta in IHf.
    destruct (filter_all false (reply v' parts)) as [f out]. cbn [snd] in *.
    rewrite take_app_length, IHf. symmetry. apply cut_app. done.
Qed.

(** The pieces a text is cut into. *)
Lemma sentences_pieces text :
  ∃ pieces rest, text = concat pieces ++ rest
    ∧ Forall (λ p, sentence_end p = Some (length p)) pieces ∧ sentence_end rest = None
    ∧ sentences text = List.filter (λ s, negb (bytes_eqb s [])) (List.map trim (pieces ++ [rest])).
Proof.
  remember (length text) as n eqn:Hn. revert text Hn.
  induction n as [n IH] using (well_founded_induction lt_wf). intros text ->.
  unfold sentences. rewrite split_all_eq. destruct (sentence_end text) as [e|] eqn:E.
  - pose proof (sentence_end_range _ _ E) as He.
    destruct (IH (length (drop e text)) ltac:(rewrite length_drop; lia) (drop e text) eq_refl)
      as (pieces & rest & Ht & Hp & Hr & Hs).
    exists (take e text :: pieces), rest. split_and!.
    + cbn [concat]. by rewrite <-app_assoc, <-Ht, take_drop.
    + constructor; [|done]. rewrite length_take, Nat.min_l by lia.
      by apply sentence_end_take.
    + done.
    + unfold sentences in Hs. destruct (split_all (drop e text)) as [out buf].
      cbn [app List.map List.filter]. unfold bytes_eqb in *.
      destruct (bool_decide (trim (take e text) = [])); cbn [negb app]; by rewrite Hs.
  - exists [], text. split_and!; [done | constructor | done|]. cbn.
    unfold splitter_flush, bytes_eqb. cbn [fst]. by destruct (bool_decide (trim text = [])).
Qed.

(** What is held back begins with an angle bracket, so the text is never cut
    inside a character. *)
Lemma held_boundary text m k :
  head m = Some 60 → marker_prefix_len text m = S k → text !! (length text - S k)%nat = Some 60.
Proof.
  intros Hm Hk. pose proof (marker_prefix_len_le text m) as Hle. unfold marker_prefix_len in *.
  destruct (marker_len_spec (Nat.min (length text) (length m - 1)) text m) as (_ & _ & [H|H]); [lia|].
  rewrite Hk in *. destruct m as [|c m]; [done|]. injection Hm as ->.
  destruct (drop (length text - S k) text) as [|x l] eqn:D.
  - apply (f_equal length) in D. rewrite length_drop in D. cbn in D. lia.
  - rewrite <-(Nat.add_0_r (_ - _)), <-lookup_drop, D. cbn.
    unfold eq_ignore_ascii_case in H. apply bytes_eqb_eq in H. cbn in H. injection H as H _.
    unfold lower in H. destruct ((65 <=? x) && (x <=? 90)) eqn:E; [|by subst].
    apply andb_true_iff in E. lia.
Qed.

(** C40 What is spoken of a reply.  However the reply is cut into deltas, the
    sentences spoken are those of its text outside the think blocks, in order
    and without white space around them; the text is cut after each terminator
    and empty sentences are left out.  The filter cuts a delta only in front of
    an angle bracket.  Two deviations: a tail of the text that could begin a
    marker is held back and never spoken, since nothing flushes the filter; and
    markers are recognized in lower case only, although they are held back in
    any case. *)
Theorem spoken_reply v parts deltas :
  well_marked v parts → concat deltas = reply v parts →
  let text := said v parts in
  let heard := take (length text - marker_prefix_len (last_said v parts) THINK_OPEN) text in
  speak deltas = sentences heard
  ∧ (∃ pieces rest, heard = concat pieces ++ rest
       ∧ Forall (λ p, sentence_end p = Some (length p)) pieces ∧ sentence_end rest = None
       ∧ speak deltas = List.filter (λ s, negb (bytes_eqb s [])) (List.map trim (pieces ++ [rest])))
  ∧ (∀ t m k, m = THINK_OPEN ∨ m = THINK_CLOSE → marker_prefix_len t m = S k →
       t !! (length t - S k)%nat = Some 60)
  ∧ speak [lit "1 <"] = [lit "1"] ∧ speak [lit "<THINK>x"] = [lit "<THINK>x"].
Proof.
  intros Hw Hd text heard. destruct (filter_reply v parts Hw) as [_ Hf].
  assert (speak deltas = sentences heard) as Hs by (rewrite speak_all, Hd, Hf; done).
  split_and!; [done | | | by vm_compute..].
  - rewrite Hs. apply sentences_pieces.
  - intros t m k [-> | ->]; by apply held_boundary.
Qed.

Lemma spoken_reply_witness :
  speak [lit "<th"; lit "ink>let me"; lit " see</th"; lit "ink>it is 3; "; lit "bye! "]
  = [lit "it is 3;"; lit "bye!"].
Proof.
  assert (well_marked [] [(lit "let me see", lit "it is 3; bye! ")]) as Hw
    by (split; [done | by repeat constructor]).
  assert (concat [lit "<th"; lit "ink>let me"; lit " see</th"; lit "ink>it is 3; "; lit "bye! "]
    = reply [] [(lit "let me see", lit "it is 3; bye! ")]) as Hd by reflexivity.
  rewrite (proj1 (spoken_reply _ _ _ Hw Hd)). vm_compute. reflexivity.
Defined.
