(* ===== verification/F32.v ===== *)
(** * Single-precision floating point

    The type [f32] of Rust, as the executable IEEE 754 binary32 arithmetic of
    the Standard Library's [SpecFloat] (round to nearest, ties to even), with
    the operations that the detection and sound code uses. *)
From Stdlib Require Import ZArith Lia List Bool SpecFloat.
From stdpp Require Import base option list numbers.
From S2P Require Import Prelude.

Definition f32 : Type := spec_float.

#[export] Instance f32_eq_dec : EqDecision f32.
Proof. solve_decision. Defined.

(** The parameters of binary32. *)
Definition prec32 : Z := 24.
Definition emax32 : Z := 128.

Definition f32_add (x y : f32) : f32 := SFadd prec32 emax32 x y.
Definition f32_sub (x y : f32) : f32 := SFsub prec32 emax32 x y.
Definition f32_mul (x y : f32) : f32 := SFmul prec32 emax32 x y.
Definition f32_div (x y : f32) : f32 := SFdiv prec32 emax32 x y.
Definition f32_neg (x : f32) : f32 := SFopp x.
Definition f32_lt (x y : f32) : bool := SFltb x y.
Definition f32_le (x y : f32) : bool := SFleb x y.
Definition f32_is_nan (x : f32) : bool := match x with S754_nan => true | _ => false end.

(** An integer rounded to the nearest value: [n as f32]. *)
Definition f32_of_Z (n : Z) : f32 := binary_normalize prec32 emax32 n 0 false.

(** The decimal literal [n / d]: the quotient of two exact values. *)
Definition f32_lit (n d : Z) : f32 := f32_div (f32_of_Z n) (f32_of_Z d).

Definition f32_zero : f32 := S754_zero false.

(** [f32::max], [f32::min]: the other operand of a NaN. *)
Definition f32_max (x y : f32) : f32 :=
  if f32_is_nan x then y else if f32_is_nan y then x else if f32_lt x y then y else x.
Definition f32_min (x y : f32) : f32 :=
  if f32_is_nan x then y else if f32_is_nan y then x else if f32_lt y x then y else x.

(** [f32::clamp]: a NaN stays a NaN. *)
Definition f32_clamp (x lo hi : f32) : f32 :=
  if f32_lt x lo then lo else if f32_lt hi x then hi else x.

(** [Iterator::sum] on [f32] starts from the negative zero. *)
Definition f32_sum (l : list f32) : f32 := fold_left f32_add l (S754_zero true).

Example f32_tenths : f32_add (f32_lit 1 10) (f32_lit 2 10) = f32_lit 3 10.
Proof. vm_compute. reflexivity. Qed.
Example f32_big : f32_of_Z (2 ^ 24 + 1) = f32_of_Z (2 ^ 24).
Proof. vm_compute. reflexivity. Qed.

(** The type [f64], where the code computes with it. *)
Definition f64 : Type := spec_float.
Definition f64_of_Z (n : Z) : f64 := binary_normalize 53 1024 n 0 false.
Definition f64_sub (x y : f64) : f64 := SFsub 53 1024 x y.
Definition f64_div (x y : f64) : f64 := SFdiv 53 1024 x y.
(** [x.max(0.0)] *)
Definition f64_max_zero (x : f64) : f64 :=
  match x with S754_nan => f32_zero | _ => if SFltb x f32_zero then f32_zero else x end.

(** ** The order *)

(** A key whose lexicographic order is that of [f32]. *)
Definition f32_key (x : f32) : Z * Z * Z :=
  match x with
  | S754_zero _ => (0, 0, 0)
  | S754_infinity s => (if s then -2 else 2, 0, 0)
  | S754_nan => (0, 0, 0)
  | S754_finite s m e => if s then (-1, - e, - Z.pos m) else (1, e, Z.pos m)
  end.

Definition key_lt (a b : Z * Z * Z) : Prop :=
  a.1.1 < b.1.1 ∨ (a.1.1 = b.1.1 ∧ (a.1.2 < b.1.2 ∨ (a.1.2 = b.1.2 ∧ a.2 < b.2))).

Lemma f32_lt_key x y :
  f32_is_nan x = false → f32_is_nan y = false → f32_lt x y = true ↔ key_lt (f32_key x) (f32_key y).
Proof.
  intros Hx Hy. unfold f32_lt, SFltb, key_lt.
  destruct x as [sx|sx| |sx mx ex], y as [sy|sy| |sy my ey]; try done; try destruct sx; try destruct sy; cbn;
    try (split; [done || lia|]; done || lia).
  - destruct (Z.compare_spec ex ey); cbn; try (split; [done || lia|]; done || lia).
    change (Pos.compare_cont Eq mx my) with (mx ?= my)%positive.
    destruct (Pos.compare_spec mx my); cbn; split; done || lia.
  - destruct (Z.compare_spec ex ey); cbn; try (split; [done || lia|]; done || lia).
    change (Pos.compare_cont Eq mx my) with (mx ?= my)%positive.
    destruct (Pos.compare_spec mx my); cbn; split; done || lia.
Qed.

Lemma f32_le_key x y :
  f32_is_nan x = false → f32_is_nan y = false → f32_le x y = true ↔ ¬ key_lt (f32_key y) (f32_key x).
Proof.
  intros Hx Hy. unfold f32_le, SFleb, key_lt.
  destruct x as [sx|sx| |sx mx ex], y as [sy|sy| |sy my ey]; try done; try destruct sx; try destruct sy; cbn;
    try (split; [done || lia|]; done || lia).
  - destruct (Z.compare_spec ex ey); cbn; try (split; [done || lia|]; done || lia).
    change (Pos.compare_cont Eq mx my) with (mx ?= my)%positive.
    destruct (Pos.compare_spec mx my); cbn; split; done || lia.
  - destruct (Z.compare_spec ex ey); cbn; try (split; [done || lia|]; done || lia).
    change (Pos.compare_cont Eq mx my) with (mx ?= my)%positive.
    destruct (Pos.compare_spec mx my); cbn; split; done || lia.
Qed.

Lemma f32_le_not_nan x y : f32_le x y = true → f32_is_nan x = false ∧ f32_is_nan y = false.
Proof. by destruct x, y. Qed.

(** [a] is not below [b], which is not below [c]. *)
Lemma f32_not_lt_trans a b c :
  f32_is_nan a = false → f32_is_nan b = false → f32_is_nan c = false →
  f32_lt a b = false → f32_lt b c = false → f32_lt a c = false.
Proof.
  intros Ha Hb Hc. rewrite <-!not_true_iff_false, !f32_lt_key by done. unfold key_lt. lia.
Qed.

(** ** Casts to integers *)

(** The magnitude [m * 2 ^ e], rounded up, and to the nearest integer with
    halves away from zero. *)
Definition mag_ceil (m : positive) (e : Z) : Z :=
  if 0 <=? e then Z.pos m * 2 ^ e else (Z.pos m + 2 ^ (- e) - 1) / 2 ^ (- e).
Definition mag_round (m : positive) (e : Z) : Z :=
  if 0 <=? e then Z.pos m * 2 ^ e else (2 * Z.pos m + 2 ^ (- e)) / (2 * 2 ^ (- e)).

(** [x.ceil().max(0.0)] and [x.round().max(0.0)] as integers: [as] saturates
    at [top], and [max] turns a NaN into zero. *)
Definition ceil_as (top : Z) (x : f32) : Z :=
  match x with
  | S754_finite false m e => Z.min (mag_ceil m e) top
  | S754_infinity false => top
  | _ => 0
  end.
Definition round_as (top : Z) (x : f32) : Z :=
  match x with
  | S754_finite false m e => Z.min (mag_round m e) top
  | S754_infinity false => top
  | _ => 0
  end.

Lemma ceil_as_range top x : 0 ≤ top → 0 ≤ ceil_as top x ≤ top.
Proof.
  intros Ht. destruct x as [|[]| |[] m e]; cbn; try lia. split; [|lia]. apply Z.min_glb; [|done].
  unfold mag_ceil. case_match eqn:E; [apply Z.leb_le in E; apply Z.mul_nonneg_nonneg; lia|].
  apply Z.div_pos; lia.
Qed.
Lemma round_as_range top x : 0 ≤ top → 0 ≤ round_as top x ≤ top.
Proof.
  intros Ht. destruct x as [|[]| |[] m e]; cbn; try lia. split; [|lia]. apply Z.min_glb; [|done].
  unfold mag_round. case_match eqn:E; [apply Z.leb_le in E; apply Z.mul_nonneg_nonneg; lia|].
  apply Z.leb_gt in E. apply Z.div_pos; lia.
Qed.

Example round_as_half : round_as 100 (f32_lit 5 2) = 3 ∧ round_as 100 (f32_lit 9 4) = 2
  ∧ ceil_as 100 (f32_lit 9 4) = 3 ∧ round_as 100 (f32_neg (f32_lit 9 4)) = 0.
Proof. vm_compute. done. Qed.
