(* ===== verification/Value.v ===== *)
(** * JSON values ([serde_json::Value])

    The values the configurations are read from, with the accessors of
    [serde_json] that the code calls: [get] on an object, and the [as_*]
    family, which return [None] on a value of another type.  A number is a
    [u64], a negative [i64] or a finite [f64], as [serde_json] keeps it. *)
From Stdlib Require Import ZArith Lia List Bool String Floats.SpecFloat.
From stdpp Require Import base option list numbers.
From S2P Require Import Prelude Text F32.

Inductive Number := PosInt (n : Z) | NegInt (n : Z) | Float (x : f64).

(** An object keeps the order of its keys, each of which occurs once. *)
Inductive Value :=
  | VNull
  | VBool (b : bool)
  | VNumber (n : Number)
  | VString (s : bytes)
  | VArray (l : list Value)
  | VObject (m : list (bytes * Value)).

Definition get (key : bytes) (v : Value) : option Value :=
  match v with
  | VObject m => snd <$> List.find (λ kv, bytes_eqb kv.1 key) m
  | _ => None
  end.

Definition as_bool (v : Value) : option bool := match v with VBool b => Some b | _ => None end.
Definition as_str (v : Value) : option bytes := match v with VString s => Some s | _ => None end.
Definition as_u64 (v : Value) : option Z := match v with VNumber (PosInt n) => Some n | _ => None end.
Definition as_f64 (v : Value) : option f64 :=
  match v with
  | VNumber (PosInt n) | VNumber (NegInt n) => Some (f64_of_Z n)
  | VNumber (Float x) => Some x
  | _ => None
  end.

(** [v.get(key).and_then(as_x).unwrap_or(d)] *)
Definition get_or {A} (as_ : Value → option A) (d : A) (key : bytes) (v : Value) : A :=
  default d (get key v ≫= as_).

(** The numbers a [Value] can hold. *)
Definition number_ok (n : Number) : Prop :=
  match n with
  | PosInt n => 0 ≤ n < 2 ^ 64
  | NegInt n => - 2 ^ 63 ≤ n < 0
  | Float x => match x with S754_nan | S754_infinity _ => False | _ => True end
  end.

Fixpoint value_ok (v : Value) : Prop :=
  match v with
  | VNumber n => number_ok n
  | VArray l => (fix all l := match l with [] => True | v :: l => value_ok v ∧ all l end) l
  | VObject m => (fix all m := match m with [] => True | (_, v) :: m => value_ok v ∧ all m end) m
  | _ => True
  end.

Lemma get_ok key v w : value_ok v → get key v = Some w → value_ok w.
Proof.
  destruct v as [| | | | |m]; cbn; try done.
  induction m as [|[k x] m IH]; cbn; [done|]. intros [Hx Hm].
  destruct (bytes_eqb k key); [by intros [= <-]|]. auto.
Qed.

Lemma as_u64_ok v n : value_ok v → as_u64 v = Some n → 0 ≤ n < 2 ^ 64.
Proof. destruct v as [| |[]| | |]; try done. by intros ? [= <-]. Qed.

Lemma get_u64_ok d key v : value_ok v → 0 ≤ d < 2 ^ 64 → 0 ≤ get_or as_u64 d key v < 2 ^ 64.
Proof.
  intros Hv Hd. unfold get_or. destruct (get key v) as [w|] eqn:E; cbn; [|done].
  destruct (as_u64 w) as [n|] eqn:En; cbn; [|done].
  eapply as_u64_ok; [|done]. by eapply get_ok.
Qed.

(** [x as f32] of an [f64]. *)
Definition f32_of_f64 (x : f64) : f32 :=
  match x with
  | S754_finite s m e => binary_normalize prec32 emax32 (if s then Z.neg m else Z.pos m) e s
  | _ => x
  end.

Example f32_of_f64_half : f32_of_f64 (f64_div (f64_of_Z 1) (f64_of_Z 2)) = f32_lit 1 2.
Proof. vm_compute. reflexivity. Qed.
Example f32_of_f64_tenth : f32_of_f64 (f64_div (f64_of_Z 1) (f64_of_Z 10)) = f32_lit 1 10.
Proof. vm_compute. reflexivity. Qed.
