(* ===== verification/Pixels.v ===== *)
(** * Pixel conversion and frame geometry ([crates/streaming/src/encoder/convert.rs])

    Planar YUV 4:2:0 frames: flips, quarter turns, nearest-neighbour
    downscaling, and the conversions from YUYV and RGB and back to RGB.
    Planes are byte lists that the loops of the code write cell by cell, each
    index checked; [usize] arithmetic wraps as in a release build. *)
From Stdlib Require Import ZArith Lia List Bool String.
From stdpp Require Import base option list numbers gmap.
From S2P Require Import Prelude.

(** ** Loops over planes *)

(** [for i in lo..lo + n { body }] *)
Fixpoint for_from {S} (n : nat) (i : Z) (body : Z → S → Res S) (s : S) : Res S :=
  match n with
  | O => Ok s
  | Datatypes.S n => s ← body i s; for_from n (i + 1) body s
  end.

(** [for i in 0..n { body }] *)
Definition for_range {S} (n : Z) (body : Z → S → Res S) (s : S) : Res S :=
  for_from (Z.to_nat n) 0 body s.

(** [plane[i] = v] *)
Definition store (i v : Z) (l : bytes) : Res bytes :=
  if (0 <=? i) && (i <? zlen l) then Ok (<[Z.to_nat i := v]> l) else Panic.

Fixpoint store_all (ws : list (Z * Z)) (l : bytes) : Res bytes :=
  match ws with
  | [] => Ok l
  | (i, v) :: ws => l ← store i v l; store_all ws l
  end.

(** [plane[off..off + row.len()].copy_from_slice(row)], in range *)
Definition put_row (off : Z) (row plane : bytes) : bytes :=
  take (Z.to_nat off) plane ++ row ++ drop (Z.to_nat (off + zlen row)) plane.

(** [plane.chunks(w)] *)
Fixpoint chunks_f (fuel : nat) (w : nat) (l : bytes) : list bytes :=
  match fuel, l with
  | Datatypes.S fuel, _ :: _ => take w l :: chunks_f fuel w (drop w l)
  | _, _ => []
  end.
Definition chunks (w : Z) (l : bytes) : list bytes := chunks_f (length l) (Z.to_nat w) l.

(** ** Frames *)
Record Yuv420p := mkYuv { width : Z; height : Z; data : bytes }.

Definition y_len (f : Yuv420p) : Z := width f * height f.
Definition uv_len (f : Yuv420p) : Z := (width f / 2) * (height f / 2).

Definition yuv_new (w h : Z) : Yuv420p :=
  mkYuv w h (replicate (Z.to_nat (w * h + 2 * ((w / 2) * (h / 2)))) 0).

Definition y_plane (f : Yuv420p) : Res bytes := slice (data f) 0 (y_len f).
Definition u_plane (f : Yuv420p) : Res bytes := slice (data f) (y_len f) (y_len f + uv_len f).
Definition v_plane (f : Yuv420p) : Res bytes := slice_from (data f) (y_len f + uv_len f).

(** *** Flips *)

(** [copy_row]: the two rows have the same length. *)
Definition copy_row (src : bytes) (mirror : bool) : bytes := if mirror then rev src else src.

(** The loop over the pairs of rows, and where it ended. *)
Fixpoint flip_rows (fuel : nat) (w top bottom : Z) (hflip : bool) (plane : bytes)
    : Res (bytes * Z * Z) :=
  if top <? bottom then
    match fuel with
    | O => OutOfFuel
    | Datatypes.S fuel =>
        scratch ← slice plane top (top + w);
        head ← slice plane 0 bottom;
        tail ← slice_from plane bottom;
        _ ← slice head top (top + w);
        bottom_row ← slice tail 0 w;
        let plane := put_row top (copy_row bottom_row hflip) plane in
        let plane := put_row bottom (copy_row scratch hflip) plane in
        flip_rows fuel w (top + w) (bottom - w) hflip plane
    end
  else Ok (plane, top, bottom).

Definition flip_plane (plane : bytes) (w h : Z) (hflip vflip : bool) : Res bytes :=
  if vflip then
    '(plane, top, bottom) ← flip_rows (Z.to_nat h) w 0 (wrap64 (wrap64 (h - 1) * w)) hflip plane;
    if (top =? bottom) && hflip then
      row ← slice plane top (top + w); Ok (put_row top (rev row) plane)
    else Ok plane
  else if hflip then
    if w =? 0 then Panic else Ok (concat (map (@rev Z) (chunks w plane)))
  else Ok plane.

Definition flip (hflip vflip : bool) (f : Yuv420p) : Res Yuv420p :=
  if negb hflip && negb vflip then Ok f
  else
  let w := width f in
  let h := height f in
  let cw := w / 2 in
  let ch := h / 2 in
  let y_len := w * h in
  let uv_len := cw * ch in
  if zlen (data f) <? y_len + 2 * uv_len then Ok f
  else
  yp ← slice (data f) 0 y_len;
  rest ← slice_from (data f) y_len;
  up ← slice rest 0 uv_len;
  vp ← slice_from rest uv_len;
  yp ← flip_plane yp w h hflip vflip;
  if (0 <? cw) && (0 <? ch) then
    up ← flip_plane up cw ch hflip vflip;
    vp ← flip_plane vp cw ch hflip vflip;
    Ok (mkYuv w h (yp ++ up ++ vp))
  else Ok (mkYuv w h (yp ++ up ++ vp)).

(** *** Quarter turns *)
Definition transpose_plane (src dst : bytes) (pw ph : Z) (clockwise : bool) : Res bytes :=
  for_range ph (λ sy dst,
    row ← slice src (sy * pw) ((sy + 1) * pw);
    for_range (zlen row) (λ sx dst,
      v ← at_ row sx;
      store (if clockwise then sx * ph + (ph - 1 - sy) else (pw - 1 - sx) * ph + sy) v dst) dst) dst.

Definition rotated (clockwise : bool) (f : Yuv420p) : Res Yuv420p :=
  let w := width f in
  let h := height f in
  let cw := w / 2 in
  let ch := h / 2 in
  let y_len := w * h in
  let uv_len := cw * ch in
  let out := yuv_new h w in
  if (w =? 0) || (h =? 0) || (zlen (data f) <? y_len + 2 * uv_len) then Ok out
  else
  src ← y_plane f;
  dst ← y_plane out; yp ← transpose_plane src dst w h clockwise;
  up ← u_plane out;
  vp ← v_plane out;
  if (0 <? cw) && (0 <? ch) then
    src ← u_plane f; up ← transpose_plane src up cw ch clockwise;
    src ← v_plane f; vp ← transpose_plane src vp cw ch clockwise;
    Ok (mkYuv h w (yp ++ up ++ vp))
  else Ok (mkYuv h w (yp ++ up ++ vp)).

Definition rotated_dims (w h rotation : Z) : Z * Z :=
  if (rotation =? 90) || (rotation =? 270) then (h, w) else (w, h).

(** *** Downscaling *)

(** [map_axis]: the [u64] product of two [u32] does not overflow. *)
Definition map_axis (dst src : Z) : list Z :=
  map (λ d, Z.of_nat d * src / dst) (seq 0 (Z.to_nat dst)).

Definition downscaled (dst_w dst_h : Z) (f : Yuv420p) : Res Yuv420p :=
  let src_w := width f in
  let src_h := height f in
  let src_y := src_w * src_h in
  let src_c := src_w / 2 * (src_h / 2) in
  if (width f =? 0) || (height f =? 0) || (dst_w =? 0) || (dst_h =? 0)
     || (width f <? dst_w) || (height f <? dst_h) || (zlen (data f) <? src_y + 2 * src_c)
     || ((dst_w =? width f) && (dst_h =? height f))
  then Ok f
  else
  let xmap := map_axis dst_w (width f) in
  let ymap := map_axis dst_h (height f) in
  let dst_ch := Z.max (dst_h / 2) 1 in
  let dst_cw := Z.max (dst_w / 2) 1 in
  let dst_y := dst_w * dst_h in
  let dst_c := dst_ch * dst_cw in
  let out := replicate (Z.to_nat (dst_y + 2 * dst_c)) 0 in
  out ← for_range (zlen ymap) (λ dy out,
    sy ← at_ ymap dy;
    for_range (zlen xmap) (λ dx out,
      sx ← at_ xmap dx;
      v ← at_ (data f) (sy * src_w + sx);
      store (dy * dst_w + dx) v out) out) out;
  let src_cw := src_w / 2 in
  let last_row := zlen ymap - 1 in
  let last_col := zlen xmap - 1 in
  out ← for_range dst_ch (λ dcy out,
    sy ← at_ ymap (Z.min (dcy * 2) last_row);
    let s_row_u := src_y + sy / 2 * src_cw in
    let s_row_v := s_row_u + src_c in
    for_range dst_cw (λ dcx out,
      sx ← at_ xmap (Z.min (dcx * 2) last_col);
      let col := sx / 2 in
      u ← at_ (data f) (s_row_u + col);
      out ← store (dst_y + dcy * dst_cw + dcx) u out;
      v ← at_ (data f) (s_row_v + col);
      store (dst_y + dst_c + dcy * dst_cw + dcx) v out) out) out;
  Ok (mkYuv dst_w dst_h out).

(** *** Conversions *)
Definition yuyv_to_yuv420p (yuyv : bytes) (w h : Z) : Res Yuv420p :=
  if negb ((w mod 2 =? 0) && (h mod 2 =? 0)) then Err "YUYV requires even dimensions: "
  else if zlen yuyv <? w * h * 2 then Err "YUYV buffer too short: "
  else
  let half_w := w / 2 in
  let half_h := h / 2 in
  let frame := yuv_new w h in
  yp ← slice (data frame) 0 (w * h);
  uv ← slice_from (data frame) (w * h);
  up ← slice uv 0 (half_w * half_h);
  vp ← slice_from uv (half_w * half_h);
  yp ← for_range h (λ row yp,
    for_range w (λ col yp,
      v ← at_ yuyv (row * w * 2 + col * 2);
      store (row * w + col) v yp) yp) yp;
  '(up, vp) ← for_range half_h (λ cy p,
    for_range half_w (λ cx p,
      let r0 := (cy * 2) * w * 2 + cx * 4 in
      let r1 := (cy * 2 + 1) * w * 2 + cx * 4 in
      u0 ← at_ yuyv (r0 + 1);
      u1 ← at_ yuyv (r1 + 1);
      v0 ← at_ yuyv (r0 + 3);
      v1 ← at_ yuyv (r1 + 3);
      let idx := cy * half_w + cx in
      up ← store idx (wrap8 ((u0 + u1) / 2)) p.1;
      vp ← store idx (wrap8 ((v0 + v1) / 2)) p.2;
      Ok (up, vp)) p) (up, vp);
  Ok (mkYuv w h (yp ++ up ++ vp)).

Definition clamp (lo hi x : Z) : Z := Z.max lo (Z.min hi x).

(** The luma of an RGB pixel, and the chroma of an average of four. *)
Definition luma_of (r g b : Z) : Z :=
  wrap8 (clamp 16 235 (16 + Z.shiftr (16829 * r + 33038 * g + 6416 * b + 32768) 16)).
Definition cb_of (sr sg sb : Z) : Z :=
  wrap8 (clamp 16 240 (128 + Z.shiftr (-9719 * sr - 19026 * sg + 28736 * sb + 32768) 16)).
Definition cr_of (sr sg sb : Z) : Z :=
  wrap8 (clamp 16 240 (128 + Z.shiftr (28736 * sr - 24070 * sg - 4642 * sb + 32768) 16)).

Definition rgb8_to_yuv420p (rgb : bytes) (w h : Z) : Res Yuv420p :=
  if zlen rgb <? w * h * 3 then Err "RGB buffer too short: "
  else
  let half_w := w / 2 in
  let half_h := h / 2 in
  let frame := yuv_new w h in
  yp ← slice (data frame) 0 (w * h);
  uv ← slice_from (data frame) (w * h);
  up ← slice uv 0 (half_w * half_h);
  vp ← slice_from uv (half_w * half_h);
  yp ← for_range (w * h) (λ i yp,
    r ← at_ rgb (i * 3);
    g ← at_ rgb (i * 3 + 1);
    b ← at_ rgb (i * 3 + 2);
    store i (luma_of r g b) yp) yp;
  '(up, vp) ← for_range half_h (λ cy p,
    for_range half_w (λ cx p,
      '(sr, sg, sb) ← for_range 2 (λ dy s,
        for_range 2 (λ dx s,
          let px := (cy * 2 + dy) * w + (cx * 2 + dx) in
          r ← at_ rgb (px * 3);
          g ← at_ rgb (px * 3 + 1);
          b ← at_ rgb (px * 3 + 2);
          Ok (s.1.1 + r, s.1.2 + g, s.2 + b)) s) (0, 0, 0);
      let idx := cy * half_w + cx in
      up ← store idx (cb_of (sr / 4) (sg / 4) (sb / 4)) p.1;
      vp ← store idx (cr_of (sr / 4) (sg / 4) (sb / 4)) p.2;
      Ok (up, vp)) p) (up, vp);
  Ok (mkYuv w h (yp ++ up ++ vp)).

(** The inverse matrix; [i32] division truncates toward zero. *)
Definition rgb_of (y cu cv : Z) : Z * Z * Z :=
  (wrap8 (clamp 0 255 (y + Z.quot (143 * cv) 100)),
   wrap8 (clamp 0 255 (y - Z.quot (34 * cu + 71 * cv) 100)),
   wrap8 (clamp 0 255 (y + Z.quot (177 * cu) 100))).

Definition yuv420p_to_rgb8 (f : Yuv420p) : Res bytes :=
  let w := width f in
  let h := height f in
  let half_w := w / 2 in
  yp ← y_plane f;
  up ← u_plane f;
  vp ← v_plane f;
  for_range h (λ j rgb,
    for_range w (λ i rgb,
      y ← at_ yp (j * w + i);
      cu ← at_ up ((j / 2) * half_w + i / 2);
      cv ← at_ vp ((j / 2) * half_w + i / 2);
      let '(r, g, b) := rgb_of y (cu - 128) (cv - 128) in
      let off := (j * w + i) * 3 in
      store_all [(off, r); (off + 1, g); (off + 2, b)] rgb) rgb)
    (replicate (Z.to_nat (w * h * 3)) 0).

(** What the [jpeg_decoder] crate gives for a JPEG: its pixels, the
    dimensions ([u16]) and the pixel format. *)
Inductive PixelFormat := RGB24 | L8 | OtherFormat.
Record Decoded := mkDecoded { pixels : bytes; info_width : Z; info_height : Z; pixel_format : PixelFormat }.

(** [decode]: the decoder; an error keeps the context the code adds.  The
    feature [turbojpeg], off by default, is not modelled. *)
Definition mjpeg_to_yuv420p (decode : bytes → option Decoded) (mjpeg : bytes) : Res Yuv420p :=
  match decode mjpeg with
  | None => Err "MJPEG decode failed"
  | Some d =>
      match pixel_format d with
      | RGB24 => rgb8_to_yuv420p (pixels d) (info_width d) (info_height d)
      | L8 =>
          let frame := yuv_new (info_width d) (info_height d) in
          if zlen (pixels d) <=? zlen (data frame) then
            Ok (mkYuv (info_width d) (info_height d) (put_row 0 (pixels d) (data frame)))
          else Panic
      | OtherFormat => Err "unsupported MJPEG pixel format: "
      end
  end.

(** ** Loops that fill a plane *)

Lemma for_from_inv {S} (I : Z → S → Prop) (body : Z → S → Res S) n i s :
  I i s →
  (∀ j s, i ≤ j < i + Z.of_nat n → I j s → ∃ s', body j s = Ok s' ∧ I (j + 1) s') →
  ∃ s', for_from n i body s = Ok s' ∧ I (i + Z.of_nat n) s'.
Proof.
  revert i s. induction n as [|n IH]; intros i s Hi Hs; cbn [for_from].
  - exists s. split; [done|]. by rewrite Z.add_0_r.
  - destruct (Hs i s) as (s' & -> & Hs'); [lia | done |]. cbn [mbind Res_bind].
    destruct (IH (i + 1) s' Hs') as (s2 & E & H2); [intros; apply Hs; [lia|done]|].
    exists s2. split; [done|]. by replace (i + Z.of_nat (Datatypes.S n)) with (i + 1 + Z.of_nat n) by lia.
Qed.

Lemma for_range_inv {S} (I : Z → S → Prop) (body : Z → S → Res S) n s :
  0 ≤ n → I 0 s → (∀ i s, 0 ≤ i < n → I i s → ∃ s', body i s = Ok s' ∧ I (i + 1) s') →
  ∃ s', for_range n body s = Ok s' ∧ I n s'.
Proof.
  intros Hn H0 Hs. destruct (for_from_inv I body (Z.to_nat n) 0 s H0) as (s' & E & H).
  - intros j t Hj. apply Hs. lia.
  - exists s'. split; [done|]. by rewrite Z2Nat.id in H by done.
Qed.

(** [d] is [d0] with the cells in [D] holding the values of [F], and the
    cells outside [P] untouched. *)
Definition filled (F : Z → Z) (P : Z → Prop) (d0 : bytes) (D : Z → Prop) (d : bytes) : Prop :=
  zlen d = zlen d0
  ∧ (∀ i, D i → d !! Z.to_nat i = Some (F i))
  ∧ (∀ i, 0 ≤ i → ¬ P i → d !! Z.to_nat i = d0 !! Z.to_nat i).

Lemma filled_start F P d0 : filled F P d0 (λ _, False) d0.
Proof. by split_and!. Qed.

Lemma filled_weaken F P d0 (D D' : Z → Prop) d : (∀ i, D' i → D i) → filled F P d0 D d → filled F P d0 D' d.
Proof. intros Hd (H1 & H2 & H3). split_and!; auto. Qed.

Lemma filled_store F P d0 D d i :
  filled F P d0 D d → 0 ≤ i < zlen d0 → P i → (∀ j, D j → 0 ≤ j) →
  ∃ d', store i (F i) d = Ok d' ∧ filled F P d0 (λ j, D j ∨ j = i) d'.
Proof.
  intros (H1 & H2 & H3) Hi HP Hpos. unfold store.
  rewrite (proj2 (Z.leb_le 0 i)), (proj2 (Z.ltb_lt i _)) by lia. cbn [andb]. eexists. split; [done|].
  assert (Z.to_nat i < length d)%nat as Hlt by (unfold zlen in *; lia).
  split_and!.
  - unfold zlen in *. by rewrite length_insert.
  - intros j Hj. destruct (decide (j = i)) as [->|Hne]; [by rewrite list_lookup_insert_eq|].
    destruct Hj as [Hj|]; [|done]. rewrite list_lookup_insert_ne; [auto|].
    pose proof (Hpos j Hj). lia.
  - intros j Hj HnP. rewrite list_lookup_insert_ne; [auto|]. intros E. apply HnP.
    by replace j with i by lia.
Qed.

Lemma filled_store_all F P d0 D d ks :
  filled F P d0 D d → Forall (λ i, 0 ≤ i < zlen d0 ∧ P i) ks → (∀ j, D j → 0 ≤ j) →
  ∃ d', store_all (map (λ i, (i, F i)) ks) d = Ok d' ∧ filled F P d0 (λ j, D j ∨ j ∈ ks) d'.
Proof.
  revert D d. induction ks as [|i ks IH]; intros D d Hf Hr Hpos; cbn [map store_all].
  - exists d. split; [done|]. eapply filled_weaken; [|done]. intros j [?|Hj]; [done|].
    exfalso. by apply (not_elem_of_nil j).
  - apply Forall_cons in Hr as [[Hi HP] Hr].
    destruct (filled_store F P d0 D d i Hf Hi HP Hpos) as (d1 & -> & Hf1). cbn [mbind Res_bind].
    destruct (IH _ d1 Hf1 Hr) as (d2 & -> & Hf2).
    { intros j [Hj| ->]; [auto | lia]. }
    eexists. split; [done|]. eapply filled_weaken; [|exact Hf2]. intros j. rewrite elem_of_cons. intuition.
Qed.

(** Two nested loops, each iteration of which writes the cells [g y x]. *)
Section grid.
Context (F : Z → Z) (P : Z → Prop) (n m : Z) (g : Z → Z → list Z) (d0 : bytes).
Context (g_range : ∀ y x, 0 ≤ y < n → 0 ≤ x < m → Forall (λ i, 0 ≤ i < zlen d0 ∧ P i) (g y x)).

Definition reached (D : Z → Prop) (y x : Z) (i : Z) : Prop :=
  D i ∨ ∃ y' x', 0 ≤ y' < n ∧ 0 ≤ x' < m ∧ (y' < y ∨ y' = y ∧ x' < x) ∧ i ∈ g y' x'.

Lemma reached_pos D y x i : (∀ i, D i → 0 ≤ i) → reached D y x i → 0 ≤ i.
Proof.
  intros HD [?|(y' & x' & Hy & Hx & _ & Hi)]; [auto|].
  pose proof (g_range y' x' Hy Hx) as Hg. rewrite Forall_forall in Hg. apply Hg in Hi. lia.
Qed.

Lemma grid_filled (D : Z → Prop) (outer : Z → bytes → Res bytes) (body : Z → Z → bytes → Res bytes) d :
  0 ≤ n → 0 ≤ m → (∀ i, D i → 0 ≤ i) →
  (∀ y d, 0 ≤ y < n → zlen d = zlen d0 → outer y d = for_range m (body y) d) →
  (∀ y x d, 0 ≤ y < n → 0 ≤ x < m → zlen d = zlen d0 →
     body y x d = store_all (map (λ i, (i, F i)) (g y x)) d) →
  filled F P d0 D d →
  ∃ d', for_range n outer d = Ok d' ∧ filled F P d0 (reached D n 0) d'.
Proof.
  intros Hn Hm HD Ho Hb Hf.
  apply (for_range_inv (λ y d, filled F P d0 (reached D y 0) d)); [done | |].
  - eapply filled_weaken; [|exact Hf]. intros i [?|(y' & x' & ? & ? & ? & _)]; [done | lia].
  - intros y d1 Hy Hf1. rewrite Ho by (try apply Hf1; done).
    destruct (for_range_inv (λ x d, filled F P d0 (reached D y x) d) (body y) m d1 Hm Hf1) as (d2 & E & Hf2).
    + intros x d2 Hx Hf2. rewrite Hb by (try apply Hf2; done).
      destruct (filled_store_all F P d0 _ d2 (g y x) Hf2 (g_range y x Hy Hx)) as (d3 & E & Hf3);
        [intros j; by apply reached_pos|].
      exists d3. split; [done|]. eapply filled_weaken; [|exact Hf3].
      intros i [Hi|(y' & x' & Hy' & Hx' & Ho' & Hi)]; [left; by left|].
      destruct (decide (y' = y ∧ x' = x)) as [[-> ->]|Hne]; [by right|].
      left. right. exists y', x'. split_and!; try done; lia.
    + exists d2. split; [done|]. eapply filled_weaken; [|exact Hf2].
      intros i [Hi|(y' & x' & Hy' & Hx' & Ho' & Hi)]; [by left|]. right. exists y', x'.
      split_and!; try done; lia.
Qed.
End grid.

(** ** Planes *)

(** The pixel in column [x] of row [y] of a plane that is [w] wide. *)
Definition px (p : bytes) (w x y : Z) : option Z := p !! Z.to_nat (y * w + x).

Lemma cell_div w x y : 0 ≤ x < w → (y * w + x) / w = y.
Proof. intros. rewrite Z.add_comm, Z.div_add by lia. rewrite Z.div_small; lia. Qed.
Lemma cell_mod w x y : 0 ≤ x < w → (y * w + x) mod w = x.
Proof. intros. rewrite Z.add_comm, Z.mod_add by lia. apply Z.mod_small. lia. Qed.

Lemma cell_range w h x y : 0 ≤ x < w → 0 ≤ y < h → 0 ≤ y * w + x < w * h.
Proof. nia. Qed.

Lemma plane_eq (p q : bytes) w h :
  0 ≤ w → 0 ≤ h → zlen p = w * h → zlen q = w * h →
  (∀ x y, 0 ≤ x < w → 0 ≤ y < h → px p w x y = px q w x y) → p = q.
Proof.
  intros Hw Hh Hp Hq Hx. apply list_eq_same_length with (n := Z.to_nat (w * h)).
  - unfold zlen in Hq. lia.
  - unfold zlen in Hp. lia.
  - intros i a b Hi Ha Hb. assert (0 < w) by nia.
    specialize (Hx (Z.of_nat i mod w) (Z.of_nat i / w)). unfold px in Hx.
    replace (Z.of_nat i / w * w + Z.of_nat i mod w) with (Z.of_nat i) in Hx
      by (rewrite (Z.div_mod (Z.of_nat i) w) at 1; lia).
    rewrite Nat2Z.id in Hx. rewrite Hx in Ha; [congruence | apply Z.mod_pos_bound; lia |].
    split; [apply Z.div_pos; lia | apply Z.div_lt_upper_bound; nia].
Qed.

Lemma px_some p w h x y : zlen p = w * h → 0 ≤ x < w → 0 ≤ y < h → ∃ v, px p w x y = Some v.
Proof.
  intros Hp Hx Hy. unfold px. pose proof (cell_range w h x y Hx Hy).
  apply lookup_lt_is_Some_2. unfold zlen in Hp. lia.
Qed.

(** A row read from a plane, and a row put into it. *)
Lemma slice_row p w h y :
  0 ≤ w → zlen p = w * h → 0 ≤ y < h →
  ∃ row, slice p (y * w) (y * w + w) = Ok row ∧ zlen row = w
    ∧ ∀ x, 0 ≤ x < w → row !! Z.to_nat x = px p w x y.
Proof.
  intros Hw Hp Hy. rewrite slice_in_range by nia. eexists. split; [done|]. split.
  - rewrite zlen_slice by nia. lia.
  - intros x Hx. rewrite lookup_take_lt, lookup_drop by lia. unfold px. f_equal. nia.
Qed.

Lemma zlen_put_row off row p : 0 ≤ off → off + zlen row ≤ zlen p → zlen (put_row off row p) = zlen p.
Proof.
  intros. pose proof (zlen_nonneg row). unfold put_row.
  rewrite !zlen_app, zlen_take, zlen_drop by lia. lia.
Qed.

Lemma px_put_row p w h r row x y :
  zlen p = w * h → zlen row = w → 0 ≤ r < h → 0 ≤ x < w → 0 ≤ y < h →
  px (put_row (r * w) row p) w x y = if y =? r then row !! Z.to_nat x else px p w x y.
Proof.
  intros Hp Hrow Hr Hx Hy. unfold px, put_row.
  assert (length (take (Z.to_nat (r * w)) p) = Z.to_nat (r * w)) as Ht
    by (rewrite length_take; unfold zlen in *; nia).
  assert (length row = Z.to_nat w) as Hl by (unfold zlen in Hrow; lia).
  destruct (Z.eqb_spec y r) as [->|Hne].
  - rewrite lookup_app_r, Ht, lookup_app_l by lia. f_equal. lia.
  - destruct (Z.lt_ge_cases y r).
    + rewrite lookup_app_l, lookup_take_lt by nia. done.
    + rewrite lookup_app_r, lookup_app_r, lookup_drop by nia. f_equal. nia.
Qed.

Lemma lookup_rev_row (row : bytes) w x :
  zlen row = w → 0 ≤ x < w → rev row !! Z.to_nat x = row !! Z.to_nat (w - 1 - x).
Proof.
  intros Hw Hx. rewrite rev_alt. change (rev_append row []) with (reverse row).
  unfold zlen in Hw. rewrite reverse_lookup by lia. f_equal. lia.
Qed.

Lemma zlen_rev {A} (l : list A) : zlen (rev l) = zlen l.
Proof. unfold zlen. by rewrite length_rev. Qed.

Lemma zlen_copy_row row m : zlen (copy_row row m) = zlen row.
Proof. destruct m; [apply zlen_rev | done]. Qed.

(** The column or row a mirror takes [x] to. *)
Definition mirror (m : bool) (w x : Z) : Z := if m then w - 1 - x else x.

Lemma mirror_range m w x : 0 ≤ x < w → 0 ≤ mirror m w x < w.
Proof. destruct m; cbn; lia. Qed.
Lemma mirror_mirror m w x : mirror m w (mirror m w x) = x.
Proof. destruct m; cbn; lia. Qed.

Lemma lookup_copy_row row m w x :
  zlen row = w → 0 ≤ x < w → copy_row row m !! Z.to_nat x = row !! Z.to_nat (mirror m w x).
Proof. intros. destruct m; [by apply lookup_rev_row | done]. Qed.

(** *** Mirrors *)
Section flip_plane.
Context (w h : Z) (hf : bool) (p0 : bytes).
Context (Hw : 0 < w) (Hh : 0 < h) (Hp0 : zlen p0 = w * h).

(** The first and the last [i] rows have been exchanged and mirrored. *)
Definition swapped (i : Z) (p : bytes) : Prop :=
  zlen p = w * h ∧ ∀ x y, 0 ≤ x < w → 0 ≤ y < h →
    px p w x y = if (y <? i) || (h - 1 - i <? y) then px p0 w (mirror hf w x) (h - 1 - y)
                 else px p0 w x y.

Lemma swapped_step i p :
  0 ≤ i → 2 * i < h - 1 → swapped i p →
  ∃ scratch bottom,
    slice p (i * w) (i * w + w) = Ok scratch
    ∧ slice p ((h - 1 - i) * w) ((h - 1 - i) * w + w) = Ok bottom
    ∧ swapped (i + 1) (put_row ((h - 1 - i) * w) (copy_row scratch hf)
                         (put_row (i * w) (copy_row bottom hf) p)).
Proof.
  intros Hi Hi2 [Hp Hx].
  destruct (slice_row p w h i) as (sr & -> & Ls & Es); [lia | done | lia |].
  destruct (slice_row p w h (h - 1 - i)) as (br & -> & Lb & Eb); [lia | done | lia |].
  exists sr, br. split; [done|]. split; [done|].
  set (p1 := put_row (i * w) (copy_row br hf) p).
  assert (zlen p1 = w * h) as Hp1 by (unfold p1; rewrite zlen_put_row; rewrite ?zlen_copy_row; nia).
  split; [rewrite zlen_put_row; rewrite ?zlen_copy_row; nia|].
  intros x y Hxr Hyr. pose proof (mirror_range hf w x Hxr) as Hmr.
  rewrite (px_put_row _ w h) by (rewrite ?zlen_copy_row; lia). unfold p1.
  rewrite (px_put_row _ w h) by (rewrite ?zlen_copy_row; lia).
  rewrite !(lookup_copy_row _ hf w) by done. rewrite Es, Eb by done.
  rewrite !Hx by lia.
  destruct (Z.eqb_spec y (h - 1 - i)) as [->|]; [|destruct (Z.eqb_spec y i) as [->|]].
  - rewrite (proj2 (Z.ltb_ge i i)), (proj2 (Z.ltb_ge (h - 1 - i) i)) by lia. cbn [orb].
    rewrite (proj2 (Z.ltb_lt (h - 1 - (i + 1)) _)) by lia. rewrite orb_true_r. f_equal. lia.
  - rewrite (proj2 (Z.ltb_ge (h - 1 - i) i)), (proj2 (Z.ltb_ge (h - 1 - i) (h - 1 - i))) by lia.
    rewrite (proj2 (Z.ltb_lt i (i + 1))) by lia. cbn [orb].
    by destruct (Z.ltb_spec i (h - 1 - i)), (Z.ltb_spec (h - 1 - i) i); try lia.
  - by destruct (Z.ltb_spec y i), (Z.ltb_spec (h - 1 - i) y), (Z.ltb_spec y (i + 1)),
      (Z.ltb_spec (h - 1 - (i + 1)) y); try lia.
Qed.

Lemma slice_slice_ok {A} (l : list A) a b c : 0 ≤ a ≤ b → b ≤ c → c ≤ zlen l →
  ∃ head r, slice l 0 c = Ok head ∧ slice head a b = Ok r.
Proof.
  intros. rewrite slice_in_range by lia. do 2 eexists. split; [done|].
  rewrite slice_in_range; [done | lia |]. rewrite zlen_slice; lia.
Qed.

Lemma slice_from_slice {A} (l : list A) a n : 0 ≤ a → 0 ≤ n → a + n ≤ zlen l →
  ∃ tail, slice_from l a = Ok tail ∧ slice tail 0 n = slice l a (a + n).
Proof.
  intros. unfold slice_from. rewrite slice_in_range by lia. eexists. split; [done|].
  rewrite !slice_in_range; rewrite ?zlen_slice; try lia. f_equal.
  rewrite Z2Nat.inj_0, drop_0, take_take. f_equal; lia.
Qed.

Lemma flip_rows_ok fuel i p :
  0 ≤ i → 2 * i ≤ h → h ≤ Z.of_nat fuel + i → swapped i p →
  ∃ p' j, flip_rows fuel w (i * w) ((h - 1 - i) * w) hf p = Ok (p', j * w, (h - 1 - j) * w)
    ∧ (2 * j = h - 1 ∨ 2 * j = h) ∧ swapped j p'.
Proof.
  revert i p. induction fuel as [|fuel IH]; intros i p Hi H2 Hf Hs; cbn [flip_rows].
  - exists p, i. rewrite (proj2 (Z.ltb_ge _ _)) by nia. split; [done|]. split; [lia | done].
  - destruct (Z.ltb_spec (i * w) ((h - 1 - i) * w)) as [Hlt|Hge].
    + assert (2 * i < h - 1) by nia.
      destruct (swapped_step i p Hi ltac:(lia) Hs) as (sr & br & Esr & Ebr & Hs').
      destruct Hs as [Hp _]. rewrite Esr. cbn [mbind Res_bind].
      destruct (slice_slice_ok p (i * w) (i * w + w) ((h - 1 - i) * w)) as (head & r & -> & Er); [nia..|].
      cbn [mbind Res_bind].
      destruct (slice_from_slice p ((h - 1 - i) * w) w) as (tail & -> & Et); [nia..|].
      cbn [mbind Res_bind]. rewrite Er. cbn [mbind Res_bind]. rewrite Et, Ebr. cbn [mbind Res_bind].
      replace (i * w + w) with ((i + 1) * w) by lia.
      replace ((h - 1 - i) * w - w) with ((h - 1 - (i + 1)) * w) by lia.
      apply IH; [lia | lia | lia | done].
    + exists p, i. split; [done|]. split; [nia | done].
Qed.
End flip_plane.

Lemma concat_rev_chunks_px p w n x y :
  0 < w → zlen p = w * Z.of_nat n → 0 ≤ x < w → 0 ≤ y < Z.of_nat n →
  zlen (concat (map (@rev Z) (chunks w p))) = zlen p
  ∧ px (concat (map (@rev Z) (chunks w p))) w x y = px p w (w - 1 - x) y.
Proof.
  intros Hw Hp Hx. unfold chunks.
  assert (∀ fuel (p : bytes) n y, (length p ≤ fuel)%nat → zlen p = w * Z.of_nat n → 0 ≤ y < Z.of_nat n →
    zlen (concat (map (@rev Z) (chunks_f fuel (Z.to_nat w) p))) = zlen p
    ∧ px (concat (map (@rev Z) (chunks_f fuel (Z.to_nat w) p))) w x y = px p w (w - 1 - x) y) as Hgen; [|by apply Hgen].
  clear p n y Hp. induction fuel as [|fuel IH]; intros p [|n] y Hf Hp Hy; try lia.
  { unfold zlen in Hp. nia. }
  destruct p as [|b p']; [unfold zlen in Hp; cbn in Hp; nia|]. set (p := b :: p') in *.
  change (chunks_f (Datatypes.S fuel) (Z.to_nat w) p)
    with (take (Z.to_nat w) p :: chunks_f fuel (Z.to_nat w) (drop (Z.to_nat w) p)). cbn [map concat].
  assert (zlen (take (Z.to_nat w) p) = w) as Ht by (rewrite zlen_take; nia).
  assert (zlen (drop (Z.to_nat w) p) = w * Z.of_nat n) as Hd by (rewrite zlen_drop; nia).
  assert (length (drop (Z.to_nat w) p) ≤ fuel)%nat as Hfd
    by (rewrite length_drop; unfold p in *; cbn [length] in *; lia).
  assert (length (rev (take (Z.to_nat w) p)) = Z.to_nat w) as Hlr
    by (rewrite length_rev; unfold zlen in Ht; lia).
  rewrite zlen_app, zlen_rev, Ht. unfold px in *. destruct (decide (y = 0)) as [->|Hy0].
  - split.
    + destruct n as [|n].
      * rewrite (zlen_0 (drop _ p)) by lia. destruct fuel; cbn; rewrite zlen_nil; lia.
      * destruct (IH (drop (Z.to_nat w) p) (S n) 0 Hfd Hd) as [-> _]; lia.
    + rewrite lookup_app_l by lia. cbn [Z.mul]. rewrite !Z.add_0_l.
      rewrite (lookup_rev_row _ w) by done. by rewrite lookup_take_lt by lia.
  - destruct (IH (drop (Z.to_nat w) p) n (y - 1) Hfd Hd ltac:(lia)) as [-> E]. split; [lia|].
    rewrite lookup_app_r by nia. rewrite Hlr.
    replace (Z.to_nat (y * w + x) - Z.to_nat w)%nat with (Z.to_nat ((y - 1) * w + x)) by nia.
    rewrite E, lookup_drop. f_equal. nia.
Qed.

Lemma flip_plane_px p w h hf vf :
  0 < w → 0 < h → zlen p = w * h → w * h < 2 ^ 64 →
  ∃ p', flip_plane p w h hf vf = Ok p' ∧ zlen p' = w * h
    ∧ ∀ x y, 0 ≤ x < w → 0 ≤ y < h → px p' w x y = px p w (mirror hf w x) (mirror vf h y).
Proof.
  intros Hw Hh Hp Hb. unfold flip_plane. destruct vf.
  - replace (wrap64 (wrap64 (h - 1) * w)) with ((h - 1 - 0) * w)
      by (unfold wrap64; rewrite (Z.mod_small (h - 1)), Z.mod_small; nia).
    destruct (flip_rows_ok w h hf p Hw Hh (Z.to_nat h) 0 p) as (p' & j & E & Hj & Hl & Hx);
      [lia | lia | lia | |].
    { split; [done|]. intros x y Hx Hy. rewrite (proj2 (Z.ltb_ge y 0)), (proj2 (Z.ltb_ge _ y)) by lia. done. }
    rewrite Z.mul_0_l in E. rewrite E. cbn [mbind Res_bind].
    destruct (Z.eqb_spec (j * w) ((h - 1 - j) * w)) as [Heq|Hne], hf; cbn [andb].
    + assert (2 * j = h - 1) as Hj' by nia.
      destruct (slice_row p' w h j) as (row & -> & Lr & Er); [lia | done | lia |]. cbn [mbind Res_bind].
      eexists. split; [done|]. split; [rewrite zlen_put_row; rewrite ?zlen_rev; nia|].
      intros x y Hxr Hyr. rewrite (px_put_row _ w h) by (rewrite ?zlen_rev; lia). cbn [mirror] in *.
      destruct (Z.eqb_spec y j) as [->|Hn].
      * rewrite (lookup_rev_row _ w) by done. rewrite Er by lia. rewrite Hx by lia.
        rewrite (proj2 (Z.ltb_ge j j)), (proj2 (Z.ltb_ge _ j)) by lia. cbn [orb]. f_equal. lia.
      * rewrite Hx by lia. destruct (Z.ltb_spec y j), (Z.ltb_spec (h - 1 - j) y); cbn [orb]; try done; lia.
    + assert (2 * j = h - 1) as Hj' by nia. exists p'. split; [done|]. split; [done|].
      intros x y Hxr Hyr. rewrite Hx by done. cbn [mirror].
      destruct (Z.ltb_spec y j), (Z.ltb_spec (h - 1 - j) y); cbn [orb]; try done. f_equal. lia.
    + assert (2 * j = h) as Hj' by nia. exists p'. split; [done|]. split; [done|].
      intros x y Hxr Hyr. rewrite Hx by done.
      destruct (Z.ltb_spec y j), (Z.ltb_spec (h - 1 - j) y); cbn [orb]; try done; lia.
    + assert (2 * j = h) as Hj' by nia. exists p'. split; [done|]. split; [done|].
      intros x y Hxr Hyr. rewrite Hx by done.
      destruct (Z.ltb_spec y j), (Z.ltb_spec (h - 1 - j) y); cbn [orb]; try done; lia.
  - destruct hf; [|by exists p].
    rewrite (proj2 (Z.eqb_neq w 0)) by lia. eexists. split; [done|]. split.
    + destruct (concat_rev_chunks_px p w (Z.to_nat h) 0 0) as [-> _]; lia.
    + intros x y Hx Hy. destruct (concat_rev_chunks_px p w (Z.to_nat h) x y) as [_ ->]; [lia..|done].
Qed.

(** *** Quarter turns *)

(** The source pixel of the pixel [(x, y)] of a turned plane. *)
Definition turn (clockwise : bool) (pw ph x y : Z) : Z * Z :=
  if clockwise then (y, ph - 1 - x) else (pw - 1 - y, x).

Lemma turn_range cw pw ph x y : 0 ≤ x < ph → 0 ≤ y < pw →
  0 ≤ (turn cw pw ph x y).1 < pw ∧ 0 ≤ (turn cw pw ph x y).2 < ph.
Proof. destruct cw; cbn; lia. Qed.

Lemma filled_px F P d0 D d w x y :
  filled F P d0 D d → D (y * w + x) → px d w x y = Some (F (y * w + x)).
Proof. intros (_ & H & _). apply H. Qed.

Lemma store_one (d : bytes) i v : store i v d = store_all [(i, v)] d.
Proof. cbn [store_all]. by destruct (store i v d). Qed.

Lemma transpose_plane_px src dst pw ph cw :
  0 < pw → 0 < ph → zlen src = pw * ph → zlen dst = pw * ph →
  ∃ d, transpose_plane src dst pw ph cw = Ok d ∧ zlen d = pw * ph
    ∧ ∀ x y, 0 ≤ x < ph → 0 ≤ y < pw →
        px d ph x y = px src pw (turn cw pw ph x y).1 (turn cw pw ph x y).2.
Proof.
  intros Hw Hh Hs Hd.
  set (F i := default 0 (let t := turn cw pw ph (i mod ph) (i / ph) in px src pw t.1 t.2)).
  set (g sy sx := [if cw then sx * ph + (ph - 1 - sy) else (pw - 1 - sx) * ph + sy]).
  destruct (grid_filled F (λ _, True) ph pw g dst) with
    (D := λ _ : Z, False)
    (outer := λ sy dst, row ← slice src (sy * pw) ((sy + 1) * pw);
        for_range (zlen row) (λ sx dst, v ← at_ row sx;
          store (if cw then sx * ph + (ph - 1 - sy) else (pw - 1 - sx) * ph + sy) v dst) dst)
    (body := λ sy sx dst, store_all (map (λ i, (i, F i)) (g sy sx)) dst)
    (d := dst) as (d & E & (L & Hf & _)); try lia; try done.
  - intros y x Hy Hx. constructor; [|constructor]. split; [|done]. destruct cw; nia.
  - intros sy d Hsy Ld. destruct (slice_row src pw ph sy) as (row & Er & Lr & Hrow); [lia | done | lia |].
    replace ((sy + 1) * pw) with (sy * pw + pw) by lia. rewrite Er. cbn [mbind Res_bind]. rewrite Lr.
    unfold for_range. assert (∀ n i d, 0 ≤ i → i + Z.of_nat n ≤ pw →
      for_from n i (λ sx dst, v ← at_ row sx;
          store (if cw then sx * ph + (ph - 1 - sy) else (pw - 1 - sx) * ph + sy) v dst) d
      = for_from n i (λ sx dst, store_all (map (λ i, (i, F i)) (g sy sx)) dst) d) as Hext;
      [|apply Hext; lia].
    clear d Ld. induction n as [|n IH]; intros i d Hi Hn; cbn [for_from]; [done|].
    destruct (px_some src pw ph i sy Hs) as [v Hv]; [lia..|].
    rewrite (proj2 (at_Ok_iff row i v)) by (split; [lia | by rewrite Hrow by lia]).
    cbn [mbind Res_bind]. rewrite store_one. cbn [map g].
    replace (F (if cw then i * ph + (ph - 1 - sy) else (pw - 1 - i) * ph + sy)) with v.
    2: { unfold F. destruct cw; rewrite cell_div, cell_mod by lia; cbn [turn fst snd].
         - replace (ph - 1 - (ph - 1 - sy)) with sy by lia. by rewrite Hv.
         - replace (pw - 1 - (pw - 1 - i)) with i by lia. by rewrite Hv. }
    destruct (store_all _ d); cbn [Res_bind]; try done. apply IH; lia.
  - exists d. split; [exact E|]. split; [lia|]. intros x y Hx Hy.
    destruct (turn_range cw pw ph x y Hx Hy) as [T1 T2].
    destruct (px_some src pw ph _ _ Hs T1 T2) as [v Hv]. rewrite Hv.
    unfold px at 1. rewrite (Hf (y * ph + x)).
    + f_equal. unfold F. rewrite cell_div, cell_mod by lia. by rewrite Hv.
    + right. exists (turn cw pw ph x y).2, (turn cw pw ph x y).1. split_and!; try lia.
      unfold g. apply list_elem_of_singleton. destruct cw; cbn [turn fst snd]; f_equal; lia.
Qed.

(** ** Frames *)

(** A frame as the constructors and decoders build it; a [Vec] is shorter
    than [isize::MAX]. *)
Record frame_ok (f : Yuv420p) : Prop := {
  fk_width : 0 < width f;
  fk_height : 0 < height f;
  fk_data : zlen (data f) = y_len f + 2 * uv_len f;
  fk_max : zlen (data f) < 2 ^ 63;
}.

(** The pixels: luma, and the two chroma planes at half the resolution. *)
Definition luma (f : Yuv420p) (x y : Z) : option Z := px (take (Z.to_nat (y_len f)) (data f)) (width f) x y.
Definition cb (f : Yuv420p) (x y : Z) : option Z :=
  px (take (Z.to_nat (uv_len f)) (drop (Z.to_nat (y_len f)) (data f))) (width f / 2) x y.
Definition cr (f : Yuv420p) (x y : Z) : option Z :=
  px (drop (Z.to_nat (y_len f + uv_len f)) (data f)) (width f / 2) x y.

Lemma uv_len_nonneg f : 0 < width f → 0 < height f → 0 ≤ uv_len f.
Proof. intros. unfold uv_len. apply Z.mul_nonneg_nonneg; apply Z.div_pos; lia. Qed.

Lemma frame_planes f : frame_ok f → ∃ yp up vp,
  data f = yp ++ up ++ vp ∧ zlen yp = y_len f ∧ zlen up = uv_len f ∧ zlen vp = uv_len f.
Proof.
  intros [Hw Hh Hd _]. pose proof (uv_len_nonneg f Hw Hh). assert (0 < y_len f) by (unfold y_len; nia).
  exists (take (Z.to_nat (y_len f)) (data f)),
    (take (Z.to_nat (uv_len f)) (drop (Z.to_nat (y_len f)) (data f))),
    (drop (Z.to_nat (uv_len f)) (drop (Z.to_nat (y_len f)) (data f))).
  rewrite !take_drop. split; [done|].
  assert (zlen (drop (Z.to_nat (y_len f)) (data f)) = 2 * uv_len f) as Hr by (rewrite zlen_drop; lia).
  rewrite !zlen_take, (zlen_drop (drop _ _)) by lia. split_and!; lia.
Qed.

Lemma mk_planes w h yp up vp f :
  f = mkYuv w h (yp ++ up ++ vp) → zlen yp = w * h → zlen up = (w / 2) * (h / 2) →
  (∀ x y, luma f x y = px yp w x y) ∧ (∀ x y, cb f x y = px up (w / 2) x y)
  ∧ (∀ x y, cr f x y = px vp (w / 2) x y).
Proof.
  intros -> Hy Hu. unfold luma, cb, cr, y_len, uv_len. cbn [width height data].
  rewrite <-Hy, <-Hu, length_zlen.
  replace (Z.to_nat (zlen yp + zlen up)) with (length yp + length up)%nat by (unfold zlen; lia).
  rewrite length_zlen, take_app_length, drop_app_length, take_app_length.
  rewrite <-drop_drop, drop_app_length, drop_app_length. done.
Qed.

Lemma frame_eq f g :
  frame_ok f → frame_ok g → width f = width g → height f = height g →
  (∀ x y, 0 ≤ x < width f → 0 ≤ y < height f → luma f x y = luma g x y) →
  (∀ x y, 0 ≤ x < width f / 2 → 0 ≤ y < height f / 2 → cb f x y = cb g x y ∧ cr f x y = cr g x y) →
  f = g.
Proof.
  intros Hf Hg Ew Eh Hl Hc.
  destruct (frame_planes f Hf) as (y1 & u1 & v1 & D1 & Ly1 & Lu1 & Lv1).
  destruct (frame_planes g Hg) as (y2 & u2 & v2 & D2 & Ly2 & Lu2 & Lv2).
  destruct f as [w h d], g as [w' h' d']. cbn [width height data] in *. subst w' h' d d'.
  unfold y_len, uv_len in *. cbn [width height] in *.
  destruct (mk_planes w h y1 u1 v1 _ eq_refl Ly1 Lu1) as (A1 & A2 & A3).
  destruct (mk_planes w h y2 u2 v2 _ eq_refl Ly2 Lu2) as (B1 & B2 & B3).
  destruct Hf as [Hw Hh _ _]. cbn [width height] in *.
  assert (0 ≤ w / 2 ∧ 0 ≤ h / 2) as [] by (split; apply Z.div_pos; lia).
  f_equal. f_equal; [|f_equal].
  - apply (plane_eq _ _ w h); try lia. intros. rewrite <-A1, <-B1. auto.
  - apply (plane_eq _ _ (w / 2) (h / 2)); try lia. intros. rewrite <-A2, <-B2. by apply Hc.
  - apply (plane_eq _ _ (w / 2) (h / 2)); try lia. intros. rewrite <-A3, <-B3. by apply Hc.
Qed.

Lemma slice_app_l {A} (l k : list A) : slice (l ++ k) 0 (zlen l) = Ok l.
Proof.
  pose proof (zlen_nonneg l). pose proof (zlen_nonneg k).
  rewrite slice_in_range by (rewrite ?zlen_app; lia).
  rewrite Z.sub_0_r, length_zlen, Z2Nat.inj_0, drop_0. by rewrite take_app_length.
Qed.

Lemma slice_app_l' {A} (l k : list A) n : n = zlen l → slice (l ++ k) 0 n = Ok l.
Proof. intros ->. apply slice_app_l. Qed.

(** What an operation that maps pixels to pixels gives: a frame of [w] by
    [h] whose pixel [(x, y)] is that of [f] at [t], in each plane. *)
Record mapped (f g : Yuv420p) (w h : Z) (t : Z → Z → Z → Z → Z * Z) : Prop := {
  mp_ok : frame_ok g;
  mp_width : width g = w;
  mp_height : height g = h;
  mp_luma x y : 0 ≤ x < w → 0 ≤ y < h →
    luma g x y = luma f (t (width f) (height f) x y).1 (t (width f) (height f) x y).2;
  mp_chroma x y : 0 ≤ x < w / 2 → 0 ≤ y < h / 2 →
    cb g x y = cb f (t (width f / 2) (height f / 2) x y).1 (t (width f / 2) (height f / 2) x y).2
    ∧ cr g x y = cr f (t (width f / 2) (height f / 2) x y).1 (t (width f / 2) (height f / 2) x y).2;
}.

Definition mirrors (hf vf : bool) (w h x y : Z) : Z * Z := (mirror hf w x, mirror vf h y).
Definition turns (clockwise : bool) (w h x y : Z) : Z * Z := turn clockwise w h x y.

(** A frame, cut into its planes. *)
Record planes (f : Yuv420p) (yp up vp : bytes) : Prop := {
  pl_data : data f = yp ++ up ++ vp;
  pl_y : zlen yp = y_len f;
  pl_u : zlen up = uv_len f;
  pl_v : zlen vp = uv_len f;
}.

Lemma plane_reads f yp up vp :
  planes f yp up vp → y_plane f = Ok yp ∧ u_plane f = Ok up ∧ v_plane f = Ok vp.
Proof.
  intros [Hd Hy Hu _]. unfold y_plane, u_plane, v_plane. rewrite Hd, <-Hy, <-Hu.
  pose proof (zlen_nonneg yp). pose proof (zlen_nonneg up). pose proof (zlen_nonneg vp). split_and!.
  - apply slice_app_l.
  - rewrite slice_in_range by (rewrite ?zlen_app; lia).
    replace (zlen yp + zlen up - zlen yp) with (zlen up) by lia.
    by rewrite !length_zlen, drop_app_length, take_app_length.
  - replace (zlen yp + zlen up) with (zlen (yp ++ up)) by apply zlen_app.
    rewrite app_assoc. apply slice_from_app.
Qed.

(** A frame of turned or mirrored planes, from the planes. *)
Lemma mapped_planes f yp up vp w h yp' up' vp' t :
  frame_ok f → planes f yp up vp →
  0 < w → 0 < h → w * h = y_len f → (w / 2) * (h / 2) = uv_len f →
  zlen yp' = y_len f → zlen up' = uv_len f → zlen vp' = uv_len f →
  (∀ x y, 0 ≤ x < w → 0 ≤ y < h →
     px yp' w x y = px yp (width f) (t (width f) (height f) x y).1 (t (width f) (height f) x y).2) →
  (∀ x y, 0 ≤ x < w / 2 → 0 ≤ y < h / 2 →
     let s := t (width f / 2) (height f / 2) x y in
     px up' (w / 2) x y = px up (width f / 2) s.1 s.2 ∧ px vp' (w / 2) x y = px vp (width f / 2) s.1 s.2) →
  mapped f (mkYuv w h (yp' ++ up' ++ vp')) w h t.
Proof.
  intros Hf [Hd Ly Lu Lv] Hw Hh Ey Eu Ly' Lu' Lv' Hy Hc. destruct Hf as [_ _ Hl Hm].
  destruct (mk_planes (width f) (height f) yp up vp f) as (A1 & A2 & A3);
    [destruct f; cbn in *; by rewrite Hd | done | done |].
  destruct (mk_planes w h yp' up' vp' _ eq_refl) as (B1 & B2 & B3); [lia | lia |].
  split; try done.
  - split; try done.
    + unfold y_len at 1, uv_len at 1. cbn [width height data]. rewrite !zlen_app. lia.
    + cbn [data]. rewrite !zlen_app. lia.
  - intros x y Hx Hy'. rewrite B1, A1. by apply Hy.
  - intros x y Hx Hy'. rewrite B2, B3, A2, A3. by apply Hc.
Qed.

Lemma flip_mapped hf vf f :
  frame_ok f → ∃ g, flip hf vf f = Ok g ∧ mapped f g (width f) (height f) (mirrors hf vf).
Proof.
  intros Hf. destruct (frame_planes f Hf) as (yp & up & vp & Hd & Ly & Lu & Lv).
  assert (planes f yp up vp) as Hpl by done.
  pose proof Hf as [Hw Hh Hl Hm]. pose proof (uv_len_nonneg f Hw Hh).
  assert (0 < y_len f) by (unfold y_len; nia).
  unfold flip. destruct (negb hf && negb vf) eqn:E0.
  { exists f. split; [done|]. by destruct hf, vf. }
  change (width f * height f) with (y_len f). change (width f / 2 * (height f / 2)) with (uv_len f).
  rewrite (proj2 (Z.ltb_ge _ _)) by lia. rewrite Hd, <-Ly, slice_app_l. cbn [mbind Res_bind].
  rewrite slice_from_app. cbn [mbind Res_bind]. rewrite <-Lu, slice_app_l. cbn [mbind Res_bind].
  rewrite slice_from_app. cbn [mbind Res_bind].
  destruct (flip_plane_px yp (width f) (height f) hf vf) as (yp' & -> & Ly' & Hy);
    [done | done | unfold y_len in Ly; done | unfold y_len in *; lia |]. cbn [mbind Res_bind].
  destruct ((0 <? width f / 2) && (0 <? height f / 2)) eqn:E2.
  - apply andb_true_iff in E2 as [E2 E3]. apply Z.ltb_lt in E2, E3.
    destruct (flip_plane_px up (width f / 2) (height f / 2) hf vf) as (up' & -> & Lu' & Hu);
      [done | done | done | unfold uv_len in *; lia |]. cbn [mbind Res_bind].
    destruct (flip_plane_px vp (width f / 2) (height f / 2) hf vf) as (vp' & -> & Lv' & Hv);
      [done | done | done | unfold uv_len in *; lia |]. cbn [mbind Res_bind].
    eexists. split; [done|]. apply (mapped_planes f yp up vp); auto.
  - eexists. split; [done|]. apply (mapped_planes f yp up vp); try done.
    intros x y Hx Hy'. apply andb_false_iff in E2 as [E2|E2]; apply Z.ltb_ge in E2; lia.
Qed.

Definition zeros (n : Z) : bytes := replicate (Z.to_nat n) 0.

Lemma zlen_zeros n : 0 ≤ n → zlen (zeros n) = n.
Proof. intros. unfold zlen, zeros. rewrite length_replicate. lia. Qed.

Lemma yuv_new_planes w h :
  0 ≤ w → 0 ≤ h →
  planes (yuv_new w h) (zeros (w * h)) (zeros ((w / 2) * (h / 2))) (zeros ((w / 2) * (h / 2))).
Proof.
  intros. assert (0 ≤ w / 2 ∧ 0 ≤ h / 2) as [] by (split; apply Z.div_pos; lia).
  split; try (rewrite zlen_zeros by nia; done).
  unfold zeros, yuv_new. cbn [data]. rewrite <-!replicate_add. f_equal. nia.
Qed.

Lemma rotated_mapped cw f :
  frame_ok f → ∃ g, rotated cw f = Ok g ∧ mapped f g (height f) (width f) (turns cw).
Proof.
  intros Hf. destruct (frame_planes f Hf) as (yp & up & vp & Hd & Ly & Lu & Lv).
  assert (planes f yp up vp) as Hpl by done.
  pose proof Hf as [Hw Hh Hl Hm]. pose proof (uv_len_nonneg f Hw Hh).
  assert (0 < y_len f) by (unfold y_len; nia).
  unfold rotated. rewrite (proj2 (Z.eqb_neq (width f) 0)), (proj2 (Z.eqb_neq (height f) 0)) by lia.
  change (width f * height f) with (y_len f). change (width f / 2 * (height f / 2)) with (uv_len f).
  rewrite (proj2 (Z.ltb_ge _ _)) by lia. cbn [orb].
  destruct (plane_reads _ _ _ _ Hpl) as (-> & -> & ->).
  destruct (plane_reads _ _ _ _ (yuv_new_planes (height f) (width f) ltac:(lia) ltac:(lia))) as (-> & -> & ->).
  replace (height f * width f) with (y_len f) by (unfold y_len; lia).
  replace (height f / 2 * (width f / 2)) with (uv_len f) by (unfold uv_len; lia).
  cbn [mbind Res_bind].
  destruct (transpose_plane_px yp (zeros (y_len f)) (width f) (height f) cw) as (yp' & -> & Ly' & Hy);
    [done | done | done | by rewrite zlen_zeros by lia |]. cbn [mbind Res_bind].
  assert (∀ up' vp', zlen up' = uv_len f → zlen vp' = uv_len f →
    (∀ x y, 0 ≤ x < height f / 2 → 0 ≤ y < width f / 2 →
     let s := turn cw (width f / 2) (height f / 2) x y in
     px up' (height f / 2) x y = px up (width f / 2) s.1 s.2
     ∧ px vp' (height f / 2) x y = px vp (width f / 2) s.1 s.2) →
    mapped f (mkYuv (height f) (width f) (yp' ++ up' ++ vp')) (height f) (width f) (turns cw)) as Hg.
  { intros. apply (mapped_planes f yp up vp); try done; unfold y_len, uv_len; lia. }
  destruct ((0 <? width f / 2) && (0 <? height f / 2)) eqn:E2.
  - apply andb_true_iff in E2 as [E2 E3]. apply Z.ltb_lt in E2, E3.
    destruct (transpose_plane_px up (zeros (uv_len f)) (width f / 2) (height f / 2) cw) as (up' & -> & Lu' & Hu);
      [done | done | done | by rewrite zlen_zeros by lia |]. cbn [mbind Res_bind].
    destruct (transpose_plane_px vp (zeros (uv_len f)) (width f / 2) (height f / 2) cw) as (vp' & -> & Lv' & Hv);
      [done | done | done | by rewrite zlen_zeros by lia |]. cbn [mbind Res_bind].
    eexists. split; [done|]. apply Hg; [done | done | auto].
  - eexists. split; [done|]. apply Hg; [by apply zlen_zeros | by apply zlen_zeros |].
    intros x y Hx Hy'. apply andb_false_iff in E2 as [E2|E2]; apply Z.ltb_ge in E2; lia.
Qed.

(** *** Composition *)
Definition swap (sw : bool) (w h : Z) : Z * Z := if sw then (h, w) else (w, h).

(** A pixel map that takes the pixels of a plane of the dimensions [swap sw w h]
    to those of a [w] by [h] plane. *)
Definition into (sw : bool) (t : Z → Z → Z → Z → Z * Z) : Prop :=
  ∀ w h x y, 0 ≤ x < (swap sw w h).1 → 0 ≤ y < (swap sw w h).2 →
    0 ≤ (t w h x y).1 < w ∧ 0 ≤ (t w h x y).2 < h.

Lemma mirrors_into hf vf : into false (mirrors hf vf).
Proof. intros w h x y. cbn. intros. split; by apply mirror_range. Qed.
Lemma turns_into cw : into true (turns cw).
Proof. intros w h x y. cbn [swap fst snd]. intros. by apply turn_range. Qed.

Definition compose (sw : bool) (t s : Z → Z → Z → Z → Z * Z) (w h x y : Z) : Z * Z :=
  let p := s (swap sw w h).1 (swap sw w h).2 x y in t w h p.1 p.2.

Lemma mapped_trans f g k sw sw' t s :
  into sw' s →
  mapped f g (swap sw (width f) (height f)).1 (swap sw (width f) (height f)).2 t →
  mapped g k (swap sw' (width g) (height g)).1 (swap sw' (width g) (height g)).2 s →
  mapped f k (swap sw' (width g) (height g)).1 (swap sw' (width g) (height g)).2 (compose sw t s).
Proof.
  intros Hs [Hg Gw Gh Gl Gc] [Hk Kw Kh Kl Kc]. split; try done.
  - intros x y Hx Hy. rewrite Kl by done. unfold compose. rewrite <-Gw, <-Gh.
    destruct (Hs (width g) (height g) x y Hx Hy). apply Gl; lia.
  - intros x y Hx Hy. destruct (Kc x y Hx Hy) as [-> ->]. unfold compose.
    replace (swap sw (width f / 2) (height f / 2)).1 with (width g / 2) by (by rewrite Gw; destruct sw).
    replace (swap sw (width f / 2) (height f / 2)).2 with (height g / 2) by (by rewrite Gh; destruct sw).
    destruct (Hs (width g / 2) (height g / 2) x y); [by destruct sw' | by destruct sw' |].
    apply Gc; rewrite <-?Gw, <-?Gh; lia.
Qed.

Lemma mapped_unique f g g' w h t t' :
  mapped f g w h t → mapped f g' w h t' → (∀ W H x y, t W H x y = t' W H x y) → g = g'.
Proof.
  intros [Hg Gw Gh Gl Gc] [Hg' Gw' Gh' Gl' Gc'] Ht.
  apply frame_eq; try done; try congruence; rewrite Gw, Gh.
  - intros x y Hx Hy. rewrite Gl, Gl' by done. by rewrite Ht.
  - intros x y Hx Hy. destruct (Gc x y Hx Hy) as [-> ->], (Gc' x y Hx Hy) as [-> ->]. by rewrite Ht.
Qed.

Lemma mapped_id f : frame_ok f → mapped f f (width f) (height f) (λ _ _ x y, (x, y)).
Proof. by split. Qed.

(** The two ways round a square of flips and turns. *)
Lemma same_frame f g k g' k' sw1 sw1' sw2 sw2' t s t' s' :
  into sw1' s → into sw2' s' →
  mapped f g (swap sw1 (width f) (height f)).1 (swap sw1 (width f) (height f)).2 t →
  mapped g k (swap sw1' (width g) (height g)).1 (swap sw1' (width g) (height g)).2 s →
  mapped f g' (swap sw2 (width f) (height f)).1 (swap sw2 (width f) (height f)).2 t' →
  mapped g' k' (swap sw2' (width g') (height g')).1 (swap sw2' (width g') (height g')).2 s' →
  xorb sw1 sw1' = xorb sw2 sw2' →
  (∀ W H x y, compose sw1 t s W H x y = compose sw2 t' s' W H x y) → k = k'.
Proof.
  intros Hs Hs' M1 M2 M1' M2' Hsw Ht.
  pose proof (mapped_trans _ _ _ _ _ _ _ Hs M1 M2) as M. pose proof (mapped_trans _ _ _ _ _ _ _ Hs' M1' M2') as M'.
  destruct M1 as [_ W1 H1 _ _], M1' as [_ W1' H1' _ _]. rewrite W1, H1 in M. rewrite W1', H1' in M'.
  eapply mapped_unique; [exact M | | exact Ht]. destruct sw1, sw1', sw2, sw2'; done.
Qed.

(** C33 The geometry of the capture frames, for every well-formed frame, odd
    dimensions included: a flip and a quarter turn succeed and take every
    luma pixel and every chroma sample to the place the mirror or the turn
    gives it in its own plane.  Consequently flips compose by exclusive or,
    opposite turns undo each other, two equal turns are the flip of both axes
    (the capture loop folds 180 degrees into the flip flags), and a flip
    before a turn is the flip of the other axes after it. *)
Theorem frame_geometry f :
  frame_ok f →
  (∀ hf vf, ∃ g, flip hf vf f = Ok g ∧ mapped f g (width f) (height f) (mirrors hf vf))
  ∧ (∀ cw, ∃ g, rotated cw f = Ok g ∧ mapped f g (height f) (width f) (turns cw))
  ∧ (∀ a b c d, (flip a b f ≫= flip c d) = flip (xorb a c) (xorb b d) f)
  ∧ (∀ cw, (rotated cw f ≫= rotated (negb cw)) = Ok f)
  ∧ (∀ cw, (rotated cw f ≫= rotated cw) = flip true true f)
  ∧ (∀ cw a b, (flip a b f ≫= rotated cw) = (rotated cw f ≫= flip b a)).
Proof.
  intros Hf. split; [intros; by apply flip_mapped|]. split; [intros; by apply rotated_mapped|].
  split_and!.
  - intros a b c d. destruct (flip_mapped a b f Hf) as (g & -> & M1). cbn [mbind Res_bind].
    destruct (flip_mapped c d g (mp_ok _ _ _ _ _ M1)) as (k & -> & M2).
    destruct (flip_mapped (xorb a c) (xorb b d) f Hf) as (k' & -> & M3). f_equal.
    eapply (same_frame f g k f k' false false false false); try done; try apply mirrors_into; [by apply mapped_id|].
    intros W H x y. unfold compose, mirrors, mirror. cbn. destruct a, b, c, d; cbn; f_equal; lia.
  - intros cw. destruct (rotated_mapped cw f Hf) as (g & -> & M1). cbn [mbind Res_bind].
    destruct (rotated_mapped (negb cw) g (mp_ok _ _ _ _ _ M1)) as (k & -> & M2). f_equal.
    eapply (same_frame f g k f f true true false false _ _ (λ _ _ x y, (x, y)) (λ _ _ x y, (x, y))); try done;
      try apply turns_into; try by apply mapped_id.
    intros W H x y. unfold compose, turns, turn. destruct cw; cbn; f_equal; lia.
  - intros cw. destruct (rotated_mapped cw f Hf) as (g & -> & M1). cbn [mbind Res_bind].
    destruct (rotated_mapped cw g (mp_ok _ _ _ _ _ M1)) as (k & -> & M2).
    destruct (flip_mapped true true f Hf) as (k' & -> & M3). f_equal.
    eapply (same_frame f g k f k' true true false false); try done;
      [apply turns_into | apply mirrors_into | by apply mapped_id |].
    intros W H x y. unfold compose, turns, turn, mirrors, mirror. destruct cw; cbn; f_equal; lia.
  - intros cw a b. destruct (flip_mapped a b f Hf) as (g & -> & M1). cbn [mbind Res_bind].
    destruct (rotated_mapped cw g (mp_ok _ _ _ _ _ M1)) as (k & -> & M2).
    destruct (rotated_mapped cw f Hf) as (g' & -> & M1'). cbn [mbind Res_bind].
    destruct (flip_mapped b a g' (mp_ok _ _ _ _ _ M1')) as (k' & -> & M2'). f_equal.
    eapply (same_frame f g k g' k' false true true false); try done; [apply turns_into | apply mirrors_into |].
    intros W H x y. unfold compose, turns, turn, mirrors, mirror. destruct cw, a, b; cbn; f_equal; lia.
Qed.

Definition sample_frame : Yuv420p := mkYuv 3 3 [1; 2; 3; 4; 5; 6; 7; 8; 9; 50; 60].
Lemma sample_frame_ok : frame_ok sample_frame.
Proof. by split. Qed.

Lemma frame_geometry_witness :
  frame_ok sample_frame ∧ (rotated true sample_frame ≫= rotated true) = flip true true sample_frame.
Proof.
  split; [exact sample_frame_ok|].
  exact (proj1 (proj2 (proj2 (proj2 (proj2 (frame_geometry sample_frame sample_frame_ok))))) true).
Defined.

(** ** Downscaling *)

(** The source column (or row) of a column of the result. *)
Definition nearest (dst src d : Z) : Z := d * src / dst.

Lemma nearest_range dst src d : 0 < dst ≤ src → 0 ≤ d < dst → 0 ≤ nearest dst src d < src.
Proof.
  intros. unfold nearest. split; [apply Z.div_pos; nia|]. apply Z.div_lt_upper_bound; nia.
Qed.

(** Half the source of an even column stays within the chroma plane. *)
Lemma nearest_half dst src d :
  0 < dst ≤ src → 2 ≤ src → 0 ≤ d < Z.max (dst / 2) 1 →
  0 ≤ nearest dst src (Z.min (d * 2) (dst - 1)) / 2 < src / 2.
Proof.
  intros Hd Hs Hx. assert (0 < dst / 2 ∨ dst = 1) as Hc by dm_lia.
  assert (Z.min (d * 2) (dst - 1) = d * 2 ∧ (dst = 1 ∨ d * 2 + 2 ≤ dst)) as [-> Hm] by dm_lia.
  assert (d * 2 < dst) by dm_lia.
  destruct (nearest_range dst src (d * 2)) as [H0 _]; [lia | lia |].
  split; [apply Z.div_pos; lia|]. apply Z.div_lt_upper_bound; [lia|].
  assert (nearest dst src (d * 2) ≤ src - 2); [|dm_lia].
  unfold nearest. destruct Hm as [->|Hm].
  - assert (d = 0) as -> by (clear -Hx; dm_lia). change (0 * 2 * src / 1) with 0. lia.
  - assert (d * 2 * src / dst < src - 1); [|lia]. apply Z.div_lt_upper_bound; nia.
Qed.

Lemma zlen_map_axis dst src : 0 ≤ dst → zlen (map_axis dst src) = dst.
Proof. intros. unfold zlen, map_axis. rewrite length_map, length_seq. lia. Qed.

Lemma map_axis_at dst src d : 0 ≤ d < dst → at_ (map_axis dst src) d = Ok (nearest dst src d).
Proof.
  intros. apply at_Ok_iff. split; [lia|]. unfold map_axis.
  rewrite list_lookup_fmap, lookup_seq_lt by lia. cbn [fmap option_fmap option_map]. unfold nearest.
  by rewrite Nat.add_0_l, Z2Nat.id by lia.
Qed.

(** Does [downscaled] return its frame unchanged? *)
Definition unscaled (f : Yuv420p) (dw dh : Z) : bool :=
  (dw =? 0) || (dh =? 0) || (width f <? dw) || (height f <? dh)
  || ((dw =? width f) && (dh =? height f)).

Section downscale.
Context (f : Yuv420p) (yp up vp : bytes) (dw dh : Z).
Context (Hf : frame_ok f) (Hpl : planes f yp up vp) (Hdw : 0 < dw ≤ width f) (Hdh : 0 < dh ≤ height f).

Abbreviation cw := (Z.max (dw / 2) 1).
Abbreviation ch := (Z.max (dh / 2) 1).

(** The contents of the result, cell by cell. *)
Definition scaled_cell (i : Z) : Z :=
  default 0
    (if i <? dw * dh then px yp (width f) (nearest dw (width f) (i mod dw)) (nearest dh (height f) (i / dw))
     else
       let j := i - dw * dh in
       let '(p, k) := if j <? ch * cw then (up, j) else (vp, j - ch * cw) in
       px p (width f / 2) (nearest dw (width f) (Z.min (k mod cw * 2) (dw - 1)) / 2)
         (nearest dh (height f) (Z.min (k / cw * 2) (dh - 1)) / 2)).

Lemma data_px w h p (pre rest : bytes) i x y :
  data f = pre ++ p ++ rest → zlen p = w * h → 0 ≤ x < w → 0 ≤ y < h → i = zlen pre + y * w + x →
  at_ (data f) i = Ok (default 0 (px p w x y)).
Proof.
  intros Hd Hp Hx Hy ->. pose proof (cell_range w h x y Hx Hy). pose proof (zlen_nonneg pre).
  destruct (px_some p w h x y Hp Hx Hy) as [v Hv]. apply at_Ok_iff. split; [lia|].
  rewrite Hv. cbn. rewrite Hd, lookup_app_r by (unfold zlen in *; lia).
  unfold px in Hv. rewrite lookup_app_l by (unfold zlen in *; lia). rewrite <-Hv. f_equal. unfold zlen. lia.
Qed.

Definition luma_loop (out : bytes) : Res bytes :=
  for_range (zlen (map_axis dh (height f))) (λ dy out,
    sy ← at_ (map_axis dh (height f)) dy;
    for_range (zlen (map_axis dw (width f))) (λ dx out,
      sx ← at_ (map_axis dw (width f)) dx;
      v ← at_ (data f) (sy * width f + sx);
      store (dy * dw + dx) v out) out) out.

Definition chroma_loop (out : bytes) : Res bytes :=
  for_range ch (λ dcy out,
    sy ← at_ (map_axis dh (height f)) (Z.min (dcy * 2) (zlen (map_axis dh (height f)) - 1));
    let s_row_u := width f * height f + sy / 2 * (width f / 2) in
    let s_row_v := s_row_u + width f / 2 * (height f / 2) in
    for_range cw (λ dcx out,
      sx ← at_ (map_axis dw (width f)) (Z.min (dcx * 2) (zlen (map_axis dw (width f)) - 1));
      let col := sx / 2 in
      u ← at_ (data f) (s_row_u + col);
      out ← store (dw * dh + dcy * cw + dcx) u out;
      v ← at_ (data f) (s_row_v + col);
      store (dw * dh + ch * cw + dcy * cw + dcx) v out) out) out.

Lemma downscaled_loops :
  unscaled f dw dh = false →
  downscaled dw dh f =
    (out ← luma_loop (replicate (Z.to_nat (dw * dh + 2 * (ch * cw))) 0);
     out ← chroma_loop out; Ok (mkYuv dw dh out)).
Proof.
  intros Hu. unfold downscaled. destruct Hf as [Hw Hh Hl _].
  replace (_ || _) with false; [done|]. symmetry. unfold unscaled in Hu.
  rewrite !orb_false_iff in Hu. destruct Hu as [[[[-> ->] ->] ->] ->].
  rewrite (proj2 (Z.eqb_neq (width f) 0)), (proj2 (Z.eqb_neq (height f) 0)) by lia.
  change (width f * height f + 2 * (width f / 2 * (height f / 2))) with (y_len f + 2 * uv_len f).
  by rewrite (proj2 (Z.ltb_ge _ _)) by lia.
Qed.

Lemma luma_loop_filled d :
  zlen d = dw * dh + 2 * (ch * cw) →
  ∃ d', luma_loop d = Ok d' ∧ filled scaled_cell (λ _, True) d (λ i, 0 ≤ i < dw * dh) d'.
Proof.
  intros Ld. destruct Hpl as [Hd Ly Lu Lv].
  destruct (grid_filled scaled_cell (λ _, True) dh dw (λ y x, [y * dw + x]) d) with
    (D := λ _ : Z, False) (d := d)
    (outer := λ dy out, sy ← at_ (map_axis dh (height f)) dy;
      for_range (zlen (map_axis dw (width f))) (λ dx out,
        sx ← at_ (map_axis dw (width f)) dx;
        v ← at_ (data f) (sy * width f + sx);
        store (dy * dw + dx) v out) out)
    (body := λ dy dx out, sx ← at_ (map_axis dw (width f)) dx;
        v ← at_ (data f) (nearest dh (height f) dy * width f + sx);
        store (dy * dw + dx) v out) as (d' & E & Hfd); try lia; try done.
  - intros y x Hy Hx. constructor; [|constructor]. pose proof (cell_range dw dh x y Hx Hy). split; [nia | done].
  - intros y d' Hy _. rewrite map_axis_at by done. cbn [mbind Res_bind]. by rewrite zlen_map_axis by lia.
  - intros y x d' Hy Hx _. rewrite map_axis_at by done. cbn [mbind Res_bind].
    pose proof (nearest_range dw (width f) x Hdw Hx). pose proof (nearest_range dh (height f) y Hdh Hy).
    rewrite (data_px (width f) (height f) yp [] (up ++ vp) _ (nearest dw (width f) x)
      (nearest dh (height f) y)) by (try done; rewrite zlen_nil; lia). cbn [mbind Res_bind map].
    rewrite store_one. do 3 f_equal. f_equal. unfold scaled_cell.
    pose proof (cell_range dw dh x y Hx Hy). rewrite (proj2 (Z.ltb_lt _ _)) by lia.
    by rewrite cell_div, cell_mod.
  - exists d'. split; [unfold luma_loop; rewrite (zlen_map_axis dh) by lia; exact E|].
    eapply filled_weaken; [|exact Hfd]. intros i Hi. right. exists (i / dw), (i mod dw).
    pose proof (Z.mod_pos_bound i dw ltac:(lia)). assert (0 ≤ i / dw < dh)
      by (split; [apply Z.div_pos; lia | apply Z.div_lt_upper_bound; lia]).
    split_and!; try lia. apply list_elem_of_singleton. rewrite (Z.div_mod i dw) at 1; lia.
Qed.

Lemma chroma_loop_filled D d d0 :
  2 ≤ width f → 2 ≤ height f →
  zlen d0 = dw * dh + 2 * (ch * cw) → (∀ i, D i → 0 ≤ i) →
  filled scaled_cell (λ _, True) d0 D d →
  ∃ d', chroma_loop d = Ok d'
    ∧ filled scaled_cell (λ _, True) d0 (λ i, D i ∨ dw * dh ≤ i < zlen d0) d'.
Proof.
  intros Hw2 Hh2 Ld HD Hfd. destruct Hpl as [Hd Ly Lu Lv].
  assert (0 < dw * dh) by nia. assert (0 < cw ∧ 0 < ch) as [Hcw Hch] by lia.
  set (g dcy dcx := [dw * dh + dcy * cw + dcx; dw * dh + ch * cw + dcy * cw + dcx]).
  set (sx x := nearest dw (width f) (Z.min (x * 2) (dw - 1)) / 2).
  set (sy y := nearest dh (height f) (Z.min (y * 2) (dh - 1)) / 2).
  set (iu y x := width f * height f + sy y * (width f / 2) + sx x).
  set (iv y x := width f * height f + sy y * (width f / 2) + width f / 2 * (height f / 2) + sx x).
  set (body dcy dcx out :=
      sx ← at_ (map_axis dw (width f)) (Z.min (dcx * 2) (zlen (map_axis dw (width f)) - 1));
      let col := sx / 2 in
      u ← at_ (data f) (width f * height f + sy dcy * (width f / 2) + col);
      out ← store (dw * dh + dcy * cw + dcx) u out;
      v ← at_ (data f) (width f * height f + sy dcy * (width f / 2) + width f / 2 * (height f / 2) + col);
      store (dw * dh + ch * cw + dcy * cw + dcx) v out).
  destruct (grid_filled scaled_cell (λ _, True) ch cw g d0) with (D := D) (d := d)
    (outer := λ dcy out,
      sy ← at_ (map_axis dh (height f)) (Z.min (dcy * 2) (zlen (map_axis dh (height f)) - 1));
      let s_row_u := width f * height f + sy / 2 * (width f / 2) in
      let s_row_v := s_row_u + width f / 2 * (height f / 2) in
      for_range cw (λ dcx out,
        sx ← at_ (map_axis dw (width f)) (Z.min (dcx * 2) (zlen (map_axis dw (width f)) - 1));
        let col := sx / 2 in
        u ← at_ (data f) (s_row_u + col);
        out ← store (dw * dh + dcy * cw + dcx) u out;
        v ← at_ (data f) (s_row_v + col);
        store (dw * dh + ch * cw + dcy * cw + dcx) v out) out)
    (body := body) as (d' & E & Hfd'); try lia; try done.
  - intros y x Hy Hx. pose proof (cell_range cw ch x y Hx Hy).
    repeat constructor; nia.
  - intros y out Hy _. rewrite (zlen_map_axis dh), map_axis_at by lia. done.
  - intros y x out Hy Hx _. unfold body, g. rewrite zlen_map_axis, map_axis_at by lia.
    cbn [map store_all mbind Res_bind]. fold (sx x). fold (iu y x). fold (iv y x).
    pose proof (nearest_half dw (width f) x Hdw Hw2 Hx) as Hsx. fold (sx x) in Hsx.
    pose proof (nearest_half dh (height f) y Hdh Hh2 Hy) as Hsy. fold (sy y) in Hsy.
    rewrite (data_px (width f / 2) (height f / 2) up yp vp (iu y x) (sx x) (sy y))
      by (try done; unfold y_len in Ly; unfold iu; lia). cbn [mbind Res_bind].
    rewrite (data_px (width f / 2) (height f / 2) vp (yp ++ up) [] (iv y x) (sx x) (sy y))
      by (try done; try (by rewrite app_nil_r, <-app_assoc);
          rewrite zlen_app; unfold y_len in Ly; unfold uv_len in Lu; unfold iv; lia).
    pose proof (cell_range cw ch x y Hx Hy) as Hcell.
    replace (scaled_cell (dw * dh + y * cw + x)) with (default 0 (px up (width f / 2) (sx x) (sy y))).
    2: { unfold scaled_cell. rewrite (proj2 (Z.ltb_ge _ (dw * dh))) by lia.
         replace (dw * dh + y * cw + x - dw * dh) with (y * cw + x) by lia.
         rewrite (proj2 (Z.ltb_lt _ (ch * cw))) by lia. by rewrite cell_div, cell_mod. }
    destruct (store _ _ out); cbn [mbind Res_bind]; try done.
    rewrite store_one. cbn [store_all].
    replace (scaled_cell (dw * dh + ch * cw + y * cw + x)) with (default 0 (px vp (width f / 2) (sx x) (sy y))); [done|].
    unfold scaled_cell. rewrite (proj2 (Z.ltb_ge _ (dw * dh))) by lia.
    replace (dw * dh + ch * cw + y * cw + x - dw * dh) with (ch * cw + (y * cw + x)) by lia.
    rewrite (proj2 (Z.ltb_ge _ (ch * cw))) by lia.
    replace (ch * cw + (y * cw + x) - ch * cw) with (y * cw + x) by lia. by rewrite cell_div, cell_mod.
  - exists d'. split; [exact E|]. eapply filled_weaken; [|exact Hfd'].
    intros i [Hi|Hi]; [by left|]. right.
    set (j := i - dw * dh). set (k := if j <? ch * cw then j else j - ch * cw).
    assert (0 ≤ k < ch * cw) as Hk by (unfold k; destruct (Z.ltb_spec j (ch * cw)); unfold j in *; lia).
    pose proof (Z.mod_pos_bound k cw ltac:(lia)). assert (0 ≤ k / cw < ch)
      by (split; [apply Z.div_pos; lia | apply Z.div_lt_upper_bound; lia]).
    exists (k / cw), (k mod cw). split_and!; try lia. unfold g.
    assert (k / cw * cw + k mod cw = k) as Ek by (rewrite (Z.div_mod k cw) at 3; lia).
    rewrite <-!Z.add_assoc, Ek. unfold k, j. rewrite elem_of_cons, list_elem_of_singleton.
    destruct (Z.ltb_spec (i - dw * dh) (ch * cw)); [left | right]; lia.
Qed.
End downscale.

(** The outcome of code whose only failure is to unwind. *)
Definition ok_or_panic {A} (r : Res A) : Prop := r = Panic ∨ ∃ a, r = Ok a.

Lemma at_ok_or_panic {A} (l : list A) i : ok_or_panic (at_ l i).
Proof. unfold at_, ok_or_panic. repeat case_match; eauto. Qed.
Lemma store_ok_or_panic i v d : ok_or_panic (store i v d).
Proof. unfold store, ok_or_panic. destruct (_ && _); eauto. Qed.
Lemma bind_ok_or_panic {A B} (m : Res A) (f : A → Res B) :
  ok_or_panic m → (∀ a, ok_or_panic (f a)) → ok_or_panic (m ≫= f).
Proof. intros [->|[a ->]] Hf; [by left | apply Hf]. Qed.
#[local] Hint Resolve at_ok_or_panic store_ok_or_panic bind_ok_or_panic : core.

(** Loops none of whose iterations fails otherwise, and one of which always
    unwinds. *)
Lemma for_from_panic {S} (body : Z → S → Res S) n i s :
  (∀ j s, i ≤ j < i + Z.of_nat n → ok_or_panic (body j s)) →
  (∃ j, i ≤ j < i + Z.of_nat n ∧ ∀ s, body j s = Panic) →
  for_from n i body s = Panic.
Proof.
  revert i s. induction n as [|n IH]; intros i s Hok (j & Hj & Hp); [lia|]. cbn [for_from].
  destruct (Hok i s) as [->|[s' E]]; [lia | done |]. rewrite E. cbn [mbind Res_bind]. apply IH.
  - intros k t Hk. apply Hok. lia.
  - exists j. split; [|done]. destruct (decide (j = i)) as [->|]; [by rewrite Hp in E | lia].
Qed.

Lemma for_range_panic {S} (body : Z → S → Res S) n s :
  (∀ j s, 0 ≤ j < n → ok_or_panic (body j s)) →
  (∃ j, 0 ≤ j < n ∧ ∀ s, body j s = Panic) → for_range n body s = Panic.
Proof.
  intros Hok (j & Hj & Hp). apply for_from_panic.
  - intros k t Hk. apply Hok. lia.
  - exists j. split; [lia | done].
Qed.

Lemma scaled_frame f yp up vp dw dh :
  frame_ok f → planes f yp up vp → 0 < dw ≤ width f → 0 < dh ≤ height f →
  2 ≤ width f → 2 ≤ height f → unscaled f dw dh = false →
  ∃ d, downscaled dw dh f = Ok (mkYuv dw dh d)
    ∧ zlen d = dw * dh + 2 * (Z.max (dh / 2) 1 * Z.max (dw / 2) 1)
    ∧ ∀ i, 0 ≤ i < zlen d → d !! Z.to_nat i = Some (scaled_cell f yp up vp dw dh i).
Proof.
  intros Hf Hpl Hw Hh Hw2 Hh2 Hu. rewrite downscaled_loops by done.
  set (n := dw * dh + 2 * _). assert (0 ≤ n) by (unfold n; nia).
  destruct (luma_loop_filled f yp up vp dw dh Hpl Hw Hh (zeros n)) as (d1 & E1 & F1);
    [by apply zlen_zeros|]. unfold zeros in E1. rewrite E1. cbn [mbind Res_bind].
  destruct (chroma_loop_filled f yp up vp dw dh Hpl Hw Hh (λ i, 0 ≤ i < dw * dh) d1 (zeros n)) as (d2 & E2 & F2);
    [done | done | by apply zlen_zeros | intros; lia | done |]. rewrite E2. cbn [mbind Res_bind].
  exists d2. destruct F2 as (L2 & F2 & _). rewrite zlen_zeros in * by done. split; [done|]. split; [done|].
  intros i Hi. apply F2. lia.
Qed.

Lemma scaled_frame_px f dw dh g :
  frame_ok f → 0 < dw ≤ width f → 0 < dh ≤ height f → 2 ≤ width f → 2 ≤ height f →
  unscaled f dw dh = false → downscaled dw dh f = Ok g →
  width g = dw ∧ height g = dh ∧ (2 ≤ dw → 2 ≤ dh → frame_ok g)
  ∧ (∀ x y, 0 ≤ x < dw → 0 ≤ y < dh →
       luma g x y = luma f (nearest dw (width f) x) (nearest dh (height f) y))
  ∧ (∀ x y, 0 ≤ x < dw / 2 → 0 ≤ y < dh / 2 →
       cb g x y = cb f (nearest dw (width f) (2 * x) / 2) (nearest dh (height f) (2 * y) / 2)
       ∧ cr g x y = cr f (nearest dw (width f) (2 * x) / 2) (nearest dh (height f) (2 * y) / 2)).
Proof.
  intros Hf Hw Hh Hw2 Hh2 Hu E.
  destruct (frame_planes f Hf) as (yp & up & vp & Hd & Ly & Lu & Lv).
  destruct (scaled_frame f yp up vp dw dh) as (d & E' & Ld & Hcell); try done.
  rewrite E' in E. injection E as <-. cbn [width height].
  destruct (mk_planes (width f) (height f) yp up vp f) as (A1 & A2 & A3);
    [destruct f; cbn in *; by rewrite Hd | done | done |].
  destruct Hf as [_ _ Hl Hm].
  assert (∀ x y k w h p, 0 ≤ x < w → 0 ≤ y < h → 0 ≤ k → k + w * h ≤ zlen d →
    (∀ j, 0 ≤ j < w * h → scaled_cell f yp up vp dw dh (k + j) = default 0 (p (j mod w) (j / w))) →
    is_Some (p x y) → d !! Z.to_nat (k + (y * w + x)) = p x y) as Hread.
  { intros x y k w h p Hx Hy Hk Hkd Hp [v Hv]. pose proof (cell_range w h x y Hx Hy).
    rewrite Hcell by lia. rewrite Hp by done. rewrite cell_div, cell_mod by done. by rewrite Hv. }
  split; [done|]. split; [done|]. split; [|split].
  - intros. assert (1 ≤ dw / 2 ≤ width f / 2 ∧ 1 ≤ dh / 2 ≤ height f / 2) by (clear -Hw Hh H H0; dm_lia).
    split; unfold y_len, uv_len in *; cbn [width height data] in *; try lia. rewrite Ld. nia.
  - intros x y Hx Hy. pose proof (cell_range dw dh x y Hx Hy).
    pose proof (nearest_range dw (width f) x Hw Hx). pose proof (nearest_range dh (height f) y Hh Hy).
    rewrite A1. unfold luma, px at 1, y_len. cbn [width height data].
    rewrite lookup_take_lt by lia.
    pose proof (Hread x y 0 dw dh (λ x y, px yp (width f) (nearest dw (width f) x) (nearest dh (height f) y))) as HR.
    cbv beta in HR. rewrite Z.add_0_l in HR. apply HR; clear HR; [done | done | lia | nia | |].
    + intros j Hj. unfold scaled_cell. by rewrite Z.add_0_l, (proj2 (Z.ltb_lt j _)) by lia.
    + destruct (px_some yp (width f) (height f) _ _ Ly H0 H1) as [v ->]. done.
  - intros x y Hx Hy. pose proof (cell_range (dw / 2) (dh / 2) x y Hx Hy) as Hc.
    assert (Z.max (dw / 2) 1 = dw / 2 ∧ Z.max (dh / 2) 1 = dh / 2) as [Ecw Ech] by lia.
    rewrite Ecw, Ech in Ld.
    pose proof (nearest_half dw (width f) x Hw Hw2 ltac:(lia)) as N1.
    pose proof (nearest_half dh (height f) y Hh Hh2 ltac:(lia)) as N2.
    assert (∀ n j, 0 ≤ j < n / 2 → Z.min (j * 2) (n - 1) = 2 * j) as Hmin by (clear; intros; dm_lia).
    rewrite Hmin in N1, N2 by done. rewrite A2, A3.
    set (p q x y := px q (width f / 2) (nearest dw (width f) (Z.min (x * 2) (dw - 1)) / 2)
                      (nearest dh (height f) (Z.min (y * 2) (dh - 1)) / 2)).
    assert (∀ q, zlen q = uv_len f → p q x y = px q (width f / 2) (nearest dw (width f) (2 * x) / 2)
        (nearest dh (height f) (2 * y) / 2) ∧ is_Some (p q x y)) as Hpq.
    { intros q Hq. unfold p. rewrite !Hmin by done. split; [done|].
      destruct (px_some q (width f / 2) (height f / 2) _ _ Hq N1 N2) as [v ->]. done. }
    destruct (Hpq up Lu) as [<- Su], (Hpq vp Lv) as [<- Sv].
    unfold cb, cr, px, y_len, uv_len. cbn [width height data].
    rewrite lookup_take_lt, !lookup_drop by lia. split.
    + rewrite <-(Hread x y (dw * dh) (dw / 2) (dh / 2) (p up)); [f_equal; lia | done | done | nia | nia | | done].
      intros j Hj. unfold scaled_cell. rewrite (proj2 (Z.ltb_ge _ (dw * dh))) by lia.
      replace (dw * dh + j - dw * dh) with j by lia. rewrite Ecw, Ech.
      by rewrite (proj2 (Z.ltb_lt j _)) by lia.
    + rewrite <-(Hread x y (dw * dh + dw / 2 * (dh / 2)) (dw / 2) (dh / 2) (p vp));
        [f_equal; nia | done | done | nia | nia | | done].
      intros j Hj. unfold scaled_cell. rewrite (proj2 (Z.ltb_ge _ (dw * dh))) by lia.
      replace (dw * dh + dw / 2 * (dh / 2) + j - dw * dh) with (dh / 2 * (dw / 2) + j) by lia. rewrite Ecw, Ech.
      rewrite (proj2 (Z.ltb_ge _ (dh / 2 * (dw / 2)))) by lia.
      by replace (dh / 2 * (dw / 2) + j - dh / 2 * (dw / 2)) with j by lia.
Qed.


Lemma downscaled_thin f dw dh :
  frame_ok f → 0 < dw ≤ width f → 0 < dh ≤ height f → unscaled f dw dh = false →
  width f = 1 ∨ height f = 1 → downscaled dw dh f = Panic.
Proof.
  intros Hf Hw Hh Hu H1. rewrite downscaled_loops by done.
  destruct (frame_planes f Hf) as (yp & up & vp & Hpl). assert (planes f yp up vp) as Hp by (by destruct Hpl as (?&?&?&?)).
  set (n := dw * dh + 2 * _). assert (0 ≤ n) by (unfold n; nia).
  destruct (luma_loop_filled f yp up vp dw dh Hp Hw Hh (zeros n)) as (d1 & E1 & _);
    [by apply zlen_zeros|]. unfold zeros in E1. rewrite E1. cbn [mbind Res_bind].
  replace (chroma_loop f dw dh d1) with (@Panic bytes); [done|]. symmetry. unfold chroma_loop.
  rewrite !zlen_map_axis by lia. destruct Hf as [_ _ Hl _].
  assert (uv_len f = 0) as Huv by (unfold uv_len; destruct H1 as [-> | ->]; change (1 / 2) with 0; lia).
  assert (∀ j s, 0 ≤ j < Z.max (dh / 2) 1 → (λ dcy out,
    sy ← at_ (map_axis dh (height f)) (Z.min (dcy * 2) (dh - 1));
    for_range (Z.max (dw / 2) 1) (λ dcx out,
      sx ← at_ (map_axis dw (width f)) (Z.min (dcx * 2) (dw - 1));
      u ← at_ (data f) (width f * height f + sy / 2 * (width f / 2) + sx / 2);
      out ← store (dw * dh + dcy * Z.max (dw / 2) 1 + dcx) u out;
      v ← at_ (data f) (width f * height f + sy / 2 * (width f / 2) + width f / 2 * (height f / 2) + sx / 2);
      store (dw * dh + Z.max (dh / 2) 1 * Z.max (dw / 2) 1 + dcy * Z.max (dw / 2) 1 + dcx) v out) out) j s = Panic)
    as Hall; [|apply for_range_panic; [intros k t Hk; unfold ok_or_panic; left; by apply Hall | exists 0; split; [lia | intros; apply Hall; lia]]].
  intros j s Hj. cbn beta. rewrite map_axis_at by lia. cbn [mbind Res_bind].
  apply for_range_panic; [intros k t Hk | exists 0; split; [lia|]; intros t].
  - rewrite map_axis_at by lia. cbn [mbind Res_bind].
    auto 8.
  - rewrite map_axis_at by lia. cbn [mbind Res_bind].
    match goal with |- (?m ≫= _) = _ => assert (m = Panic) as ->; [|done] end. unfold at_.
    rewrite (proj2 (Z.ltb_ge _ 0)).
    2: { pose proof (nearest_range dw (width f) (Z.min (0 * 2) (dw - 1)) Hw ltac:(lia)).
         pose proof (nearest_range dh (height f) (Z.min (j * 2) (dh - 1)) Hh ltac:(lia)).
         assert (0 ≤ nearest dh (height f) (Z.min (j * 2) (dh - 1)) / 2) by (apply Z.div_pos; lia).
         assert (0 ≤ nearest dw (width f) (Z.min (0 * 2) (dw - 1)) / 2) by (apply Z.div_pos; lia).
         assert (0 ≤ width f / 2) by (apply Z.div_pos; lia). nia. }
    rewrite lookup_ge_None_2; [done|].
    pose proof (nearest_range dw (width f) (Z.min (0 * 2) (dw - 1)) Hw ltac:(lia)).
    pose proof (nearest_range dh (height f) (Z.min (j * 2) (dh - 1)) Hh ltac:(lia)).
    assert (0 ≤ nearest dh (height f) (Z.min (j * 2) (dh - 1)) / 2) by (apply Z.div_pos; lia).
    assert (0 ≤ nearest dw (width f) (Z.min (0 * 2) (dw - 1)) / 2) by (apply Z.div_pos; lia).
    assert (0 ≤ width f / 2) by (apply Z.div_pos; lia).
    unfold y_len, zlen in *. nia.
Qed.

Lemma unscaled_same f dw dh : unscaled f dw dh = true → downscaled dw dh f = Ok f.
Proof.
  intros Hu. unfold downscaled. unfold unscaled in Hu.
  assert (∀ a b c d e f g h : bool, c || d || e || f || h = true → a || b || c || d || e || f || g || h = true) as Ho
    by (by intros [] [] [] [] [] [] [] []). by rewrite Ho.
Qed.

Lemma downscaled_ok f dw dh :
  frame_ok f → 2 ≤ dw → 2 ≤ dh → 2 ≤ width f → 2 ≤ height f → ∃ g, downscaled dw dh f = Ok g ∧ frame_ok g.
Proof.
  intros Hf Hdw Hdh Hw Hh. destruct (unscaled f dw dh) eqn:Hu.
  - exists f. split; [by apply unscaled_same | done].
  - assert (0 < dw ≤ width f ∧ 0 < dh ≤ height f) as [H1 H2].
    { unfold unscaled in Hu. rewrite !orb_false_iff, !Z.eqb_neq, !Z.ltb_ge in Hu. lia. }
    destruct (frame_planes f Hf) as (yp & up & vp & Hpl).
    destruct (scaled_frame f yp up vp dw dh) as (d & E & _); try done; [by destruct Hpl as (?&?&?&?)|].
    eexists. split; [exact E|]. by apply (scaled_frame_px f dw dh).
Qed.

(** Downscaling, for every well-formed frame: a request that is empty, not
    smaller, or the identity returns the frame unchanged; any other one on a
    frame of at least two rows and two columns succeeds, gives the requested
    dimensions, and takes each pixel from the nearest source pixel of its own
    plane, no index being out of range.  On a frame of one row or one column
    it unwinds, although it is documented never to panic. *)
Theorem downscale_nearest f dw dh :
  frame_ok f → 0 ≤ dw → 0 ≤ dh →
  (unscaled f dw dh = true → downscaled dw dh f = Ok f)
  ∧ (unscaled f dw dh = false → 2 ≤ width f → 2 ≤ height f →
     ∃ g, downscaled dw dh f = Ok g ∧ width g = dw ∧ height g = dh
       ∧ (2 ≤ dw → 2 ≤ dh → frame_ok g)
       ∧ (∀ x y, 0 ≤ x < dw → 0 ≤ y < dh →
            luma g x y = luma f (nearest dw (width f) x) (nearest dh (height f) y))
       ∧ (∀ x y, 0 ≤ x < dw / 2 → 0 ≤ y < dh / 2 →
            cb g x y = cb f (nearest dw (width f) (2 * x) / 2) (nearest dh (height f) (2 * y) / 2)
            ∧ cr g x y = cr f (nearest dw (width f) (2 * x) / 2) (nearest dh (height f) (2 * y) / 2)))
  ∧ (unscaled f dw dh = false → width f = 1 ∨ height f = 1 → downscaled dw dh f = Panic).
Proof.
  intros Hf Hdw Hdh. pose proof Hf as [Hw Hh _ _].
  assert (unscaled f dw dh = false → 0 < dw ≤ width f ∧ 0 < dh ≤ height f) as Hr.
  { unfold unscaled. rewrite !orb_false_iff, !Z.eqb_neq, !Z.ltb_ge. lia. }
  split_and!.
  - by apply unscaled_same.
  - intros Hu Hw2 Hh2. destruct (Hr Hu) as [H1 H2].
    destruct (frame_planes f Hf) as (yp & up & vp & Hpl).
    destruct (scaled_frame f yp up vp dw dh) as (d & E & _); try done; [by destruct Hpl as (?&?&?&?)|].
    eexists. split; [exact E|]. by apply (scaled_frame_px f dw dh).
  - intros Hu H1. destruct (Hr Hu). by apply downscaled_thin.
Qed.

Definition wide_frame : Yuv420p := mkYuv 4 2 [1; 2; 3; 4; 5; 6; 7; 8; 20; 21; 30; 31].
Lemma wide_frame_ok : frame_ok wide_frame.
Proof. by split. Qed.

Lemma downscale_nearest_witness :
  frame_ok wide_frame ∧ downscaled 2 2 wide_frame = Ok (mkYuv 2 2 [1; 3; 5; 7; 20; 30])
  ∧ downscaled 9 9 wide_frame = Ok wide_frame.
Proof.
  split; [exact wide_frame_ok|]. split; [reflexivity|].
  apply (proj1 (downscale_nearest wide_frame 9 9 wide_frame_ok ltac:(lia) ltac:(lia))). reflexivity.
Defined.

(** ** Conversions *)

(** Loops that write two planes, or one, in row-major order. *)
Lemma pair_filled (F G : Z → Z) n m (outer : Z → bytes * bytes → Res (bytes * bytes))
    (body : Z → Z → bytes * bytes → Res (bytes * bytes)) u0 v0 :
  0 ≤ n → 0 ≤ m → zlen u0 = n * m → zlen v0 = n * m →
  (∀ y p, 0 ≤ y < n → outer y p = for_range m (body y) p) →
  (∀ y x p, 0 ≤ y < n → 0 ≤ x < m →
     body y x p = (u ← store (y * m + x) (F (y * m + x)) p.1;
                   v ← store (y * m + x) (G (y * m + x)) p.2; Ok (u, v))) →
  ∃ u v, for_range n outer (u0, v0) = Ok (u, v)
    ∧ filled F (λ _, True) u0 (λ i, 0 ≤ i < n * m) u ∧ filled G (λ _, True) v0 (λ i, 0 ≤ i < n * m) v.
Proof.
  intros Hn Hm Lu Lv Ho Hb.
  set (I k (p : bytes * bytes) := filled F (λ _, True) u0 (λ i, 0 ≤ i < k) p.1
                                  ∧ filled G (λ _, True) v0 (λ i, 0 ≤ i < k) p.2).
  destruct (for_range_inv (λ y, I (y * m)) outer n (u0, v0)) as ([u v] & E & H); [done | | |].
  - split; (eapply filled_weaken; [|apply filled_start]); intros; cbn in *; lia.
  - intros y p Hy Hp. rewrite Ho by done.
    destruct (for_range_inv (λ x, I (y * m + x)) (body y) m p) as (p' & E & H); [done | by rewrite Z.add_0_r | |].
    + intros x q Hx [Hu Hv]. rewrite Hb by done. pose proof (cell_range m n x y Hx Hy).
      destruct (filled_store _ _ _ _ _ (y * m + x) Hu) as (u & -> & Hu'); [lia | done | intros; lia |].
      cbn [mbind Res_bind].
      destruct (filled_store _ _ _ _ _ (y * m + x) Hv) as (v & -> & Hv'); [lia | done | intros; lia |].
      cbn [mbind Res_bind]. eexists. split; [done|].
      split; (eapply filled_weaken; [|eassumption]); intros ? Hi; cbn beta in *; lia.
    + exists p'. split; [done|]. by replace ((y + 1) * m) with (y * m + m) by lia.
  - exists u, v. split; [exact E|]. apply H.
Qed.

Lemma row_major_filled F n m (outer : Z → bytes → Res bytes) (body : Z → Z → bytes → Res bytes) d0 :
  0 ≤ n → 0 ≤ m → zlen d0 = n * m →
  (∀ y d, 0 ≤ y < n → outer y d = for_range m (body y) d) →
  (∀ y x d, 0 ≤ y < n → 0 ≤ x < m → body y x d = store (y * m + x) (F (y * m + x)) d) →
  ∃ d, for_range n outer d0 = Ok d ∧ filled F (λ _, True) d0 (λ i, 0 ≤ i < n * m) d.
Proof.
  intros Hn Hm Ld Ho Hb.
  destruct (grid_filled F (λ _, True) n m (λ y x, [y * m + x]) d0) with
    (D := λ _ : Z, False) (d := d0) (outer := outer) (body := body) as (d & E & Hd); try done.
  - intros y x Hy Hx. constructor; [|constructor]. pose proof (cell_range m n x y Hx Hy). split; [lia | done].
  - intros y d Hy _. by apply Ho.
  - intros y x d Hy Hx _. rewrite Hb by done. apply store_one.
  - exists d. split; [done|]. eapply filled_weaken; [|exact Hd]. intros i Hi. right.
    pose proof (Z.mod_pos_bound i m ltac:(nia)).
    assert (0 ≤ i / m < n) by (split; [apply Z.div_pos; lia | apply Z.div_lt_upper_bound; nia]).
    exists (i / m), (i mod m). split_and!; try lia.
    apply list_elem_of_singleton. rewrite (Z.div_mod i m) at 1; lia.
Qed.

Lemma filled_px_full F d0 d w h x y :
  filled F (λ _, True) d0 (λ i, 0 ≤ i < h * w) d → 0 ≤ x < w → 0 ≤ y < h →
  px d w x y = Some (F (y * w + x)).
Proof. intros (_ & H & _) Hx Hy. apply H. pose proof (cell_range w h x y Hx Hy). lia. Qed.

(** The planes of a fresh frame, as the conversions split them. *)
Lemma fresh_planes w h :
  0 ≤ w → 0 ≤ h →
  slice (data (yuv_new w h)) 0 (w * h) = Ok (zeros (w * h))
  ∧ slice_from (data (yuv_new w h)) (w * h) = Ok (zeros (w / 2 * (h / 2)) ++ zeros (w / 2 * (h / 2)))
  ∧ slice (zeros (w / 2 * (h / 2)) ++ zeros (w / 2 * (h / 2))) 0 (w / 2 * (h / 2)) = Ok (zeros (w / 2 * (h / 2)))
  ∧ slice_from (zeros (w / 2 * (h / 2)) ++ zeros (w / 2 * (h / 2))) (w / 2 * (h / 2)) = Ok (zeros (w / 2 * (h / 2))).
Proof.
  intros Hw Hh. assert (0 ≤ w / 2 ∧ 0 ≤ h / 2) as [] by (split; apply Z.div_pos; lia).
  destruct (yuv_new_planes w h Hw Hh) as [Hd Ly Lu _]. unfold y_len, uv_len in *. cbn [width height yuv_new] in *.
  rewrite Hd. split_and!.
  - by apply slice_app_l'.
  - by apply slice_from_app'.
  - by apply slice_app_l'.
  - by apply slice_from_app'.
Qed.

(** A byte of a buffer long enough. *)
Definition byte_at (l : bytes) (i : Z) : Z := default 0 (l !! Z.to_nat i).

Lemma at_byte l i : 0 ≤ i < zlen l → at_ l i = Ok (byte_at l i).
Proof.
  intros Hi. destruct (at_in_range l i Hi) as [x Hx]. rewrite Hx.
  apply at_Ok_iff in Hx as [_ Hx]. unfold byte_at. by rewrite Hx.
Qed.

Lemma byte_at_ok l i : bytes_ok l → 0 ≤ byte_at l i < 256.
Proof.
  intros Hl. unfold byte_at. destruct (l !! Z.to_nat i) eqn:E; cbn; [|lia].
  by eapply Forall_lookup_1 in E; [|exact Hl].
Qed.

(** A frame made of three filled planes. *)
Lemma filled_frame F G H w h d u v d0 u0 v0 :
  0 < w → 0 < h → zlen d0 = h * w → zlen u0 = h / 2 * (w / 2) → zlen v0 = h / 2 * (w / 2) →
  w * h + 2 * (w / 2 * (h / 2)) < 2 ^ 63 →
  filled F (λ _, True) d0 (λ i, 0 ≤ i < h * w) d →
  filled G (λ _, True) u0 (λ i, 0 ≤ i < h / 2 * (w / 2)) u →
  filled H (λ _, True) v0 (λ i, 0 ≤ i < h / 2 * (w / 2)) v →
  let f := mkYuv w h (d ++ u ++ v) in
  frame_ok f
  ∧ (∀ x y, 0 ≤ x < w → 0 ≤ y < h → luma f x y = Some (F (y * w + x)))
  ∧ (∀ x y, 0 ≤ x < w / 2 → 0 ≤ y < h / 2 →
       cb f x y = Some (G (y * (w / 2) + x)) ∧ cr f x y = Some (H (y * (w / 2) + x))).
Proof.
  intros Hw Hh Ld Lu Lv Hm Fd Fu Fv f.
  pose proof (proj1 Fd) as Ld'. pose proof (proj1 Fu) as Lu'. pose proof (proj1 Fv) as Lv'.
  destruct (mk_planes w h d u v f eq_refl) as (A1 & A2 & A3); [lia | lia |].
  split; [|split].
  - split; cbn [width height data f]; try done; unfold y_len, uv_len; cbn [width height f]; rewrite !zlen_app; lia.
  - intros x y Hx Hy. rewrite A1. by eapply filled_px_full.
  - intros x y Hx Hy. rewrite A2, A3. by split; eapply filled_px_full.
Qed.

(** The mean of the two chroma samples of a 2x2 block of a YUYV frame; [c] is
    1 for U and 3 for V. *)
Definition yuyv_chroma (yuyv : bytes) (w c cx cy : Z) : Z :=
  (byte_at yuyv ((2 * cy) * w * 2 + cx * 4 + c) + byte_at yuyv ((2 * cy + 1) * w * 2 + cx * 4 + c)) / 2.

Lemma half_cell w h x y : w mod 2 = 0 → h mod 2 = 0 → 0 ≤ x < w / 2 → 0 ≤ y < h / 2 →
  0 ≤ (2 * y) * w * 2 + x * 4 ∧ (2 * y + 1) * w * 2 + x * 4 + 3 < w * h * 2.
Proof.
  intros Hw Hh Hx Hy. assert (x * 2 + 2 ≤ w ∧ y * 2 + 2 ≤ h) by (clear -Hw Hh Hx Hy; dm_lia). nia.
Qed.

Lemma yuyv_frame yuyv w h :
  0 < w → 0 < h → w mod 2 = 0 → h mod 2 = 0 → w * h * 2 ≤ zlen yuyv → zlen yuyv < 2 ^ 63 →
  bytes_ok yuyv →
  ∃ f, yuyv_to_yuv420p yuyv w h = Ok f ∧ width f = w ∧ height f = h ∧ frame_ok f
    ∧ (∀ x y, 0 ≤ x < w → 0 ≤ y < h → luma f x y = Some (byte_at yuyv (2 * (y * w + x))))
    ∧ (∀ x y, 0 ≤ x < w / 2 → 0 ≤ y < h / 2 →
         cb f x y = Some (yuyv_chroma yuyv w 1 x y) ∧ cr f x y = Some (yuyv_chroma yuyv w 3 x y)).
Proof.
  intros Hw Hh Ew Eh Hl Hm Hb. unfold yuyv_to_yuv420p. rewrite Ew, Eh. cbn [Z.eqb andb negb].
  rewrite (proj2 (Z.ltb_ge _ _)) by lia.
  destruct (fresh_planes w h) as (-> & -> & R3 & R4); [lia..|]. cbn [mbind Res_bind]. rewrite R3. cbn [mbind Res_bind].
  rewrite R4. cbn [mbind Res_bind].
  assert (0 ≤ w / 2 ∧ 0 ≤ h / 2) as [] by (split; apply Z.div_pos; lia).
  set (F i := byte_at yuyv (2 * i)).
  set (G c i := yuyv_chroma yuyv w c (i mod (w / 2)) (i / (w / 2))).
  destruct (row_major_filled F h w (λ row yp, for_range w (λ col yp,
      v ← at_ yuyv (row * w * 2 + col * 2); store (row * w + col) v yp) yp)
    (λ row col yp, v ← at_ yuyv (row * w * 2 + col * 2); store (row * w + col) v yp) (zeros (w * h)))
    as (d & E & Fd); [lia | lia | rewrite zlen_zeros; nia | done | |].
  { intros y x d Hy Hx. pose proof (cell_range w h x y Hx Hy). rewrite at_byte by nia. cbn [mbind Res_bind].
    unfold F. do 2 f_equal. lia. }
  rewrite E. cbn [mbind Res_bind].
  match goal with |- context [for_range (h / 2) ?o _] => set (outer := o) end.
  destruct (pair_filled (G 1) (G 3) (h / 2) (w / 2) outer (λ cy cx p,
      let r0 := (cy * 2) * w * 2 + cx * 4 in
      let r1 := (cy * 2 + 1) * w * 2 + cx * 4 in
      u0 ← at_ yuyv (r0 + 1); u1 ← at_ yuyv (r1 + 1); v0 ← at_ yuyv (r0 + 3); v1 ← at_ yuyv (r1 + 3);
      let idx := cy * (w / 2) + cx in
      up ← store idx (wrap8 ((u0 + u1) / 2)) p.1; vp ← store idx (wrap8 ((v0 + v1) / 2)) p.2; Ok (up, vp))
    (zeros (w / 2 * (h / 2))) (zeros (w / 2 * (h / 2)))) as (u & v & E2 & Fu & Fv);
    [done | done | rewrite zlen_zeros; nia | rewrite zlen_zeros; nia | done | |].
  { intros y x p Hy Hx. pose proof (half_cell w h x y Ew Eh Hx Hy). cbn zeta.
    replace (y * 2) with (2 * y) by lia. rewrite !at_byte by lia. cbn [mbind Res_bind].
    unfold G, yuyv_chroma. rewrite cell_div, cell_mod by lia.
    assert (∀ a b, wrap8 ((byte_at yuyv a + byte_at yuyv b) / 2) = (byte_at yuyv a + byte_at yuyv b) / 2) as Hwr.
    { intros a b. pose proof (byte_at_ok yuyv a Hb). pose proof (byte_at_ok yuyv b Hb).
      unfold wrap8. apply Z.mod_small. split; [apply Z.div_pos; lia | apply Z.div_lt_upper_bound; lia]. }
    by rewrite !Hwr. }
  rewrite E2. cbn [mbind Res_bind]. eexists. split; [done|]. split; [done|]. split; [done|].
  destruct (filled_frame F (G 1) (G 3) w h d u v (zeros (w * h)) (zeros (w / 2 * (h / 2)))
    (zeros (w / 2 * (h / 2))) Hw Hh) as (K1 & K2 & K3); try done; try (rewrite zlen_zeros; nia).
  { assert (2 * (w / 2) = w ∧ 2 * (h / 2) = h) as [] by (clear -Ew Eh; dm_lia). nia. }
  split; [done|]. split; [done|]. intros x y Hx Hy. destruct (K3 x y Hx Hy) as [-> ->].
  unfold G. by rewrite cell_div, cell_mod.
Qed.

(** The mean of component [c] over a 2x2 block of an RGB picture. *)
Definition rgb_sum (rgb : bytes) (w c cx cy : Z) : Z :=
  let p dy dx := byte_at rgb (((cy * 2 + dy) * w + (cx * 2 + dx)) * 3 + c) in
  p 0 0 + p 0 1 + p 1 0 + p 1 1.
Definition rgb_mean (rgb : bytes) (w c cx cy : Z) : Z := rgb_sum rgb w c cx cy / 4.

Lemma block_cell w h x y dx dy : 0 ≤ x < w / 2 → 0 ≤ y < h / 2 → 0 ≤ dx < 2 → 0 ≤ dy < 2 →
  0 ≤ (y * 2 + dy) * w + (x * 2 + dx) < w * h.
Proof.
  intros Hx Hy Hdx Hdy. apply cell_range; [clear -Hx Hdx | clear -Hy Hdy]; dm_lia.
Qed.

Lemma rgb_block rgb w h x y :
  0 ≤ x < w / 2 → 0 ≤ y < h / 2 → w * h * 3 ≤ zlen rgb →
  for_range 2 (λ dy s, for_range 2 (λ dx s,
      r ← at_ rgb (((y * 2 + dy) * w + (x * 2 + dx)) * 3);
      g ← at_ rgb (((y * 2 + dy) * w + (x * 2 + dx)) * 3 + 1);
      b ← at_ rgb (((y * 2 + dy) * w + (x * 2 + dx)) * 3 + 2);
      Ok (s.1.1 + r, s.1.2 + g, s.2 + b)) s) (0, 0, 0)
  = Ok (rgb_sum rgb w 0 x y, rgb_sum rgb w 1 x y, rgb_sum rgb w 2 x y).
Proof.
  intros Hx Hy Hl.
  assert (∀ dy dx (s : Z * Z * Z), 0 ≤ dx < 2 → 0 ≤ dy < 2 →
    (r ← at_ rgb (((y * 2 + dy) * w + (x * 2 + dx)) * 3);
     g ← at_ rgb (((y * 2 + dy) * w + (x * 2 + dx)) * 3 + 1);
     b ← at_ rgb (((y * 2 + dy) * w + (x * 2 + dx)) * 3 + 2);
     Ok (s.1.1 + r, s.1.2 + g, s.2 + b))
    = Ok (s.1.1 + byte_at rgb (((y * 2 + dy) * w + (x * 2 + dx)) * 3 + 0),
          s.1.2 + byte_at rgb (((y * 2 + dy) * w + (x * 2 + dx)) * 3 + 1),
          s.2 + byte_at rgb (((y * 2 + dy) * w + (x * 2 + dx)) * 3 + 2))) as Hread.
  { intros dy dx s Hdx Hdy. pose proof (block_cell w h x y dx dy Hx Hy Hdx Hdy).
    rewrite !at_byte by lia. cbn [mbind Res_bind]. by rewrite Z.add_0_r. }
  unfold for_range. change (Z.to_nat 2) with 2%nat. cbn [for_from].
  rewrite (Hread 0 0) by lia. cbn [mbind Res_bind]. rewrite (Hread 0 (0 + 1)) by lia. cbn [mbind Res_bind].
  rewrite (Hread (0 + 1) 0) by lia. cbn [mbind Res_bind]. rewrite (Hread (0 + 1) (0 + 1)) by lia.
  cbn [mbind Res_bind]. do 2 f_equal.
Qed.

Lemma rgb_frame rgb w h :
  0 < w → 0 < h → w * h * 3 ≤ zlen rgb → zlen rgb < 2 ^ 63 →
  ∃ f, rgb8_to_yuv420p rgb w h = Ok f ∧ width f = w ∧ height f = h ∧ frame_ok f
    ∧ (∀ x y, 0 ≤ x < w → 0 ≤ y < h →
         let i := (y * w + x) * 3 in
         luma f x y = Some (luma_of (byte_at rgb i) (byte_at rgb (i + 1)) (byte_at rgb (i + 2))))
    ∧ (∀ x y, 0 ≤ x < w / 2 → 0 ≤ y < h / 2 →
         cb f x y = Some (cb_of (rgb_mean rgb w 0 x y) (rgb_mean rgb w 1 x y) (rgb_mean rgb w 2 x y))
         ∧ cr f x y = Some (cr_of (rgb_mean rgb w 0 x y) (rgb_mean rgb w 1 x y) (rgb_mean rgb w 2 x y))).
Proof.
  intros Hw Hh Hl Hm. unfold rgb8_to_yuv420p. rewrite (proj2 (Z.ltb_ge _ _)) by lia.
  destruct (fresh_planes w h) as (-> & -> & R3 & R4); [lia..|]. cbn [mbind Res_bind]. rewrite R3. cbn [mbind Res_bind].
  rewrite R4. cbn [mbind Res_bind].
  assert (0 ≤ w / 2 ∧ 0 ≤ h / 2) as [] by (split; apply Z.div_pos; lia).
  set (F i := luma_of (byte_at rgb (i * 3)) (byte_at rgb (i * 3 + 1)) (byte_at rgb (i * 3 + 2))).
  set (G (o : Z → Z → Z → Z) i := let x := i mod (w / 2) in let y := i / (w / 2) in
          o (rgb_mean rgb w 0 x y) (rgb_mean rgb w 1 x y) (rgb_mean rgb w 2 x y)).
  set (read i yp := r ← at_ rgb (i * 3); g ← at_ rgb (i * 3 + 1); b ← at_ rgb (i * 3 + 2);
                    store i (luma_of r g b) yp).
  destruct (for_range_inv (λ k, filled F (λ _, True) (zeros (w * h)) (λ i, 0 ≤ i < k)) read (w * h) (zeros (w * h)))
    as (d & E & Fd); [nia | eapply filled_weaken; [|apply filled_start]; intros; cbn in *; lia | |].
  { intros i d Hi Hd. unfold read. rewrite !at_byte by lia. cbn [mbind Res_bind].
    destruct (filled_store _ _ _ _ _ i Hd) as (d' & Es & Hd'); [rewrite zlen_zeros; lia | done | intros; lia |].
    exists d'. split; [exact Es|]. eapply filled_weaken; [|exact Hd']. intros; cbn beta in *; lia. }
  rewrite E. cbn [mbind Res_bind].
  match goal with |- context [for_range (h / 2) ?o _] => set (outer := o) end.
  destruct (pair_filled (G cb_of) (G cr_of) (h / 2) (w / 2) outer (λ cy cx p,
      '(sr, sg, sb) ← for_range 2 (λ dy s, for_range 2 (λ dx s,
          r ← at_ rgb (((cy * 2 + dy) * w + (cx * 2 + dx)) * 3);
          g ← at_ rgb (((cy * 2 + dy) * w + (cx * 2 + dx)) * 3 + 1);
          b ← at_ rgb (((cy * 2 + dy) * w + (cx * 2 + dx)) * 3 + 2);
          Ok (s.1.1 + r, s.1.2 + g, s.2 + b)) s) (0, 0, 0);
      let idx := cy * (w / 2) + cx in
      up ← store idx (cb_of (sr / 4) (sg / 4) (sb / 4)) p.1;
      vp ← store idx (cr_of (sr / 4) (sg / 4) (sb / 4)) p.2; Ok (up, vp))
    (zeros (w / 2 * (h / 2))) (zeros (w / 2 * (h / 2)))) as (u & v & E2 & Fu & Fv);
    [done | done | rewrite zlen_zeros; nia | rewrite zlen_zeros; nia | done | |].
  { intros y x p Hy Hx. rewrite (rgb_block rgb w h) by done. cbn [mbind Res_bind].
    unfold G. by rewrite cell_div, cell_mod by lia. }
  rewrite E2. cbn [mbind Res_bind]. eexists. split; [done|]. split; [done|]. split; [done|].
  destruct (filled_frame F (G cb_of) (G cr_of) w h d u v (zeros (w * h)) (zeros (w / 2 * (h / 2)))
    (zeros (w / 2 * (h / 2))) Hw Hh) as (K1 & K2 & K3); try done; try (rewrite zlen_zeros; nia).
  { assert (2 * (w / 2) ≤ w ∧ 2 * (h / 2) ≤ h) as [] by (clear; dm_lia). nia. }
  { eapply filled_weaken; [|exact Fd]. intros; cbn beta in *; lia. }
  split; [done|]. split; [exact K2|]. intros x y Hx Hy. destruct (K3 x y Hx Hy) as [-> ->].
  unfold G. by rewrite cell_div, cell_mod.
Qed.

(** Back to RGB. *)
Definition component (c : Z) (p : Z * Z * Z) : Z := if c =? 0 then p.1.1 else if c =? 1 then p.1.2 else p.2.

Definition pixel_rgb (f : Yuv420p) (x y : Z) : Z * Z * Z :=
  rgb_of (default 0 (luma f x y)) (default 0 (cb f (x / 2) (y / 2)) - 128)
    (default 0 (cr f (x / 2) (y / 2)) - 128).

Lemma plane_at f yp up vp : frame_ok f → planes f yp up vp →
  (∀ x y, 0 ≤ x < width f → 0 ≤ y < height f → at_ yp (y * width f + x) = Ok (default 0 (luma f x y)))
  ∧ (∀ x y, 0 ≤ x < width f / 2 → 0 ≤ y < height f / 2 →
       at_ up (y * (width f / 2) + x) = Ok (default 0 (cb f x y))
       ∧ at_ vp (y * (width f / 2) + x) = Ok (default 0 (cr f x y))).
Proof.
  intros Hf [Hd Ly Lu Lv].
  destruct (mk_planes (width f) (height f) yp up vp f) as (A1 & A2 & A3);
    [destruct f; cbn in *; by rewrite Hd | done | done |].
  assert (∀ p w h x y, zlen p = w * h → 0 ≤ x < w → 0 ≤ y < h → at_ p (y * w + x) = Ok (default 0 (px p w x y))) as Hat.
  { intros p w h x y Hp Hx Hy. destruct (px_some p w h x y Hp Hx Hy) as [v Hv]. rewrite Hv.
    pose proof (cell_range w h x y Hx Hy). apply at_Ok_iff. split; [lia | exact Hv]. }
  split.
  - intros. rewrite A1. by apply (Hat yp (width f) (height f)).
  - intros. rewrite A2, A3. split; by eapply Hat.
Qed.

Lemma rgb8_pixels f :
  frame_ok f → width f mod 2 = 0 → height f mod 2 = 0 →
  ∃ rgb, yuv420p_to_rgb8 f = Ok rgb ∧ zlen rgb = width f * height f * 3
    ∧ ∀ x y c, 0 ≤ x < width f → 0 ≤ y < height f → 0 ≤ c < 3 →
        rgb !! Z.to_nat ((y * width f + x) * 3 + c) = Some (component c (pixel_rgb f x y)).
Proof.
  intros Hf Ew Eh. destruct (frame_planes f Hf) as (yp & up & vp & Hd & Ly & Lu & Lv).
  assert (planes f yp up vp) as Hpl by done. pose proof Hf as [Hw Hh _ _].
  destruct (plane_at f yp up vp Hf Hpl) as [Ay Auv].
  unfold yuv420p_to_rgb8. destruct (plane_reads f yp up vp Hpl) as (-> & -> & ->). cbn [mbind Res_bind].
  set (w := width f) in *. set (h := height f) in *.
  set (F i := component (i mod 3) (pixel_rgb f (i / 3 mod w) (i / 3 / w))).
  set (g j i := [(j * w + i) * 3; (j * w + i) * 3 + 1; (j * w + i) * 3 + 2]).
  match goal with |- context [for_range h ?o _] => set (outer := o) end.
  assert (0 ≤ w * h * 3) by nia.
  destruct (grid_filled F (λ _, True) h w g (zeros (w * h * 3))) with
    (D := λ _ : Z, False) (d := zeros (w * h * 3)) (outer := outer)
    (body := λ j i rgb,
      y ← at_ yp (j * w + i); cu ← at_ up ((j / 2) * (w / 2) + i / 2); cv ← at_ vp ((j / 2) * (w / 2) + i / 2);
      let '(r, g, b) := rgb_of y (cu - 128) (cv - 128) in
      let off := (j * w + i) * 3 in store_all [(off, r); (off + 1, g); (off + 2, b)] rgb)
    as (d & E & L & Hfd & _); try lia; try done.
  - intros y x Hy Hx. pose proof (cell_range w h x y Hx Hy). rewrite zlen_zeros by lia. repeat constructor; lia.
  - intros j i d Hj Hi _. rewrite Ay by done. cbn [mbind Res_bind].
    assert (0 ≤ i / 2 < w / 2) by (clear -Ew Hi; dm_lia). assert (0 ≤ j / 2 < h / 2) by (clear -Eh Hj; dm_lia).
    destruct (Auv (i / 2) (j / 2)) as [-> ->]; [done | done |]. cbn [mbind Res_bind].
    assert (∀ c, 0 ≤ c < 3 → F ((j * w + i) * 3 + c) = component c (pixel_rgb f i j)) as HF.
    { intros c Hc. unfold F. by rewrite cell_div, cell_mod, cell_div, cell_mod by done. }
    unfold g. cbn [map]. rewrite (HF 1), (HF 2) by lia.
    pose proof (HF 0 ltac:(lia)) as HF0. rewrite Z.add_0_r in HF0. rewrite HF0.
    unfold pixel_rgb. by destruct (rgb_of _ _ _) as [[r gg] b].
  - exists d. rewrite zlen_zeros in L by lia. split; [exact E|]. split; [done|].
    intros x y c Hx Hy Hc. rewrite Hfd.
    + unfold F. by rewrite cell_div, cell_mod, cell_div, cell_mod by done.
    + right. exists y, x. split_and!; try lia. unfold g. rewrite !elem_of_cons.
      assert (c = 0 ∨ c = 1 ∨ c = 2) as [-> | [-> | ->]] by lia; [left; lia | right; left; lia | right; right; left; lia].
Qed.

Lemma store_all_ok_or_panic ws d : ok_or_panic (store_all ws d).
Proof.
  revert d. induction ws as [|[i v] ws IH]; intros d; cbn [store_all]; [by right; eexists|].
  apply bind_ok_or_panic; [apply store_ok_or_panic | done].
Qed.
#[local] Hint Resolve store_all_ok_or_panic : core.

Lemma for_range_ok_or_panic {S} (body : Z → S → Res S) n s :
  (∀ j s, ok_or_panic (body j s)) → ok_or_panic (for_range n body s).
Proof.
  intros Hb. unfold for_range. generalize 0 as i. revert s.
  induction (Z.to_nat n) as [|k IH]; intros s i; cbn [for_from]; [by right; eexists|].
  apply bind_ok_or_panic; [done|]. intros. apply IH.
Qed.

Lemma at_past {A} (l : list A) i : zlen l ≤ i → at_ l i = Panic.
Proof.
  intros Hi. unfold at_. destruct (i <? 0) eqn:E; [done|].
  rewrite lookup_ge_None_2; [done|]. unfold zlen in Hi. lia.
Qed.

Lemma rgb8_odd f :
  frame_ok f → width f mod 2 = 1 ∨ height f mod 2 = 1 → yuv420p_to_rgb8 f = Panic.
Proof.
  intros Hf Ho. destruct (frame_planes f Hf) as (yp & up & vp & Hd & Ly & Lu & Lv).
  assert (planes f yp up vp) as Hpl by done. pose proof Hf as [Hw Hh _ _].
  unfold yuv420p_to_rgb8. destruct (plane_reads f yp up vp Hpl) as (-> & -> & ->). cbn [mbind Res_bind].
  set (body j i rgb :=
      y ← at_ yp (j * width f + i);
      cu ← at_ up ((j / 2) * (width f / 2) + i / 2); cv ← at_ vp ((j / 2) * (width f / 2) + i / 2);
      let '(r, g, b) := rgb_of y (cu - 128) (cv - 128) in
      let off := (j * width f + i) * 3 in store_all [(off, r); (off + 1, g); (off + 2, b)] rgb).
  assert (∀ j i s, ok_or_panic (body j i s)) as Hall.
  { intros j i s. unfold body. do 3 (apply bind_ok_or_panic; [auto|intros]).
    destruct (rgb_of _ _ _) as [[r g] b]. auto. }
  assert (∀ j i s, uv_len f ≤ (j / 2) * (width f / 2) + i / 2 → body j i s = Panic) as Hbad.
  { intros j i s Hji. unfold body. destruct (at_ok_or_panic yp (j * width f + i)) as [->|[v ->]]; [done|].
    cbn [mbind Res_bind]. by rewrite (at_past up) by lia. }
  apply (for_range_panic (λ j rgb, for_range (width f) (body j) rgb)).
  { intros j s Hj. by apply for_range_ok_or_panic. }
  exists (height f - 1). split; [lia|]. intros s. apply for_range_panic; [intros; apply Hall|].
  exists (width f - 1). split; [lia|]. intros s'. apply Hbad. unfold uv_len.
  assert (0 ≤ width f / 2) by (apply Z.div_pos; lia).
  assert (height f mod 2 = 1 ∧ (height f - 1) / 2 = height f / 2 ∨
          (height f - 1) / 2 = height f / 2 - 1 ∧ (width f - 1) / 2 = width f / 2) as [[_ ->]|[-> ->]]
    by (clear -Hw Hh Ho; dm_lia); [|nia].
  assert (0 ≤ (width f - 1) / 2) by (apply Z.div_pos; lia). nia.
Qed.

(** The fixed-point matrix: the sums stay within [i32], the results within
    the limited range. *)
Definition i32 (x : Z) : Prop := - 2 ^ 31 ≤ x < 2 ^ 31.

Lemma clamp_range lo hi x : lo ≤ hi → lo ≤ clamp lo hi x ≤ hi.
Proof. unfold clamp. lia. Qed.

Lemma matrix_bounds r g b :
  0 ≤ r < 256 → 0 ≤ g < 256 → 0 ≤ b < 256 →
  i32 (16829 * r + 33038 * g + 6416 * b + 32768)
  ∧ i32 (-9719 * r - 19026 * g + 28736 * b + 32768) ∧ i32 (28736 * r - 24070 * g - 4642 * b + 32768)
  ∧ 16 ≤ luma_of r g b ≤ 235 ∧ 16 ≤ cb_of r g b ≤ 240 ∧ 16 ≤ cr_of r g b ≤ 240.
Proof.
  intros. unfold i32. split_and!; try lia; unfold luma_of, cb_of, cr_of, wrap8;
    match goal with |- context [clamp ?l ?h ?x] => pose proof (clamp_range l h x ltac:(lia)) end;
    rewrite Z.mod_small; lia.
Qed.

(** The conversions of the capture loop, for every size.  A YUYV buffer
    that is long enough becomes a well-formed frame with the luma samples in
    place and each chroma sample the mean of the two rows it covers; an RGB
    buffer becomes one whose samples are those of the fixed-point matrix,
    inside the limited range and without [i32] overflow; a frame of even
    dimensions becomes the RGB picture of the inverse matrix, and a frame with
    an odd dimension unwinds, the chroma planes being rounded down. *)
Theorem conversions_correct :
  (∀ yuyv w h, 0 < w → 0 < h → w mod 2 = 0 → h mod 2 = 0 → w * h * 2 ≤ zlen yuyv → zlen yuyv < 2 ^ 63 →
     bytes_ok yuyv →
     ∃ f, yuyv_to_yuv420p yuyv w h = Ok f ∧ width f = w ∧ height f = h ∧ frame_ok f
       ∧ (∀ x y, 0 ≤ x < w → 0 ≤ y < h → luma f x y = Some (byte_at yuyv (2 * (y * w + x))))
       ∧ (∀ x y, 0 ≤ x < w / 2 → 0 ≤ y < h / 2 →
            cb f x y = Some (yuyv_chroma yuyv w 1 x y) ∧ cr f x y = Some (yuyv_chroma yuyv w 3 x y)))
  ∧ (∀ rgb w h, 0 < w → 0 < h → w * h * 3 ≤ zlen rgb → zlen rgb < 2 ^ 63 → bytes_ok rgb →
     ∃ f, rgb8_to_yuv420p rgb w h = Ok f ∧ width f = w ∧ height f = h ∧ frame_ok f
       ∧ (∀ x y, 0 ≤ x < w → 0 ≤ y < h → ∃ l, luma f x y = Some l ∧ 16 ≤ l ≤ 235
            ∧ let i := (y * w + x) * 3 in l = luma_of (byte_at rgb i) (byte_at rgb (i + 1)) (byte_at rgb (i + 2)))
       ∧ (∀ x y, 0 ≤ x < w / 2 → 0 ≤ y < h / 2 →
            let m c := rgb_mean rgb w c x y in
            cb f x y = Some (cb_of (m 0) (m 1) (m 2)) ∧ cr f x y = Some (cr_of (m 0) (m 1) (m 2))
            ∧ 16 ≤ cb_of (m 0) (m 1) (m 2) ≤ 240 ∧ 16 ≤ cr_of (m 0) (m 1) (m 2) ≤ 240
            ∧ i32 (-9719 * m 0 - 19026 * m 1 + 28736 * m 2 + 32768)))
  ∧ (∀ f, frame_ok f →
       (width f mod 2 = 0 → height f mod 2 = 0 →
        ∃ rgb, yuv420p_to_rgb8 f = Ok rgb ∧ zlen rgb = width f * height f * 3
          ∧ ∀ x y c, 0 ≤ x < width f → 0 ≤ y < height f → 0 ≤ c < 3 →
              rgb !! Z.to_nat ((y * width f + x) * 3 + c) = Some (component c (pixel_rgb f x y)))
       ∧ (width f mod 2 = 1 ∨ height f mod 2 = 1 → yuv420p_to_rgb8 f = Panic)).
Proof.
  split; [|split].
  - intros. by apply yuyv_frame.
  - intros rgb w h Hw Hh Hl Hm Hb. destruct (rgb_frame rgb w h Hw Hh Hl Hm) as (f & E & Ew & Eh & Hf & Hy & Hc).
    exists f. do 4 (split; [done|]). split.
    + intros x y Hx Hyr. eexists. split; [by apply Hy|].
      destruct (matrix_bounds _ _ _ (byte_at_ok rgb ((y * w + x) * 3) Hb) (byte_at_ok rgb ((y * w + x) * 3 + 1) Hb)
        (byte_at_ok rgb ((y * w + x) * 3 + 2) Hb)) as (_ & _ & _ & B & _). split; [exact B | reflexivity].
    + intros x y Hx Hyr. destruct (Hc x y Hx Hyr) as [-> ->].
      assert (∀ c, 0 ≤ rgb_mean rgb w c x y < 256) as Hm'.
      { intros c. unfold rgb_mean, rgb_sum. set (p := λ a, byte_at_ok rgb a Hb).
        pose proof (p (((y * 2 + 0) * w + (x * 2 + 0)) * 3 + c)). pose proof (p (((y * 2 + 0) * w + (x * 2 + 1)) * 3 + c)).
        pose proof (p (((y * 2 + 1) * w + (x * 2 + 0)) * 3 + c)). pose proof (p (((y * 2 + 1) * w + (x * 2 + 1)) * 3 + c)).
        split; [apply Z.div_pos; lia | apply Z.div_lt_upper_bound; lia]. }
      cbn zeta.
      destruct (matrix_bounds _ _ _ (Hm' 0) (Hm' 1) (Hm' 2)) as (_ & B1 & _ & _ & B2 & B3). done.
  - intros f Hf. split; [by apply rgb8_pixels | by apply rgb8_odd].
Qed.

(** A grey level from RGB, and one with zero chroma, checked over all bytes. *)
Definition grey_ok (v : Z) : bool :=
  let l := luma_of v v v in
  bool_decide (rgb_of l (cb_of v v v - 128) (cr_of v v v - 128) = (l, l, l))
  && (Z.abs (255 * (l - 16) - 219 * v) <=? 255).
Definition green_ok (v : Z) : bool :=
  bool_decide (rgb_of v (-128) (-128) = (Z.max 0 (v - 183), Z.min 255 (v + 134), Z.max 0 (v - 226))).

(** What the preview shows of the colours it is given.  A grey level
    that comes from RGB is compressed to the limited range and not expanded
    back, so that black is shown as 16 and white as 235; and a greyscale JPEG,
    whose chroma planes are left at zero instead of the neutral 128, is shown
    green, its red at most 72 and its green at least 134. *)
Theorem preview_colours :
  (∀ v, 0 ≤ v < 256 →
     let l := luma_of v v v in
     rgb_of l (cb_of v v v - 128) (cr_of v v v - 128) = (l, l, l) ∧ Z.abs (255 * (l - 16) - 219 * v) ≤ 255)
  ∧ (∀ decode mjpeg pix w h,
       decode mjpeg = Some (mkDecoded pix w h L8) → bytes_ok pix → zlen pix = w * h → 0 < w → 0 < h →
       w mod 2 = 0 → h mod 2 = 0 → w * h + 2 * (w / 2 * (h / 2)) < 2 ^ 63 →
       ∃ f rgb, mjpeg_to_yuv420p decode mjpeg = Ok f ∧ yuv420p_to_rgb8 f = Ok rgb
         ∧ ∀ x y, 0 ≤ x < w → 0 ≤ y < h →
             let v := byte_at pix (y * w + x) in let i := (y * w + x) * 3 in
             rgb !! Z.to_nat (i + 0) = Some (Z.max 0 (v - 183))
             ∧ rgb !! Z.to_nat (i + 1) = Some (Z.min 255 (v + 134))
             ∧ rgb !! Z.to_nat (i + 2) = Some (Z.max 0 (v - 226))).
Proof.
  split.
  - pose proof (forall_range grey_ok 0 256 ltac:(vm_compute; reflexivity)) as Hall.
    intros v Hv. specialize (Hall v Hv). unfold grey_ok in Hall. apply andb_true_iff in Hall as [H1 H2].
    apply bool_decide_eq_true in H1. apply Z.leb_le in H2. by split.
  - intros decode mjpeg pix w h Hdec Hb Lp Hw Hh Ew Eh Hm. unfold mjpeg_to_yuv420p. rewrite Hdec.
    cbn [pixel_format pixels info_width info_height].
    destruct (yuv_new_planes w h) as [Hd Ly Lu _]; [lia..|]. unfold y_len, uv_len in *. cbn [width height yuv_new] in *.
    assert (0 ≤ w / 2 ∧ 0 ≤ h / 2) as [] by (split; apply Z.div_pos; lia).
    rewrite Hd, !zlen_app, !zlen_zeros by nia. rewrite (proj2 (Z.leb_le _ _)) by nia.
    assert (put_row 0 pix (zeros (w * h) ++ zeros (w / 2 * (h / 2)) ++ zeros (w / 2 * (h / 2)))
      = pix ++ zeros (w / 2 * (h / 2)) ++ zeros (w / 2 * (h / 2))) as ->.
    { unfold put_row. cbn [Z.to_nat take app].
      replace (Z.to_nat (0 + zlen pix)) with (length (zeros (w * h))) by (unfold zlen in *; lia).
      by rewrite drop_app_length. }
    set (f := mkYuv w h _).
    destruct (mk_planes w h pix (zeros (w / 2 * (h / 2))) (zeros (w / 2 * (h / 2))) f eq_refl Lp) as (A1 & A2 & A3);
      [by apply zlen_zeros; nia|].
    assert (frame_ok f) as Hf.
    { split; cbn [width height data f]; try done; unfold y_len, uv_len; cbn [width height f];
        rewrite !zlen_app, !zlen_zeros by nia; lia. }
    destruct (rgb8_pixels f Hf Ew Eh) as (rgb & E & _ & Hpx). exists f, rgb. split; [done|]. split; [done|].
    intros x y Hx Hy. cbn [width height f] in Hpx.
    assert (pixel_rgb f x y = rgb_of (byte_at pix (y * w + x)) (-128) (-128)) as Hp.
    { unfold pixel_rgb. rewrite A1, A2, A3. unfold px, zeros. f_equal.
      - destruct (_ !! _) as [b|] eqn:Eb; [|done]. cbn. apply lookup_replicate in Eb as [-> _]. done.
      - destruct (_ !! _) as [b|] eqn:Eb; [|done]. cbn. apply lookup_replicate in Eb as [-> _]. done. }
    cbn zeta. rewrite !Hpx by lia. rewrite Hp.
    pose proof (forall_range green_ok 0 256 ltac:(vm_compute; reflexivity)) as Hall.
    specialize (Hall _ (byte_at_ok pix (y * w + x) Hb)). unfold green_ok in Hall. apply bool_decide_eq_true in Hall. by rewrite Hall.
Qed.

(** Four pixels in two macropixels, one grey and one coloured row. *)
Definition sample_yuyv : bytes := [10; 100; 20; 200; 30; 120; 40; 180].

Lemma conversions_correct_witness :
  ∃ f, yuyv_to_yuv420p sample_yuyv 2 2 = Ok f ∧ frame_ok f ∧ luma f 1 1 = Some 40 ∧ cb f 0 0 = Some 110.
Proof.
  destruct (proj1 conversions_correct sample_yuyv 2 2 ltac:(lia) ltac:(lia) eq_refl eq_refl)
    as (f & E & _ & _ & Hf & Hy & Hc); [vm_compute; discriminate | reflexivity | repeat constructor; lia |].
  exists f. split; [exact E|]. split; [exact Hf|]. split.
  - rewrite (Hy 1 1); [reflexivity | lia | lia].
  - rewrite (proj1 (Hc 0 0 ltac:(vm_compute; split; congruence) ltac:(vm_compute; split; congruence))). reflexivity.
Defined.

Lemma preview_colours_witness :
  ∃ f rgb, mjpeg_to_yuv420p (λ _, Some (mkDecoded [0; 100; 200; 255] 2 2 L8)) [] = Ok f
    ∧ yuv420p_to_rgb8 f = Ok rgb ∧ rgb !! 0%nat = Some 0 ∧ rgb !! 1%nat = Some 134 ∧ rgb !! 2%nat = Some 0.
Proof.
  destruct (proj2 preview_colours (λ _, Some (mkDecoded [0; 100; 200; 255] 2 2 L8)) [] [0; 100; 200; 255] 2 2 eq_refl
    ltac:(repeat constructor; lia) eq_refl ltac:(lia) ltac:(lia) eq_refl eq_refl eq_refl) as (f & rgb & E1 & E2 & H).
  exists f, rgb. split; [exact E1|]. split; [exact E2|]. exact (H 0 0 ltac:(lia) ltac:(lia)).
Defined.
