(* ===== verification/Watermark.v ===== *)
(** * The video watermark ([crates/streaming/src/watermark.rs])

    Settings, the timestamp whitelist, rasterizing one line of text with the
    font library, and blending the mask into a YUV frame.  The clock is the
    time handed to [render_into]; the font library, the file system and
    [chrono] are parameters. *)
From Stdlib Require Import ZArith Lia List Bool String.
From stdpp Require Import base option list numbers gmap.
From S2P Require Import Prelude Text F32 Value Pixels.

Definition Y_TEXT : Z := 235.
Definition Y_OUTLINE : Z := 16.
Definition UV_NEUTRAL : Z := 128.
Definition MARGIN_PX : Z := 16.
Definition MIN_ALPHA : Z := 12.

(** ** Settings *)
Inductive Position := TopLeft | TopRight | BottomLeft | BottomRight.

Record WatermarkSettings := mkSettings {
  enabled : bool; text : bytes; show_timestamp : bool; timestamp_format : bytes;
  position : Position; font_size : Z; font_path : bytes;
}.

Definition default_timestamp_format : bytes := lit "%Y-%m-%d %H:%M:%S".

Definition settings_default : WatermarkSettings :=
  mkSettings false [] true default_timestamp_format TopLeft 24 [].

(** A unit variant is a string, or an object with the name as its only key
    and [null] as its value. *)
Definition position_from_value (v : Value) : option Position :=
  s ← match v with
      | VString s => Some s
      | VObject [(s, VNull)] => Some s
      | _ => None
      end;
  if bytes_eqb s (lit "top-left") then Some TopLeft
  else if bytes_eqb s (lit "top-right") then Some TopRight
  else if bytes_eqb s (lit "bottom-left") then Some BottomLeft
  else if bytes_eqb s (lit "bottom-right") then Some BottomRight
  else None.

Definition u32_from_value (v : Value) : option Z :=
  n ← as_u64 v; if n <? 2 ^ 32 then Some n else None.

(** A field with [serde(default)], the [i]-th of the struct: of an object by
    its key, of an array by its place; absent, or of its type. *)
Definition field {A} (v : Value) (i : nat) (key : bytes) (parse : Value → option A) (d : A) : option A :=
  let value := match v with VArray l => l !! i | _ => get key v end in
  match value with Some x => parse x | None => Some d end.

(** [serde_json::from_value::<WatermarkSettings>]: an object, whose unknown
    keys are ignored, or an array of at most as many values as there are
    fields; a field of another type is an error. *)
Definition settings_from_value (v : Value) : option WatermarkSettings :=
  if match v with VObject _ => true | VArray l => zlen l <=? 7 | _ => false end then
    enabled ← field v 0 (lit "enabled") as_bool false;
    text ← field v 1 (lit "text") as_str [];
    show ← field v 2 (lit "show_timestamp") as_bool true;
    format ← field v 3 (lit "timestamp_format") as_str default_timestamp_format;
    position ← field v 4 (lit "position") position_from_value TopLeft;
    size ← field v 5 (lit "font_size") u32_from_value 24;
    path ← field v 6 (lit "font_path") as_str [];
    Some (mkSettings enabled text show format position size path)
  else None.

Definition ALLOWED_SPECIFIERS : bytes := lit "YmdFHMST%".
Definition PERCENT : Z := 37.

(** [valid_timestamp_format]: the scan by index. *)
Fixpoint valid_timestamp_format (fmt : bytes) : bool :=
  match fmt with
  | [] => true
  | b :: rest =>
      if negb (b =? PERCENT) then valid_timestamp_format rest
      else
        match rest with
        | [] => false
        | spec :: rest => existsb (Z.eqb spec) ALLOWED_SPECIFIERS && valid_timestamp_format rest
        end
  end.

(** ** Fonts

    [metrics] and [bitmap] are the two results of [fontdue]'s [rasterize]:
    the offsets of the left and bottom edges of the bitmap, its size, and the
    coverage of its pixels from the top row down. *)
Record Metrics := mkMetrics { xmin : Z; ymin : Z; m_width : Z; m_height : Z; advance_width : f32 }.

Class FontLib (Font : Type) := {
  from_bytes : bytes → option Font;
  metrics : Font → Z → f32 → Metrics;
  bitmap : Font → Z → f32 → bytes;
  chars : bytes → list Z;
}.

Class FontLaws (Font : Type) `{FontLib Font} := {
  bitmap_size font c px : 0 ≤ m_width (metrics font c px) ∧ 0 ≤ m_height (metrics font c px)
    ∧ zlen (bitmap font c px) = m_width (metrics font c px) * m_height (metrics font c px);
  bitmap_bytes font c px : bytes_ok (bitmap font c px);
}.

(** ** Masks *)
Record TextMask := mkMask { mask_w : Z; mask_h : Z; fill : bytes; outline : bytes }.

Section watermark.
Context {Font : Type} `{FontLib Font}.

(** The first pass: pen, ascent and descent. *)
Definition measure (font : Font) (px : f32) (s : f32 * Z * Z) (ch : Z) : f32 * Z * Z :=
  let m := metrics font ch px in
  (f32_add s.1.1 (advance_width m), Z.max s.1.2 (- ymin m), Z.max s.2 (ymin m + m_height m)).

(** The row and the column of the top left pixel of a glyph. *)
Definition glyph_top (ascent : Z) (m : Metrics) : Z := Z.max (ascent + ymin m) 0.
Definition glyph_left (pen : f32) (m : Metrics) : Z := round_as usize_max (f32_add pen (f32_of_Z (xmin m))).

(** One glyph stamped into [fill]; past the bottom and the right edge the
    loops break. *)
Definition stamp (w h gx gy : Z) (m : Metrics) (bits fill : bytes) : Res bytes :=
  for_range (m_height m) (λ row fill,
    let dy := gy + row in
    if h <=? dy then Ok fill
    else
      for_range (m_width m) (λ col fill,
        let dx := gx + col in
        if w <=? dx then Ok fill
        else
          let idx := dy * w + dx in
          old ← at_ fill idx;
          b ← at_ bits (row * m_width m + col);
          store idx (Z.max old b) fill) fill) fill.

(** The second pass. *)
Fixpoint stamp_line (font : Font) (px : f32) (w h ascent : Z) (pen : f32) (cs : list Z) (fill : bytes)
    : Res bytes :=
  match cs with
  | [] => Ok fill
  | ch :: cs =>
      let m := metrics font ch px in
      fill ← stamp w h (glyph_left pen m) (glyph_top ascent m) m (bitmap font ch px) fill;
      stamp_line font px w h ascent (f32_add pen (advance_width m)) cs fill
  end.

(** The 3x3 dilation. *)
Definition dilate (w h : Z) (fill outline : bytes) : Res bytes :=
  for_range h (λ y outline,
    for_range w (λ x outline,
      a ← at_ fill (y * w + x);
      if a =? 0 then Ok outline
      else
        for_range 3 (λ i outline,
          for_range 3 (λ j outline,
            let ny := y + (i - 1) in
            let nx := x + (j - 1) in
            if (ny <? 0) || (nx <? 0) || (h <=? ny) || (w <=? nx) then Ok outline
            else
              let idx := ny * w + nx in
              old ← at_ outline idx;
              store idx (Z.max old a) outline) outline) outline) outline) outline.

Definition rasterize_line (font : Font) (line : bytes) (px : f32) : Res TextMask :=
  let '(pen, ascent, descent) := fold_left (measure font px) (chars line) (f32_zero, 0, 0) in
  let w := ceil_as usize_max pen in
  let h := Z.max (ascent + descent) 0 in
  if (w =? 0) || (h =? 0) then Ok (mkMask w h [] [])
  else
    fill ← stamp_line font px w h ascent f32_zero (chars line) (zeros (w * h));
    outline ← dilate w h fill (zeros (w * h));
    Ok (mkMask w h fill outline).

(** ** Blending *)
Definition origin (position : Position) (width height mw mh : Z) : Z * Z :=
  let x := match position with
           | TopLeft | BottomLeft => MARGIN_PX
           | TopRight | BottomRight => saturating_sub width (mw + MARGIN_PX)
           end in
  let y := match position with
           | TopLeft | TopRight => MARGIN_PX
           | BottomLeft | BottomRight => saturating_sub height (mh + MARGIN_PX)
           end in
  (Z.min x (saturating_sub width 1), Z.min y (saturating_sub height 1)).

Definition blend_over (bg fg alpha : Z) : Z := wrap8 ((bg * (255 - alpha) + fg * alpha + 127) / 255).

(** The luma pass at one cell. *)
Definition ink (stroke glyph y : Z) : Z :=
  let y := if MIN_ALPHA <=? stroke then blend_over y Y_OUTLINE stroke else y in
  if MIN_ALPHA <=? glyph then blend_over y Y_TEXT glyph else y.

(** [x.div_ceil(2)] *)
Definition half_up (x : Z) : Z := (x + 1) / 2.

(** The greatest coverage of the mask in a 2x2 cell. *)
Definition cell_coverage (mask : TextMask) (width height x0 y0 cx cy : Z) : Res Z :=
  for_range 2 (λ i cov,
    for_range 2 (λ j cov,
      let dy := 2 * cy + i in
      let dx := 2 * cx + j in
      let my := saturating_sub dy y0 in
      let mx := saturating_sub dx x0 in
      if (mask_h mask <=? my) || (mask_w mask <=? mx) || (height <=? dy) || (width <=? dx) then Ok cov
      else
        o ← at_ (outline mask) (my * mask_w mask + mx);
        f ← at_ (fill mask) (my * mask_w mask + mx);
        Ok (Z.max cov (Z.max o f))) cov) 0.

Definition luma_pass (mask : TextMask) (width height x0 y0 : Z) (yp : bytes) : Res bytes :=
  for_range (mask_h mask) (λ my yp,
    let dy := y0 + my in
    if height <=? dy then Ok yp
    else
      for_range (mask_w mask) (λ mx yp,
        let dx := x0 + mx in
        if width <=? dx then Ok yp
        else
          stroke ← at_ (outline mask) (my * mask_w mask + mx);
          glyph ← at_ (fill mask) (my * mask_w mask + mx);
          if (stroke <? MIN_ALPHA) && (glyph <? MIN_ALPHA) then Ok yp
          else
            let idx := dy * width + dx in
            y ← at_ yp idx;
            store idx (ink stroke glyph y) yp) yp) yp.

Definition chroma_pass (mask : TextMask) (width height x0 y0 : Z) (p : bytes * bytes) : Res (bytes * bytes) :=
  let cells_y := half_up (Z.min (y0 + mask_h mask) height) in
  let cells_x := half_up (Z.min (x0 + mask_w mask) width) in
  for_range (cells_y - y0 / 2) (λ i p,
    for_range (cells_x - x0 / 2) (λ j p,
      let cy := y0 / 2 + i in
      let cx := x0 / 2 + j in
      coverage ← cell_coverage mask width height x0 y0 cx cy;
      if coverage <? MIN_ALPHA then Ok p
      else
        let cidx := cy * (width / 2) + cx in
        u ← at_ p.1 cidx;
        up ← store cidx (blend_over u UV_NEUTRAL coverage) p.1;
        v ← at_ p.2 cidx;
        vp ← store cidx (blend_over v UV_NEUTRAL coverage) p.2;
        Ok (up, vp)) p) p.

Definition blit_mask (yuv : Yuv420p) (mask : TextMask) (position : Position) : Res Yuv420p :=
  let w := width yuv in
  let h := height yuv in
  if (mask_w mask =? 0) || (mask_h mask =? 0) || (w =? 0) || (h =? 0) then Ok yuv
  else
    let chroma_stride := w / 2 in
    let expected := w * h + 2 * chroma_stride * (h / 2) in
    if zlen (data yuv) <? expected then Ok yuv
    else
      let '(x0, y0) := origin position w h (mask_w mask) (mask_h mask) in
      yp ← slice (data yuv) 0 (w * h);
      rest ← slice_from (data yuv) (w * h);
      up ← slice rest 0 (chroma_stride * (h / 2));
      vp ← slice_from rest (chroma_stride * (h / 2));
      yp ← luma_pass mask w h x0 y0 yp;
      '(up, vp) ← chroma_pass mask w h x0 y0 (up, vp);
      Ok (mkYuv w h (yp ++ up ++ vp)).

(** ** The renderer *)
Record Watermark := mkWatermark {
  w_text : bytes; w_show_timestamp : bool; w_timestamp_format : bytes; w_position : Position;
  w_font_size : f32; w_font : Font; cache_key : option bytes; cache_mask : option TextMask;
  rasterizations : Z;
}.

(** [Watermark::new]; [embedded] is the font compiled in, [read] the file
    system. *)
Definition watermark_new (embedded : bytes) (read : bytes → option bytes) (cfg : WatermarkSettings)
    : Res Watermark :=
  if negb (valid_timestamp_format (timestamp_format cfg)) then Err "watermark.timestamp_format only allows "
  else
    let fallback := from_bytes embedded in
    let font := if bytes_eqb (font_path cfg) [] then fallback
                else match read (font_path cfg) with
                     | Some data => match from_bytes data with Some f => Some f | None => fallback end
                     | None => fallback
                     end in
    match font with
    | None => Err "watermark font load failed: "
    | Some font =>
        Ok (mkWatermark (text cfg) (show_timestamp cfg) (timestamp_format cfg) (position cfg)
              (f32_of_Z (font_size cfg)) font None None 0)
    end.

Definition has_content (w : Watermark) : bool := w_show_timestamp w || negb (bytes_eqb (w_text w) []).

(** [format now]: [chrono]'s rendering of a format at the current time. *)
Definition line (format : bytes → bytes) (w : Watermark) : bytes :=
  let ts := if w_show_timestamp w then format (w_timestamp_format w) else [] in
  match w_text w, ts with
  | [], ts => ts
  | text, [] => text
  | text, ts => text ++ lit "  " ++ ts
  end.

Definition with_mask (key : bytes) (mask : TextMask) (w : Watermark) : Watermark :=
  mkWatermark (w_text w) (w_show_timestamp w) (w_timestamp_format w) (w_position w) (w_font_size w)
    (w_font w) (Some key) (Some mask) (rasterizations w + 1).

Definition render_into (format : bytes → bytes) (yuv : Yuv420p) (w : Watermark) : Res (Yuv420p * Watermark) :=
  if negb (has_content w) then Ok (yuv, w)
  else
    let l := line format w in
    if bytes_eqb l [] then Ok (yuv, w)
    else
      w ← (if bool_decide (cache_key w = Some l) then Ok w
           else mask ← rasterize_line (w_font w) l (w_font_size w); Ok (with_mask l mask w));
      match cache_mask w with
      | None => Ok (yuv, w)
      | Some mask => yuv ← blit_mask yuv mask (w_position w); Ok (yuv, w)
      end.
End watermark.
Arguments Watermark : clear implicits.

(** ** Updating a rectangle of a plane *)
Section rect.
Context (W H x0 y0 rows cols : Z) (U : Z → Z → Z → Z) (d0 : bytes).
Context (Hx0 : 0 ≤ x0) (Hy0 : 0 ≤ y0).

(** Has the loop been at the pixel [(a, b)], before row [y], column [x] of the
    rectangle? *)
Definition visited (y x a b : Z) : bool :=
  (x0 <=? a) && (a <? x0 + cols) && (y0 <=? b) && ((b - y0 <? y) || ((b - y0 =? y) && (a - x0 <? x))).

Definition updated (y x : Z) (d : bytes) : Prop :=
  zlen d = W * H ∧ ∀ a b, 0 ≤ a < W → 0 ≤ b < H →
    px d W a b = (if visited y x a b then U (b - y0) (a - x0) else id) <$> px d0 W a b.

Lemma updated_start : zlen d0 = W * H → updated 0 0 d0.
Proof.
  intros L. split; [done|]. intros a b Ha Hb. unfold visited.
  destruct (Z.leb_spec y0 b), (Z.ltb_spec (b - y0) 0), (Z.eqb_spec (b - y0) 0), (Z.ltb_spec (a - x0) 0),
    (Z.leb_spec x0 a), (Z.ltb_spec a (x0 + cols)); cbn; try lia; by destruct (px d0 W a b).
Qed.

Lemma updated_row y x d : 0 ≤ y → cols ≤ x → updated y x d → updated (y + 1) 0 d.
Proof.
  intros Hy Hx [L Hd]. split; [done|]. intros a b Ha Hb. rewrite Hd by done.
  replace (visited y x a b) with (visited (y + 1) 0 a b); [done|]. unfold visited.
  destruct (Z.leb_spec x0 a), (Z.ltb_spec a (x0 + cols)), (Z.leb_spec y0 b); cbn [andb]; try done.
  destruct (Z.ltb_spec (b - y0) (y + 1)), (Z.ltb_spec (b - y0) y), (Z.eqb_spec (b - y0) (y + 1)), (Z.eqb_spec (b - y0) y),
    (Z.ltb_spec (a - x0) 0), (Z.ltb_spec (a - x0) x); cbn; try done; lia.
Qed.

(** A column to the right of the plane, or a row below it, is skipped. *)
Lemma updated_skip y x d : 0 ≤ y → 0 ≤ x → W ≤ x0 + x ∨ H ≤ y0 + y → updated y x d → updated y (x + 1) d.
Proof.
  intros Hy Hx Hs [L Hd]. split; [done|]. intros a b Ha Hb. rewrite Hd by done.
  replace (visited y (x + 1) a b) with (visited y x a b); [done|]. unfold visited.
  destruct (Z.leb_spec x0 a), (Z.ltb_spec a (x0 + cols)), (Z.leb_spec y0 b); cbn [andb]; try done.
  destruct (Z.ltb_spec (b - y0) y), (Z.eqb_spec (b - y0) y), (Z.ltb_spec (a - x0) x), (Z.ltb_spec (a - x0) (x + 1));
    cbn; try done; lia.
Qed.

Lemma updated_row_skip y d : 0 ≤ y → H ≤ y0 + y → updated y 0 d → updated (y + 1) 0 d.
Proof.
  intros Hy Hs [L Hd]. split; [done|]. intros a b Ha Hb. rewrite Hd by done.
  replace (visited y 0 a b) with (visited (y + 1) 0 a b); [done|]. unfold visited.
  destruct (Z.leb_spec x0 a), (Z.ltb_spec a (x0 + cols)), (Z.leb_spec y0 b); cbn [andb]; try done.
  destruct (Z.ltb_spec (b - y0) (y + 1)), (Z.ltb_spec (b - y0) y), (Z.eqb_spec (b - y0) (y + 1)), (Z.eqb_spec (b - y0) y),
    (Z.ltb_spec (a - x0) 0); cbn; try done; lia.
Qed.

(** The cell of the rectangle, read and written back. *)
Lemma updated_hit y x d :
  0 ≤ y → 0 ≤ x < cols → x0 + x < W → y0 + y < H → updated y x d →
  ∃ v d', at_ d ((y0 + y) * W + (x0 + x)) = Ok v ∧ store ((y0 + y) * W + (x0 + x)) (U y x v) d = Ok d'
    ∧ updated y (x + 1) d' ∧ (U y x v = v → updated y (x + 1) d).
Proof.
  intros Hy Hx Hxw Hyh [L Hd]. pose proof (cell_range W H (x0 + x) (y0 + y) ltac:(lia) ltac:(lia)) as Hc.
  destruct (at_in_range d ((y0 + y) * W + (x0 + x))) as [v Hv]; [lia|]. rewrite Hv. exists v.
  unfold store. rewrite (proj2 (Z.leb_le 0 _)), (proj2 (Z.ltb_lt _ (zlen d))) by lia. cbn [andb].
  eexists. split; [done|]. split; [done|]. apply at_Ok_iff in Hv as [_ Hv].
  assert (px d0 W (x0 + x) (y0 + y) = Some v) as Hv0.
  { rewrite <-Hv. symmetry. pose proof (Hd (x0 + x) (y0 + y) ltac:(lia) ltac:(lia)) as E. unfold px in E at 1.
    rewrite E. unfold visited. destruct (Z.ltb_spec (y0 + y - y0) y), (Z.ltb_spec (x0 + x - x0) x); try lia.
    rewrite !andb_false_r. cbn. by destruct (px d0 W _ _). }
  assert (∀ d' v', zlen d' = W * H → v' = U y x v → (∀ a b, 0 ≤ a < W → 0 ≤ b < H →
      px d' W a b = if (a =? x0 + x) && (b =? y0 + y) then Some v' else px d W a b) → updated y (x + 1) d') as Hmk.
  { intros d' v' L' -> Hpx. split; [done|]. intros a b Ha Hb. rewrite Hpx by done.
    destruct (Z.eqb_spec a (x0 + x)) as [->|Hna], (Z.eqb_spec b (y0 + y)) as [->|Hnb]; cbn [andb].
    - rewrite Hv0. unfold visited. replace (y0 + y - y0) with y by lia. replace (x0 + x - x0) with x by lia.
      rewrite (proj2 (Z.leb_le x0 _)), (proj2 (Z.ltb_lt (x0 + x) _)), (proj2 (Z.leb_le y0 _)), (Z.eqb_refl y),
        (proj2 (Z.ltb_lt x (x + 1))) by lia. by rewrite orb_true_r.
    - rewrite Hd by done. f_equal. unfold visited. by rewrite (proj2 (Z.eqb_neq (b - y0) y)) by lia.
    - rewrite Hd by done. f_equal. unfold visited.
      destruct (Z.ltb_spec (a - x0) x), (Z.ltb_spec (a - x0) (x + 1)); try done; lia.
    - rewrite Hd by done. f_equal. unfold visited. by rewrite (proj2 (Z.eqb_neq (b - y0) y)) by lia. }
  split.
  - apply (Hmk _ (U y x v)); [unfold zlen in *; by rewrite length_insert | done |]. intros a b Ha Hb. unfold px.
    destruct ((a =? x0 + x) && (b =? y0 + y)) eqn:E.
    + apply andb_true_iff in E as [->%Z.eqb_eq ->%Z.eqb_eq].
      rewrite list_lookup_insert_eq; [done|]. unfold zlen in L. lia.
    + rewrite list_lookup_insert_ne; [done|]. intros Eq.
      pose proof (cell_range W H a b Ha Hb). apply Z2Nat.inj in Eq; [|lia..].
      assert (b = y0 + y) by nia. assert (a = x0 + x) by nia. subst. by rewrite !Z.eqb_refl in E.
  - intros HU. apply (Hmk d v); [done | done |]. intros a b Ha Hb.
    destruct ((a =? x0 + x) && (b =? y0 + y)) eqn:E; [|done].
    apply andb_true_iff in E as [->%Z.eqb_eq ->%Z.eqb_eq]. exact Hv.
Qed.

Lemma updated_done d a b : updated rows 0 d → 0 ≤ a < W → 0 ≤ b < H →
  px d W a b = (if (x0 <=? a) && (a <? x0 + cols) && (y0 <=? b) && (b <? y0 + rows)
                then U (b - y0) (a - x0) else id) <$> px d0 W a b.
Proof.
  intros [_ Hd] Ha Hb. rewrite Hd by done. unfold visited.
  destruct (Z.leb_spec x0 a), (Z.ltb_spec a (x0 + cols)), (Z.leb_spec y0 b); cbn [andb]; try done.
  destruct (Z.ltb_spec (b - y0) rows), (Z.ltb_spec b (y0 + rows)), (Z.eqb_spec (b - y0) rows), (Z.ltb_spec (a - x0) 0);
    cbn; try done; lia.
Qed.
End rect.

(** ** The two passes *)
Record mask_ok (m : TextMask) : Prop := {
  mk_w : 0 < mask_w m;
  mk_h : 0 < mask_h m;
  mk_fill : zlen (fill m) = mask_w m * mask_h m;
  mk_outline : zlen (outline m) = mask_w m * mask_h m;
  mk_fill_bytes : bytes_ok (fill m);
  mk_outline_bytes : bytes_ok (outline m);
}.

(** What the luma pass does at column [x] of row [y] of the mask, and the
    chroma pass at a cell. *)
Definition stroke_at (m : TextMask) (y x : Z) : Z := byte_at (outline m) (y * mask_w m + x).
Definition glyph_at (m : TextMask) (y x : Z) : Z := byte_at (fill m) (y * mask_w m + x).
Definition luma_ink (m : TextMask) (y x v : Z) : Z := ink (stroke_at m y x) (glyph_at m y x) v.

Definition chroma_ink (m : TextMask) (w h x0 y0 i j v : Z) : Z :=
  match cell_coverage m w h x0 y0 (x0 / 2 + j) (y0 / 2 + i) with
  | Ok c => if c <? MIN_ALPHA then v else blend_over v UV_NEUTRAL c
  | _ => v
  end.

Section passes.
Context (m : TextMask) (Hm : mask_ok m).

Lemma mask_reads y x : 0 ≤ x < mask_w m → 0 ≤ y < mask_h m →
  at_ (outline m) (y * mask_w m + x) = Ok (stroke_at m y x) ∧ at_ (fill m) (y * mask_w m + x) = Ok (glyph_at m y x).
Proof.
  intros Hx Hy. pose proof (cell_range (mask_w m) (mask_h m) x y Hx Hy). destruct Hm.
  split; apply at_byte; lia.
Qed.

Lemma luma_pass_updated w h x0 y0 yp :
  0 ≤ x0 → 0 ≤ y0 → zlen yp = w * h →
  ∃ d, luma_pass m w h x0 y0 yp = Ok d ∧ updated w h x0 y0 (mask_w m) (luma_ink m) yp (mask_h m) 0 d.
Proof.
  intros Hx0 Hy0 Ly. destruct Hm as [Hw Hh _ _ _ _].
  apply (for_range_inv (λ y d, updated w h x0 y0 (mask_w m) (luma_ink m) yp y 0 d)); [lia | by apply updated_start |].
  intros my d Hmy Hd. cbn beta zeta. destruct (Z.leb_spec h (y0 + my)) as [Hout|Hin].
  { exists d. split; [done|]. apply updated_row_skip; [lia | lia | done]. }
  set (body mx yp := _).
  destruct (for_range_inv (λ x d, updated w h x0 y0 (mask_w m) (luma_ink m) yp my x d) body (mask_w m) d) as (d' & E & Hd');
    [lia | done | | ].
  - intros mx d1 Hmx Hd1. unfold body. cbn beta zeta. destruct (Z.leb_spec w (x0 + mx)) as [Hout'|Hin'].
    { exists d1. split; [done|]. apply updated_skip; [lia | lia | lia | done]. }
    destruct (mask_reads my mx Hmx Hmy) as [-> ->]. cbn [mbind Res_bind].
    destruct (updated_hit w h x0 y0 (mask_w m) (luma_ink m) yp Hx0 Hy0 my mx d1) as (v & d2 & Er & Es & Hu & Hs); [lia..|done|].
    destruct ((stroke_at m my mx <? MIN_ALPHA) && (glyph_at m my mx <? MIN_ALPHA)) eqn:Eq.
    + exists d1. split; [done|]. apply Hs. unfold luma_ink, ink. apply andb_true_iff in Eq as [E1 E2].
      by rewrite !Z.leb_antisym, E1, E2.
    + rewrite Er. cbn [mbind Res_bind]. exists d2. split; [exact Es | done].
  - exists d'. split; [exact E|]. apply (updated_row w h x0 y0 (mask_w m) (luma_ink m) yp my (mask_w m)); [lia | lia | done].
Qed.

Lemma cell_coverage_ok w h x0 y0 cx cy :
  0 ≤ cx → 0 ≤ cy → ∃ c, cell_coverage m w h x0 y0 cx cy = Ok c ∧ 0 ≤ c < 256.
Proof.
  intros Hcx Hcy. apply (for_range_inv (λ _ c, 0 ≤ c < 256)); [lia | lia |].
  intros i c Hi Hc. apply (for_range_inv (λ _ c, 0 ≤ c < 256)); [lia | done |].
  intros j c' Hj Hc'. cbn zeta. destruct (_ || _) eqn:E; [by exists c'|].
  rewrite !orb_false_iff, !Z.leb_gt in E. unfold saturating_sub in *.
  destruct (mask_reads (Z.max (2 * cy + i - y0) 0) (Z.max (2 * cx + j - x0) 0)) as [-> ->]; [lia..|].
  cbn [mbind Res_bind]. eexists. split; [done|]. destruct Hm.
  unfold stroke_at, glyph_at.
  match goal with |- 0 ≤ Z.max _ (Z.max (byte_at ?p ?a) (byte_at ?q ?b)) < _ =>
    pose proof (byte_at_ok p a ltac:(done)); pose proof (byte_at_ok q b ltac:(done)) end. lia.
Qed.

Lemma chroma_pass_updated w h x0 y0 up vp :
  0 ≤ x0 < w → 0 ≤ y0 < h → w mod 2 = 0 → h mod 2 = 0 →
  zlen up = w / 2 * (h / 2) → zlen vp = w / 2 * (h / 2) →
  let rows := half_up (Z.min (y0 + mask_h m) h) - y0 / 2 in
  let cols := half_up (Z.min (x0 + mask_w m) w) - x0 / 2 in
  ∃ u v, chroma_pass m w h x0 y0 (up, vp) = Ok (u, v)
    ∧ updated (w / 2) (h / 2) (x0 / 2) (y0 / 2) cols (chroma_ink m w h x0 y0) up rows 0 u
    ∧ updated (w / 2) (h / 2) (x0 / 2) (y0 / 2) cols (chroma_ink m w h x0 y0) vp rows 0 v.
Proof.
  intros Hx0 Hy0 Ew Eh Lu Lv rows cols. destruct Hm as [Hw Hh _ _ _ _].
  assert (0 ≤ rows ∧ y0 / 2 + rows ≤ h / 2) as [Hr1 Hr2] by (unfold rows, half_up; clear -Hy0 Eh Hh; dm_lia).
  assert (0 ≤ cols ∧ x0 / 2 + cols ≤ w / 2) as [Hc1 Hc2] by (unfold cols, half_up; clear -Hx0 Ew Hw; dm_lia).
  assert (0 ≤ x0 / 2 ∧ 0 ≤ y0 / 2) as [Hxh Hyh] by (split; apply Z.div_pos; lia).
  set (I y x (p : bytes * bytes) :=
    updated (w / 2) (h / 2) (x0 / 2) (y0 / 2) cols (chroma_ink m w h x0 y0) up y x p.1
    ∧ updated (w / 2) (h / 2) (x0 / 2) (y0 / 2) cols (chroma_ink m w h x0 y0) vp y x p.2).
  unfold chroma_pass. fold rows cols.
  match goal with |- context [for_range rows ?o _] => set (outer := o) end.
  destruct (for_range_inv (λ y, I y 0) outer rows (up, vp)) as ([u v] & E & HI);
    [done | by split; apply updated_start | | exists u, v; split; [exact E | exact HI]].
  intros i p Hi Hp. unfold outer at 1. cbn beta. set (body j p := _).
  destruct (for_range_inv (I i) body cols p) as (p' & E & Hp'); [done | done | |].
  - intros j q Hj [Hu Hv]. unfold body. cbn beta zeta.
    destruct (cell_coverage_ok w h x0 y0 (x0 / 2 + j) (y0 / 2 + i)) as (c & Ec & _); [lia..|]. rewrite Ec. cbn [mbind Res_bind].
    destruct (updated_hit (w / 2) (h / 2) (x0 / 2) (y0 / 2) cols (chroma_ink m w h x0 y0) up Hxh Hyh i j q.1)
      as (a & u' & Ru & Su & Hu1 & Hu2); [lia..|done|].
    destruct (updated_hit (w / 2) (h / 2) (x0 / 2) (y0 / 2) cols (chroma_ink m w h x0 y0) vp Hxh Hyh i j q.2)
      as (b & v' & Rv & Sv & Hv1 & Hv2); [lia..|done|].
    unfold chroma_ink in Su, Sv, Hu2, Hv2. rewrite Ec in Su, Sv, Hu2, Hv2.
    destruct (c <? MIN_ALPHA).
    + exists q. split; [done|]. split; [by apply Hu2 | by apply Hv2].
    + rewrite Ru. cbn [mbind Res_bind]. rewrite Su. cbn [mbind Res_bind]. rewrite Rv. cbn [mbind Res_bind].
      rewrite Sv. cbn [mbind Res_bind]. eexists. split; [done|]. by split.
  - exists p'. split; [exact E|]. destruct Hp' as [Hu Hv]. split; (eapply updated_row; [| |eassumption]; lia).
Qed.
End passes.

(** ** Rasterizing *)
Section raster.
Context {Font : Type} `{FontLaws Font}.

(** A plane of [w] by [h] bytes. *)
Definition plane_ok (w h : Z) (p : bytes) : Prop := zlen p = w * h ∧ bytes_ok p.

Lemma zeros_ok w h : 0 ≤ w → 0 ≤ h → plane_ok w h (zeros (w * h)).
Proof.
  intros. split; [apply zlen_zeros; nia|]. unfold zeros. apply Forall_replicate. unfold is_byte. lia.
Qed.

Lemma store_max_ok w h p x y v :
  plane_ok w h p → 0 ≤ x < w → 0 ≤ y < h → is_byte v →
  ∃ old p', at_ p (y * w + x) = Ok old ∧ store (y * w + x) (Z.max old v) p = Ok p' ∧ plane_ok w h p'.
Proof.
  intros [L Hb] Hx Hy Hv. pose proof (cell_range w h x y Hx Hy).
  rewrite at_byte by lia. eexists _, _. split; [done|]. unfold store.
  rewrite (proj2 (Z.leb_le 0 _)), (proj2 (Z.ltb_lt _ (zlen p))) by lia. cbn [andb]. split; [done|]. split.
  - unfold zlen in *. by rewrite length_insert.
  - apply Forall_insert; [done|]. pose proof (byte_at_ok p (y * w + x) Hb). unfold is_byte in *. lia.
Qed.

Lemma stamp_ok w h gx gy m bits fill :
  0 ≤ gx → 0 ≤ gy → 0 ≤ m_width m → 0 ≤ m_height m → zlen bits = m_width m * m_height m → bytes_ok bits →
  plane_ok w h fill → ∃ fill', stamp w h gx gy m bits fill = Ok fill' ∧ plane_ok w h fill'.
Proof.
  intros Hgx Hgy Hw Hh Lb Hb Hf. apply (for_range_inv (λ _, plane_ok w h)); [done | done |].
  intros row p Hr Hp. cbn zeta. destruct (Z.leb_spec h (gy + row)); [by exists p|].
  apply (for_range_inv (λ _, plane_ok w h)); [done | done |].
  intros col q Hc Hq. cbn zeta. destruct (Z.leb_spec w (gx + col)); [by exists q|].
  pose proof (cell_range (m_width m) (m_height m) col row Hc Hr).
  destruct (store_max_ok w h q (gx + col) (gy + row) (byte_at bits (row * m_width m + col)) Hq) as (old & q' & -> & E & Hq');
    [lia | lia | by apply byte_at_ok |]. cbn [mbind Res_bind]. rewrite at_byte by lia. cbn [mbind Res_bind].
  by exists q'.
Qed.

Lemma stamp_line_ok font px w h ascent pen cs fill :
  plane_ok w h fill → ∃ fill', stamp_line font px w h ascent pen cs fill = Ok fill' ∧ plane_ok w h fill'.
Proof.
  revert pen fill. induction cs as [|ch cs IH]; intros pen fill Hf; cbn [stamp_line]; [by exists fill|].
  destruct (bitmap_size font ch px) as (B1 & B2 & B3).
  destruct (stamp_ok w h (glyph_left pen (metrics font ch px)) (glyph_top ascent (metrics font ch px))
    (metrics font ch px) (bitmap font ch px) fill) as (f' & -> & Hf'); try done.
  - unfold glyph_left. apply round_as_range. by vm_compute.
  - unfold glyph_top. lia.
  - apply bitmap_bytes.
  - cbn [mbind Res_bind]. by apply IH.
Qed.

Lemma dilate_ok w h fill out :
  plane_ok w h fill → plane_ok w h out → 0 ≤ w → 0 ≤ h →
  ∃ out', dilate w h fill out = Ok out' ∧ plane_ok w h out'.
Proof.
  intros [Lf Hf] Ho Hw Hh. apply (for_range_inv (λ _, plane_ok w h)); [done | done |].
  intros y p Hy Hp. apply (for_range_inv (λ _, plane_ok w h)); [done | done |].
  intros x q Hx Hq. cbn beta. pose proof (cell_range w h x y Hx Hy). rewrite at_byte by lia. cbn [mbind Res_bind].
  destruct (_ =? 0); [by exists q|].
  apply (for_range_inv (λ _, plane_ok w h)); [lia | done |]. intros i r Hi Hr.
  apply (for_range_inv (λ _, plane_ok w h)); [lia | done |]. intros j s Hj Hs. cbn zeta.
  destruct (_ || _) eqn:E; [by exists s|]. rewrite !orb_false_iff, !Z.ltb_ge, !Z.leb_gt in E.
  destruct (store_max_ok w h s (x + (j - 1)) (y + (i - 1)) (byte_at fill (y * w + x)) Hs) as (old & s' & -> & Es & Hs');
    [lia | lia | by apply byte_at_ok |]. cbn [mbind Res_bind]. by exists s'.
Qed.

Definition mask_empty (m : TextMask) : Prop := mask_w m = 0 ∨ mask_h m = 0.

Lemma rasterize_line_ok font l px :
  ∃ m, rasterize_line font l px = Ok m ∧ (mask_empty m ∨ mask_ok m).
Proof.
  unfold rasterize_line. destruct (fold_left _ _ _) as [[pen ascent] descent].
  set (w := ceil_as usize_max pen). set (h := Z.max (ascent + descent) 0).
  assert (0 ≤ w) by (apply ceil_as_range; by vm_compute). assert (0 ≤ h) by lia.
  destruct ((w =? 0) || (h =? 0)) eqn:E.
  { eexists. split; [done|]. left. unfold mask_empty. cbn. apply orb_true_iff in E as [?%Z.eqb_eq|?%Z.eqb_eq]; auto. }
  rewrite orb_false_iff, !Z.eqb_neq in E.
  destruct (stamp_line_ok font px w h ascent f32_zero (chars l) (zeros (w * h))) as (fl & -> & Hfl); [by apply zeros_ok|].
  cbn [mbind Res_bind].
  destruct (dilate_ok w h fl (zeros (w * h)) Hfl) as (out & -> & Hout); [by apply zeros_ok | done | done |].
  cbn [mbind Res_bind]. eexists. split; [done|]. right.
  destruct Hfl, Hout. split; cbn; try done; lia.
Qed.
End raster.

(** ** Blending a mask into a frame *)

(** The rectangle of the mask, and the cells it touches. *)
Definition in_mask (m : TextMask) (x0 y0 x y : Z) : bool :=
  (x0 <=? x) && (x <? x0 + mask_w m) && (y0 <=? y) && (y <? y0 + mask_h m).
Definition in_cells (m : TextMask) (w h x0 y0 x y : Z) : bool :=
  (x0 / 2 <=? x) && (x <? half_up (Z.min (x0 + mask_w m) w)) && (y0 / 2 <=? y)
  && (y <? half_up (Z.min (y0 + mask_h m) h)).

Record blended (f g : Yuv420p) (m : TextMask) (p : Position) : Prop := {
  bl_ok : frame_ok g;
  bl_width : width g = width f;
  bl_height : height g = height f;
  bl_luma x y : 0 ≤ x < width f → 0 ≤ y < height f →
    let o := origin p (width f) (height f) (mask_w m) (mask_h m) in
    luma g x y = (if in_mask m o.1 o.2 x y then luma_ink m (y - o.2) (x - o.1) else id) <$> luma f x y;
  bl_chroma x y : 0 ≤ x < width f / 2 → 0 ≤ y < height f / 2 →
    let o := origin p (width f) (height f) (mask_w m) (mask_h m) in
    let t := if in_cells m (width f) (height f) o.1 o.2 x y
             then chroma_ink m (width f) (height f) o.1 o.2 (y - o.2 / 2) (x - o.1 / 2) else id in
    cb g x y = t <$> cb f x y ∧ cr g x y = t <$> cr f x y;
}.

Lemma origin_range p w h mw mh : 0 < w → 0 < h →
  0 ≤ (origin p w h mw mh).1 < w ∧ 0 ≤ (origin p w h mw mh).2 < h.
Proof. unfold origin, saturating_sub, MARGIN_PX. destruct p; cbn; lia. Qed.

Lemma blit_mask_blended f m p :
  frame_ok f → width f mod 2 = 0 → height f mod 2 = 0 → mask_ok m →
  ∃ g, blit_mask f m p = Ok g ∧ blended f g m p.
Proof.
  intros Hf Ew Eh Hm. pose proof Hf as [Hw Hh Hl Hmax]. pose proof Hm as [Mw Mh _ _ _ _].
  destruct (frame_planes f Hf) as (yp & up & vp & Hd & Ly & Lu & Lv).
  unfold blit_mask. rewrite !(proj2 (Z.eqb_neq _ 0)) by lia. cbn [orb].
  replace (2 * (width f / 2) * (height f / 2)) with (2 * uv_len f) by (unfold uv_len; lia).
  change (width f * height f) with (y_len f). change (width f / 2 * (height f / 2)) with (uv_len f).
  rewrite (proj2 (Z.ltb_ge _ _)) by lia.
  destruct (origin_range p (width f) (height f) (mask_w m) (mask_h m) Hw Hh) as [Ho1 Ho2].
  destruct (origin p _ _ _ _) as [x0 y0] eqn:Eo. cbn [fst snd] in *.
  rewrite Hd, (slice_app_l' yp), (slice_from_app' yp) by done. cbn [mbind Res_bind].
  rewrite (slice_app_l' up), (slice_from_app' up) by done. cbn [mbind Res_bind].
  destruct (luma_pass_updated m Hm (width f) (height f) x0 y0 yp) as (y' & -> & Hy); [lia | lia | done |]. cbn [mbind Res_bind].
  destruct (chroma_pass_updated m Hm (width f) (height f) x0 y0 up vp) as (u' & v' & -> & Hu & Hv); [done..|].
  cbn [mbind Res_bind]. eexists. split; [done|].
  destruct (mk_planes (width f) (height f) yp up vp f) as (A1 & A2 & A3);
    [destruct f; cbn in *; by rewrite Hd | done | done |].
  destruct (mk_planes (width f) (height f) y' u' v' _ eq_refl) as (B1 & B2 & B3); [apply Hy | apply Hu |].
  pose proof (proj1 Hy). pose proof (proj1 Hu). pose proof (proj1 Hv). unfold y_len, uv_len in *.
  split; try done.
  - split; cbn [width height data]; try done; unfold y_len, uv_len; cbn [width height]; rewrite !zlen_app; lia.
  - intros x y Hx Hyr. rewrite Eo. cbn zeta. cbn [fst snd]. rewrite B1, A1.
    by apply (updated_done (width f) (height f) x0 y0 (mask_h m) (mask_w m)).
  - intros x y Hx Hyr. rewrite Eo. cbn zeta. cbn [fst snd]. rewrite A2, A3, B2, B3. unfold in_cells.
    rewrite (updated_done _ _ _ _ _ _ _ _ _ _ _ Hu), (updated_done _ _ _ _ _ _ _ _ _ _ _ Hv) by done.
    by replace (x0 / 2 + (half_up (Z.min (x0 + mask_w m) (width f)) - x0 / 2))
      with (half_up (Z.min (x0 + mask_w m) (width f))) by lia;
    replace (y0 / 2 + (half_up (Z.min (y0 + mask_h m) (height f)) - y0 / 2))
      with (half_up (Z.min (y0 + mask_h m) (height f))) by lia.
Qed.

(** ** The renderer *)
Section renderer.
Context {Font : Type} `{FontLaws Font}.

(** The cached mask is the rasterization of the cached line. *)
Definition cache_ok (w : Watermark Font) : Prop :=
  ∀ k, cache_key w = Some k →
    ∃ m, cache_mask w = Some m ∧ rasterize_line (w_font w) k (w_font_size w) = Ok m.

(** What rendering gives: the frame and the renderer after it. *)
Definition rendered (format : bytes → bytes) (f : Yuv420p) (w : Watermark Font) (g : Yuv420p) (w' : Watermark Font)
    : Prop :=
  rasterizations w' = rasterizations w
    + (if has_content w && negb (bytes_eqb (line format w) []) && negb (bool_decide (cache_key w = Some (line format w)))
       then 1 else 0)
  ∧ ((has_content w = false ∨ line format w = []) ∧ g = f ∧ w' = w
     ∨ has_content w = true ∧ line format w ≠ [] ∧ ∃ m,
         rasterize_line (w_font w) (line format w) (w_font_size w) = Ok m
         ∧ cache_key w' = Some (line format w)
         ∧ (mask_empty m ∧ g = f ∨ mask_ok m ∧ blended f g m (w_position w))).

Lemma render_into_rendered format (f : Yuv420p) (w : Watermark Font) :
  frame_ok f → width f mod 2 = 0 → height f mod 2 = 0 → cache_ok w →
  ∃ g w', render_into format f w = Ok (g, w') ∧ cache_ok w' ∧ frame_ok g ∧ rendered format f w g w'.
Proof.
  intros Hf Ew Eh Hc. unfold render_into, rendered.
  destruct (has_content w) eqn:Ec; cbn [negb andb]; [|by exists f, w; split_and!; try done; [lia | left; auto]].
  destruct (bytes_eqb (line format w) []) eqn:El; cbn [negb andb].
  { apply bytes_eqb_eq in El. exists f, w. split_and!; try done; [lia | left; auto]. }
  assert (line format w ≠ []) as Hl by (intros E; by rewrite E in El).
  set (l := line format w) in *.
  assert (∃ w1 m, (if bool_decide (cache_key w = Some l) then Ok w
      else mask ← rasterize_line (w_font w) l (w_font_size w); Ok (with_mask l mask w)) = Ok w1
    ∧ cache_ok w1 ∧ cache_mask w1 = Some m ∧ cache_key w1 = Some l ∧ w_position w1 = w_position w
    ∧ rasterize_line (w_font w) l (w_font_size w) = Ok m
    ∧ rasterizations w1 = rasterizations w + (if negb (bool_decide (cache_key w = Some l)) then 1 else 0))
    as (w1 & m & -> & Hc1 & Hm1 & Hk1 & Hp1 & Hr & Hn).
  { case_bool_decide as Hk; cbn [negb].
    - destruct (Hc l Hk) as (m & Hm & Hr). exists w, m. split_and!; try done. lia.
    - destruct (rasterize_line_ok (w_font w) l (w_font_size w)) as (m & Hr & _). rewrite Hr. cbn [mbind Res_bind].
      exists (with_mask l m w), m. split_and!; try done. intros k [= <-]. by exists m. }
  cbn [mbind Res_bind]. rewrite Hm1.
  destruct (rasterize_line_ok (w_font w) l (w_font_size w)) as (m' & Hr' & Hmask).
  rewrite Hr in Hr'. injection Hr' as <-. destruct Hmask as [He|Hm].
  - assert (blit_mask f m (w_position w1) = Ok f) as ->.
    { unfold blit_mask. destruct He as [-> | ->]; cbn [Z.eqb orb]; [done|]. by rewrite orb_true_r. }
    cbn [mbind Res_bind]. exists f, w1. split_and!; try done. right. split; [done|]. split; [done|].
    exists m. split_and!; try done. by left.
  - rewrite Hp1. destruct (blit_mask_blended f m (w_position w) Hf Ew Eh Hm) as (g & -> & Hb). cbn [mbind Res_bind].
    exists g, w1. split_and!; try done; [apply Hb|]. right. split; [done|]. split; [done|].
    exists m. split_and!; try done. by right.
Qed.

(** Rendering the watermark, on every well-formed frame of even
    dimensions and at every time: it never unwinds, and keeps the cache
    consistent.  Without content or with an empty line the frame is untouched;
    otherwise the frame is blended with the mask of the current line, never
    with that of an earlier one: each luma pixel inside the mask's rectangle
    gets the stroke and the glyph of its place, each chroma cell the mask
    touches is drawn toward neutral, and every other sample is unchanged.
    Consecutive renders of an unchanged line rasterize once. *)
Theorem render_into_blends format (f : Yuv420p) (w : Watermark Font) :
  frame_ok f → width f mod 2 = 0 → height f mod 2 = 0 → cache_ok w →
  ∃ g w', render_into format f w = Ok (g, w') ∧ cache_ok w' ∧ frame_ok g
    ∧ rasterizations w' = rasterizations w
        + (if has_content w && negb (bytes_eqb (line format w) []) && negb (bool_decide (cache_key w = Some (line format w)))
           then 1 else 0)
    ∧ ((has_content w = false ∨ line format w = []) ∧ g = f ∧ w' = w
       ∨ has_content w = true ∧ line format w ≠ [] ∧ ∃ m,
           rasterize_line (w_font w) (line format w) (w_font_size w) = Ok m
           ∧ cache_key w' = Some (line format w)
           ∧ (mask_empty m ∧ g = f ∨ mask_ok m ∧ blended f g m (w_position w))).
Proof. exact (render_into_rendered format f w). Qed.

(** [ymin] is the offset of the bottom edge, but the glyph is stamped with it
    as the row of its top edge: glyphs on one baseline are aligned at their
    tops, so that those of different heights end at different rows. *)
Lemma glyphs_hang ascent (m m' : Metrics) :
  0 ≤ ascent + ymin m → ymin m = ymin m' → m_height m ≠ m_height m' →
  glyph_top ascent m = glyph_top ascent m' ∧ glyph_top ascent m + m_height m ≠ glyph_top ascent m' + m_height m'.
Proof. unfold glyph_top. lia. Qed.
End renderer.

(** An odd frame: the last cell of the chroma pass is outside the planes. *)
Lemma odd_frame_unwinds :
  frame_ok sample_frame ∧ blit_mask sample_frame (mkMask 1 1 [255] [255]) TopLeft = Panic.
Proof. split; [exact sample_frame_ok | reflexivity]. Qed.

(** A font whose glyphs are single opaque pixels. *)
#[local] Instance dot_font : FontLib unit := {
  from_bytes _ := Some tt;
  metrics _ _ _ := mkMetrics 0 0 1 1 (f32_of_Z 1);
  bitmap _ _ _ := [255];
  chars := id;
}.
#[local] Instance dot_font_laws : FontLaws unit.
Proof. split; intros; cbn; [done|]. constructor; [done | constructor]. Qed.

Definition sample_settings : WatermarkSettings := mkSettings true (lit "A") true (lit "%S") TopLeft 24 [].
Definition sample_watermark : Watermark unit :=
  mkWatermark (lit "A") true (lit "%S") TopLeft (f32_of_Z 24) tt None None 0.
Lemma sample_watermark_new : watermark_new [] (λ _, None) sample_settings = Ok sample_watermark.
Proof. reflexivity. Qed.

Lemma render_into_blends_witness :
  ∃ g w', render_into (λ _, lit "07") wide_frame sample_watermark = Ok (g, w') ∧ rasterizations w' = 1
    ∧ frame_ok g ∧ luma g 3 1 ≠ luma wide_frame 3 1.
Proof.
  destruct (render_into_blends (λ _, lit "07") wide_frame sample_watermark wide_frame_ok eq_refl eq_refl) as (g & w' & E & _ & Hg & Hr & _);
    [intros k Hk; discriminate Hk|].
  exists g, w'. split; [exact E|]. split; [exact Hr|]. split; [exact Hg|].
  assert (render_into (λ _, lit "07") wide_frame sample_watermark
    = Ok (mkYuv 4 2 [1; 2; 3; 4; 5; 6; 7; 235; 20; 128; 30; 128], w')) as E'
    by (rewrite E; vm_compute in E; injection E as <- <-; reflexivity).
  rewrite E in E'. injection E' as ->. vm_compute. discriminate.
Defined.
