(* ===== verification/Edges.v ===== *)
(** * Alarm edges ([crates/web/src/alarm.rs],
    [crates/streaming/src/audio_ai/state.rs], the worker of
    [audio_ai/mod.rs], the clip detector of [audio_level.rs])

    Two state machines that turn samples into alarms: a signal on a rising
    edge unless the last one is too recent.  Both are shown to report exactly
    the edges that a selection by cooldown keeps. *)
From Stdlib Require Import ZArith Lia List Bool String.
From stdpp Require Import base option list numbers gmap.
From S2P Require Import Prelude F32.

(** ** Selection by cooldown *)
Section thin.
Context {A : Type} (time : A → Z) (clear : Z → Z → bool).

(** Keep an item if [clear] holds between the last kept time and its own. *)
Fixpoint thin (last : option Z) (l : list A) : list A :=
  match l with
  | [] => []
  | a :: l => if match last with Some t => clear t (time a) | None => true end
              then a :: thin (Some (time a)) l else thin last l
  end.

(** Every item is clear of the one before it. *)
Fixpoint spaced (last : option Z) (l : list A) : Prop :=
  match l with
  | [] => True
  | a :: l => match last with Some t => clear t (time a) = true | None => True end
              ∧ spaced (Some (time a)) l
  end.

Lemma thin_spaced last l : spaced last (thin last l).
Proof using.
  revert last. induction l as [|a l IH]; intros last; cbn [thin]; [done|].
  destruct (match last with Some t => clear t (time a) | None => true end) eqn:E; [|done].
  cbn [spaced]. split; [by destruct last | done].
Qed.

Lemma thin_sublist last l : sublist (thin last l) l.
Proof using.
  revert last. induction l as [|a l IH]; intros last; cbn [thin]; [done|].
  by case_match; constructor.
Qed.

(** What is dropped is not clear of an item kept earlier. *)
Lemma thin_dropped last a l :
  match last with Some t => clear t (time a) | None => true end = false →
  thin last (a :: l) = thin last l.
Proof using. cbn [thin]. by intros ->. Qed.
End thin.

(** [Instant::duration_since], which saturates; times in nanoseconds. *)
Definition duration_since (now t : Z) : Z := Z.max 0 (now - t).

(** The cooldown between two reports. *)
Definition cooled (cd t t' : Z) : bool := cd <=? duration_since t' t.

Module Alarm.
(** ** [AlarmBridge] *)
Record AlarmSignal := mkSignal { sig_camera : bytes; sig_targets : Z; sig_timestamp_ms : Z }.

Record AlarmBridge := mkBridge {
  was_active : gmap bytes bool; last_fire : gmap bytes Z; cooldown : Z }.

Definition alarm_new (cooldown : Z) : AlarmBridge := mkBridge ∅ ∅ cooldown.

(** The arguments of [observe]. *)
Record Sample := mkSample { camera_id : bytes; targets : Z; now : Z; timestamp_ms : Z }.

Definition active (s : Sample) : bool := 0 <? targets s.
Definition signal (s : Sample) : AlarmSignal := mkSignal (camera_id s) (targets s) (timestamp_ms s).

Definition alarm_observe (b : AlarmBridge) (s : Sample) : AlarmBridge * option AlarmSignal :=
  let was := default false (was_active b !! camera_id s) in
  let wa := <[camera_id s := active s]> (was_active b) in
  if negb (active s) || was then (mkBridge wa (last_fire b) (cooldown b), None)
  else if match last_fire b !! camera_id s with
          | Some t => duration_since (now s) t <? cooldown b
          | None => false
          end
  then (mkBridge wa (last_fire b) (cooldown b), None)
  else (mkBridge wa (<[camera_id s := now s]> (last_fire b)) (cooldown b), Some (signal s)).

Fixpoint alarm_run (b : AlarmBridge) (l : list Sample) : list AlarmSignal :=
  match l with
  | [] => []
  | s :: l => let '(b, fired) := alarm_observe b s in
              match fired with Some g => g :: alarm_run b l | None => alarm_run b l end
  end.

(** The samples that follow an idle one and are not idle. *)
Fixpoint rises (was : bool) (l : list Sample) : list Sample :=
  match l with
  | [] => []
  | s :: l => (if active s && negb was then [s] else []) ++ rises (active s) l
  end.

Lemma rises_active l : Forall (λ s, active s = true) l → rises true l = [].
Proof. induction 1 as [|s l Hs _ IH]; [done|]. cbn [rises]. by rewrite Hs. Qed.

Lemma alarm_run_camera b l c :
  filter (λ g, sig_camera g = c) (alarm_run b l)
  = signal <$> thin now (cooled (cooldown b)) (last_fire b !! c)
      (rises (default false (was_active b !! c)) (filter (λ s, camera_id s = c) l)).
Proof.
  revert b. induction l as [|s l IH]; intros b; [done|].
  cbn [alarm_run]. unfold alarm_observe. rewrite (filter_cons _ s).
  destruct (decide (camera_id s = c)) as [<-|Hc].
  - cbn [rises].
    destruct (active s) eqn:Ea; cbn [negb orb andb app];
      [|by rewrite IH; cbn; rewrite lookup_insert_eq].
    destruct (default false (was_active b !! camera_id s)) eqn:Ew; cbn [negb andb app];
      [by rewrite IH; cbn; rewrite lookup_insert_eq|].
    cbn [thin]. unfold cooled at 1. destruct (last_fire b !! camera_id s) as [t|] eqn:El.
    + rewrite Z.leb_antisym. destruct (duration_since (now s) t <? cooldown b); cbn [negb].
      * rewrite IH. cbn. by rewrite lookup_insert_eq, El.
      * rewrite filter_cons_True, IH by done. cbn. by rewrite !lookup_insert_eq.
    + rewrite filter_cons_True, IH by done. cbn. by rewrite !lookup_insert_eq.
  - repeat case_match; simplify_eq; rewrite ?filter_cons_False by done;
      rewrite IH; cbn; by rewrite !lookup_insert_ne by done.
Qed.

(** The alarms of a camera.  Whatever the cameras interleave, the signals of
    one camera are those of its own rising edges (an idle sample, or none,
    before one that is not) that come at least the cooldown after the last
    signal; signals are therefore that far apart, other cameras play no part,
    and nothing is reported while a camera stays active, not even an edge that
    the cooldown dropped once the cooldown is over. *)
Theorem alarm_edges cd l c :
  let reported := filter (λ g, sig_camera g = c) (alarm_run (alarm_new cd) l) in
  let kept := thin now (cooled cd) None (rises false (filter (λ s, camera_id s = c) l)) in
  reported = signal <$> kept
  ∧ spaced now (cooled cd) None kept
  ∧ ∀ b more, was_active b !! c = Some true →
      Forall (λ s, camera_id s = c → active s = true) more →
      filter (λ g, sig_camera g = c) (alarm_run b more) = [].
Proof.
  intros reported kept. split_and!.
  - apply (alarm_run_camera (alarm_new cd)).
  - apply thin_spaced.
  - intros b more Hb Hm. rewrite alarm_run_camera, Hb, rises_active; [done|].
    rewrite Forall_forall in *. intros s [Hs Hin]%list_elem_of_filter. auto.
Qed.

Lemma alarm_edges_witness :
  filter (λ g, sig_camera g = [48]) (alarm_run (alarm_new 30)
    [mkSample [48] 2 0 1; mkSample [49] 1 1 2; mkSample [48] 0 2 3; mkSample [48] 5 3 4; mkSample [48] 1 90 5;
     mkSample [48] 0 91 6; mkSample [48] 1 92 7])
  = [mkSignal [48] 2 1; mkSignal [48] 1 7].
Proof.
  rewrite (proj1 (alarm_edges 30 [mkSample [48] 2 0 1; mkSample [49] 1 1 2; mkSample [48] 0 2 3; mkSample [48] 5 3 4;
    mkSample [48] 1 90 5; mkSample [48] 0 91 6; mkSample [48] 1 92 7] [48])). by vm_compute.
Defined.
End Alarm.

(** ** [SoundEventState] *)
Module Sound.
Record WatchedClass := mkClass { name : bytes; class_zh : bytes; index : nat }.

Record SoundEvent := mkEvent { class : bytes; label_zh : bytes; score : f32; timestamp_ms : Z }.

Record ClassWatcher := mkWatcher {
  spec : WatchedClass; window : list f32; active : bool; last_fire : option Z }.

Record SoundEventState := mkState {
  watched : list ClassWatcher; enter_threshold : f32; cooldown : Z }.

Definition VOTE_PATCHES : nat := 3.

Definition sound_new (classes : list WatchedClass) (threshold : f32) (cooldown : Z) : SoundEventState :=
  mkState (map (λ spec, mkWatcher spec [] false None) classes)
    (f32_clamp threshold (f32_lit 1 100) (f32_of_Z 1)) cooldown.

(** The arguments of [update]. *)
Record Patch := mkPatch { scores : list f32; now : Z; timestamp : Z }.

(** [push_back] and [pop_front] down to [VOTE_PATCHES]. *)
Definition push_score (window : list f32) (score : f32) : list f32 :=
  let w := window ++ [score] in drop (length w - VOTE_PATCHES) w.

Definition patch_score (i : nat) (p : Patch) : f32 := default f32_zero (scores p !! i).
Definition mean (w : list f32) : f32 := f32_div (f32_sum w) (f32_of_Z (zlen w)).
Definition exit_threshold (enter : f32) : f32 := f32_mul (f32_lit 1 2) enter.

Definition sound_event (c : WatchedClass) (m : f32) (p : Patch) : SoundEvent :=
  mkEvent (name c) (class_zh c) m (timestamp p).

(** One round of the loop of [update]. *)
Definition watch (enter : f32) (cd : Z) (w : ClassWatcher) (p : Patch) : ClassWatcher * option SoundEvent :=
  let win := push_score (window w) (patch_score (index (spec w)) p) in
  if (length win <? VOTE_PATCHES)%nat then (mkWatcher (spec w) win (active w) (last_fire w), None)
  else
    let m := mean win in
    if active w then
      (mkWatcher (spec w) win (negb (f32_le m (exit_threshold enter))) (last_fire w), None)
    else if f32_le enter m then
      if match last_fire w with Some t => cd <=? duration_since (now p) t | None => true end
      then (mkWatcher (spec w) win true (Some (now p)), Some (sound_event (spec w) m p))
      else (mkWatcher (spec w) win true (last_fire w), None)
    else (mkWatcher (spec w) win false (last_fire w), None).

Fixpoint update_loop (enter : f32) (cd : Z) (ws : list ClassWatcher) (p : Patch)
    : list ClassWatcher * list SoundEvent :=
  match ws with
  | [] => ([], [])
  | w :: ws =>
      let '(w, fired) := watch enter cd w p in
      let '(ws, rest) := update_loop enter cd ws p in
      (w :: ws, match fired with Some e => e :: rest | None => rest end)
  end.

Definition sound_update (s : SoundEventState) (p : Patch) : SoundEventState * list SoundEvent :=
  let '(ws, fired) := update_loop (enter_threshold s) (cooldown s) (watched s) p in
  (mkState ws (enter_threshold s) (cooldown s), fired).

Fixpoint sound_run (s : SoundEventState) (l : list Patch) : list (list SoundEvent) :=
  match l with
  | [] => []
  | p :: l => let '(s, fired) := sound_update s p in fired :: sound_run s l
  end.

(** *** The worker *)

Definition WINDOW_SAMPLES : Z := 15360.
Definition HOP_SAMPLES : Z := 7680.

(** [chunk.samples] as [f32]. *)
Definition f32_chunk (samples : list Z) : list f32 :=
  map (λ s, f32_div (f32_of_Z s) (f32_of_Z 32768)) samples.

Section worker.
(** The inference engine ([None] is an error), and whether [rms_dbfs] is below
    the silence gate (a logarithm of the platform's library); the clocks are
    read for each window. *)
Context (classify : list f32 → option (list f32)) (silent : list f32 → bool).
Context (win hop : nat).

(** The windows cut from the buffer, and what stays in it. *)
Fixpoint cut_windows (fuel : nat) (buf : list f32) : list (list f32) * list f32 :=
  match fuel with
  | O => ([], buf)
  | S fuel =>
      if (win <=? length buf)%nat then
        let '(ws, rest) := cut_windows fuel (drop hop buf) in (take win buf :: ws, rest)
      else ([], buf)
  end.

Definition worker_chunk (buf : list f32) (samples : list Z) : list (list f32) * list f32 :=
  let buf := buf ++ f32_chunk samples in cut_windows (S (length buf)) buf.

(** One window at a time: a silent one is skipped, an inference error too. *)
Definition worker_window (s : SoundEventState) (w : list f32) (now ts : Z)
    : SoundEventState * list SoundEvent :=
  if silent w then (s, [])
  else match classify w with
       | Some scores => sound_update s (mkPatch scores now ts)
       | None => (s, [])
       end.

Fixpoint worker_run (s : SoundEventState) (l : list (list f32 * Z * Z)) : list SoundEvent :=
  match l with
  | [] => []
  | (w, now, ts) :: l => let '(s, fired) := worker_window s w now ts in fired ++ worker_run s l
  end.

(** The windows of chunks that arrive one after the other. *)
Fixpoint chunk_windows (buf : list f32) (chunks : list (list Z)) : list (list f32) :=
  match chunks with
  | [] => []
  | c :: chunks => let '(ws, buf) := worker_chunk buf c in ws ++ chunk_windows buf chunks
  end.
End worker.

(** *** One class at a time *)
Fixpoint watch_run (enter : f32) (cd : Z) (w : ClassWatcher) (l : list Patch) : list (option SoundEvent) :=
  match l with
  | [] => []
  | p :: l => let '(w, fired) := watch enter cd w p in fired :: watch_run enter cd w l
  end.

Lemma update_loop_eq enter cd ws p :
  update_loop enter cd ws p
  = (map (λ w, (watch enter cd w p).1) ws, omap (λ w, (watch enter cd w p).2) ws).
Proof.
  induction ws as [|w ws IH]; [done|]. cbn [update_loop map]. rewrite IH.
  cbn [omap list_omap]. destruct (watch enter cd w p) as [w' [e|]]; done.
Qed.

Lemma omap_ext_map {A B C} (f : B → option C) (g : A → option C) (h : A → B) l :
  (∀ a, f (h a) = g a) → omap f (map h l) = omap g l.
Proof.
  intros H. induction l as [|a l IH]; [done|]. cbn [map omap list_omap]. rewrite H.
  destruct (g a); [f_equal|]; apply IH.
Qed.

Lemma sound_run_watchers s l k fired :
  sound_run s l !! k = Some fired →
  fired = omap (λ w, mjoin (watch_run (enter_threshold s) (cooldown s) w l !! k)) (watched s).
Proof.
  revert s k. induction l as [|p l IH]; intros s k; [done|].
  cbn [sound_run]. unfold sound_update. rewrite update_loop_eq. destruct k as [|k]; cbn [lookup list_lookup].
  - intros [= <-]. rewrite <-(map_id (watched s)) at 1. apply omap_ext_map. intros w.
    cbn [watch_run]. by destruct (watch _ _ w p).
  - intros H. rewrite (IH _ _ H). cbn [watched enter_threshold cooldown]. apply omap_ext_map.
    intros w. cbn [watch_run]. by destruct (watch _ _ w p).
Qed.

(** The mean of the last three scores, once there are three. *)
Fixpoint voted (i : nat) (win : list f32) (l : list Patch) : list (option f32 * Patch) :=
  match l with
  | [] => []
  | p :: l => let win := push_score win (patch_score i p) in
              ((if (length win <? VOTE_PATCHES)%nat then None else Some (mean win)), p) :: voted i win l
  end.

(** The rising edges of a mean with hysteresis. *)
Fixpoint rises (enter : f32) (act : bool) (l : list (option f32 * Patch)) : list (f32 * Patch) :=
  match l with
  | [] => []
  | (None, _) :: l => rises enter act l
  | (Some m, p) :: l =>
      if act then rises enter (negb (f32_le m (exit_threshold enter))) l
      else if f32_le enter m then (m, p) :: rises enter true l else rises enter false l
  end.

Lemma watch_run_rises enter cd w l :
  omap id (watch_run enter cd w l)
  = (λ mp, sound_event (spec w) mp.1 mp.2)
    <$> thin (λ mp, now mp.2) (cooled cd) (last_fire w)
          (rises enter (active w) (voted (index (spec w)) (window w) l)).
Proof.
  revert w. induction l as [|p l IH]; intros w; [done|]. cbn [watch_run voted rises]. unfold watch.
  set (win := push_score _ _).
  destruct (length win <? VOTE_PATCHES)%nat; [by cbn; rewrite IH|].
  destruct (active w); [by cbn; rewrite IH|].
  destruct (f32_le enter (mean win)); [|by cbn; rewrite IH]. cbn [thin].
  destruct (last_fire w) as [t|]; [unfold cooled at 1; cbn [snd]; destruct (cd <=? _)|];
    cbn; by rewrite IH.
Qed.

Lemma rises_held enter l :
  Forall (λ mp, match mp.1 with Some m => f32_le m (exit_threshold enter) = false | None => True end) l →
  rises enter true l = [].
Proof.
  induction 1 as [|[[m|] p] l Hm _ IH]; [done | | done]. cbn [rises]. cbn in Hm. by rewrite Hm.
Qed.

(** The last three scores of a history. *)
Definition last_patches (h : list f32) : list f32 := drop (length h - VOTE_PATCHES) h.

Lemma push_last h x : push_score (last_patches h) x = last_patches (h ++ [x]).
Proof.
  unfold push_score, last_patches, VOTE_PATCHES. rewrite !length_app, length_drop. cbn [length].
  destruct (decide (length h < 3)%nat).
  - replace (length h - 3)%nat with 0%nat by lia. rewrite drop_0. f_equal. lia.
  - rewrite !drop_app_le, drop_drop by (rewrite ?length_drop; lia). do 2 f_equal. lia.
Qed.

(** The votes: none for the first two patches, then the mean of three. *)
Lemma voted_lookup i h l k p :
  l !! k = Some p →
  let h' := h ++ take (S k) (patch_score i <$> l) in
  voted i (last_patches h) l !! k =
  Some (if (length h' <? VOTE_PATCHES)%nat then None else Some (mean (last_patches h')), p).
Proof.
  revert h k. induction l as [|q l IH]; intros h k Hk; [done|]. cbn [voted]. rewrite push_last.
  destruct k as [|k]; cbn [lookup list_lookup] in *.
  - injection Hk as ->. cbn [fmap list_fmap take]. f_equal. f_equal.
    replace (length (last_patches (h ++ [patch_score i p])) <? VOTE_PATCHES)%nat
      with (length (h ++ [patch_score i p]) <? VOTE_PATCHES)%nat; [done|].
    unfold last_patches, VOTE_PATCHES. rewrite length_drop, length_app. cbn [length].
    destruct (Nat.ltb_spec (length h + 1) 3), (Nat.ltb_spec (length h + 1 - (length h + 1 - 3)) 3); lia.
  - pose proof (IH (h ++ [patch_score i q]) k Hk) as H. rewrite <-!app_assoc in H. exact H.
Qed.

(** *** The windows *)
Section windows.
Context (win hop : nat) (Hhop : (0 < hop ≤ win)%nat).

Lemma cut_windows_fuel n k buf :
  (length buf < n)%nat → (length buf < k)%nat → cut_windows win hop n buf = cut_windows win hop k buf.
Proof using Hhop.
  revert k buf. induction n as [|n IH]; intros k buf Hn Hk; [lia|].
  destruct k as [|k]; [lia|]. cbn [cut_windows].
  destruct (Nat.leb_spec win (length buf)); [|done].
  rewrite (IH k); [done|..]; rewrite length_drop; lia.
Qed.

(** The windows of a stream: every [hop] samples, as long as [win] follow. *)
Lemma cut_windows_lookup n stream k :
  (length stream < n)%nat →
  (cut_windows win hop n stream).1 !! k
  = if (k * hop + win <=? length stream)%nat then Some (take win (drop (k * hop) stream)) else None.
Proof using Hhop.
  revert stream k. induction n as [|n IH]; intros s k Hn; [lia|]. cbn [cut_windows].
  destruct (Nat.leb_spec win (length s)).
  - destruct (cut_windows win hop n (drop hop s)) as [ws rest] eqn:E. cbn [fst].
    destruct k as [|k].
    + cbn [lookup list_lookup]. rewrite Nat.mul_0_l, drop_0, Nat.add_0_l. by destruct (Nat.leb_spec win (length s)); [|lia].
    + specialize (IH (drop hop s) k). rewrite E, length_drop, drop_drop in IH. cbn [fst] in IH.
      change ((take win s :: ws) !! S k) with (ws !! k). rewrite IH by lia. replace (S k * hop)%nat with (hop + k * hop)%nat by lia.
      destruct (Nat.leb_spec (k * hop + win) (length s - hop)), (Nat.leb_spec (hop + k * hop + win) (length s));
        (done || lia).
  - cbn. by destruct (Nat.leb_spec (k * hop + win) (length s)); [lia|].
Qed.

Lemma cut_windows_S n buf :
  cut_windows win hop (S n) buf
  = if (win <=? length buf)%nat then
      let '(ws, rest) := cut_windows win hop n (drop hop buf) in (take win buf :: ws, rest)
    else ([], buf).
Proof using. done. Qed.

Lemma cut_windows_app n a b :
  (length a + length b < n)%nat →
  cut_windows win hop n (a ++ b)
  = let '(ws, rest) := cut_windows win hop (S (length a)) a in
    let '(ws', rest') := cut_windows win hop (S (length (rest ++ b))) (rest ++ b) in (ws ++ ws', rest').
Proof using Hhop.
  revert a. induction n as [|n IH]; intros a Hn; [lia|].
  rewrite (cut_windows_S (length a)). destruct (Nat.leb_spec win (length a)).
  - rewrite cut_windows_S. destruct (Nat.leb_spec win (length (a ++ b))) as [_|Hl]; [|rewrite length_app in Hl; lia].
    rewrite drop_app_le, take_app_le by lia. rewrite IH by (rewrite length_drop; lia).
    rewrite (cut_windows_fuel (S (length (drop hop a))) (length a)) by (rewrite length_drop; lia).
    destruct (cut_windows win hop (length a) (drop hop a)) as [ws rest].
    by destruct (cut_windows win hop _ (rest ++ b)).
  - rewrite (cut_windows_fuel (S n) (S (length (a ++ b)))) by (rewrite length_app; lia).
    by destruct (cut_windows win hop _ (a ++ b)).
Qed.

Lemma chunk_windows_stream buf chunks :
  cut_windows win hop (S (length buf)) buf = ([], buf) →
  let stream := buf ++ f32_chunk (concat chunks) in
  chunk_windows win hop buf chunks = (cut_windows win hop (S (length stream)) stream).1.
Proof using Hhop.
  revert buf. induction chunks as [|c chunks IH]; intros buf Hbuf; cbn [chunk_windows concat].
  - unfold f32_chunk. cbn [map]. rewrite app_nil_r, Hbuf. done.
  - unfold worker_chunk.
    replace (f32_chunk (c ++ concat chunks)) with (f32_chunk c ++ f32_chunk (concat chunks))
      by (unfold f32_chunk; by rewrite List.map_app).
    rewrite app_assoc. cbv zeta.
    set (a := buf ++ f32_chunk c). set (b := f32_chunk (concat chunks)).
    rewrite (cut_windows_app (S (length (a ++ b))) a b) by (rewrite length_app; lia).
    destruct (cut_windows win hop (S (length a)) a) as [ws rest] eqn:E.
    rewrite IH.
    + fold b. by destruct (cut_windows win hop _ (rest ++ b)).
    + pose proof (cut_windows_app (S (length a)) a [] ltac:(cbn; lia)) as H.
      rewrite !app_nil_r, E, app_nil_r in H.
      destruct (cut_windows win hop (S (length rest)) rest) as [ws' rest']. injection H as H <-.
      f_equal. apply (app_inv_head ws). by rewrite app_nil_r.
Qed.
End windows.

(** The windows that reach the state machine. *)
Definition patch_of (classify : list f32 → option (list f32)) (silent : list f32 → bool)
    (wnt : list f32 * Z * Z) : option Patch :=
  let '(w, now, ts) := wnt in
  if silent w then None else (λ sc, mkPatch sc now ts) <$> classify w.

Lemma worker_run_eq classify silent s l :
  worker_run classify silent s l = concat (sound_run s (omap (patch_of classify silent) l)).
Proof.
  revert s. induction l as [|[[w now] ts] l IH]; intros s; [done|].
  cbn [worker_run omap list_omap patch_of]. unfold worker_window.
  destruct (silent w); [apply IH|]. destruct (classify w) as [sc|]; [|apply IH].
  cbn [fmap option_fmap option_map sound_run]. destruct (sound_update s (mkPatch sc now ts)) as [s' fired].
  cbn [concat]. by rewrite IH.
Qed.

(** A detector for the examples: the samples are the scores, no sample is
    silence. *)
Definition direct (w : list f32) : option (list f32) := Some w.
Definition empty (w : list f32) : bool := bool_decide (w = []).
Definition dog : WatchedClass := mkClass (bytes_of_string "Dog") [] 0.
Definition at_times (v : f32) (l : list Z) : list (list f32 * Z * Z) := map (λ t, ([v], t, t)) l.

(** C29 The sound alarms of a class.  The windows are those of the recorded
    stream, one every hop, however the chunks cut it.  The windows that are
    not silent and classified without error are the votes; an event of a class
    is fired exactly at the rising edges (with hysteresis) of the mean of its
    last three scores that come at least the cooldown after its last event, so
    events are that far apart and other classes play no part.  Two
    consequences contradict the comments: silent windows do not count as falling
    edges, so after a bark, any silence and another bark there is one event
    only; and a single loud window between quiet ones does fire. *)
Theorem sound_edges classes thr cd classify silent l :
  let s := sound_new classes thr cd in
  let enter := enter_threshold s in
  let patches := omap (patch_of classify silent) l in
  let edges c := thin (λ mp, now mp.2) (cooled cd) None
                   (rises enter false (voted (index c) [] patches)) in
  let watcher c := mkWatcher c [] false None in
  worker_run classify silent s l = concat (sound_run s patches)
  ∧ (∀ k fired, sound_run s patches !! k = Some fired →
       fired = omap (λ c, mjoin (watch_run enter cd (watcher c) patches !! k)) classes)
  ∧ (∀ c, omap id (watch_run enter cd (watcher c) patches) = (λ mp, sound_event c mp.1 mp.2) <$> edges c
          ∧ spaced (λ mp, now mp.2) (cooled cd) None (edges c))
  ∧ (∀ i k p, patches !! k = Some p →
       let seen := take (S k) (patch_score i <$> patches) in
       voted i [] patches !! k
       = Some (if (length seen <? 3)%nat then None else Some (mean (last_patches seen)), p))
  ∧ (∀ chunks k,
       let stream := f32_chunk (concat chunks) in
       let win := Z.to_nat WINDOW_SAMPLES in let hop := Z.to_nat HOP_SAMPLES in
       chunk_windows win hop [] chunks !! k
       = if (k * hop + win <=? length stream)%nat then Some (take win (drop (k * hop) stream)) else None)
  ∧ (∀ n, length (worker_run direct empty (sound_new [dog] (f32_lit 3 10) 30)
             (at_times (f32_lit 8 10) [0; 1; 2] ++ replicate n ([], 3, 3)
              ++ at_times (f32_lit 8 10) [3600; 3601; 3602])) = 1%nat)
  ∧ length (worker_run direct empty (sound_new [dog] (f32_lit 3 10) 30)
      (at_times f32_zero [0; 1] ++ at_times (f32_lit 95 100) [2] ++ at_times f32_zero [3; 4])) = 1%nat.
Proof.
  intros s enter patches edges watcher. split_and!.
  - apply worker_run_eq.
  - intros k fired H. rewrite (sound_run_watchers _ _ _ _ H). unfold s, sound_new. cbn [watched cooldown].
    apply omap_ext_map. done.
  - intros c. split; [|apply thin_spaced]. apply (watch_run_rises enter cd (watcher c)).
  - intros i k p H. apply (voted_lookup i [] _ _ _ H).
  - intros chunks k stream win hop.
    assert (0 < hop ≤ win)%nat as Hhop by (unfold win, hop, WINDOW_SAMPLES, HOP_SAMPLES; lia).
    rewrite (chunk_windows_stream win hop Hhop).
    + apply cut_windows_lookup; [done | apply Nat.lt_succ_diag_r].
    + rewrite cut_windows_S. by destruct (Nat.leb_spec win (length (@nil f32))); [cbn in *; lia|].
  - intros n. rewrite worker_run_eq, !omap_app.
    replace (omap (patch_of direct empty) (replicate n ([], 3, 3))) with (@nil Patch); [by vm_compute|].
    by induction n.
  - by vm_compute.
Qed.

Lemma sound_edges_witness :
  length (worker_run direct empty (sound_new [dog] (f32_lit 3 10) 30)
    (at_times (f32_lit 8 10) [0; 1; 2] ++ at_times f32_zero [3; 4; 5] ++ at_times (f32_lit 8 10) [40; 41; 42])) = 2%nat.
Proof.
  rewrite (proj1 (sound_edges [dog] (f32_lit 3 10) 30 direct empty
    (at_times (f32_lit 8 10) [0; 1; 2] ++ at_times f32_zero [3; 4; 5] ++ at_times (f32_lit 8 10) [40; 41; 42]))).
  by vm_compute.
Defined.
End Sound.

(** ** [ClipDetector] *)
Module Clip.
Record ClipDetector := mkClip { streak : Z; warned : bool }.

Definition RATIO : Z := 10.
Definition WARN_STREAK : Z := 5.

Definition clip_feed (d : ClipDetector) (clipped_samples window_samples : Z) : ClipDetector * bool :=
  if (0 <? window_samples) && (window_samples <=? wrap64 (clipped_samples * RATIO)) then
    let streak := Z.min (streak d + 1) (2 ^ 32 - 1) in
    if (WARN_STREAK <=? streak) && negb (warned d) then (mkClip streak true, true)
    else (mkClip streak (warned d), false)
  else (mkClip 0 false, false).

Fixpoint clip_run (d : ClipDetector) (l : list (Z * Z)) : list bool :=
  match l with
  | [] => []
  | (c, w) :: l => let '(d, warn) := clip_feed d c w in warn :: clip_run d l
  end.

Definition clip_new : ClipDetector := mkClip 0 false.

Definition clipped (cw : Z * Z) : bool := (0 <? cw.2) && (cw.2 <=? wrap64 (cw.1 * RATIO)).

(** A warning at the fifth clipped window in a row, and only there. *)
Fixpoint fifths (run : Z) (l : list (Z * Z)) : list bool :=
  match l with
  | [] => []
  | cw :: l => if clipped cw then (run + 1 =? WARN_STREAK) :: fifths (run + 1) l
               else false :: fifths 0 l
  end.

Lemma clip_run_fifths l : clip_run clip_new l = fifths 0 l.
Proof.
  assert (∀ run d, 0 ≤ run → streak d = Z.min run (2 ^ 32 - 1) → warned d = (WARN_STREAK <=? run) →
            clip_run d l = fifths run l) as H; [|by apply (H 0)].
  induction l as [|[c w] l IH]; intros run d Hr Hs Hw; [done|]. cbn [clip_run fifths].
  unfold clip_feed, clipped. cbn [fst snd]. unfold WARN_STREAK in *.
  destruct (_ && _); [|by rewrite (IH 0)]. rewrite Hs, Hw.
  destruct (Z.eqb_spec (run + 1) 5) as [E|E].
  - replace run with 4 by lia. cbn. f_equal. by apply IH.
  - destruct (Z.leb_spec 5 (Z.min (Z.min run (2 ^ 32 - 1) + 1) (2 ^ 32 - 1))), (Z.leb_spec 5 run);
      cbn [andb negb]; try lia; f_equal; apply IH; cbn [streak warned]; try lia;
      symmetry; first [apply Z.leb_le | apply Z.leb_gt]; lia.
Qed.
End Clip.
