(* ===== verification/Away.v ===== *)
(** * Away mode ([crates/web/src/away.rs])

    The decision engine of the armed watch: settings, arming, which detections
    become visitor and activity records, voice commands and the schedule, and
    the single listening slot. *)
From Stdlib Require Import ZArith Lia List Bool String.
From stdpp Require Import base option list numbers gmap.
From S2P Require Import Prelude Text Edges.

(** ** Configuration *)
Record AwayConfig := mkAwayConfig {
  interval_ms : Z; person_gap_secs : Z; greeting_cooldown_secs : Z; activity_cooldown_secs : Z;
  activity_labels : list bytes; listen_secs : Z; snapshot_dir : bytes;
  greeting_known : bytes; greeting_unknown : bytes;
  c_voice_control : bool; c_summary_on_disarm : bool; c_deterrence : bool;
  c_deterrence_text : bytes; c_reask_text : bytes;
  c_schedule_arm : bytes; c_schedule_disarm : bytes; c_schedule_weekdays_only : bool;
  c_push_url : bytes; c_audio_link : bool }.

Definition default_activity_labels : list bytes := [lit "cat"; lit "dog"; lit "bird"].

Definition default_config : AwayConfig :=
  mkAwayConfig 1000 10 120 60 default_activity_labels 10 (lit "away-snapshots")
    (lit "欢迎回家，{name}。") (lit "你好，这里是主人的智能看家助手。主人现在不在家，请问你是谁？")
    true true false (lit "请注意：您的影像和声音已被记录，主人将收到通知。") (lit "请问你是谁？请说明来意。")
    [] [] false [] true.

Record AwaySettings := mkAwaySettings {
  voice_control : bool; summary_on_disarm : bool; deterrence : bool;
  deterrence_text : bytes; reask_text : bytes; schedule_arm : bytes; schedule_disarm : bytes;
  schedule_weekdays_only : bool; push_url : bytes; audio_link : bool }.

Definition settings_from (c : AwayConfig) : AwaySettings :=
  mkAwaySettings (c_voice_control c) (c_summary_on_disarm c) (c_deterrence c) (c_deterrence_text c)
    (c_reask_text c) (c_schedule_arm c) (c_schedule_disarm c) (c_schedule_weekdays_only c)
    (c_push_url c) (c_audio_link c).

Definition is_ascii_digit (b : Z) : bool := (48 <=? b) && (b <=? 57).

Definition valid_schedule_time (s : bytes) : bool :=
  if bytes_eqb s [] then true
  else if negb (length s =? 5)%nat || negb (bytes_eqb (take 1 (drop 2 s)) [58]) then false
  else
    let h := take 2 s in let m := drop 3 s in
    forallb is_ascii_digit h && forallb is_ascii_digit m
    && match parse_u32 h with Some v => v <? 24 | None => false end
    && match parse_u32 m with Some v => v <? 60 | None => false end.

(** ** The engine *)

(** A detection, of which the engine reads the label only. *)
Record Detection := mkDetection { label : bytes }.

Inductive AwayAction :=
  | Visitor (person_count : Z)
  | Activity (labels : bytes)
  | NoAction.

Record CameraLatch := mkLatch {
  person_seen_ms : option Z; person_greeted_ms : option Z;
  analysis_ms : option Z; activity_ms : option Z }.

Definition latch_default : CameraLatch := mkLatch None None None None.

Record OpenListen := mkListen { event_id : Z; deadline_ms : Z }.

(** [config], whether the AI engine is active, [voice_capable], the shared
    settings, the two atomics, and [AwayInner]. *)
Record AwayEngine := mkEngine {
  config : AwayConfig; ai_active : bool; voice_capable : bool; settings : AwaySettings;
  armed : bool; armed_since : Z;
  cameras : gmap bytes CameraLatch; listen : option OpenListen }.

Definition away_new (config : AwayConfig) (ai_active voice_capable : bool) : AwayEngine :=
  mkEngine config ai_active voice_capable (settings_from config) false 0 ∅ None.

Definition with_armed (a : bool) (e : AwayEngine) : AwayEngine :=
  mkEngine (config e) (ai_active e) (voice_capable e) (settings e) a (armed_since e) (cameras e) (listen e).
Definition with_since (t : Z) (e : AwayEngine) : AwayEngine :=
  mkEngine (config e) (ai_active e) (voice_capable e) (settings e) (armed e) t (cameras e) (listen e).
Definition with_latch (cam : bytes) (l : CameraLatch) (e : AwayEngine) : AwayEngine :=
  mkEngine (config e) (ai_active e) (voice_capable e) (settings e) (armed e) (armed_since e)
    (<[cam := l]> (cameras e)) (listen e).
Definition with_listen (l : option OpenListen) (e : AwayEngine) : AwayEngine :=
  mkEngine (config e) (ai_active e) (voice_capable e) (settings e) (armed e) (armed_since e) (cameras e) l.

Definition armed_since_ms (e : AwayEngine) : option Z := if armed e then Some (armed_since e) else None.

(** [arm] is a swap of the flag and, when it was clear, a store of the stamp;
    [disarm] two stores and the slot. *)
Definition arm_swap (e : AwayEngine) : bool * AwayEngine := (armed e, with_armed true e).
Definition arm (now_ms : Z) (e : AwayEngine) : AwayEngine :=
  let '(was, e) := arm_swap e in if negb was then with_since now_ms e else e.
Definition disarm (e : AwayEngine) : AwayEngine :=
  with_listen None (with_since 0 (with_armed false e)).

(** [arm] between the two stores of a [disarm]: the device is armed, as of the
    beginning of time. *)
Lemma arm_during_disarm now e :
  armed_since_ms (with_listen None (with_since 0 (arm now (with_armed false e)))) = Some 0.
Proof. done. Qed.

(** The count and the order of the labels: a loop over the detections. *)
Fixpoint count_labels (ds : list Detection) (labels : list bytes) (counts : gmap bytes Z) (order : list bytes)
    : gmap bytes Z * list bytes :=
  match ds with
  | [] => (counts, order)
  | d :: ds =>
      if existsb (bytes_eqb (label d)) labels then
        let n := default 0 (counts !! label d) in
        count_labels ds labels (<[label d := n + 1]> counts)
          (if n =? 0 then order ++ [label d] else order)
      else count_labels ds labels counts order
  end.

(** [parts.join(sep)] *)
Fixpoint join_with (sep : bytes) (parts : list bytes) : bytes :=
  match parts with
  | [] => []
  | [p] => p
  | p :: parts => p ++ sep ++ join_with sep parts
  end.

Definition summarize_labels (ds : list Detection) (labels : list bytes) : bytes :=
  let '(counts, order) := count_labels ds labels ∅ [] in
  join_with (lit "、") (map (λ l, l ++ lit "×" ++ dec_of_Z (default 0 (counts !! l))) order).

Definition person : bytes := lit "person".
Definition persons (ds : list Detection) : Z := zlen (filter (λ d, label d = person) ds).

(** [is_none_or(|t| now.saturating_sub(t) > span)] *)
Definition past (span now : Z) (t : option Z) : bool :=
  match t with Some t => span <? saturating_sub now t | None => true end.

Definition gap_ms (c : AwayConfig) : Z := wrap64 (person_gap_secs c * 1000).
Definition cooldown_ms (c : AwayConfig) : Z := wrap64 (greeting_cooldown_secs c * 1000).
Definition activity_span_ms (c : AwayConfig) : Z := wrap64 (activity_cooldown_secs c * 1000).
Definition throttle_ms (c : AwayConfig) : Z := Z.max (interval_ms c) 1.

(** [observe] on the latch of the camera. *)
Definition observe_latch (c : AwayConfig) (latch : CameraLatch) (ds : list Detection) (now_ms : Z)
    : CameraLatch * AwayAction :=
  let throttled := match analysis_ms latch with
                   | Some t => saturating_sub now_ms t <? throttle_ms c
                   | None => false
                   end in
  let person_count := persons ds in
  if 0 <? person_count then
    let is_arrival := past (gap_ms c) now_ms (person_seen_ms latch) in
    let past_cooldown := past (cooldown_ms c) now_ms (person_greeted_ms latch) in
    if is_arrival && past_cooldown && negb throttled then
      (mkLatch (Some now_ms) (Some now_ms) (Some now_ms) (activity_ms latch), Visitor person_count)
    else (mkLatch (Some now_ms) (person_greeted_ms latch) (analysis_ms latch) (activity_ms latch), NoAction)
  else
    let summary := summarize_labels ds (activity_labels c) in
    if negb (bytes_eqb summary []) && past (activity_span_ms c) now_ms (activity_ms latch) && negb throttled
    then (mkLatch (person_seen_ms latch) (person_greeted_ms latch) (Some now_ms) (Some now_ms), Activity summary)
    else (latch, NoAction).

Definition observe (cam : bytes) (ds : list Detection) (now_ms : Z) (e : AwayEngine)
    : AwayEngine * AwayAction :=
  let '(latch, action) := observe_latch (config e) (default latch_default (cameras e !! cam)) ds now_ms in
  (with_latch cam latch e, action).

Definition audio_key : bytes := lit "audio".

(** [observe_audio]; [shown] is the score printed with two decimals. *)
Definition observe_audio (class shown : bytes) (now_ms : Z) (e : AwayEngine)
    : AwayEngine * option bytes :=
  if negb (audio_link (settings e)) then (e, None)
  else
    let latch := default latch_default (cameras e !! audio_key) in
    if past (activity_span_ms (config e)) now_ms (activity_ms latch) then
      (with_latch audio_key (mkLatch (person_seen_ms latch) (person_greeted_ms latch) (analysis_ms latch) (Some now_ms)) e,
       Some (lit "🔊 " ++ class ++ lit " " ++ shown))
    else (with_latch audio_key latch e, None).

(** *** The listening slot *)
Definition open_listen (id deadline : Z) (e : AwayEngine) : AwayEngine * bool :=
  match listen e with
  | Some _ => (e, false)
  | None => (with_listen (Some (mkListen id deadline)) e, true)
  end.

Definition attribute_listen (now_ms : Z) (e : AwayEngine) : AwayEngine * option Z :=
  (with_listen None e,
   match listen e with
   | Some l => if now_ms <=? deadline_ms l then Some (event_id l) else None
   | None => None
   end).

Definition expire_listen (now_ms : Z) (e : AwayEngine) : AwayEngine * option Z :=
  match listen e with
  | Some l => if deadline_ms l <? now_ms then (with_listen None e, Some (event_id l)) else (e, None)
  | None => (e, None)
  end.

(** ** Commands and schedule *)

(** [s.chars().count()] on UTF-8. *)
Definition chars_count (s : bytes) : Z := zlen (List.filter (λ b, negb (utf8_cont b)) s).

Definition question_marks : list bytes :=
  map bytes_of_string ["吗"; "？"; "?"; "几"; "什么"; "怎么"; "为啥"; "为什么"]%string.
Definition disarm_phrases : list bytes := map bytes_of_string ["回来了"; "到家了"; "回家了"; "回家啦"]%string.
Definition arm_phrases : list bytes :=
  map bytes_of_string ["出门了"; "出门啦"; "上班去"; "上班了"; "出差了"; "离家了"]%string.

Definition match_voice_command (transcript : bytes) : option bool :=
  let t := trim transcript in
  if 8 <? chars_count t then None
  else if existsb (λ q, contains q t) question_marks then None
  else if existsb (λ k, contains k t) disarm_phrases then Some false
  else if existsb (λ k, contains k t) arm_phrases then Some true
  else None.

Definition schedule_fires (setting now_hhmm : bytes) (weekday : Z) (weekdays_only : bool) : bool :=
  if bytes_eqb setting [] || negb (bytes_eqb setting now_hhmm) then false
  else negb weekdays_only || (weekday <? 5).

(** ** Records of a camera *)
Section records.
Context (c : AwayConfig).

(** The samples of one camera: detections and time. *)
Fixpoint latch_run (latch : CameraLatch) (l : list (list Detection * Z)) : list (AwayAction * Z) :=
  match l with
  | [] => []
  | (ds, now) :: l =>
      let '(latch, action) := observe_latch c latch ds now in
      match action with NoAction => latch_run latch l | _ => (action, now) :: latch_run latch l end
  end.

(** What a sample shows, given when a person was last seen: somebody who
    arrives, somebody who stays, an activity, or nothing. *)
Inductive Mark := Arrival (n : Z) | Stay | Busy (summary : bytes) | Idle.

Fixpoint marks (seen : option Z) (l : list (list Detection * Z)) : list (Mark * Z) :=
  match l with
  | [] => []
  | (ds, now) :: l =>
      if 0 <? persons ds then
        ((if past (gap_ms c) now seen then Arrival (persons ds) else Stay), now) :: marks (Some now) l
      else
        let s := summarize_labels ds (activity_labels c) in
        ((if bytes_eqb s [] then Idle else Busy s), now) :: marks seen l
  end.

(** No report within the interval. *)
Definition free (now : Z) (report : option Z) : bool :=
  match report with Some t => throttle_ms c <=? saturating_sub now t | None => true end.

(** Which marks are reported, given the last visitor, activity and report. *)
Fixpoint select (visitor activity report : option Z) (l : list (Mark * Z)) : list (AwayAction * Z) :=
  match l with
  | [] => []
  | (m, now) :: l =>
      match m with
      | Arrival n =>
          if past (cooldown_ms c) now visitor && free now report
          then (Visitor n, now) :: select (Some now) activity (Some now) l
          else select visitor activity report l
      | Busy s =>
          if past (activity_span_ms c) now activity && free now report
          then (Activity s, now) :: select visitor (Some now) (Some now) l
          else select visitor activity report l
      | _ => select visitor activity report l
      end
  end.

Lemma latch_run_select latch l :
  latch_run latch l
  = select (person_greeted_ms latch) (activity_ms latch) (analysis_ms latch) (marks (person_seen_ms latch) l).
Proof using.
  revert latch. induction l as [|[ds now] l IH]; intros latch; [done|]. cbn [latch_run marks].
  unfold observe_latch.
  assert (negb match analysis_ms latch with
               | Some t => saturating_sub now t <? throttle_ms c | None => false end
          = free now (analysis_ms latch)) as ->
    by (unfold free; destruct (analysis_ms latch); [by rewrite Z.leb_antisym | done]).
  destruct (0 <? persons ds); cbn [select].
  - destruct (past (gap_ms c) now (person_seen_ms latch)); cbn [andb]; [|apply IH].
    destruct (past (cooldown_ms c) now (person_greeted_ms latch) && _); [f_equal|]; apply IH.
  - destruct (bytes_eqb (summarize_labels ds (activity_labels c)) []); cbn [negb andb]; [apply IH|].
    destruct (past (activity_span_ms c) now (activity_ms latch) && _); [f_equal|]; apply IH.
Qed.

Definition is_visitor (r : AwayAction * Z) : Prop := match r.1 with Visitor _ => True | _ => False end.
Definition is_activity (r : AwayAction * Z) : Prop := match r.1 with Activity _ => True | _ => False end.
#[export] Instance is_visitor_dec r : Decision (is_visitor r).
Proof. unfold is_visitor. destruct r.1; apply _. Defined.
#[export] Instance is_activity_dec r : Decision (is_activity r).
Proof. unfold is_activity. destruct r.1; apply _. Defined.

(** Distances between reports, between visitors and between activities. *)
Lemma select_spaced visitor activity report l :
  spaced snd (λ t now, throttle_ms c <=? saturating_sub now t) report (select visitor activity report l)
  ∧ spaced snd (λ t now, cooldown_ms c <? saturating_sub now t) visitor
      (filter is_visitor (select visitor activity report l))
  ∧ spaced snd (λ t now, activity_span_ms c <? saturating_sub now t) activity
      (filter is_activity (select visitor activity report l)).
Proof using.
  revert visitor activity report. induction l as [|[m now] l IH]; intros visitor activity report; [done|].
  cbn [select]. destruct m; try apply IH.
  - destruct (past (cooldown_ms c) now visitor) eqn:E1; [|apply IH].
    destruct (free now report) eqn:E2; [|apply IH]. cbn [andb].
    destruct (IH (Some now) activity (Some now)) as (H1 & H2 & H3).
    rewrite (filter_cons_True is_visitor), (filter_cons_False is_activity) by (cbn; tauto).
    split_and!; [split; [by destruct report | done] | split; [by destruct visitor | done] | done].
  - destruct (past (activity_span_ms c) now activity) eqn:E1; [|apply IH].
    destruct (free now report) eqn:E2; [|apply IH]. cbn [andb].
    destruct (IH visitor (Some now) (Some now)) as (H1 & H2 & H3).
    rewrite (filter_cons_False is_visitor), (filter_cons_True is_activity) by (cbn; tauto).
    split_and!; [split; [by destruct report | done] | done | split; [by destruct activity | done]].
Qed.

(** Somebody is seen again within the gap each time. *)
Fixpoint staying (t : Z) (l : list (list Detection * Z)) : Prop :=
  match l with
  | [] => True
  | (ds, now) :: l =>
      if 0 <? persons ds then saturating_sub now t ≤ gap_ms c ∧ staying now l else staying t l
  end.

Lemma staying_visitors t visitor activity report l :
  staying t l → filter is_visitor (select visitor activity report (marks (Some t) l)) = [].
Proof using.
  revert t visitor activity report. induction l as [|[ds now] l IH]; intros t visitor activity report; [done|].
  cbn [staying marks]. destruct (0 <? persons ds).
  - intros [Hgap Hl]. unfold past. replace (gap_ms c <? _) with false by (symmetry; apply Z.ltb_ge; lia).
    by apply IH.
  - intros Hl. destruct (bytes_eqb _ _); cbn [select]; [by apply IH|].
    destruct (_ && _); [|by apply IH]. rewrite filter_cons_False by (cbn; tauto). by apply IH.
Qed.
End records.

(** *** All cameras *)
Inductive Feed :=
  | Look (cam : bytes) (ds : list Detection) (now : Z)
  | Hear (class shown : bytes) (now : Z).

Definition feed (e : AwayEngine) (f : Feed) : AwayEngine * option (bytes * (AwayAction * Z)) :=
  match f with
  | Look cam ds now =>
      let '(e, action) := observe cam ds now e in
      (e, match action with NoAction => None | _ => Some (cam, (action, now)) end)
  | Hear class shown now =>
      let '(e, text) := observe_audio class shown now e in
      (e, (λ s, (audio_key, (Activity s, now))) <$> text)
  end.

Fixpoint feed_run (e : AwayEngine) (l : list Feed) : list (bytes * (AwayAction * Z)) :=
  match l with
  | [] => []
  | f :: l => let '(e, r) := feed e f in
              match r with Some r => r :: feed_run e l | None => feed_run e l end
  end.

(** The samples of a camera, and the records made of it. *)
Definition looks (cam : bytes) (l : list Feed) : list (list Detection * Z) :=
  omap (λ f, match f with
             | Look k ds now => if decide (k = cam) then Some (ds, now) else None
             | Hear _ _ _ => None end) l.
Definition reports (cam : bytes) (rs : list (bytes * (AwayAction * Z))) : list (AwayAction * Z) :=
  (filter (λ r, r.1 = cam) rs).*2.

Definition latch_of (cam : bytes) (e : AwayEngine) : CameraLatch := default latch_default (cameras e !! cam).

Lemma latch_of_with cam k latch e :
  latch_of cam (with_latch k latch e) = if decide (k = cam) then latch else latch_of cam e.
Proof.
  unfold latch_of. cbn. destruct (decide (k = cam)) as [->|];
    [by rewrite lookup_insert_eq | by rewrite lookup_insert_ne].
Qed.

Lemma looks_look cam k ds now l :
  looks cam (Look k ds now :: l) = (if decide (k = cam) then [(ds, now)] else []) ++ looks cam l.
Proof. unfold looks. cbn. by destruct (decide (k = cam)). Qed.

Lemma feed_run_camera cam e l :
  cam ≠ audio_key →
  reports cam (feed_run e l) = latch_run (config e) (latch_of cam e) (looks cam l).
Proof.
  intros Hcam. assert (audio_key ≠ cam) as Hcam' by congruence.
  revert e. induction l as [|[k ds now|class shown now] l IH]; intros e; [done| |];
    cbn [feed_run feed].
  - unfold observe. fold (latch_of k e).
    destruct (observe_latch (config e) (latch_of k e) ds now) as [latch action] eqn:E.
    rewrite looks_look.
    specialize (IH (with_latch k latch e)). rewrite latch_of_with in IH.
    change (config (with_latch k latch e)) with (config e) in IH.
    destruct (decide (k = cam)) as [->|Hk]; cbn [app latch_run].
    + rewrite E. rewrite <-IH. unfold reports.
      destruct action; rewrite ?filter_cons_True by done; done.
    + rewrite <-IH. unfold reports. destruct action; rewrite ?filter_cons_False by done; done.
  - unfold observe_audio. destruct (negb (audio_link (settings e))); [apply IH|].
    fold (latch_of audio_key e). destruct (past _ _ _); cbn [fmap option_fmap option_map].
    + unfold reports. rewrite filter_cons_False by exact Hcam'.
      etransitivity; [apply IH|]. by rewrite latch_of_with, decide_False by exact Hcam'.
    + etransitivity; [apply IH|]. by rewrite latch_of_with, decide_False by exact Hcam'.
Qed.

(** A person who is there in every sample makes no record at all. *)
Lemma staying_persons c t visitor activity report l :
  staying c t l → Forall (λ dn, 0 < persons dn.1) l →
  select c visitor activity report (marks c (Some t) l) = [].
Proof.
  revert t. induction l as [|[ds now] l IH]; intros t Hs Hp; [done|].
  apply Forall_cons in Hp as [Hp1 Hp]. cbn [staying marks] in *. cbn in Hp1.
  rewrite (proj2 (Z.ltb_lt 0 (persons ds))) in * by lia. destruct Hs as [Hgap Hs].
  unfold past. replace (gap_ms c <? _) with false by (symmetry; apply Z.ltb_ge; lia).
  cbn [select]. by apply IH.
Qed.

(** The samples [m], ..., [m + n - 1] of a person, one a second. *)
Definition stays (m n : nat) : list (list Detection * Z) :=
  map (λ k, ([mkDetection person], 999 + 1000 * Z.of_nat k)) (seq m n).

Lemma stays_staying m n : staying default_config (999 + 1000 * Z.of_nat m) (stays (S m) n).
Proof.
  revert m. induction n as [|n IH]; intros m; [done|]. cbn [stays seq map staying].
  change (0 <? persons [mkDetection person]) with true. cbn iota.
  split; [unfold saturating_sub; change (gap_ms default_config) with 10000; lia | apply IH].
Qed.

Definition cat_then_person (n : nat) : list Feed :=
  Look (lit "0") [mkDetection (lit "cat")] 0 :: map (λ dn, Look (lit "0") dn.1 dn.2) (stays 0 n).

Lemma cat_then_person_reports n :
  reports (lit "0") (feed_run (away_new default_config true true) (cat_then_person n))
  = [(Activity (lit "cat×1"), 0)].
Proof.
  rewrite feed_run_camera by done. unfold cat_then_person.
  assert (∀ l, looks (lit "0") (map (λ dn, Look (lit "0") dn.1 dn.2) l) = l) as Hl.
  { induction l as [|[ds now] l IH]; [done|]. cbn [map fst snd]. by rewrite looks_look, decide_True, IH. }
  rewrite looks_look, Hl, decide_True by done.
  rewrite latch_run_select. destruct n as [|n]; [by vm_compute|].
  change ((Activity (lit "cat×1"), 0) :: select default_config None (Some 0) (Some 0)
            (marks default_config (Some 999) (stays 1 n)) = [(Activity (lit "cat×1"), 0)]).
  f_equal. apply staying_persons; [apply (stays_staying 0)|].
  apply Forall_forall. intros dn [k [-> _]]%list_elem_of_fmap. done.
Qed.

(** Which detections become records.  Whatever the cameras and the
    microphone interleave, the records of a camera depend on its own samples
    only: each sample is an arrival (a person, and none within the gap before),
    a person who stays, an activity or nothing; an arrival is recorded if the
    last visitor is longer ago than the cooldown and the last record at least
    the interval, an activity likewise.  Reports are spaced accordingly.  A
    visit whose first sample is not recorded is never recorded, however long
    the visitor stays: with the default settings, somebody who comes 999 ms
    after a cat is not noticed as long as they stay. *)
Theorem visits_recorded e l cam :
  cam ≠ audio_key →
  let c := config e in
  let latch := latch_of cam e in
  let rs := reports cam (feed_run e l) in
  rs = select c (person_greeted_ms latch) (activity_ms latch) (analysis_ms latch)
         (marks c (person_seen_ms latch) (looks cam l))
  ∧ spaced snd (λ t now, throttle_ms c <=? saturating_sub now t) (analysis_ms latch) rs
  ∧ spaced snd (λ t now, cooldown_ms c <? saturating_sub now t) (person_greeted_ms latch) (filter is_visitor rs)
  ∧ spaced snd (λ t now, activity_span_ms c <? saturating_sub now t) (activity_ms latch) (filter is_activity rs)
  ∧ (∀ t, person_seen_ms latch = Some t → staying c t (looks cam l) → filter is_visitor rs = [])
  ∧ ∀ n, reports (lit "0") (feed_run (away_new default_config true true) (cat_then_person n))
         = [(Activity (lit "cat×1"), 0)].
Proof.
  intros Hcam c latch rs.
  assert (rs = select c (person_greeted_ms latch) (activity_ms latch) (analysis_ms latch)
         (marks c (person_seen_ms latch) (looks cam l))) as Hrs
    by (unfold rs; by rewrite feed_run_camera, latch_run_select).
  destruct (select_spaced c (person_greeted_ms latch) (activity_ms latch) (analysis_ms latch)
              (marks c (person_seen_ms latch) (looks cam l))) as (H1 & H2 & H3).
  rewrite Hrs. split_and!; [done..| |apply cat_then_person_reports].
  intros t -> Hs. by apply staying_visitors.
Qed.

Lemma visits_recorded_witness :
  reports (lit "0") (feed_run (away_new default_config true true)
    [Look (lit "0") [mkDetection person] 1000; Hear (lit "Dog") (lit "0.80") 1500; Look (lit "1") [mkDetection person] 2000;
     Look (lit "0") [mkDetection person; mkDetection person] 30000; Look (lit "0") [] 40000;
     Look (lit "0") [mkDetection (lit "dog"); mkDetection (lit "dog")] 50000;
     Look (lit "0") [mkDetection person; mkDetection person] 300000])
  = [(Visitor 1, 1000); (Activity (lit "dog×2"), 50000); (Visitor 2, 300000)].
Proof.
  rewrite (proj1 (visits_recorded (away_new default_config true true)
    [Look (lit "0") [mkDetection person] 1000; Hear (lit "Dog") (lit "0.80") 1500; Look (lit "1") [mkDetection person] 2000;
     Look (lit "0") [mkDetection person; mkDetection person] 30000; Look (lit "0") [] 40000;
     Look (lit "0") [mkDetection (lit "dog"); mkDetection (lit "dog")] 50000;
     Look (lit "0") [mkDetection person; mkDetection person] 300000] (lit "0") ltac:(done))).
  vm_compute. reflexivity.
Defined.

(** ** The schedule *)

(** One round of [spawn_scheduler] at the local time [hhmm]: what it passes to
    [set_active], and [last_minute]. *)
Definition scheduler_round (s : AwaySettings) (armed : bool) (hhmm : bytes) (weekday : Z) (last_minute : bytes)
    : option bool * bytes :=
  if bytes_eqb (schedule_arm s) [] && bytes_eqb (schedule_disarm s) [] then (None, last_minute)
  else if bytes_eqb hhmm last_minute then (None, last_minute)
  else if schedule_fires (schedule_arm s) hhmm weekday (schedule_weekdays_only s) && negb armed
  then (Some true, hhmm)
  else if schedule_fires (schedule_disarm s) hhmm weekday (schedule_weekdays_only s) && armed
  then (Some false, hhmm)
  else (None, last_minute).

(** A round: the state the device is in, the time and the day. *)
Record Round := mkRound { r_armed : bool; r_hhmm : bytes; r_weekday : Z }.

Fixpoint scheduler_run (s : AwaySettings) (last_minute : bytes) (l : list Round) : list (option bool) :=
  match l with
  | [] => []
  | r :: l => let '(act, last_minute) := scheduler_round s (r_armed r) (r_hhmm r) (r_weekday r) last_minute in
              act :: scheduler_run s last_minute l
  end.

Lemma schedule_fires_true setting hhmm weekday only :
  schedule_fires setting hhmm weekday only = true →
  setting ≠ [] ∧ setting = hhmm ∧ (only = true → weekday < 5).
Proof.
  unfold schedule_fires. destruct (bytes_eqb setting []) eqn:E1; [done|]. cbn.
  destruct (bytes_eqb setting hhmm) eqn:E2; [|done]. cbn. intros H.
  split_and!; [by intros ->; rewrite bytes_eqb_refl in E1 | by apply bytes_eqb_eq|].
  intros ->. cbn in H. by apply Z.ltb_lt.
Qed.

Lemma scheduler_round_act s armed hhmm weekday last b last' :
  scheduler_round s armed hhmm weekday last = (Some b, last') →
  last' = hhmm ∧ hhmm ≠ last ∧ armed = negb b
  ∧ (if b then schedule_arm s else schedule_disarm s) = hhmm ∧ hhmm ≠ []
  ∧ (schedule_weekdays_only s = true → weekday < 5).
Proof.
  unfold scheduler_round. destruct (_ && bytes_eqb (schedule_disarm s) []); [done|].
  destruct (bytes_eqb hhmm last) eqn:E; [done|].
  assert (hhmm ≠ last) as Hne by (intros ->; by rewrite bytes_eqb_refl in E).
  destruct (schedule_fires (schedule_arm s) _ _ _) eqn:Ea; [destruct armed|]; cbn [andb negb].
  - destruct (schedule_fires (schedule_disarm s) _ _ _) eqn:Ed; [|done]. cbn. intros [= <- <-].
    apply schedule_fires_true in Ed as (? & <- & ?). by split_and!.
  - intros [= <- <-]. apply schedule_fires_true in Ea as (? & <- & ?). by split_and!.
  - destruct (schedule_fires (schedule_disarm s) _ _ _) eqn:Ed; [|done]. destruct armed; [|done]. intros [= <- <-].
    apply schedule_fires_true in Ed as (? & <- & ?). by split_and!.
Qed.

Definition acts (l : list (option bool)) : list bool := omap (λ a, a) l.

(** After an edge of one kind only the other kind can follow. *)
Fixpoint alternating (l : list bool) : Prop :=
  match l with
  | a :: (b :: _) as l => a ≠ b ∧ alternating l
  | _ => True
  end.

Lemma scheduler_alternates s last l :
  schedule_arm s ≠ schedule_disarm s →
  alternating (acts (scheduler_run s last l))
  ∧ match acts (scheduler_run s last l) with
    | b :: _ => last ≠ (if b then schedule_arm s else schedule_disarm s)
    | [] => True
    end.
Proof.
  intros Hne. revert last. induction l as [|r l IH]; intros last; [done|]. cbn [scheduler_run].
  destruct (scheduler_round s (r_armed r) (r_hhmm r) (r_weekday r) last) as [[b|] last'] eqn:E.
  - apply scheduler_round_act in E as (-> & Hl & _ & Hb & _). destruct (IH (r_hhmm r)) as [IH1 IH2].
    unfold acts in *. cbn [omap list_omap]. fold (acts (scheduler_run s (r_hhmm r) l)) in *.
    split; [|congruence]. cbn [alternating]. unfold acts in *.
    destruct (omap _ (scheduler_run s (r_hhmm r) l)) as [|b' rest]; [done|]. split; [|done].
    intros <-. congruence.
  - assert (last' = last) as -> by (unfold scheduler_round in E; repeat case_match; congruence).
    apply IH.
Qed.

(** The owner of a device that is armed every morning at eight and disarmed by
    hand: the device is disarmed at eight each day. *)
Definition mornings (n : nat) : list Round := replicate n (mkRound false (lit "08:00") 0).
Definition arm_at_eight : AwaySettings :=
  mkAwaySettings true true false [] [] (lit "08:00") [] false [] true.

(** What the schedule does.  The device is armed or disarmed at the set
    minute of an allowed day only, and only if it is not in that state already.
    But a minute in which the schedule has acted is remembered without its day
    until the schedule acts in another minute: its actions alternate between
    arming and disarming.  A device that is only armed by schedule is armed
    once, and never again on any later day; likewise when the owner disarms by
    hand before the scheduled disarm. *)
Theorem schedule_alternates s l :
  (∀ r last b last', scheduler_round s (r_armed r) (r_hhmm r) (r_weekday r) last = (Some b, last') →
     r_armed r = negb b ∧ (if b then schedule_arm s else schedule_disarm s) = r_hhmm r
     ∧ (schedule_weekdays_only s = true → r_weekday r < 5))
  ∧ (schedule_arm s ≠ schedule_disarm s → alternating (acts (scheduler_run s [] l)))
  ∧ (schedule_disarm s = [] ∨ Forall (λ r, r_armed r = false) l →
     schedule_arm s ≠ schedule_disarm s → (length (acts (scheduler_run s [] l)) ≤ 1)%nat)
  ∧ ∀ n, acts (scheduler_run arm_at_eight [] (mornings (S n))) = [true].
Proof.
  assert (∀ last l b, (∀ r, r ∈ l → ∀ last last', scheduler_round s (r_armed r) (r_hhmm r) (r_weekday r) last ≠ (Some false, last')) →
    b ∈ acts (scheduler_run s last l) → b = true) as Htrue.
  { intros last l0. revert last. induction l0 as [|r l0 IH]; intros last b Hn; [by intros ?%elem_of_nil|].
    cbn [scheduler_run].
    destruct (scheduler_round s (r_armed r) (r_hhmm r) (r_weekday r) last) as [[[|]|] last'] eqn:E.
    - intros [->|Hb]%elem_of_cons; [done|]. eapply IH; [|done]. intros r' Hr'. apply Hn. set_solver.
    - exfalso. eapply (Hn r); [set_solver | done].
    - apply IH. intros r' Hr'. apply Hn. set_solver. }
  split_and!.
  - intros r last b last' H. by apply scheduler_round_act in H as (_ & _ & ? & ? & _ & ?).
  - intros Hne. by apply scheduler_alternates.
  - intros Hoff Hne. destruct (scheduler_alternates s [] l Hne) as [Ha _].
    assert (∀ b, b ∈ acts (scheduler_run s [] l) → b = true) as Hb.
    { intros b. apply Htrue. intros r Hr last last' H. apply scheduler_round_act in H as (_ & _ & Harm & Hs & Hm & _).
      cbn in Harm, Hs. destruct Hoff as [Hoff|Hoff]; [congruence|]. rewrite Forall_forall in Hoff. specialize (Hoff _ Hr). congruence. }
    destruct (acts _) as [|a [|b rest]]; cbn; [lia | lia|]. exfalso.
    destruct Ha as [Ha _]. apply Ha. rewrite (Hb a), (Hb b) by set_solver. done.
  - intros n. change (true :: acts (scheduler_run arm_at_eight (lit "08:00") (mornings n)) = [true]). f_equal.
    by induction n.
Qed.

Definition two_days : list Round :=
  [mkRound false (lit "08:00") 0; mkRound true (lit "08:00") 0; mkRound false (lit "08:00") 1].

Lemma schedule_alternates_witness :
  alternating (acts (scheduler_run arm_at_eight [] two_days))
  ∧ (length (acts (scheduler_run arm_at_eight [] two_days)) ≤ 1)%nat
  ∧ acts (scheduler_run arm_at_eight [] two_days) = [true].
Proof.
  destruct (schedule_alternates arm_at_eight two_days) as (_ & H1 & H2 & _).
  split; [by apply H1 | split; [by apply H2; [left|] | by vm_compute]].
Defined.
