(* ===== verification/AwayWatch.v ===== *)
(** * The watch of away mode ([src/away_monitor.rs], the away events of
    [crates/web/src/db.rs])

    The table of event records, and the tasks of the watch interleaved: the
    loop that inserts records and attributes replies, and for each visitor a
    task that greets, asks, listens and reaps the listening window. *)
From Stdlib Require Import ZArith Lia List Bool String.
From stdpp Require Import base option list numbers gmap sorting.
From S2P Require Import Prelude Text Away.

(** ** The table *)
Module Table.
Inductive Kind := KPerson | KActivity.

(** The strings of the column [state]. *)
Inductive AwayState := SGreeting | SListening | SReask | SAnswered | SSilent | SKnown | SNoVoice | SRecorded.

#[export] Instance AwayState_eq_dec : EqDecision AwayState.
Proof. solve_decision. Defined.

Record AwayEventRecord := mkRecord {
  id : Z; camera_id : bytes; kind : Kind; started_ms : Z; labels : bytes;
  face_name : option bytes; description : option bytes; visitor_reply : option bytes;
  snapshot : option bytes; state : AwayState }.

Definition with_id (i : Z) (r : AwayEventRecord) : AwayEventRecord :=
  mkRecord i (camera_id r) (kind r) (started_ms r) (labels r) (face_name r) (description r) (visitor_reply r) (snapshot r) (state r).
Definition with_state (s : AwayState) (r : AwayEventRecord) : AwayEventRecord :=
  mkRecord (id r) (camera_id r) (kind r) (started_ms r) (labels r) (face_name r) (description r) (visitor_reply r) (snapshot r) s.
Definition with_reply (t : bytes) (r : AwayEventRecord) : AwayEventRecord :=
  mkRecord (id r) (camera_id r) (kind r) (started_ms r) (labels r) (face_name r) (description r) (Some t) (snapshot r) SAnswered.
Definition with_description (t : bytes) (r : AwayEventRecord) : AwayEventRecord :=
  mkRecord (id r) (camera_id r) (kind r) (started_ms r) (labels r) (face_name r) (Some t) (visitor_reply r) (snapshot r) (state r).

(** The rows in the order of their ids, and the last id that
    [AUTOINCREMENT] has given. *)
Record AwayTable := mkTable { rows : list AwayEventRecord; last_id : Z }.

Definition empty_table : AwayTable := mkTable [] 0.

Definition AWAY_EVENTS_CAP : nat := 1000.

(** The transaction of [insert_away_event_with_cap]: the row as stored, and
    the snapshots of the rows that are pruned. *)
Definition insert_away_event_with_cap (r : AwayEventRecord) (cap : nat) (t : AwayTable)
    : AwayTable * (AwayEventRecord * list bytes) :=
  let stored := with_id (last_id t + 1) r in
  let all := rows t ++ [stored] in
  let n := (length all - cap)%nat in
  (mkTable (drop n all) (last_id t + 1), (stored, omap snapshot (take n all))).

Definition insert_away_event (r : AwayEventRecord) (t : AwayTable)
    : AwayTable * (AwayEventRecord * list bytes) := insert_away_event_with_cap r AWAY_EVENTS_CAP t.

(** [UPDATE .. SET .. WHERE id = ?2 RETURNING ..] *)
Definition update_row (i : Z) (f : AwayEventRecord → AwayEventRecord) (t : AwayTable)
    : AwayTable * option AwayEventRecord :=
  (mkTable (map (λ r, if id r =? i then f r else r) (rows t)) (last_id t),
   f <$> List.find (λ r, id r =? i) (rows t)).

Definition update_away_state (i : Z) (s : AwayState) := update_row i (with_state s).
Definition update_away_reply (i : Z) (reply : bytes) := update_row i (with_reply reply).
Definition update_away_description (i : Z) (text : bytes) := update_row i (with_description text).

Definition get_away_event (i : Z) (t : AwayTable) : option AwayEventRecord :=
  List.find (λ r, id r =? i) (rows t).

(** The snapshots of all rows, which the caller unlinks. *)
Definition clear_away_events (t : AwayTable) : AwayTable * (Z * list bytes) :=
  (mkTable [] (last_id t), (zlen (rows t), omap snapshot (rows t))).

(** Newest first, [limit] clamped. *)
Definition newest (n : Z) (l : list AwayEventRecord) : list AwayEventRecord := take (Z.to_nat n) (rev l).
Definition list_away_events (limit : Z) (t : AwayTable) : list AwayEventRecord :=
  newest (Z.max 1 (Z.min limit 200)) (rows t).
Definition since (ms : Z) (t : AwayTable) : list AwayEventRecord :=
  List.filter (λ r, ms <=? started_ms r) (rows t).
Definition list_away_events_since (ms limit : Z) (t : AwayTable) : list AwayEventRecord :=
  newest (Z.max 1 (Z.min limit 50)) (since ms t).

Definition is_person (r : AwayEventRecord) : bool := match kind r with KPerson => true | _ => false end.
Definition away_stats (t : AwayTable) : Z * Z := (zlen (rows t), zlen (List.filter is_person (rows t))).
Definition away_stats_since (ms : Z) (t : AwayTable) : Z * Z :=
  (zlen (since ms t), zlen (List.filter is_person (since ms t))).

(** *** Invariants of the table *)

(** Ids ascend, none is above the last one given, and the cap holds. *)
Record table_ok (t : AwayTable) : Prop := {
  ids_sorted : StronglySorted Z.lt (id <$> rows t);
  ids_given : Forall (λ i, i ≤ last_id t) (id <$> rows t);
  rows_capped : (length (rows t) ≤ AWAY_EVENTS_CAP)%nat }.

Inductive TableOp :=
  | OInsert (r : AwayEventRecord)
  | OState (i : Z) (s : AwayState)
  | OReply (i : Z) (reply : bytes)
  | ODescribe (i : Z) (text : bytes)
  | OClear.

(** The table after an operation, and the snapshots it gives up. *)
Definition table_op (t : AwayTable) (o : TableOp) : AwayTable * list bytes :=
  match o with
  | OInsert r => let '(t, (_, pruned)) := insert_away_event r t in (t, pruned)
  | OState i s => ((update_away_state i s t).1, [])
  | OReply i reply => ((update_away_reply i reply t).1, [])
  | ODescribe i text => ((update_away_description i text t).1, [])
  | OClear => let '(t, (_, names)) := clear_away_events t in (t, names)
  end.

Lemma ids_update i f t : (∀ r, id (f r) = id r) → id <$> rows (update_row i f t).1 = id <$> rows t.
Proof.
  intros Hf. cbn. rewrite <-list_fmap_compose. apply list_fmap_ext. intros _ r _. cbn.
  by destruct (id r =? i).
Qed.

Lemma update_ok i f t : (∀ r, id (f r) = id r) → table_ok t → table_ok (update_row i f t).1.
Proof.
  intros Hf [Hs Hg Hc]. split; rewrite ?ids_update by done; [done..|]. cbn. by rewrite length_map.
Qed.

Lemma insert_ok r t : table_ok t → table_ok (insert_away_event r t).1.
Proof.
  intros [Hs Hg Hc]. unfold insert_away_event, insert_away_event_with_cap. cbn [fst].
  set (n := (_ - AWAY_EVENTS_CAP)%nat).
  assert (StronglySorted Z.lt (id <$> rows t ++ [with_id (last_id t + 1) r])
          ∧ Forall (λ i, i ≤ last_id t + 1) (id <$> rows t ++ [with_id (last_id t + 1) r])) as [Hall Hle].
  { rewrite fmap_app. split.
    - apply StronglySorted_app_2; [|done | by repeat constructor].
      intros x y Hx Hy. rewrite Forall_forall in Hg. specialize (Hg _ Hx).
      apply list_elem_of_singleton in Hy as ->. cbn. lia.
    - apply Forall_app. split; [|by repeat constructor; cbn; lia].
      eapply Forall_impl; [exact Hg|]. cbn. lia. }
  split; cbn [rows last_id].
  - rewrite <-(take_drop n (rows t ++ _)), fmap_app in Hall. by apply StronglySorted_app_1_r in Hall.
  - rewrite fmap_drop. by apply Forall_drop.
  - unfold n. rewrite length_drop, length_app. cbn. lia.
Qed.

Lemma table_op_ok t o : table_ok t → table_ok (table_op t o).1.
Proof.
  intros Ht. destruct o; cbn [table_op]; try (by apply update_ok).
  - pose proof (insert_ok r t Ht) as H. by destruct (insert_away_event r t) as [t' [r' pruned]].
  - split; cbn; [constructor | constructor | lia].
Qed.

(** No operation gives an id out again. *)
Lemma table_op_ids t o : last_id t ≤ last_id (table_op t o).1 ∧
  (∀ i, i ∈ id <$> rows (table_op t o).1 → i ∈ id <$> rows t ∨ last_id t < i).
Proof.
  destruct o; cbn [table_op fst];
    try (split; [cbn; lia|]; intros i0; unfold update_away_state, update_away_reply, update_away_description;
         rewrite ids_update by done; by left).
  - unfold insert_away_event, insert_away_event_with_cap. cbn. split; [lia|]. intros i.
    rewrite fmap_drop. intros H%(subseteq_drop _ _).
    rewrite fmap_app in H. apply elem_of_app in H as [H|H]; [by left|].
    apply list_elem_of_singleton in H as ->. right. cbn. lia.
  - split; [cbn; lia|]. cbn. intros ? H; by apply elem_of_nil in H.
Qed.

(** The snapshots of the table and those given up are the snapshots inserted. *)
Lemma table_op_snapshots t o :
  (table_op t o).2 ++ omap snapshot (rows (table_op t o).1)
  ≡ₚ omap snapshot (rows t) ++ match o with OInsert r => option_list (snapshot r) | _ => [] end.
Proof.
  assert (∀ i f, (∀ r, snapshot (f r) = snapshot r) →
    omap snapshot (rows (update_row i f t).1) = omap snapshot (rows t)) as Hu.
  { intros i f Hf. cbn. induction (rows t) as [|r l IH]; [done|]. cbn. rewrite IH.
    destruct (id r =? i); [by rewrite Hf | done]. }
  destruct o; cbn [table_op fst snd app]; rewrite ?app_nil_r;
    try (unfold update_away_state, update_away_reply, update_away_description; by rewrite Hu).
  - unfold insert_away_event, insert_away_event_with_cap. cbn [fst snd rows].
    rewrite <-omap_app, take_drop, omap_app. f_equiv. cbn. by destruct (snapshot r).
  - cbn. by rewrite ?app_nil_r.
Qed.

(** The table over any sequence of operations: ids ascend and are never given
    twice, the cap holds, and every snapshot inserted is in a row or has been
    handed to the caller for deletion. *)
Fixpoint table_run (t : AwayTable) (l : list TableOp) : AwayTable * list bytes :=
  match l with
  | [] => (t, [])
  | o :: l => let '(t, names) := table_op t o in
              let '(t, rest) := table_run t l in (t, names ++ rest)
  end.

Definition inserted (l : list TableOp) : list bytes :=
  omap (λ o, match o with OInsert r => snapshot r | _ => None end) l.

Theorem away_table l :
  let '(t, unlinked) := table_run empty_table l in
  table_ok t ∧ unlinked ++ omap snapshot (rows t) ≡ₚ inserted l.
Proof.
  assert (∀ t, table_ok t →
    let '(t', unlinked) := table_run t l in
    table_ok t' ∧ unlinked ++ omap snapshot (rows t') ≡ₚ omap snapshot (rows t) ++ inserted l) as H.
  { induction l as [|o l IH]; intros t Ht; cbn [table_run].
    - unfold inserted. cbn. by rewrite app_nil_r.
    - pose proof (table_op_ok t o Ht) as Hok. pose proof (table_op_snapshots t o) as Hs.
      destruct (table_op t o) as [t1 names]. cbn [fst snd] in *. specialize (IH t1 Hok).
      destruct (table_run t1 l) as [t2 rest]. destruct IH as [IH1 IH2]. split; [done|].
      rewrite <-app_assoc, IH2, app_assoc, Hs, <-app_assoc. f_equiv.
      unfold inserted. destruct o; try done. cbn. by destruct (snapshot r). }
  specialize (H empty_table). apply H. split; cbn; [constructor.. | lia].
Qed.
End Table.

(** ** The tasks *)
Module Watch.
Import Table.

Definition LISTEN_GRACE_MS : Z := 5000.

(** What is left to do in the task of a visitor: the greeting is being spoken;
    the next call is [arm_listen] and [open_listen], [update_away_state], or
    [expire_listen] once the clock shows [wake]; [deter] tells the second
    window from the first. *)
Inductive Pc :=
  | Greeting (i : Z) (face : option bytes) (stored : AwayState)
  | Asking (i : Z)
  | SetListening (i : Z)
  | Sleeping (wake : Z) (deter : bool)
  | SetReask (i : Z) (text : bytes)
  | SpeakReask (i : Z) (text : bytes)
  | AskingAgain (i : Z)
  | SetState (i : Z) (s : AwayState) (then_deter : bool)
  | SpeakDeterrence
  | Finished.

(** The watch loop: idle, about to insert a record, or about to store a
    reply. *)
Inductive Loop :=
  | Idle
  | Recording (cam : bytes) (action : AwayAction) (now : Z)
  | Replying (i : Z) (transcript : bytes).

(** What goes wrong with an event, for the theorems: its window is closed by
    an answer after the deadline or by a disarm, its state is overwritten with
    [listening] after the window was closed, or a statement fails. *)
Inductive Fault := Late (i : Z) | Dropped (i : Z) | Overwritten (i : Z) | Failed (i : Z).

Record World := mkWorld {
  engine : AwayEngine; table : AwayTable; tasks : list Pc; loop : Loop; clock : Z; faults : list Fault }.

Definition set_engine (e : AwayEngine) (w : World) : World := mkWorld e (table w) (tasks w) (loop w) (clock w) (faults w).
Definition set_table (t : AwayTable) (w : World) : World := mkWorld (engine w) t (tasks w) (loop w) (clock w) (faults w).
Definition set_tasks (l : list Pc) (w : World) : World := mkWorld (engine w) (table w) l (loop w) (clock w) (faults w).
Definition set_loop (l : Loop) (w : World) : World := mkWorld (engine w) (table w) (tasks w) l (clock w) (faults w).
Definition add_fault (f : Fault) (w : World) : World :=
  mkWorld (engine w) (table w) (tasks w) (loop w) (clock w) (f :: faults w).

(** A statement on the row of an event: it fails, or is done. *)
Definition statement (ok : bool) (i : Z) (f : AwayTable → AwayTable) (w : World) : World :=
  if ok then set_table (f (table w)) w else add_fault (Failed i) w.

Definition listen_ms (e : AwayEngine) : Z := wrap64 (listen_secs (config e) * 1000).
Definition reask_ms (e : AwayEngine) : Z := Z.max (listen_ms e / 2) 4000.

(** [VoiceEngine::arm_listen]: refused for an empty window, or without VAD. *)
Definition arm_listen (vad : bool) (window_ms : Z) : bool := negb (window_ms =? 0) && vad.

(** [voice.arm_listen(..) && away.open_listen(..)] *)
Definition ask (vad : bool) (window_ms i : Z) (w : World) : World * bool :=
  let deadline := clock w + window_ms + LISTEN_GRACE_MS in
  if arm_listen vad window_ms then
    let '(e, opened) := open_listen i deadline (engine w) in (set_engine e w, opened)
  else (w, false).

(** The next step of a visitor's task; [ok] says whether what it calls
    succeeds (playback, the statement, VAD). *)
Definition advance (pc : Pc) (ok : bool) (w : World) : World * Pc :=
  match pc with
  | Greeting i face stored =>
      (w, if ok then match face with None => Asking i | Some _ => Finished end
          else if decide (stored = SGreeting) then SetState i SNoVoice false else Finished)
  | Asking i =>
      let '(w, opened) := ask ok (listen_ms (engine w)) i w in
      (w, if opened then SetListening i else SetState i SNoVoice false)
  | SetListening i =>
      let owner := match listen (engine w) with Some l => event_id l =? i | None => false end in
      let w := statement ok i (λ t, (update_away_state i SListening t).1) w in
      let w := if owner then w else add_fault (Overwritten i) w in
      (w, Sleeping (clock w + listen_ms (engine w) + LISTEN_GRACE_MS + 3000) false)
  | Sleeping wake deter =>
      if clock w <? wake then (w, pc)
      else
        let '(e, expired) := expire_listen (clock w) (engine w) in
        let w := set_engine e w in
        (w, match expired with
            | None => Finished
            | Some i =>
                if deter then SetState i SSilent true
                else if deterrence (settings e) then SetReask i (Away.reask_text (settings e))
                else SetState i SSilent false
            end)
  | SetReask i text => (statement ok i (λ t, (update_away_state i SReask t).1) w, SpeakReask i text)
  | SpeakReask i text => (w, AskingAgain i)
  | AskingAgain i =>
      let '(w, opened) := ask ok (reask_ms (engine w)) i w in
      (w, if opened then Sleeping (clock w + reask_ms (engine w) + LISTEN_GRACE_MS + 3000) true
          else SetState i SSilent false)
  | SetState i s then_deter =>
      (statement ok i (λ t, (update_away_state i s t).1) w,
       if then_deter then SpeakDeterrence else Finished)
  | SpeakDeterrence => (w, Finished)
  | Finished => (w, Finished)
  end.

Section watch.
(** [tts.is_active()] *)
Context (tts_active : bool).

Definition event_record (cam : bytes) (k : Kind) (now : Z) (ls : bytes) (face snap : option bytes) (s : AwayState) :=
  mkRecord 0 cam k now ls face None None snap s.

(** [initial_state] of [visitor_flow]. *)
Definition initial_state (e : AwayEngine) (face : option bytes) : AwayState :=
  if negb (voice_capable e) || negb tts_active then SNoVoice
  else match face with Some _ => SKnown | None => SGreeting end.

(** [visitor_flow] and [activity_flow] up to the insertion, with the result of
    the face match and the name of the snapshot; then the task of the visitor. *)
Definition record_event (face snap : option bytes) (ok : bool) (w : World) : World :=
  match loop w with
  | Recording cam (Visitor n) now =>
      let s := initial_state (engine w) face in
      let w := set_loop Idle w in
      if ok then
        let '(t, (stored, _)) := insert_away_event
          (event_record cam KPerson now (lit "person×" ++ dec_of_Z n) face snap s) (table w) in
        let w := set_table t w in
        if voice_capable (engine w) && tts_active
        then set_tasks (tasks w ++ [Greeting (id stored) face s]) w else w
      else w
  | Recording cam (Activity ls) now =>
      let w := set_loop Idle w in
      if ok then set_table (insert_away_event (event_record cam KActivity now ls None snap SRecorded) (table w)).1 w
      else w
  | _ => w
  end.

(** What can happen. *)
Inductive Ev :=
  | Tick (t : Z)
  | Detected (cam : bytes) (ds : list Detection)
  | Record_ (face snap : option bytes) (ok : bool)
  | Heard (follow_up : bool) (transcript : bytes)
  | Reply (ok : bool)
  | Task (n : nat) (ok : bool)
  | Arm
  | Disarm
  | Configure (s : AwaySettings)
  | Describe (i : Z) (text : bytes)
  | Clear.

Definition with_settings (s : AwaySettings) (e : AwayEngine) : AwayEngine :=
  mkEngine (config e) (ai_active e) (voice_capable e) s (armed e) (armed_since e) (cameras e) (listen e).

Definition wstep (w : World) (ev : Ev) : World :=
  match ev with
  | Tick t => mkWorld (engine w) (table w) (tasks w) (loop w) (Z.max t (clock w)) (faults w)
  | Detected cam ds =>
      match loop w with
      | Idle =>
          if armed (engine w) then
            let '(e, action) := observe cam ds (clock w) (engine w) in
            match action with
            | NoAction => set_engine e w
            | _ => set_loop (Recording cam action (clock w)) (set_engine e w)
            end
          else w
      | _ => w
      end
  | Record_ face snap ok => record_event face snap ok w
  | Heard follow_up transcript =>
      match loop w with
      | Idle =>
          if negb follow_up || bytes_eqb (trim transcript) [] || negb (armed (engine w)) then w
          else
            let '(e, attributed) := attribute_listen (clock w) (engine w) in
            match attributed, listen (engine w) with
            | Some i, _ => set_loop (Replying i transcript) (set_engine e w)
            | None, Some l => add_fault (Late (event_id l)) (set_engine e w)
            | None, None => set_engine e w
            end
      | _ => w
      end
  | Reply ok =>
      match loop w with
      | Replying i transcript => set_loop Idle (statement ok i (λ t, (update_away_reply i transcript t).1) w)
      | _ => w
      end
  | Task n ok =>
      match tasks w !! n with
      | Some pc => let '(w, pc) := advance pc ok w in set_tasks (<[n := pc]> (tasks w)) w
      | None => w
      end
  | Arm => if ai_active (engine w) then set_engine (arm (clock w) (engine w)) w else w
  | Disarm =>
      let w := match listen (engine w) with Some l => add_fault (Dropped (event_id l)) w | None => w end in
      set_engine (disarm (engine w)) w
  | Configure s => set_engine (with_settings s (engine w)) w
  | Describe i text => set_table (update_away_description i text (table w)).1 w
  | Clear => set_table (clear_away_events (table w)).1 w
  end.

Definition wrun (w : World) (evs : list Ev) : World := fold_left wstep evs w.

Definition world_new (c : AwayConfig) (ai voice : bool) : World :=
  mkWorld (away_new c ai voice) empty_table [] Idle 0 [].
End watch.

(** *** Who is responsible for an event *)

(** States in which somebody still has to act. *)
Definition unsettled (s : AwayState) : bool :=
  match s with SGreeting | SListening | SReask => true | _ => false end.

Definition fault_id (f : Fault) : Z :=
  match f with Late i | Dropped i | Overwritten i | Failed i => i end.

(** The event a task will still write, its window apart. *)
Definition holder (pc : Pc) : option Z :=
  match pc with
  | Greeting i _ stored => if decide (stored = SGreeting) then Some i else None
  | Asking i | SetReask i _ | SpeakReask i _ | AskingAgain i | SetState i _ _ => Some i
  | _ => None
  end.

Definition slot_ids (e : AwayEngine) : list Z := option_list (event_id <$> listen e).
Definition loop_ids (l : Loop) : list Z := match l with Replying i _ => [i] | _ => [] end.
Definition holders (w : World) : list Z :=
  omap holder (tasks w) ++ slot_ids (engine w) ++ loop_ids (loop w).

(** The table, those responsible, and the faults. *)
Record core (t : AwayTable) (H : list Z) (fs : list Fault) : Prop := {
  core_table : table_ok t;
  core_nodup : NoDup H;
  core_given : Forall (λ i, i ≤ last_id t) H;
  core_unsettled r : r ∈ rows t → unsettled (state r) = true → id r ∈ H ∨ id r ∈ fault_id <$> fs;
  core_replied r : r ∈ rows t → is_Some (visitor_reply r) →
    id r ∉ H ∧ (state r = SAnswered ∨ Overwritten (id r) ∈ fs) }.

#[export] Instance core_proper t : Proper (Permutation ==> eq ==> iff) (core t).
Proof.
  assert (∀ H H' fs, H ≡ₚ H' → core t H fs → core t H' fs) as Hp.
  { intros H H' fs HP [C1 C2 C3 C4 C5].
    split; [done | by rewrite <-HP | by rewrite <-HP | |]; intros r; setoid_rewrite <-HP; auto. }
  intros H H' HP fs ? <-. split; by apply Hp.
Qed.

Lemma core_fault t H fs f : core t H fs → core t H (f :: fs).
Proof.
  intros [C1 C2 C3 C4 C5]. split; [done..| |].
  - intros r Hr Hs. cbn. destruct (C4 r Hr Hs); set_solver.
  - intros r Hr Hs. destruct (C5 r Hr Hs) as [? [?|?]]; set_solver.
Qed.

(** Somebody gives up on an event, which is recorded. *)
Lemma core_give_up t i H fs f : fault_id f = i → core t (i :: H) fs → core t H (f :: fs).
Proof.
  intros Hf [C1 C2 C3 C4 C5]. apply NoDup_cons in C2 as [Hi C2]. apply Forall_cons in C3 as [_ C3].
  split; [done..| |].
  - intros r Hr Hs. cbn. rewrite Hf. destruct (C4 r Hr Hs); set_solver.
  - intros r Hr Hs. destruct (C5 r Hr Hs) as [? [?|?]]; set_solver.
Qed.

Lemma update_rows i f t r :
  r ∈ rows (update_row i f t).1 ↔ ∃ r0, r0 ∈ rows t ∧ r = if id r0 =? i then f r0 else r0.
Proof. cbn. rewrite list_elem_of_fmap. naive_solver. Qed.

(** A state is written by the one responsible: it stays so, or the state is a
    final one. *)
Lemma core_write t i H fs s :
  core t (i :: H) fs →
  core (update_away_state i s t).1 (i :: H) fs
  ∧ (unsettled s = false → core (update_away_state i s t).1 H fs).
Proof.
  intros [C1 C2 C3 C4 C5].
  assert (∀ r, r ∈ rows (update_away_state i s t).1 → is_Some (visitor_reply r) →
            id r ∉ i :: H ∧ (state r = SAnswered ∨ Overwritten (id r) ∈ fs)) as Hrep.
  { intros r (r0 & Hr0 & ->)%update_rows. destruct (Z.eqb_spec (id r0) i) as [E|E]; [|auto].
    intros Hs. cbn in Hs. destruct (C5 r0 Hr0 Hs). set_solver. }
  split.
  - split; [by apply update_ok | done | done | | done].
    intros r (r0 & Hr0 & ->)%update_rows. destruct (Z.eqb_spec (id r0) i); [|auto]. cbn. set_solver.
  - intros Hs. apply NoDup_cons in C2 as [Hi C2]. apply Forall_cons in C3 as [_ C3].
    split; [by apply update_ok | done | done | |].
    + intros r (r0 & Hr0 & ->)%update_rows. destruct (Z.eqb_spec (id r0) i); [cbn; congruence|].
      intros Hu. destruct (C4 r0 Hr0 Hu); set_solver.
    + intros r Hr Hr'. destruct (Hrep r Hr Hr'). set_solver.
Qed.

(** The loop stores a reply. *)
Lemma core_reply t i H fs text :
  core t (i :: H) fs → core (update_away_reply i text t).1 H fs.
Proof.
  intros [C1 C2 C3 C4 C5]. apply NoDup_cons in C2 as [Hi C2]. apply Forall_cons in C3 as [_ C3].
  split; [by apply update_ok | done | done | |]; intros r (r0 & Hr0 & ->)%update_rows;
    destruct (Z.eqb_spec (id r0) i) as [E|E].
  - done.
  - intros Hu. destruct (C4 r0 Hr0 Hu); set_solver.
  - intros _. cbn. rewrite E. auto.
  - intros Hs. destruct (C5 r0 Hr0 Hs). set_solver.
Qed.

(** A state is written over, which is recorded. *)
Lemma core_overwrite t i H fs :
  core t H fs → core (update_away_state i SListening t).1 H (Overwritten i :: fs).
Proof.
  intros [C1 C2 C3 C4 C5]. split; [by apply update_ok | done | done | |];
    intros r (r0 & Hr0 & ->)%update_rows; destruct (Z.eqb_spec (id r0) i) as [E|E].
  - intros _. right. cbn. rewrite E. set_solver.
  - intros Hu. cbn. destruct (C4 r0 Hr0 Hu); set_solver.
  - intros Hs. cbn in *. destruct (C5 r0 Hr0 Hs). set_solver.
  - intros Hs. destruct (C5 r0 Hr0 Hs) as [? [?|?]]; set_solver.
Qed.

Lemma core_describe t i H fs text :
  core t H fs → core (update_away_description i text t).1 H fs.
Proof.
  intros [C1 C2 C3 C4 C5]. split; [by apply update_ok | done | done | |];
    intros r (r0 & Hr0 & ->)%update_rows; destruct (id r0 =? i); cbn; auto.
Qed.

Lemma core_clear t H fs : core t H fs → core (clear_away_events t).1 H fs.
Proof.
  intros [C1 C2 C3 C4 C5].
  split; [by apply (table_op_ok t OClear) | done | done | |]; cbn; intros r []%elem_of_nil.
Qed.

(** A new record: somebody has to be responsible for it if it is unsettled. *)
Lemma core_insert t H fs r :
  core t H fs → visitor_reply r = None →
  let '(t', (stored, _)) := insert_away_event r t in
  core t' (id stored :: H) fs ∧ (unsettled (state r) = false → core t' H fs).
Proof.
  intros [C1 C2 C3 C4 C5] Hr. unfold insert_away_event, insert_away_event_with_cap.
  pose proof (insert_ok r t C1) as Hok. unfold insert_away_event, insert_away_event_with_cap in Hok.
  set (n := (_ - AWAY_EVENTS_CAP)%nat) in *. cbn [fst] in Hok. cbn [id with_id].
  assert (last_id t + 1 ∉ H) as Hnew by (intros Hin; rewrite Forall_forall in C3; specialize (C3 _ Hin); lia).
  assert (Forall (λ i, i ≤ last_id t + 1) H) as C3' by (eapply Forall_impl; [exact C3 | cbn; lia]).
  assert (∀ x, x ∈ drop n (rows t ++ [with_id (last_id t + 1) r]) → x ∈ rows t ∨ x = with_id (last_id t + 1) r) as Hin.
  { intros x Hx%(subseteq_drop _ _). apply elem_of_app in Hx as [?| ->%list_elem_of_singleton]; auto. }
  assert (∀ x, x ∈ rows t → id x ≠ last_id t + 1) as Hold.
  { intros x Hx. destruct C1 as [_ Hg _]. rewrite Forall_forall in Hg.
    specialize (Hg (id x) ltac:(by apply list_elem_of_fmap_2)). lia. }
  split; [|intros Hs]; (split; [done | | | |]); cbn [rows last_id].
  - by apply NoDup_cons.
  - apply Forall_cons. split; [lia | done].
  - intros x [Hx| ->]%Hin Hu; [destruct (C4 x Hx Hu); set_solver | cbn; set_solver].
  - intros x [Hx| ->]%Hin Hx'; [|cbn in Hx'; rewrite Hr in Hx'; by destruct Hx'].
    destruct (C5 x Hx Hx'). pose proof (Hold x Hx). set_solver.
  - done.
  - done.
  - intros x [Hx| ->]%Hin Hu; [auto | cbn in Hu; congruence].
  - intros x [Hx| ->]%Hin Hx'; [auto | cbn in Hx'; rewrite Hr in Hx'; by destruct Hx'].
Qed.

(** *** The invariant of the worlds *)

(** The task takes a window with this deadline away when it wakes up. *)
Definition reaps (w : World) (l : OpenListen) (pc : Pc) : Prop :=
  match pc with
  | Sleeping wake _ => deadline_ms l < wake
  | SetListening _ => deadline_ms l < clock w + listen_ms (engine w) + LISTEN_GRACE_MS + 3000
  | _ => False
  end.

#[export] Instance reaps_dec w l pc : Decision (reaps w l pc).
Proof. destruct pc; unfold reaps; apply _. Defined.

Definition pc_ok (pc : Pc) : Prop :=
  match pc with
  | Greeting _ face stored => stored = SGreeting ↔ face = None
  | SetState _ s _ => unsettled s = false
  | _ => True
  end.

Record Inv (w : World) : Prop := {
  inv_core : core (table w) (holders w) (faults w);
  inv_pcs : Forall pc_ok (tasks w);
  inv_slot l : listen (engine w) = Some l → Exists (reaps w l) (tasks w) }.

Lemma holders_task n pc w :
  tasks w !! n = Some pc →
  holders w ≡ₚ option_list (holder pc) ++ omap holder (delete n (tasks w)) ++ slot_ids (engine w) ++ loop_ids (loop w).
Proof.
  intros Hn. unfold holders. rewrite (app_assoc (option_list _)). f_equiv.
  rewrite <-(take_drop_middle _ _ _ Hn) at 1. rewrite delete_take_drop, !omap_app. cbn.
  destruct (holder pc); cbn; by rewrite <-?Permutation_middle.
Qed.

Lemma tasks_insert n pc pc' (l : list Pc) :
  l !! n = Some pc → <[n := pc']> l !! n = Some pc' ∧ delete n (<[n := pc']> l) = delete n l.
Proof.
  intros Hn. split; [by apply list_lookup_insert_eq; apply lookup_lt_Some in Hn|].
  pose proof (lookup_lt_Some _ _ _ Hn) as Hlt.
  rewrite insert_take_drop, !delete_take_drop by done.
  rewrite take_app_length', drop_app_ge by (rewrite length_take; lia). rewrite length_take.
  replace (S n - n `min` length l)%nat with 1%nat by lia. done.
Qed.

Lemma ask_core vad ms i R w :
  core (table w) (i :: R ++ slot_ids (engine w) ++ loop_ids (loop w)) (faults w) →
  let '(w', opened) := ask vad ms i w in
  core (table w') ((if opened then [] else [i]) ++ R ++ slot_ids (engine w') ++ loop_ids (loop w')) (faults w')
  ∧ tasks w' = tasks w ∧ clock w' = clock w ∧ listen_ms (engine w') = listen_ms (engine w)
  ∧ listen (engine w') = (if opened then Some (mkListen i (clock w + ms + LISTEN_GRACE_MS)) else listen (engine w)).
Proof.
  intros HC. unfold ask. destruct (arm_listen vad ms); [|by split_and!].
  unfold open_listen. destruct (listen (engine w)) as [l|] eqn:El; [by split_and!|].
  split_and!; [|done..]. cbn. unfold slot_ids in *. rewrite El in HC. cbn in *.
  by rewrite <-Permutation_middle.
Qed.

(** One step of a task keeps the table, the responsibilities and the reaper. *)
Lemma advance_core pc ok R w :
  pc_ok pc →
  core (table w) (option_list (holder pc) ++ R ++ slot_ids (engine w) ++ loop_ids (loop w)) (faults w) →
  let '(w', pc') := advance pc ok w in
  core (table w') (option_list (holder pc') ++ R ++ slot_ids (engine w') ++ loop_ids (loop w')) (faults w')
  ∧ pc_ok pc'.
Proof.
  intros Hpc HC. destruct pc as [i face stored|i|i|wake deter|i text|i text|i|i s then_deter| |]; cbn [advance].
  - split; [|by repeat case_match]. cbn [holder] in HC. cbn in Hpc.
    destruct ok; [destruct face|]; cbn [holder]; repeat case_match; naive_solver.
  - cbn in HC. pose proof (ask_core ok (listen_ms (engine w)) i R w HC) as H.
    destruct (ask ok (listen_ms (engine w)) i w) as [w' [|]]; by destruct H.
  - split; [|done]. cbn [holder option_list app] in *.
    destruct (listen (engine w)) as [l|] eqn:El; [destruct (Z.eqb_spec (event_id l) i) as [<-|Hi]|].
    + unfold statement. destruct ok; [|by apply core_fault]. cbn.
      unfold slot_ids in *. rewrite El in *. cbn in *. rewrite <-Permutation_middle in HC |- *.
      apply (core_write _ _ _ _ SListening HC).
    + destruct ok; cbn; [by apply core_overwrite | by apply core_fault, core_fault].
    + destruct ok; cbn; [by apply core_overwrite | by apply core_fault, core_fault].
  - destruct (clock w <? wake); [by split|]. unfold expire_listen, slot_ids in *.
    destruct (listen (engine w)) as [l|] eqn:El; [|cbn; rewrite El; by split].
    destruct (deadline_ms l <? clock w); [|cbn; rewrite El; by split].
    split; [|by repeat case_match]. cbn in *. rewrite <-Permutation_middle in HC.
    by destruct deter, (deterrence (settings (engine w))).
  - split; [|done]. unfold statement. destruct ok; [apply (core_write _ _ _ _ SReask HC) | by apply core_fault].
  - by split.
  - cbn in HC. pose proof (ask_core ok (reask_ms (engine w)) i R w HC) as H.
    destruct (ask ok (reask_ms (engine w)) i w) as [w' [|]]; by destruct H.
  - split; [|by destruct then_deter].
    replace (option_list (holder (if then_deter then SpeakDeterrence else Finished))) with (@nil Z)
      by (by destruct then_deter).
    unfold statement. destruct ok; [|by eapply core_give_up]. by apply (core_write _ _ _ _ s HC).
  - by split.
  - by split.
Qed.

Lemma ask_fields vad ms i w :
  let '(w', opened) := ask vad ms i w in
  tasks w' = tasks w ∧ clock w' = clock w ∧ loop w' = loop w ∧ listen_ms (engine w') = listen_ms (engine w)
  ∧ listen (engine w') = (if opened then Some (mkListen i (clock w + ms + LISTEN_GRACE_MS)) else listen (engine w)).
Proof.
  unfold ask, open_listen. destruct (arm_listen vad ms); [|done].
  destruct (listen (engine w)) as [l|] eqn:E; by split_and!.
Qed.

(** A step of a task touches the table and the slot only, and a window that is
    open afterwards is reaped by this task, or was not before. *)
Lemma advance_fields pc ok w :
  let '(w', pc') := advance pc ok w in
  tasks w' = tasks w ∧ clock w' = clock w ∧ loop w' = loop w ∧ listen_ms (engine w') = listen_ms (engine w)
  ∧ ∀ l, listen (engine w') = Some l →
      reaps w l pc' ∨ (listen (engine w) = Some l ∧ ¬ reaps w l pc).
Proof.
  assert (∀ pc' (w' : World), engine w' = engine w → ¬ (∃ l, reaps w l pc) →
    ∀ l, listen (engine w') = Some l → reaps w l pc' ∨ (listen (engine w) = Some l ∧ ¬ reaps w l pc)) as Hsame.
  { intros pc' w' He Hn l Hl. right. split; [by rewrite <-He | naive_solver]. }
  destruct pc as [i face stored|i|i|wake deter|i text|i text|i|i s then_deter| |]; cbn [advance];
    try (by split_and!; try apply Hsame; try (intros [? []])).
  - pose proof (ask_fields ok (listen_ms (engine w)) i w) as H. destruct (ask _ _ _ w) as [w' [|]];
      destruct H as (-> & -> & -> & -> & Hl); split_and!; try done; intros l; rewrite Hl.
    + intros [= <-]. left. unfold reaps. cbn [deadline_ms]. lia.
    + intros ->. right. split; [done | tauto].
  - assert (∀ w1 w2 : World, tasks w1 = tasks w → clock w1 = clock w → loop w1 = loop w → engine w1 = engine w →
        tasks w2 = tasks w → clock w2 = clock w → loop w2 = loop w → engine w2 = engine w →
        ∀ b : bool, let w3 := if b then w1 else w2 in
        tasks w3 = tasks w ∧ clock w3 = clock w ∧ loop w3 = loop w ∧ engine w3 = engine w) as Hif
      by (intros; subst w3; destruct b; auto).
    set (b := match listen (engine w) with Some l => event_id l =? i | None => false end).
    set (w1 := statement ok i _ w).
    assert (tasks w1 = tasks w ∧ clock w1 = clock w ∧ loop w1 = loop w ∧ engine w1 = engine w) as (T & C & L & E)
      by (unfold w1, statement; by destruct ok).
    destruct (Hif w1 (add_fault (Overwritten i) w1) T C L E T C L E b) as (-> & -> & -> & ->).
    split_and!; [done..|]. intros l Hl. destruct (decide (reaps w l (SetListening i))) as [Hr|Hr]; [|by right].
    left. unfold reaps in *. lia.
  - destruct (Z.ltb_spec (clock w) wake) as [Hlt|Hge].
    + split_and!; [done..|]. intros l Hl. destruct (decide (reaps w l (Sleeping wake deter))); auto.
    + unfold expire_listen. destruct (listen (engine w)) as [l0|] eqn:El; cbn [set_engine];
        [|split_and!; [done..|]; cbn; rewrite El; done].
      destruct (Z.ltb_spec (deadline_ms l0) (clock w)); cbn; (split_and!; [done..|]); [done|].
      rewrite El. intros l [= <-]. right. split; [done | lia].
  - unfold statement. split_and!; destruct ok; try done; apply Hsame; try done; intros [? []].
  - pose proof (ask_fields ok (reask_ms (engine w)) i w) as H. destruct (ask _ _ _ w) as [w' [|]];
      destruct H as (-> & -> & -> & E & Hl); split_and!; try done; intros l; rewrite Hl;
      unfold reask_ms; rewrite ?E.
    + intros [= <-]. left. unfold reaps. cbn [deadline_ms]. lia.
    + intros ->. right. split; [done | tauto].
  - unfold statement. split_and!; destruct ok; try done; apply Hsame; try done; intros [? []].
Qed.

Lemma reaps_eq w w' l pc :
  clock w ≤ clock w' → listen_ms (engine w') = listen_ms (engine w) → reaps w l pc → reaps w' l pc.
Proof. intros Hc He. destruct pc; cbn; rewrite ?He; lia. Qed.

(** A step that leaves the tasks alone, and opens no window. *)
Lemma Inv_frame w w' :
  Inv w → core (table w') (holders w') (faults w') → tasks w' = tasks w → clock w ≤ clock w' →
  listen_ms (engine w') = listen_ms (engine w) →
  (listen (engine w') = listen (engine w) ∨ listen (engine w') = None) → Inv w'.
Proof.
  intros [I1 I2 I3] HC HT Hc He Hl. split; [done | by rewrite HT|].
  intros l Hl'. rewrite HT. destruct Hl as [Hl|Hl]; [|congruence].
  eapply Exists_impl; [apply (I3 l); by rewrite <-Hl|]. intros pc. by apply reaps_eq.
Qed.

Lemma Inv_task n ok tts w : Inv w → Inv (wstep tts w (Task n ok)).
Proof.
  intros [I1 I2 I3]. cbn [wstep]. destruct (tasks w !! n) as [pc|] eqn:Hn; [|by split].
  rewrite (holders_task _ _ _ Hn) in I1.
  assert (pc_ok pc) as Hpc by (eapply Forall_lookup_1; eauto).
  pose proof (advance_core pc ok _ w Hpc I1) as HC. pose proof (advance_fields pc ok w) as HF.
  destruct (advance pc ok w) as [w' pc']. destruct HC as [HC Hpc'], HF as (HT & Hclk & HL & HM & Hslot).
  destruct (tasks_insert n pc pc' (tasks w) Hn) as [Hn' Hd].
  split; cbn [table engine tasks loop faults set_tasks].
  - rewrite (holders_task n pc'); cbn; rewrite HT; [by rewrite Hd | done].
  - rewrite HT. by apply Forall_insert.
  - intros l Hl. rewrite HT. apply Exists_exists.
    assert (∀ pc, reaps w l pc → reaps (set_tasks (<[n:=pc']> (tasks w')) w') l pc) as Hr
      by (intros; eapply reaps_eq; [..|done]; cbn; rewrite ?Hclk; done).
    destruct (Hslot l Hl) as [Hp|[Hw Hp]].
    + exists pc'. split; [by eapply list_elem_of_lookup_2 | rewrite <-HT; auto].
    + apply I3, Exists_exists in Hw as (pc0 & Hin & Hr0). exists pc0. split; [|rewrite <-HT; auto].
      apply list_elem_of_lookup in Hin as [m Hm]. apply (list_elem_of_lookup_2 _ m).
      rewrite list_lookup_insert_ne; [done|]. intros <-. naive_solver.
Qed.

Lemma observe_fields cam ds now e :
  let '(e', _) := observe cam ds now e in listen_ms e' = listen_ms e ∧ listen e' = listen e.
Proof. unfold observe. by destruct (observe_latch _ _ _ _). Qed.

Lemma Inv_recording face snap ok tts w : Inv w → Inv (record_event tts face snap ok w).
Proof.
  intros Hw. unfold record_event. destruct (loop w) as [|cam [n|ls|] now|] eqn:EL; try done.
  - set (r := event_record _ _ _ _ _ _ _).
    assert (Inv (set_loop Idle w)) as HI.
    { pose proof (inv_core _ Hw) as HC.
      apply (Inv_frame w); try done; [|by left]. unfold holders in *. by rewrite EL in HC. }
    destruct ok; [|done]. pose proof (core_insert _ _ _ r (inv_core _ HI) eq_refl) as H.
    cbv zeta. change (table (set_loop Idle w)) with (table w) in *.
    destruct (insert_away_event r (table w)) as [t [stored pruned]] eqn:E. destruct H as [H1 H2].
    change (voice_capable (engine (set_table t (set_loop Idle w)))) with (voice_capable (engine w)).
    destruct (voice_capable (engine w) && tts) eqn:Ev.
    + apply andb_true_iff in Ev as [Ev1 Ev2]. destruct HI as [I1 I2 I3].
      split; cbn [table engine tasks loop faults set_tasks set_table].
      * unfold holders. cbn [tasks set_tasks set_table engine loop]. rewrite omap_app. cbn [omap list_omap holder].
        change (tasks (set_loop Idle w)) with (tasks w).
        unfold holders in H1, H2. cbn [tasks set_loop engine loop] in H1, H2.
        destruct (decide (initial_state tts (engine w) face = SGreeting)) as [Hs|Hs]; cbn [app].
        -- rewrite <-app_assoc. cbn [app]. by rewrite <-Permutation_middle.
        -- rewrite app_nil_r. apply H2. unfold r, event_record. cbn.
           unfold initial_state in *. rewrite Ev1, Ev2 in *. cbn in *. by destruct face.
      * apply Forall_app. split; [done|]. constructor; [|done]. cbn.
        unfold initial_state. rewrite Ev1, Ev2. cbn. by destruct face.
      * intros l Hl. apply Exists_app. left. eapply Exists_impl; [by apply I3|]. intros pc. by apply reaps_eq.
    + apply (Inv_frame (set_loop Idle w)); try done; [|by left]. apply H2. unfold r, event_record, initial_state. cbn.
      destruct (voice_capable (engine w)); cbn in *; [rewrite Ev|]; done.
  - assert (Inv (set_loop Idle w)) as HI.
    { pose proof (inv_core _ Hw) as HC.
      apply (Inv_frame w); try done; [|by left]. unfold holders in *. by rewrite EL in HC. }
    destruct ok; [|done].
    pose proof (core_insert _ _ _ (event_record cam KActivity now ls None snap SRecorded) (inv_core _ HI) eq_refl) as H.
    cbv zeta. change (table (set_loop Idle w)) with (table w) in *.
    destruct (insert_away_event _ (table w)) as [t [stored pruned]] eqn:E. destruct H as [_ H].
    apply (Inv_frame (set_loop Idle w)); try done; [|by left]. by apply H.
Qed.

Lemma Inv_step tts w ev : Inv w → Inv (wstep tts w ev).
Proof.
  intros Hw. pose proof (inv_core _ Hw) as HC.
  destruct ev as [t|cam ds|face snap ok|follow_up transcript|ok|n ok| | |s|i text|]; cbn [wstep].
  - apply (Inv_frame w); try done; [cbn; lia | by left].
  - destruct (loop w) eqn:EL; try done. destruct (armed (engine w)); [|done].
    pose proof (observe_fields cam ds (clock w) (engine w)) as H.
    destruct (observe cam ds (clock w) (engine w)) as [e action]. destruct H as [H1 H2].
    unfold holders, slot_ids in HC. rewrite EL in HC.
    destruct action; apply (Inv_frame w); try done; try (by left);
      unfold holders, slot_ids; cbn; rewrite ?EL, H2; done.
  - by apply Inv_recording.
  - destruct (loop w) eqn:EL; try done. destruct (_ || _ || _); [done|]. unfold attribute_listen.
    unfold holders, slot_ids in HC. rewrite EL in HC.
    destruct (listen (engine w)) as [l|] eqn:El; cbn in HC.
    + destruct (clock w <=? deadline_ms l).
      * apply (Inv_frame w); try done; by right.
      * apply (Inv_frame w); try done; [|by right]. unfold holders, slot_ids. cbn. rewrite EL.
        rewrite <-Permutation_middle in HC. by eapply core_give_up.
    + apply (Inv_frame w); try done; [|by right]. unfold holders, slot_ids. cbn. by rewrite EL.
  - destruct (loop w) as [| |i transcript] eqn:EL; try done. unfold holders in HC. rewrite EL in HC. cbn in HC.
    rewrite app_assoc, <-Permutation_cons_append in HC.
    unfold statement. destruct ok; apply (Inv_frame w); try done; try (by left); unfold holders; cbn;
      rewrite app_nil_r; [by apply core_reply | by eapply core_give_up].
  - by apply (Inv_task n ok tts).
  - destruct (ai_active (engine w)); [|done].
    apply (Inv_frame w); try done; unfold arm; cbn; destruct (negb (armed (engine w))); try done; by left.
  - destruct (listen (engine w)) as [l|] eqn:El; apply (Inv_frame w); try done; try (by right).
    + unfold holders, slot_ids in *. rewrite El in HC. cbn in *. rewrite <-Permutation_middle in HC.
      by eapply core_give_up.
    + unfold holders, slot_ids in *. by rewrite El in HC.
  - apply (Inv_frame w); try done; by left.
  - apply (Inv_frame w); try done; [by apply core_describe | by left].
  - apply (Inv_frame w); try done; [by apply core_clear | by left].
Qed.

Lemma Inv_run tts w evs : Inv w → Inv (wrun tts w evs).
Proof. revert w. induction evs as [|ev evs IH]; intros w Hw; [done|]. by apply IH, Inv_step. Qed.

Lemma Inv_new c ai voice : Inv (world_new c ai voice).
Proof.
  split; [|constructor|done]. split; cbn.
  - split; cbn; [constructor.. | lia].
  - constructor.
  - constructor.
  - by intros r ?%elem_of_nil.
  - by intros r ?%elem_of_nil.
Qed.

(** The tasks end: a step of a task that is neither asleep nor done brings it
    nearer its end. *)
Definition rank (pc : Pc) : nat :=
  match pc with
  | Finished => 0 | SpeakDeterrence => 1 | SetState _ _ _ => 2 | Sleeping _ true => 3
  | AskingAgain _ => 4 | SpeakReask _ _ => 5 | SetReask _ _ => 6 | Sleeping _ false => 7
  | SetListening _ => 8 | Asking _ => 9 | Greeting _ _ _ => 10
  end%nat.

Lemma advance_rank pc ok w :
  pc ≠ Finished → (∀ wake deter, pc = Sleeping wake deter → wake ≤ clock w) →
  (rank (advance pc ok w).2 < rank pc)%nat.
Proof.
  intros Hpc Hs. destruct pc as [i face stored|i|i|wake deter|i text|i text|i|i s then_deter| |]; cbn [advance].
  - repeat case_match; cbn; lia.
  - destruct (ask _ _ _ _) as [w' []]; cbn; lia.
  - cbn. lia.
  - replace (clock w <? wake) with false by (symmetry; apply Z.ltb_ge; by eapply Hs).
    destruct (expire_listen _ _) as [e [i|]]; destruct deter; cbn; try lia.
    case_match; cbn; lia.
  - cbn. lia.
  - cbn. lia.
  - destruct (ask _ _ _ _) as [w' []]; cbn; lia.
  - destruct then_deter; cbn; lia.
  - cbn. lia.
  - done.
Qed.

Definition finished (w : World) : Prop := Forall (λ pc, pc = Finished) (tasks w) ∧ loop w = Idle.

(** A visitor is greeted and asked at the time 1000: the window ends at 16000,
    its reaper wakes up at 19000. *)
Definition visitor_asked : list Ev :=
  [Tick 1000; Arm; Detected (lit "0") [mkDetection person]; Record_ None None true; Task 0 true; Task 0 true].
Definition answer : Ev := Heard true (lit "a parcel").
Definition answered_late : list Ev :=
  visitor_asked ++ [Task 0 true; Tick 17000; answer; Tick 19000; Task 0 true].
Definition disarmed_early : list Ev :=
  visitor_asked ++ [Task 0 true; Tick 2000; Disarm; Tick 19000; Task 0 true].
Definition answered_early : list Ev :=
  visitor_asked ++ [answer; Reply true; Task 0 true; Tick 19000; Task 0 true].
Definition answered_in_time : list Ev :=
  visitor_asked ++ [Task 0 true; Tick 5000; answer; Reply true; Tick 19000; Task 0 true].
Definition never_answered : list Ev :=
  visitor_asked ++ [Task 0 true; Tick 19000; Task 0 true; Task 0 true].
Definition run_default (evs : list Ev) : World := wrun true (world_new default_config true true) evs.

(** C6 Every visitor's record gets settled.  In every reachable interleaving of
    the watch loop, the tasks of the visitors, arming, settings and deletions,
    with any failing calls: at most one task, window or pending reply is
    responsible for an event; a record that is not in a final state has one
    that is responsible, or a fault of it was logged; a record with a reply is
    answered unless its state was overwritten; an open window has a task that
    takes it away when it wakes up, and every task ends.  So when all is done
    the slot is free and every record is final or has a logged fault.  The
    faults besides failing statements are real: an answer between the deadline
    and the reaper, a disarm, and an answer before the state is set each leave
    the record in the state listening for good. *)
Theorem visits_settle c ai voice tts evs :
  let w := wrun tts (world_new c ai voice) evs in
  NoDup (holders w)
  ∧ (∀ r, r ∈ rows (table w) → unsettled (state r) = true →
       id r ∈ holders w ∨ id r ∈ fault_id <$> faults w)
  ∧ (∀ r, r ∈ rows (table w) → is_Some (visitor_reply r) →
       state r = SAnswered ∨ Overwritten (id r) ∈ faults w)
  ∧ (∀ l, listen (engine w) = Some l → Exists (reaps w l) (tasks w))
  ∧ (∀ pc ok, pc ∈ tasks w → pc ≠ Finished → (∀ wake deter, pc = Sleeping wake deter → wake ≤ clock w) →
       (rank (advance pc ok w).2 < rank pc)%nat)
  ∧ (finished w → listen (engine w) = None
       ∧ ∀ r, r ∈ rows (table w) → unsettled (state r) = true → id r ∈ fault_id <$> faults w)
  ∧ Forall (λ evs, let w := run_default evs in
              tasks w = [Finished] ∧ loop w = Idle ∧ listen (engine w) = None
              ∧ map state (rows (table w)) = [SListening])
      [answered_late; disarmed_early; answered_early].
Proof.
  intros w. destruct (Inv_run tts _ evs (Inv_new c ai voice)) as [[C1 C2 C3 C4 C5] I2 I3].
  fold w in C1, C2, C3, C4, C5, I2, I3.
  split_and!; [done.. | | done | | |].
  - intros r Hr Hs. by apply C5.
  - intros pc ok _. apply advance_rank.
  - intros [Hf Hl].
    assert (listen (engine w) = None) as Hn.
    { destruct (listen (engine w)) as [l|] eqn:E; [|done]. specialize (I3 l eq_refl).
      apply Exists_exists in I3 as (pc & Hin & Hr). rewrite Forall_forall in Hf. by rewrite (Hf _ Hin) in Hr. }
    split; [done|]. intros r Hr Hs. destruct (C4 r Hr Hs) as [Hh|?]; [|done]. exfalso.
    unfold holders, slot_ids in Hh. rewrite Hn, Hl in Hh. cbn in Hh. rewrite app_nil_r in Hh.
    apply list_elem_of_omap in Hh as (pc & Hin & Hpc). rewrite Forall_forall in Hf. by rewrite (Hf _ Hin) in Hpc.
  - repeat constructor; by vm_compute.
Qed.

Lemma visits_settle_witness :
  listen (engine (run_default answered_in_time)) = None
  ∧ map state (rows (table (run_default answered_in_time))) = [SAnswered]
  ∧ map state (rows (table (run_default never_answered))) = [SSilent].
Proof.
  split; [|by vm_compute].
  refine (proj1 (proj1 (proj2 (proj2 (proj2 (proj2 (proj2
    (visits_settle default_config true true true answered_in_time)))))) _)).
  split; [|by vm_compute]. vm_compute. by constructor.
Defined.
End Watch.
