(* ===== verification/Tracking.v ===== *)
(** * Object tracking ([crates/streaming/src/ai/tracking.rs])

    The tracker that gives the detections of a camera stable ids: the filter,
    the greedy assignment on the overlap of boxes, the two stages of a frame
    and the life of a track, on binary32 arithmetic. *)
From Stdlib Require Import ZArith Lia List Bool String SpecFloat.
From stdpp Require Import base option list numbers gmap sorting.
From S2P Require Import Prelude Text F32.

(** ** The tracker *)
Module Tracker.
(** [bbox] is [x, y, w, h] in pixels. *)
Record Detection := mkDetection { d_label : bytes; d_confidence : f32; d_bbox : Z * Z * Z * Z }.

Record TrackerParams := mkParams {
  high_confidence : f32; max_age : Z; min_hits : Z; min_iou : f32 }.

Definition default_params : TrackerParams := mkParams (f32_lit 1 2) 10 2 (f32_lit 3 10).

Inductive TrackState := Tentative | Confirmed | Deleted.

#[export] Instance TrackState_eq_dec : EqDecision TrackState.
Proof. solve_decision. Defined.

(** A box as four numbers, and the filter: centre and size, velocity. *)
Record Box := mkBox { b0 : f32; b1 : f32; b2 : f32; b3 : f32 }.
Record KalmanState := mkKalman { pos : Box; vel0 : f32; vel1 : f32 }.

Record Track := mkTrack {
  id : Z; label : bytes; bbox : Box; confidence : f32; state : TrackState;
  hit_streak : Z; age : Z; time_since_update : Z; kf : KalmanState }.

Definition half (x : f32) : f32 := f32_div x (f32_of_Z 2).

Definition bbox_center (b : Box) : Box :=
  mkBox (f32_add (b0 b) (half (b2 b))) (f32_add (b1 b) (half (b3 b))) (b2 b) (b3 b).
Definition center_bbox (c : Box) : Box :=
  mkBox (f32_sub (b0 c) (half (b2 c))) (f32_sub (b1 c) (half (b3 c))) (b2 c) (b3 c).

Definition from_bbox (b : Box) : KalmanState := mkKalman (bbox_center b) f32_zero f32_zero.

Definition predict (k : KalmanState) : KalmanState :=
  mkKalman (mkBox (f32_add (b0 (pos k)) (vel0 k)) (f32_add (b1 (pos k)) (vel1 k)) (b2 (pos k)) (b3 (pos k)))
    (vel0 k) (vel1 k).

Definition alpha : f32 := f32_lit 6 10.
(** [alpha * o + (1.0 - alpha) * p] *)
Definition blend (o p : f32) : f32 :=
  f32_add (f32_mul alpha o) (f32_mul (f32_sub (f32_of_Z 1) alpha) p).
(** [0.5 * inst + 0.5 * v] *)
Definition blend_velocity (inst v : f32) : f32 :=
  f32_add (f32_mul (f32_lit 1 2) inst) (f32_mul (f32_lit 1 2) v).

Definition kalman_update (k : KalmanState) (observed : Box) : KalmanState :=
  let o := bbox_center observed in
  let prev := pos k in
  let p := mkBox (blend (b0 o) (b0 prev)) (blend (b1 o) (b1 prev))
             (blend (b2 o) (b2 prev)) (blend (b3 o) (b3 prev)) in
  mkKalman p (blend_velocity (f32_sub (b0 p) (b0 prev)) (vel0 k))
    (blend_velocity (f32_sub (b1 p) (b1 prev)) (vel1 k)).

Definition predicted_bbox (k : KalmanState) : Box := center_bbox (pos k).

Definition iou (a b : Box) : f32 :=
  let ix1 := f32_max (b0 a) (b0 b) in
  let iy1 := f32_max (b1 a) (b1 b) in
  let ix2 := f32_min (f32_add (b0 a) (b2 a)) (f32_add (b0 b) (b2 b)) in
  let iy2 := f32_min (f32_add (b1 a) (b3 a)) (f32_add (b1 b) (b3 b)) in
  let iw := f32_max (f32_sub ix2 ix1) f32_zero in
  let ih := f32_max (f32_sub iy2 iy1) f32_zero in
  let inter := f32_mul iw ih in
  let union := f32_sub (f32_add (f32_mul (b2 a) (b3 a)) (f32_mul (b2 b) (b3 b))) inter in
  if f32_le union f32_zero then f32_zero else f32_div inter union.

(** *** Greedy assignment *)

(** The candidate pairs of a row, and of all rows. *)
Fixpoint row_pairs (threshold : f32) (t d : nat) (row : list f32) : list (f32 * nat * nat) :=
  match row with
  | [] => []
  | c :: row => (if f32_le threshold c then [(c, t, d)] else []) ++ row_pairs threshold t (S d) row
  end.
Fixpoint all_pairs (threshold : f32) (t : nat) (costs : list (list f32)) : list (f32 * nat * nat) :=
  match costs with
  | [] => []
  | row :: costs => row_pairs threshold t 0 row ++ all_pairs threshold (S t) costs
  end.

(** The stable sort by descending cost. *)
Fixpoint insert_pair (x : f32 * nat * nat) (l : list (f32 * nat * nat)) : list (f32 * nat * nat) :=
  match l with
  | [] => [x]
  | y :: l => if f32_lt (y.1.1) (x.1.1) then x :: y :: l else y :: insert_pair x l
  end.
Definition sort_pairs (l : list (f32 * nat * nat)) : list (f32 * nat * nat) := fold_left (λ s x, insert_pair x s) l [].

(** The loop over the sorted pairs, with the used rows and columns. *)
Fixpoint assign_loop (used_t used_d : list nat) (l : list (f32 * nat * nat)) : list (nat * nat) :=
  match l with
  | [] => []
  | (_, t, d) :: l =>
      if negb (existsb (Nat.eqb t) used_t) && negb (existsb (Nat.eqb d) used_d)
      then (t, d) :: assign_loop (t :: used_t) (d :: used_d) l
      else assign_loop used_t used_d l
  end.

Definition greedy_assign (costs : list (list f32)) (threshold : f32) : list (nat * nat) :=
  assign_loop [] [] (sort_pairs (all_pairs threshold 0 costs)).

(** *** One frame *)
Definition f32_bbox (b : Z * Z * Z * Z) : Box :=
  let '(x, y, w, h) := b in mkBox (f32_of_Z x) (f32_of_Z y) (f32_of_Z w) (f32_of_Z h).

Record Tracker := mkTracker { params : TrackerParams; tracks : list Track; next_id : Z }.

Definition tracker_new (p : TrackerParams) : Tracker := mkTracker p [] 1.

Definition with_state (s : TrackState) (t : Track) : Track :=
  mkTrack (id t) (label t) (bbox t) (confidence t) s (hit_streak t) (age t) (time_since_update t) (kf t).

(** Prediction, and the counters of the frame. *)
Definition tick (t : Track) : Track :=
  mkTrack (id t) (label t) (bbox t) (confidence t) (state t) (hit_streak t)
    (wrap32 (age t + 1)) (wrap32 (time_since_update t + 1)) (predict (kf t)).

(** A track takes a detection. *)
Definition take_detection (p : TrackerParams) (d : Detection) (t : Track) : Track :=
  let k := kalman_update (kf t) (f32_bbox (d_bbox d)) in
  let hits := wrap32 (hit_streak t + 1) in
  mkTrack (id t) (d_label d) (center_bbox (pos k)) (d_confidence d)
    (if decide (state t = Tentative) then if min_hits p <=? hits then Confirmed else Tentative else state t)
    hits (age t) 0 k.

Definition live_track (t : Track) : bool := bool_decide (state t ≠ Deleted).

(** The indices of the elements with a property. *)
Fixpoint indices {A} (f : nat → A → bool) (i : nat) (l : list A) : list nat :=
  match l with
  | [] => []
  | a :: l => (if f i a then [i] else []) ++ indices f (S i) l
  end.

(** The body of the loop over the pairs. *)
Definition pair_step (p : TrackerParams) (ds : list Detection) (live det_idx : list nat)
    (s : list Track * list bool) (td : nat * nat) : list Track * list bool :=
  match live !! (td.1), det_idx !! (td.2) with
  | Some ti, Some di =>
      match ds !! di with
      | Some d => (alter (take_detection p d) ti s.1, <[di := true]> s.2)
      | None => s
      end
  | _, _ => s
  end.

(** One stage of the association: the tracks, and which detections are
    matched. *)
Definition stage (p : TrackerParams) (high : bool) (ds : list Detection) (s : list Track * list bool)
    : list Track * list bool :=
  let '(ts, matched) := s in
  let det_idx := indices (λ i d, negb (default false (matched !! i))
                            && eqb high (f32_le (high_confidence p) (d_confidence d))) 0 ds in
  match det_idx with
  | [] => (ts, matched)
  | _ =>
      let live := indices (λ _ t, live_track t) 0 ts in
      let costs := map (λ ti, map (λ di,
          match ts !! ti, ds !! di with
          | Some t, Some d => iou (predicted_bbox (kf t)) (f32_bbox (d_bbox d))
          | _, _ => f32_zero
          end) det_idx) live in
      fold_left (pair_step p ds live det_idx) (greedy_assign costs (min_iou p)) (ts, matched)
  end.

Definition lifecycle (p : TrackerParams) (t : Track) : Track :=
  if bool_decide (state t = Tentative) && (1 <? time_since_update t) then with_state Deleted t
  else if bool_decide (state t = Confirmed) && (max_age p <? time_since_update t) then with_state Deleted t
  else t.

Definition new_track (i : Z) (d : Detection) : Track :=
  let b := f32_bbox (d_bbox d) in
  mkTrack i (d_label d) b (d_confidence d) Tentative 1 1 0 (from_bbox b).

(** Tentative tracks for the detections that matched nothing. *)
Fixpoint spawn (i : Z) (ds : list Detection) (matched : list bool) : list Track * Z :=
  match ds, matched with
  | d :: ds, m :: matched =>
      if m : bool then spawn i ds matched
      else let '(ts, i') := spawn (wrap64 (i + 1)) ds matched in (new_track i d :: ts, i')
  | _, _ => ([], i)
  end.

Definition keep_track (p : TrackerParams) (t : Track) : bool :=
  negb (bool_decide (state t = Deleted)) || (time_since_update t <=? wrap32 (max_age p + 5)).

Definition shown (t : Track) : bool := live_track t && (time_since_update t =? 0).

Definition tracker_update (tr : Tracker) (ds : list Detection) : Tracker * list Track :=
  let p := params tr in
  let s := (map tick (tracks tr), replicate (length ds) false) in
  let '(ts, matched) := stage p false ds (stage p true ds s) in
  let ts := map (lifecycle p) ts in
  let '(new, i) := spawn (next_id tr) ds matched in
  let ts := List.filter (keep_track p) (ts ++ new) in
  (mkTracker p ts i, List.filter shown ts).

Definition confirmed (tr : Tracker) : list Track := List.filter (λ t, bool_decide (state t = Confirmed)) (tracks tr).

(** The trackers of the cameras. *)
Definition trackers_update (cam : bytes) (ds : list Detection) (m : gmap bytes Tracker)
    : gmap bytes Tracker * list Track :=
  let '(tr, out) := tracker_update (default (tracker_new default_params) (m !! cam)) ds in (<[cam := tr]> m, out).
Definition trackers_remove (cam : bytes) (m : gmap bytes Tracker) : gmap bytes Tracker := delete cam m.

(** *** The assignment *)
Definition cost (x : f32 * nat * nat) : f32 := x.1.1.
Definition rank_ok (x : f32 * nat * nat) : Prop := f32_is_nan (cost x) = false.
(** [x] may come before [y]. *)
Definition before (x y : f32 * nat * nat) : Prop := f32_lt (cost x) (cost y) = false.

Lemma row_pairs_spec threshold t d row x :
  x ∈ row_pairs threshold t d row ↔
  ∃ k c, row !! k = Some c ∧ f32_le threshold c = true ∧ x = (c, t, d + k)%nat.
Proof.
  revert d. induction row as [|c row IH]; intros d; cbn [row_pairs].
  - split; [by intros ?%elem_of_nil | intros (k & c & ? & _); by destruct k].
  - rewrite elem_of_app, IH. split.
    + intros [H|(k & c' & Hk & Hc & ->)].
      * destruct (f32_le threshold c) eqn:E; [|by apply elem_of_nil in H].
        apply list_elem_of_singleton in H as ->. exists 0%nat, c. by rewrite Nat.add_0_r.
      * exists (S k), c'. split_and!; [done..|]. f_equal. lia.
    + intros ([|k] & c' & Hk & Hc & ->); cbn in Hk.
      * injection Hk as ->. left. rewrite Hc, Nat.add_0_r. by apply list_elem_of_singleton.
      * right. exists k, c'. split_and!; [done..|]. f_equal. lia.
Qed.

Lemma all_pairs_spec threshold t costs x :
  x ∈ all_pairs threshold t costs ↔
  ∃ i k row c, costs !! i = Some row ∧ row !! k = Some c ∧ f32_le threshold c = true ∧ x = (c, t + i, k)%nat.
Proof.
  revert t. induction costs as [|row costs IH]; intros t; cbn [all_pairs].
  - split; [by intros ?%elem_of_nil | intros (i & k & row & c & ? & _); by destruct i].
  - rewrite elem_of_app, row_pairs_spec, IH. split.
    + intros [(k & c & Hk & Hc & ->)|(i & k & row' & c & Hi & Hk & Hc & ->)].
      * exists 0%nat, k, row, c. by rewrite Nat.add_0_r.
      * exists (S i), k, row', c. split_and!; [done..|]. do 2 f_equal. lia.
    + intros ([|i] & k & row' & c & Hi & Hk & Hc & ->); cbn in Hi.
      * injection Hi as ->. left. exists k, c. by rewrite Nat.add_0_r.
      * right. exists i, k, row', c. split_and!; [done..|]. do 2 f_equal. lia.
Qed.

Lemma insert_pair_perm x l : insert_pair x l ≡ₚ x :: l.
Proof.
  induction l as [|y l IH]; [done|]. cbn. destruct (f32_lt _ _); [done|]. rewrite IH. apply Permutation_swap.
Qed.

Lemma insert_pair_sorted x l :
  rank_ok x → Forall rank_ok l → StronglySorted before l → StronglySorted before (insert_pair x l).
Proof.
  intros Hx. induction l as [|y l IH]; intros Hl Hs; cbn [insert_pair].
  - by repeat constructor.
  - apply Forall_cons in Hl as [Hy Hl]. apply StronglySorted_cons in Hs as [Hys Hs].
    destruct (f32_lt y.1.1 x.1.1) eqn:E.
    + assert (before x y) as Hxy.
      { unfold before, cost. destruct (f32_lt x.1.1 y.1.1) eqn:E'; [|done]. exfalso.
        rewrite f32_lt_key in E, E' by done. unfold key_lt in *. lia. }
      apply StronglySorted_cons. split; [|by apply StronglySorted_cons].
      constructor; [done|]. rewrite Forall_forall in *. intros z Hz.
      apply (f32_not_lt_trans (cost x) (cost y) (cost z));
        [exact Hx | exact Hy | exact (Hl _ Hz) | exact Hxy | exact (Hys _ Hz)].
    + apply StronglySorted_cons. split; [|by apply IH].
      rewrite Forall_forall in *. intros z. rewrite insert_pair_perm. intros [->|Hz]%elem_of_cons; [done | auto].
Qed.

Lemma sort_pairs_spec l :
  Forall rank_ok l → sort_pairs l ≡ₚ l ∧ StronglySorted before (sort_pairs l).
Proof.
  unfold sort_pairs. intros Hl.
  assert (∀ s, Forall rank_ok s → StronglySorted before s →
    fold_left (λ s x, insert_pair x s) l s ≡ₚ l ++ s
    ∧ StronglySorted before (fold_left (λ s x, insert_pair x s) l s)) as H.
  { induction l as [|x l IH]; intros s Hs Hss; [done|]. apply Forall_cons in Hl as [Hx Hl]. cbn [fold_left].
    destruct (IH Hl (insert_pair x s)) as [H1 H2].
    - rewrite insert_pair_perm. by constructor.
    - by apply insert_pair_sorted.
    - split; [|done]. rewrite H1, insert_pair_perm. by rewrite <-Permutation_middle. }
  destruct (H [] ltac:(done) ltac:(constructor)) as [H1 H2]. by rewrite app_nil_r in H1.
Qed.

Lemma existsb_eqb x l : existsb (Nat.eqb x) l = false ↔ x ∉ l.
Proof.
  rewrite <-not_true_iff_false, existsb_exists. setoid_rewrite Nat.eqb_eq. setoid_rewrite list_elem_of_In.
  naive_solver.
Qed.

(** The chosen pairs: candidates, no row and no column twice, and a candidate
    that is not chosen shares a row or a column with one that comes before. *)
Lemma assign_loop_spec ut ud l :
  let out := assign_loop ut ud l in
  NoDup (out.*1) ∧ NoDup (out.*2)
  ∧ (∀ td, td ∈ out → td.1 ∉ ut ∧ td.2 ∉ ud ∧ ∃ c, (c, td.1, td.2) ∈ l)
  ∧ (StronglySorted before l → ∀ c t d, (c, t, d) ∈ l → t ∈ ut ∨ d ∈ ud ∨
       ∃ c' t' d', (c', t', d') ∈ l ∧ (t', d') ∈ out ∧ (t' = t ∨ d' = d)
                   ∧ (f32_lt c' c = false ∨ (c', t', d') = (c, t, d))).
Proof.
  revert ut ud. induction l as [|[[c t] d] l IH]; intros ut ud; cbn [assign_loop].
  - split_and!; try constructor; intros; by match goal with H : _ ∈ [] |- _ => apply elem_of_nil in H end.
  - destruct (negb (existsb (Nat.eqb t) ut) && negb (existsb (Nat.eqb d) ud)) eqn:E.
    + apply andb_true_iff in E as [Et%negb_true_iff%existsb_eqb Ed%negb_true_iff%existsb_eqb].
      destruct (IH (t :: ut) (d :: ud)) as (H1 & H2 & H3 & H4). cbn [fmap list_fmap fst snd].
      split_and!.
      * apply NoDup_cons. split; [|done]. intros ([t' d'] & -> & Hin)%list_elem_of_fmap.
        destruct (H3 _ Hin) as [Hn _]. set_solver.
      * apply NoDup_cons. split; [|done]. intros ([t' d'] & -> & Hin)%list_elem_of_fmap.
        destruct (H3 _ Hin) as (_ & Hn & _). set_solver.
      * intros td [->|Hin]%elem_of_cons; [cbn; split_and!; [done..|]; exists c; set_solver|].
        destruct (H3 _ Hin) as (? & ? & c' & ?). set_solver.
      * intros [Hb Hs]%StronglySorted_cons c' t' d' [[= -> -> ->]|Hin]%elem_of_cons.
        { right. right. exists c, t, d. split_and!; [set_solver | set_solver | by left | by right]. }
        rewrite Forall_forall in Hb. specialize (Hb _ Hin).
        destruct (H4 Hs c' t' d' Hin) as [Hu|[Hu|(c2 & t2 & d2 & ? & ? & ? & ?)]].
        { apply elem_of_cons in Hu as [->|?]; [|by left]. right. right. exists c, t, d.
          split_and!; [set_solver | set_solver | by left | by left]. }
        { apply elem_of_cons in Hu as [->|?]; [|by right; left]. right. right. exists c, t, d.
          split_and!; [set_solver | set_solver | by right | by left]. }
        right. right. exists c2, t2, d2. split_and!; [set_solver | set_solver | done | done].
    + destruct (IH ut ud) as (H1 & H2 & H3 & H4). split_and!; [done..| |].
      * intros td Hin. destruct (H3 _ Hin) as (? & ? & c' & ?). set_solver.
      * intros [Hb Hs]%StronglySorted_cons c' t' d' [[= -> -> ->]|Hin]%elem_of_cons.
        { apply andb_false_iff in E as [E|E]; apply negb_false_iff in E; [left | right; left];
            apply dec_stable; intros Hn%existsb_eqb; congruence. }
        destruct (H4 Hs c' t' d' Hin) as [?|[?|(c2 & t2 & d2 & ? & ? & ? & ?)]]; [auto..|].
        right. right. exists c2, t2, d2. set_solver.
Qed.

Lemma greedy_assign_spec costs threshold :
  let out := greedy_assign costs threshold in
  let cost_at t d := row ← costs !! t; row !! d in
  NoDup (out.*1) ∧ NoDup (out.*2)
  ∧ (∀ t d, (t, d) ∈ out → ∃ c, cost_at t d = Some c ∧ f32_le threshold c = true)
  ∧ (∀ t d c, cost_at t d = Some c → f32_le threshold c = true →
       ∃ t' d' c', (t', d') ∈ out ∧ (t' = t ∨ d' = d) ∧ cost_at t' d' = Some c' ∧ f32_lt c' c = false).
Proof.
  intros out cost_at. set (l := all_pairs threshold 0 costs).
  assert (∀ c t d, (c, t, d) ∈ l ↔ cost_at t d = Some c ∧ f32_le threshold c = true) as Hl.
  { intros c t d. unfold l, cost_at. rewrite all_pairs_spec. split.
    - intros (i & k & row & c' & Hi & Hk & Hc & [= -> -> ->]). cbn. by rewrite Hi.
    - intros [H Hc]. destruct (costs !! t) as [row|] eqn:E; [|done]. cbn in H. by exists t, d, row, c. }
  assert (Forall rank_ok l) as Hok.
  { apply Forall_forall. intros [[c t] d] [_ Hc]%Hl. by destruct (f32_le_not_nan _ _ Hc). }
  destruct (sort_pairs_spec l Hok) as [Hp Hs].
  destruct (assign_loop_spec [] [] (sort_pairs l)) as (H1 & H2 & H3 & H4). fold l in H1, H2, H3, H4.
  split_and!; [done..| |].
  - intros t d (_ & _ & c & Hc)%H3. rewrite Hp in Hc. apply Hl in Hc. eauto.
  - intros t d c Hcd Hc. destruct (H4 Hs c t d) as [Hn|[Hn|(c' & t' & d' & Hin & Ho & Htd & Hlt)]].
    + rewrite Hp. apply Hl. by split.
    + by apply elem_of_nil in Hn.
    + by apply elem_of_nil in Hn.
    + exists t', d', c'. split_and!; [done..| |].
      * rewrite Hp in Hin. apply Hl in Hin. apply Hin.
      * destruct Hlt as [?|[= -> -> ->]]; [done|].
        assert (rank_ok (c, t, d)) as Hr by (rewrite Forall_forall in Hok; apply Hok; rewrite Hp in Hin; done).
        unfold rank_ok, cost in Hr. cbn in Hr.
        apply not_true_iff_false. rewrite f32_lt_key by done. unfold key_lt. lia.
Qed.

(** *** Hits *)

(** Every detection of a frame is one hit of one track. *)
Fixpoint hits (ts : list Track) : Z :=
  match ts with [] => 0 | t :: ts => hit_streak t + hits ts end.
Fixpoint trues (l : list bool) : Z := match l with [] => 0 | b :: l => Z_of_bool b + trues l end.

Lemma hits_app l k : hits (l ++ k) = hits l + hits k.
Proof. induction l as [|t l IH]; cbn [app hits]; [done | rewrite IH; lia]. Qed.

Lemma hits_map f l : (∀ t, hit_streak (f t) = hit_streak t) → hits (map f l) = hits l.
Proof. intros Hf. induction l as [|t l IH]; cbn [map hits]; [done | by rewrite Hf, IH]. Qed.

Lemma hits_nonneg ts : Forall (λ t, 0 ≤ hit_streak t) ts → 0 ≤ hits ts.
Proof. induction 1; cbn [hits] in *; lia. Qed.

Lemma hits_alter f i ts t :
  ts !! i = Some t → hit_streak (f t) = hit_streak t + 1 → hits (alter f i ts) = hits ts + 1.
Proof.
  revert i. induction ts as [|u ts IH]; intros [|i] Hi Hf; [done..| |].
  - injection Hi as ->. change (alter f 0%nat (t :: ts)) with (f t :: ts). cbn [hits]. lia.
  - change (alter f (S i) (u :: ts)) with (u :: alter f i ts). cbn [hits]. rewrite (IH i Hi Hf). lia.
Qed.

Lemma hits_le ts i t : Forall (λ t, 0 ≤ hit_streak t) ts → ts !! i = Some t → hit_streak t ≤ hits ts.
Proof.
  intros Hn. revert i. induction Hn as [|u ts Hu Hn IH]; intros [|i] Hi; cbn in *; [done..| |].
  - injection Hi as ->. pose proof (hits_nonneg ts Hn). lia.
  - specialize (IH i Hi). lia.
Qed.

Lemma trues_insert m i : m !! i = Some false → trues (<[i := true]> m) = trues m + 1.
Proof.
  revert i. induction m as [|b m IH]; intros [|i] Hi; [done..| |].
  - injection Hi as ->. change (<[0%nat := true]> (false :: m)) with (true :: m). cbn [trues Z_of_bool]. lia.
  - change (<[S i := true]> (b :: m)) with (b :: <[i := true]> m). cbn [trues]. rewrite (IH i Hi). lia.
Qed.

Lemma indices_spec {A} (f : nat → A → bool) i l k :
  k ∈ indices f i l ↔ ∃ a, (i ≤ k)%nat ∧ l !! (k - i)%nat = Some a ∧ f k a = true.
Proof.
  revert i. induction l as [|a l IH]; intros i; cbn [indices].
  - split; [by intros ?%elem_of_nil | intros (a & _ & H & _); by destruct (k - i)%nat].
  - rewrite elem_of_app, IH. split.
    + intros [H|(b & Hi & Hl & Hf)].
      * destruct (f i a) eqn:E; [|by apply elem_of_nil in H]. apply list_elem_of_singleton in H as ->.
        exists a. by rewrite Nat.sub_diag.
      * exists b. replace (k - i)%nat with (S (k - S i)) by lia. split_and!; [lia | done..].
    + intros (b & Hi & Hl & Hf). destruct (decide (k = i)) as [->|Hk].
      * rewrite Nat.sub_diag in Hl. injection Hl as ->. left. rewrite Hf. by apply list_elem_of_singleton.
      * right. exists b. replace (k - i)%nat with (S (k - S i)) in Hl by lia. split_and!; [lia | done..].
Qed.

Lemma indices_NoDup {A} (f : nat → A → bool) i (l : list A) : NoDup (indices f i l).
Proof.
  revert i. induction l as [|a l IH]; intros i; cbn [indices]; [constructor|].
  apply NoDup_app. split_and!; [by destruct (f i a); repeat constructor; intros ?%elem_of_nil| |apply IH].
  intros k Hk (b & Hi & _)%indices_spec. destruct (f i a); [|by apply elem_of_nil in Hk].
  apply list_elem_of_singleton in Hk. lia.
Qed.

(** What the association leaves alone. *)
Definition same_tracks (ts ts' : list Track) : Prop :=
  Forall2 (λ t t', id t' = id t ∧ age t' = age t ∧ hit_streak t ≤ hit_streak t'
                   ∧ (state t = Deleted → t' = t) ∧ (state t ≠ Deleted → state t' ≠ Deleted)
                   ∧ (t' = t ∨ (time_since_update t' = 0 ∧ hit_streak t < hit_streak t'))) ts ts'.

Lemma same_tracks_refl ts : same_tracks ts ts.
Proof. unfold same_tracks. induction ts; constructor; [split_and!; auto; lia | done]. Qed.

Lemma same_tracks_trans a b c : same_tracks a b → same_tracks b c → same_tracks a c.
Proof.
  unfold same_tracks. intros H. revert c. induction H as [|t t' a b Ht _ IH]; intros c Hc;
    inversion Hc as [|? t'' ? c' Ht' Hc']; subst; constructor; [|by apply IH].
  destruct Ht as (I1 & A1 & H1 & D1 & L1 & T1), Ht' as (I2 & A2 & H2 & D2 & L2 & T2).
  split_and!; [congruence | congruence | lia | | auto |].
  - intros Hd. specialize (D1 Hd). subst t'. auto.
  - destruct T2 as [->|[? ?]]; [auto|]. right. split; [done|]. destruct T1 as [->|[? ?]]; lia.
Qed.

Lemma same_tracks_alter p d i ts t :
  ts !! i = Some t → state t ≠ Deleted → hit_streak t + 1 < 2 ^ 32 → 0 ≤ hit_streak t →
  same_tracks ts (alter (take_detection p d) i ts).
Proof.
  intros Hi Hs Hh H0. revert i Hi. induction ts as [|u ts IH]; intros [|i] Hi; [done..| |].
  - injection Hi as ->. constructor; [|apply same_tracks_refl]. cbn. unfold wrap32.
    rewrite Z.mod_small by lia. split_and!; auto; [lia | done | by repeat case_match; simplify_eq | right; split; [done | lia]].
  - change (alter _ (S i) (u :: ts)) with (u :: alter (take_detection p d) i ts).
    constructor; [split_and!; auto; lia | by apply IH].
Qed.

Lemma trues_le m : 0 ≤ trues m ≤ zlen m.
Proof. induction m as [|[] m IH]; rewrite ?zlen_cons; cbn [trues Z_of_bool]; [done | lia | lia]. Qed.

Lemma same_tracks_nonneg ts ts' :
  same_tracks ts ts' → Forall (λ t, 0 ≤ hit_streak t) ts → Forall (λ t, 0 ≤ hit_streak t) ts'.
Proof.
  induction 1 as [|t t' ts ts' Ht _ IH]; intros H; [done|]. apply Forall_cons in H as [H1 H2].
  destruct Ht as (_ & _ & H3 & _). constructor; [lia | auto].
Qed.

Lemma pair_fold p ds live det_idx pairs s :
  NoDup det_idx → NoDup (pairs.*2) →
  (∀ t d di, (t, d) ∈ pairs → det_idx !! d = Some di → s.2 !! di = Some false) →
  (∀ k ti, live !! k = Some ti → ∃ t, s.1 !! ti = Some t ∧ state t ≠ Deleted) →
  Forall (λ t, 0 ≤ hit_streak t) s.1 → hits s.1 - trues s.2 + zlen s.2 < 2 ^ 32 →
  let s' := fold_left (pair_step p ds live det_idx) pairs s in
  same_tracks s.1 s'.1 ∧ hits s'.1 - trues s'.2 = hits s.1 - trues s.2 ∧ length s'.2 = length s.2.
Proof.
  intros Hdet. revert s. induction pairs as [|[t d] pairs IH]; intros s Hnd Hf Hlive H0 Hw; cbn [fold_left].
  - split_and!; [apply same_tracks_refl | done..].
  - cbn [fmap list_fmap snd] in Hnd. apply NoDup_cons in Hnd as [Hd Hnd].
    assert (∀ s1, s1 = s → let s' := fold_left (pair_step p ds live det_idx) pairs s1 in
      same_tracks s.1 s'.1 ∧ hits s'.1 - trues s'.2 = hits s.1 - trues s.2 ∧ length s'.2 = length s.2) as Hsame.
    { intros s1 ->. apply IH; try done. intros t2 d2 di Hin Hd2. by apply (Hf t2 d2); [right|]. }
    destruct (live !! t) as [ti|] eqn:Et; [|apply Hsame; unfold pair_step; cbn; by rewrite Et].
    destruct (det_idx !! d) as [di|] eqn:Ed; [|apply Hsame; unfold pair_step; cbn; by rewrite Et, Ed].
    destruct (ds !! di) as [det|] eqn:Edet; [|apply Hsame; unfold pair_step; cbn; by rewrite Et, Ed, Edet].
    clear Hsame.
    assert (pair_step p ds live det_idx s (t, d) = (alter (take_detection p det) ti s.1, <[di := true]> s.2)) as ->
      by (unfold pair_step; cbn; by rewrite Et, Ed, Edet).
    destruct (Hlive _ _ Et) as (tr & Htr & Hst).
    assert (s.2 !! di = Some false) as Hdi by (by apply (Hf t d); [left|]).
    pose proof (trues_insert _ _ Hdi) as Htrue.
    pose proof (trues_le (<[di := true]> s.2)) as Hle.
    assert (zlen (<[di := true]> s.2) = zlen s.2) as Hlen by (unfold zlen; by rewrite length_insert).
    pose proof (hits_le _ _ _ H0 Htr) as Hh.
    assert (0 ≤ hit_streak tr) as Htr0 by (by eapply (Forall_lookup_1 _ _ _ _ H0)).
    assert (hit_streak tr + 1 < 2 ^ 32) as Hw1 by lia.
    pose proof (same_tracks_alter p det ti s.1 tr Htr Hst Hw1 Htr0) as Hsame.
    assert (hits (alter (take_detection p det) ti s.1) = hits s.1 + 1) as Hhits.
    { apply (hits_alter _ _ _ tr Htr). cbn. unfold wrap32. by rewrite Z.mod_small by lia. }
    destruct (IH (alter (take_detection p det) ti s.1, <[di := true]> s.2)) as (R1 & R2 & R3); cbn [fst snd] in *.
    + done.
    + intros t2 d2 di2 Hin Hd2. assert (d2 ≠ d) as Hne.
      { intros ->. apply Hd. apply list_elem_of_fmap. by exists (t2, d). }
      rewrite list_lookup_insert_ne; [by apply (Hf t2 d2); [right|]|].
      intros ->. apply Hne. by eapply (NoDup_lookup det_idx).
    + intros k ti2 Hk. destruct (Hlive _ _ Hk) as (t2 & Ht2 & Hs2).
      destruct (decide (ti2 = ti)) as [->|Hne].
      * exists (take_detection p det t2). rewrite list_lookup_alter_eq, Ht2. split; [done|].
        cbn. repeat case_match; simplify_eq; done.
      * exists t2. by rewrite list_lookup_alter_ne.
    + by eapply same_tracks_nonneg.
    + rewrite Hhits, Htrue, Hlen. lia.
    + split_and!; [by eapply same_tracks_trans | lia | by rewrite R3, length_insert].
Qed.

Lemma stage_ok p high ds ts matched :
  length matched = length ds → Forall (λ t, 0 ≤ hit_streak t) ts →
  hits ts - trues matched + zlen ds < 2 ^ 32 →
  let '(ts', matched') := stage p high ds (ts, matched) in
  same_tracks ts ts' ∧ hits ts' - trues matched' = hits ts - trues matched ∧ length matched' = length ds.
Proof.
  intros Hlen H0 Hw. unfold stage. set (det_idx := indices _ 0 ds). set (live := indices _ 0 ts).
  set (pairs := greedy_assign _ _).
  assert (let s' := fold_left (pair_step p ds live det_idx) pairs (ts, matched) in
    same_tracks ts s'.1 ∧ hits s'.1 - trues s'.2 = hits ts - trues matched ∧ length s'.2 = length matched) as H.
  { apply (pair_fold p ds live det_idx pairs (ts, matched)); cbn [fst snd]; try done.
    - apply indices_NoDup.
    - apply greedy_assign_spec.
    - intros t d di Hin Hd. apply list_elem_of_lookup_2 in Hd. apply indices_spec in Hd as (det & _ & Hl & Hm).
      rewrite Nat.sub_0_r in Hl. apply andb_true_iff in Hm as [Hm _].
      destruct (lookup_lt_is_Some_2 matched di) as [b Hb].
      { rewrite Hlen. by eapply lookup_lt_Some. }
      rewrite Hb in Hm |- *. by destruct b.
    - intros k ti Hk. apply list_elem_of_lookup_2 in Hk. apply indices_spec in Hk as (t & _ & Ht & Hs).
      rewrite Nat.sub_0_r in Ht. exists t. split; [done|]. by apply bool_decide_eq_true in Hs.
    - unfold zlen in *. by rewrite Hlen. }
  clearbody pairs. clearbody det_idx live. cbv zeta in H. rewrite Hlen in H.
  destruct det_idx as [|i0 det_idx']; [split_and!; [apply same_tracks_refl | done | done]|].
  by destruct (fold_left _ _ _) as [ts' matched'].
Qed.

(** *** A frame *)
Record tracker_ok (tr : Tracker) : Prop := {
  ids_sorted : StronglySorted Z.lt (id <$> tracks tr);
  ids_given : Forall (λ i, i < next_id tr) (id <$> tracks tr);
  hits_ok : Forall (λ t, 0 ≤ hit_streak t) (tracks tr) }.

(** A track of the last frame: it took a detection or was predicted only, and
    then it ends if it has been missing for too long; a deleted one stays so. *)
Definition evolves (p : TrackerParams) (t t' : Track) : Prop :=
  id t' = id t
  ∧ (t' = lifecycle p (tick t)
     ∨ (state t ≠ Deleted ∧ state t' ≠ Deleted ∧ time_since_update t' = 0 ∧ hit_streak t < hit_streak t')).

Lemma lifecycle_id p t : id (lifecycle p t) = id t ∧ hit_streak (lifecycle p t) = hit_streak t.
Proof. unfold lifecycle. repeat case_match; done. Qed.

Lemma same_tracks_ids ts ts' : same_tracks ts ts' → id <$> ts' = id <$> ts.
Proof. induction 1 as [|t t' ts ts' (Hi & _) _ IH]; [done|]. cbn. by rewrite Hi, IH. Qed.

Lemma trues_replicate n : trues (replicate n false) = 0.
Proof. by induction n. Qed.

Lemma spawn_spec i ds matched :
  length matched = length ds → 0 ≤ i → i + zlen ds < 2 ^ 64 →
  let '(new, i') := spawn i ds matched in
  id <$> new = seqZ i (i' - i) ∧ i' - i = zlen ds - trues matched
  ∧ hits new = i' - i ∧ Forall (λ t, state t = Tentative ∧ hit_streak t = 1) new.
Proof.
  revert i matched. induction ds as [|d ds IH]; intros i [|m matched] Hl Hi Hw; try discriminate Hl; cbn [spawn].
  - rewrite Z.sub_diag. by split_and!.
  - rewrite zlen_cons in *. injection Hl as Hl. pose proof (zlen_nonneg ds). destruct m; cbn [trues Z_of_bool].
    + specialize (IH i matched Hl Hi ltac:(lia)). destruct (spawn i ds matched) as [new i'].
      destruct IH as (H1 & H2 & H3 & H4). split_and!; [done | lia | lia | done].
    + unfold wrap64. rewrite Z.mod_small by lia.
      specialize (IH (i + 1) matched Hl ltac:(lia) ltac:(lia)). destruct (spawn (i + 1) ds matched) as [new i'].
      destruct IH as (H1 & H2 & H3 & H4). pose proof (trues_le matched).
      assert (zlen matched = zlen ds) by (unfold zlen; by rewrite Hl).
      split_and!; [|lia | cbn; lia | by constructor].
      cbn [fmap list_fmap]. rewrite H1, (seqZ_cons i) by lia. cbn. do 2 f_equal; lia.
Qed.

(** The tracks of a frame before old ones are dropped. *)
Lemma tracker_update_spec tr ds :
  tracker_ok tr → 0 ≤ max_age (params tr) → 0 ≤ next_id tr →
  next_id tr + zlen ds < 2 ^ 64 → hits (tracks tr) + zlen ds < 2 ^ 32 →
  let '(tr', out) := tracker_update tr ds in
  ∃ all new,
    tracks tr' = List.filter (keep_track (params tr)) (all ++ new)
    ∧ out = List.filter shown (tracks tr')
    ∧ Forall2 (evolves (params tr)) (tracks tr) all
    ∧ id <$> new = seqZ (next_id tr) (next_id tr' - next_id tr)
    ∧ next_id tr ≤ next_id tr' ≤ next_id tr + zlen ds
    ∧ Forall (λ t, state t = Tentative ∧ hit_streak t = 1) new
    ∧ hits (all ++ new) = hits (tracks tr) + zlen ds
    ∧ Forall (λ t, 0 ≤ hit_streak t) all.
Proof.
  intros [_ _ H0] Hmax Hnext Hn Hh. unfold tracker_update. set (p := params tr) in *.
  assert (hits (map tick (tracks tr)) = hits (tracks tr)) as Ht by (by apply hits_map).
  assert (Forall (λ t, 0 ≤ hit_streak t) (map tick (tracks tr))) as H0' by (by apply Forall_map).
  pose proof (stage_ok p true ds (map tick (tracks tr)) (replicate (length ds) false)
    (length_replicate _ _) H0') as S1.
  rewrite trues_replicate, Ht in S1. specialize (S1 ltac:(lia)).
  destruct (stage p true ds _) as [ts1 m1]. destruct S1 as (Sa & Sb & Sc).
  pose proof (same_tracks_nonneg _ _ Sa H0') as H01.
  pose proof (stage_ok p false ds ts1 m1 Sc H01 ltac:(lia)) as S2.
  destruct (stage p false ds (ts1, m1)) as [ts2 m2]. destruct S2 as (Sd & Se & Sf).
  pose proof (same_tracks_trans _ _ _ Sa Sd) as Hsame.
  pose proof (spawn_spec (next_id tr) ds m2 Sf Hnext Hn) as Hsp.
  destruct (spawn (next_id tr) ds m2) as [new i']. destruct Hsp as (P1 & P2 & P3 & P4).
  pose proof (trues_le m2) as Hm. assert (zlen m2 = zlen ds) as Hml by (unfold zlen; by rewrite Sf).
  exists (map (lifecycle p) ts2), new. cbn [tracks next_id]. split_and!; try done.
  - assert (∀ t2, lifecycle p t2 = t2 ∨ time_since_update t2 ≠ 0) as Hl.
    { intros t2. destruct (decide (time_since_update t2 = 0)) as [E|]; [|by right]. left. unfold lifecycle.
      rewrite E. replace (max_age p <? 0) with false by (symmetry; apply Z.ltb_ge; lia).
      by rewrite !andb_false_r. }
    clear -Hsame Hl. unfold same_tracks in Hsame. remember (map tick (tracks tr)) as l eqn:El.
    revert El. generalize (tracks tr). induction Hsame as [|t t2 l ts2 Ht _ IH]; intros [|t0 l0] [=]; [constructor|].
    subst. constructor; [|by apply IH]. destruct Ht as (I & _ & _ & D & L & [->|[T H]]).
    + split; [by rewrite (proj1 (lifecycle_id p _)) | by left].
    + destruct (Hl t2) as [->|?]; [|done]. split; [done|]. right.
      assert (state t0 ≠ Deleted) as Hs.
      { intros Hd. rewrite (D Hd) in H. cbn in H. lia. }
      split_and!; [done | by apply L | done | done].
  - lia.
  - lia.
  - rewrite hits_app, hits_map by (intros; apply lifecycle_id). lia.
  - apply Forall_map. eapply Forall_impl; [by eapply same_tracks_nonneg|]. intros t. cbn.
    by rewrite (proj2 (lifecycle_id p t)).
Qed.

Lemma sorted_filter {A} (R : A → A → Prop) (g : A → bool) l :
  StronglySorted R l → StronglySorted R (List.filter g l).
Proof.
  induction 1 as [|a l Hs IH Hf]; cbn; [constructor|]. destruct (g a); [|done].
  constructor; [done|]. rewrite Forall_forall in *. intros x Hx%list_elem_of_In%filter_In.
  apply Hf, list_elem_of_In, Hx.
Qed.

Lemma sorted_map {A B} (R : B → B → Prop) (f : A → B) l :
  StronglySorted R (f <$> l) ↔ StronglySorted (λ a b, R (f a) (f b)) l.
Proof.
  induction l as [|a l IH]; cbn; [split; constructor|]. rewrite !StronglySorted_cons, IH, Forall_fmap. done.
Qed.

Lemma hits_filter g ts : Forall (λ t, 0 ≤ hit_streak t) ts → hits (List.filter g ts) ≤ hits ts.
Proof. induction 1 as [|t ts Ht _ IH]; cbn in *; [done|]. destruct (g t); cbn [hits]; lia. Qed.

Lemma Forall_filter_bool {A} (P : A → Prop) g l : Forall P l → Forall P (List.filter g l).
Proof. rewrite !Forall_forall. intros H x [Hx _]%list_elem_of_In%filter_In. by apply H, list_elem_of_In. Qed.

Lemma evolves_ids p ts ts' : Forall2 (evolves p) ts ts' → id <$> ts' = id <$> ts.
Proof. induction 1 as [|t t' ts ts' [Hi _] _ IH]; [done|]. cbn. by rewrite Hi, IH. Qed.

Lemma seqZ_sorted a n : StronglySorted Z.lt (seqZ a n).
Proof.
  destruct (Z.le_gt_cases n 0) as [Hn|Hn]; [by rewrite seqZ_nil by lia; constructor|].
  rewrite <-(Z2Nat.id n) by lia. generalize (Z.to_nat n) as k. clear. intros k. revert a.
  induction k as [|k IH]; intros a; [by rewrite seqZ_nil by lia; constructor|].
  rewrite seqZ_cons by lia. replace (Z.pred (Z.of_nat (S k))) with (Z.of_nat k) by lia.
  constructor; [apply IH|]. apply Forall_forall. intros x Hx%elem_of_seqZ. lia.
Qed.

Lemma sorted_app_lt l k m :
  StronglySorted Z.lt l → StronglySorted Z.lt k → Forall (λ x, x < m) l → Forall (λ x, m ≤ x) k →
  StronglySorted Z.lt (l ++ k).
Proof.
  intros Hl Hk Hlm Hkm. induction Hl as [|x l Hs IH Hf]; [done|]. apply Forall_cons in Hlm as [Hx Hlm].
  cbn. constructor; [by apply IH|]. apply Forall_app. split; [done|].
  eapply Forall_impl; [exact Hkm|]. cbn. lia.
Qed.

(** One frame, as the claim states it. *)
Definition frame_spec (tr : Tracker) (ds : list Detection) (tr' : Tracker) (out : list Track) : Prop :=
  ∃ all new,
    tracks tr' = List.filter (keep_track (params tr)) (all ++ new)
    ∧ out = List.filter shown (tracks tr')
    ∧ Forall2 (evolves (params tr)) (tracks tr) all
    ∧ id <$> new = seqZ (next_id tr) (next_id tr' - next_id tr)
    ∧ Forall (λ t, state t = Tentative ∧ hit_streak t = 1) new
    ∧ hits (all ++ new) = hits (tracks tr) + zlen ds.

(** What holds of a tracker that was fed [n] detections. *)
Record fed (n : Z) (tr : Tracker) : Prop := {
  fed_ok : tracker_ok tr;
  fed_hits : hits (tracks tr) ≤ n;
  fed_next : 1 ≤ next_id tr ≤ 1 + n }.

Lemma fed_new p : fed 0 (tracker_new p).
Proof. split; [split; constructor | done | cbn; lia]. Qed.

Lemma tracker_update_params tr ds : params (tracker_update tr ds).1 = params tr.
Proof. unfold tracker_update. by repeat case_match. Qed.

Lemma fed_update n tr ds :
  fed n tr → 0 ≤ max_age (params tr) → n + zlen ds < 2 ^ 32 →
  let '(tr', out) := tracker_update tr ds in fed (n + zlen ds) tr' ∧ frame_spec tr ds tr' out.
Proof.
  intros [Hok Hh Hn] Hm Hb. pose proof (zlen_nonneg ds).
  pose proof (tracker_update_spec tr ds Hok Hm ltac:(lia) ltac:(lia) ltac:(lia)) as S.
  destruct (tracker_update tr ds) as [tr' out].
  destruct S as (all & new & Ht & Ho & Hev & Hnew & Hle & Htent & Hhits & Hnn).
  assert (Forall (λ t, 0 ≤ hit_streak t) (all ++ new)) as Hpos.
  { apply Forall_app. split; [done|]. eapply Forall_impl; [exact Htent|]. cbn. intros t [_ ->]. lia. }
  pose proof (hits_filter (keep_track (params tr)) _ Hpos) as Hf.
  split; [|by exists all, new].
  assert (id <$> all ++ new = (id <$> tracks tr) ++ seqZ (next_id tr) (next_id tr' - next_id tr)) as Hids
    by (by rewrite fmap_app, (evolves_ids _ _ _ Hev), Hnew).
  destruct Hok as [Hs Hg _].
  assert (Forall (λ i, i < next_id tr') (id <$> all ++ new)) as Hlt.
  { rewrite Hids. apply Forall_app. split.
    - eapply Forall_impl; [exact Hg|]. cbn. lia.
    - apply Forall_forall. intros x Hx%elem_of_seqZ. lia. }
  split; [split| |]; rewrite ?Ht.
  - apply sorted_map, sorted_filter, sorted_map. rewrite Hids.
    eapply sorted_app_lt; [done | apply seqZ_sorted | exact Hg |].
    apply Forall_forall. intros x Hx%elem_of_seqZ. lia.
  - apply Forall_fmap, Forall_filter_bool, Forall_fmap. done.
  - by apply Forall_filter_bool.
  - lia.
  - lia.
Qed.

(** A run over the detections of successive frames. *)
Definition run (p : TrackerParams) (frames : list (list Detection)) : Tracker :=
  fold_left (λ tr ds, (tracker_update tr ds).1) frames (tracker_new p).

Definition total (frames : list (list Detection)) : Z := zlen (concat frames).

Lemma total_snoc frames ds : total (frames ++ [ds]) = total frames + zlen ds.
Proof. unfold total. by rewrite concat_app, zlen_app; cbn; rewrite app_nil_r. Qed.

Lemma tracker_run_snoc p frames ds : run p (frames ++ [ds]) = (tracker_update (run p frames) ds).1.
Proof. unfold run. by rewrite fold_left_app. Qed.

Lemma run_fed p frames :
  0 ≤ max_age p → total frames < 2 ^ 32 → fed (total frames) (run p frames) ∧ params (run p frames) = p.
Proof.
  intros Hm. induction frames as [|ds frames IH] using rev_ind; intros Hb; [split; [apply fed_new | done]|].
  rewrite total_snoc in *. rewrite tracker_run_snoc. pose proof (zlen_nonneg ds).
  destruct (IH ltac:(lia)) as [Hf Hp]. rewrite tracker_update_params, Hp. split; [|done].
  pose proof (fed_update _ _ ds Hf ltac:(by rewrite Hp) Hb) as Hu.
  destruct (tracker_update (run p frames) ds) as [tr' out]. apply Hu.
Qed.

(** C28 The frames of a tracker, over every run of fewer than 2^32
    detections. Before each frame the ids are distinct, in order and below
    the next one. The frame keeps every track under its id: a track takes a
    detection, its missing counter cleared, or it is predicted and it ends when
    it is missing for longer than its state allows, and a deleted track takes
    no detection and stays deleted. Every detection is one hit of one track:
    those no track took become tentative tracks under fresh consecutive ids.
    What leaves the list is deleted and past its grace period, and what is
    returned is what is live and was matched in this frame. *)
Theorem tracker_frames p frames ds :
  0 ≤ max_age p → total (frames ++ [ds]) < 2 ^ 32 →
  let tr := run p frames in
  let '(tr', out) := tracker_update tr ds in
  tracker_ok tr ∧ run p (frames ++ [ds]) = tr' ∧ tracker_ok tr' ∧ frame_spec tr ds tr' out.
Proof.
  intros Hm Hb. rewrite total_snoc in Hb. pose proof (zlen_nonneg ds).
  destruct (run_fed p frames Hm ltac:(lia)) as [Hf Hp].
  pose proof (fed_update _ _ ds Hf ltac:(by rewrite Hp) Hb) as Hu. cbv zeta.
  rewrite tracker_run_snoc. destruct (tracker_update (run p frames) ds) as [tr' out].
  destruct Hu as [Hf' Hs]. split_and!; [apply Hf | done | apply Hf' | done].
Qed.

(** At most one candidate in each row and in each column. *)
Definition sparse (costs : list (list f32)) (threshold : f32) : Prop :=
  ∀ t d t' d' row row' c c',
    costs !! t = Some row → row !! d = Some c → f32_le threshold c = true →
    costs !! t' = Some row' → row' !! d' = Some c' → f32_le threshold c' = true →
    t = t' ∨ d = d' → t = t' ∧ d = d'.

(** The greedy assignment, with costs of any kind, NaN among them. It
    pairs no track and no detection twice, only at or above the threshold,
    and a candidate it leaves out shares its track or its detection with a
    chosen pair of no smaller cost. When no two candidates compete it chooses
    all of them. *)
Theorem greedy_association costs threshold :
  let out := greedy_assign costs threshold in
  let cost_at t d := row ← costs !! t; row !! d in
  NoDup (out.*1) ∧ NoDup (out.*2)
  ∧ (∀ t d, (t, d) ∈ out → ∃ c, cost_at t d = Some c ∧ f32_le threshold c = true)
  ∧ (∀ t d c, cost_at t d = Some c → f32_le threshold c = true →
       ∃ t' d' c', (t', d') ∈ out ∧ (t' = t ∨ d' = d) ∧ cost_at t' d' = Some c' ∧ f32_lt c' c = false)
  ∧ (sparse costs threshold → ∀ t d,
       (t, d) ∈ out ↔ ∃ c, cost_at t d = Some c ∧ f32_le threshold c = true).
Proof.
  cbv zeta. destruct (greedy_assign_spec costs threshold) as (H1 & H2 & H3 & H4).
  split_and!; [done..|]. intros Hs t d. split; [apply H3|]. intros (c & Hc & Hle).
  destruct (H4 _ _ _ Hc Hle) as (t' & d' & c' & Hin & Htd & _).
  destruct (H3 _ _ Hin) as (c2 & Hc2 & Hle2).
  apply bind_Some in Hc as (row & Hr & Hd), Hc2 as (row' & Hr' & Hd').
  by destruct (Hs t' d' t d row' row c2 c) as [-> ->].
Qed.

(** *** A run

    A person at one place, with a gap of one frame: the tentative track
    survives the miss, the streak is not reset, and the track is confirmed. *)
Definition person (c : f32) : Detection := mkDetection (bytes_of_string "person") c (100, 100, 40, 80).
Definition strong : Detection := person (f32_lit 9 10).
Definition weak : Detection := person (f32_lit 4 10).

Lemma tracker_frames_witness :
  (let '(tr', out) := tracker_update (run default_params [[strong]; []]) [strong] in
   tracker_ok (run default_params [[strong]; []])
   ∧ run default_params ([[strong]; []] ++ [[strong]]) = tr' ∧ tracker_ok tr'
   ∧ frame_spec (run default_params [[strong]; []]) [strong] tr' out)
  ∧ map (λ t, (id t, state t, hit_streak t)) (tracks (run default_params [[strong]; []])) = [(1, Tentative, 1)]
  ∧ map (λ t, (id t, state t, hit_streak t)) (tracks (run default_params [[strong]; []; [strong]]))
    = [(1, Confirmed, 2)].
Proof.
  split; [|split; vm_compute; reflexivity].
  apply (tracker_frames default_params [[strong]; []] [strong]); [apply Z.leb_le; reflexivity | reflexivity].
Defined.

(** A track that took a strong detection takes a weak one in the same frame,
    and a tentative track is returned. *)
Example two_hits_in_a_frame :
  map (λ t, (id t, state t, hit_streak t, confidence t)) (run default_params [[strong]; [strong; weak]]).(tracks)
  = [(1, Confirmed, 3, f32_lit 4 10)].
Proof. vm_compute. reflexivity. Qed.

Example tentative_returned :
  map (λ t, (id t, state t)) (tracker_update (tracker_new default_params) [weak]).2 = [(1, Tentative)].
Proof. vm_compute. reflexivity. Qed.
End Tracker.
