(* ===== verification/Zones.v ===== *)
(** * Zones ([crates/streaming/src/ai/zones.rs],
    [src/runtime/zone_bridge.rs], [crates/web/src/zones.rs])

    The geometry of polygons and tripwires on binary32, the engine that turns
    the tracks of a frame into zone events, the bridge that keeps one engine
    for each camera, and the editing of the zones. *)
From Stdlib Require Import ZArith Lia List Bool String SpecFloat.
From stdpp Require Import base option list numbers gmap sorting.
From S2P Require Import Prelude Text F32 Tracking.

(** ** Geometry *)
Module Geometry.
Definition point : Type := f32 * f32.

Definition f32_gt (a b : f32) : bool := f32_lt b a.

(** The body of the loop over the edges [(j, i)] of the polygon. *)
Definition edge_crossed (pt pi pj : point) : bool :=
  xorb (f32_gt pi.2 pt.2) (f32_gt pj.2 pt.2)
  && f32_lt pt.1 (f32_add (f32_div (f32_mul (f32_sub pj.1 pi.1) (f32_sub pt.2 pi.2)) (f32_sub pj.2 pi.2)) pi.1).

Fixpoint polygon_loop (pt pj : point) (inside : bool) (poly : list point) : bool :=
  match poly with
  | [] => inside
  | pi :: poly => polygon_loop pt pi (if edge_crossed pt pi pj then negb inside else inside) poly
  end.

Definition point_in_polygon (pt : point) (poly : list point) : bool :=
  if (length poly <? 3)%nat then false
  else match last poly with Some pj => polygon_loop pt pj false poly | None => false end.

Definition EPS : f32 := f32_lit 1 1000000.

Definition orient (p q r : point) : f32 :=
  f32_sub (f32_mul (f32_sub q.1 p.1) (f32_sub r.2 p.2)) (f32_mul (f32_sub q.2 p.2) (f32_sub r.1 p.1)).
Definition sign (v : f32) : Z := if f32_gt v EPS then 1 else if f32_lt v (f32_neg EPS) then -1 else 0.
Definition on_segment (p q r : point) : bool :=
  let min_x := f32_sub (f32_min p.1 r.1) EPS in
  let max_x := f32_add (f32_max p.1 r.1) EPS in
  let min_y := f32_sub (f32_min p.2 r.2) EPS in
  let max_y := f32_add (f32_max p.2 r.2) EPS in
  f32_le min_x q.1 && f32_le q.1 max_x && f32_le min_y q.2 && f32_le q.2 max_y.

Definition segments_intersect (a b c d : point) : bool :=
  let o1 := sign (orient a b c) in
  let o2 := sign (orient a b d) in
  let o3 := sign (orient c d a) in
  let o4 := sign (orient c d b) in
  if negb (o1 =? o2) && negb (o3 =? o4) && negb ((o1 =? 0) && (o2 =? 0)) then true
  else if (o1 =? 0) && on_segment a c b then true
  else if (o2 =? 0) && on_segment a d b then true
  else if (o3 =? 0) && on_segment c a d then true
  else if (o4 =? 0) && on_segment c b d then true
  else false.

Definition side_of (p c d : point) : f32 :=
  f32_sub (f32_mul (f32_sub d.1 c.1) (f32_sub p.2 c.2)) (f32_mul (f32_sub d.2 c.2) (f32_sub p.1 c.1)).

Definition pt (x y : Z) : point := (f32_of_Z x, f32_of_Z y).

(** A concave polygon: in the two arms of the L, and not in the notch. *)
Example concave :
  let l := [pt 0 0; pt 100 0; pt 100 50; pt 50 50; pt 50 100; pt 0 100] in
  map (λ p, point_in_polygon p l) [pt 25 25; pt 75 25; pt 25 75; pt 75 75] = [true; true; true; false].
Proof. vm_compute. reflexivity. Qed.

(** A proper crossing, a touch, and collinear segments apart. *)
Example intersections :
  [segments_intersect (pt 0 0) (pt 10 10) (pt 0 10) (pt 10 0); segments_intersect (pt 0 0) (pt 5 5) (pt 0 10) (pt 10 0);
   segments_intersect (pt 0 0) (pt 4 4) (pt 0 10) (pt 10 0); segments_intersect (pt 0 0) (pt 1 0) (pt 2 0) (pt 3 0)]
  = [true; true; false; false].
Proof. vm_compute. reflexivity. Qed.
End Geometry.

(** ** The engine *)
Module Engine.
Import Geometry.
Definition Track : Type := Tracker.Track.

Inductive ZoneKind := KIntrusion | KLineCross.

#[export] Instance ZoneKind_eq_dec : EqDecision ZoneKind.
Proof. solve_decision. Defined.

Record Zone := mkZone { name : bytes; kind : ZoneKind; points : list point; dwell_secs : Z }.

Inductive ZoneEventKind := Intrusion | Loiter | LineCross (forward : bool).

Record ZoneEvent := mkEvent {
  camera_id : bytes; zone : bytes; event : ZoneEventKind; track_id : Z; label : bytes; timestamp_ms : Z }.

Definition Key : Type := nat * Z.

Record ZoneEngine := mkEngine {
  inside_since : gmap Key Z; last_pos : gmap Z point; loiter_fired : gmap Key bool }.

Definition engine_new : ZoneEngine := mkEngine ∅ ∅ ∅.

Definition mk (cam : bytes) (z : Zone) (k : ZoneEventKind) (t : Track) (now : Z) : ZoneEvent :=
  mkEvent cam (name z) k (Tracker.id t) (Tracker.label t) now.

(** The feet of a track. *)
Definition feet (t : Track) : point :=
  let b := Tracker.bbox t in
  (f32_add (Tracker.b0 b) (Tracker.half (Tracker.b2 b)), f32_add (Tracker.b1 b) (Tracker.b3 b)).

Definition next_positions (tracks : list Track) : gmap Z point :=
  fold_left (λ m t, <[Tracker.id t := feet t]> m) tracks ∅.

(** The two maps of occupancy. *)
Definition Occ : Type := gmap Key Z * gmap Key bool.

(** One track against an intrusion zone. [next_pos] has every track. *)
Definition intrusion_track (cam : bytes) (zi : nat) (z : Zone) (now : Z) (next : gmap Z point)
    (s : Occ * list ZoneEvent) (t : Track) : Occ * list ZoneEvent :=
  let inside := s.1.1 in let fired := s.1.2 in let events := s.2 in
  let key : Key := (zi, Tracker.id t) in
  match next !! Tracker.id t with
  | None => s
  | Some center =>
      if point_in_polygon center (points z) then
        let since := default now (inside !! key) in
        let inside := <[key := since]> inside in
        let dwell_ms := Z.max 0 (now - since) in
        if default false (fired !! key) then ((inside, fired), events)
        else
          let events := if dwell_ms =? 0 then events ++ [mk cam z Intrusion t now] else events in
          let dwell_need := dwell_secs z * 1000 in
          if (0 <? dwell_secs z) && (dwell_need <=? dwell_ms)
          then ((inside, <[key := true]> fired), events ++ [mk cam z Loiter t now])
          else ((inside, fired), events)
      else
        match inside !! key with
        | Some _ => ((delete key inside, delete key fired), events)
        | None => s
        end
  end.

(** The events of a tripwire. *)
Definition tripwire (cam : bytes) (z : Zone) (now : Z) (last next : gmap Z point) (tracks : list Track)
    : list ZoneEvent :=
  match points z with
  | c :: d :: _ =>
      flat_map (λ t,
        match last !! Tracker.id t, next !! Tracker.id t with
        | Some prev, Some cur =>
            if segments_intersect prev cur c d
            then [mk cam z (LineCross (f32_lt (side_of cur c d) f32_zero)) t now]
            else []
        | _, _ => []
        end) tracks
  | _ => []
  end.

Definition zone_step (cam : bytes) (now : Z) (last next : gmap Z point) (tracks : list Track)
    (s : Occ * list ZoneEvent) (zi : nat) (z : Zone) : Occ * list ZoneEvent :=
  match kind z with
  | KIntrusion => fold_left (intrusion_track cam zi z now next) tracks s
  | KLineCross => (s.1, s.2 ++ tripwire cam z now last next tracks)
  end.

(** The loop over the zones from index [zi] on. *)
Fixpoint zones_loop (cam : bytes) (now : Z) (last next : gmap Z point) (tracks : list Track)
    (zi : nat) (zones : list Zone) (s : Occ * list ZoneEvent) : Occ * list ZoneEvent :=
  match zones with
  | [] => s
  | z :: zones => zones_loop cam now last next tracks (S zi) zones (zone_step cam now last next tracks s zi z)
  end.

Definition live (tracks : list Track) (i : Z) : bool := existsb (λ t, Tracker.id t =? i) tracks.

Definition update (cam : bytes) (zones : list Zone) (tracks : list Track) (now : Z) (e : ZoneEngine)
    : ZoneEngine * list ZoneEvent :=
  let next := next_positions tracks in
  let '((inside, fired), events) :=
    zones_loop cam now (last_pos e) next tracks 0 zones ((inside_since e, loiter_fired e), []) in
  (mkEngine (filter (λ kv, live tracks (kv.1.2) = true) inside)
            (filter (λ kv, live tracks (kv.1) = true) next)
            (filter (λ kv, live tracks (kv.1.2) = true) fired), events).

(** *** What a track is to a zone *)

(** The occupancy of a zone by a track: when it began, and whether the loiter
    event has fired. *)
Definition Occupancy : Type := option (Z * bool).

(** What a frame shows of a key: no such track, no intrusion zone at the
    index, or the track outside or inside a zone with a dwell time. *)
Inductive Seen := Gone | Idle | Outside | Inside (dwell : Z).

Definition seen_in (z : Zone) (t : Track) : Seen :=
  match kind z with
  | KIntrusion => if point_in_polygon (feet t) (points z) then Inside (dwell_secs z) else Outside
  | KLineCross => Idle
  end.

Definition track_of (tracks : list Track) (i : Z) : option Track := List.find (λ t, Tracker.id t =? i) tracks.

Definition seen (zones : list Zone) (tracks : list Track) (k : Key) : Seen :=
  match track_of tracks k.2, zones !! k.1 with
  | None, _ => Gone
  | Some _, None => Idle
  | Some t, Some z => seen_in z t
  end.

Definition occ_step (now : Z) (v : Seen) (o : Occupancy) : Occupancy * list ZoneEventKind :=
  match v with
  | Gone | Outside => (None, [])
  | Idle => (o, [])
  | Inside dwell =>
      let '(since, fired) := default (now, false) o in
      if fired then (Some (since, true), [])
      else
        let ms := Z.max 0 (now - since) in
        let loiter := (0 <? dwell) && (dwell * 1000 <=? ms) in
        (Some (since, loiter), (if ms =? 0 then [Intrusion] else []) ++ (if loiter then [Loiter] else []))
  end.

(** The events of a frame, from the occupancies and the positions before
    it. *)
Definition track_events (cam : bytes) (now : Z) (z : Zone) (o : Occupancy) (t : Track) : list ZoneEvent :=
  map (λ k, mk cam z k t now) (occ_step now (seen_in z t) o).2.

Definition crossing_events (cam : bytes) (now : Z) (z : Zone) (prev : Z → option point) (t : Track) : list ZoneEvent :=
  match points z, prev (Tracker.id t) with
  | c :: d :: _, Some a =>
      if segments_intersect a (feet t) c d
      then [mk cam z (LineCross (f32_lt (side_of (feet t) c d) f32_zero)) t now] else []
  | _, _ => []
  end.

Definition zone_events (cam : bytes) (now : Z) (occ : Key → Occupancy) (prev : Z → option point)
    (z : Zone) (zi : nat) (tracks : list Track) : list ZoneEvent :=
  flat_map (λ t,
    match kind z with
    | KIntrusion => track_events cam now z (occ (zi, Tracker.id t)) t
    | KLineCross => crossing_events cam now z prev t
    end) tracks.

Definition frame_events (cam : bytes) (now : Z) (occ : Key → Occupancy) (prev : Z → option point)
    (zones : list Zone) (tracks : list Track) : list ZoneEvent :=
  concat (imap (λ zi z, zone_events cam now occ prev z zi tracks) zones).

(** *** The engine keeps an occupancy for each key *)
Definition occ_of (s : Occ) (k : Key) : Occupancy := since ← s.1 !! k; Some (since, default false (s.2 !! k)).
Definition occ_wf (s : Occ) : Prop := ∀ k, s.1 !! k = None → s.2 !! k = None.

Lemma track_of_Some tracks t :
  NoDup (map Tracker.id tracks) → t ∈ tracks → track_of tracks (Tracker.id t) = Some t.
Proof.
  unfold track_of. induction tracks as [|u tracks IH]; intros Hnd Hin; [by apply elem_of_nil in Hin|].
  apply NoDup_cons in Hnd as [Hu Hnd]. cbn [List.find].
  apply elem_of_cons in Hin as [->|Hin]; [by rewrite Z.eqb_refl|].
  destruct (Z.eqb_spec (Tracker.id u) (Tracker.id t)) as [E|_]; [|by apply IH].
  exfalso. apply Hu. apply list_elem_of_fmap. eauto.
Qed.

Lemma track_of_None tracks i : track_of tracks i = None ↔ i ∉ map Tracker.id tracks.
Proof.
  unfold track_of. induction tracks as [|u tracks IH]; cbn; [split; [by intros _ ?%elem_of_nil | done]|].
  rewrite not_elem_of_cons. destruct (Z.eqb_spec (Tracker.id u) i) as [<-|E]; [naive_solver|].
  rewrite IH. naive_solver.
Qed.

Lemma track_of_id tracks i t : track_of tracks i = Some t → Tracker.id t = i ∧ t ∈ tracks.
Proof. intros [H1 H2]%find_some. split; [by apply Z.eqb_eq | by apply list_elem_of_In]. Qed.

Lemma live_track_of tracks i : live tracks i = true ↔ is_Some (track_of tracks i).
Proof.
  unfold live, track_of. induction tracks as [|u tracks IH]; cbn; [split; [done | by intros [? ?]]|].
  destruct (Tracker.id u =? i); cbn; [split; eauto | done].
Qed.

Lemma next_positions_spec tracks i : NoDup (map Tracker.id tracks) →
  next_positions tracks !! i = feet <$> track_of tracks i.
Proof.
  unfold next_positions. intros Hnd.
  assert (∀ m : gmap Z point, fold_left (λ m t, <[Tracker.id t := feet t]> m) tracks m !! i
    = match track_of tracks i with Some t => Some (feet t) | None => m !! i end) as ->;
    [|by destruct (track_of tracks i); rewrite ?lookup_empty].
  induction tracks as [|t tracks IH]; intros m; [done|]. cbn [fold_left]. cbn in Hnd.
  apply NoDup_cons in Hnd as [Ht Hnd]. rewrite (IH Hnd). unfold track_of. cbn [List.find].
  destruct (Z.eqb_spec (Tracker.id t) i) as [<-|E].
  - apply track_of_None in Ht. unfold track_of in Ht. by rewrite Ht, lookup_insert_eq.
  - destruct (List.find _ tracks); [done | by rewrite lookup_insert_ne].
Qed.

Lemma occ_default now s k : occ_wf s →
  default (now, false) (occ_of s k) = (default now (s.1 !! k), default false (s.2 !! k)).
Proof.
  intros Hwf. unfold occ_of. specialize (Hwf k). destruct (s.1 !! k); [done|]. cbn. by rewrite Hwf.
Qed.

Lemma occ_of_insert s k since k' :
  occ_of (<[k := since]> s.1, s.2) k' = if decide (k' = k) then Some (since, default false (s.2 !! k)) else occ_of s k'.
Proof.
  unfold occ_of; cbn. case_decide as E; [subst; by rewrite lookup_insert_eq | by rewrite lookup_insert_ne].
Qed.

Lemma occ_of_insert_fired s k since b k' :
  occ_of (<[k := since]> s.1, <[k := b]> s.2) k' = if decide (k' = k) then Some (since, b) else occ_of s k'.
Proof.
  unfold occ_of; cbn. case_decide as E; [subst; by rewrite !lookup_insert_eq | by rewrite !lookup_insert_ne].
Qed.

Lemma occ_of_delete s k k' :
  occ_of (delete k s.1, delete k s.2) k' = if decide (k' = k) then None else occ_of s k'.
Proof.
  unfold occ_of. cbn [fst snd]. destruct (decide (k' = k)) as [->|E]; [by rewrite !lookup_delete_eq | by rewrite !lookup_delete_ne].
Qed.

Lemma occ_of_None s k : s.1 !! k = None → occ_of s k = None.
Proof. unfold occ_of. by intros ->. Qed.

Lemma intrusion_track_spec cam zi z now next s ev t :
  next !! Tracker.id t = Some (feet t) → kind z = KIntrusion → occ_wf s →
  let '(s', ev') := intrusion_track cam zi z now next (s, ev) t in
  occ_wf s'
  ∧ (∀ k, occ_of s' k = if decide (k = (zi, Tracker.id t)) then (occ_step now (seen_in z t) (occ_of s (zi, Tracker.id t))).1
                        else occ_of s k)
  ∧ ev' = ev ++ track_events cam now z (occ_of s (zi, Tracker.id t)) t.
Proof.
  intros Hn Hk Hwf. unfold track_events, seen_in. rewrite Hk.
  unfold intrusion_track. rewrite Hn. cbn [fst snd].
  set (key := (zi, Tracker.id t) : Key). destruct (point_in_polygon (feet t) (points z)).
  - cbn [occ_step]. rewrite (occ_default now s key Hwf).
    set (since := default now (s.1 !! key)). set (ms := Z.max 0 (now - since)).
    destruct (default false (s.2 !! key)) eqn:Ef.
    + split_and!; [|intros k; by rewrite occ_of_insert, Ef | by rewrite app_nil_r].
      intros k. cbn [fst snd]. intros [Hl _]%lookup_insert_None. auto.
    + destruct ((0 <? dwell_secs z) && (dwell_secs z * 1000 <=? ms)).
      all: split_and!; [|intros k; by rewrite ?occ_of_insert_fired, ?occ_of_insert, ?Ef|
        cbn [snd]; destruct (ms =? 0); cbn; by rewrite <-?app_assoc, ?app_nil_r].
      * intros k. cbn [fst snd]. intros [Hl Hne]%lookup_insert_None. rewrite lookup_insert_ne by done. auto.
      * intros k. cbn [fst snd]. intros [Hl Hne]%lookup_insert_None. auto.
  - cbn [occ_step fst snd map]. destruct (s.1 !! key) eqn:E.
    + split_and!; [|intros k; by rewrite occ_of_delete | by rewrite app_nil_r].
      intros k. cbn [fst snd]. rewrite !lookup_delete_None. naive_solver.
    + split_and!; [done| |by rewrite app_nil_r].
      intros k. case_decide as Hd; [by subst; apply occ_of_None | done].
Qed.

Lemma intrusion_fold cam zi z now next tracks s ev :
  (∀ t, t ∈ tracks → next !! Tracker.id t = Some (feet t)) → NoDup (map Tracker.id tracks) →
  kind z = KIntrusion → occ_wf s →
  let '(s', ev') := fold_left (intrusion_track cam zi z now next) tracks (s, ev) in
  occ_wf s'
  ∧ (∀ k, occ_of s' k = match track_of tracks k.2 with
                        | Some t => if decide (k.1 = zi) then (occ_step now (seen_in z t) (occ_of s k)).1 else occ_of s k
                        | None => occ_of s k
                        end)
  ∧ ev' = ev ++ flat_map (λ t, track_events cam now z (occ_of s (zi, Tracker.id t)) t) tracks.
Proof.
  intros Hn Hnd Hk. revert s ev. induction tracks as [|t tracks IH]; intros s ev Hwf.
  - cbn. by rewrite app_nil_r.
  - cbn [fold_left map] in *. apply NoDup_cons in Hnd as [Ht Hnd].
    pose proof (intrusion_track_spec cam zi z now next s ev t ltac:(apply Hn; by left) Hk Hwf) as S.
    destruct (intrusion_track cam zi z now next (s, ev) t) as [s1 ev1]. destruct S as (W1 & O1 & ->).
    specialize (IH ltac:(intros; apply Hn; by right) Hnd s1 (ev ++ track_events cam now z (occ_of s (zi, Tracker.id t)) t) W1).
    destruct (fold_left _ tracks _) as [s2 ev2]. destruct IH as (W2 & O2 & ->).
    split_and!; [done| |].
    + intros [zi' i]. rewrite O2, O1. unfold track_of. cbn [List.find fst snd].
      destruct (Z.eqb_spec (Tracker.id t) i) as [<-|E].
      * apply track_of_None in Ht. unfold track_of in Ht. rewrite Ht.
        destruct (decide (zi' = zi)) as [->|]; [by rewrite decide_True | by rewrite decide_False by congruence].
      * by rewrite decide_False by congruence.
    + rewrite <-app_assoc. cbn [flat_map]. do 2 f_equal. rewrite !flat_map_concat_map. f_equal.
      apply map_ext_in. intros u Hu. rewrite O1, decide_False; [done|]. intros [= E]. apply Ht. rewrite <-E.
      apply list_elem_of_In, in_map, Hu.
Qed.

Lemma tripwire_spec cam z now last next tracks :
  (∀ t, t ∈ tracks → next !! Tracker.id t = Some (feet t)) →
  tripwire cam z now last next tracks = flat_map (crossing_events cam now z (λ i, last !! i)) tracks.
Proof.
  intros Hn. unfold tripwire, crossing_events. destruct (points z) as [|c [|d pts]].
  1,2: by induction tracks as [|t tracks IH]; [|cbn; rewrite <-IH; [|intros; apply Hn; by right]].
  rewrite !flat_map_concat_map. f_equal. apply map_ext_in. intros t Ht%list_elem_of_In. rewrite (Hn t Ht).
  by destruct (last !! Tracker.id t).
Qed.

Lemma zone_step_spec cam now last next tracks s ev zi z :
  (∀ t, t ∈ tracks → next !! Tracker.id t = Some (feet t)) → NoDup (map Tracker.id tracks) → occ_wf s →
  let '(s', ev') := zone_step cam now last next tracks (s, ev) zi z in
  occ_wf s'
  ∧ (∀ k, occ_of s' k = match track_of tracks k.2 with
                        | Some t => if decide (k.1 = zi) then (occ_step now (seen_in z t) (occ_of s k)).1 else occ_of s k
                        | None => occ_of s k
                        end)
  ∧ ev' = ev ++ zone_events cam now (occ_of s) (λ i, last !! i) z zi tracks.
Proof.
  intros Hn Hnd Hwf. unfold zone_step, zone_events. destruct (kind z) eqn:Hk.
  - by apply intrusion_fold.
  - cbn [fst snd]. split_and!; [done| |by rewrite (tripwire_spec _ _ _ _ _ _ Hn)].
    intros k. unfold seen_in. rewrite Hk. cbn. by repeat case_match.
Qed.

Lemma zones_loop_spec cam now last next tracks zones zi s ev :
  (∀ t, t ∈ tracks → next !! Tracker.id t = Some (feet t)) → NoDup (map Tracker.id tracks) → occ_wf s →
  let '(s', ev') := zones_loop cam now last next tracks zi zones (s, ev) in
  occ_wf s'
  ∧ (∀ k, occ_of s' k = match track_of tracks k.2 with
                        | Some t => match (if (zi <=? k.1)%nat then zones !! (k.1 - zi)%nat else None) with
                                    | Some z => (occ_step now (seen_in z t) (occ_of s k)).1
                                    | None => occ_of s k
                                    end
                        | None => occ_of s k
                        end)
  ∧ ev' = ev ++ concat (imap (λ j z, zone_events cam now (occ_of s) (λ i, last !! i) z (zi + j) tracks) zones).
Proof.
  intros Hn Hnd. revert zi s ev. induction zones as [|z zones IH]; intros zi s ev Hwf; cbn [zones_loop].
  - split_and!; [done| |by rewrite app_nil_r]. intros k. by repeat case_match.
  - pose proof (zone_step_spec cam now last next tracks s ev zi z Hn Hnd Hwf) as S.
    destruct (zone_step cam now last next tracks (s, ev) zi z) as [s1 ev1]. destruct S as (W1 & O1 & ->).
    specialize (IH (S zi) s1 (ev ++ zone_events cam now (occ_of s) (λ i, last !! i) z zi tracks) W1).
    destruct (zones_loop _ _ _ _ _ _ _ _) as [s2 ev2]. destruct IH as (W2 & O2 & ->). split_and!; [done| |].
    + intros k. rewrite O2, O1. destruct (track_of tracks k.2); [|done].
      destruct (Nat.leb_spec (S zi) k.1), (Nat.leb_spec zi k.1); try lia.
      * rewrite decide_False by lia. replace (k.1 - zi)%nat with (S (k.1 - S zi)) by lia. done.
      * rewrite decide_True by lia. by replace (k.1 - zi)%nat with 0%nat by lia.
      * by rewrite decide_False by lia.
    + rewrite <-app_assoc. cbn [imap concat]. rewrite Nat.add_0_r. do 2 f_equal. f_equal.
      apply imap_ext. intros j z' _. unfold zone_events, compose. rewrite Nat.add_succ_comm.
      rewrite !flat_map_concat_map. f_equal. apply map_ext_in. intros t Ht. destruct (kind z'); [|done].
      f_equal. rewrite O1. cbn [fst snd]. case_match; [by rewrite decide_False by lia | done].
Qed.

(** What an engine holds: the occupancy of each key and the last position of
    each track. *)
Definition engine_occ (e : ZoneEngine) : Key → Occupancy := occ_of (inside_since e, loiter_fired e).
Definition engine_prev (e : ZoneEngine) (i : Z) : option point := last_pos e !! i.
Definition engine_wf (e : ZoneEngine) : Prop := occ_wf (inside_since e, loiter_fired e).

Lemma update_spec cam zones tracks now e :
  NoDup (map Tracker.id tracks) → engine_wf e →
  let '(e', ev) := update cam zones tracks now e in
  engine_wf e'
  ∧ (∀ k, engine_occ e' k = (occ_step now (seen zones tracks k) (engine_occ e k)).1)
  ∧ (∀ i, engine_prev e' i = feet <$> track_of tracks i)
  ∧ ev = frame_events cam now (engine_occ e) (engine_prev e) zones tracks.
Proof.
  intros Hnd Hwf. unfold update.
  assert (∀ t, t ∈ tracks → next_positions tracks !! Tracker.id t = Some (feet t)) as Hn.
  { intros t Ht. by rewrite next_positions_spec, track_of_Some. }
  pose proof (zones_loop_spec cam now (last_pos e) _ tracks zones 0 _ [] Hn Hnd Hwf) as S.
  destruct (zones_loop _ _ _ _ _ _ _ _) as [[inside fired] ev]. destruct S as (W & O & ->).
  unfold engine_wf, engine_occ, engine_prev in *. cbn [inside_since loiter_fired last_pos].
  assert (∀ {A} (m : gmap Key A) k, filter (λ kv : Key * A, live tracks kv.1.2 = true) m !! k
    = if live tracks k.2 then m !! k else None) as Hf.
  { intros A m k. rewrite map_lookup_filter. destruct (m !! k) as [a|]; cbn; [|by case_match].
    destruct (live tracks k.2) eqn:E; cbn; [by rewrite option_guard_True by done | by rewrite option_guard_False by done]. }
  split_and!.
  - intros k. cbn [fst snd]. rewrite !Hf. destruct (live tracks k.2); [apply W | done].
  - intros k. unfold occ_of at 1. cbn [fst snd]. rewrite !Hf.
    specialize (O k). unfold occ_of at 1 in O. cbn [fst snd] in O.
    unfold seen. destruct (track_of tracks k.2) as [t|] eqn:E.
    + assert (live tracks k.2 = true) as -> by (apply live_track_of; eauto). etrans; [exact O|]. cbn [Nat.leb]. rewrite Nat.sub_0_r. by destruct (zones !! k.1).
    + assert (live tracks k.2 = false) as ->; [|done].
      apply not_true_iff_false. intros [? ?]%live_track_of. congruence.
  - intros i. rewrite map_lookup_filter, next_positions_spec by done.
    destruct (track_of tracks i) as [t|] eqn:E; [|done]. cbn.
    by rewrite option_guard_True by (apply live_track_of; eauto).
  - done.
Qed.

(** *** The history of a key *)
Record Frame := mkFrame { f_zones : list Zone; f_tracks : list Track; f_now : Z }.

Definition frame_ok (f : Frame) : Prop := NoDup (map Tracker.id (f_tracks f)).

Definition engine_run (cam : bytes) (e : ZoneEngine) (frames : list Frame) : ZoneEngine :=
  fold_left (λ e f, (update cam (f_zones f) (f_tracks f) (f_now f) e).1) frames e.

Definition occupancy (frames : list Frame) (k : Key) : Occupancy :=
  fold_left (λ o f, (occ_step (f_now f) (seen (f_zones f) (f_tracks f) k) o).1) frames None.

Definition previous (frames : list Frame) (i : Z) : option point :=
  f ← last frames; feet <$> track_of (f_tracks f) i.

Lemma occupancy_snoc frames f k :
  occupancy (frames ++ [f]) k = (occ_step (f_now f) (seen (f_zones f) (f_tracks f) k) (occupancy frames k)).1.
Proof. unfold occupancy. by rewrite fold_left_app. Qed.

Lemma engine_run_spec cam frames : Forall frame_ok frames →
  engine_wf (engine_run cam engine_new frames)
  ∧ (∀ k, engine_occ (engine_run cam engine_new frames) k = occupancy frames k)
  ∧ (∀ i, engine_prev (engine_run cam engine_new frames) i = previous frames i).
Proof.
  induction frames as [|f frames IH] using rev_ind; intros H.
  - split_and!; [by intros k | done | done].
  - apply Forall_app in H as [H Hf%Forall_inv]. destruct (IH H) as (W & O & P).
    unfold engine_run in *. rewrite fold_left_app. cbn [fold_left].
    pose proof (update_spec cam (f_zones f) (f_tracks f) (f_now f) _ Hf W) as U.
    destruct (update _ _ _ _ _) as [e' ev]. destruct U as (W' & O' & P' & _). cbn [fst].
    split_and!; [done| |].
    + intros k. by rewrite O', occupancy_snoc, O.
    + intros i. rewrite P'. unfold previous. by rewrite last_snoc.
Qed.

Lemma frame_events_ext cam now occ occ' prev prev' zones tracks :
  (∀ k, occ k = occ' k) → (∀ i, prev i = prev' i) →
  frame_events cam now occ prev zones tracks = frame_events cam now occ' prev' zones tracks.
Proof.
  intros Ho Hp. unfold frame_events. f_equal. apply imap_ext. intros zi z _. unfold zone_events.
  rewrite !flat_map_concat_map. f_equal. apply map_ext. intros t. unfold track_events, crossing_events.
  by rewrite Ho, Hp.
Qed.

Lemma update_history cam frames f : Forall frame_ok frames → frame_ok f →
  (update cam (f_zones f) (f_tracks f) (f_now f) (engine_run cam engine_new frames)).2
  = frame_events cam (f_now f) (occupancy frames) (previous frames) (f_zones f) (f_tracks f).
Proof.
  intros H Hf. destruct (engine_run_spec cam frames H) as (W & O & P).
  pose proof (update_spec cam (f_zones f) (f_tracks f) (f_now f) _ Hf W) as U.
  destruct (update _ _ _ _ _) as [e' ev]. destruct U as (_ & _ & _ & ->). by apply frame_events_ext.
Qed.

(** *** The events of one occupancy *)
Definition sees (k : Key) (dwell : Z) (f : Frame) : Prop := seen (f_zones f) (f_tracks f) k = Inside dwell.

(** The dwell time has passed since [t0]. *)
Definition dwelt (dwell t0 : Z) (f : Frame) : bool := (0 <? dwell) && (t0 + dwell * 1000 <=? f_now f).

Lemma occ_step_inside now dwell t0 fired :
  occ_step now (Inside dwell) (Some (t0, fired))
  = if fired then (Some (t0, true), [])
    else let l := (0 <? dwell) && (t0 + dwell * 1000 <=? now) in
         (Some (t0, l), (if now <=? t0 then [Intrusion] else []) ++ (if l then [Loiter] else [])).
Proof.
  cbn. destruct fired; [done|].
  assert ((Z.max 0 (now - t0) =? 0) = (now <=? t0)) as -> by lia.
  assert ((0 <? dwell) && (dwell * 1000 <=? Z.max 0 (now - t0)) = (0 <? dwell) && (t0 + dwell * 1000 <=? now)) as ->
    by lia. done.
Qed.

Lemma occ_step_enter now v : occ_step now v None = match v with
  | Inside dwell => occ_step now (Inside dwell) (Some (now, false)) | _ => (None, []) end.
Proof. by destruct v. Qed.

Lemma occupancy_inside pre first mid k dwell :
  occupancy pre k = None → Forall (sees k dwell) (first :: mid) →
  occupancy (pre ++ first :: mid) k
  = Some (f_now first, existsb (dwelt dwell (f_now first)) (first :: mid)).
Proof.
  intros Hpre H. apply Forall_cons in H as [Hf Hm].
  assert (occupancy (pre ++ [first]) k = Some (f_now first, dwelt dwell (f_now first) first)) as H1.
  { rewrite occupancy_snoc, Hpre, Hf, occ_step_enter, occ_step_inside. done. }
  induction mid as [|f mid IH] using rev_ind.
  - rewrite H1. cbn. by rewrite orb_false_r.
  - apply Forall_app in Hm as [Hm Hl%Forall_inv].
    change (pre ++ first :: mid ++ [f]) with (pre ++ (first :: mid) ++ [f]). rewrite app_assoc, occupancy_snoc, IH, Hl by done.
    rewrite occ_step_inside. change (first :: mid ++ [f]) with ((first :: mid) ++ [f]). rewrite existsb_app.
    cbn [existsb]. rewrite orb_false_r. by destruct (_ || existsb _ mid).
Qed.

(** The events of one occupancy. Over a stretch of frames in which a
    track is inside a zone with the same dwell time, from the first one on:
    [Intrusion] fires at the entry and again at every frame whose clock has not
    passed the entry's; [Loiter] fires, for a dwell time that is not zero, at
    the first frame at which it has passed, and after that nothing fires until
    the occupancy ends. These are the events the engine puts in the frame for
    the zone and the track. *)
Theorem occupancy_events cam pre mid f zi z t :
  Forall frame_ok (pre ++ mid ++ [f]) → occupancy pre (zi, Tracker.id t) = None →
  Forall (sees (zi, Tracker.id t) (dwell_secs z)) (mid ++ [f]) →
  f_zones f !! zi = Some z → t ∈ f_tracks f →
  let t0 := f_now (default f (head mid)) in
  let now := f_now f in
  (update cam (f_zones f) (f_tracks f) now (engine_run cam engine_new (pre ++ mid))).2
  = frame_events cam now (occupancy (pre ++ mid)) (previous (pre ++ mid)) (f_zones f) (f_tracks f)
  ∧ track_events cam now z (occupancy (pre ++ mid) (zi, Tracker.id t)) t
    = map (λ k, mk cam z k t now)
        (if existsb (dwelt (dwell_secs z) t0) mid then []
         else (if now <=? t0 then [Intrusion] else []) ++ (if dwelt (dwell_secs z) t0 f then [Loiter] else [])).
Proof.
  intros Hok Hpre H Hz Ht t0 now. rewrite app_assoc in Hok. apply Forall_app in Hok as [Hok Hf1%Forall_inv].
  split; [by apply update_history|].
  apply Forall_app in H as [Hm Hf%Forall_inv]. unfold sees, seen in Hf. cbn [fst snd] in Hf.
  rewrite (track_of_Some _ t Hf1 Ht), Hz in Hf. unfold track_events. rewrite Hf. f_equal. destruct mid as [|g mid].
  - unfold t0. cbn [head default existsb]. rewrite app_nil_r, Hpre, occ_step_enter, occ_step_inside. done.
  - rewrite (occupancy_inside pre g mid _ _ Hpre Hm), occ_step_inside. unfold t0. cbn [head default].
    by destruct (existsb _ _).
Qed.

(** Inside a square yard. *)
Definition yard (dwell : Z) : Zone :=
  let p x y := (f32_of_Z x, f32_of_Z y) in
  mkZone (bytes_of_string "yard") KIntrusion [p 100 100; p 300 100; p 300 300; p 100 300] dwell.
Definition person_at (i x y : Z) : Track :=
  Tracker.new_track i (Tracker.mkDetection (bytes_of_string "person") (f32_lit 9 10) (x, y, 10, 10)).

Lemma occupancy_events_witness :
  let fr now := mkFrame [yard 5] [person_at 1 200 200] now in
  let ev n := map event (update [] [yard 5] [person_at 1 200 200] (default 0 ([1000; 1000; 3000; 6000; 9000] !! n))
                          (engine_run [] engine_new (map fr (take n [1000; 1000; 3000; 6000])))).2 in
  map ev [0; 1; 2; 3; 4]%nat = [[Intrusion]; [Intrusion]; []; [Loiter]; []]
  ∧ track_events [] 9000 (yard 5) (occupancy (map fr [1000; 1000; 3000; 6000]) (0%nat, 1)) (person_at 1 200 200) = [].
Proof.
  split; [vm_compute; reflexivity|].
  refine (eq_trans (proj2 (occupancy_events [] [] (map (mkFrame [yard 5] [person_at 1 200 200]) [1000; 1000; 3000; 6000])
    (mkFrame [yard 5] [person_at 1 200 200] 9000) 0 (yard 5) (person_at 1 200 200) _ eq_refl _ eq_refl _)) _);
    [| | by left | vm_compute; reflexivity].
  - repeat constructor; try (intros H; by apply elem_of_nil in H).
  - repeat constructor; vm_compute; reflexivity.
Defined.
End Engine.

(** ** The bridge *)
Module Bridge.
Import Engine.

Definition zone_event_kind (k : ZoneEventKind) : bytes :=
  bytes_of_string match k with
  | Intrusion => "intrusion" | Loiter => "loiter"
  | LineCross true => "line_cross_forward" | LineCross false => "line_cross_backward"
  end.

(** One track event: nothing while no camera has a zone. *)
Definition bridge_event (zones : gmap bytes (list Zone)) (cam : bytes) (tracks : list Tracker.Track) (now : Z) (es : gmap bytes ZoneEngine)
    : gmap bytes ZoneEngine * list ZoneEvent :=
  if decide (zones = ∅) then (es, [])
  else
    let '(e, ev) := update cam (default [] (zones !! cam)) tracks now (default engine_new (es !! cam)) in
    (<[cam := e]> es, ev).

(** *** From detections to events

    The worker of a camera feeds its tracker and broadcasts the tracks; the
    bridge may lag and lose a broadcast; a worker that starts again has a new
    tracker. *)
Inductive Input :=
  | Detected (cam : bytes) (ds : list Tracker.Detection) (delivered : bool) (zones : gmap bytes (list Zone)) (now : Z)
  | WorkerStarted (cam : bytes).

Record System := mkSystem { trackers : gmap bytes Tracker.Tracker; engines : gmap bytes ZoneEngine }.

Definition system_init : System := mkSystem ∅ ∅.

Definition tracker_of (s : System) (cam : bytes) : Tracker.Tracker :=
  default (Tracker.tracker_new Tracker.default_params) (trackers s !! cam).

Definition system_step (s : System) (i : Input) : System * list ZoneEvent :=
  match i with
  | WorkerStarted cam =>
      (mkSystem (<[cam := Tracker.tracker_new Tracker.default_params]> (trackers s)) (engines s), [])
  | Detected cam ds delivered zones now =>
      let '(tr, out) := Tracker.tracker_update (tracker_of s cam) ds in
      let '(es, ev) := if delivered : bool then bridge_event zones cam out now (engines s) else (engines s, []) in
      (mkSystem (<[cam := tr]> (trackers s)) es, ev)
  end.

Definition system_run (ins : list Input) : System := fold_left (λ s i, (system_step s i).1) ins system_init.

(** The number of detections in all. *)
Definition detections (ins : list Input) : Z :=
  zlen (flat_map (λ i, match i with Detected _ ds _ _ _ => ds | WorkerStarted _ => [] end) ins).

(** The tracks a camera's tracker returns at an input, and the frames of a
    camera that reach its engine. *)
Definition shown_tracks (s : System) (cam : bytes) (ds : list Tracker.Detection) : list Tracker.Track :=
  (Tracker.tracker_update (tracker_of s cam) ds).2.

Definition input_frame (s : System) (cam : bytes) (i : Input) : list Frame :=
  match i with
  | Detected c ds true zones now =>
      if decide (c = cam ∧ zones ≠ ∅) then [mkFrame (default [] (zones !! cam)) (shown_tracks s cam ds) now] else []
  | _ => []
  end.

Fixpoint frames_from (s : System) (cam : bytes) (ins : list Input) : list Frame :=
  match ins with
  | [] => []
  | i :: ins => input_frame s cam i ++ frames_from (system_step s i).1 cam ins
  end.
Definition camera_frames (cam : bytes) (ins : list Input) : list Frame := frames_from system_init cam ins.

Lemma sorted_lt_NoDup (l : list Z) : StronglySorted Z.lt l → NoDup l.
Proof.
  induction 1 as [|x l _ IH Hf]; constructor; [|done]. intros Hx. rewrite Forall_forall in Hf.
  specialize (Hf _ Hx). lia.
Qed.

Lemma update_tracks_NoDup n tr ds :
  Tracker.fed n tr → 0 ≤ Tracker.max_age (Tracker.params tr) → n + zlen ds < 2 ^ 32 →
  let '(tr', out) := Tracker.tracker_update tr ds in
  Tracker.fed (n + zlen ds) tr' ∧ NoDup (map Tracker.id out).
Proof.
  intros Hf Hm Hb. pose proof (Tracker.fed_update n tr ds Hf Hm Hb) as U.
  destruct (Tracker.tracker_update tr ds) as [tr' out]. destruct U as [Hf' (all & new & _ & -> & _)].
  split; [done|]. apply sorted_lt_NoDup, (Tracker.sorted_map Z.lt Tracker.id), Tracker.sorted_filter, Tracker.sorted_map, Hf'.
Qed.

Lemma frames_from_snoc s cam ins i :
  frames_from s cam (ins ++ [i])
  = frames_from s cam ins ++ input_frame (fold_left (λ s i, (system_step s i).1) ins s) cam i.
Proof.
  revert s. induction ins as [|j ins IH]; intros s; cbn [app frames_from fold_left]; [by rewrite app_nil_r|].
  by rewrite IH, app_assoc.
Qed.

Lemma system_run_snoc ins i : system_run (ins ++ [i]) = (system_step (system_run ins) i).1.
Proof. unfold system_run. by rewrite fold_left_app. Qed.

Lemma detections_snoc ins i :
  detections (ins ++ [i]) = detections ins + match i with Detected _ ds _ _ _ => zlen ds | WorkerStarted _ => 0 end.
Proof.
  unfold detections. rewrite flat_map_app, zlen_app. cbn [flat_map]. rewrite app_nil_r. by destruct i.
Qed.

(** What a run keeps: trackers that were fed no more than the detections of
    the run, and for each camera an engine with the history of its frames. *)
Record system_ok (ins : list Input) (s : System) : Prop := {
  ok_trackers : ∀ cam, Tracker.params (tracker_of s cam) = Tracker.default_params
                       ∧ ∃ n, n ≤ detections ins ∧ Tracker.fed n (tracker_of s cam);
  ok_engines : ∀ cam, default engine_new (engines s !! cam) = engine_run cam engine_new (camera_frames cam ins);
  ok_frames : ∀ cam, Forall frame_ok (camera_frames cam ins) }.

Lemma tracker_of_insert s cam tr cam' es :
  tracker_of (mkSystem (<[cam := tr]> (trackers s)) es) cam' = if decide (cam' = cam) then tr else tracker_of s cam'.
Proof.
  unfold tracker_of; cbn. destruct (decide (cam' = cam)) as [->|]; [by rewrite lookup_insert_eq | by rewrite lookup_insert_ne].
Qed.

Lemma shown_tracks_ok ins s cam ds :
  system_ok ins s → detections ins + zlen ds < 2 ^ 32 → NoDup (map Tracker.id (shown_tracks s cam ds)).
Proof.
  intros [Ht _ _] Hb. destruct (Ht cam) as [Hp (n & Hn & Hf)].
  pose proof (update_tracks_NoDup n _ ds Hf ltac:(by rewrite Hp) ltac:(lia)) as U. unfold shown_tracks.
  destruct (Tracker.tracker_update (tracker_of s cam) ds). apply U.
Qed.

Lemma bridge_engines zones cam tracks now es cam' :
  default engine_new ((bridge_event zones cam tracks now es).1 !! cam')
  = if decide (cam' = cam ∧ zones ≠ ∅)
    then (update cam (default [] (zones !! cam)) tracks now (default engine_new (es !! cam))).1
    else default engine_new (es !! cam').
Proof.
  unfold bridge_event. destruct (decide (zones = ∅)) as [->|Hz]; [by rewrite decide_False by naive_solver|].
  destruct (update _ _ _ _ _) as [e ev]. cbn [fst]. destruct (decide (cam' = cam)) as [->|Hc].
  - by rewrite lookup_insert_eq, decide_True by done.
  - by rewrite lookup_insert_ne, decide_False by naive_solver.
Qed.

Lemma system_run_ok ins : detections ins < 2 ^ 32 → system_ok ins (system_run ins).
Proof.
  induction ins as [|i ins IH] using rev_ind; intros Hb.
  - split; [|done|done]. intros cam. split; [done|]. exists 0. split; [done | apply Tracker.fed_new].
  - rewrite detections_snoc in Hb. assert (0 ≤ match i with Detected _ ds _ _ _ => zlen ds | WorkerStarted _ => 0 end)
      by (destruct i; [apply zlen_nonneg | done]).
    specialize (IH ltac:(lia)). set (s := system_run ins) in *.
    assert (∀ cam, camera_frames cam (ins ++ [i]) = camera_frames cam ins ++ input_frame s cam i) as Hcf
      by (intros; apply frames_from_snoc).
    destruct i as [cam ds delivered zones now|cam]; cbn [input_frame] in Hcf.
    + pose proof (shown_tracks_ok ins s cam ds IH ltac:(lia)) as Hnd. destruct IH as [Ht He Hfr].
      destruct (Ht cam) as [Hp (n & Hn & Hf)].
      pose proof (update_tracks_NoDup n _ ds Hf ltac:(by rewrite Hp) ltac:(lia)) as U.
      pose proof (Tracker.tracker_update_params (tracker_of s cam) ds) as Hp'.
      rewrite system_run_snoc. fold s. unfold shown_tracks in Hnd, Hcf. cbn [system_step].
      destruct (Tracker.tracker_update (tracker_of s cam) ds) as [tr out] eqn:Eu. destruct U as [Hf' _]. cbn in Hp', Hnd.
      assert (∀ cam', default engine_new
          ((if delivered then bridge_event zones cam out now (engines s) else (engines s, [])).1 !! cam')
        = engine_run cam' engine_new (camera_frames cam' (ins ++ [Detected cam ds delivered zones now]))) as He'.
      { intros cam'. rewrite Hcf. destruct delivered; [|by rewrite app_nil_r]. rewrite bridge_engines.
        unfold engine_run. rewrite fold_left_app. fold (engine_run cam' engine_new (camera_frames cam' ins)).
        rewrite <-He. destruct (decide (cam = cam' ∧ zones ≠ ∅)) as [[<- Hz]|Hd]; [|by rewrite decide_False by naive_solver].
        rewrite decide_True by done. cbn [fold_left f_zones f_tracks f_now]. by rewrite Eu. }
      destruct (if delivered then _ else _) as [es ev]. cbn [fst] in *. split; [| exact He' |].
      * intros cam'. rewrite tracker_of_insert. rewrite detections_snoc. case_decide; subst.
        -- rewrite Hp', Hp. split; [done|]. exists (n + zlen ds). split; [lia | done].
        -- destruct (Ht cam') as [? (n' & ? & ?)]. split; [done|]. exists n'. split; [lia | done].
      * intros cam'. rewrite Hcf. apply Forall_app. split; [done|]. destruct delivered; [|done].
        case_decide as Hd; [|done]. destruct Hd as [-> _]. constructor; [|done]. unfold frame_ok. cbn. by rewrite Eu.
    + destruct IH as [Ht He Hfr]. rewrite system_run_snoc. fold s. cbn [system_step fst]. split; cbn [engines].
      * intros cam'. rewrite tracker_of_insert, detections_snoc. case_decide; subst.
        -- split; [done|]. exists 0. split; [|apply Tracker.fed_new].
           assert (0 ≤ detections ins) by apply zlen_nonneg. lia.
        -- destruct (Ht cam') as [? (n' & ? & ?)]. split; [done|]. exists n'. split; [lia | done].
      * intros cam'. by rewrite Hcf, app_nil_r.
      * intros cam'. by rewrite Hcf, app_nil_r.
Qed.

(** C7 From detections to zone events, over every run of inputs with fewer
    than 2^32 detections, cameras interleaved, broadcasts lost, workers
    started again and zones edited between frames. The tracks a camera returns
    have distinct ids, and the events are exactly those of its own history: for
    each zone in order and each track in order, the events of the occupancy of
    that zone index by that track id, or a crossing when the segment from its
    feet in the camera's previous delivered frame to its feet now meets the
    tripwire. A lost broadcast, or one while no camera has a zone, gives none
    and leaves no trace in the history. *)
Theorem zone_pipeline ins cam ds delivered zones now :
  detections (ins ++ [Detected cam ds delivered zones now]) < 2 ^ 32 →
  let s := system_run ins in
  NoDup (map Tracker.id (shown_tracks s cam ds))
  ∧ (system_step s (Detected cam ds delivered zones now)).2
    = if delivered && bool_decide (zones ≠ ∅)
      then frame_events cam now (occupancy (camera_frames cam ins)) (previous (camera_frames cam ins))
             (default [] (zones !! cam)) (shown_tracks s cam ds)
      else [].
Proof.
  intros Hb. rewrite detections_snoc in Hb. pose proof (zlen_nonneg ds).
  pose proof (system_run_ok ins ltac:(lia)) as Hok. cbv zeta.
  pose proof (shown_tracks_ok ins _ cam ds Hok ltac:(lia)) as Hnd. split; [done|].
  destruct Hok as [_ He Hfr]. cbn [system_step]. unfold shown_tracks in *.
  destruct (Tracker.tracker_update (tracker_of (system_run ins) cam) ds) as [tr out]. cbn [snd] in *.
  destruct delivered; [|done]. unfold bridge_event. case_bool_decide as Hz; cbn [andb].
  - rewrite decide_False by done. rewrite He.
    pose proof (update_history cam (camera_frames cam ins) (mkFrame (default [] (zones !! cam)) out now) (Hfr cam) Hnd) as U.
    cbn [f_zones f_tracks f_now] in U. rewrite <-U. by destruct (update _ _ _ _ _).
  - by rewrite decide_True by (destruct (decide (zones = ∅)); [done | by destruct Hz]).
Qed.

(** A walk up over a tripwire that stops on it: the pass is two crossings,
    standing there is one more for each frame, and the frames on the line have
    the other direction than the frame that leaves it. *)
Example on_the_tripwire :
  let wire := mkZone [] KLineCross [Geometry.pt 0 110; Geometry.pt 300 110] 0 in
  let fr n y := mkFrame [wire] [person_at 1 100 y] n in
  let frames := [fr 0 140; fr 1000 100; fr 2000 100; fr 3000 60] in
  imap (λ i f, map event (update [] (f_zones f) (f_tracks f) (f_now f) (engine_run [] engine_new (take i frames))).2) frames
  = [[]; [LineCross false]; [LineCross false]; [LineCross true]].
Proof. vm_compute. reflexivity. Qed.

Fixpoint outputs (s : System) (ins : list Input) : list (list ZoneEventKind) :=
  match ins with
  | [] => []
  | i :: ins => let '(s', ev) := system_step s i in map event ev :: outputs s' ins
  end.

Definition yard_zones (dwell : Z) : gmap bytes (list Zone) := {[ bytes_of_string "0" := [yard dwell] ]}.
Definition frame_at (ds : list Tracker.Detection) (now : Z) : Input :=
  Detected (bytes_of_string "0") ds true (yard_zones 3) now.
Definition standing : Tracker.Detection :=
  Tracker.mkDetection (bytes_of_string "person") (f32_lit 9 10) (200, 200, 10, 10).

(** A person stands in the yard and the detector misses every fourth frame:
    the zone is entered again each time and the three seconds never pass.
    After a restart the first id is given again, to a person whose entry is
    taken for the old one's. *)
Lemma zone_pipeline_witness :
  let missed := [frame_at [standing] 0; frame_at [standing] 1000; frame_at [standing] 2000; frame_at [] 3000;
                 frame_at [standing] 4000; frame_at [standing] 5000; frame_at [standing] 6000; frame_at [] 7000;
                 frame_at [standing] 8000] in
  outputs system_init missed = [[Intrusion]; []; []; []; [Intrusion]; []; []; []; [Intrusion]]
  ∧ outputs system_init [frame_at [standing] 0; WorkerStarted (bytes_of_string "0"); frame_at [standing] 9000]
    = [[Intrusion]; []; [Loiter]]
  ∧ (NoDup (map Tracker.id (shown_tracks (system_run missed) (bytes_of_string "0") [standing]))
     ∧ (system_step (system_run missed) (frame_at [standing] 9000)).2
       = if true && bool_decide (yard_zones 3 ≠ ∅)
         then frame_events (bytes_of_string "0") 9000 (occupancy (camera_frames (bytes_of_string "0") missed))
                (previous (camera_frames (bytes_of_string "0") missed))
                (default [] (yard_zones 3 !! bytes_of_string "0"))
                (shown_tracks (system_run missed) (bytes_of_string "0") [standing])
         else []).
Proof.
  split; [vm_compute; reflexivity|]. split; [vm_compute; reflexivity|].
  apply (zone_pipeline _ (bytes_of_string "0") [standing] true (yard_zones 3) 9000). vm_compute. reflexivity.
Defined.
End Bridge.

(** ** The zones of the web layer *)
Module Store.
Import Engine.

Inductive PutError := EmptyName | DuplicateName | FewPoints | LinePoints | Persist.

(** The loop of the validation, with the names seen. *)
Fixpoint validate (names : list bytes) (l : list Zone) : option PutError :=
  match l with
  | [] => None
  | z :: l =>
      let n := trim (name z) in
      if bool_decide (n = []) then Some EmptyName
      else if bool_decide (n ∈ names) then Some DuplicateName
      else match kind z with
           | KIntrusion => if (length (points z) <? 3)%nat then Some FewPoints else validate (n :: names) l
           | KLineCross => if negb (length (points z) =? 2)%nat then Some LinePoints else validate (n :: names) l
           end
  end.

Definition put_map (cam : bytes) (l : list Zone) (m : gmap bytes (list Zone)) : gmap bytes (list Zone) :=
  match l with [] => delete cam m | _ => <[cam := l]> m end.

(** JSON, as [serde_json] prints and parses it. *)
Class Json := {
  to_string : gmap bytes (list Zone) → bytes;
  from_str : bytes → option (gmap bytes (list Zone)) }.

(** Numbers that are not finite are printed as [null], which does not parse
    back. *)
Definition finite_f32 (x : f32) : bool :=
  match x with S754_infinity _ | S754_nan => false | _ => true end.
Definition finite_zone (z : Zone) : Prop := Forall (λ p, finite_f32 p.1 = true ∧ finite_f32 p.2 = true) (points z).
Definition finite_zones (m : gmap bytes (list Zone)) : Prop := map_Forall (λ _ l, Forall finite_zone l) m.

Class JsonLaws `{Json} : Prop := {
  json_roundtrip : ∀ m, finite_zones m → from_str (to_string m) = Some m;
  json_null : ∀ m, ¬ finite_zones m → from_str (to_string m) = None }.

Section Store.
Context `{Json}.

(** The shared map and the row of the settings table; a request between the
    read and the end is a thread of its own. *)
Inductive Pc := AtPersist (m : gmap bytes (list Zone)) | AtWrite (m : gmap bytes (list Zone)).
Record Store := mkStore { shared : gmap bytes (list Zone); row : option bytes; requests : list Pc }.

Definition new_shared : gmap bytes (list Zone) := ∅.

Definition load_from_db (row : option bytes) (zones : gmap bytes (list Zone)) : gmap bytes (list Zone) :=
  match r ← row; from_str r with Some m => m | None => zones end.

Definition get_zones (cam : bytes) (s : Store) : list Zone := default [] (shared s !! cam).

(** The steps of [put_zones]: the validation and the copy of the map; the
    write of the row, that may fail; the write of the map. *)
Definition put_begin (cam : bytes) (l : list Zone) (s : Store) : Store + PutError :=
  match validate [] l with
  | Some e => inr e
  | None => inl (mkStore (shared s) (row s) (requests s ++ [AtPersist (put_map cam l (shared s))]))
  end.

Definition put_persist (i : nat) (ok : bool) (s : Store) : Store + PutError :=
  match requests s !! i with
  | Some (AtPersist m) =>
      if ok then inl (mkStore (shared s) (Some (to_string m)) (<[i := AtWrite m]> (requests s)))
      else inr Persist
  | _ => inl s
  end.

Definition put_write (i : nat) (s : Store) : Store :=
  match requests s !! i with
  | Some (AtWrite m) => mkStore m (row s) (delete i (requests s))
  | _ => s
  end.

(** A request on its own. *)
Definition put_zones (cam : bytes) (l : list Zone) (ok : bool) (s : Store) : Store * option PutError :=
  match put_begin cam l s with
  | inr e => (s, Some e)
  | inl s1 =>
      let i := length (requests s) in
      match put_persist i ok s1 with
      | inr e => (s, Some e)
      | inl s2 => (put_write i s2, None)
      end
  end.

(** Requests interleaved; a failed one leaves. *)
Inductive step : Store → Store → Prop :=
  | step_begin cam l s s' : put_begin cam l s = inl s' → step s s'
  | step_persist i s s' : put_persist i true s = inl s' → step s s'
  | step_fail i s : step s (mkStore (shared s) (row s) (delete i (requests s)))
  | step_write i s : step s (put_write i s).

Definition init : Store := mkStore new_shared None [].

(** *** What is stored is valid *)
Definition zone_ok (z : Zone) : Prop :=
  trim (name z) ≠ [] ∧ match kind z with KIntrusion => (3 ≤ length (points z))%nat | KLineCross => length (points z) = 2%nat end.

Definition zones_ok (l : list Zone) : Prop := Forall zone_ok l ∧ NoDup (map (λ z, trim (name z)) l).

Lemma validate_spec names l :
  validate names l = None ↔
  Forall zone_ok l ∧ NoDup (map (λ z, trim (name z)) l) ∧ Forall (λ z, trim (name z) ∉ names) l.
Proof.
  revert names. induction l as [|z l IH]; intros names; cbn [validate map]; [split; [by repeat constructor | done]|].
  rewrite !Forall_cons, NoDup_cons. unfold zone_ok at 1.
  case_bool_decide as H1; [naive_solver|]. case_bool_decide as H2; [naive_solver|].
  assert (NoDup (map (λ z, trim (name z)) l) ∧ Forall (λ z0, trim (name z0) ∉ trim (name z) :: names) l
    ↔ (trim (name z) ∉ map (λ z, trim (name z)) l) ∧ NoDup (map (λ z, trim (name z)) l)
      ∧ Forall (λ z0, trim (name z0) ∉ names) l) as Hn.
  { rewrite !Forall_forall. split.
    - intros [Hd Hf]. split_and!; [|done|].
      + intros (z' & E & Hz')%list_elem_of_fmap. apply (Hf _ Hz'). rewrite <-E. by left.
      + intros z' Hz' Hin. apply (Hf _ Hz'). by right.
    - intros (Hd1 & Hd & Hf). split; [done|]. intros z' Hz' [E|Hin]%elem_of_cons; [|by apply (Hf _ Hz')].
      apply Hd1, list_elem_of_fmap. eauto. }
  destruct (kind z).
  - destruct (Nat.ltb_spec (length (points z)) 3); [split; [done | lia]|]. rewrite IH. naive_solver.
  - destruct (Nat.eqb_spec (length (points z)) 2); cbn [negb]; [|naive_solver]. rewrite IH. naive_solver.
Qed.

Definition map_ok (m : gmap bytes (list Zone)) : Prop := map_Forall (λ _ l, zones_ok l ∧ l ≠ []) m.

Definition pc_map (r : Pc) : gmap bytes (list Zone) := match r with AtPersist m | AtWrite m => m end.

Record store_ok (s : Store) : Prop := {
  shared_ok : map_ok (shared s);
  requests_ok : Forall (λ r, map_ok (pc_map r)) (requests s);
  row_ok : ∀ raw, row s = Some raw → ∃ m, raw = to_string m ∧ map_ok m }.

Lemma put_map_ok cam l m : zones_ok l → map_ok m → map_ok (put_map cam l m).
Proof.
  intros Hl Hm. destruct l as [|z l]; cbn [put_map]; [by apply map_Forall_delete|].
  by apply map_Forall_insert_2.
Qed.

Lemma validate_ok l : validate [] l = None ↔ zones_ok l.
Proof.
  rewrite validate_spec. unfold zones_ok. split; [naive_solver|]. intros [? ?]. split_and!; [done..|].
  apply Forall_forall. intros z _ Hz. by apply elem_of_nil in Hz.
Qed.

Lemma store_step_ok s s' : step s s' → store_ok s → store_ok s'.
Proof.
  intros Hs [Hsh Hr Hrow]. destruct Hs as [cam l s s' E|i s s' E|i s|i s].
  - unfold put_begin in E. destruct (validate [] l) eqn:Hv; simplify_eq. apply validate_ok in Hv.
    split; cbn; [done | | done]. apply Forall_app. split; [done|]. constructor; [by apply put_map_ok | done].
  - unfold put_persist in E. destruct (requests s !! i) as [[m|m]|] eqn:Ei; simplify_eq; [|done..].
    pose proof (Forall_lookup_1 _ _ _ _ Hr Ei) as Hm. split; cbn; [done | |].
    + by apply Forall_insert.
    + intros raw [= <-]. eauto.
  - split; cbn; [done | by apply Forall_delete | done].
  - unfold put_write. destruct (requests s !! i) as [[m|m]|] eqn:Ei; [done| |done].
    pose proof (Forall_lookup_1 _ _ _ _ Hr Ei) as Hm. split; cbn; [done | by apply Forall_delete | done].
Qed.

(** C30 The zones of the web layer. However requests interleave and fail,
    every list in the shared map, in the row and in flight has passed the
    validation and is not empty. A request on its own is refused without
    effect exactly when its list is not valid or the row cannot be written;
    otherwise the camera has exactly the list sent and the other cameras keep
    theirs.  When all coordinates of all cameras are finite, a restart loads the
    same map; when one is not (the validation does not look at coordinates, and
    1e39 is read as an infinite [f32]), the row does not parse and a restart
    has no zone of any camera. *)
Theorem zones_stored `{!JsonLaws} s :
  rtc step init s →
  store_ok s ∧
  ∀ cam l ok,
    let '(s', e) := put_zones cam l ok s in
    (e = None ↔ zones_ok l ∧ ok = true)
    ∧ (e ≠ None → s' = s)
    ∧ (e = None →
         (∀ c, get_zones c s' = if decide (c = cam) then l else get_zones c s)
         ∧ (finite_zones (shared s') → load_from_db (row s') new_shared = shared s')
         ∧ (¬ finite_zones (shared s') → load_from_db (row s') new_shared = ∅)).
Proof.
  intros Hr. split.
  - remember init as s0 eqn:E0. assert (store_ok s0) as Hinit.
    { subst. split; cbn; [apply map_Forall_empty | done | done]. }
    clear E0. induction Hr as [|s s1 s2 Hs _ IH]; [done|]. apply IH. by eapply store_step_ok.
  - intros cam l ok. clear Hr. unfold put_zones, put_begin. destruct (validate [] l) as [e|] eqn:Hv.
    + assert (¬ zones_ok l) as Hn by (intros Hl%validate_ok; congruence). naive_solver.
    + apply validate_ok in Hv. unfold put_persist. cbn [requests shared row].
      rewrite lookup_app_r, Nat.sub_diag by done. cbn [lookup list_lookup].
      destruct ok; [|naive_solver].
      unfold put_write. cbn [requests shared row].
      rewrite insert_app_r_alt, Nat.sub_diag, lookup_app_r, Nat.sub_diag by done. cbn.
      split_and!; [naive_solver | done |]. intros _. split_and!.
      * intros c. unfold get_zones. cbn. destruct l as [|z l]; cbn; case_decide as E; subst;
          rewrite ?lookup_delete_eq, ?lookup_insert_eq, ?lookup_delete_ne, ?lookup_insert_ne by done; done.
      * intros Hf. unfold load_from_db. cbn. by rewrite json_roundtrip.
      * intros Hf. unfold load_from_db. cbn. by rewrite json_null.
Qed.
End Store.

(** A concrete codec: the number that counts the map, and nothing for a map
    with a number that is not finite. *)
#[local] Instance spec_float_countable : Countable spec_float.
Proof.
  refine (inj_countable'
    (λ x, match x with
          | S754_zero b => inl (inl b) | S754_infinity b => inl (inr b)
          | S754_nan => inr (inl ()) | S754_finite b m e => inr (inr (b, m, e)) end)
    (λ y, match y with
          | inl (inl b) => S754_zero b | inl (inr b) => S754_infinity b
          | inr (inl _) => S754_nan | inr (inr (b, m, e)) => S754_finite b m e end) _).
  by intros [].
Defined.
#[local] Instance Zone_eq_dec : EqDecision Zone.
Proof. solve_decision. Defined.
#[local] Instance Zone_countable : Countable Zone.
Proof.
  refine (inj_countable'
    (λ z, (name z, match kind z with KIntrusion => true | KLineCross => false end, points z, dwell_secs z))
    (λ '(n, k, p, d), mkZone n (if k : bool then KIntrusion else KLineCross) p d) _).
  by intros [n [] p d].
Defined.

#[local] Instance finite_zone_dec z : Decision (finite_zone z).
Proof. unfold finite_zone. apply _. Defined.
#[local] Instance finite_zones_dec m : Decision (finite_zones m).
Proof. unfold finite_zones. apply _. Defined.

Definition counted : Json := {|
  to_string := λ m, if decide (finite_zones m) then [Z.pos (encode m)] else [];
  from_str := λ b, match b with [Z.pos p] => decode p | _ => None end |}.

Lemma counted_laws : @JsonLaws counted.
Proof. split; intros m Hm; cbn; [rewrite decide_True by done; by rewrite decode_encode | by rewrite decide_False]. Qed.

Definition gate : Zone :=
  mkZone (bytes_of_string "gate") KLineCross [(f32_of_Z 0, f32_of_Z 50); (f32_of_Z 100, f32_of_Z 50)] 0.

(** A map with the zone of one camera, to which another is added; and two
    requests for two cameras interleaved, after which one camera has no zone
    while the row lacks the other. *)
Lemma zones_stored_witness :
  let a := bytes_of_string "0" in
  let b := bytes_of_string "1" in
  let s := (@put_zones counted a [yard 5] true init).1 in
  (let '(s', e) := @put_zones counted b [gate] true s in
   (e = None ↔ zones_ok [gate] ∧ true = true)
   ∧ (e ≠ None → s' = s)
   ∧ (e = None →
        (∀ c, get_zones c s' = if decide (c = b) then [gate] else get_zones c s)
        ∧ (finite_zones (shared s') → @load_from_db counted (row s') new_shared = shared s')
        ∧ (¬ finite_zones (shared s') → @load_from_db counted (row s') new_shared = ∅)))
  ∧ (∃ s1 s2 s3 s4,
       put_begin a [yard 5] init = inl s1 ∧ put_begin b [gate] s1 = inl s2
       ∧ @put_persist counted 0 true s2 = inl s3 ∧ @put_persist counted 1 true s3 = inl s4
       ∧ let s' := put_write 0 (put_write 1 s4) in
         requests s' = [] ∧ get_zones a s' = [yard 5] ∧ get_zones b s' = []
         ∧ row s' = Some (@to_string counted (<[b := [gate]]> ∅))).
Proof.
  cbv zeta. split.
  - pose (s := (@put_zones counted (bytes_of_string "0") [yard 5] true init).1).
    assert (Hr : rtc (@step counted) init s).
    { eapply rtc_l; [by apply (@step_begin counted (bytes_of_string "0") [yard 5])|].
      eapply rtc_l; [by apply (@step_persist counted 0%nat)|].
      eapply rtc_l; [by apply (@step_write counted 0%nat)|]. apply rtc_refl. }
    exact (proj2 (@zones_stored counted counted_laws s Hr) (bytes_of_string "1") [gate] true).
  - do 4 eexists. split_and!; try (cbn; reflexivity); vm_compute; reflexivity.
Defined.
(** A point that overflows [f32] passes the validation, and after a restart no
    camera has a zone. *)
Definition far_gate : Zone :=
  mkZone (bytes_of_string "far") KLineCross [(f32_of_Z 0, f32_of_Z 0); (f32_of_Z (10 ^ 39), f32_of_Z 0)] 0.
Example infinite_zone_loses_all :
  let s := (@put_zones counted (bytes_of_string "0") [yard 5] true init).1 in
  let '(s', e) := @put_zones counted (bytes_of_string "1") [far_gate] true s in
  e = None ∧ get_zones (bytes_of_string "1") s' = [far_gate] ∧ @load_from_db counted (row s') new_shared = ∅.
Proof. vm_compute. done. Qed.
End Store.
