(* ===== verification/RtspAuth.v ===== *)
(** * Digest authentication of the RTSP server
      ([crates/protocols/src/rtsp_server/auth.rs])

    The inline MD5, the parser of [Authorization] parameters and the check of
    a Digest response.  [hex::encode] (the [hex] crate) is a parameter. *)
From Stdlib Require Import ZArith Lia List Bool String.
From stdpp Require Import base option list numbers gmap.
From S2P Require Import Prelude Text.

(** ** Comparison *)
Definition constant_time_str_eq (a b : bytes) : bool :=
  if negb (zlen a =? zlen b) then false
  else fold_left (λ acc '(x, y), Z.lxor (Z.lxor acc x) y) (combine a b) 0 =? 0.

(** ** MD5 *)
Definition Words : Type := Z * Z * Z * Z.

Record Md5 := mkMd5 { md_state : Words; md_count : Z; md_buffer : bytes }.

Definition Md5_new : Md5 :=
  mkMd5 (0x67452301, 0xEFCDAB89, 0x98BADCFE, 0x10325476) 0 (replicate 64 0).

Definition K : list Z := [
  0xd76aa478; 0xe8c7b756; 0x242070db; 0xc1bdceee; 0xf57c0faf; 0x4787c62a; 0xa8304613; 0xfd469501;
  0x698098d8; 0x8b44f7af; 0xffff5bb1; 0x895cd7be; 0x6b901122; 0xfd987193; 0xa679438e; 0x49b40821;
  0xf61e2562; 0xc040b340; 0x265e5a51; 0xe9b6c7aa; 0xd62f105d; 0x02441453; 0xd8a1e681; 0xe7d3fbc8;
  0x21e1cde6; 0xc33707d6; 0xf4d50d87; 0x455a14ed; 0xa9e3e905; 0xfcefa3f8; 0x676f02d9; 0x8d2a4c8a;
  0xfffa3942; 0x8771f681; 0x6d9d6122; 0xfde5380c; 0xa4beea44; 0x4bdecfa9; 0xf6bb4b60; 0xbebfbc70;
  0x289b7ec6; 0xeaa127fa; 0xd4ef3085; 0x04881d05; 0xd9d4d039; 0xe6db99e5; 0x1fa27cf8; 0xc4ac5665;
  0xf4292244; 0x432aff97; 0xab9423a7; 0xfc93a039; 0x655b59c3; 0x8f0ccc92; 0xffeff47d; 0x85845dd1;
  0x6fa87e4f; 0xfe2ce6e0; 0xa3014314; 0x4e0811a1; 0xf7537e82; 0xbd3af235; 0x2ad7d2bb; 0xeb86d391].

Definition S_ : list Z := [
  7; 12; 17; 22;  7; 12; 17; 22;  7; 12; 17; 22;  7; 12; 17; 22;
  5;  9; 14; 20;  5;  9; 14; 20;  5;  9; 14; 20;  5;  9; 14; 20;
  4; 11; 16; 23;  4; 11; 16; 23;  4; 11; 16; 23;  4; 11; 16; 23;
  6; 10; 15; 21;  6; 10; 15; 21;  6; 10; 15; 21;  6; 10; 15; 21].

(** [u32::rotate_left] and [!] on [u32]. *)
Definition rotate_left (x s : Z) : Z := Z.lor (wrap32 (Z.shiftl x s)) (Z.shiftr x (32 - s)).
Definition not32 (x : Z) : Z := 0xFFFFFFFF - x.

Definition md5_round (x : list Z) (i : nat) (w : Words) : Words :=
  let '(a, b, c, d) := w in
  let '(f, g) :=
    if (i <? 16)%nat then (Z.lor (Z.land b c) (Z.land (not32 b) d), i)
    else if (i <? 32)%nat then (Z.lor (Z.land d b) (Z.land (not32 d) c), ((5 * i + 1) mod 16)%nat)
    else if (i <? 48)%nat then (Z.lxor (Z.lxor b c) d, ((3 * i + 5) mod 16)%nat)
    else (Z.lxor c (Z.lor b (not32 d)), ((7 * i) mod 16)%nat) in
  let sum := wrap32 (wrap32 (wrap32 (a + f) + nth i K 0) + nth g x 0) in
  (d, wrap32 (b + rotate_left sum (nth i S_ 0)), b, c).

(** [block.as_chunks::<4>()], each chunk read as a little-endian word. *)
Fixpoint le_words (n : nat) (block : bytes) : list Z :=
  match n with
  | O => []
  | S n => from_le (take 4 block) :: le_words n (drop 4 block)
  end.

Definition process_block (state : Words) (block : bytes) : Words :=
  let x := le_words 16 block in
  let '(a, b, c, d) := fold_left (λ w i, md5_round x i w) (seq 0 64) state in
  let '(s0, s1, s2, s3) := state in
  (wrap32 (s0 + a), wrap32 (s1 + b), wrap32 (s2 + c), wrap32 (s3 + d)).

(** [buffer[i..i + src.len()].copy_from_slice(src)] *)
Definition copy_at (buffer : bytes) (i : Z) (src : bytes) : Res bytes :=
  if (0 <=? i) && (i + zlen src <=? zlen buffer)
  then Ok (take (Z.to_nat i) buffer ++ src ++ drop (Z.to_nat i + length src) buffer)
  else Panic.

(** [while offset + 64 <= len] *)
Fixpoint update_loop (fuel : nat) (state : Words) (data : bytes) (offset : Z)
    : Res (Words * Z) :=
  match fuel with
  | O => OutOfFuel
  | S fuel =>
      if offset + 64 <=? zlen data then
        block ← slice data offset (offset + 64);
        update_loop fuel (process_block state block) data (offset + 64)
      else Ok (state, offset)
  end.

(** The part of [update] after the buffered bytes are used up. *)
Definition update_blocks (m : Md5) (data : bytes) (offset : Z) : Res Md5 :=
  '(state, offset) ← update_loop (S (length data)) (md_state m) data offset;
  if offset <? zlen data then
    rest ← slice_from data offset;
    buffer ← copy_at (md_buffer m) 0 rest;
    Ok (mkMd5 state (md_count m) buffer)
  else Ok (mkMd5 state (md_count m) (md_buffer m)).

Definition update (m : Md5) (data : bytes) : Res Md5 :=
  let len := zlen data in
  let buffer_used := Z.land (md_count m) 0x3F in
  let count := wrap64 (md_count m + len) in
  if negb (buffer_used =? 0) then
    let space := 64 - buffer_used in
    let copy_len := Z.min space len in
    src ← slice data 0 copy_len;
    buffer ← copy_at (md_buffer m) buffer_used src;
    if buffer_used + copy_len =? 64 then
      update_blocks (mkMd5 (process_block (md_state m) buffer) count buffer) data copy_len
    else Ok (mkMd5 (md_state m) count buffer)
  else update_blocks (mkMd5 (md_state m) count (md_buffer m)) data 0.

Definition finalize (m : Md5) : Res bytes :=
  let buffer_used := Z.land (md_count m) 0x3F in
  buffer ← copy_at (md_buffer m) buffer_used [0x80];
  '(state, buffer) ←
    (if buffer_used <? 56 then
       buffer ← copy_at buffer (buffer_used + 1) (replicate (Z.to_nat (55 - buffer_used)) 0);
       Ok (md_state m, buffer)
     else
       buffer ← copy_at buffer (buffer_used + 1) (replicate (Z.to_nat (63 - buffer_used)) 0);
       let state := process_block (md_state m) buffer in
       buffer ← copy_at buffer 0 (replicate 56 0);
       Ok (state, buffer));
  let bits := wrap64 (md_count m * 8) in
  buffer ← copy_at buffer 56 (to_le 8 bits);
  let '(a, b, c, d) := process_block state buffer in
  Ok (to_le 4 a ++ to_le 4 b ++ to_le 4 c ++ to_le 4 d).

Definition md5_hash (data : bytes) : Res bytes := m ← update Md5_new data; finalize m.

(** ** Digest authentication *)
Definition build_digest_challenge (realm nonce : bytes) : bytes :=
  lit "Digest realm=" ++ [34] ++ realm ++ [34] ++ lit ", nonce=" ++ [34] ++ nonce ++ [34]
  ++ lit ", algorithm=MD5, stale=FALSE".

Definition Params : Type := gmap bytes bytes.

(** [remaining.strip_prefix(',').unwrap_or(remaining)] *)
Definition skip_comma (l : bytes) : bytes := default l (strip_prefix [44] l).

Fixpoint params_loop (fuel : nat) (remaining : bytes) (params : Params) : Res Params :=
  match fuel with
  | O => OutOfFuel
  | S fuel =>
      if zlen remaining =? 0 then Ok params
      else
        let remaining := trim remaining in
        match find_byte (Z.eqb 61) remaining with
        | Some eq_pos =>
            let key := trim (take eq_pos remaining) in
            let remaining := trim (drop (S eq_pos) remaining) in
            if starts_with [34] remaining then
              let remaining := drop 1 remaining in
              match find_byte (Z.eqb 34) remaining with
              | Some end_quote =>
                  let value := take end_quote remaining in
                  let remaining := trim (drop (S end_quote) remaining) in
                  params_loop fuel (trim (skip_comma remaining)) (<[key := value]> params)
              | None => Err "Unterminated quoted string in auth params"
              end
            else
              let end_ := default (length remaining)
                            (find_byte (λ b, (b =? 44) || (b =? 32)) remaining) in
              let value := take end_ remaining in
              let remaining := trim (drop end_ remaining) in
              params_loop fuel (trim (skip_comma remaining)) (<[key := value]> params)
        | None => Ok params
        end
  end.

Definition parse_auth_params (input : bytes) : Res Params :=
  params_loop (S (length input)) (trim input) ∅.

Section auth.
(** [hex::encode] *)
Context (hex_encode : bytes → bytes).

Definition md5_hex (data : bytes) : Res bytes := h ← md5_hash data; Ok (hex_encode h).

(** [format!("{a}:{b}:..")] *)
Definition colons (parts : list bytes) : bytes := join 58 parts.

(** The response a client that knows the password computes. *)
Definition expected_response (params : Params) (nonce method uri username password realm : bytes)
    : Res bytes :=
  ha1 ← md5_hex (colons [username; realm; password]);
  ha2 ← md5_hex (colons [method; uri]);
  match params !! lit "qop" with
  | Some qop =>
      let nc := default (lit "00000001") (params !! lit "nc") in
      let cnonce := default [] (params !! lit "cnonce") in
      md5_hex (colons [ha1; nonce; nc; cnonce; qop; ha2])
  | None => md5_hex (colons [ha1; nonce; ha2])
  end.

Definition verify_params (params : Params) (method uri username password realm : bytes)
    : Res bool :=
  match params !! lit "username" with
  | None => Ok false
  | Some client_username =>
      if negb (bytes_eqb client_username username) then Ok false
      else
        match params !! lit "realm", params !! lit "nonce", params !! lit "uri",
              params !! lit "response" with
        | Some client_realm, Some client_nonce, Some client_uri, Some client_response =>
            expected ← expected_response params client_nonce method uri username password realm;
            Ok (constant_time_str_eq client_response expected
                && constant_time_str_eq client_realm realm
                && constant_time_str_eq client_uri uri)
        | _, _, _, _ => Ok false
        end
  end.

Definition verify_digest_auth (auth_header method uri username password realm : bytes)
    : Res bool :=
  let header := trim auth_header in
  match (match strip_prefix (lit "Digest") header with
         | Some s => Some (trim s)
         | None => option_map trim (strip_prefix (lit "digest") header)
         end) with
  | None => Ok false
  | Some params_str =>
      match parse_auth_params params_str with
      | Ok params => verify_params params method uri username password realm
      | Err _ => Ok false
      | Panic => Panic
      | OutOfFuel => OutOfFuel
      end
  end.
End auth.

Example md5_empty : md5_hash [] =
  Ok [0xd4;0x1d;0x8c;0xd9;0x8f;0x00;0xb2;0x04;0xe9;0x80;0x09;0x98;0xec;0xf8;0x42;0x7e].
Proof. vm_compute. reflexivity. Qed.

Example md5_alphabet : md5_hash (lit "ABCDEFGHIJKLMNOPQRSTUVWXYZabcdefghijklmnopqrstuvwxyz0123456789") =
  Ok [0xd1;0x74;0xab;0x98;0xd2;0x77;0xd9;0xf5;0xa5;0x61;0x1c;0x2c;0x9f;0x41;0x9d;0x9f].
Proof. vm_compute. reflexivity. Qed.

(** ** MD5: the buffered computation against RFC 1321 *)

(** [n] whole blocks at the front of [l]. *)
Fixpoint absorb (n : nat) (st : Words) (l : bytes) : Words :=
  match n with
  | O => st
  | S n => absorb n (process_block st (take 64 l)) (drop 64 l)
  end.

(** The padded message: one bit, zeros up to 56 modulo 64, the bit length. *)
Definition padding (n : Z) : bytes :=
  0x80 :: replicate (Z.to_nat ((55 - n) mod 64)) 0 ++ to_le 8 (wrap64 (n * 8)).

Definition words_bytes (w : Words) : bytes :=
  let '(a, b, c, d) := w in to_le 4 a ++ to_le 4 b ++ to_le 4 c ++ to_le 4 d.

(** MD5 of a whole message, without any buffer. *)
Definition md5_spec (l : bytes) : bytes :=
  let padded := l ++ padding (zlen l) in
  words_bytes (absorb (length padded / 64) (md_state Md5_new) padded).

Lemma absorb_app n m st a b :
  length a = (64 * n)%nat → absorb (n + m) st (a ++ b) = absorb m (absorb n st a) b.
Proof.
  revert st a. induction n as [|n IH]; intros st a Ha; cbn [absorb Nat.add].
  - destruct a; [done | cbn in Ha; lia].
  - rewrite take_app_le, drop_app_le by lia. apply IH. rewrite length_drop. lia.
Qed.

Lemma absorb_block st block : length block = 64%nat → absorb 1 st block = process_block st block.
Proof. intros H. cbn [absorb]. by rewrite take_ge by lia. Qed.

Lemma absorb_prefix n st a b : length a = (64 * n)%nat → absorb n st (a ++ b) = absorb n st a.
Proof. intros H. rewrite <-(Nat.add_0_r n) at 1. by rewrite absorb_app. Qed.

(** The state after the message [l]: [a] is absorbed, [b] is buffered. *)
Record md5_inv (m : Md5) (l a b : bytes) (n : nat) : Prop := {
  inv_split : l = a ++ b;
  inv_whole : length a = (64 * n)%nat;
  inv_rest : (length b < 64)%nat;
  inv_state : md_state m = absorb n (md_state Md5_new) a;
  inv_buffer : take (length b) (md_buffer m) = b;
  inv_length : length (md_buffer m) = 64%nat;
  inv_count : md_count m = wrap64 (zlen l)
}.

Lemma land_63 x : Z.land x 0x3F = x mod 64.
Proof. change 0x3F with (Z.ones 6). by rewrite Z.land_ones by lia. Qed.

Lemma used_is_rest m l a b n : md5_inv m l a b n → Z.land (md_count m) 0x3F = zlen b.
Proof.
  intros [-> Ha Hb _ _ _ ->]. rewrite land_63. unfold wrap64, zlen.
  rewrite length_app, Ha. dm_lia.
Qed.

Lemma copy_at_Ok buffer i src :
  0 ≤ i → i + zlen src ≤ zlen buffer →
  copy_at buffer i src
  = Ok (take (Z.to_nat i) buffer ++ src ++ drop (Z.to_nat i + length src) buffer).
Proof.
  intros H1 H2. unfold copy_at.
  by rewrite (proj2 (Z.leb_le _ _) H1), (proj2 (Z.leb_le _ _) H2).
Qed.

Lemma update_loop_blocks fuel st data offset :
  0 ≤ offset ≤ zlen data → (Z.to_nat (zlen data - offset) < 64 * fuel)%nat →
  let k := Z.to_nat ((zlen data - offset) / 64) in
  update_loop fuel st data offset
  = Ok (absorb k st (drop (Z.to_nat offset) data), offset + 64 * Z.of_nat k).
Proof.
  revert st offset. induction fuel as [|fuel IH]; intros st offset Ho Hf k; [lia|].
  cbn [update_loop]. destruct (Z.leb_spec (offset + 64) (zlen data)) as [Hle|Hgt].
  - assert (k = S (Z.to_nat ((zlen data - (offset + 64)) / 64))) as ->.
    { unfold k. replace (zlen data - offset) with (zlen data - (offset + 64) + 1 * 64) by lia.
      rewrite Z.div_add by lia.
      assert (0 ≤ (zlen data - (offset + 64)) / 64) by (apply Z.div_pos; lia). lia. }
    rewrite slice_in_range by lia. cbn [mbind Res_bind].
    rewrite IH by lia. cbn [absorb]. f_equal. f_equal; [|lia].
    rewrite drop_drop. f_equal; [|f_equal; lia]. f_equal.
    f_equal. lia.
  - assert (k = O) as -> by (unfold k; rewrite Z.div_small by lia; done). cbn [absorb]. f_equal. f_equal. lia.
Qed.

(** Absorbing [data] from [offset] on a block boundary keeps the invariant. *)
Lemma update_blocks_inv m l a n data offset :
  0 ≤ offset ≤ zlen data →
  l = a ++ take (Z.to_nat offset) data →
  length l = (64 * n)%nat → md_state m = absorb n (md_state Md5_new) l →
  length (md_buffer m) = 64%nat → md_count m = wrap64 (zlen (a ++ data)) →
  ∃ m' a' b' n', update_blocks m data offset = Ok m' ∧ md5_inv m' (a ++ data) a' b' n'.
Proof.
  intros Ho Hl Hn Hst Hbuf Hcount. unfold update_blocks.
  rewrite update_loop_blocks by (unfold zlen in *; lia). cbn [mbind Res_bind].
  set (k := Z.to_nat ((zlen data - offset) / 64)).
  set (rest := drop (Z.to_nat offset) data).
  assert (length rest = Z.to_nat (zlen data - offset)) as Hrest
    by (unfold rest, zlen; rewrite length_drop; lia).
  assert (64 * k ≤ length rest < 64 * k + 64)%nat as Hk by (unfold k; dm_lia).
  assert (a ++ data = (l ++ take (64 * k) rest) ++ drop (64 * k) rest) as Hsplit.
  { rewrite <-app_assoc, take_drop, Hl, <-app_assoc. unfold rest. by rewrite take_drop. }
  assert (length (l ++ take (64 * k) rest) = (64 * (n + k))%nat) as Hwhole
    by (rewrite length_app, length_take; lia).
  assert (absorb k (md_state m) rest
          = absorb (n + k) (md_state Md5_new) (l ++ take (64 * k) rest)) as Habs.
  { rewrite absorb_app, <-Hst by done. rewrite <-(take_drop (64 * k) rest) at 1.
    apply absorb_prefix. rewrite length_take. lia. }
  destruct (Z.ltb_spec (offset + 64 * Z.of_nat k) (zlen data)) as [Hlt|Hge].
  - assert (slice_from data (offset + 64 * Z.of_nat k) = Ok (drop (64 * k) rest)) as ->.
    { unfold slice_from. rewrite slice_in_range by lia. f_equal.
      rewrite take_ge by (rewrite length_drop; unfold zlen in *; lia).
      unfold rest. rewrite drop_drop. f_equal. lia. }
    cbn [mbind Res_bind].
    rewrite copy_at_Ok; [| lia | unfold zlen; rewrite length_drop; lia].
    cbn [mbind Res_bind].
    eexists _, (l ++ take (64 * k) rest), (drop (64 * k) rest), (n + k)%nat.
    split; [done|]. split; cbn [md_state md_buffer md_count]; try done.
    + rewrite length_drop. lia.
    + change (Z.to_nat 0) with O. rewrite take_0, app_nil_l. by rewrite take_app_length.
    + change (Z.to_nat 0) with O. rewrite take_0, app_nil_l, Nat.add_0_l.
      rewrite length_app, !length_drop. lia.
  - assert (drop (64 * k) rest = []) as Hnil by (apply length_zero_iff_nil; rewrite length_drop; unfold zlen in *; lia).
    rewrite Hnil, app_nil_r in Hsplit.
    eexists _, (l ++ take (64 * k) rest), [], (n + k)%nat.
    split; [done|]. split; cbn [md_state md_buffer md_count]; try done.
    + by rewrite app_nil_r.
    + cbn. lia.
Qed.

Lemma Md5_new_inv : md5_inv Md5_new [] [] [] 0.
Proof. split; cbn; try done. lia. Qed.

Lemma wrap64_add x y : wrap64 (wrap64 x + y) = wrap64 (x + y).
Proof. unfold wrap64. apply Zplus_mod_idemp_l. Qed.

Lemma update_inv m l a b n data :
  md5_inv m l a b n →
  ∃ m' a' b' n', update m data = Ok m' ∧ md5_inv m' (l ++ data) a' b' n'.
Proof.
  intros H. unfold update. rewrite (used_is_rest _ _ _ _ _ H).
  destruct H as [-> Ha Hb Hst Hbuf Hlen Hcount].
  rewrite Hcount, wrap64_add, <-zlen_app.
  destruct (Z.eqb_spec (zlen b) 0) as [H0|Hne]; cbn [negb].
  - apply zlen_0 in H0 as ->. rewrite app_nil_r.
    eapply update_blocks_inv with (l := a) (n := n); cbn; try done.
    + split; [lia | apply zlen_nonneg].
    + change (Z.to_nat 0) with O. by rewrite take_0, app_nil_r.
  - assert (0 ≤ zlen b < 64) as Hb' by (unfold zlen; lia).
    pose proof (zlen_nonneg data) as Hd.
    set (c := Z.min (64 - zlen b) (zlen data)).
    rewrite slice_in_range by lia. cbn [mbind Res_bind].
    change (Z.to_nat 0) with O. rewrite drop_0, Z.sub_0_r.
    assert (length (take (Z.to_nat c) data) = Z.to_nat c) as Hc
      by (rewrite length_take; unfold zlen in *; lia).
    rewrite copy_at_Ok; [|lia | unfold zlen in *; lia]. cbn [mbind Res_bind].
    rewrite length_zlen, Hbuf.
    destruct (Z.eqb_spec (zlen b + c) 64) as [Hfull|Hpart].
    + rewrite drop_ge, app_nil_r by (unfold zlen in *; lia).
      rewrite <-app_assoc, app_assoc, <-(app_assoc a b data), (app_assoc a b data).
      eapply (update_blocks_inv _ ((a ++ b) ++ take (Z.to_nat c) data) (a ++ b) (n + 1));
        cbn [md_state md_buffer md_count].
      * lia.
      * done.
      * rewrite !length_app, Hc. unfold zlen in *. lia.
      * rewrite <-app_assoc, absorb_app by done. rewrite absorb_block, Hst; [done|].
        rewrite length_app, Hc. unfold zlen in *. lia.
      * rewrite length_app, Hc. unfold zlen in *. lia.
      * done.
    + assert (c = zlen data) as Hcd by lia. rewrite Hcd in *. rewrite length_zlen in *.
      rewrite take_ge by lia.
      eexists _, a, (b ++ data), n. split; [done|]. split; cbn [md_state md_buffer md_count].
      * by rewrite app_assoc.
      * done.
      * rewrite length_app. unfold zlen in *. lia.
      * done.
      * rewrite app_assoc. apply take_app_length.
      * rewrite !length_app, length_drop. unfold zlen in *. lia.
      * done.
Qed.

(** Feeding a message in pieces. *)
Fixpoint updates (m : Md5) (pieces : list bytes) : Res Md5 :=
  match pieces with
  | [] => Ok m
  | p :: pieces => m ← update m p; updates m pieces
  end.

Lemma updates_inv pieces m l a b n :
  md5_inv m l a b n →
  ∃ m' a' b' n', updates m pieces = Ok m' ∧ md5_inv m' (l ++ concat pieces) a' b' n'.
Proof.
  revert m l a b n. induction pieces as [|p pieces IH]; intros m l a b n H.
  - cbn. rewrite app_nil_r. by eexists _, _, _, _.
  - destruct (update_inv _ _ _ _ _ p H) as (m1 & a1 & b1 & n1 & E & H1).
    destruct (IH _ _ _ _ _ H1) as (m2 & a2 & b2 & n2 & E2 & H2).
    cbn [updates concat]. rewrite E. cbn [mbind Res_bind]. rewrite app_assoc.
    by eexists _, _, _, _.
Qed.

Lemma copy_at_mid x y z i src :
  i = zlen x → length y = length src →
  copy_at (x ++ y ++ z) i src = Ok (x ++ src ++ z).
Proof.
  intros -> Hy. rewrite copy_at_Ok.
  - rewrite length_zlen, take_app_length. do 3 f_equal.
    rewrite app_assoc. apply drop_app_length'. rewrite length_app. lia.
  - apply zlen_nonneg.
  - unfold zlen. rewrite !length_app. lia.
Qed.

(** Rewrites the middle of a buffer split as [take n], [take k], [drop]. *)
Lemma copy_at_rest x r i src :
  i = zlen x → (length src ≤ length r)%nat →
  copy_at (x ++ r) i src = Ok (x ++ src ++ drop (length src) r).
Proof.
  intros Hi Hl. rewrite <-(take_drop (length src) r) at 1.
  apply copy_at_mid; [done|]. rewrite length_take. lia.
Qed.

Lemma to_le_8_length x : length (to_le 8 x) = 8%nat.
Proof. apply length_to_le. Qed.

Lemma finalize_spec m l a b n : md5_inv m l a b n → finalize m = Ok (md5_spec l).
Proof.
  intros H. unfold finalize. rewrite (used_is_rest _ _ _ _ _ H).
  destruct H as [-> Ha Hb Hst Hbuf Hlen Hcount].
  rewrite Hcount, <-(take_drop (length b) (md_buffer m)), Hbuf.
  set (r := drop (length b) (md_buffer m)).
  assert (length r = 64 - length b)%nat as Hr by (unfold r; rewrite length_drop; lia).
  rewrite (copy_at_rest b r) by (cbn; lia). cbn [mbind Res_bind length].
  assert (wrap64 (wrap64 (zlen (a ++ b)) * 8) = wrap64 (zlen (a ++ b) * 8)) as ->
    by (unfold wrap64; apply Zmult_mod_idemp_l).
  set (bits := to_le 8 (wrap64 (zlen (a ++ b) * 8))).
  assert (length bits = 8%nat) as Hbits by apply length_to_le.
  unfold md5_spec, padding. fold bits.
  assert (zlen (a ++ b) = 64 * Z.of_nat n + zlen b) as Hz by (unfold zlen; rewrite length_app; lia).
  destruct (Z.ltb_spec (zlen b) 56) as [Hlt|Hge].
  - assert (length b < 56)%nat as Hlt' by (unfold zlen in Hlt; lia).
    replace ((55 - zlen (a ++ b)) mod 64) with (55 - zlen b)
      by (rewrite Hz; unfold zlen in *; dm_lia).
    set (zs := replicate (Z.to_nat (55 - zlen b)) 0).
    assert (length zs = 55 - length b)%nat as Hzs
      by (unfold zs; rewrite length_replicate; unfold zlen in *; lia).
    rewrite (app_assoc b [128]), (copy_at_rest (b ++ [128]) (drop 1 r))
      by (rewrite ?zlen_app, ?length_drop; (done || lia)).
    cbn [mbind Res_bind]. rewrite app_assoc, copy_at_rest;
      [| rewrite !zlen_app; unfold zlen in *; cbn; lia
       | rewrite !length_drop; lia].
    cbn [mbind Res_bind]. rewrite drop_ge, app_nil_r by (rewrite !length_drop; lia).
    rewrite <-!app_assoc. cbn [app].
    replace (Nat.div (length (a ++ b ++ 128 :: zs ++ bits)) 64) with (n + 1)%nat.
    2:{ rewrite !length_app. cbn [length]. rewrite length_app.
        replace (length a + (length b + S (length zs + length bits)))%nat
          with ((n + 1) * 64)%nat by lia. by rewrite Nat.div_mul. }
    rewrite absorb_app, <-Hst, absorb_block by
      (rewrite ?length_app; cbn [length]; rewrite ?length_app; lia).
    unfold words_bytes. by destruct (process_block _ _) as [[[? ?] ?] ?].
  - assert (56 ≤ length b)%nat as Hge' by (unfold zlen in Hge; lia).
    replace ((55 - zlen (a ++ b)) mod 64) with (119 - zlen b)
      by (rewrite Hz; unfold zlen in *; dm_lia).
    set (zs := replicate (Z.to_nat (63 - zlen b)) 0).
    assert (length zs = 63 - length b)%nat as Hzs
      by (unfold zs; rewrite length_replicate; unfold zlen in *; lia).
    rewrite (app_assoc b [128]), (copy_at_rest (b ++ [128]) (drop 1 r))
      by (rewrite ?zlen_app, ?length_drop; (done || lia)).
    cbn [mbind Res_bind]. rewrite drop_ge, app_nil_r by (rewrite !length_drop; lia).
    set (block1 := (b ++ [128]) ++ zs).
    assert (length block1 = 64%nat) as Hb1
      by (unfold block1; rewrite !length_app; cbn [length]; lia).
    change (copy_at block1 0) with (copy_at ([] ++ block1) 0).
    rewrite copy_at_rest by (rewrite ?length_replicate; (done || lia)).
    cbn [mbind Res_bind]. rewrite app_nil_l, copy_at_rest;
      [| done | rewrite length_drop, length_replicate; lia].
    cbn [mbind Res_bind]. rewrite length_replicate, drop_ge, app_nil_r
      by (rewrite length_drop; lia).
    replace (Z.to_nat (119 - zlen b)) with (Z.to_nat (63 - zlen b) + 56)%nat
      by (unfold zlen in *; lia).
    rewrite replicate_add. fold zs.
    replace ((a ++ b) ++ 128 :: (zs ++ replicate 56 0) ++ bits)
      with (a ++ block1 ++ replicate 56 0 ++ bits)
      by (unfold block1; by rewrite <-!app_assoc).
    replace (Nat.div (length (a ++ block1 ++ replicate 56 0 ++ bits)) 64) with (n + (1 + 1))%nat.
    2:{ rewrite !length_app, length_replicate.
        replace (length a + (length block1 + (56 + length bits)))%nat
          with ((n + 2) * 64)%nat by lia. by rewrite Nat.div_mul. }
    rewrite absorb_app, <-Hst, absorb_app, !absorb_block by
      (rewrite ?length_app, ?length_replicate; lia).
    unfold words_bytes. by destruct (process_block _ _) as [[[? ?] ?] ?].
Qed.

Lemma md5_hash_spec l : md5_hash l = Ok (md5_spec l).
Proof.
  unfold md5_hash. destruct (update_inv _ _ _ _ _ l Md5_new_inv) as (m & a & b & n & E & H).
  rewrite E. exact (finalize_spec _ _ _ _ _ H).
Qed.

(** MD5 of a message does not depend on how it is cut into [update] calls:
    whatever the pieces, the buffered computation never panics and its digest
    is RFC 1321's, the blocks of the message followed by the one bit, the
    zeros and the 64-bit length; [md5_hash] of the whole message is the same. *)
Theorem md5_streaming pieces :
  (m ← updates Md5_new pieces; finalize m) = Ok (md5_spec (concat pieces))
  ∧ md5_hash (concat pieces) = Ok (md5_spec (concat pieces)).
Proof.
  split; [|apply md5_hash_spec].
  destruct (updates_inv pieces _ _ _ _ _ Md5_new_inv) as (m & a & b & n & E & H).
  rewrite E. exact (finalize_spec _ _ _ _ _ H).
Qed.

Lemma md5_spec_length l : length (md5_spec l) = 16%nat.
Proof.
  unfold md5_spec, words_bytes. destruct (absorb _ _ _) as [[[a b] c] d].
  by rewrite !length_app, !length_to_le.
Qed.

Lemma md5_spec_bytes l : bytes_ok (md5_spec l).
Proof.
  unfold md5_spec, words_bytes. destruct (absorb _ _ _) as [[[a b] c] d].
  rewrite !bytes_ok_app. auto using bytes_ok_to_le.
Qed.

(** ** The parameters of an Authorization header *)
Lemma length_skip_comma l : (length (skip_comma l) ≤ length l)%nat.
Proof.
  unfold skip_comma. destruct (strip_prefix [44] l) as [r|] eqn:E; [|done].
  apply strip_prefix_Some in E as ->. cbn. lia.
Qed.

Lemma params_loop_total fuel remaining params :
  (length remaining < fuel)%nat → safe (params_loop fuel remaining params).
Proof.
  revert remaining params. induction fuel as [|fuel IH]; intros l params Hf; [lia|].
  assert (∀ l', (length (trim (skip_comma (trim l'))) ≤ length l')%nat) as Hcut.
  { intros l'. etrans; [apply length_trim|]. etrans; [apply length_skip_comma|]. apply length_trim. }
  cbn [params_loop]. destruct (zlen l =? 0); [done|].
  pose proof (length_trim l) as Ht.
  destruct (find_byte (Z.eqb 61) (trim l)) as [i|] eqn:Ei; [|done].
  apply find_byte_lt in Ei. set (r := trim (drop (S i) (trim l))).
  assert (length r < length l)%nat as Hr.
  { unfold r. pose proof (length_trim (drop (S i) (trim l))) as H.
    rewrite length_drop in H. lia. }
  destruct (starts_with [34] r).
  - destruct (find_byte (Z.eqb 34) (drop 1 r)) as [j|]; [|done].
    apply IH. eapply Nat.le_lt_trans; [apply Hcut|]. rewrite !length_drop. lia.
  - apply IH. eapply Nat.le_lt_trans; [apply Hcut|]. rewrite length_drop. lia.
Qed.

Lemma parse_auth_params_safe input : safe (parse_auth_params input).
Proof. apply params_loop_total. pose proof (length_trim input). lia. Qed.

(** [key="value"] *)
Definition param_text (kv : bytes * bytes) : bytes := kv.1 ++ [61; 34] ++ kv.2 ++ [34].

(** [k1="v1", k2="v2", ..] *)
Fixpoint render_params (kvs : list (bytes * bytes)) : bytes :=
  match kvs with
  | [] => []
  | [kv] => param_text kv
  | kv :: kvs => param_text kv ++ [44; 32] ++ render_params kvs
  end.

(** The key is a non-empty word of printable ASCII without the equals sign, the value has
    no quote. *)
Definition param_ok (kv : bytes * bytes) : bool :=
  negb (bytes_eqb kv.1 []) && forallb is_solid kv.1 && bool_decide (lacks 61 kv.1)
  && bool_decide (lacks 34 kv.2).

Lemma param_ok_inv kv :
  param_ok kv = true →
  ∃ k0 k, kv.1 = k0 :: k ∧ is_solid k0 = true ∧ trimmed kv.1 = true
        ∧ lacks 61 kv.1 ∧ lacks 34 kv.2.
Proof.
  unfold param_ok. rewrite !andb_true_iff, negb_true_iff, !bool_decide_eq_true.
  intros [[[Hne Hs] H61] H34]. destruct kv as [[|k0 k] v]; cbn [fst snd] in *; [done|].
  exists k0, k. split; [done|]. split; [|auto using trimmed_all_solid].
  cbn in Hs. by apply andb_true_iff in Hs as [? _].
Qed.

Lemma render_params_end kvs :
  kvs ≠ [] → ∃ m, render_params kvs = m ++ [34].
Proof.
  induction kvs as [|kv [|kv' kvs] IH]; intros Hne; [done| |].
  - exists (kv.1 ++ [61; 34] ++ kv.2). cbn [render_params]. unfold param_text.
    by rewrite <-!app_assoc.
  - destruct (IH ltac:(done)) as [m Hm]. cbn [render_params] in *. rewrite Hm.
    exists (param_text kv ++ [44; 32] ++ m). by rewrite <-!app_assoc.
Qed.

(** The text after a parameter: nothing, or a comma, a space and the rest. *)
Definition params_tail (kvs : list (bytes * bytes)) : bytes :=
  match kvs with [] => [] | _ => [44; 32] ++ render_params kvs end.

Lemma render_params_cons kv kvs : render_params (kv :: kvs) = param_text kv ++ params_tail kvs.
Proof. destruct kvs; cbn [render_params params_tail]; [by rewrite app_nil_r | done]. Qed.

Lemma params_tail_end kvs : kvs ≠ [] → ∃ m, params_tail kvs = 44 :: m ++ [34].
Proof.
  intros Hne. destruct (render_params_end kvs Hne) as [m Hm].
  exists (32 :: m). destruct kvs; [done|]. cbn [params_tail]. by rewrite Hm.
Qed.

(** A quoted value and what follows it end in a quote. *)
Lemma trimmed_value a v kvs :
  is_solid a = true → trimmed (a :: v ++ 34 :: params_tail kvs) = true.
Proof.
  intros Ha. destruct kvs as [|kv kvs]; [by apply trimmed_solid|].
  destruct (params_tail_end (kv :: kvs) ltac:(done)) as [m ->].
  rewrite !app_comm_cons, app_assoc. by apply trimmed_solid.
Qed.

Lemma render_params_trimmed kvs :
  forallb param_ok kvs = true → trimmed (render_params kvs) = true.
Proof.
  destruct kvs as [|kv kvs]; [done|]. cbn [forallb]. rewrite andb_true_iff. intros [Hkv _].
  destruct (param_ok_inv kv Hkv) as (k0 & k & Hk & Hs & _).
  rewrite render_params_cons. unfold param_text. rewrite Hk, <-!app_assoc. cbn [app].
  rewrite !app_comm_cons, app_assoc. by apply trimmed_value.
Qed.

Lemma params_loop_render kvs fuel params :
  forallb param_ok kvs = true → (length kvs < fuel)%nat →
  params_loop fuel (render_params kvs) params
  = Ok (fold_left (λ m kv, <[kv.1 := kv.2]> m) kvs params).
Proof.
  revert fuel params. induction kvs as [|kv kvs IH]; intros fuel params Hok Hf;
    (destruct fuel as [|fuel]; [cbn in Hf; lia|]); [done|].
  pose proof (trim_id _ (render_params_trimmed _ Hok)) as Htrim.
  cbn [forallb] in Hok. apply andb_true_iff in Hok as [Hkv Hkvs].
  destruct (param_ok_inv kv Hkv) as (k0 & k & Hk & _ & Hkt & H61 & H34).
  cbn [params_loop]. rewrite Htrim. clear Htrim.
  destruct (Z.eqb_spec (zlen (render_params (kv :: kvs))) 0) as [H0|_].
  { apply zlen_0 in H0. rewrite render_params_cons in H0. unfold param_text in H0.
    by rewrite Hk in H0. }
  rewrite render_params_cons. unfold param_text. rewrite <-!app_assoc. cbn [app].
  rewrite find_byte_here by done.
  rewrite take_app_length, (trim_id _ Hkt).
  rewrite (cons_middle 61), (app_assoc kv.1), drop_app_length' by (rewrite length_app; cbn; lia).
  rewrite (trim_id (34 :: kv.2 ++ 34 :: params_tail kvs)) by (by apply trimmed_value).
  replace (starts_with [34] (34 :: kv.2 ++ 34 :: params_tail kvs)) with true
    by (symmetry; apply starts_with_true; by eexists).
  cbn [drop]. rewrite drop_0, find_byte_here, take_app_length by done.
  rewrite (cons_middle 34), (app_assoc kv.2), drop_app_length' by (rewrite length_app; cbn; lia).
  cbn [fold_left length] in *.
  destruct kvs as [|kv' kvs]; [by apply (IH fuel); [|cbn; lia]|].
  replace (trim (skip_comma (trim (params_tail (kv' :: kvs))))) with (render_params (kv' :: kvs));
    [apply IH; [done | cbn in *; lia]|].
  destruct (params_tail_end (kv' :: kvs) ltac:(done)) as [m Hm].
  rewrite (trim_id (params_tail (kv' :: kvs))) by (rewrite Hm; by apply (trimmed_solid 44 m 34)).
  change (skip_comma (params_tail (kv' :: kvs))) with (32 :: render_params (kv' :: kvs)).
  rewrite trim_space. symmetry. by apply trim_id, render_params_trimmed.
Qed.

Lemma parse_render_params kvs :
  forallb param_ok kvs = true →
  parse_auth_params (render_params kvs) = Ok (fold_left (λ m kv, <[kv.1 := kv.2]> m) kvs ∅).
Proof.
  intros H. unfold parse_auth_params. rewrite (trim_id _ (render_params_trimmed _ H)).
  apply params_loop_render; [done|].
  induction kvs as [|kv kvs IH]; [cbn; lia|].
  cbn [forallb] in H. apply andb_true_iff in H as [_ H]. specialize (IH H).
  rewrite render_params_cons. unfold param_text.
  destruct kvs; cbn [params_tail length] in *; rewrite ?length_app; cbn [length];
    rewrite ?length_app in *; cbn [length]; lia.
Qed.

(** ** The comparison of responses *)

(** The exclusive or of all bytes. *)
Definition xor_sum (l : bytes) : Z := foldr Z.lxor 0 l.

Lemma fold_xor a b acc :
  length a = length b →
  fold_left (λ acc '(x, y), Z.lxor (Z.lxor acc x) y) (combine a b) acc
  = Z.lxor acc (Z.lxor (xor_sum a) (xor_sum b)).
Proof.
  revert b acc. induction a as [|x a IH]; intros [|y b] acc Hl; cbn in *; try lia.
  - by rewrite Z.lxor_0_r.
  - rewrite IH by lia. apply Z.bits_inj'. intros n _. rewrite !Z.lxor_spec.
    by repeat destruct (Z.testbit _ n).
Qed.

Lemma constant_time_str_eq_xor a b :
  constant_time_str_eq a b = true ↔ length a = length b ∧ xor_sum a = xor_sum b.
Proof.
  unfold constant_time_str_eq, zlen.
  destruct (Z.eqb_spec (Z.of_nat (length a)) (Z.of_nat (length b))) as [H|H]; cbn [negb].
  - rewrite fold_xor, Z.eqb_eq, Z.lxor_0_l, Z.lxor_eq_0_iff by lia. split; [|tauto].
    split; [lia | done].
  - split; [done|]. intros [? _]. lia.
Qed.

Lemma constant_time_str_eq_refl a : constant_time_str_eq a a = true.
Proof. by apply constant_time_str_eq_xor. Qed.

(** The exclusive or of an even number of hexadecimal digits takes one of 32
    values, that of an odd number one of 32 others. *)
Definition nibble_sum (odd : bool) (x : Z) : bool :=
  let h := Z.shiftr x 4 in
  (0 <=? x) && (x <? 256)
  && (if odd then (h =? 3) || (h =? 6) else (h =? 0) || (h =? 5)).

Lemma nibble_sum_step b x c :
  is_digit16 c = true → nibble_sum b x = true → nibble_sum (negb b) (Z.lxor c x) = true.
Proof.
  intros Hc Hx.
  assert (0 ≤ c < 256) as Hcr.
  { unfold is_digit16 in Hc. rewrite orb_true_iff, !andb_true_iff, !Z.leb_le in Hc. lia. }
  assert (0 ≤ x < 256) as Hxr.
  { unfold nibble_sum in Hx. rewrite !andb_true_iff, Z.leb_le, Z.ltb_lt in Hx. lia. }
  pose proof (forall_range2
    (λ c x, implb (is_digit16 c && nibble_sum b x) (nibble_sum (negb b) (Z.lxor c x)))
    0 256 0 256) as H.
  assert (is_digit16 c && nibble_sum b x = true) as Hcx by (by rewrite Hc, Hx).
  specialize (H ltac:(destruct b; vm_compute; reflexivity) c x ltac:(lia) ltac:(lia)).
  cbv beta in H. by rewrite Hcx in H.
Qed.

Lemma xor_sum_digits l :
  Forall (λ b, is_digit16 b = true) l → nibble_sum (Nat.odd (length l)) (xor_sum l) = true.
Proof.
  induction 1 as [|c l Hc Hl IH]; [done|]. cbn [length xor_sum foldr].
  rewrite Nat.odd_succ, <-Nat.negb_odd. by apply nibble_sum_step.
Qed.

(** Thirty-two texts of 32 characters, one for each of these values: zeros
    and one last character. *)
Definition guess (v : Z) : bytes := replicate 31 48 ++ [Z.lxor 48 v].
Definition guesses : list bytes := List.map (λ i, guess (Z.of_nat i)) (seq 0 16 ++ seq 80 16).

Lemma guess_sum v : xor_sum (guess v) = v.
Proof.
  unfold guess, xor_sum. rewrite foldr_app. cbn [foldr replicate].
  rewrite Z.lxor_0_r. apply Z.bits_inj'. intros n _. rewrite !Z.lxor_spec.
  by repeat destruct (Z.testbit _ n).
Qed.

Lemma guesses_cover l :
  length l = 32%nat → Forall (λ b, is_digit16 b = true) l →
  ∃ r, In r guesses ∧ constant_time_str_eq r l = true.
Proof.
  intros Hlen Hl. pose proof (xor_sum_digits l Hl) as H. rewrite Hlen in H.
  change (Nat.odd 32) with false in H. set (x := xor_sum l) in *.
  exists (guess x). split.
  - assert (0 ≤ x < 256) as Hx.
    { unfold nibble_sum in H. rewrite !andb_true_iff, Z.leb_le, Z.ltb_lt in H. lia. }
    assert (0 ≤ x < 16 ∨ 80 ≤ x < 96) as Hr.
    { unfold nibble_sum in H. rewrite Z.shiftr_div_pow2 in H by lia.
      rewrite !andb_true_iff, orb_true_iff, !Z.eqb_eq in H. change (2 ^ 4) with 16 in H.
      destruct H as [_ [H|H]]; [left | right]; dm_lia. }
    unfold guesses. rewrite in_map_iff. exists (Z.to_nat x).
    split; [f_equal; lia|]. rewrite in_app_iff, !in_seq. lia.
  - apply constant_time_str_eq_xor. rewrite guess_sum, Hlen. split; [|done]. done.
Qed.

(** The header a client sends, without [qop]. *)
Definition digest_header (username realm nonce uri response : bytes) : bytes :=
  lit "Digest " ++ render_params
    [(lit "username", username); (lit "realm", realm); (lit "nonce", nonce);
     (lit "uri", uri); (lit "response", response)].

Lemma header_lookups username realm nonce uri response :
  let m : Params := fold_left (λ m kv, <[kv.1 := kv.2]> m)
    [(lit "username", username); (lit "realm", realm); (lit "nonce", nonce);
     (lit "uri", uri); (lit "response", response)] ∅ in
  m !! lit "username" = Some username ∧ m !! lit "realm" = Some realm
  ∧ m !! lit "nonce" = Some nonce ∧ m !! lit "uri" = Some uri
  ∧ m !! lit "response" = Some response ∧ m !! lit "qop" = None.
Proof. repeat split; vm_compute; reflexivity. Qed.

Section accept.
Context (hex_encode : bytes → bytes).
(** [hex::encode] writes two lower-case hexadecimal digits per byte. *)
Hypothesis hex_length : ∀ l, length (hex_encode l) = (2 * length l)%nat.
Hypothesis hex_digits16 : ∀ l, bytes_ok l → Forall (λ b, is_digit16 b = true) (hex_encode l).

Lemma md5_hex_digits l : ∃ h,
  md5_hex hex_encode l = Ok h ∧ length h = 32%nat ∧ Forall (λ b, is_digit16 b = true) h.
Proof.
  exists (hex_encode (md5_spec l)). unfold md5_hex. rewrite md5_hash_spec.
  rewrite hex_length, md5_spec_length. auto using md5_spec_bytes.
Qed.

Lemma expected_response_digits params nonce method uri username password realm : ∃ h,
  expected_response hex_encode params nonce method uri username password realm = Ok h
  ∧ length h = 32%nat ∧ Forall (λ b, is_digit16 b = true) h.
Proof.
  unfold expected_response.
  destruct (md5_hex_digits (colons [username; realm; password])) as (ha1 & -> & _).
  destruct (md5_hex_digits (colons [method; uri])) as (ha2 & -> & _). cbn [mbind Res_bind].
  destruct (params !! _); apply md5_hex_digits.
Qed.

Section guess.
Context (username realm nonce uri method password : bytes).
Context (Hu : lacks 34 username) (Hr : lacks 34 realm) (Hn : lacks 34 nonce) (Hi : lacks 34 uri).

Lemma verify_digest_header r e :
  lacks 34 r →
  expected_response hex_encode ∅ nonce method uri username password realm = Ok e →
  verify_digest_auth hex_encode (digest_header username realm nonce uri r)
    method uri username password realm = Ok (constant_time_str_eq r e).
Proof using Hu Hr Hn Hi.
  intros Hresp He. unfold verify_digest_auth, digest_header.
  set (kvs := [_; _; _; _; _]).
  assert (forallb param_ok kvs = true) as Hok.
  { unfold kvs, param_ok. cbn [forallb fst snd]. rewrite !(bool_decide_eq_true_2 (lacks 34 _)) by done.
    vm_compute. reflexivity. }
  destruct (render_params_end kvs ltac:(done)) as [m Hm].
  rewrite trim_id by (rewrite Hm; by apply (trimmed_solid 68 (lit "igest " ++ m) 34)).
  change (lit "Digest " ++ render_params kvs) with (lit "Digest" ++ (32 :: render_params kvs)).
  rewrite strip_prefix_app, trim_space, (trim_id _ (render_params_trimmed _ Hok)).
  rewrite (parse_render_params _ Hok). unfold verify_params.
  pose proof (header_lookups username realm nonce uri r) as H. cbv zeta in H. fold kvs in H.
  destruct H as (-> & -> & -> & -> & -> & Hqop). rewrite bytes_eqb_refl. cbn [negb].
  assert (∀ p : Params, p !! lit "qop" = None →
    expected_response hex_encode p nonce method uri username password realm = Ok e) as Hexp.
  { intros p Hp. rewrite <-He. unfold expected_response. rewrite Hp. done. }
  rewrite (Hexp _ Hqop).
  cbn [mbind Res_bind]. by rewrite !constant_time_str_eq_refl, !andb_true_r.
Qed.
End guess.

(** C5 What the Digest check accepts: with the username, realm and uri of the
    request, and any nonce at all, a response is accepted exactly when it has
    as many bytes as the expected one and the same exclusive or.  So whatever
    the password, one of 32 fixed responses is accepted. *)
Theorem digest_auth_guessable username realm nonce uri method password :
  lacks 34 username → lacks 34 realm → lacks 34 nonce → lacks 34 uri →
  let verify r := verify_digest_auth hex_encode (digest_header username realm nonce uri r)
                    method uri username password realm in
  (∃ e, expected_response hex_encode ∅ nonce method uri username password realm = Ok e
      ∧ verify e = Ok true
      ∧ ∀ r, lacks 34 r →
          verify r = Ok (bool_decide (length r = length e ∧ xor_sum r = xor_sum e)))
  ∧ ∃ r, In r guesses ∧ verify r = Ok true.
Proof using hex_length hex_digits16.
  intros Hu Hr Hn Hi verify.
  destruct (expected_response_digits ∅ nonce method uri username password realm)
    as (e & He & Hlen & Hdig).
  assert (∀ r, lacks 34 r → verify r = Ok (constant_time_str_eq r e)) as Hv
    by (intros r H; exact (verify_digest_header username realm nonce uri method password
                             Hu Hr Hn Hi r e H He)).
  split.
  - exists e. split; [done|]. split.
    + rewrite Hv, constant_time_str_eq_refl; [done|]. unfold lacks.
      eapply Forall_impl; [exact Hdig|]. intros b. cbv beta. unfold is_digit16.
      rewrite orb_true_iff, !andb_true_iff, !Z.leb_le, Z.eqb_neq. lia.
    + intros r H. rewrite (Hv r H). f_equal. apply eq_true_iff_eq.
      by rewrite constant_time_str_eq_xor, bool_decide_eq_true.
  - destruct (guesses_cover e Hlen Hdig) as (r & Hin & Heq). exists r. split; [done|].
    rewrite Hv, Heq; [done|].
    assert (forallb (λ r, bool_decide (lacks 34 r)) guesses = true) as H by (vm_compute; reflexivity).
    rewrite forallb_forall in H. specialize (H r Hin). by apply bool_decide_eq_true in H.
Qed.
End accept.

(** [hex::encode], for the witness. *)
Definition hex_encode_sample (l : bytes) : bytes := flat_map (hex_digits 2) l.

Lemma digest_auth_guessable_witness :
  ∃ r, In r guesses
     ∧ verify_digest_auth hex_encode_sample
         (digest_header (lit "admin") (lit "mibee-eye RTSP Server") (lit "00") (lit "/live/cam") r)
         (lit "DESCRIBE") (lit "/live/cam") (lit "admin") (lit "correct horse") (lit "mibee-eye RTSP Server")
       = Ok true.
Proof.
  refine (proj2 (digest_auth_guessable hex_encode_sample _ _ (lit "admin")
    (lit "mibee-eye RTSP Server") (lit "00") (lit "/live/cam") (lit "DESCRIBE")
    (lit "correct horse") _ _ _ _)).
  - induction l as [|b l IH]; [done|]. cbn [hex_encode_sample flat_map length].
    rewrite length_app, length_hex_digits. unfold hex_encode_sample in IH. lia.
  - intros l _. induction l as [|b l IH]; [constructor|]. apply Forall_app.
    split; [apply hex_digits_digits | exact IH].
  - vm_compute. repeat constructor.
  - vm_compute. repeat constructor.
  - vm_compute. repeat constructor.
  - vm_compute. repeat constructor.
Defined.
