(* ===== verification/RtspFraming.v ===== *)
(** * Transport headers, interleaved frames and sequence tracking
      ([crates/protocols/src/rtsp_server/framing.rs]) *)
From Stdlib Require Import ZArith Lia List Bool String.
From stdpp Require Import base option list numbers gmap.
From S2P Require Import Prelude Text.

(** ** The Transport header *)
Record TransportInfo := mkTransport {
  interleaved : option (Z * Z);
  client_port : option (Z * Z);
  server_port : option (Z * Z);
  session_id : bytes;
  ssrc : option Z;
  mode : option bytes;
}.

Definition transport_default : TransportInfo := mkTransport None None None [] None None.

Definition parse_ssrc (value : bytes) : option Z :=
  let value := trim value in
  match parse_u32 value with
  | Some v => Some v
  | None => from_str_radix 16 (2 ^ 32 - 1) (trim_start_matches (lit "0x") value)
  end.

(** [a-b], both numbers within the type; the previous pair otherwise. *)
Definition parse_pair (parse : bytes → option Z) (value : bytes) (old : option (Z * Z))
    : option (Z * Z) :=
  match split 45 value with
  | [a; b] => match parse a, parse b with Some r, Some c => Some (r, c) | _, _ => old end
  | _ => old
  end.

(** One parameter of the header. *)
Definition parse_param (t : TransportInfo) (param : bytes) : TransportInfo :=
  let param := trim param in
  match split_once 61 param with
  | Some (key, value) =>
      let key := to_lowercase (trim key) in
      let value := trim value in
      if bytes_eqb key (lit "interleaved") then
        mkTransport (parse_pair parse_u8 value (interleaved t)) (client_port t) (server_port t)
          (session_id t) (ssrc t) (mode t)
      else if bytes_eqb key (lit "client_port") then
        mkTransport (interleaved t) (parse_pair parse_u16 value (client_port t)) (server_port t)
          (session_id t) (ssrc t) (mode t)
      else if bytes_eqb key (lit "server_port") then
        mkTransport (interleaved t) (client_port t) (parse_pair parse_u16 value (server_port t))
          (session_id t) (ssrc t) (mode t)
      else if bytes_eqb key (lit "ssrc") then
        mkTransport (interleaved t) (client_port t) (server_port t)
          (session_id t) (parse_ssrc value) (mode t)
      else if bytes_eqb key (lit "mode") then
        mkTransport (interleaved t) (client_port t) (server_port t)
          (session_id t) (ssrc t) (Some value)
      else t
  | None => t
  end.

(** [TransportInfo::parse] never fails. *)
Definition transport_parse (header : bytes) : TransportInfo :=
  fold_left parse_param (split 59 header) transport_default.

Definition pair_text (name : bytes) (p : option (Z * Z)) : list bytes :=
  match p with
  | Some (a, b) => [name ++ dec_of_Z a ++ [45] ++ dec_of_Z b]
  | None => []
  end.

Definition transport_serialize (t : TransportInfo) : bytes :=
  join 59 ([lit "RTP/AVP/TCP"]
    ++ pair_text (lit "interleaved=") (interleaved t)
    ++ pair_text (lit "client_port=") (client_port t)
    ++ pair_text (lit "server_port=") (server_port t)
    ++ match ssrc t with Some v => [lit "ssrc=0x" ++ fmt_08x v] | None => [] end
    ++ match mode t with Some m => [lit "mode=" ++ m] | None => [] end).

(** ** Headers *)
Definition get_header (headers : list (bytes * bytes)) (name : bytes) : option bytes :=
  option_map snd (List.find (λ kv, eq_ignore_ascii_case kv.1 name) headers).

(** ** Interleaved frames *)
Definition build_interleaved_frame (channel : Z) (rtp_data : bytes) : Res bytes :=
  if 65535 <? zlen rtp_data then Err "RTP data too large for interleaved transport"
  else Ok ([0x24; channel] ++ to_be 2 (zlen rtp_data) ++ rtp_data).

(** ** Sequence numbers *)
Record RtpHeaderInfo := mkInfo { info_sequence_number : Z; info_ssrc : Z }.

Definition parse_rtp_header_for_tracking (data : bytes) : Res (option RtpHeaderInfo) :=
  if zlen data <? 12 then Ok None
  else
    b0 ← at_ data 0;
    if negb (Z.land (Z.shiftr b0 6) 0x03 =? 2) then Ok None
    else
      seq ← be_at 2 data 2;
      src ← be_at 4 data 8;
      Ok (Some (mkInfo seq src)).

(** [SequenceTracker] is its [last_seq]. *)
Definition SequenceTracker : Type := option Z.
Definition tracker_new : SequenceTracker := None.
Definition tracker_expected (t : SequenceTracker) : Z :=
  match t with Some s => wrap16 (s + 1) | None => 0 end.

Definition tracker_check (t : SequenceTracker) (seq : Z) : option Z * SequenceTracker :=
  match t with
  | Some last =>
      let expected := wrap16 (last + 1) in
      if seq =? expected then (None, Some seq)
      else
        let gap := wrap16 (seq - expected) in
        (if 0 <? gap then Some gap else None, Some seq)
  | None => (None, Some seq)
  end.

(** ** The Transport header, there and back *)

(** What [serialize] can write so that [parse] reads it. *)
Definition pair_ok (max : Z) (p : option (Z * Z)) : Prop :=
  match p with Some (a, b) => 0 ≤ a ≤ max ∧ 0 ≤ b ≤ max | None => True end.

Definition transport_ok (t : TransportInfo) : Prop :=
  pair_ok (2 ^ 8 - 1) (interleaved t) ∧ pair_ok (2 ^ 16 - 1) (client_port t)
  ∧ pair_ok (2 ^ 16 - 1) (server_port t)
  ∧ match ssrc t with Some v => is_u32 v | None => True end
  ∧ match mode t with Some m => lacks 59 m ∧ trimmed m = true | None => True end.

Lemma lacks_digits c l : (c < 48 ∨ 57 < c) → Forall (λ b, 48 ≤ b ≤ 57) l → lacks c l.
Proof.
  intros Hc H. eapply Forall_impl; [exact H|]. intros b. cbv beta. rewrite Z.eqb_neq. lia.
Qed.

Lemma lacks_digits16 c l :
  (c < 48 ∨ 57 < c < 97 ∨ 102 < c) → Forall (λ b, is_digit16 b = true) l → lacks c l.
Proof.
  intros Hc H. eapply Forall_impl; [exact H|]. intros b. cbv beta. unfold is_digit16.
  rewrite orb_true_iff, !andb_true_iff, !Z.leb_le, Z.eqb_neq. lia.
Qed.

Lemma solid_digits l : Forall (λ b, 48 ≤ b ≤ 57) l → forallb is_solid l = true.
Proof.
  intros H. apply forallb_forall. intros b Hb. rewrite List.Forall_forall in H. specialize (H b Hb).
  unfold is_solid, is_space. rewrite !andb_true_iff, negb_true_iff, orb_false_iff, andb_false_iff,
    Z.leb_le, Z.ltb_lt, !Z.leb_gt, Z.eqb_neq. lia.
Qed.

Lemma parse_pair_dec max a b old :
  0 ≤ a ≤ max → 0 ≤ b ≤ max →
  parse_pair (from_str_radix 10 max) (dec_of_Z a ++ [45] ++ dec_of_Z b) old = Some (a, b).
Proof.
  intros Ha Hb. unfold parse_pair.
  change (dec_of_Z a ++ [45] ++ dec_of_Z b) with (join 45 [dec_of_Z a; dec_of_Z b]).
  rewrite split_join; [| |done].
  - by rewrite !parse_dec.
  - rewrite !Forall_cons. split_and!; [| |constructor];
      (apply lacks_digits; [lia | apply dec_of_Z_digits]).
Qed.

Lemma solid_pair a b : forallb is_solid (dec_of_Z a ++ [45] ++ dec_of_Z b) = true.
Proof.
  rewrite !forallb_app, !(solid_digits (dec_of_Z _)) by apply dec_of_Z_digits. done.
Qed.

(** A parameter [key=value] with a solid key. *)
Lemma parse_param_text t key value param :
  param = key ++ 61 :: value → lacks 61 key → forallb is_solid key = true →
  trimmed param = true → trimmed value = true →
  parse_param t param
  = let key := to_lowercase key in
    if bytes_eqb key (lit "interleaved") then
      mkTransport (parse_pair parse_u8 value (interleaved t)) (client_port t) (server_port t)
        (session_id t) (ssrc t) (mode t)
    else if bytes_eqb key (lit "client_port") then
      mkTransport (interleaved t) (parse_pair parse_u16 value (client_port t)) (server_port t)
        (session_id t) (ssrc t) (mode t)
    else if bytes_eqb key (lit "server_port") then
      mkTransport (interleaved t) (client_port t) (parse_pair parse_u16 value (server_port t))
        (session_id t) (ssrc t) (mode t)
    else if bytes_eqb key (lit "ssrc") then
      mkTransport (interleaved t) (client_port t) (server_port t)
        (session_id t) (parse_ssrc value) (mode t)
    else if bytes_eqb key (lit "mode") then
      mkTransport (interleaved t) (client_port t) (server_port t)
        (session_id t) (ssrc t) (Some value)
    else t.
Proof.
  intros -> Hl Hk Hp Hv. unfold parse_param. rewrite (trim_id _ Hp), split_once_app by done.
  by rewrite (trim_id key), (trim_id value) by auto using trimmed_all_solid.
Qed.

Lemma solid_08x v : forallb is_solid (fmt_08x v) = true.
Proof.
  apply forallb_forall. intros b Hb. pose proof (hex_digits_digits 8 v) as H.
  rewrite List.Forall_forall in H. specialize (H b Hb). unfold is_digit16 in H.
  rewrite orb_true_iff, !andb_true_iff, !Z.leb_le in H. unfold is_solid, is_space.
  rewrite !andb_true_iff, negb_true_iff, orb_false_iff, andb_false_iff,
    Z.leb_le, Z.ltb_lt, !Z.leb_gt, Z.eqb_neq. lia.
Qed.

Lemma parse_ssrc_08x v : is_u32 v → parse_ssrc (lit "0x" ++ fmt_08x v) = Some v.
Proof.
  intros Hv. pose proof (solid_08x v) as Hsolid.
  unfold parse_ssrc. rewrite trim_id by (apply trimmed_all_solid; by rewrite forallb_app).
  assert (parse_u32 (lit "0x" ++ fmt_08x v) = None) as -> by done.
  rewrite trim_start_matches_once; [apply parse_08x; [done | unfold is_u32 in Hv; lia] | done |].
  destruct (strip_prefix _ _) as [r|] eqn:E; [|done]. apply strip_prefix_Some in E.
  pose proof (hex_digits_digits 8 v) as H. unfold fmt_08x in E. rewrite E in H.
  rewrite Forall_app in H. destruct H as [H _].
  apply Forall_cons_1 in H as [_ H]. by apply Forall_cons_1 in H as [H _].
Qed.

(** The effect of each serialized parameter on the parser's state. *)
Lemma parse_pair_param t name a b :
  forallb is_solid name = true → lacks 61 name →
  parse_param t (name ++ [61] ++ dec_of_Z a ++ [45] ++ dec_of_Z b)
  = let key := to_lowercase name in
    let value := dec_of_Z a ++ [45] ++ dec_of_Z b in
    if bytes_eqb key (lit "interleaved") then
      mkTransport (parse_pair parse_u8 value (interleaved t)) (client_port t) (server_port t)
        (session_id t) (ssrc t) (mode t)
    else if bytes_eqb key (lit "client_port") then
      mkTransport (interleaved t) (parse_pair parse_u16 value (client_port t)) (server_port t)
        (session_id t) (ssrc t) (mode t)
    else if bytes_eqb key (lit "server_port") then
      mkTransport (interleaved t) (client_port t) (parse_pair parse_u16 value (server_port t))
        (session_id t) (ssrc t) (mode t)
    else if bytes_eqb key (lit "ssrc") then
      mkTransport (interleaved t) (client_port t) (server_port t)
        (session_id t) (parse_ssrc value) (mode t)
    else if bytes_eqb key (lit "mode") then
      mkTransport (interleaved t) (client_port t) (server_port t)
        (session_id t) (ssrc t) (Some value)
    else t.
Proof.
  intros Hn Hl. pose proof (solid_pair a b) as Hp. apply parse_param_text; auto with mibee.
  apply trimmed_all_solid. rewrite forallb_app, Hn. exact Hp.
Qed.

(** Decides the comparisons of closed keys. *)
Ltac key_cases :=
  cbv zeta;
  repeat match goal with
    | |- context [bytes_eqb ?a ?b] =>
        let v := eval vm_compute in (bytes_eqb a b) in change (bytes_eqb a b) with v
    end; cbv iota; cbn [interleaved client_port server_port session_id ssrc mode].

Lemma parse_interleaved t p :
  interleaved t = None → pair_ok (2 ^ 8 - 1) p →
  fold_left parse_param (pair_text (lit "interleaved=") p) t
  = mkTransport p (client_port t) (server_port t) (session_id t) (ssrc t) (mode t).
Proof.
  destruct t, p as [[a b]|]; cbn [pair_text fold_left interleaved pair_ok]; intros ->; [|done].
  intros [Ha Hb]. change (lit "interleaved=") with (lit "interleaved" ++ [61]).
  rewrite <-app_assoc, parse_pair_param by (try done; vm_compute; repeat constructor).
  key_cases. unfold parse_u8. by rewrite parse_pair_dec.
Qed.

Lemma parse_client_port t p :
  client_port t = None → pair_ok (2 ^ 16 - 1) p →
  fold_left parse_param (pair_text (lit "client_port=") p) t
  = mkTransport (interleaved t) p (server_port t) (session_id t) (ssrc t) (mode t).
Proof.
  destruct t, p as [[a b]|]; cbn [pair_text fold_left client_port pair_ok]; intros ->; [|done].
  intros [Ha Hb]. change (lit "client_port=") with (lit "client_port" ++ [61]).
  rewrite <-app_assoc, parse_pair_param by (try done; vm_compute; repeat constructor).
  key_cases. unfold parse_u16. by rewrite parse_pair_dec.
Qed.

Lemma parse_server_port t p :
  server_port t = None → pair_ok (2 ^ 16 - 1) p →
  fold_left parse_param (pair_text (lit "server_port=") p) t
  = mkTransport (interleaved t) (client_port t) p (session_id t) (ssrc t) (mode t).
Proof.
  destruct t, p as [[a b]|]; cbn [pair_text fold_left server_port pair_ok]; intros ->; [|done].
  intros [Ha Hb]. change (lit "server_port=") with (lit "server_port" ++ [61]).
  rewrite <-app_assoc, parse_pair_param by (try done; vm_compute; repeat constructor).
  key_cases. unfold parse_u16. by rewrite parse_pair_dec.
Qed.

Lemma parse_ssrc_param t v :
  is_u32 v →
  parse_param t (lit "ssrc=0x" ++ fmt_08x v)
  = mkTransport (interleaved t) (client_port t) (server_port t) (session_id t) (Some v) (mode t).
Proof.
  intros Hv.
  rewrite (parse_param_text t (lit "ssrc") (lit "0x" ++ fmt_08x v));
    [| done | vm_compute; repeat constructor | done
     | apply trimmed_all_solid; rewrite forallb_app; by rewrite solid_08x
     | apply trimmed_all_solid; rewrite forallb_app; by rewrite solid_08x].
  cbv zeta. rewrite parse_ssrc_08x by done. done.
Qed.

Lemma parse_mode_param t m :
  trimmed m = true →
  parse_param t (lit "mode=" ++ m)
  = mkTransport (interleaved t) (client_port t) (server_port t) (session_id t) (ssrc t) (Some m).
Proof.
  intros Hm.
  rewrite (parse_param_text t (lit "mode") m);
    [done | done | vm_compute; repeat constructor | done | | done].
  by apply (trimmed_prefix 109 (lit "od") 61 101 m).
Qed.

Lemma pair_text_lacks name p :
  lacks 59 name → Forall (lacks 59) (pair_text name p).
Proof.
  intros Hn. destruct p as [[a b]|]; [|constructor]. cbn [pair_text].
  apply Forall_cons. split; [|constructor]. rewrite !lacks_app.
  split_and!; [done | apply lacks_digits; [lia | apply dec_of_Z_digits]
              | by repeat constructor | apply lacks_digits; [lia | apply dec_of_Z_digits]].
Qed.

(** Parsing a serialized Transport header gives the transport back, for
    any combination of the optional fields, apart from the session id, which
    the header does not carry. *)
Theorem transport_roundtrip t :
  transport_ok t →
  transport_parse (transport_serialize t)
  = mkTransport (interleaved t) (client_port t) (server_port t) [] (ssrc t) (mode t).
Proof.
  destruct t as [il cp sp sid sr md]. unfold transport_ok.
  cbn [interleaved client_port server_port session_id ssrc mode]. intros (Hil & Hcp & Hsp & Hsr & Hmd).
  unfold transport_parse, transport_serialize. cbn [interleaved client_port server_port ssrc mode].
  rewrite split_join; [| |done].
  - rewrite !fold_left_app. cbn [fold_left].
    change (parse_param transport_default (lit "RTP/AVP/TCP")) with transport_default.
    rewrite parse_interleaved, parse_client_port, parse_server_port by done.
    cbn [interleaved client_port server_port ssrc mode session_id transport_default].
    destruct sr as [v|]; cbn [fold_left]; [rewrite parse_ssrc_param by done|];
      (destruct md as [m|]; cbn [fold_left]; [by rewrite parse_mode_param by apply Hmd | done]).
  - rewrite !Forall_app. split_and!; try (apply pair_text_lacks; vm_compute; repeat constructor).
    + vm_compute. repeat constructor.
    + destruct sr as [v|]; [|constructor]. apply Forall_cons. split; [|constructor].
      rewrite lacks_app. split; [vm_compute; repeat constructor|].
      apply lacks_digits16; [lia | apply hex_digits_digits].
    + destruct md as [m|]; [|constructor]. apply Forall_cons. split; [|constructor].
      rewrite lacks_app. split; [vm_compute; repeat constructor | apply Hmd].
Qed.

Lemma transport_roundtrip_witness :
  let t := mkTransport (Some (0, 1)) None (Some (5000, 5001)) (lit "1f") (Some 0x12345678)
             (Some (lit "play")) in
  transport_parse (transport_serialize t)
  = mkTransport (Some (0, 1)) None (Some (5000, 5001)) [] (Some 0x12345678) (Some (lit "play")).
Proof.
  intros t. apply (transport_roundtrip t). unfold transport_ok, is_u32. cbn.
  split_and!; try lia; try done. vm_compute. repeat constructor.
Defined.

(** ** What the sequence tracker reports *)
Fixpoint reported (t : SequenceTracker) (seqs : list Z) : list Z :=
  match seqs with
  | [] => []
  | q :: seqs =>
      let '(gap, t') := tracker_check t q in default 0 gap :: reported t' seqs
  end.

Definition total (l : list Z) : Z := foldr Z.add 0 l.

(** Packets [i < l_1 < l_2 < ..], at most 65535 lost between two of them. *)
Fixpoint increasing (i : Z) (l : list Z) : Prop :=
  match l with [] => True | j :: l => i < j ≤ i + 65536 ∧ increasing j l end.

Lemma last_cons_default (l : list Z) i j : List.last (j :: l) i = List.last l j.
Proof. revert i j. induction l as [|k l IH]; intros i j; [done|]. exact (eq_trans (IH i k) (eq_sym (IH j k))). Qed.

Lemma tracker_check_step s i j :
  i < j ≤ i + 65536 →
  tracker_check (Some (wrap16 (s + i))) (wrap16 (s + j))
  = (if j =? i + 1 then None else Some (j - i - 1), Some (wrap16 (s + j))).
Proof.
  intros Hij. unfold tracker_check, wrap16. change (2 ^ 16) with 65536.
  rewrite Zplus_mod_idemp_l, Zminus_mod_idemp_l, Zminus_mod_idemp_r.
  replace (s + j - (s + i + 1)) with (j - i - 1) by lia.
  rewrite (Z.mod_small (j - i - 1)) by lia.
  destruct (Z.eqb_spec j (i + 1)) as [->|Hne].
  - by rewrite (Z.add_assoc s i 1), Z.eqb_refl.
  - destruct (Z.eqb_spec ((s + j) mod 65536) ((s + i + 1) mod 65536)) as [He|_].
    + exfalso. dm_lia.
    + by rewrite (proj2 (Z.ltb_lt 0 _)) by lia.
Qed.

(** On a stream received in order with packets missing, the gaps that
    [check] reports add up to the number of missing packets, across the
    wrap-around of the 16-bit numbers: each reported gap is itself a number of
    lost packets, 1 included.  A packet received twice is reported as 65535
    lost packets. *)
Theorem sequence_gaps_count_losses s i l :
  increasing i l →
  total (reported None (List.map (λ j, wrap16 (s + j)) (i :: l)))
    = List.last l i - i - zlen l
  ∧ tracker_check (Some (wrap16 s)) (wrap16 s) = (Some 65535, Some (wrap16 s)).
Proof.
  intros H. split.
  - cbn [List.map reported tracker_check default total foldr]. rewrite Z.add_0_l.
    revert i H. induction l as [|j l IH]; intros i H.
    { cbn. change (zlen []) with 0. lia. }
    destruct H as [Hij Hl]. cbn [List.map reported]. rewrite tracker_check_step by done.
    cbn [total foldr]. unfold total in IH. rewrite (IH j Hl), zlen_cons.
    rewrite last_cons_default.
    destruct (Z.eqb_spec j (i + 1)); cbn [from_option id]; lia.
  - unfold tracker_check, wrap16. change (2 ^ 16) with 65536.
    destruct (Z.eqb_spec (s mod 65536) ((s mod 65536 + 1) mod 65536)) as [He|_]; [dm_lia|].
    replace ((s mod 65536 - (s mod 65536 + 1) mod 65536) mod 65536) with 65535 by dm_lia.
    done.
Qed.

Lemma sequence_gaps_count_losses_witness :
  total (reported None (List.map (λ j, wrap16 (65533 + j)) [0; 1; 4; 5; 9])) = 5.
Proof.
  refine (proj1 (sequence_gaps_count_losses 65533 0 [1; 4; 5; 9] _)).
  cbn. repeat split; lia.
Defined.
