(* ===== verification/RtspServer.v ===== *)
(** * The RTSP server: requests, sessions, connections
      ([crates/protocols/src/rtsp_server/server.rs], [mod.rs])

    A connection is a state machine over events: bytes arriving, the read
    future being polled, a frame or an error from the broadcast channel, the
    timer.  [HashMap]s are association lists in iteration order.  Parameters:
    [hex::encode], [base64], the allocator.  Writes to the socket succeed. *)
From Stdlib Require Import ZArith Lia List Bool String.
From stdpp Require Import base option list numbers gmap.
From S2P Require Import Prelude AudioCodec Text RtspAuth RtspFraming.

(** ** Methods, requests, responses *)
Inductive RtspMethod :=
  | Options | Describe | Setup | Play | Pause | Teardown | Announce | GetParameter | SetParameter.
#[export] Instance RtspMethod_eq_dec : EqDecision RtspMethod.
Proof. solve_decision. Defined.

Definition method_to_string (m : RtspMethod) : bytes :=
  match m with
  | Options => lit "OPTIONS" | Describe => lit "DESCRIBE" | Setup => lit "SETUP"
  | Play => lit "PLAY" | Pause => lit "PAUSE" | Teardown => lit "TEARDOWN"
  | Announce => lit "ANNOUNCE" | GetParameter => lit "GET_PARAMETER"
  | SetParameter => lit "SET_PARAMETER"
  end.

Definition method_from_str (s : bytes) : Res RtspMethod :=
  if bytes_eqb s (lit "OPTIONS") then Ok Options
  else if bytes_eqb s (lit "DESCRIBE") then Ok Describe
  else if bytes_eqb s (lit "SETUP") then Ok Setup
  else if bytes_eqb s (lit "PLAY") then Ok Play
  else if bytes_eqb s (lit "PAUSE") then Ok Pause
  else if bytes_eqb s (lit "TEARDOWN") then Ok Teardown
  else if bytes_eqb s (lit "ANNOUNCE") then Ok Announce
  else if bytes_eqb s (lit "GET_PARAMETER") then Ok GetParameter
  else if bytes_eqb s (lit "SET_PARAMETER") then Ok SetParameter
  else Err "Unknown RTSP method".

Record ParsedRequest := mkRequest {
  method : RtspMethod;
  uri : bytes;
  headers : list (bytes * bytes);
  body : bytes;
  cseq : Z;
}.

Definition CRLF : bytes := [13; 10].

Definition header_line (h : bytes * bytes) : bytes := h.1 ++ lit ": " ++ h.2 ++ CRLF.

Definition build_response (cseq status_code : Z) (reason : bytes)
    (extra_headers : list (bytes * bytes)) (body : bytes) : bytes :=
  lit "RTSP/1.0 " ++ dec_of_Z status_code ++ lit " " ++ reason ++ CRLF
  ++ lit "CSeq: " ++ dec_of_Z cseq ++ CRLF
  ++ concat (List.map header_line extra_headers)
  ++ (if zlen body =? 0 then [] else lit "Content-Length: " ++ dec_of_Z (zlen body) ++ CRLF)
  ++ CRLF
  ++ (if zlen body =? 0 then [] else body).

Definition build_unauthorized_response (cseq : Z) (realm nonce : bytes) : bytes :=
  build_response cseq 401 (lit "Unauthorized")
    [(lit "WWW-Authenticate", build_digest_challenge realm nonce)] [].
Definition build_ok_response (cseq : Z) (extra_headers : list (bytes * bytes)) (body : bytes) :=
  build_response cseq 200 (lit "OK") extra_headers body.
Definition build_not_found_response (cseq : Z) : bytes :=
  build_response cseq 404 (lit "Not Found") [] [].
Definition build_invalid_state_response (cseq : Z) : bytes :=
  build_response cseq 455 (lit "Method Not Valid In This State") [] [].
Definition build_unsupported_transport_response (cseq : Z) : bytes :=
  build_response cseq 461 (lit "Unsupported Transport") [] [].

(** ** Sessions, configuration, streams *)
Inductive SessionState :=
  | StInit
  | StDescribed (stream_path : bytes)
  | StSetup (session_id : bytes) (transport : TransportInfo) (stream_path : bytes)
  | StPlaying (session_id : bytes) (transport : TransportInfo) (stream_path : bytes) (ssrc : Z)
  | StTeardown.

Record RtspServerConfig := mkConfig {
  port : Z; auth_required : bool; realm : bytes; username : bytes; password : bytes;
}.
Definition config_default : RtspServerConfig :=
  mkConfig 8554 false (lit "mibee-eye RTSP Server") [] [].

Record StreamConfig := mkStream { path : bytes; sdp_body : bytes; stream_ssrc : Z }.

(** [if path.starts_with('/') { path } else { format!("/{path}") }] *)
Definition with_slash (p : bytes) : bytes := if starts_with [47] p then p else 47 :: p.
Definition url_path (s : StreamConfig) : bytes := with_slash (path s).
Definition matches_uri (s : StreamConfig) (uri : bytes) : bool :=
  bytes_eqb uri (url_path s) || ends_with (url_path s) uri || contains (47 :: path s) uri.

(** [frame_tx] is the identity of the broadcast channel; the parked receiver
    [keepalive_rx] has no behaviour of its own. *)
Record LiveStreamEntry := mkLive {
  frame_tx : nat; live_sdp : bytes; live_ssrc : Z;
  cached_sps : option bytes; cached_pps : option bytes;
}.

Definition Streams : Type := list (bytes * StreamConfig).
Definition LiveStreams : Type := list (bytes * LiveStreamEntry).

(** [HashMap::get] and [HashMap::remove], then [HashMap::insert]. *)
Definition map_get {A} (m : list (bytes * A)) (k : bytes) : option A :=
  option_map snd (List.find (λ kv, bytes_eqb kv.1 k) m).
Definition map_remove {A} (m : list (bytes * A)) (k : bytes) : list (bytes * A) :=
  List.filter (λ kv, negb (bytes_eqb kv.1 k)) m.
Definition map_insert {A} (m : list (bytes * A)) (k : bytes) (v : A) : list (bytes * A) :=
  (k, v) :: map_remove m k.

Definition with_stream (streams : Streams) (s : StreamConfig) : Streams :=
  map_insert streams (path s) s.
Definition register_live_stream (live : LiveStreams) (tx : nat) (path sdp : bytes) (ssrc : Z)
    : LiveStreams := map_insert live path (mkLive tx sdp ssrc None None).
Definition unregister_live_stream (live : LiveStreams) (path : bytes) : LiveStreams * bool :=
  (map_remove live path, bool_decide (is_Some (map_get live path))).
(** [get_mut] changes the entry in place. *)
Definition update_sps_pps (live : LiveStreams) (path sps pps : bytes) : LiveStreams :=
  List.map (λ kv, if bytes_eqb kv.1 path
             then (kv.1, mkLive (frame_tx kv.2) (live_sdp kv.2) (live_ssrc kv.2) (Some sps) (Some pps))
             else kv) live.

(** The first stream visited that matches. *)
Definition find_stream_by_uri (uri : bytes) (streams : Streams) : option StreamConfig :=
  List.find (λ s, matches_uri s uri) (List.map snd streams).

Definition live_matches (uri p : bytes) : bool :=
  bytes_eqb uri (with_slash p) || ends_with (with_slash p) uri || contains (with_slash p) uri.

(** [max_by_key] returns the last of the greatest elements. *)
Definition max_by_len (best : option (Z * (bytes * LiveStreamEntry)))
    (x : Z * (bytes * LiveStreamEntry)) : option (Z * (bytes * LiveStreamEntry)) :=
  match best with
  | Some b => if x.1 <? b.1 then Some b else Some x
  | None => Some x
  end.

Definition find_live_stream (uri : bytes) (live : LiveStreams) : option (bytes * LiveStreamEntry) :=
  option_map snd (fold_left max_by_len
    (List.map (λ kv, (zlen (with_slash kv.1), kv))
       (List.filter (λ kv, live_matches uri kv.1) live)) None).

(** [base64_encode]: the standard engine of the [base64] crate. *)
Definition build_live_sdp (base64_encode : bytes → bytes) (entry : LiveStreamEntry) : bytes :=
  let base_sdp := live_sdp entry in
  match cached_sps entry, cached_pps entry with
  | Some sps, Some pps =>
      let fmtp_with_sprop :=
        lit "a=fmtp:96 packetization-mode=1; sprop-parameter-sets="
        ++ base64_encode sps ++ lit "," ++ base64_encode pps ++ CRLF in
      match find_sub (lit "a=fmtp:96") base_sdp with
      | Some idx =>
          let line_end := match find_sub CRLF (drop idx base_sdp) with
                          | Some e => (idx + e + 2)%nat
                          | None => length base_sdp
                          end in
          take idx base_sdp ++ fmtp_with_sprop ++ drop line_end base_sdp
      | None => base_sdp
      end
  | _, _ => base_sdp
  end.

(** ** Reading a request

    [avail] is what the reader has received and not yet consumed; [Pending]
    means that all of it is consumed and more is needed.  Polling the future
    again with more bytes gives what reading the longer text gives. *)
Inductive Poll (A : Type) :=
  | Ready (r : Res A) (rest : bytes)
  | Pending.
Arguments Ready {A} r rest.
Arguments Pending {A}.

Definition Reader (A : Type) : Type := bytes → Poll A.

#[export] Instance Reader_ret : MRet Reader := λ A a s, Ready (Ok a) s.
#[export] Instance Reader_bind : MBind Reader := λ A B f m s,
  match m s with
  | Ready (Ok a) rest => f a rest
  | Ready (Err e) rest => Ready (Err e) rest
  | Ready Panic rest => Ready Panic rest
  | Ready OutOfFuel rest => Ready OutOfFuel rest
  | Pending => Pending
  end.
Definition rd_lift {A} (r : Res A) : Reader A := λ s, Ready r s.

Section reader.
(** [eof]: the peer has closed its side.  [alloc n]: whether [vec![0; n]] can
    be allocated; a failed allocation unwinds or aborts. *)
Context (eof : bool) (alloc : Z → bool).

(** [read_line]: up to and including the line feed, valid UTF-8. *)
Definition read_line : Reader bytes := λ avail,
  let line l rest :=
    Ready (if utf8_valid l then Ok l else Err "stream did not contain valid UTF-8") rest in
  match find_byte (Z.eqb 10) avail with
  | Some i => line (take (S i) avail) (drop (S i) avail)
  | None => if eof then line avail [] else Pending
  end.

Definition rd_exact (n : Z) : Reader bytes := λ avail,
  if n <=? zlen avail then Ready (Ok (take (Z.to_nat n) avail)) (drop (Z.to_nat n) avail)
  else if eof then Ready (Err "early eof") [] else Pending.

(** [line.trim_end_matches("\r\n").trim_end_matches('\n')] *)
Definition chomp (line : bytes) : bytes := trim_end_matches [10] (trim_end_matches CRLF line).

(** The first line that is not empty; [None] at the end of input. *)
Fixpoint read_start (fuel : nat) : Reader (option bytes) :=
  match fuel with
  | O => rd_lift OutOfFuel
  | S fuel =>
      line ← read_line;
      if zlen line =? 0 then mret None
      else if negb (zlen (chomp line) =? 0) then mret (Some (chomp line))
      else read_start fuel
  end.

Fixpoint read_headers (fuel : nat) : Reader (list (bytes * bytes)) :=
  match fuel with
  | O => rd_lift OutOfFuel
  | S fuel =>
      line ← read_line;
      if zlen line =? 0 then rd_lift (Err "Unexpected EOF in RTSP headers")
      else if zlen (chomp line) =? 0 then mret []
      else
        match split_once 58 (chomp line) with
        | Some (name, value) =>
            hs ← read_headers fuel; mret ((trim name, trim value) :: hs)
        | None => read_headers fuel
        end
  end.

Definition header_value {A} (parse : bytes → option A) (headers : list (bytes * bytes))
    (name : bytes) : option A :=
  match get_header headers name with Some v => parse v | None => None end.

(** After the request line. *)
Definition read_rest (fuel : nat) (line : bytes) : Reader (option ParsedRequest) :=
  match splitn 3 32 line with
  | [m; u; _] =>
      method ← rd_lift (method_from_str m);
      headers ← read_headers fuel;
      let content_length := default 0 (header_value parse_usize headers (lit "Content-Length")) in
      if negb (alloc content_length) then rd_lift Panic
      else
        body ← (if 0 <? content_length then rd_exact content_length else mret []);
        let cseq := default 0 (header_value parse_u32 headers (lit "CSeq")) in
        mret (Some (mkRequest method u headers body cseq))
  | _ => rd_lift (Err "Invalid RTSP request line")
  end.

Definition read_rtsp_request : Reader (option ParsedRequest) := λ avail,
  let fuel := S (length avail) in
  (start ← read_start fuel;
   match start with
   | None => mret None
   | Some line => read_rest fuel line
   end) avail.
End reader.

(** ** Handlers *)
Definition handle_options (cseq : Z) : bytes :=
  build_ok_response cseq
    [(lit "Public", lit "DESCRIBE, SETUP, TEARDOWN, PLAY, PAUSE, OPTIONS, GET_PARAMETER")] [].

Definition handle_describe (cseq : Z) (uri : bytes) (stream : StreamConfig)
    : bytes * SessionState :=
  let base_url := trim_end_matches (url_path stream) uri in
  (build_ok_response cseq
     [(lit "Content-Type", lit "application/sdp"); (lit "Content-Base", base_url)]
     (sdp_body stream),
   StDescribed (path stream)).

(** [sid] is the result of [generate_session_id]. *)
Definition handle_setup (cseq : Z) (uri transport_header : bytes) (streams : Streams)
    (session : SessionState) (sid : bytes) : bytes * option TransportInfo * SessionState :=
  match (match find_stream_by_uri uri streams with
         | Some s => Some s
         | None => if zlen streams =? 1 then head (List.map snd streams) else None
         end) with
  | None => (build_not_found_response cseq, None, session)
  | Some stream =>
      let client_transport := transport_parse transport_header in
      let inter := default (0, 1) (interleaved client_transport) in
      let response_transport :=
        mkTransport (Some inter) None None sid (Some (stream_ssrc stream)) (Some (lit "play")) in
      (build_ok_response cseq
         [(lit "Transport", transport_serialize response_transport); (lit "Session", sid)] [],
       Some response_transport,
       StSetup sid response_transport (path stream))
  end.

Definition handle_play (cseq : Z) (session_id : bytes) (session : SessionState)
    : bytes * option Z * SessionState :=
  match session with
  | StSetup sid transport stream_path =>
      if negb (bytes_eqb sid session_id) then
        (build_response cseq 454 (lit "Session Not Found") [] [], None, session)
      else
        let channel := default 0 (option_map fst (interleaved transport)) in
        (build_ok_response cseq
           [(lit "Session", session_id); (lit "Range", lit "npt=0.000-")] [],
         Some channel,
         StPlaying sid transport stream_path (default 0 (ssrc transport)))
  | _ => (build_invalid_state_response cseq, None, session)
  end.

Definition handle_teardown (cseq : Z) (session_id : bytes) : bytes * SessionState :=
  (build_ok_response cseq [(lit "Session", session_id)] [], StTeardown).

Definition handle_pause (cseq : Z) (session_id : bytes) (session : SessionState) : bytes :=
  match session with
  | StPlaying _ _ _ _ => build_ok_response cseq [(lit "Session", session_id)] []
  | _ => build_invalid_state_response cseq
  end.

Definition handle_get_parameter (cseq : Z) : bytes := build_ok_response cseq [] [].

(** ** A connection *)

(** The state of the delivery loop.  [d_iter] is the time its current
    iteration, and with it the five-second sleep, began. *)
Record Delivery := mkDelivery {
  d_rx : nat; d_ssrc : Z; d_rtp_channel : Z; d_rtcp_channel : Z; d_session_id : bytes;
  d_tracker : SequenceTracker; d_last_activity : Z; d_iter : Z;
  d_packet_count : Z; d_octet_count : Z;
}.

Inductive Phase :=
  | Commands                  (* waiting for a request *)
  | Delivering (d : Delivery) (* in the live delivery loop *)
  | Closed                    (* the handler has returned *)
  | Crashed.                  (* the task has unwound *)

(** [c_taken]: bytes consumed by the read future in flight; [c_in]: bytes
    received after them; [c_out]: bytes written. *)
Record Conn := mkConn {
  c_taken : bytes; c_in : bytes; c_eof : bool;
  c_session : SessionState; c_phase : Phase; c_out : bytes;
}.
Definition conn_new : Conn := mkConn [] [] false StInit Commands [].

(** Times are in milliseconds. *)
Inductive Event :=
  | EvBytes (segment : bytes)
  | EvEof
  | EvRead (live : LiveStreams) (sid : bytes) (now : Z)
  | EvFrame (data : bytes) (now : Z)
  | EvLagged (now : Z)
  | EvClosed
  | EvTimer (ntp_ts now : Z).

Definition set_read (c : Conn) (taken rest : bytes) : Conn :=
  mkConn taken rest (c_eof c) (c_session c) (c_phase c) (c_out c).
Definition set_phase (c : Conn) (p : Phase) : Conn :=
  mkConn (c_taken c) (c_in c) (c_eof c) (c_session c) p (c_out c).
Definition set_session (c : Conn) (s : SessionState) : Conn :=
  mkConn (c_taken c) (c_in c) (c_eof c) s (c_phase c) (c_out c).
Definition write_all (c : Conn) (data : bytes) : Conn :=
  mkConn (c_taken c) (c_in c) (c_eof c) (c_session c) (c_phase c) (c_out c ++ data).

(** One more iteration of the delivery loop: the other futures of the
    [select!] are dropped, and what the read future had consumed with it. *)
Definition next_iteration (c : Conn) (d : Delivery) (now : Z) : Conn :=
  set_phase (set_read c [] (c_in c))
    (Delivering (mkDelivery (d_rx d) (d_ssrc d) (d_rtp_channel d) (d_rtcp_channel d)
       (d_session_id d) (d_tracker d) (d_last_activity d) now (d_packet_count d) (d_octet_count d))).

Definition set_activity (d : Delivery) (now : Z) : Delivery :=
  mkDelivery (d_rx d) (d_ssrc d) (d_rtp_channel d) (d_rtcp_channel d)
    (d_session_id d) (d_tracker d) now (d_iter d) (d_packet_count d) (d_octet_count d).

Section connection.
Context (hex_encode base64_encode : bytes → bytes) (alloc : Z → bool).
Context (config : RtspServerConfig) (streams : Streams) (nonce : bytes).

Definition check_auth (req : ParsedRequest) : Res bool :=
  if negb (auth_required config) then Ok true
  else
    match get_header (headers req) (lit "Authorization") with
    | Some header =>
        verify_digest_auth hex_encode header (method_to_string (method req)) (uri req)
          (username config) (password config) (realm config)
    | None => Ok false
    end.

(** [check_auth(..).unwrap_or(false)] *)
Definition authorized (req : ParsedRequest) : bool :=
  match check_auth req with Ok b => b | _ => false end.

Definition live_stream_config (sdp : LiveStreamEntry → bytes) (x : bytes * LiveStreamEntry)
    : StreamConfig := mkStream x.1 (sdp x.2) (live_ssrc x.2).

Definition describe_stream (req : ParsedRequest) (live : LiveStreams) : option StreamConfig :=
  match find_stream_by_uri (uri req) streams with
  | Some s => Some s
  | None => option_map (live_stream_config (build_live_sdp base64_encode))
              (find_live_stream (uri req) live)
  end.

(** A static stream, a live stream, or the one named in a DESCRIBE. *)
Definition setup_stream (req : ParsedRequest) (live : LiveStreams) (session : SessionState)
    : option StreamConfig :=
  match find_stream_by_uri (uri req) streams with
  | Some s => Some s
  | None =>
      match find_live_stream (uri req) live with
      | Some x => Some (live_stream_config live_sdp x)
      | None =>
          match session with
          | StDescribed stream_path =>
              option_map (λ e, live_stream_config live_sdp (stream_path, e))
                (map_get live stream_path)
          | _ => None
          end
      end
  end.

(** [get_header(&request.headers, "Session").unwrap_or("")] *)
Definition session_header (req : ParsedRequest) : bytes :=
  default [] (get_header (headers req) (lit "Session")).

(** The entry into the delivery loop, after a PLAY has been answered. *)
Definition start_delivery (c : Conn) (live : LiveStreams) (session_id : bytes) (now : Z) : Conn :=
  match c_session c with
  | StPlaying _ transport stream_path _ =>
      match map_get live stream_path with
      | Some entry =>
          set_phase c (Delivering (mkDelivery (frame_tx entry) (live_ssrc entry)
            (default 0 (option_map fst (interleaved transport)))
            (default 1 (option_map snd (interleaved transport)))
            session_id tracker_new now now 0 0))
      | None => c
      end
  | _ => c
  end.

(** The body of the command loop for one request. *)
Definition handle_request (c : Conn) (req : ParsedRequest) (live : LiveStreams) (sid : bytes)
    (now : Z) : Conn :=
  if negb (authorized req) then
    write_all c (build_unauthorized_response (cseq req) (realm config) nonce)
  else
    match method req with
    | Options => write_all c (handle_options (cseq req))
    | Describe =>
        match describe_stream req live with
        | Some stream =>
            let '(resp, session) := handle_describe (cseq req) (uri req) stream in
            write_all (set_session c session) resp
        | None => write_all c (build_not_found_response (cseq req))
        end
    | Setup =>
        match get_header (headers req) (lit "Transport") with
        | None => write_all c (build_unsupported_transport_response (cseq req))
        | Some transport_header =>
            match setup_stream req live (c_session c) with
            | None => write_all c (build_not_found_response (cseq req))
            | Some s =>
                let '(resp, _, session) :=
                  handle_setup (cseq req) (uri req) transport_header [(path s, s)]
                    (c_session c) sid in
                write_all (set_session c session) resp
            end
        end
    | Play =>
        let session_id := session_header req in
        let '(resp, _, session) := handle_play (cseq req) session_id (c_session c) in
        start_delivery (write_all (set_session c session) resp) live session_id now
    | Teardown =>
        let '(resp, session) := handle_teardown (cseq req) (session_header req) in
        set_phase (write_all (set_session c session) resp) Closed
    | Pause => write_all c (handle_pause (cseq req) (session_header req) (c_session c))
    | GetParameter => write_all c (handle_get_parameter (cseq req))
    | Announce | SetParameter =>
        write_all c (build_response (cseq req) 551 (lit "Option not supported") [] [])
    end.

(** A request read inside the delivery loop. *)
Definition handle_delivery_request (c : Conn) (d : Delivery) (req : ParsedRequest) (now : Z)
    : Conn :=
  match method req with
  | Teardown =>
      let '(resp, session) := handle_teardown (cseq req) (d_session_id d) in
      set_phase (write_all (set_session c session) resp) Closed
  | Pause => set_phase (write_all c (handle_pause (cseq req) (d_session_id d) (c_session c))) Closed
  | _ => next_iteration (write_all c (handle_options (cseq req))) (set_activity d now) now
  end.

(** The read future is polled. *)
Definition poll_read (c : Conn) (live : LiveStreams) (sid : bytes) (now : Z) : Conn :=
  match c_phase c with
  | Closed | Crashed => c
  | phase =>
      match read_rtsp_request (c_eof c) alloc (c_taken c ++ c_in c) with
      | Pending => set_read c (c_taken c ++ c_in c) []
      | Ready r rest =>
          let c := set_read c [] rest in
          match r with
          | Ok (Some req) =>
              match phase with
              | Delivering d => handle_delivery_request c d req now
              | _ => handle_request c req live sid now
              end
          | Ok None | Err _ => set_phase c Closed
          | Panic | OutOfFuel => set_phase c Crashed
          end
      end
  end.

(** A packet from the broadcast channel: the sequence check only logs. *)
Definition deliver_frame (c : Conn) (d : Delivery) (data : bytes) (now : Z) : Conn :=
  match parse_rtp_header_for_tracking data with
  | Ok info =>
      let tracker := match info with
                     | Some i => (tracker_check (d_tracker d) (info_sequence_number i)).2
                     | None => d_tracker d
                     end in
      let payload_size := if 12 <=? zlen data then zlen data - 12 else 0 in
      let d := mkDelivery (d_rx d) (d_ssrc d) (d_rtp_channel d) (d_rtcp_channel d)
                 (d_session_id d) tracker now (d_iter d)
                 (wrap32 (d_packet_count d + 1))
                 (wrap32 (d_octet_count d + wrap32 payload_size)) in
      match build_interleaved_frame (d_rtp_channel d) data with
      | Ok frame => next_iteration (write_all c frame) d now
      | _ => next_iteration c d now
      end
  | _ => set_phase c Crashed
  end.

(** The five seconds since the iteration began are over. *)
Definition on_timer (c : Conn) (d : Delivery) (ntp_ts now : Z) : Conn :=
  if 60000 <? now - d_last_activity d then
    let '(resp, session) := handle_teardown 0 (d_session_id d) in
    set_phase (write_all (set_session c session) resp) Closed
  else
    let rtp_ts := ntp_to_rtp ntp_ts 90000 in
    let sr := build_sender_report (d_ssrc d) ntp_ts rtp_ts (d_packet_count d) (d_octet_count d) in
    match build_interleaved_frame (d_rtcp_channel d) sr with
    | Ok frame => next_iteration (write_all c frame) d now
    | _ => next_iteration c d now
    end.

(** An event; one that cannot happen in the current phase changes nothing. *)
Definition conn_step (c : Conn) (e : Event) : Conn :=
  match e with
  | EvBytes segment =>
      if c_eof c then c
      else mkConn (c_taken c) (c_in c ++ segment) false (c_session c) (c_phase c) (c_out c)
  | EvEof => mkConn (c_taken c) (c_in c) true (c_session c) (c_phase c) (c_out c)
  | EvRead live sid now => poll_read c live sid now
  | EvFrame data now =>
      match c_phase c with Delivering d => deliver_frame c d data now | _ => c end
  | EvLagged now =>
      match c_phase c with Delivering d => next_iteration c d now | _ => c end
  | EvClosed =>
      match c_phase c with Delivering _ => set_phase c Closed | _ => c end
  | EvTimer ntp_ts now =>
      match c_phase c with
      | Delivering d => if 5000 <=? now - d_iter d then on_timer c d ntp_ts now else c
      | _ => c
      end
  end.

Definition conn_run (c : Conn) (es : list Event) : Conn := fold_left conn_step es c.
End connection.

(** ** Routing *)
Lemma max_by_len_spec l best r :
  fold_left max_by_len l best = r →
  match r with
  | Some x => (best = Some x ∨ In x l)
              ∧ (∀ y, best = Some y ∨ In y l → y.1 ≤ x.1)
  | None => best = None ∧ l = []
  end.
Proof.
  revert best. induction l as [|a l IH]; intros best H; cbn [fold_left] in H.
  - subst r. destruct best as [b|]; [|done]. split; [by left|].
    intros y [[= ->]|[]]. lia.
  - specialize (IH _ H). destruct r as [x|].
    + destruct IH as [Hin Hmax]. unfold max_by_len in Hin, Hmax.
      destruct best as [b|]; [destruct (Z.ltb_spec a.1 b.1)|]; split.
      all: try (destruct Hin as [[= ->]|Hin]; [by (left + (right; left))|by right; right]).
      all: intros y Hy; pose proof (λ z, Hmax z) as Hmax';
        repeat match goal with H : _ ∨ _ |- _ => destruct H | H : In _ (_ :: _) |- _ => destruct H end;
        simplify_eq; try (apply Hmax; by auto).
      all: match goal with
           | Hl : ?u.1 < ?v.1 |- ?u.1 ≤ _ => pose proof (Hmax v (or_introl eq_refl)); lia
           | Hl : ?v.1 ≤ ?u.1 |- ?v.1 ≤ _ => pose proof (Hmax u (or_introl eq_refl)); lia
           end.
    + destruct IH as [IH _]. unfold max_by_len in IH. destruct best; [|done].
      by destruct (a.1 <? _).
Qed.

(** Routing to a live mount: the mount found matches the URI and no
    matching mount has a longer path, so [/live/{id}/sub] is never captured by
    [/live/{id}]; no mount is found only when none matches.  Two matching
    mounts of the same length are decided by the order of the map. *)
Theorem find_live_stream_longest uri live :
  match find_live_stream uri live with
  | Some x => In x live ∧ live_matches uri x.1 = true
              ∧ ∀ y, In y live → live_matches uri y.1 = true →
                     zlen (with_slash y.1) ≤ zlen (with_slash x.1)
  | None => ∀ y, In y live → live_matches uri y.1 = false
  end
  ∧ ∃ u a b, find_live_stream u [a; b] ≠ find_live_stream u [b; a].
Proof.
  split.
  - unfold find_live_stream. set (l := List.map _ _).
    assert (∀ k y, In (k, y) l ↔ k = zlen (with_slash y.1) ∧ In y live ∧ live_matches uri y.1 = true)
      as Hl.
    { intros k y. unfold l. rewrite in_map_iff. setoid_rewrite filter_In.
      split; [intros (z & [= <- <-] & ? & ?); done | intros (-> & ? & ?); by exists y]. }
    pose proof (max_by_len_spec l None _ eq_refl) as H.
    destruct (fold_left max_by_len l None) as [[k x]|]; cbn [option_map snd].
    + destruct H as [[?|Hin] Hmax]; [done|]. apply Hl in Hin as (-> & Hx & Hm).
      split; [done|]. split; [done|]. intros y Hy Hym.
      refine (Hmax (_, y) (or_intror _)). by apply Hl.
    + destruct H as [_ Hnil]. intros y Hy. destruct (live_matches uri y.1) eqn:E; [|done].
      assert (In (zlen (with_slash y.1), y) l) as Hin by (by apply Hl). by rewrite Hnil in Hin.
  - exists (lit "rtsp://host/a/b"), (lit "a", mkLive 0 [] 1 None None),
      (lit "b", mkLive 1 [] 2 None None).
    vm_compute. discriminate.
Qed.

(** ** Reading is safe *)
Definition rd_safe {A} (m : Reader A) (s : bytes) : Prop :=
  match m s with
  | Ready r rest => safe r ∧ (length rest ≤ length s)%nat
  | Pending => True
  end.

Lemma rd_safe_bind {A B} (m : Reader A) (f : A → Reader B) s :
  rd_safe m s →
  (∀ a rest, m s = Ready (Ok a) rest → (length rest ≤ length s)%nat → rd_safe (f a) rest) →
  rd_safe (m ≫= f) s.
Proof.
  intros Hm Hf. unfold rd_safe, mbind, Reader_bind in *.
  destruct (m s) as [[a|e| |] rest|] eqn:E; try done.
  destruct Hm as [_ Hl]. specialize (Hf a rest eq_refl Hl).
  destruct (f a rest); [|done]. split; [tauto | lia].
Qed.

Lemma rd_safe_ret {A} (a : A) s : rd_safe (mret a) s.
Proof. done. Qed.

Lemma rd_safe_lift {A} (r : Res A) s : safe r → rd_safe (rd_lift r) s.
Proof. done. Qed.

Section reading.
Context (eof : bool) (alloc : Z → bool).

Lemma read_line_safe s : rd_safe (read_line eof) s.
Proof.
  unfold rd_safe, read_line. destruct (find_byte _ s) as [i|].
  - split; [by destruct (utf8_valid _) | rewrite length_drop; lia].
  - destruct eof; [|done]. split; [by destruct (utf8_valid _) | cbn; lia].
Qed.

Lemma read_line_progress s line rest :
  read_line eof s = Ready (Ok line) rest → line = [] ∨ (length rest < length s)%nat.
Proof.
  unfold read_line. destruct (find_byte _ s) as [i|] eqn:E.
  - apply find_byte_lt in E. destruct (utf8_valid _); [|done]. intros [= <- <-].
    right. rewrite length_drop. lia.
  - destruct eof; [|done]. destruct (utf8_valid _); [|done]. intros [= <- <-].
    destruct s; [by left | right; cbn; lia].
Qed.

Lemma read_start_safe fuel s : (length s < fuel)%nat → rd_safe (read_start eof fuel) s.
Proof.
  revert s. induction fuel as [|fuel IH]; intros s Hf; [lia|].
  apply rd_safe_bind; [apply read_line_safe|]. intros line rest E Hl.
  destruct (read_line_progress _ _ _ E) as [->|Hlt]; [done|].
  destruct (zlen line =? 0); [done|]. destruct (negb _); [done|]. apply IH. lia.
Qed.

Lemma read_headers_safe fuel s : (length s < fuel)%nat → rd_safe (read_headers eof fuel) s.
Proof.
  revert s. induction fuel as [|fuel IH]; intros s Hf; [lia|].
  apply rd_safe_bind; [apply read_line_safe|]. intros line rest E Hl.
  destruct (read_line_progress _ _ _ E) as [->|Hlt]; [done|].
  destruct (zlen line =? 0); [done|]. destruct (zlen (chomp line) =? 0); [done|].
  destruct (split_once _ _) as [[name value]|]; [|apply IH; lia].
  apply rd_safe_bind; [apply IH; lia|]. done.
Qed.

Lemma read_rest_safe fuel line s :
  (∀ n, alloc n = true) → (length s < fuel)%nat → rd_safe (read_rest eof alloc fuel line) s.
Proof.
  intros Ha Hf. unfold read_rest. destruct (splitn 3 32 line) as [|m [|u [|v [|? ?]]]]; try done.
  apply rd_safe_bind.
  { apply rd_safe_lift. unfold method_from_str. by repeat case_match. }
  intros meth s1 [= _ ->] _. apply rd_safe_bind; [by apply read_headers_safe|].
  intros hs s2 _ _. rewrite Ha. cbn [negb]. apply rd_safe_bind; [|done].
  destruct (0 <? _); [|done]. unfold rd_safe, rd_exact.
  destruct (_ <=? _); [split; [done | rewrite length_drop; lia]|].
  destruct eof; [|done]. split; [done | cbn; lia].
Qed.

Lemma read_rtsp_request_safe s :
  (∀ n, alloc n = true) → rd_safe (read_rtsp_request eof alloc) s.
Proof.
  intros Ha. unfold read_rtsp_request.
  apply (rd_safe_bind (read_start eof (S (length s))) _ s); [apply read_start_safe; lia|].
  intros [line|] rest _ Hl; [|done]. apply read_rest_safe; [done | lia].
Qed.
End reading.

(** ** The connection's invariant *)

(** What a transport negotiated by SETUP looks like. *)
Definition negotiated (t : TransportInfo) (sid : bytes) : Prop :=
  (∃ a b, interleaved t = Some (a, b)) ∧ client_port t = None ∧ server_port t = None
  ∧ session_id t = sid ∧ is_Some (ssrc t) ∧ mode t = Some (lit "play").

Definition session_ok (s : SessionState) : Prop :=
  match s with
  | StSetup sid t _ => negotiated t sid
  | StPlaying sid t _ src => negotiated t sid ∧ ssrc t = Some src
  | _ => True
  end.

Definition phase_ok (s : SessionState) (p : Phase) : Prop :=
  match p with
  | Delivering d =>
      ∃ sid t stream_path src,
        s = StPlaying sid t stream_path src
        ∧ interleaved t = Some (d_rtp_channel d, d_rtcp_channel d)
        ∧ is_u32 (d_packet_count d) ∧ is_u32 (d_octet_count d)
  | Commands => s ≠ StTeardown
  | _ => True
  end.

Definition conn_ok (c : Conn) : Prop := session_ok (c_session c) ∧ phase_ok (c_session c) (c_phase c).

Section invariant.
Context (hex_encode base64_encode : bytes → bytes) (alloc : Z → bool).
Context (config : RtspServerConfig) (streams : Streams) (nonce : bytes).

Local Abbreviation step := (conn_step hex_encode base64_encode alloc config streams nonce).
Local Abbreviation run := (conn_run hex_encode base64_encode alloc config streams nonce).
Local Abbreviation request := (handle_request hex_encode base64_encode config streams nonce).

Lemma handle_setup_ok cseq u th m s sid :
  session_ok s →
  let '(_, _, s') := handle_setup cseq u th m s sid in
  session_ok s' ∧ (s ≠ StTeardown → s' ≠ StTeardown).
Proof.
  intros Hs. unfold handle_setup.
  destruct (match find_stream_by_uri u m with Some s => _ | None => _ end); [|by split].
  split; [|done]. cbn. unfold negotiated. cbn. split_and!; try done.
  destruct (from_option _ _ _) as [x y]. by exists x, y.
Qed.

Lemma handle_play_ok cseq h s :
  session_ok s →
  let '(_, _, s') := handle_play cseq h s in
  session_ok s' ∧ (s ≠ StTeardown → s' ≠ StTeardown).
Proof.
  intros Hs. unfold handle_play. destruct s; try by split.
  destruct (negb _); [by split|]. cbn in *. split; [|done]. split; [done|].
  destruct Hs as (_ & _ & _ & _ & [v ->] & _). done.
Qed.

Lemma start_delivery_ok c live h now :
  conn_ok c → c_phase c = Commands → conn_ok (start_delivery c live h now).
Proof.
  intros [Hs Hp] Hc. unfold start_delivery. destruct (c_session c) as [| | |sid t p src|] eqn:E;
    try by split; rewrite ?E.
  destruct (map_get live p) as [entry|]; [|by split; rewrite E].
  split; cbn; rewrite E; [done|]. destruct Hs as [[(a & b & Hab) _] _].
  exists sid, t, p, src. rewrite Hab. unfold is_u32. cbn. by repeat split.
Qed.

(** Setting a session and writing in the command phase. *)
Lemma conn_ok_commands c s out :
  session_ok s → s ≠ StTeardown → c_phase c = Commands →
  conn_ok (write_all (set_session c s) out) ∧ c_phase (write_all (set_session c s) out) = Commands.
Proof. intros Hs Ht Hc. split; [|done]. split; cbn; [done | by rewrite Hc]. Qed.

Lemma handle_request_ok c req live sid now :
  conn_ok c → c_phase c = Commands → conn_ok (request c req live sid now).
Proof.
  intros [Hs Hp] Hc. pose proof Hp as Ht. rewrite Hc in Ht. cbn in Ht.
  assert (∀ out, conn_ok (write_all c out)) as Hw by (intros out; by split).
  unfold handle_request. destruct (negb _); [apply Hw|]. destruct (method req); try apply Hw.
  - destruct (describe_stream _ _ _ _); [|apply Hw]. cbn. by apply conn_ok_commands.
  - destruct (get_header _ _) as [th|]; [|apply Hw].
    destruct (setup_stream _ _ _ _) as [s|]; [|apply Hw].
    pose proof (handle_setup_ok (cseq req) (uri req) th [(path s, s)] (c_session c) sid Hs) as H.
    destruct (handle_setup _ _ _ _ _ _) as [[resp tr] s']. apply conn_ok_commands; tauto.
  - pose proof (handle_play_ok (cseq req) (session_header req) (c_session c) Hs) as H.
    destruct (handle_play _ _ _) as [[resp ch] s'].
    apply start_delivery_ok; apply conn_ok_commands; tauto.
  - by split.
Qed.

Lemma next_iteration_ok c d d' now :
  conn_ok c → c_phase c = Delivering d →
  d_rtp_channel d' = d_rtp_channel d → d_rtcp_channel d' = d_rtcp_channel d →
  is_u32 (d_packet_count d') → is_u32 (d_octet_count d') → conn_ok (next_iteration c d' now).
Proof.
  intros [Hs Hp] Hc H1 H2 H3 H4. rewrite Hc in Hp. destruct Hp as (sid & t & p & src & E & Hi & _).
  split; cbn; [done|]. exists sid, t, p, src. by rewrite H1, H2.
Qed.

Lemma poll_read_ok c live sid now :
  conn_ok c → conn_ok (poll_read hex_encode base64_encode alloc config streams nonce c live sid now).
Proof.
  intros [Hs Hp]. unfold poll_read. destruct (c_phase c) as [|d| |] eqn:Hc; try by split; rewrite ?Hc.
  - destruct (read_rtsp_request _ _ _) as [[[req|]|e| |] rest|]; try by split; cbn; rewrite ?Hc.
    apply handle_request_ok; [by split; cbn; rewrite ?Hc | done].
  - destruct (read_rtsp_request _ _ _) as [[[req|]|e| |] rest|]; try by split; cbn; rewrite ?Hc.
    assert (conn_ok (set_read c [] rest)) as Hok by (split; cbn; rewrite ?Hc; done).
    destruct Hp as (? & ? & ? & ? & ? & ? & ? & ?).
    unfold handle_delivery_request. destruct (method req); try by split.
    all: by apply (next_iteration_ok _ d).
Qed.

Lemma is_u32_wrap x : is_u32 (wrap32 x).
Proof. unfold is_u32, wrap32. apply Z.mod_pos_bound. lia. Qed.

Lemma deliver_frame_ok c d data now :
  conn_ok c → c_phase c = Delivering d → conn_ok (deliver_frame c d data now).
Proof.
  intros Hok Hc. unfold deliver_frame.
  destruct (parse_rtp_header_for_tracking data) as [info|e| |]; try by destruct Hok.
  destruct (build_interleaved_frame _ _); 
    (apply (next_iteration_ok _ d); [exact Hok | exact Hc | done | done | apply is_u32_wrap..]).
Qed.

Lemma on_timer_ok c d ntp now :
  conn_ok c → c_phase c = Delivering d → conn_ok (on_timer c d ntp now).
Proof.
  intros Hok Hc. unfold on_timer. destruct (60000 <? _); [done|].
  pose proof Hok as [_ Hp]. rewrite Hc in Hp. destruct Hp as (? & ? & ? & ? & ? & ? & ? & ?).
  destruct (build_interleaved_frame _ _); by apply (next_iteration_ok _ d).
Qed.

Lemma conn_step_ok c e : conn_ok c → conn_ok (step c e).
Proof.
  intros Hok. destruct e as [seg| |live sid now|data now|now| |ntp now]; cbn [conn_step].
  - by destruct (c_eof c).
  - done.
  - by apply poll_read_ok.
  - destruct (c_phase c) eqn:Hc; try done. by apply deliver_frame_ok.
  - destruct (c_phase c) eqn:Hc; try done. pose proof Hok as [_ Hp]. rewrite Hc in Hp.
    destruct Hp as (? & ? & ? & ? & ? & ? & ? & ?). by apply (next_iteration_ok _ d).
  - destruct (c_phase c) eqn:Hc; try done. by destruct Hok.
  - destruct (c_phase c) eqn:Hc; try done. destruct (5000 <=? _); [|done]. by apply on_timer_ok.
Qed.
End invariant.

(** ** No panic *)
Lemma tracking_ok data : ∃ info, parse_rtp_header_for_tracking data = Ok info.
Proof.
  unfold parse_rtp_header_for_tracking. destruct (Z.ltb_spec (zlen data) 12) as [|Hlen]; [by eexists|].
  do 12 (destruct data as [|? data]; [by cbn in Hlen|]).
  match goal with |- context [mbind ?f (at_ _ _)] =>
    match goal with |- context [at_ (?b :: _) 0] => change (mbind f _) with (f b) end end.
  cbv beta. destruct (negb (_ =? 2)); by eexists.
Qed.

Section crash.
Context (hex_encode base64_encode : bytes → bytes) (alloc : Z → bool).
Context (config : RtspServerConfig) (streams : Streams) (nonce : bytes).
Context (alloc_total : ∀ n, alloc n = true).

Lemma start_delivery_no_crash c live h now :
  c_phase c ≠ Crashed → c_phase (start_delivery c live h now) ≠ Crashed.
Proof. intros H. unfold start_delivery. destruct (c_session c); try done. by destruct (map_get _ _). Qed.

Lemma handle_request_no_crash c req live sid now :
  c_phase c ≠ Crashed →
  c_phase (handle_request hex_encode base64_encode config streams nonce c req live sid now) ≠ Crashed.
Proof.
  intros H. unfold handle_request. destruct (negb _); [done|]. destruct (method req); try done.
  - destruct (describe_stream _ _ _ _); [|done]. by destruct (handle_describe _ _ _).
  - destruct (get_header _ _); [|done]. destruct (setup_stream _ _ _ _); [|done].
    by destruct (handle_setup _ _ _ _ _ _) as [[? ?] ?].
  - destruct (handle_play _ _ _) as [[? ?] ?]. by apply start_delivery_no_crash.
Qed.

Lemma conn_step_no_crash c e :
  c_phase c ≠ Crashed →
  c_phase (conn_step hex_encode base64_encode alloc config streams nonce c e) ≠ Crashed.
Proof using alloc_total.
  intros Hc. destruct e as [seg| |live sid now|data now|now| |ntp now]; cbn [conn_step].
  - by destruct (c_eof c).
  - done.
  - unfold poll_read. pose proof (read_rtsp_request_safe (c_eof c) alloc (c_taken c ++ c_in c) alloc_total) as Hr.
    unfold rd_safe in Hr. destruct (read_rtsp_request _ _ _) as [r rest|];
      [|destruct (c_phase c) eqn:E; cbn; by rewrite E].
    destruct Hr as [Hr _]. destruct (c_phase c) eqn:E; try (by rewrite E);
      destruct r as [[req|]|e| |]; try done.
    + apply handle_request_no_crash. cbn. by rewrite E.
    + unfold handle_delivery_request. by destruct (method req).
  - destruct (c_phase c) eqn:E; try (by rewrite E). unfold deliver_frame.
    destruct (tracking_ok data) as [info ->]. by destruct (build_interleaved_frame _ _).
  - destruct (c_phase c) eqn:E; cbn; by rewrite ?E.
  - destruct (c_phase c) eqn:E; cbn; by rewrite ?E.
  - destruct (c_phase c) as [|d| |] eqn:E; try (by rewrite E).
    destruct (5000 <=? _); [|by rewrite E]. unfold on_timer.
    destruct (60000 <? _); [done|]. by destruct (build_interleaved_frame _ _).
Qed.
End crash.

(** The only bytes an unauthorized client is ever sent. *)
Definition challenges (config : RtspServerConfig) (nonce : bytes) (cseqs : list Z) : bytes :=
  concat (List.map (λ n, build_unauthorized_response n (realm config) nonce) cseqs).

Section gate.
Context (hex_encode base64_encode : bytes → bytes) (alloc : Z → bool).
Context (config : RtspServerConfig) (streams : Streams) (nonce : bytes).

Local Abbreviation step := (conn_step hex_encode base64_encode alloc config streams nonce).
Local Abbreviation run := (conn_run hex_encode base64_encode alloc config streams nonce).

(** Along the run [es], no request that is read passes [check_auth]. *)
Fixpoint never_authorized (c : Conn) (es : list Event) : Prop :=
  match es with
  | [] => True
  | e :: es =>
      match e with
      | EvRead _ _ _ =>
          match read_rtsp_request (c_eof c) alloc (c_taken c ++ c_in c) with
          | Ready (Ok (Some req)) _ => authorized hex_encode config req = false
          | _ => True
          end
      | _ => True
      end ∧ never_authorized (step c e) es
  end.

(** C9 The state machine of a connection, for every sequence of events: a
    session is only ever set up with a transport negotiated for TCP and the
    session id in it; frames are delivered only while the session is playing,
    on the two channels it negotiated; and as long as bodies can be allocated
    the task never unwinds: no out-of-range access, no missing fuel. *)
Theorem connection_invariant es :
  let c := run conn_new es in
  session_ok (c_session c) ∧ phase_ok (c_session c) (c_phase c)
  ∧ ((∀ n, alloc n = true) → c_phase c ≠ Crashed).
Proof.
  intros c. assert (∀ es c, conn_ok c → conn_ok (run c es)) as Hrun.
  { induction es0 as [|e es0 IH]; intros c0 H; [done|]. apply IH. by apply conn_step_ok. }
  assert (conn_ok c) as [Hs Hp] by (apply Hrun; by split). split; [done|]. split; [done|].
  intros Ha. assert (c_phase conn_new ≠ Crashed) as H0 by done.
  unfold c. clear Hrun Hs Hp c. revert H0. generalize conn_new.
  induction es as [|e es IH]; intros c Hc; [done|]. apply IH.
  by apply conn_step_no_crash.
Qed.

(** Nothing but challenges so far, and no session. *)
Definition gated (c : Conn) : Prop :=
  c_session c = StInit ∧ (∀ d, c_phase c ≠ Delivering d)
  ∧ ∃ cseqs, c_out c = challenges config nonce cseqs.

Lemma gated_same c c' :
  gated c → c_session c' = c_session c → c_out c' = c_out c →
  (∀ d, c_phase c' = Delivering d → c_phase c = Delivering d) → gated c'.
Proof.
  intros (Hs & Hp & cseqs & Ho) Es Eo Ep. split; [by rewrite Es|].
  split; [intros d Hd; by apply (Hp d), Ep | exists cseqs; by rewrite Eo].
Qed.

Lemma gated_step c e :
  gated c → never_authorized c [e] → gated (step c e).
Proof.
  intros Hg [Hn _]. pose proof Hg as (Hs & Hp & cseqs & Ho).
  destruct e as [seg| |live sid now|data now|now| |ntp now]; cbn [conn_step];
    try (destruct (c_phase c) as [|d| |] eqn:E; by destruct (Hp d) || done).
  - destruct (c_eof c); by apply (gated_same c).
  - by apply (gated_same c).
  - unfold poll_read. destruct (read_rtsp_request _ _ _) as [r rest|].
    2:{ destruct (c_phase c); [by apply (gated_same c)..|exact Hg|exact Hg]. }
    destruct (c_phase c) as [|d| |] eqn:E; [|by destruct (Hp d)|done|done].
    destruct r as [[req|]|e| |]; try by apply (gated_same c).
    unfold handle_request. rewrite Hn. cbn [negb].
    split; [done|]. split; [cbn; by rewrite E|]. exists (cseqs ++ [cseq req]).
    unfold challenges. rewrite map_app, concat_app. cbn [List.map concat c_out write_all set_read].
    by rewrite Ho, app_nil_r.
Qed.

(** C38 Authentication guards everything on a fresh connection: as long as no
    request that is read is authorized, whatever the bytes, segments and other
    events, no session is created, no frame is delivered, and every byte
    written belongs to a 401 response with the server's challenge. *)
Theorem auth_gate es :
  never_authorized conn_new es →
  let c := run conn_new es in
  c_session c = StInit ∧ (∀ d, c_phase c ≠ Delivering d)
  ∧ ∃ cseqs, c_out c = challenges config nonce cseqs.
Proof.
  intros H c. change (gated c). unfold c. clear c. assert (gated conn_new) as H0.
  { split; [done|]. split; [done|]. by exists []. }
  revert H H0. generalize conn_new. induction es as [|e es IH]; intros c H H0; [done|].
  destruct H as [Hn H]. apply IH; [exact H|]. apply gated_step; [done|]. by split.
Qed.

(** A request that arrives in two segments is lost when a frame is
    delivered in between: the part already read is dropped with the read
    future, as if it had never been received, and what follows is read as a
    new request.  Without the frame, the two segments are read as one text. *)
Theorem torn_request_lost c d a b data live1 live2 sid1 sid2 t1 t2 t3 :
  c_phase c = Delivering d → c_eof c = false → c_taken c = [] → c_in c = [] →
  read_rtsp_request false alloc a = Pending →
  run c [EvBytes a; EvRead live1 sid1 t1; EvFrame data t2; EvBytes b; EvRead live2 sid2 t3]
    = run c [EvFrame data t2; EvBytes b; EvRead live2 sid2 t3]
  ∧ run c [EvBytes a; EvRead live1 sid1 t1; EvBytes b; EvRead live2 sid2 t3]
    = run c [EvBytes (a ++ b); EvRead live2 sid2 t3].
Proof.
  destruct c as [taken inp eof s p out]. cbn [c_phase c_eof c_taken c_in]. intros -> -> -> -> Ha.
  assert (∀ live sid t,
    poll_read hex_encode base64_encode alloc config streams nonce
      (mkConn [] a false s (Delivering d) out) live sid t
    = mkConn a [] false s (Delivering d) out) as Hpoll.
  { intros live sid t. unfold poll_read. cbn [c_phase c_eof c_taken c_in app]. by rewrite Ha. }
  unfold conn_run. cbn [fold_left conn_step c_eof c_taken c_in c_session c_phase c_out app].
  rewrite !Hpoll. cbn [c_eof c_taken c_in c_session c_phase c_out app]. split; [|done].
  unfold deliver_frame. destruct (tracking_ok data) as [info ->].
  by destruct (build_interleaved_frame _ _).
Qed.

(** ** Delivery *)

(** Frames arrive less than five seconds apart; the timer is polled at any
    time before the sleep of the current iteration is over. *)
Fixpoint steady (t : Z) (es : list Event) : Prop :=
  match es with
  | [] => True
  | EvFrame data now :: es => zlen data ≤ 65535 ∧ steady now es
  | EvTimer _ now :: es => now - t < 5000 ∧ steady t es
  | _ => False
  end.

Definition frame_bytes (channel : Z) (data : bytes) : bytes :=
  [0x24; channel] ++ to_be 2 (zlen data) ++ data.

Definition frames_of (es : list Event) : list bytes :=
  omap (λ e, match e with EvFrame data _ => Some data | _ => None end) es.

Lemma deliver_frame_spec c d data now :
  c_phase c = Delivering d → zlen data ≤ 65535 →
  ∃ d', deliver_frame c d data now
        = next_iteration (write_all c (frame_bytes (d_rtp_channel d) data)) d' now
      ∧ d_rtp_channel d' = d_rtp_channel d
      ∧ d_packet_count d' = wrap32 (d_packet_count d + 1).
Proof.
  intros Hc Hd. unfold deliver_frame. destruct (tracking_ok data) as [info ->].
  unfold build_interleaved_frame. rewrite (proj2 (Z.ltb_ge 65535 _)) by lia. by eexists.
Qed.

(** A steadily fed delivery loop writes the frames and nothing else. *)
Lemma steady_run es c d :
  c_phase c = Delivering d → steady (d_iter d) es →
  c_out (run c es)
    = c_out c ++ concat (List.map (frame_bytes (d_rtp_channel d)) (frames_of es))
  ∧ ∃ d', c_phase (run c es) = Delivering d'
        ∧ wrap32 (d_packet_count d')
          = wrap32 (d_packet_count d + zlen (frames_of es)).
Proof.
  revert c d. induction es as [|e es IH]; intros c d Hc Hs.
  { cbn. rewrite app_nil_r. split; [done|]. exists d. change (zlen []) with 0.
    by rewrite Z.add_0_r. }
  destruct e as [| | |data now| | |ntp now]; try done.
  - destruct Hs as [Hd Hs]. cbn [conn_run fold_left conn_step]. rewrite Hc.
    destruct (deliver_frame_spec c d data now Hc Hd) as (d' & -> & Hch & Hcnt).
    set (d2 := mkDelivery (d_rx d') (d_ssrc d') (d_rtp_channel d') (d_rtcp_channel d')
       (d_session_id d') (d_tracker d') (d_last_activity d') now (d_packet_count d') (d_octet_count d')).
    destruct (IH (next_iteration (write_all c (frame_bytes (d_rtp_channel d) data)) d' now) d2
                eq_refl Hs) as (Ho & d3 & Hp & Hc3).
    split.
    + unfold conn_run in Ho. rewrite Ho. cbn. rewrite Hch. by rewrite <-app_assoc.
    + exists d3. split; [exact Hp|]. rewrite Hc3. cbn [d_packet_count d2]. rewrite Hcnt.
      change (frames_of (EvFrame data now :: es)) with (data :: frames_of es).
      rewrite zlen_cons. unfold wrap32. rewrite Zplus_mod_idemp_l. f_equal. lia.
  - destruct Hs as [Ht Hs]. cbn [conn_run fold_left conn_step]. rewrite Hc.
    rewrite (proj2 (Z.leb_gt 5000 _)) by lia. by apply IH.
Qed.

(** While a live stream delivers a frame at least every five seconds, the
    bytes written are exactly the frames, in order, each behind its four-byte
    interleaved header; no RTCP sender report is ever sent, because the sleep
    starts again with every frame. *)
Theorem no_sender_report_while_streaming es c d :
  c_phase c = Delivering d → steady (d_iter d) es →
  c_out (run c es)
    = c_out c ++ concat (List.map (frame_bytes (d_rtp_channel d)) (frames_of es))
  ∧ ∃ d', c_phase (run c es) = Delivering d'
        ∧ wrap32 (d_packet_count d')
          = wrap32 (d_packet_count d + zlen (frames_of es)).
Proof. apply steady_run. Qed.
End gate.

(** ** Requests, there and back *)
Definition request_line (m : RtspMethod) (u : bytes) : bytes :=
  join 32 [method_to_string m; u; lit "RTSP/1.0"].

Definition render_request (req : ParsedRequest) : bytes :=
  request_line (method req) (uri req) ++ CRLF
  ++ concat (List.map header_line (headers req)) ++ CRLF ++ body req.

Definition header_ok (h : bytes * bytes) : Prop :=
  forallb is_solid h.1 = true ∧ lacks 58 h.1
  ∧ Forall is_ascii h.2 ∧ lacks 10 h.2 ∧ trimmed h.2 = true.

(** The [Content-Length] and [CSeq] headers agree with the body and number. *)
Definition request_ok (req : ParsedRequest) : Prop :=
  Forall is_ascii (uri req) ∧ lacks 32 (uri req) ∧ lacks 10 (uri req)
  ∧ Forall header_ok (headers req)
  ∧ default 0 (header_value parse_usize (headers req) (lit "Content-Length")) = zlen (body req)
  ∧ default 0 (header_value parse_u32 (headers req) (lit "CSeq")) = cseq req.

Lemma strip_suffix_none p c l : lacks c l → strip_prefix (c :: p) (rev l) = None.
Proof.
  intros Hl. destruct (strip_prefix _ _) as [r|] eqn:E; [|done].
  apply strip_prefix_Some in E. apply (f_equal (@rev Z)) in E. rewrite rev_involutive in E.
  rewrite E in Hl. cbn [rev app] in Hl. rewrite rev_app_distr in Hl. cbn [rev] in Hl.
  rewrite !lacks_app in Hl. destruct Hl as [_ Hl].
  apply Forall_cons_1 in Hl as [Hl _]. by rewrite Z.eqb_refl in Hl.
Qed.

Lemma chomp_line l : lacks 10 l → chomp (l ++ CRLF) = l.
Proof.
  intros Hl. unfold chomp, trim_end_matches.
  rewrite rev_app_distr. change (rev CRLF) with [10; 13].
  rewrite trim_start_matches_once; [|done | by apply strip_suffix_none].
  rewrite rev_involutive. unfold trim_start_matches.
  destruct (length (rev l)); cbn [trim_matches_f]; [apply rev_involutive|].
  change (rev [10]) with [10]. by rewrite strip_suffix_none, rev_involutive.
Qed.

Section render.
Context (eof : bool) (alloc : Z → bool).

Lemma read_line_crlf l rest :
  lacks 10 l → Forall is_ascii l →
  read_line eof (l ++ CRLF ++ rest) = Ready (Ok (l ++ CRLF)) rest.
Proof.
  intros Hl Ha. unfold read_line.
  replace (l ++ CRLF ++ rest) with ((l ++ [13]) ++ 10 :: rest) by (by rewrite <-app_assoc).
  rewrite find_byte_here; [| |done].
  2:{ apply Forall_app. split; [exact Hl | by repeat constructor]. }
  rewrite (cons_middle 10), app_assoc.
  assert (S (length (l ++ [13])) = length ((l ++ [13]) ++ [10])) as -> by (rewrite !length_app; cbn; lia).
  rewrite take_app_length, drop_app_length.
  replace ((l ++ [13]) ++ [10]) with (l ++ CRLF) by (by rewrite <-app_assoc).
  rewrite utf8_valid_ascii; [done|]. apply Forall_app. split; [done|].
  repeat constructor; unfold is_ascii; lia.
Qed.

Lemma solid_bytes l : forallb is_solid l = true → lacks 10 l ∧ lacks 32 l ∧ Forall is_ascii l.
Proof.
  rewrite forallb_forall. intros H.
  split_and!; apply List.Forall_forall; intros b Hb; specialize (H b Hb); unfold is_solid, is_space in H;
    rewrite !andb_true_iff, negb_true_iff, orb_false_iff, Z.leb_le, Z.ltb_lt, andb_false_iff,
      !Z.leb_gt, Z.eqb_neq in H; unfold is_ascii; rewrite ?Z.eqb_neq; lia.
Qed.

Lemma zlen_crlf_pos l : (zlen (l ++ CRLF) =? 0) = false.
Proof. apply Z.eqb_neq. rewrite zlen_app. unfold CRLF. zsolve. Qed.

Lemma read_headers_render hs fuel rest :
  Forall header_ok hs → (length hs < fuel)%nat →
  read_headers eof fuel (concat (List.map header_line hs) ++ CRLF ++ rest) = Ready (Ok hs) rest.
Proof.
  intros H. revert fuel. induction H as [|[n v] hs Hh Hhs IH]; intros fuel Hf;
    (destruct fuel as [|fuel]; [cbn in Hf; lia|]); cbn [List.map concat read_headers app].
  - unfold mbind, Reader_bind.
    pose proof (read_line_crlf [] rest ltac:(constructor) ltac:(constructor)) as H.
    rewrite !app_nil_l in H. by rewrite H.
  - destruct Hh as (Hs & H58 & Ha & H10 & Ht). cbn [fst snd] in *.
    destruct (solid_bytes n Hs) as (Hn10 & _ & Hna). unfold header_line at 1. cbn [fst snd].
    set (l := n ++ lit ": " ++ v).
    replace ((n ++ lit ": " ++ v ++ CRLF) ++ concat (List.map header_line hs))
      with (l ++ CRLF ++ concat (List.map header_line hs)) by (unfold l; by rewrite <-!app_assoc).
    assert (lacks 10 l) as Hl10.
    { unfold l. rewrite !lacks_app. split_and!; [done | by repeat constructor | done]. }
    rewrite <-!app_assoc. unfold mbind, Reader_bind at 1. rewrite read_line_crlf; [|done|].
    2:{ unfold l. rewrite !Forall_app. split_and!; [done | | done].
        repeat constructor; unfold is_ascii; cbn; lia. }
    rewrite zlen_crlf_pos, (chomp_line l) by done.
    destruct (Z.eqb_spec (zlen l) 0) as [H0|_].
    { apply zlen_0 in H0. unfold l in H0. apply app_eq_nil in H0 as [_ H0]. done. }
    unfold l at 1. change (lit ": " ++ v) with (58 :: 32 :: v). rewrite split_once_app by done.
    cbn [length] in Hf. unfold Reader_bind.
    rewrite IH by lia. rewrite trim_space, (trim_id n), (trim_id v) by auto with mibee. done.
Qed.

Lemma method_roundtrip m : method_from_str (method_to_string m) = Ok m.
Proof. by destruct m. Qed.

Lemma method_solid m : forallb is_solid (method_to_string m) = true.
Proof. by destruct m. Qed.

(** A well-formed request, whatever follows it in the buffer, is read back
    as it was written, method, URI, headers, body and CSeq, and exactly its
    bytes are consumed.  A body the headers announce but that cannot be
    allocated unwinds the task before any authentication. *)
Theorem read_request_render req rest :
  request_ok req →
  read_rtsp_request eof alloc (render_request req ++ rest)
  = if alloc (zlen (body req)) then Ready (Ok (Some req)) rest
    else Ready Panic (body req ++ rest).
Proof.
  destruct req as [m u hs b n]. unfold request_ok, render_request.
  cbn [method uri headers body cseq]. intros (Hua & Hu32 & Hu10 & Hhs & Hlen & Hseq).
  destruct (solid_bytes _ (method_solid m)) as (Hm10 & Hm32 & Hma).
  rewrite <-!app_assoc. set (tail := concat _ ++ _).
  unfold read_rtsp_request. set (fuel := S (length _)).
  assert (length hs < fuel)%nat as Hfuel.
  { unfold fuel, tail. rewrite !length_app.
    assert (length hs ≤ length (concat (List.map header_line hs)))%nat; [|lia].
    clear. induction hs as [|h hs IH]; cbn; [lia|]. rewrite length_app. unfold header_line at 1.
    rewrite !length_app. unfold CRLF. cbn [length]. lia. }
  assert (lacks 10 (request_line m u) ∧ Forall is_ascii (request_line m u)) as [Hl10 Hla].
  { unfold request_line. cbn [join].
    change (method_to_string m ++ 32 :: u ++ 32 :: lit "RTSP/1.0")
      with (method_to_string m ++ [32] ++ u ++ lit " RTSP/1.0").
    rewrite !lacks_app, !Forall_app.
    split_and!; try done; repeat constructor; unfold is_ascii; cbn; lia. }
  assert (negb (zlen (request_line m u) =? 0) = true) as Hne by (by destruct m).
  unfold mbind, Reader_bind at 1. destruct fuel as [|fuel]; [lia|]. cbn [read_start].
  unfold mbind, Reader_bind at 1. rewrite read_line_crlf by done.
  rewrite zlen_crlf_pos, (chomp_line (request_line m u)), Hne by done.
  cbn [mret Reader_ret]. unfold read_rest, request_line.
  rewrite splitn_join; [| |done|done].
  2:{ rewrite !Forall_cons. split_and!; try done. by repeat constructor. }
  unfold mbind, Reader_bind at 1. unfold rd_lift at 1. rewrite method_roundtrip.
  unfold Reader_bind at 1. unfold tail. rewrite read_headers_render by done. rewrite Hlen.
  destruct (alloc (zlen b)) eqn:Ea; cbn [negb]; [|done].
  unfold Reader_bind. rewrite Hseq. destruct (Z.ltb_spec 0 (zlen b)) as [Hb|Hb].
  - unfold rd_exact. rewrite (proj2 (Z.leb_le (zlen b) _)) by (rewrite zlen_app; pose proof (zlen_nonneg rest); lia).
    by rewrite length_zlen, take_app_length, drop_app_length.
  - rewrite (zlen_0 b) by (pose proof (zlen_nonneg b); lia). done.
Qed.
End render.

(** ** A concrete server *)
Definition sample_alloc (n : Z) : bool := n <? 2 ^ 63.
Definition sample_config : RtspServerConfig :=
  mkConfig 8554 true (lit "mibee-eye RTSP Server") (lit "admin") (lit "secret").
Definition sample_live : LiveStreams :=
  [(lit "live/cam", mkLive 7 (lit "v=0") 42 None None)].
Definition sample_run : Conn → list Event → Conn :=
  conn_run hex_encode_sample (λ b, b) sample_alloc sample_config [] (lit "n0").

Definition sample_request (m : RtspMethod) (hs : list (bytes * bytes)) : bytes :=
  render_request (mkRequest m (lit "rtsp://h/live/cam") hs [] 0).

(** A connection in the delivery loop, and the two halves of a TEARDOWN. *)
Definition sample_playing : Conn :=
  let t := mkTransport (Some (0, 1)) None None (lit "ab") (Some 42) (Some (lit "play")) in
  mkConn [] [] false (StPlaying (lit "ab") t (lit "live/cam") 42)
    (Delivering (mkDelivery 7 42 0 1 (lit "ab") None 0 0 0 0)) [].
Definition teardown_text : bytes := sample_request Teardown [(lit "CSeq", lit "5")].

Lemma read_request_render_witness :
  read_rtsp_request false sample_alloc (sample_request Options [(lit "Session", lit "ab")] ++ [36])
  = Ready (Ok (Some (mkRequest Options (lit "rtsp://h/live/cam") [(lit "Session", lit "ab")] [] 0))) [36].
Proof.
  refine (eq_trans (read_request_render false sample_alloc
    (mkRequest Options (lit "rtsp://h/live/cam") [(lit "Session", lit "ab")] [] 0) [36] _) _);
    [|reflexivity].
  assert (Forall is_ascii (lit "rtsp://h/live/cam") ∧ Forall is_ascii (lit "ab")) as [H1 H2]
    by (split; repeat constructor; unfold is_ascii; cbn; lia).
  unfold request_ok. cbn [uri headers body cseq]. split_and!; try done.
  - repeat constructor.
  - repeat constructor.
  - apply Forall_cons. split; [|constructor]. split_and!; try done; repeat constructor.
Defined.

Lemma connection_invariant_witness :
  c_phase (sample_run conn_new [EvBytes teardown_text; EvRead sample_live (lit "s1") 0]) ≠ Crashed
  ∧ (∀ n, (λ _ : Z, true) n = true)
  ∧ c_phase (conn_run hex_encode_sample (λ b, b) (λ _, true) sample_config [] (lit "n0") conn_new
       [EvBytes teardown_text; EvRead sample_live (lit "s1") 0]) ≠ Crashed.
Proof.
  split; [vm_compute; discriminate|]. split; [done|].
  exact (proj2 (proj2 (connection_invariant hex_encode_sample (λ b, b) (λ _, true) sample_config []
    (lit "n0") [EvBytes teardown_text; EvRead sample_live (lit "s1") 0])) (λ _, eq_refl)).
Defined.

Lemma auth_gate_witness :
  let es := [EvBytes (sample_request Setup [(lit "Transport", lit "RTP/AVP/TCP")]
                      ++ sample_request Play []);
             EvRead sample_live (lit "s1") 0; EvRead sample_live (lit "s2") 0] in
  c_session (sample_run conn_new es) = StInit
  ∧ zlen (c_out (sample_run conn_new es)) = 2 * zlen (challenges sample_config (lit "n0") [0]).
Proof.
  intros es. split; [|vm_compute; reflexivity].
  refine (proj1 (auth_gate hex_encode_sample (λ b, b) sample_alloc sample_config [] (lit "n0") es _)).
  vm_compute. repeat split.
Defined.

Lemma torn_request_lost_witness :
  let a := take 40 teardown_text in
  let b := drop 40 teardown_text in
  let es := [EvBytes a; EvRead [] [] 1; EvFrame [1; 2] 2; EvBytes b; EvRead [] [] 3] in
  sample_run sample_playing es
    = sample_run sample_playing [EvFrame [1; 2] 2; EvBytes b; EvRead [] [] 3]
  ∧ c_phase (sample_run sample_playing es) = Closed
  ∧ c_out (sample_run sample_playing es) = frame_bytes 0 [1; 2].
Proof.
  intros a b es. split; [|split; vm_compute; reflexivity].
  refine (proj1 (torn_request_lost hex_encode_sample (λ b, b) sample_alloc sample_config [] (lit "n0")
    sample_playing _ a b [1; 2] [] [] [] [] 1 2 3 eq_refl eq_refl eq_refl eq_refl _)).
  vm_compute. reflexivity.
Defined.

Lemma no_sender_report_while_streaming_witness :
  c_out (sample_run sample_playing
    [EvFrame [1] 4000; EvTimer 9 8999; EvFrame [2; 3] 8999; EvTimer 9 13000; EvFrame [] 13500])
  = frame_bytes 0 [1] ++ frame_bytes 0 [2; 3] ++ frame_bytes 0 [].
Proof.
  refine (proj1 (no_sender_report_while_streaming hex_encode_sample (λ b, b) sample_alloc
    sample_config [] (lit "n0") _ sample_playing _ eq_refl _)).
  vm_compute. repeat split; discriminate.
Defined.

(** Inside the delivery loop nothing is authorized again: without any
    credentials, PAUSE ends the connection instead of pausing, and DESCRIBE is
    answered with the methods of OPTIONS. *)
Example delivery_not_authenticated :
  let read m := sample_run sample_playing [EvBytes (sample_request m []); EvRead sample_live [] 1] in
  authorized hex_encode_sample sample_config
    (mkRequest Pause (lit "rtsp://h/live/cam") [] [] 0) = false
  ∧ c_phase (read Pause) = Closed
  ∧ c_out (read Pause) = build_ok_response 0 [(lit "Session", lit "ab")] []
  ∧ c_out (read Describe) = handle_options 0.
Proof. vm_compute. repeat split. Qed.
