(* ===== verification/RateLimit.v ===== *)
(** * Request rate limiting ([crates/security/src/rate_limit.rs])

    The process-global table of clients as a finite map, and what a client can
    obtain from it over time. *)
From Stdlib Require Import ZArith Lia List Bool String.
From stdpp Require Import base option list numbers gmap.
From S2P Require Import Prelude.

Record RateLimitEntry := mkEntry { count : Z; window_start : Z }.

(** [STATE] *)
Abbreviation Table := (gmap bytes RateLimitEntry).

Definition MAX_TRACKED_CLIENTS : Z := 8192.

Definition is_window_expired (entry : RateLimitEntry) (now window_secs : Z) : bool :=
  wrap64 (window_start entry + window_secs) <=? now.

Definition len (state : Table) : Z := Z.of_nat (size state).

(** [state.retain(..)] when half of the table is in use. *)
Definition prune (state : Table) (now window_secs : Z) : Table :=
  if MAX_TRACKED_CLIENTS / 2 <=? len state
  then filter (λ kv, is_window_expired kv.2 now window_secs = false) state
  else state.

(** [check_rate_limit] at the time [now] of [unix_secs]. *)
Definition check_rate_limit (state : Table) (ip : bytes) (max window_secs now : Z)
    : Table * bool :=
  let state := prune state now window_secs in
  if MAX_TRACKED_CLIENTS <=? len state then (state, false)
  else
    match state !! ip with
    | Some entry =>
        if negb (is_window_expired entry now window_secs) then
          if count entry <? max
          then (<[ip := mkEntry (count entry + 1) (window_start entry)]> state, true)
          else (state, false)
        else (<[ip := mkEntry 1 now]> state, true)
    | None => (<[ip := mkEntry 1 now]> state, true)
    end.

Definition reset_rate_limit (state : Table) (ip : bytes) : Table := delete ip state.
Definition reset_all (state : Table) : Table := ∅.

(** ** Runs *)
Section run.
Context (max window_secs : Z).

(** The verdicts on a sequence of calls [(ip, now)], and the last table. *)
Fixpoint run_calls (state : Table) (calls : list (bytes * Z)) : list bool * Table :=
  match calls with
  | [] => ([], state)
  | (ip, now) :: calls =>
      let '(state, ok) := check_rate_limit state ip max window_secs now in
      let '(oks, state) := run_calls state calls in (ok :: oks, state)
  end.

(** How many calls of [k] at a time in [[a, a + window_secs)] are allowed. *)
Fixpoint allowed (k : bytes) (a : Z) (state : Table) (calls : list (bytes * Z)) : Z :=
  match calls with
  | [] => 0
  | (ip, now) :: calls =>
      let '(state, ok) := check_rate_limit state ip max window_secs now in
      Z_of_bool (ok && bool_decide (ip = k) && (a <=? now) && (now <? a + window_secs))
      + allowed k a state calls
  end.

(** The clock does not go back from [t]. *)
Fixpoint clock (t : Z) (calls : list (bytes * Z)) : Prop :=
  match calls with
  | [] => True
  | (_, now) :: calls => t ≤ now < 2 ^ 64 - window_secs ∧ clock now calls
  end.

(** ** The table stays bounded *)
Lemma size_prune state now : (size (prune state now window_secs) ≤ size state)%nat.
Proof.
  unfold prune. destruct (_ <=? _); [|done]. apply map_subseteq_size, map_filter_subseteq.
Qed.

Lemma size_insert_le (state : Table) ip e : (size (<[ip := e]> state) ≤ S (size state))%nat.
Proof.
  destruct (state !! ip) as [e'|] eqn:E.
  - rewrite map_size_insert_Some; [lia | by eexists].
  - by rewrite map_size_insert_None.
Qed.

Lemma check_size state ip now :
  len state ≤ MAX_TRACKED_CLIENTS →
  len (check_rate_limit state ip max window_secs now).1 ≤ MAX_TRACKED_CLIENTS.
Proof.
  unfold len, check_rate_limit. intros H. pose proof (size_prune state now) as Hp.
  set (st := prune state now window_secs) in *. unfold len.
  destruct (Z.leb_spec MAX_TRACKED_CLIENTS (Z.of_nat (size st))) as [Hge|Hlt]; [cbn; lia|].
  pose proof (size_insert_le st ip) as Hi.
  destruct (st !! ip) as [e|]; [destruct (negb _); [destruct (_ <? _)|]|]; cbn [fst];
    try match goal with |- context [insert _ ?e _] => specialize (Hi e) end; lia.
Qed.

(** ** What one client obtains *)

(** Entries in use started in the past and count between one and [max]. *)
Definition entry_ok (t : Z) (e : RateLimitEntry) : Prop :=
  1 ≤ count e ≤ max ∧ 0 ≤ window_start e ≤ t.
Definition table_ok (t : Z) (state : Table) : Prop := map_Forall (λ _, entry_ok t) state.

(** An upper bound on the calls of [k] still to be allowed in the interval
    when all calls to come happen at [t] or later. *)
Definition budget (k : bytes) (a t : Z) (state : Table) : Z :=
  if a + window_secs <=? t then 0
  else if t <? a then 2 * max - 1
  else match state !! k with
       | Some e => if window_start e <? a then 2 * max - count e else max - count e
       | None => max
       end.

Lemma expired_iff t now e :
  entry_ok t e → 0 ≤ window_secs → t ≤ now < 2 ^ 64 - window_secs →
  is_window_expired e now window_secs = (window_start e + window_secs <=? now).
Proof.
  intros [_ He] Hw Hn. unfold is_window_expired, wrap64. by rewrite Z.mod_small by lia.
Qed.

Lemma prune_lookup state now k :
  prune state now window_secs !! k = state !! k
  ∨ ∃ e, state !! k = Some e ∧ is_window_expired e now window_secs = true
       ∧ prune state now window_secs !! k = None.
Proof.
  unfold prune. destruct (_ <=? _); [|by left].
  destruct (state !! k) as [e|] eqn:E.
  - destruct (is_window_expired e now window_secs) eqn:X.
    + right. exists e. split_and!; [done..|]. apply map_lookup_filter_None. right.
      intros e' He'. rewrite E in He'. injection He' as <-. cbn. by rewrite X.
    + left. by apply map_lookup_filter_Some.
  - left. apply map_lookup_filter_None. by left.
Qed.

Lemma prune_ok t state now : table_ok t state → table_ok t (prune state now window_secs).
Proof.
  intros H k e He. apply (H k). destruct (prune_lookup state now k) as [<-|(? & _ & _ & E)]; [done|].
  by rewrite E in He.
Qed.

Context (max_pos : 1 ≤ max) (window_nonneg : 0 ≤ window_secs).

Lemma budget_nonneg k a t state : table_ok t state → 0 ≤ budget k a t state.
Proof using max_pos.
  intros H. unfold budget. destruct (_ <=? _); [lia|]. destruct (_ <? _); [lia|].
  destruct (state !! k) as [e|] eqn:E; [|lia]. destruct (H k e E) as [He _].
  destruct (_ <? _); lia.
Qed.

Lemma budget_later k a t now state :
  table_ok t state → t ≤ now → budget k a now state ≤ budget k a t state.
Proof using max_pos.
  intros H Hn. pose proof (budget_nonneg k a t state H) as H0. unfold budget in *.
  destruct (Z.leb_spec (a + window_secs) now) as [|Hw]; [lia|].
  rewrite (proj2 (Z.leb_gt (a + window_secs) t)) in * by lia.
  destruct (Z.ltb_spec now a) as [|Ha]; [by rewrite (proj2 (Z.ltb_lt t a)) by lia|].
  destruct (Z.ltb_spec t a) as [Hta|]; [|lia].
  destruct (state !! k) as [e|] eqn:E; [|lia]. destruct (H k e E) as [He _].
  destruct (_ <? _); lia.
Qed.

Lemma budget_prune k a t now state :
  table_ok t state → t ≤ now < 2 ^ 64 - window_secs →
  budget k a now (prune state now window_secs) ≤ budget k a now state.
Proof using max_pos window_nonneg.
  intros H Hn. unfold budget. destruct (Z.leb_spec (a + window_secs) now) as [|Hw]; [lia|].
  destruct (now <? a); [lia|].
  destruct (prune_lookup state now k) as [->|(e & E & X & ->)]; [lia|]. rewrite E.
  rewrite (expired_iff t) in X by (try lia; by apply (H k)). apply Z.leb_le in X.
  rewrite (proj2 (Z.ltb_lt (window_start e) a)) by lia. destruct (H k e E) as [He _]. lia.
Qed.

Lemma table_ok_insert t state ip e :
  table_ok t state → entry_ok t e → table_ok t (<[ip := e]> state).
Proof. intros H He. by apply map_Forall_insert_2. Qed.

Lemma table_ok_later t now state : table_ok t state → t ≤ now → table_ok now state.
Proof. intros H Hn k e E. destruct (H k e E). split; lia. Qed.

(** One call on a pruned table: what it takes from the budget. *)
Lemma call_budget k a now ip state state' ok :
  table_ok now state → 0 ≤ now < 2 ^ 64 - window_secs →
  (match state !! ip with
   | Some entry =>
       if negb (is_window_expired entry now window_secs) then
         if count entry <? max
         then (<[ip := mkEntry (count entry + 1) (window_start entry)]> state, true)
         else (state, false)
       else (<[ip := mkEntry 1 now]> state, true)
   | None => (<[ip := mkEntry 1 now]> state, true)
   end) = (state', ok) →
  table_ok now state'
  ∧ Z_of_bool (ok && bool_decide (ip = k) && (a <=? now) && (now <? a + window_secs))
    + budget k a now state' ≤ budget k a now state.
Proof using max_pos window_nonneg.
  intros H Hn Hcall.
  assert (ok = true → ∃ c s, state' = <[ip := mkEntry c s]> state ∧ 1 ≤ c ≤ max ∧ 0 ≤ s ≤ now
    ∧ ((∃ e, state !! ip = Some e ∧ c = count e + 1 ∧ s = window_start e)
       ∨ (c = 1 ∧ s = now
          ∧ ∀ e, state !! ip = Some e → window_start e + window_secs ≤ now))) as Hok.
  { intros ->. destruct (state !! ip) as [e|] eqn:E.
    - destruct (H ip e E) as [Hc Hs]. rewrite (expired_iff now) in Hcall by (try lia; done).
      destruct (Z.leb_spec (window_start e + window_secs) now) as [Hx|Hx]; cbn [negb] in Hcall.
      + injection Hcall as <-. exists 1, now. split_and!; try lia; [done|]. right.
        split_and!; try done. intros e' [= <-]. done.
      + destruct (Z.ltb_spec (count e) max); [|done]. injection Hcall as <-.
        exists (count e + 1), (window_start e). split_and!; try lia; [done|]. left. by exists e.
    - injection Hcall as <-. exists 1, now. split_and!; try lia; [done|]. by right. }
  destruct ok.
  2:{ assert (state' = state) as ->.
      { repeat case_match; by simplify_eq. }
      cbn. split; [done | lia]. }
  destruct (Hok eq_refl) as (c & s & -> & Hc & Hs & Hcase).
  split; [by apply table_ok_insert|]. cbn [andb].
  unfold budget. destruct (Z.leb_spec (a + window_secs) now) as [Hw|Hw].
  { rewrite (proj2 (Z.ltb_ge now _)) by lia. rewrite andb_false_r. cbn. lia. }
  rewrite (proj2 (Z.ltb_lt now (a + window_secs))) by lia. rewrite andb_true_r.
  destruct (Z.ltb_spec now a) as [Ha|Ha].
  { rewrite (proj2 (Z.leb_gt a now)) by lia. rewrite andb_false_r. cbn. lia. }
  rewrite (proj2 (Z.leb_le a now)) by lia. rewrite andb_true_r.
  destruct (bool_decide_reflect (ip = k)) as [->|Hne]; cbn [Z_of_bool].
  - rewrite lookup_insert_eq. cbn [count window_start].
    destruct Hcase as [(e & E & -> & ->)|(-> & -> & Hx)].
    + rewrite E. destruct (window_start e <? a); lia.
    + rewrite (proj2 (Z.ltb_ge now a)) by lia.
      destruct (state !! k) as [e|] eqn:E; [|lia]. specialize (Hx e eq_refl).
      destruct (H k e E) as [He _]. rewrite (proj2 (Z.ltb_lt (window_start e) a)) by lia. lia.
  - rewrite lookup_insert_ne by done. lia.
Qed.

Lemma check_budget k a t now ip state state' ok :
  table_ok t state → 0 ≤ t → t ≤ now < 2 ^ 64 - window_secs →
  check_rate_limit state ip max window_secs now = (state', ok) →
  table_ok now state'
  ∧ Z_of_bool (ok && bool_decide (ip = k) && (a <=? now) && (now <? a + window_secs))
    + budget k a now state' ≤ budget k a t state.
Proof using max_pos window_nonneg.
  intros H Ht Hn Hcall. unfold check_rate_limit in Hcall.
  pose proof (budget_prune k a t now state H Hn) as Hp.
  pose proof (budget_later k a t now state H ltac:(lia)) as Hl.
  assert (table_ok now (prune state now window_secs)) as Hok
    by (apply (table_ok_later t); [by apply prune_ok | lia]).
  destruct (MAX_TRACKED_CLIENTS <=? len (prune state now window_secs)).
  - injection Hcall as <- <-. cbn. split; [done | lia].
  - destruct (call_budget k a now ip _ _ _ Hok ltac:(lia) Hcall) as [H1 H2]. split; [done | lia].
Qed.

Lemma allowed_budget k a calls t state :
  table_ok t state → 0 ≤ t → clock t calls → allowed k a state calls ≤ budget k a t state.
Proof using max_pos window_nonneg.
  revert t state. induction calls as [|[ip now] calls IH]; intros t state H Ht Hc.
  - by apply budget_nonneg.
  - destruct Hc as [Hn Hc]. cbn [allowed].
    destruct (check_rate_limit state ip max window_secs now) as [state' ok] eqn:E.
    destruct (check_budget k a t now ip state state' ok H Ht Hn E) as [Hok Hb].
    specialize (IH now state' Hok ltac:(lia) Hc). lia.
Qed.
End run.

(** What the limiter guarantees over any sequence of calls, from any
    clients, with a clock that does not go back: the table never holds more
    than 8192 clients, and in any interval of [window_secs] seconds a client
    is allowed at most [2 * max - 1] requests.  The bound is reached: the
    window is a fixed one that starts with a request, not a sliding one. *)
Theorem rate_limit_bounds max window_secs calls k a :
  1 ≤ max → 0 ≤ window_secs → clock window_secs 0 calls →
  len (run_calls max window_secs ∅ calls).2 ≤ MAX_TRACKED_CLIENTS
  ∧ allowed max window_secs k a ∅ calls ≤ 2 * max - 1
  ∧ allowed 3 60 [1] 50 ∅ [([1], 0); ([1], 58); ([1], 59); ([1], 60); ([1], 61); ([1], 62)]
    = 2 * 3 - 1.
Proof.
  intros Hmax Hw Hc. split; [|split; [|vm_compute; reflexivity]].
  - assert (len (∅ : Table) ≤ MAX_TRACKED_CLIENTS) as H0 by done. revert H0.
    clear Hc. generalize (∅ : Table). induction calls as [|[ip now] calls IH]; intros st H; [done|].
    cbn [run_calls]. pose proof (check_size max window_secs st ip now H) as Hs.
    destruct (check_rate_limit st ip max window_secs now) as [st' ok]. specialize (IH st' Hs).
    by destruct (run_calls max window_secs st' calls).
  - assert (table_ok max 0 (∅ : Table)) as H0 by apply map_Forall_empty.
    etrans; [by apply (allowed_budget max window_secs Hmax Hw k a calls 0 ∅ H0)|].
    unfold budget. rewrite lookup_empty. destruct (_ <=? _); [lia|]. destruct (_ <? _); lia.
Qed.

Lemma rate_limit_bounds_witness :
  allowed 2 10 [7] 5 ∅ [([7], 0); ([8], 3); ([7], 6); ([7], 7); ([7], 11); ([7], 12); ([7], 13)] ≤ 3.
Proof.
  refine (proj1 (proj2 (rate_limit_bounds 2 10 _ [7] 5 _ _ _))); [lia | lia |].
  cbn. repeat split; lia.
Defined.
