(* ===== verification/Sessions.v ===== *)
(** * Users and sessions ([crates/security/src/auth.rs], [password.rs])

    The two tables of the authentication database and the operations on them.
    A connection is a record of the tables with an oracle that says which of
    the coming SQL statements fail; a statement is atomic and a failed one
    changes nothing.  bcrypt is a parameter, and the bytes the system's random
    generator hands out are arguments. *)
From Stdlib Require Import ZArith Lia List Bool String.
From stdpp Require Import base option list numbers gmap.
From S2P Require Import Prelude Text.

(** ** Errors *)

(** The root cause of an [anyhow::Error]: what [downcast_ref] looks for. *)
Inductive Anyhow := Rusqlite | BcryptError | Message (m : string).

Inductive AuthError :=
  | UserNotFound (username : bytes)
  | WrongPassword
  | Database
  | Bcrypt
  | Other.

(** [impl From<anyhow::Error> for AuthError] *)
Definition from_anyhow (e : Anyhow) : AuthError :=
  match e with
  | Rusqlite => Database
  | BcryptError => Bcrypt
  | Message _ => Other
  end.

(** ** The database *)
Record Session := mkSession { user_id : bytes; created_at : bytes; expires_at : bytes }.

(** [tables]: whether the migration has been applied; [users] maps a username
    to its password hash, [sessions] a token to its row; [faults] lists, for
    the statements to come, whether they fail (all succeed after its end). *)
Record Db := mkDb {
  tables : bool; users : gmap bytes bytes; sessions : gmap bytes Session; faults : list bool;
}.

Definition with_users (u : gmap bytes bytes) (d : Db) : Db := mkDb (tables d) u (sessions d) (faults d).
Definition with_sessions (s : gmap bytes Session) (d : Db) : Db := mkDb (tables d) (users d) s (faults d).
Definition with_faults (f : list bool) (d : Db) : Db := mkDb (tables d) (users d) (sessions d) f.

(** A computation on a connection that may fail with an [E]. *)
Definition DbM (E A : Type) : Type := Db → (A + E) * Db.

#[export] Instance DbM_ret E : MRet (DbM E) := λ A a d, (inl a, d).
#[export] Instance DbM_bind E : MBind (DbM E) := λ A B f m d,
  match m d with
  | (inl a, d') => f a d'
  | (inr e, d') => (inr e, d')
  end.

Definition fail {E A} (e : E) : DbM E A := λ d, (inr e, d).
Definition lift {E A} (r : A + E) : DbM E A := λ d, (r, d).
(** [?] on an error of another type. *)
Definition map_err {E F A} (f : E → F) (m : DbM E A) : DbM F A := λ d,
  match m d with
  | (inl a, d') => (inl a, d')
  | (inr e, d') => (inr (f e), d')
  end.

(** One SQL statement: it may fail, or [q] refuses it, or it is done. *)
Definition sql {A} (q : Db → option (A * Db)) : DbM Anyhow A := λ d,
  let d0 := with_faults (tail (faults d)) d in
  if default false (head (faults d)) then (inr Rusqlite, d0)
  else match q d0 with
       | Some (a, d') => (inl a, d')
       | None => (inr Rusqlite, d0)
       end.

(** A statement on a table that the migration creates. *)
Definition on_tables {A} (q : Db → option (A * Db)) : Db → option (A * Db) :=
  λ d, if tables d then q d else None.

(** [CREATE TABLE IF NOT EXISTS ...] of the migration. *)
Definition init_users_table : DbM Anyhow () :=
  sql (λ d, Some ((), mkDb true (users d) (sessions d) (faults d))).
Definition init_sessions_table : DbM Anyhow () := init_users_table.

(** ** Tokens and sessions *)
Definition SESSION_TTL_SECS : Z := 24 * 60 * 60.

(** [generate_token] on the 32 bytes [rand] of the random generator. *)
Definition generate_token (rand : bytes) : bytes := rand ≫= hex_digits 2.

(** [INSERT INTO sessions ..]: a token in use violates the primary key. *)
Definition insert_session (token : bytes) (s : Session) : Db → option (() * Db) :=
  on_tables (λ d, match sessions d !! token with
    | Some _ => None
    | None => Some ((), with_sessions (<[token := s]> (sessions d)) d)
    end).

Definition create_session (rand : bytes) (now : Z) (user : bytes) : DbM Anyhow bytes :=
  let token := generate_token rand in
  let created := dec_of_Z now in
  let expires := dec_of_Z (wrap64 (now + SESSION_TTL_SECS)) in
  sql (insert_session token (mkSession user created expires)) ≫= λ _, mret token.

Definition validate_session (now : Z) (token : bytes) : DbM Anyhow (option bytes) :=
  sql (on_tables (λ d, Some (sessions d !! token, d))) ≫= λ row,
  match row with
  | Some s =>
      match parse_u64 (expires_at s) with
      | None => fail (Message "Invalid expires_at timestamp")
      | Some expires => mret (if now <? expires then Some (user_id s) else None)
      end
  | None => mret None
  end.

Definition invalidate_session (token : bytes) : DbM Anyhow () :=
  sql (on_tables (λ d, Some ((), with_sessions (delete token (sessions d)) d))).

(** The order of SQLite on [TEXT]: byte by byte. *)
Fixpoint text_lt (a b : bytes) : bool :=
  match a, b with
  | _, [] => false
  | [], _ :: _ => true
  | x :: a, y :: b => (x <? y) || ((x =? y) && text_lt a b)
  end.

(** [expires_at < now]: both sides are [TEXT]. *)
Definition expired (now : Z) (s : Session) : bool := text_lt (expires_at s) (dec_of_Z now).

Definition cleanup_expired_sessions (now : Z) : DbM Anyhow Z :=
  sql (on_tables (λ d,
    let kept := filter (λ kv, expired now kv.2 = false) (sessions d) in
    Some (Z.of_nat (size (sessions d)) - Z.of_nat (size kept), with_sessions kept d))).

(** ** Users *)
Definition is_first_run : DbM Anyhow bool :=
  sql (λ d, Some (tables d, d)) ≫= λ table_exists : bool,
  if negb table_exists then mret true
  else
    sql (on_tables (λ d, Some (Z.of_nat (size (users d)), d))) ≫= λ n : Z,
    mret (n =? 0).

Definition get_user_password (username : bytes) : DbM Anyhow (option bytes) :=
  sql (on_tables (λ d, Some (users d !! username, d))).

(** [INSERT INTO users ..] of [setup_handler]. *)
Definition insert_user (username hash : bytes) : DbM Anyhow () :=
  sql (on_tables (λ d, match users d !! username with
    | Some _ => None
    | None => Some ((), with_users (<[username := hash]> (users d)) d)
    end)).

Definition update_user_password (username hash : bytes) : DbM Anyhow () :=
  sql (on_tables (λ d, match users d !! username with
    | Some _ => Some (1, with_users (<[username := hash]> (users d)) d)
    | None => Some (0, d)
    end)) ≫= λ affected : Z,
  if affected =? 0 then fail (Message "User not found") else mret ().

Definition delete_all_user_sessions (username : bytes) : DbM Anyhow Z :=
  sql (on_tables (λ d,
    let kept := filter (λ kv, user_id kv.2 ≠ username) (sessions d) in
    Some (Z.of_nat (size (sessions d)) - Z.of_nat (size kept), with_sessions kept d))).

(** ** Passwords *)

(** bcrypt: [hash] draws a salt and may fail, [verify] fails on a string that
    is not a hash. *)
Class BcryptLib := {
  bcrypt_hash : bytes → bytes → option bytes;
  bcrypt_verify : bytes → bytes → option bool;
}.

Section passwords.
Context `{BcryptLib}.

Definition hash_password (salt plain : bytes) : bytes + Anyhow :=
  match bcrypt_hash salt plain with Some h => inl h | None => inr BcryptError end.
Definition verify_password (plain hash : bytes) : bool + Anyhow :=
  match bcrypt_verify plain hash with Some b => inl b | None => inr BcryptError end.

Definition reset_password (salt username old_password new_password : bytes) : DbM AuthError () :=
  map_err from_anyhow (get_user_password username) ≫= λ row,
  match row with
  | None => fail (UserNotFound username)
  | Some stored_hash =>
      map_err from_anyhow (lift (verify_password old_password stored_hash)) ≫= λ ok : bool,
      if negb ok then fail WrongPassword
      else
        map_err from_anyhow (lift (hash_password salt new_password)) ≫= λ new_hash,
        map_err from_anyhow (update_user_password username new_hash) ≫= λ _,
        map_err from_anyhow (delete_all_user_sessions username) ≫= λ _,
        mret ()
  end.
End passwords.

(** ** Decimal text in the order of SQLite *)

(** The last [k] decimal digits. *)
Fixpoint decs (k : nat) (n : Z) : bytes :=
  match k with
  | O => []
  | S k => decs k (n / 10) ++ [48 + n mod 10]
  end.

Lemma length_decs k n : length (decs k n) = k.
Proof. revert n. induction k as [|k IH]; intros n; cbn; [done|]. rewrite length_app, IH. cbn. lia. Qed.

Lemma dec_rev_decs k fuel n :
  10 ^ Z.of_nat k ≤ n < 10 ^ Z.of_nat (S k) → (Z.to_nat (Z.log2 n) < fuel)%nat →
  rev (dec_rev fuel n) = decs (S k) n.
Proof.
  revert fuel n. induction k as [|k IH]; intros fuel n Hn Hf; (destruct fuel as [|fuel]; [lia|]);
    cbn [dec_rev rev decs].
  - rewrite (proj2 (Z.ltb_lt n 10)) by lia. done.
  - rewrite !Nat2Z.inj_succ, !Z.pow_succ_r in Hn by lia.
    assert (0 < 10 ^ Z.of_nat k) by (apply Z.pow_pos_nonneg; lia).
    rewrite (proj2 (Z.ltb_ge n 10)) by lia.
    rewrite (IH fuel (n / 10)); [done| |].
    + rewrite Nat2Z.inj_succ, Z.pow_succ_r by lia. dm_lia.
    + pose proof (log2_div_10 n ltac:(lia)). lia.
Qed.

Lemma dec_of_Z_decs k n :
  10 ^ Z.of_nat k ≤ n < 10 ^ Z.of_nat (S k) → dec_of_Z n = decs (S k) n.
Proof. intros Hn. apply dec_rev_decs; [done | lia]. Qed.

Lemma text_lt_snoc a b x y :
  length a = length b → text_lt (a ++ [x]) (b ++ [y]) = text_lt a b || (bytes_eqb a b && (x <? y)).
Proof.
  revert b. induction a as [|c a IH]; intros [|d b] Hl; cbn [length] in Hl; try lia.
  - cbn. by rewrite andb_false_r, orb_false_r.
  - cbn [app text_lt]. rewrite IH by lia. destruct (Z.ltb_spec c d); [done|].
    destruct (Z.eqb_spec c d) as [->|Hne]; cbn [orb andb].
    + f_equal. f_equal. unfold bytes_eqb. apply bool_decide_ext. naive_solver.
    + replace (bytes_eqb (c :: a) (d :: b)) with false; [done|].
      symmetry. apply bool_decide_eq_false. congruence.
Qed.

Lemma decs_inj k a b : 0 ≤ a < 10 ^ Z.of_nat k → 0 ≤ b < 10 ^ Z.of_nat k → decs k a = decs k b → a = b.
Proof.
  revert a b. induction k as [|k IH]; intros a b; cbn [decs]; [cbn; lia|].
  rewrite Nat2Z.inj_succ, Z.pow_succ_r by lia. intros Ha Hb [H1 H2]%app_inj_tail.
  apply IH in H1; [dm_lia | dm_lia | dm_lia].
Qed.

Lemma text_lt_decs k a b :
  0 ≤ a < 10 ^ Z.of_nat k → 0 ≤ b < 10 ^ Z.of_nat k → text_lt (decs k a) (decs k b) = (a <? b).
Proof.
  revert a b. induction k as [|k IH]; intros a b; cbn [decs].
  { cbn. intros Ha Hb. symmetry. apply Z.ltb_ge. lia. }
  rewrite Nat2Z.inj_succ, Z.pow_succ_r by lia. intros Ha Hb.
  rewrite text_lt_snoc by (by rewrite !length_decs). rewrite IH by dm_lia.
  destruct (decide (a / 10 = b / 10)) as [E|Hne].
  - rewrite E, Z.ltb_irrefl. unfold bytes_eqb. rewrite bool_decide_true by done. cbn [orb andb].
    apply eq_true_iff_eq. rewrite !Z.ltb_lt. dm_lia.
  - unfold bytes_eqb. rewrite bool_decide_false.
    2:{ intros H. apply decs_inj in H; [done | dm_lia | dm_lia]. }
    rewrite orb_false_r. apply eq_true_iff_eq. rewrite !Z.ltb_lt. dm_lia.
Qed.

(** Between September 2001 and November 2286 epoch seconds have ten digits
    and their text is ordered like the numbers. *)
Lemma text_lt_dec a b :
  10 ^ 9 ≤ a < 10 ^ 10 → 10 ^ 9 ≤ b < 10 ^ 10 → text_lt (dec_of_Z a) (dec_of_Z b) = (a <? b).
Proof. intros. rewrite !(dec_of_Z_decs 9) by done. apply text_lt_decs; lia. Qed.

(** ** What the statements do to the tables *)

(** The same tables; only the oracle has moved on. *)
Definition same (d d' : Db) : Prop :=
  tables d' = tables d ∧ users d' = users d ∧ sessions d' = sessions d.

Lemma same_refl d : same d d.
Proof. done. Qed.
Lemma same_trans a b c : same a b → same b c → same a c.
Proof. intros (?&?&?) (?&?&?). repeat split; congruence. Qed.
#[export] Hint Resolve same_refl : mibee.

Lemma sql_cases {A} (q : Db → option (A * Db)) d :
  (∃ d', sql q d = (inr Rusqlite, d') ∧ same d d')
  ∨ (∃ a d', sql q d = (inl a, d') ∧ q (with_faults (tail (faults d)) d) = Some (a, d')).
Proof.
  unfold sql. destruct (default false _).
  - left. eexists. split; [done|]. done.
  - destruct (q _) as [[a d']|] eqn:E; [right|left]; eexists; [eexists|]; done.
Qed.

(** A connection none of whose coming statements fails. *)
Definition healthy (d : Db) : Prop := Forall (λ b, b = false) (faults d).

Lemma sql_healthy {A} (q : Db → option (A * Db)) d :
  healthy d → sql q d = match q (with_faults (tail (faults d)) d) with
                        | Some (a, d') => (inl a, d')
                        | None => (inr Rusqlite, with_faults (tail (faults d)) d)
                        end.
Proof. intros Hd. unfold sql. destruct (faults d) eqn:E; [done|].
  unfold healthy in Hd. rewrite E in Hd. inversion Hd; subst. done. Qed.

Lemma Forall_tail {A} (P : A → Prop) l : Forall P l → Forall P (tail l).
Proof. by destruct 1. Qed.

(** [sql_run]: executes the next statement of a connection known to be healthy. *)
Ltac sql_run :=
  rewrite sql_healthy by (unfold healthy in *; cbn; repeat apply Forall_tail; done);
  try unfold on_tables at 1; cbn.

(** [sql_step]: case analysis on the first statement executed. *)
Ltac sql_step :=
  match goal with
  | |- context [sql ?q ?d] =>
      let H := fresh "Hsql" in let Q := fresh "Hq" in
      destruct (sql_cases q d) as [(? & H & ?)|(? & ? & H & Q)]; rewrite H; clear H
  | H0 : context [sql ?q ?d] |- _ =>
      let H := fresh "Hsql" in let Q := fresh "Hq" in
      destruct (sql_cases q d) as [(? & H & ?)|(? & ? & H & Q)]; rewrite H in H0; clear H
  end.

Lemma create_session_cases rand now user d :
  let token := generate_token rand in
  (∃ e d', create_session rand now user d = (inr e, d') ∧ same d d')
  ∨ (∃ d', create_session rand now user d = (inl token, d')
       ∧ tables d' = tables d ∧ tables d = true ∧ users d' = users d ∧ sessions d !! token = None
       ∧ sessions d' = <[token := mkSession user (dec_of_Z now)
                                   (dec_of_Z (wrap64 (now + SESSION_TTL_SECS)))]> (sessions d)).
Proof.
  cbv zeta. unfold create_session, mbind, DbM_bind. sql_step; [left; eauto|].
  right. unfold insert_session, on_tables in Hq. cbn in Hq.
  destruct (tables d) eqn:T; [|done]. destruct (sessions d !! _) eqn:E; [done|].
  injection Hq as <- <-. eexists. split; [done|]. done.
Qed.

Lemma validate_session_same now token d : same d (validate_session now token d).2.
Proof.
  unfold validate_session, mbind, DbM_bind. sql_step; [done|].
  unfold on_tables in Hq. cbn in Hq. destruct (tables d); [|done]. injection Hq as <- <-.
  destruct (sessions _ !! token); [destruct (parse_u64 _)|]; done.
Qed.

Lemma get_user_password_cases user d :
  (∃ e d', get_user_password user d = (inr e, d') ∧ same d d')
  ∨ (∃ d', get_user_password user d = (inl (users d !! user), d') ∧ same d d').
Proof.
  unfold get_user_password. sql_step; [left; eauto|]. right.
  unfold on_tables in Hq. cbn in Hq. destruct (tables d); [|done]. injection Hq as <- <-.
  eexists. split; [done|]. done.
Qed.

Lemma invalidate_session_cases token d :
  (∃ e d', invalidate_session token d = (inr e, d') ∧ same d d')
  ∨ (∃ d', invalidate_session token d = (inl (), d') ∧ tables d' = tables d ∧ tables d = true
       ∧ users d' = users d
       ∧ sessions d' = delete token (sessions d)).
Proof.
  unfold invalidate_session. sql_step; [left; eauto|]. right.
  unfold on_tables in Hq. cbn in Hq. destruct (tables d) eqn:T; [|done]. injection Hq as <- <-.
  eexists. split; [done|]. done.
Qed.

Lemma cleanup_cases now d :
  (∃ e d', cleanup_expired_sessions now d = (inr e, d') ∧ same d d')
  ∨ (∃ n d', cleanup_expired_sessions now d = (inl n, d') ∧ tables d' = tables d
       ∧ tables d = true ∧ users d' = users d ∧ sessions d' = filter (λ kv, expired now kv.2 = false) (sessions d)).
Proof.
  unfold cleanup_expired_sessions. sql_step; [left; eauto|]. right.
  unfold on_tables in Hq. cbn in Hq. destruct (tables d) eqn:T; [|done]. injection Hq as <- <-.
  eexists _, _. split; [done|]. done.
Qed.

Lemma is_first_run_cases d :
  (∃ e d', is_first_run d = (inr e, d') ∧ same d d')
  ∨ (∃ b d', is_first_run d = (inl b, d') ∧ same d d'
       ∧ b = negb (tables d) || (Z.of_nat (size (users d)) =? 0)).
Proof.
  unfold is_first_run, mbind, DbM_bind. sql_step; [left; eauto|]. cbn in Hq. injection Hq as <- <-.
  destruct (tables d) eqn:T; cbn [negb].
  - sql_step; [left; eauto|]. unfold on_tables in Hq. cbn in Hq. rewrite T in Hq.
    injection Hq as <- <-. right. eexists _, _. split; [done|]. done.
  - right. eexists _, _. split; [done|]. done.
Qed.

Lemma init_users_table_cases d :
  (∃ e d', init_users_table d = (inr e, d') ∧ same d d')
  ∨ (∃ d', init_users_table d = (inl (), d') ∧ tables d' = true
       ∧ users d' = users d ∧ sessions d' = sessions d).
Proof.
  unfold init_users_table. sql_step; [left; eauto|]. right. cbn in Hq. injection Hq as <- <-.
  eexists. split; [done|]. done.
Qed.

Lemma insert_user_cases username hash d :
  (∃ e d', insert_user username hash d = (inr e, d') ∧ same d d')
  ∨ (∃ d', insert_user username hash d = (inl (), d') ∧ tables d' = tables d ∧ tables d = true
       ∧ users d !! username = None
       ∧ users d' = <[username := hash]> (users d) ∧ sessions d' = sessions d).
Proof.
  unfold insert_user. sql_step; [left; eauto|]. right. unfold on_tables in Hq. cbn in Hq.
  destruct (tables d) eqn:T; [|done]. destruct (users d !! username) eqn:E; [done|].
  injection Hq as <- <-. eexists. split; [done|]. done.
Qed.

Lemma update_user_password_cases username hash d :
  (∃ e d', update_user_password username hash d = (inr e, d') ∧ same d d')
  ∨ (∃ d' h, update_user_password username hash d = (inl (), d') ∧ tables d' = tables d
       ∧ users d !! username = Some h
       ∧ users d' = <[username := hash]> (users d) ∧ sessions d' = sessions d).
Proof.
  unfold update_user_password, mbind, DbM_bind. sql_step; [left; eauto|].
  unfold on_tables in Hq. cbn in Hq. destruct (tables d) eqn:T; [|done].
  destruct (users d !! username) eqn:E; injection Hq as <- <-; cbn.
  - right. eexists _, _. split; [done|]. done.
  - left. eexists _, _. split; [done|]. done.
Qed.

Lemma delete_all_user_sessions_cases username d :
  (∃ d', delete_all_user_sessions username d = (inr Rusqlite, d') ∧ same d d')
  ∨ (∃ n d', delete_all_user_sessions username d = (inl n, d') ∧ tables d' = tables d
       ∧ tables d = true ∧ users d' = users d
       ∧ sessions d' = filter (λ kv, user_id kv.2 ≠ username) (sessions d)).
Proof.
  unfold delete_all_user_sessions. sql_step; [left; eauto|]. right.
  unfold on_tables in Hq. cbn in Hq. destruct (tables d) eqn:T; [|done]. injection Hq as <- <-.
  eexists _, _. split; [done|]. done.
Qed.

(** The branches of [reset_password]: it succeeds; it fails and changes
    nothing; or its last statement fails and the new password is in force
    while the sessions are still there. *)
Lemma reset_password_cases `{BcryptLib} salt user old new d :
  let '(r, d') := reset_password salt user old new d in
  tables d' = tables d
  ∧ match r with
    | inl _ => tables d = true ∧ ∃ h h', users d !! user = Some h ∧ bcrypt_verify old h = Some true
        ∧ bcrypt_hash salt new = Some h' ∧ users d' = <[user := h']> (users d)
        ∧ sessions d' = filter (λ kv, user_id kv.2 ≠ user) (sessions d)
    | inr e => sessions d' = sessions d
        ∧ (users d' = users d
           ∨ ∃ h h', users d !! user = Some h ∧ bcrypt_verify old h = Some true
               ∧ bcrypt_hash salt new = Some h' ∧ users d' = <[user := h']> (users d)
               ∧ e = Database)
    end.
Proof.
  unfold reset_password, mbind, DbM_bind, map_err, lift, fail, verify_password, hash_password.
  destruct (get_user_password_cases user d) as [(e & d1 & -> & HT & HU & HS)|(d1 & -> & HT & HU & HS)].
  { split_and!; auto. }
  destruct (users d !! user) as [h|] eqn:EU; [|split_and!; auto].
  destruct (bcrypt_verify old h) as [[]|] eqn:EV; cbn [negb]; [|by split_and!; auto..].
  destruct (bcrypt_hash salt new) as [h'|] eqn:EH; [|by split_and!; auto].
  destruct (update_user_password_cases user h' d1)
    as [(e & d2 & -> & ? & ? & ?)|(d2 & h2 & -> & HT2 & HL & HU2 & HS2)].
  { split_and!; [congruence..|]. left. congruence. }
  destruct (delete_all_user_sessions_cases user d2)
    as [(d3 & -> & HT3 & HU3 & HS3)|(n & d3 & -> & HT3 & HT4 & HU3 & HS3)].
  - split_and!; [congruence..|]. right. exists h, h'.
    split_and!; [congruence.. | done].
  - split_and!; [congruence..|]. exists h, h'. split_and!; congruence.
Qed.
