(* ===== verification/WebAuth.v ===== *)
(** * Authentication of the web server

    [crates/web/src/routes/mod.rs] (lockout and the handlers of
    [/api/auth]), [crates/security/src/middleware.rs], [csrf_middleware] of
    [crates/web/src/server.rs] and [crates/web/src/errors.rs].  A handler is
    cut where it releases the database lock; requests are interleaved at
    these points.  All readings of the clock between two such points are one
    argument. *)
From Stdlib Require Import ZArith Lia List Bool String.
From stdpp Require Import base option list numbers gmap.
From S2P Require Import Prelude Text RateLimit Sessions.

(** ** Responses ([errors.rs]) *)
Inductive ApiErrorKind :=
  | BadRequest | Unauthorized | NotFound | Conflict | TooManyRequests
  | NotImplemented | GatewayTimeout | InternalServerError | InsufficientStorage.

Definition status_code (k : ApiErrorKind) : Z :=
  match k with
  | BadRequest => 400 | Unauthorized => 401 | NotFound => 404 | Conflict => 409
  | TooManyRequests => 429 | NotImplemented => 501 | GatewayTimeout => 504
  | InternalServerError => 500 | InsufficientStorage => 507
  end.

Definition error_code (k : ApiErrorKind) : bytes :=
  match k with
  | BadRequest => lit "bad_request" | Unauthorized => lit "unauthorized"
  | NotFound => lit "not_found" | Conflict => lit "conflict"
  | TooManyRequests => lit "too_many_requests" | NotImplemented => lit "not_implemented"
  | GatewayTimeout => lit "gateway_timeout" | InternalServerError => lit "internal_error"
  | InsufficientStorage => lit "insufficient_storage"
  end.

(** Status, error code and message, [Set-Cookie] headers in order, and the
    CSRF token of the body. *)
Record Response := mkResponse {
  status : Z; error : option (bytes * bytes); set_cookie : list bytes; csrf_body : option bytes;
}.

Definition api_error (k : ApiErrorKind) (message : bytes) : Response :=
  mkResponse (status_code k) (Some (error_code k, message)) [] None.

(** [error_response] of the middleware. *)
Definition error_response (st : Z) (message : bytes) : Response :=
  let code := if st =? 401 then lit "unauthorized" else if st =? 500 then lit "internal_error"
    else if st =? 429 then lit "too_many_requests"
    else if st =? 503 then lit "service_unavailable" else lit "error" in
  mkResponse st (Some (code, message)) [] None.

(** ** Requests *)
Inductive Method := GET | HEAD | OPTIONS | POST | PUT | DELETE | PATCH.

Inductive IpAddr := V4 (a b c d : Z) | V6 (segments : list Z).

#[export] Instance IpAddr_eq_dec : EqDecision IpAddr.
Proof. solve_decision. Defined.

(** [IpAddr::is_loopback]: 127.0.0.0/8 and ::1. *)
Definition is_loopback (ip : IpAddr) : bool :=
  match ip with
  | V4 a _ _ _ => a =? 127
  | V6 s => bool_decide (s = [0; 0; 0; 0; 0; 0; 0; 1])
  end.

(** [header name] is what [headers().get(name)] and [to_str] yield;
    [connect_info] and [auth_db] are the request extensions. *)
Record Request := mkRequest {
  method : Method; path : bytes; header : bytes → option bytes;
  connect_info : option IpAddr; auth_db : bool;
}.

Definition SEMI : Z := 59.
Definition COMMA : Z := 44.

(** [Iterator::find_map] *)
Fixpoint find_map {A B} (f : A → option B) (l : list A) : option B :=
  match l with
  | [] => None
  | x :: l => match f x with Some b => Some b | None => find_map f l end
  end.

(** The same expression in [require_auth] and [logout_handler]. *)
Definition extract_session_token (req : Request) : option bytes :=
  match header req (lit "cookie") with
  | Some cookies => find_map (λ c, strip_prefix (lit "session=") (trim c)) (split SEMI cookies)
  | None => None
  end.

Section client_ip.
Context (show_ip : IpAddr → bytes).

(** The first entry of [X-Forwarded-For], when there is one. *)
Definition forwarded_for (req : Request) : option bytes :=
  match header req (lit "x-forwarded-for") with
  | Some val =>
      match split COMMA val with
      | first :: _ => let ip := trim first in if bytes_eqb ip [] then None else Some ip
      | [] => None
      end
  | None => None
  end.

Definition real_ip (req : Request) : option bytes :=
  match header req (lit "x-real-ip") with
  | Some val => if bytes_eqb val [] then None else Some val
  | None => None
  end.

Definition client_ip (req : Request) : bytes :=
  let socket_ip := connect_info req in
  let socket_key := match socket_ip with Some ip => show_ip ip | None => lit "unknown" end in
  if match socket_ip with Some ip => is_loopback ip | None => false end then
    match forwarded_for req with
    | Some ip => ip
    | None => match real_ip req with Some val => val | None => socket_key end
    end
  else socket_key.

(** The [rate_limit] middleware: the new table, and the response when the
    request goes no further. *)
Definition rate_limit (max_requests window_secs now : Z) (req : Request) (t : Table)
    : Table * option Response :=
  let '(t, ok) := check_rate_limit t (client_ip req) max_requests window_secs now in
  (t, if negb ok then Some (error_response 429 (lit "rate limit exceeded")) else None).
End client_ip.

(** ** Middleware *)

(** [require_auth]: the user inserted into the request, or the response. *)
Definition require_auth (now : Z) (req : Request) : Db → (bytes + Response) * Db := λ d,
  if negb (auth_db req) then (inr (error_response 500 (lit "internal: database not configured")), d)
  else
    match extract_session_token req with
    | None => (inr (error_response 401 (lit "unauthorized")), d)
    | Some session_token =>
        match validate_session now session_token d with
        | (inl (Some uid), d) => (inl uid, d)
        | (inl None, d) => (inr (error_response 401 (lit "unauthorized")), d)
        | (inr _, d) => (inr (error_response 500 (lit "internal error")), d)
        end
    end.

Definition setup_exempt (path : bytes) : bool :=
  bytes_eqb path (lit "/health") || bytes_eqb path (lit "/api/health")
  || bytes_eqb path (lit "/metrics") || bytes_eqb path (lit "/api/auth/setup")
  || bytes_eqb path (lit "/") || starts_with (lit "/assets/") path
  || bytes_eqb path (lit "/style.css") || starts_with (lit "/js/") path.

(** [require_setup]: the response when the request goes no further. *)
Definition require_setup (req : Request) : Db → option Response * Db := λ d,
  if setup_exempt (path req) then (None, d)
  else if negb (auth_db req) then
    (Some (error_response 500 (lit "internal: database not configured")), d)
  else
    match is_first_run d with
    | (inl true, d) =>
        (Some (mkResponse 503 (Some (lit "setup_required", lit "Initial setup required")) [] None), d)
    | (inl false, d) => (None, d)
    | (inr _, d) => (Some (error_response 500 (lit "internal error")), d)
    end.

Definition is_state_changing (m : Method) : bool :=
  match m with POST | PUT | DELETE | PATCH => true | _ => false end.

Definition is_auth_endpoint (path : bytes) : bool :=
  bytes_eqb path (lit "/api/auth/login") || bytes_eqb path (lit "/api/auth/setup")
  || bytes_eqb path (lit "/api/auth/logout").

Definition CSRF : bytes := lit "csrf-token=".

Definition cookie_csrf (req : Request) : option bytes :=
  match header req (lit "cookie") with
  | Some s =>
      option_map (trim_start_matches CSRF)
        (List.find (starts_with CSRF) (List.map trim (split SEMI s)))
  | None => None
  end.

(** [csrf_middleware]: the response when the request goes no further. *)
Definition csrf_middleware (req : Request) : option Response :=
  let refused := Some (api_error BadRequest (lit "CSRF token missing or invalid")) in
  if is_state_changing (method req) && negb (is_auth_endpoint (path req)) then
    match cookie_csrf req with
    | Some expected =>
        match header req (lit "x-csrf-token") with
        | Some actual => if bytes_eqb actual expected then None else refused
        | None => refused
        end
    | None => refused
    end
  else None.

(** ** Lockout *)

(** [LOGIN_FAILURES]: username to failure count and last attempt, an
    [Instant] in nanoseconds. *)
Abbreviation Failures := (gmap bytes (Z * Z)).

Definition NANOS : Z := 1000000000.

(** [Instant::elapsed] in whole seconds. *)
Definition elapsed_secs (last now : Z) : Z := Z.max (now - last) 0 / NANOS.

Section lockout.
(** The least [Instant] of the platform. *)
Context (min_instant : Z).

(** [Instant::checked_sub] *)
Definition checked_sub (now d : Z) : option Z :=
  if now - d <? min_instant then None else Some (now - d).

Definition cleanup_old_entries (now : Z) (f : Failures) : Failures :=
  let cutoff := default now (checked_sub now (1800 * NANOS)) in
  filter (λ kv, cutoff < kv.2.2) f.

(** [60u64 * 2u64.pow(count - 5)] *)
Definition lockout_duration (count : Z) : Z := wrap64 (60 * wrap64 (2 ^ (count - 5))).

Definition check_lockout (username : bytes) (now : Z) (f : Failures) : option Z * Failures :=
  let f := cleanup_old_entries now f in
  (match f !! username with
   | Some (count, last_attempt) =>
       if 5 <=? count then
         let elapsed := elapsed_secs last_attempt now in
         let duration := lockout_duration count in
         if elapsed <? duration then Some (duration - elapsed) else None
       else None
   | None => None
   end, f).
End lockout.

Definition record_failure (username : bytes) (now : Z) (f : Failures) : Failures :=
  <[username := (wrap32 ((default (0, now) (f !! username)).1 + 1), now)]> f.

Definition reset_failures (username : bytes) (f : Failures) : Failures := delete username f.

(** ** Cookies *)
Definition secure_flag (secure : bool) : bytes := if secure then lit " Secure;" else [].
Definition session_cookie (token : bytes) (secure : bool) : bytes :=
  lit "session=" ++ token ++ lit "; HttpOnly;" ++ secure_flag secure
  ++ lit " SameSite=Strict; Path=/; Max-Age=86400".
Definition session_cookie_cleared (secure : bool) : bytes :=
  lit "session=; HttpOnly;" ++ secure_flag secure ++ lit " SameSite=Strict; Path=/; Max-Age=0".
Definition csrf_cookie (csrf_token : bytes) : bytes :=
  CSRF ++ csrf_token ++ lit "; SameSite=Strict; Path=/; Max-Age=86400".

(** [str::parse::<HeaderValue>]: visible ASCII always parses. *)
Class HeaderLib := header_value : bytes → option bytes.
Definition visible (l : bytes) : Prop := Forall (λ b, 32 ≤ b < 127) l.
Definition header_laws `{HeaderLib} : Prop := ∀ l, visible l → header_value l = Some l.

(** Both [Set-Cookie] headers on a successful response. *)
Definition signed_in `{HeaderLib} (session csrf_token : bytes) : Response :=
  match header_value session with
  | None => api_error InternalServerError (lit "internal error")
  | Some v =>
      match header_value (csrf_cookie csrf_token) with
      | None => api_error InternalServerError (lit "internal error")
      | Some w => mkResponse 200 None [v; w] (Some csrf_token)
      end
  end.

(** ** Handlers *)
Record Credentials := mkCredentials { username : bytes; password : bytes }.

Section handlers.
Context `{BcryptLib} `{HeaderLib} (min_instant : Z).

(** A login whose password is being checked off the lock: the name it is for
    after the default, the password sent, the hash read. *)
Record LoginJob := mkJob { job_user : bytes; job_password : bytes; job_hash : bytes }.

Definition login_name (body : Credentials) : bytes :=
  if bytes_eqb (trim (username body)) [] then lit "admin" else username body.

Definition locked_message (retry_in : Z) : bytes :=
  lit "account locked, try again in " ++ dec_of_Z retry_in ++ lit " seconds".

(** [login_handler] up to the first release of the lock. *)
Definition login_begin (body : Credentials) (now : Z) (d : Db) (f : Failures)
    : (LoginJob + Response) * Db * Failures :=
  let user := login_name body in
  let '(locked, f) := check_lockout min_instant user now f in
  match locked with
  | Some retry_in => (inr (api_error TooManyRequests (locked_message retry_in)), d, f)
  | None =>
      match get_user_password user d with
      | (inl (Some h), d) => (inl (mkJob user (password body) h), d, f)
      | (inl None, d) =>
          (inr (api_error Unauthorized (lit "invalid credentials")), d, record_failure user now f)
      | (inr _, d) => (inr (api_error InternalServerError (lit "internal error")), d, f)
      end
  end.

(** The verdict of the blocking task; [None] when it panicked. *)
Definition login_verify (job : LoginJob) (joined : bool) (now : Z) (f : Failures)
    : option Response * Failures :=
  let verified := if joined then Some (verify_password (job_password job) (job_hash job)) else None in
  match verified with
  | Some (inl true) => (None, reset_failures (job_user job) f)
  | Some (inl false) =>
      (Some (api_error Unauthorized (lit "invalid credentials")), record_failure (job_user job) now f)
  | Some (inr _) | None => (Some (api_error InternalServerError (lit "internal error")), f)
  end.

(** The rest: the lock is taken again for the session. *)
Definition login_create (user : bytes) (secure : option bool) (rand rand2 : bytes) (now : Z) (d : Db)
    : Response * Db :=
  match create_session rand now user d with
  | (inl token, d) =>
      (signed_in (session_cookie token (default true secure)) (generate_token rand2), d)
  | (inr _, d) => (api_error InternalServerError (lit "internal error"), d)
  end.

Definition logout_handler (secure : option bool) (req : Request) (d : Db) : Response * Db :=
  let d := match extract_session_token req with
           | Some token => (invalidate_session token d).2
           | None => d
           end in
  (match header_value (session_cookie_cleared (default true secure)) with
   | Some v => mkResponse 204 None [v] None
   | None => mkResponse 500 None [] None
   end, d).

(** The part of [setup_handler] that holds the lock: the new token. *)
Definition setup_locked (body : Credentials) (salt rand : bytes) (now : Z) : DbM Response bytes :=
  let internal {E} (_ : E) := api_error InternalServerError (lit "internal error") in
  map_err internal is_first_run ≫= λ first : bool,
  if negb first then fail (api_error BadRequest (lit "already configured"))
  else
    map_err internal init_users_table ≫= λ _,
    map_err internal (lift (hash_password salt (password body))) ≫= λ hash,
    map_err internal (insert_user (username body) hash) ≫= λ _,
    map_err internal (create_session rand now (username body)).

Definition setup_handler (body : Credentials) (secure : option bool) (salt rand rand2 : bytes)
    (now : Z) (d : Db) : Response * Db :=
  if bytes_eqb (trim (username body)) [] then
    (api_error BadRequest (lit "username cannot be empty"), d)
  else if zlen (password body) <? 8 then
    (api_error BadRequest (lit "password must be at least 8 characters"), d)
  else
    match setup_locked body salt rand now d with
    | (inl token, d) =>
        (signed_in (session_cookie token (default true secure)) (generate_token rand2), d)
    | (inr r, d) => (r, d)
    end.

Definition reset_password_handler (user salt old_password new_password : bytes) (d : Db)
    : Response * Db :=
  match reset_password salt user old_password new_password d with
  | (inl _, d) => (mkResponse 200 None [] None, d)
  | (inr WrongPassword, d) => (api_error Unauthorized (lit "Old password is incorrect"), d)
  | (inr (UserNotFound u), d) =>
      (api_error NotFound (lit "User '" ++ u ++ lit "' not found"), d)
  | (inr _, d) => (api_error InternalServerError (lit "internal error"), d)
  end.
End handlers.

(** ** The lockout *)
Lemma lockout_long n : 10 ≤ n < 67 → 1800 ≤ lockout_duration n.
Proof.
  intros Hn. apply Z.leb_le. revert n Hn.
  change (∀ n, 10 ≤ n < 10 + 57 → (λ n, 1800 <=? lockout_duration n) n = true).
  apply forall_range. vm_compute. reflexivity.
Qed.

Lemma lockout_overflow n : 67 ≤ n → lockout_duration n = 0.
Proof.
  intros Hn. unfold lockout_duration, wrap64. rewrite Zmult_mod_idemp_r.
  replace (n - 5) with (62 + (n - 67)) by lia. rewrite Z.pow_add_r by lia.
  replace (60 * (2 ^ 62 * 2 ^ (n - 67))) with (15 * 2 ^ (n - 67) * 2 ^ 64) by lia.
  apply Z.mod_mul. lia.
Qed.

(** What the table keeps. *)
Lemma cleanup_lookup min_instant now f user n last :
  f !! user = Some (n, last) →
  cleanup_old_entries min_instant now f !! user
  = if default now (checked_sub min_instant now (1800 * NANOS)) <? last then Some (n, last) else None.
Proof.
  intros Hf. unfold cleanup_old_entries. destruct (Z.ltb_spec (default now (checked_sub min_instant now (1800 * NANOS))) last).
  - by apply map_lookup_filter_Some.
  - apply map_lookup_filter_None. right. intros x Hx. rewrite Hf in Hx. injection Hx as <-. cbn. lia.
Qed.

(** The verdict on a user with [n] recorded failures, the last at [last]. *)
Lemma check_lockout_Some min_instant now f user n last :
  f !! user = Some (n, last) → last ≤ now → min_instant ≤ now - 1800 * NANOS →
  (check_lockout min_instant user now f).1
  = (let elapsed := (now - last) / NANOS in
     if (5 <=? n) && (now - last <? 1800 * NANOS) && (elapsed <? lockout_duration n)
     then Some (lockout_duration n - elapsed) else None).
Proof.
  intros Hf Hl Hm. unfold check_lockout. cbn [fst]. rewrite (cleanup_lookup _ _ _ _ _ _ Hf).
  unfold checked_sub. rewrite (proj2 (Z.ltb_ge (now - 1800 * NANOS) min_instant)) by lia. cbn [from_option]; unfold id.
  replace (now - 1800 * NANOS <? last) with (now - last <? 1800 * NANOS) by lia.
  destruct (Z.ltb_spec (now - last) (1800 * NANOS)); [|by rewrite andb_false_r].
  unfold elapsed_secs. rewrite Z.max_l by lia. rewrite andb_true_r. by destruct (5 <=? n).
Qed.

(** [k] failures in a row, none of them cleaned up. *)
Definition record_failures (user : bytes) (times : list Z) (f : Failures) : Failures :=
  fold_left (λ f now, record_failure user now f) times f.

Definition failure_count (user : bytes) (f : Failures) : Z := (default (0, 0) (f !! user)).1.

Lemma record_failure_lookup user now f :
  record_failure user now f !! user = Some (wrap32 (failure_count user f + 1), now).
Proof. unfold record_failure, failure_count. rewrite lookup_insert_eq. by destruct (f !! user). Qed.

Lemma record_failures_count user times f :
  0 ≤ failure_count user f → failure_count user f + zlen times < 2 ^ 32 →
  failure_count user (record_failures user times f) = failure_count user f + zlen times.
Proof.
  revert f. induction times as [|t times IH]; intros f H0 Hl; [unfold record_failures; cbn [fold_left]; rewrite zlen_nil; lia|].
  rewrite zlen_cons in *. pose proof (zlen_nonneg times).
  assert (failure_count user (record_failure user t f) = failure_count user f + 1) as E.
  { unfold failure_count at 1. rewrite record_failure_lookup. cbn. unfold wrap32.
    apply Z.mod_small. lia. }
  change (record_failures user (t :: times) f) with (record_failures user times (record_failure user t f)).
  rewrite IH; lia.
Qed.

Lemma record_failures_last user times last f :
  f !! user = None → zlen times + 1 < 2 ^ 32 →
  record_failures user (times ++ [last]) f !! user = Some (zlen times + 1, last).
Proof.
  intros Hf Hl. unfold record_failures. rewrite fold_left_app. cbn [fold_left].
  rewrite record_failure_lookup. pose proof (zlen_nonneg times).
  assert (failure_count user f = 0) as E by (unfold failure_count; by rewrite Hf).
  fold (record_failures user times f). rewrite record_failures_count by lia.
  rewrite E. unfold wrap32. rewrite Z.mod_small by lia. done.
Qed.

(** ** Rate limiting by client *)
Lemma client_ip_direct show_ip req ip :
  connect_info req = Some ip → is_loopback ip = false → client_ip show_ip req = show_ip ip.
Proof. intros Hc Hl. unfold client_ip. by rewrite Hc, Hl. Qed.

Lemma client_ip_unknown show_ip req :
  connect_info req = None → client_ip show_ip req = lit "unknown".
Proof. intros Hc. unfold client_ip. by rewrite Hc. Qed.

Section limited.
Context (show_ip : IpAddr → bytes) (max_requests window_secs : Z).

(** Of a sequence of requests [(req, now)] the middleware is applied to, how
    many in [[a, a + window_secs)] that [f] selects it lets through. *)
Fixpoint let_through (f : Request → bool) (a : Z) (t : Table) (reqs : list (Request * Z)) : Z :=
  match reqs with
  | [] => 0
  | (req, now) :: reqs =>
      let '(t, r) := rate_limit show_ip max_requests window_secs now req t in
      Z_of_bool (match r with None => true | Some _ => false end && f req && (a <=? now) && (now <? a + window_secs))
      + let_through f a t reqs
  end.

(** The clock does not go back. *)
Definition req_clock (reqs : list (Request * Z)) : Prop :=
  clock window_secs 0 (List.map (λ rn, (client_ip show_ip rn.1, rn.2)) reqs).

Lemma let_through_allowed f key a t reqs :
  (∀ req now, (req, now) ∈ reqs → f req = true → client_ip show_ip req = key) →
  let_through f a t reqs
  ≤ allowed max_requests window_secs key a t (List.map (λ rn, (client_ip show_ip rn.1, rn.2)) reqs).
Proof.
  revert t. induction reqs as [|[req now] reqs IH]; intros t Hf; [done|].
  cbn [let_through List.map allowed fst snd]. unfold rate_limit.
  destruct (check_rate_limit t _ _ _ _) as [t' ok].
  specialize (IH t'). assert (f req = true → client_ip show_ip req = key) as Hk
    by (apply Hf with now; apply elem_of_cons; auto).
  assert (let_through f a t' reqs ≤ allowed max_requests window_secs key a t'
    (List.map (λ rn, (client_ip show_ip rn.1, rn.2)) reqs)) as Hrest.
  { apply IH. intros r n Hr. apply Hf with n. apply elem_of_cons; auto. }
  destruct ok; cbn [negb]; [|cbn; lia]. destruct (f req); [|rewrite andb_false_r; cbn].
  - rewrite Hk, bool_decide_true by done. cbn [andb] in *. lia.
  - destruct (bool_decide _ && _ && _); cbn; lia.
Qed.

(** At most [2 * max_requests - 1] requests with the same key pass within
    one window. *)
Lemma let_through_bound f key a reqs :
  1 ≤ max_requests → 0 ≤ window_secs → req_clock reqs →
  (∀ req now, (req, now) ∈ reqs → f req = true → client_ip show_ip req = key) →
  let_through f a ∅ reqs ≤ 2 * max_requests - 1.
Proof.
  intros Hm Hw Hc Hf. etrans; [by apply let_through_allowed|].
  assert (table_ok max_requests 0 (∅ : Table)) as H0 by apply map_Forall_empty.
  etrans; [by apply (allowed_budget max_requests window_secs Hm Hw key a _ 0 ∅ H0)|].
  unfold budget. rewrite lookup_empty. destruct (_ <=? _); [lia|]. destruct (_ <? _); lia.
Qed.
End limited.

(** A request as the handlers see it.  The server is started with
    [app.into_make_service()], which adds no [ConnectInfo]: the peer is not
    part of the request. *)
Definition into_make_service (peer : IpAddr) (req : Request) : Request :=
  mkRequest (method req) (path req) (header req) None (auth_db req).

(** C10 What the request limit bounds.  Were the address of the peer attached
    to the requests, each peer that is not loopback would pass at most
    [2 * max_requests - 1] times within a window, whatever headers it sends.
    As the server is started no address is attached: every client has the key
    ["unknown"], and the same bound holds for all clients together, so that
    the requests of one client shut out everybody else.  Behind a proxy on
    the loopback interface the key is the first entry of [X-Forwarded-For],
    which a proxy that appends leaves to the client. *)
Theorem rate_limit_key show_ip max_requests window_secs a :
  1 ≤ max_requests → 0 ≤ window_secs →
  (∀ reqs ip, is_loopback ip = false → req_clock show_ip window_secs reqs →
     let_through show_ip max_requests window_secs (λ req, bool_decide (connect_info req = Some ip))
       a ∅ reqs ≤ 2 * max_requests - 1)
  ∧ (∀ sent : list (IpAddr * Request * Z),
       let reqs := List.map (λ x, (into_make_service x.1.1 x.1.2, x.2)) sent in
       req_clock show_ip window_secs reqs →
       let_through show_ip max_requests window_secs (λ _, true) a ∅ reqs ≤ 2 * max_requests - 1)
  ∧ (∀ req ip first rest, connect_info req = Some ip → is_loopback ip = true →
       header req (lit "x-forwarded-for") = Some (join COMMA (first :: rest)) →
       Forall (lacks COMMA) (first :: rest) → trimmed first = true → first ≠ [] →
       client_ip show_ip req = first).
Proof.
  intros Hm Hw. split_and!.
  - intros reqs ip Hl Hc. apply (let_through_bound _ _ _ _ (show_ip ip)); try done.
    intros req now _ Hf%bool_decide_eq_true. by apply client_ip_direct.
  - intros sent reqs Hc. apply (let_through_bound _ _ _ _ (lit "unknown")); try done.
    intros req now Hr _. apply client_ip_unknown. unfold reqs in Hr.
    apply list_elem_of_In, in_map_iff in Hr as ([[peer r] n] & [= <- <-] & _). done.
  - intros req ip first rest Hc Hl Hh Hlacks Htrim Hne. unfold client_ip, forwarded_for.
    rewrite Hc, Hl, Hh, split_join by done. rewrite trim_id by done.
    unfold bytes_eqb. by rewrite bool_decide_false.
Qed.

(** Two clients, three requests per minute allowed: the second is refused. *)
Lemma rate_limit_key_witness :
  let_through (λ ip, match ip with V4 _ _ _ d => [d] | V6 s => s end) 3 60 (λ _, true) 0 ∅
    (List.map (λ x : IpAddr * Request * Z, (into_make_service x.1.1 x.1.2, x.2))
      (let r := mkRequest POST (lit "/api/auth/login") (λ _, None) None true in
       [(V4 10 0 0 1, r, 0); (V4 10 0 0 1, r, 1); (V4 10 0 0 1, r, 2); (V4 10 0 0 2, r, 3)])) ≤ 5.
Proof.
  refine (proj1 (proj2 (rate_limit_key _ 3 60 0 _ _)) _ _); [lia | lia |].
  unfold req_clock. cbn. repeat split; lia.
Defined.
