(* ===== verification/AuthFlow.v ===== *)
(** * Sessions under interleaved requests

    The critical sections of [WebAuth] as the operations of one server, in any
    order and for any number of requests in flight, with any pattern of
    failing statements.  The trace of what the operations achieved, newest
    first, is the specification: [live] reads off it which token stands for
    whom. *)
From Stdlib Require Import ZArith Lia List Bool String.
From stdpp Require Import base option list numbers gmap.
From S2P Require Import Prelude Text RateLimit Sessions WebAuth.

(** ** The specification *)

(** [origin] is the login a session was issued to, [None] for the setup. *)
Inductive Event :=
  | Issued (origin : option LoginJob) (user token : bytes) (t : Z)
  | LoggedOut (token : bytes)
  | ResetDone (user : bytes)
  | Cleaned (now : Z).

(** Whom a token stands for, and since when. *)
Fixpoint live (tr : list Event) (token : bytes) : option (bytes * Z) :=
  match tr with
  | [] => None
  | Issued _ user token' t :: tr => if decide (token' = token) then Some (user, t) else live tr token
  | LoggedOut token' :: tr => if decide (token' = token) then None else live tr token
  | ResetDone user :: tr =>
      match live tr token with
      | Some (user', t) => if decide (user' = user) then None else Some (user', t)
      | None => None
      end
  | Cleaned _ :: tr => live tr token
  end.

(** The row of a session. *)
Definition row (user : bytes) (t : Z) : Session :=
  mkSession user (dec_of_Z t) (dec_of_Z (wrap64 (t + SESSION_TTL_SECS))).

(** What an event does to the table. *)
Definition apply_event (ev : Event) (m : gmap bytes Session) : gmap bytes Session :=
  match ev with
  | Issued _ user token t => <[token := row user t]> m
  | LoggedOut token => delete token m
  | ResetDone user => filter (λ kv, user_id kv.2 ≠ user) m
  | Cleaned now => filter (λ kv, expired now kv.2 = false) m
  end.

(** ** The server *)

(** Where a request in flight stands when it does not hold the lock. *)
Inductive Pending :=
  | Verifying (job : LoginJob) (secure : option bool)
  | Creating (job : LoginJob) (secure : option bool)
  | Authed (user : bytes).

Record World := mkWorld { db : Db; failures : Failures; pending : gmap nat Pending }.

Inductive Op :=
  | OpSetup (body : Credentials) (secure : option bool) (salt rand rand2 : bytes) (now : Z)
  | OpLoginBegin (id : nat) (body : Credentials) (secure : option bool) (instant : Z)
  | OpLoginVerify (id : nat) (joined : bool) (instant : Z)
  | OpLoginCreate (id : nat) (rand rand2 : bytes) (now : Z)
  | OpLogout (req : Request) (secure : option bool)
  | OpAuth (id : nat) (req : Request) (now : Z)
  | OpReset (id : nat) (salt old_password new_password : bytes)
  | OpCleanup (now : Z)
  | OpRestart.

Section flow.
Context {bcrypt : BcryptLib} {http : HeaderLib} (min_instant : Z).

Definition succeeded (r : Response) : bool := status r =? 200.

(** One critical section: the world after it, the response when the request
    is answered, and what was achieved. *)
Definition step (w : World) (op : Op) : World * option Response * list Event :=
  match op with
  | OpSetup body secure salt rand rand2 now =>
      let '(r, d) := setup_handler body secure salt rand rand2 now (db w) in
      (mkWorld d (failures w) (pending w), Some r,
       if succeeded r then [Issued None (username body) (generate_token rand) now] else [])
  | OpLoginBegin id body secure instant =>
      match pending w !! id with
      | Some _ => (w, None, [])
      | None =>
          let '(res, d, f) := login_begin min_instant body instant (db w) (failures w) in
          match res with
          | inl job => (mkWorld d f (<[id := Verifying job secure]> (pending w)), None, [])
          | inr r => (mkWorld d f (pending w), Some r, [])
          end
      end
  | OpLoginVerify id joined instant =>
      match pending w !! id with
      | Some (Verifying job secure) =>
          let '(res, f) := login_verify job joined instant (failures w) in
          match res with
          | None => (mkWorld (db w) f (<[id := Creating job secure]> (pending w)), None, [])
          | Some r => (mkWorld (db w) f (delete id (pending w)), Some r, [])
          end
      | _ => (w, None, [])
      end
  | OpLoginCreate id rand rand2 now =>
      match pending w !! id with
      | Some (Creating job secure) =>
          let '(r, d) := login_create (job_user job) secure rand rand2 now (db w) in
          (mkWorld d (failures w) (delete id (pending w)), Some r,
           if succeeded r then [Issued (Some job) (job_user job) (generate_token rand) now] else [])
      | _ => (w, None, [])
      end
  | OpLogout req secure =>
      let '(r, d) := logout_handler secure req (db w) in
      (mkWorld d (failures w) (pending w), Some r,
       match extract_session_token req with
       | Some token =>
           match (invalidate_session token (db w)).1 with inl _ => [LoggedOut token] | inr _ => [] end
       | None => []
       end)
  | OpAuth id req now =>
      match pending w !! id with
      | Some _ => (w, None, [])
      | None =>
          match require_auth now req (db w) with
          | (inl user, d) => (mkWorld d (failures w) (<[id := Authed user]> (pending w)), None, [])
          | (inr r, d) => (mkWorld d (failures w) (pending w), Some r, [])
          end
      end
  | OpReset id salt old_password new_password =>
      match pending w !! id with
      | Some (Authed user) =>
          let '(r, d) := reset_password_handler user salt old_password new_password (db w) in
          (mkWorld d (failures w) (delete id (pending w)), Some r,
           if succeeded r then [ResetDone user] else [])
      | _ => (w, None, [])
      end
  | OpCleanup now =>
      match cleanup_expired_sessions now (db w) with
      | (inl _, d) => (mkWorld d (failures w) (pending w), None, [Cleaned now])
      | (inr _, d) => (mkWorld d (failures w) (pending w), None, [])
      end
  | OpRestart => (mkWorld (db w) ∅ ∅, None, [])
  end.

Definition exec (s : World * list Event) (op : Op) : World * list Event :=
  let '(w, _, ev) := step s.1 op in (w, ev ++ s.2).

(** An empty database, before or after its migration. *)
Definition start (migrated : bool) (oracle : list bool) : World :=
  mkWorld (mkDb migrated ∅ ∅ oracle) ∅ ∅.

Definition run (migrated : bool) (oracle : list bool) (ops : list Op) : World * list Event :=
  fold_left exec ops (start migrated oracle, []).

(** The clock of the operations that create sessions, after 1970. *)
Definition clocked (op : Op) : Prop :=
  match op with
  | OpSetup _ _ _ _ _ now | OpLoginCreate _ _ _ now => 0 ≤ now
  | _ => True
  end.

(** ** Responses *)
Context (laws : header_laws).

Lemma visible_app a b : visible (a ++ b) ↔ visible a ∧ visible b.
Proof. apply Forall_app. Qed.

Lemma visible_token rand : visible (generate_token rand).
Proof.
  unfold generate_token. induction rand as [|b rand IH]; [constructor|].
  rewrite bind_cons. apply visible_app. split; [|exact IH].
  eapply Forall_impl; [apply hex_digits_digits|]. intros x. cbn. unfold is_digit16.
  rewrite orb_true_iff, !andb_true_iff, !Z.leb_le. lia.
Qed.

Lemma visible_dec (l : bytes) : forallb (λ b, (32 <=? b) && (b <? 127)) l = true → visible l.
Proof.
  intros Hl. apply Forall_forall. intros b Hb. rewrite forallb_forall in Hl.
  apply list_elem_of_In, Hl in Hb. apply andb_true_iff in Hb as [? ?]. lia.
Qed.

Lemma visible_session_cookie token secure : visible token → visible (session_cookie token secure).
Proof.
  intros Ht. unfold session_cookie. rewrite !visible_app.
  split_and!; [by apply visible_dec | done | by apply visible_dec | | by apply visible_dec].
  destruct secure; by apply visible_dec.
Qed.

Lemma visible_csrf_cookie token : visible token → visible (csrf_cookie token).
Proof.
  intros Ht. unfold csrf_cookie, CSRF. rewrite !visible_app.
  split_and!; [by apply visible_dec | done | by apply visible_dec].
Qed.

Lemma signed_in_ok rand secure rand2 :
  signed_in (session_cookie (generate_token rand) secure) (generate_token rand2)
  = mkResponse 200 None [session_cookie (generate_token rand) secure; csrf_cookie (generate_token rand2)]
      (Some (generate_token rand2)).
Proof using laws.
  unfold signed_in.
  by rewrite !laws by (apply visible_session_cookie, visible_token || apply visible_csrf_cookie, visible_token).
Qed.

(** ** What a step does to the sessions *)

(** The critical section of the setup: it is refused, or fails on the way
    after the tables or the user have been created, or succeeds. *)
Lemma setup_cases body secure salt rand rand2 now d :
  let '(r, d') := setup_handler body secure salt rand rand2 now d in
  (tables d = true → tables d' = true)
  ∧ if succeeded r then
      tables d' = true ∧ sessions d !! generate_token rand = None ∧ 8 ≤ zlen (password body)
      ∧ (tables d = false ∨ users d = ∅)
      ∧ sessions d' = <[generate_token rand := row (username body) now]> (sessions d)
      ∧ (∃ h, bcrypt_hash salt (password body) = Some h
           ∧ users d !! username body = None
           ∧ users d' = <[username body := h]> (users d))
      ∧ r = mkResponse 200 None
              [session_cookie (generate_token rand) (default true secure); csrf_cookie (generate_token rand2)]
              (Some (generate_token rand2))
    else sessions d' = sessions d
      ∧ (users d' = users d
         ∨ (tables d = false ∨ users d = ∅) ∧ tables d' = true
           ∧ ∃ h, users d' = <[username body := h]> (users d)).
Proof using laws.
  unfold setup_handler. destruct (bytes_eqb _ _); [by cbn; auto|].
  destruct (Z.ltb_spec (zlen (password body)) 8) as [|Hlen]; [by cbn; auto|].
  unfold setup_locked, mbind, DbM_bind, map_err, lift, fail, hash_password.
  destruct (is_first_run_cases d) as [(e & d1 & -> & HT1 & HU1 & HS1)|(b & d1 & -> & (HT1 & HU1 & HS1) & Hb)].
  { cbn. split_and!; [congruence..| by left]. }
  destruct b; cbn [negb]; [|cbn; split_and!; [congruence..| by left]].
  assert (tables d = false ∨ users d = ∅) as Hfirst.
  { destruct (tables d); [|by left]. right. cbn in Hb. symmetry in Hb.
    apply Z.eqb_eq in Hb. apply map_size_empty_inv. lia. }
  destruct (init_users_table_cases d1) as [(e & d2 & -> & HT2 & HU2 & HS2)|(d2 & -> & HT2 & HU2 & HS2)].
  { cbn. split_and!; [congruence..| left; congruence]. }
  destruct (bcrypt_hash salt _) as [h|] eqn:EH; [|cbn; split_and!; [congruence..| left; congruence]].
  destruct (insert_user_cases (username body) h d2)
    as [(e & d3 & -> & HT3 & HU3 & HS3)|(d3 & -> & HT3 & _ & HN3 & HU3 & HS3)].
  { cbn. split_and!; [congruence..| left; congruence]. }
  destruct (create_session_cases rand now (username body) d3)
    as [(e & d4 & -> & HT4 & HU4 & HS4)|(d4 & -> & HT4 & _ & HU4 & HN4 & HS4)].
  - cbn. split_and!; [congruence..|]. right. split_and!; [done | congruence |]. exists h. congruence.
  - rewrite signed_in_ok. cbn. split_and!; try congruence.
    + rewrite HS4. unfold row. congruence.
    + exists h. split_and!; congruence.
Qed.

Lemma login_create_cases user secure rand rand2 now d :
  let '(r, d') := login_create user secure rand rand2 now d in
  tables d' = tables d ∧ users d' = users d
  ∧ if succeeded r then
      tables d = true ∧ sessions d !! generate_token rand = None
      ∧ sessions d' = <[generate_token rand := row user now]> (sessions d)
      ∧ r = mkResponse 200 None
              [session_cookie (generate_token rand) (default true secure); csrf_cookie (generate_token rand2)]
              (Some (generate_token rand2))
    else sessions d' = sessions d.
Proof using laws.
  unfold login_create. destruct (create_session_cases rand now user d)
    as [(e & d4 & -> & HT4 & HU4 & HS4)|(d4 & -> & HT4 & ? & HU4 & HN4 & HS4)].
  - by cbn.
  - rewrite signed_in_ok. cbn. by split_and!.
Qed.

Lemma require_auth_same now req d : same d (require_auth now req d).2.
Proof.
  unfold require_auth. destruct (negb _); [done|]. destruct (extract_session_token req) as [token|]; [|done].
  pose proof (validate_session_same now token d). destruct (validate_session now token d) as [[[]|] ?]; done.
Qed.

Lemma login_begin_same body instant d f :
  same d (login_begin min_instant body instant d f).1.2.
Proof.
  unfold login_begin. destruct (check_lockout _ _ _ _) as [[] f']; [done|].
  by destruct (get_user_password_cases (login_name body) d) as [(e & d1 & -> & ?)|(d1 & -> & ?)];
    [|destruct (users d !! _)].
Qed.

(** What is left of a case of [step_sessions]. *)
Local Ltac effect :=
  cbn in *; destruct_and?; split_and!;
  [congruence | intros [?|?]; first [congruence | auto] | repeat constructor; try done].

(** The sessions after a step are those before with its events applied; an
    event needs the tables, and a session is only issued to a fresh token. *)
Lemma step_sessions w op :
  let '(w', _, ev) := step w op in
  sessions (db w') = foldr apply_event (sessions (db w)) ev
  ∧ (tables (db w) = true ∨ ev ≠ [] → tables (db w') = true)
  ∧ Forall (λ e, match e with
                 | Issued _ _ token _ => sessions (db w) !! token = None
                 | _ => True
                 end) ev.
Proof using laws.
  destruct op as [body secure salt rand rand2 now|id body secure instant|id joined instant
    |id rand rand2 now|req secure|id req now|id salt old new|now|]; cbn [step].
  - pose proof (setup_cases body secure salt rand rand2 now (db w)) as H1.
    destruct (setup_handler _ _ _ _ _ _ _) as [r d]. cbn [db]. destruct H1 as [HT H1].
    destruct (succeeded r); cbn [foldr apply_event]; [|effect].
    destruct H1 as (? & ? & _ & _ & ? & _). effect.
  - destruct (pending w !! id); [effect|].
    pose proof (login_begin_same body instant (db w) (failures w)) as (H1 & H2 & H3).
    destruct (login_begin _ _ _ _ _) as [[[job|r] d] f]; cbn in *; effect.
  - destruct (pending w !! id) as [[]|]; try effect.
    destruct (login_verify _ _ _ _) as [[r|] f]; cbn; effect.
  - destruct (pending w !! id) as [[]|]; try effect.
    pose proof (login_create_cases (job_user job) secure rand rand2 now (db w)) as H1.
    destruct (login_create _ _ _ _ _ _) as [r d]. cbn [db]. destruct H1 as (HT & _ & H1).
    destruct (succeeded r); cbn [foldr apply_event]; [|effect].
    destruct H1 as (? & ? & ? & _). effect.
  - unfold logout_handler. destruct (extract_session_token req) as [token|]; [|effect].
    destruct (invalidate_session_cases token (db w))
      as [(e & d & -> & ? & ? & ?)|(d & -> & ? & ? & ? & ?)]; cbn; effect.
  - destruct (pending w !! id); [effect|].
    pose proof (require_auth_same now req (db w)) as (H1 & H2 & H3).
    destruct (require_auth _ _ _) as [[user|r] d]; cbn in *; effect.
  - destruct (pending w !! id) as [[]|]; try effect.
    pose proof (reset_password_cases salt user old new (db w)) as H1.
    unfold reset_password_handler. destruct (reset_password _ _ _ _ _) as [[[]|e] d]; cbn [db].
    + destruct H1 as (HT & ? & h & h' & ? & ? & ? & ? & ?). cbn. effect.
    + destruct H1 as (HT & HS & _). destruct e; cbn; effect.
  - destruct (cleanup_cases now (db w)) as [(e & d & -> & ? & ? & ?)|(n & d & -> & ? & ? & ? & ?)];
      cbn; effect.
  - effect.
Qed.

(** ** Runs *)
Lemma run_snoc migrated oracle ops op :
  run migrated oracle (ops ++ [op]) = exec (run migrated oracle ops) op.
Proof. unfold run. by rewrite fold_left_app. Qed.

(** The table is what the trace makes of the empty one. *)
Lemma run_sessions migrated oracle ops :
  let '(w, tr) := run migrated oracle ops in
  sessions (db w) = foldr apply_event ∅ tr ∧ (tr ≠ [] → tables (db w) = true).
Proof using laws.
  induction ops as [|op ops IH] using rev_ind; [done|]. rewrite run_snoc.
  destruct (run migrated oracle ops) as [w tr]. unfold exec. cbn [fst snd].
  pose proof (step_sessions w op) as H1. destruct (step w op) as [[w' r] ev].
  destruct IH as [HS HT], H1 as (HS' & HT' & _). split.
  - by rewrite foldr_app, <-HS.
  - intros Hne. apply HT'. destruct ev; [left; by apply HT | by right].
Qed.

Definition event_clocked (e : Event) : Prop :=
  match e with Issued _ _ _ t => 0 ≤ t | _ => True end.

Lemma run_clocked migrated oracle ops :
  Forall clocked ops → Forall event_clocked (run migrated oracle ops).2.
Proof.
  induction ops as [|op ops IH] using rev_ind; [constructor|].
  rewrite Forall_app, Forall_singleton, run_snoc. intros [Hops Hop]. specialize (IH Hops).
  destruct (run migrated oracle ops) as [w tr]. unfold exec. cbn [fst snd] in *.
  destruct (step w op) as [[w' r] ev] eqn:E. apply Forall_app. split; [|done].
  destruct op; cbn in E; repeat case_match; simplify_eq/=; repeat constructor; done.
Qed.

(** ** Users *)

(** No user changes, and no setup is reported. *)
Local Ltac unchanged :=
  cbn in *; split;
  [left; congruence | intros ???; rewrite ?elem_of_cons, ?elem_of_nil; intuition congruence].

(** A step leaves the users alone, creates the first one, or replaces the
    password of one. *)
Lemma step_users w op :
  let '(w', _, ev) := step w op in
  let created := (tables (db w) = false ∨ users (db w) = ∅) ∧ tables (db w') = true
                 ∧ ∃ user h, users (db w') = <[user := h]> (users (db w)) in
  (users (db w') = users (db w)
   ∨ created
   ∨ ∃ user h h', users (db w) !! user = Some h ∧ users (db w') = <[user := h']> (users (db w)))
  ∧ (∀ user token t, Issued None user token t ∈ ev → created).
Proof using laws.
  destruct op as [body secure salt rand rand2 now|id body secure instant|id joined instant
    |id rand rand2 now|req secure|id req now|id salt old new|now|]; cbn [step].
  - pose proof (setup_cases body secure salt rand rand2 now (db w)) as H1.
    destruct (setup_handler _ _ _ _ _ _ _) as [r d]. cbn [db]. destruct H1 as [HT H1].
    destruct (succeeded r).
    + destruct H1 as (? & ? & _ & ? & ? & (h & _ & _ & HU) & _).
      split; [right; left | intros _ _ _ _]; (split_and!; [done | done | eauto]).
    + split; [|by intros ??? ?%elem_of_nil]. destruct H1 as [_ [?|(? & ? & h & ?)]]; [by left|].
      right; left. split_and!; eauto.
  - destruct (pending w !! id); [unchanged|].
    pose proof (login_begin_same body instant (db w) (failures w)) as (H1 & H2 & H3).
    destruct (login_begin _ _ _ _ _) as [[[job|r] d] f]; unchanged.
  - destruct (pending w !! id) as [[]|]; try unchanged.
    destruct (login_verify _ _ _ _) as [[r|] f]; unchanged.
  - destruct (pending w !! id) as [[]|]; try unchanged.
    pose proof (login_create_cases (job_user job) secure rand rand2 now (db w)) as H1.
    destruct (login_create _ _ _ _ _ _) as [r d]. destruct H1 as (_ & HU & _). cbn [db].
    destruct (succeeded r); unchanged.
  - unfold logout_handler. destruct (extract_session_token req) as [token|]; [|unchanged].
    destruct (invalidate_session_cases token (db w))
      as [(e & d & -> & ? & ? & ?)|(d & -> & ? & ? & ? & ?)]; unchanged.
  - destruct (pending w !! id); [unchanged|].
    pose proof (require_auth_same now req (db w)) as (H1 & H2 & H3).
    destruct (require_auth _ _ _) as [[user|r] d]; unchanged.
  - destruct (pending w !! id) as [[]|]; try unchanged.
    pose proof (reset_password_cases salt user old new (db w)) as H1.
    unfold reset_password_handler. destruct (reset_password _ _ _ _ _) as [[[]|e] d].
    + destruct H1 as (_ & _ & h & h' & ? & _ & _ & ? & _). cbn. split; [|by intros ??? [?|?%elem_of_nil]%elem_of_cons].
      right; right. eauto.
    + assert (users d = users (db w) ∨ ∃ user h h', users (db w) !! user = Some h
        ∧ users d = <[user := h']> (users (db w))) as HU.
      { destruct H1 as (_ & _ & [?|(h & h' & ? & _ & _ & ? & _)]); eauto 6. }
      destruct e; cbn; (split; [tauto | by intros ??? ?%elem_of_nil]).
  - destruct (cleanup_cases now (db w)) as [(e & d & -> & ? & ? & ?)|(n & d & -> & ? & ? & ? & ?)];
      unchanged.
  - unchanged.
Qed.

Definition is_setup (e : Event) : bool :=
  match e with Issued None _ _ _ => true | _ => false end.

Lemma step_setups w op :
  let '(_, _, ev) := step w op in
  (length (List.filter is_setup ev) ≤ 1)%nat
  ∧ (List.filter is_setup ev ≠ [] → ∃ user token t, Issued None user token t ∈ ev).
Proof.
  assert (∀ ev : list Event, (length ev ≤ 1)%nat → (length (List.filter is_setup ev) ≤ 1)%nat
    ∧ (List.filter is_setup ev ≠ [] → ∃ user token t, Issued None user token t ∈ ev)) as Hone.
  { intros [|[[]| | |] [|]] Hl; cbn in *; try lia; (split; [lia|]); try done.
    intros _. eexists _, _, _. apply elem_of_cons; auto. }
  destruct (step w op) as [[w' r] ev] eqn:E. apply Hone.
  destruct op; cbn in E; repeat case_match; simplify_eq/=; lia.
Qed.

(** At most one user, created at most once. *)
Lemma run_users migrated oracle ops :
  let '(w, tr) := run migrated oracle ops in
  (tables (db w) = false → users (db w) = ∅)
  ∧ (size (users (db w)) ≤ 1)%nat
  ∧ (length (List.filter is_setup tr) ≤ (if decide (users (db w) = ∅) then 0 else 1))%nat.
Proof using laws.
  induction ops as [|op ops IH] using rev_ind.
  { cbn [run fold_left start db users]. rewrite map_size_empty. split_and!; [done | lia | cbn; lia]. }
  rewrite run_snoc. destruct (run migrated oracle ops) as [w tr]. unfold exec. cbn [fst snd].
  pose proof (step_users w op) as HU. pose proof (step_setups w op) as Hl.
  pose proof (step_sessions w op) as HT.
  destruct (step w op) as [[w' r] ev].
  destruct IH as (IT & IS & IC), HU as [HU HC], Hl as [Hl Hin], HT as (_ & HT & _).
  rewrite List.filter_app, length_app.
  assert (List.filter is_setup ev = [] ∨ users (db w) = ∅ ∧ users (db w') ≠ ∅) as Hev.
  { destruct (List.filter is_setup ev) eqn:E; [by left|right].
    destruct Hin as (u & k & t & Hi); [done|]. destruct (HC _ _ _ Hi) as ([?|?] & _ & u' & h & ->);
      (split; [auto | apply insert_non_empty]). }
  assert (∀ u h, users (db w) !! u = Some h → users (db w) ≠ ∅) as Hne
    by (intros u h E H'; by rewrite H', lookup_empty in E).
  destruct HU as [HU|[(Hf & Ht & u & h & HU)|(u & h & h' & HL & HU)]].
  - rewrite HU. split_and!; [|done|].
    + intros Hf. apply IT. destruct (tables (db w)); [|done]. rewrite HT in Hf; auto.
    + destruct Hev as [->|[? ?]]; [done | congruence].
  - assert (users (db w) = ∅) as E by (destruct Hf; auto). rewrite HU, E in *.
    rewrite decide_True in IC by done. split_and!; [congruence | rewrite insert_empty, map_size_singleton; lia |].
    rewrite decide_False by apply insert_non_empty. lia.
  - pose proof (Hne _ _ HL) as Hw. rewrite decide_False in IC by done. rewrite HU.
    rewrite decide_False by apply insert_non_empty. split_and!.
    + intros Hf. exfalso. apply Hw, IT. destruct (tables (db w)); [|done]. rewrite HT in Hf; auto.
    + by rewrite map_size_insert_Some by eauto.
    + destruct Hev as [->|[? ?]]; [cbn; lia | done].
Qed.

(** ** Where sessions come from *)

(** [job] is that of a login begun in [ops], when the account was not locked
    and the hash was the user's. *)
Definition begun (migrated : bool) (oracle : list bool) (ops : list Op) (job : LoginJob) : Prop :=
  ∃ before id body secure instant after,
    ops = before ++ OpLoginBegin id body secure instant :: after
    ∧ job_user job = login_name body ∧ job_password job = password body
    ∧ let w := (run migrated oracle before).1 in
      users (db w) !! job_user job = Some (job_hash job)
      ∧ (check_lockout min_instant (login_name body) instant (failures w)).1 = None.

Definition verified (job : LoginJob) : Prop :=
  bcrypt_verify (job_password job) (job_hash job) = Some true.

Lemma begun_snoc migrated oracle ops op job :
  begun migrated oracle ops job → begun migrated oracle (ops ++ [op]) job.
Proof.
  intros (before & id & body & secure & instant & after & -> & ?).
  exists before, id, body, secure, instant, (after ++ [op]). by rewrite <-app_assoc.
Qed.

Lemma login_begin_job body instant d f job d' f' :
  login_begin min_instant body instant d f = (inl job, d', f') →
  job_user job = login_name body ∧ job_password job = password body
  ∧ users d !! job_user job = Some (job_hash job)
  ∧ (check_lockout min_instant (login_name body) instant f).1 = None.
Proof.
  unfold login_begin. destruct (check_lockout _ _ _ _) as [[] f1]; [done|].
  destruct (get_user_password_cases (login_name body) d) as [(e & d1 & -> & _)|(d1 & -> & _)]; [done|].
  destruct (users d !! login_name body) eqn:E; [|done]. by intros [= <- <- <-].
Qed.

Lemma login_verify_job job joined instant f f' :
  login_verify job joined instant f = (None, f') → verified job ∧ f' = reset_failures (job_user job) f.
Proof.
  unfold login_verify, verify_password, verified. destruct joined; [|done].
  destruct (bcrypt_verify _ _) as [[]|]; try done. by intros [= <-].
Qed.

(** What a request in flight knows. *)
Definition pending_ok (migrated : bool) (oracle : list bool) (ops : list Op) (p : Pending) : Prop :=
  match p with
  | Verifying job _ => begun migrated oracle ops job
  | Creating job _ => begun migrated oracle ops job ∧ verified job
  | Authed _ => True
  end.

Definition event_ok (migrated : bool) (oracle : list bool) (ops : list Op) (e : Event) : Prop :=
  match e with
  | Issued (Some job) user _ _ => user = job_user job ∧ begun migrated oracle ops job ∧ verified job
  | _ => True
  end.

Lemma run_origins migrated oracle ops :
  let '(w, tr) := run migrated oracle ops in
  map_Forall (λ _, pending_ok migrated oracle ops) (pending w)
  ∧ Forall (event_ok migrated oracle ops) tr.
Proof.
  induction ops as [|op ops IH] using rev_ind; [by split|].
  rewrite run_snoc. destruct (run migrated oracle ops) as [w tr] eqn:R. unfold exec. cbn [fst snd].
  destruct (step w op) as [[w' r] ev] eqn:E. destruct IH as [IP IE].
  assert (map_Forall (λ _, pending_ok migrated oracle (ops ++ [op])) (pending w)) as IP'.
  { intros i [] Hi; [apply begun_snoc, (IP i _ Hi) | | done].
    destruct (IP i _ Hi). split; [by apply begun_snoc | done]. }
  assert (Forall (event_ok migrated oracle (ops ++ [op])) tr) as IE'.
  { eapply Forall_impl; [exact IE|]. intros [[]| | |]; try done. intros (? & ? & ?).
    split_and!; [done | by apply begun_snoc | done]. }
  rewrite Forall_app.
  destruct op as [body secure salt rand rand2 now|id body secure instant|id joined instant
    |id rand rand2 now|req secure|id req now|id salt old new|now|]; cbn [step] in E.
  - destruct (setup_handler _ _ _ _ _ _ _) as [r' d]. injection E as <- <- <-.
    split_and!; [done | by destruct (succeeded r'); repeat constructor | done].
  - destruct (pending w !! id) eqn:Ep; [by injection E as <- <- <-|].
    destruct (login_begin _ _ _ _ _) as [[[job|r'] d] f] eqn:B; injection E as <- <- <-; cbn; [|done].
    split_and!; [|done|done]. apply map_Forall_insert_2; [|done]. cbn.
    apply login_begin_job in B as (? & ? & ? & ?). exists ops, id, body, secure, instant, [].
    rewrite R. by split_and!.
  - destruct (pending w !! id) as [[job secure| |]|] eqn:Ep; try (by injection E as <- <- <-).
    destruct (login_verify _ _ _ _) as [[r'|] f] eqn:V; injection E as <- <- <-; cbn.
    + split_and!; [by apply map_Forall_delete | done..].
    + split_and!; [|done|done]. apply map_Forall_insert_2; [|done]. cbn.
      split; [exact (IP' id _ Ep) | by apply login_verify_job in V as [? _]].
  - destruct (pending w !! id) as [[|job secure|]|] eqn:Ep; try (by injection E as <- <- <-).
    destruct (login_create _ _ _ _ _ _) as [r' d]. injection E as <- <- <-; cbn.
    split_and!; [by apply map_Forall_delete | | done].
    destruct (succeeded r'); repeat constructor; apply (IP' id _ Ep).
  - destruct (logout_handler _ _ _) as [r' d]. injection E as <- <- <-; cbn.
    split_and!; [done | repeat case_match; repeat constructor | done].
  - destruct (pending w !! id) eqn:Ep; [by injection E as <- <- <-|].
    destruct (require_auth _ _ _) as [[user|r'] d]; injection E as <- <- <-; cbn; [|done].
    split_and!; [by apply map_Forall_insert_2 | done..].
  - destruct (pending w !! id) as [[| |user]|] eqn:Ep; try (by injection E as <- <- <-).
    destruct (reset_password_handler _ _ _ _ _) as [r' d]. injection E as <- <- <-; cbn.
    split_and!; [by apply map_Forall_delete | destruct (succeeded r'); repeat constructor | done].
  - destruct (cleanup_expired_sessions _ _) as [[n|e] d]; injection E as <- <- <-; cbn;
      (split_and!; [done | repeat constructor | done]).
  - injection E as <- <- <-. cbn. split_and!; [apply map_Forall_empty | done..].
Qed.
End flow.

(** ** The specification and the table *)
Lemma live_issued tr token user t :
  live tr token = Some (user, t) → ∃ origin, Issued origin user token t ∈ tr.
Proof.
  induction tr as [|[o u k t'|k|u|c] tr IH]; cbn; intros H; [done|..].
  - destruct (decide (k = token)) as [->|]; simplify_eq.
    + exists o. apply elem_of_cons; auto.
    + destruct (IH H) as [o' ?]. exists o'. apply elem_of_cons; auto.
  - destruct (decide (k = token)); [done|]. destruct (IH H) as [o' ?]. exists o'. apply elem_of_cons; auto.
  - destruct (live tr token) as [[u' t']|]; [|done]. destruct (decide (u' = u)); simplify_eq.
    destruct (IH eq_refl) as [o' ?]. exists o'. apply elem_of_cons; auto.
  - destruct (IH H) as [o' ?]. exists o'. apply elem_of_cons; auto.
Qed.

Lemma table_live tr token s :
  foldr apply_event ∅ tr !! token = Some s → ∃ user t, live tr token = Some (user, t) ∧ s = row user t.
Proof.
  revert s. induction tr as [|[o u k t|k|u|c] tr IH]; intros s; cbn [foldr apply_event live].
  - by rewrite lookup_empty.
  - rewrite lookup_insert_Some. intros [[-> <-]|[Hne H]].
    + rewrite decide_True by done. eauto.
    + rewrite decide_False by done. by apply IH.
  - rewrite lookup_delete_Some. intros [Hne H]. rewrite decide_False by done. by apply IH.
  - rewrite map_lookup_filter_Some. intros [H Hne]. destruct (IH s H) as (u' & t & -> & ->).
    cbn in Hne. rewrite decide_False by done. eauto.
  - rewrite map_lookup_filter_Some. intros [H _]. by apply IH.
Qed.

Lemma live_table tr token user t :
  live tr token = Some (user, t) →
  foldr apply_event ∅ tr !! token = Some (row user t)
  ∨ ∃ c, Cleaned c ∈ tr ∧ expired c (row user t) = true.
Proof.
  induction tr as [|[o u k t'|k|u|c] tr IH]; cbn [foldr apply_event live]; intros H; [done|..].
  - destruct (decide (k = token)) as [->|]; simplify_eq.
    + left. apply lookup_insert_eq.
    + rewrite lookup_insert_ne by done. destruct (IH H) as [?|(c & ? & ?)]; [by left|right].
      exists c. rewrite elem_of_cons. auto.
  - destruct (decide (k = token)); [done|]. rewrite lookup_delete_ne by done.
    destruct (IH H) as [?|(c & ? & ?)]; [by left|right]. exists c. rewrite elem_of_cons. auto.
  - destruct (live tr token) as [[u' t']|]; [|done]. destruct (decide (u' = u)); simplify_eq.
    destruct (IH eq_refl) as [?|(c & ? & ?)]; [left|right].
    + apply map_lookup_filter_Some. done.
    + exists c. rewrite elem_of_cons. auto.
  - destruct (IH H) as [?|(c' & ? & ?)]; [|right; exists c'; rewrite elem_of_cons; auto].
    destruct (expired c (row user t)) eqn:E.
    + right. exists c. rewrite elem_of_cons. auto.
    + left. apply map_lookup_filter_Some. done.
Qed.

(** The clock of a device that knows the time: sessions are issued and
    cleaned up between 2001 and 2286, and no cleanup lies in the future. *)
Definition sane (now : Z) (tr : list Event) : Prop :=
  Forall (λ e, match e with
               | Issued _ _ _ t => 10 ^ 9 ≤ t < 10 ^ 10 - SESSION_TTL_SECS
               | Cleaned c => 10 ^ 9 ≤ c ≤ now
               | _ => True
               end) tr.

Lemma parse_expiry t :
  parse_u64 (dec_of_Z (wrap64 (t + SESSION_TTL_SECS))) = Some (wrap64 (t + SESSION_TTL_SECS)).
Proof.
  unfold parse_u64. apply parse_dec. unfold wrap64.
  pose proof (Z.mod_pos_bound (t + SESSION_TTL_SECS) (2 ^ 64)). lia.
Qed.

Lemma validate_row now token user t d :
  tables d = true → sessions d !! token = Some (row user t) → healthy d →
  (validate_session now token d).1 = inl (if now <? wrap64 (t + SESSION_TTL_SECS) then Some user else None).
Proof.
  intros HT HS Hd. unfold validate_session, mbind, DbM_bind. rewrite sql_healthy by done.
  unfold on_tables. cbn. rewrite HT, HS. cbn [expires_at row]. rewrite parse_expiry. done.
Qed.

Lemma validate_Some now token user d :
  (validate_session now token d).1 = inl (Some user) →
  ∃ s e, sessions d !! token = Some s ∧ user = user_id s ∧ parse_u64 (expires_at s) = Some e ∧ now < e.
Proof.
  unfold validate_session, mbind, DbM_bind. sql_step; [done|].
  unfold on_tables in Hq. cbn in Hq. destruct (tables d); [|done]. injection Hq as <- <-.
  destruct (sessions d !! token) as [s|] eqn:E; [|done]. destruct (parse_u64 _) as [e|] eqn:P; [|done].
  cbn. destruct (Z.ltb_spec now e); [|done]. intros [= <-]. by exists s, e.
Qed.

Lemma wrap_small t : 0 ≤ t < 10 ^ 10 → wrap64 (t + SESSION_TTL_SECS) = t + SESSION_TTL_SECS.
Proof. intros Ht. unfold wrap64, SESSION_TTL_SECS in *. apply Z.mod_small. lia. Qed.

(** C4 Sessions under any interleaving of requests, with any pattern of
    failing statements.  Whoever passes [require_auth] presents a token that,
    according to the trace, was issued to the user it passes as, less than 24
    hours ago, and since then neither logged out nor ended by a password
    reset.  Conversely, when the clocks show a time between 2001 and 2286 and
    the database answers, such a token is accepted.  The condition on the
    clock is needed: the expiry is compared as text, and ten hours after 1970
    a session just issued counts as expired at the next cleanup. *)
Theorem session_refines {bcrypt : BcryptLib} {http : HeaderLib} min_instant migrated oracle ops w tr :
  header_laws → Forall clocked ops → run min_instant migrated oracle ops = (w, tr) →
  (∀ req now user, (require_auth now req (db w)).1 = inl user →
     ∃ token t, extract_session_token req = Some token ∧ live tr token = Some (user, t)
       ∧ now < t + SESSION_TTL_SECS)
  ∧ (∀ req now token user t,
       auth_db req = true → extract_session_token req = Some token →
       live tr token = Some (user, t) → now < t + SESSION_TTL_SECS →
       sane now tr → healthy (db w) → (require_auth now req (db w)).1 = inl user)
  ∧ (∀ user, expired 36300 (row user 36000) = true).
Proof.
  intros laws Hops Hrun.
  pose proof (run_sessions min_instant laws migrated oracle ops) as HS.
  pose proof (run_clocked min_instant migrated oracle ops Hops) as HC.
  rewrite Hrun in HS, HC. cbn [snd] in HC. destruct HS as [HS HT]. split_and!; [..|done].
  - intros req now user Hauth. unfold require_auth in Hauth.
    destruct (negb _); [done|]. destruct (extract_session_token req) as [token|]; [|done].
    assert ((validate_session now token (db w)).1 = inl (Some user)) as Hv.
    { by destruct (validate_session now token (db w)) as [[[]|] ?]; simplify_eq/=. }
    apply validate_Some in Hv as (s & e & Hl & -> & He & Hlt). rewrite HS in Hl.
    apply table_live in Hl as (u & t & Hl & ->). exists token, t. split_and!; [done..|].
    apply live_issued in Hl as [o Hi]. rewrite Forall_forall in HC. specialize (HC _ Hi). cbn in HC.
    cbn [expires_at row] in He. rewrite parse_expiry in He. injection He as <-.
    unfold wrap64 in Hlt. pose proof (Z.mod_le (t + SESSION_TTL_SECS) (2 ^ 64)).
    unfold SESSION_TTL_SECS in *. lia.
  - intros req now token user t Hdb Htok Hl Hlt Hsane Hh. unfold require_auth. rewrite Hdb, Htok. cbn [negb].
    destruct (live_issued _ _ _ _ Hl) as [o Hi]. pose proof Hsane as Hsane'.
    unfold sane in Hsane. rewrite Forall_forall in Hsane. pose proof (Hsane _ Hi) as Ht. cbn in Ht.
    assert (sessions (db w) !! token = Some (row user t)) as Hrow.
    { rewrite HS. apply live_table in Hl as [?|(c & Hc & Hx)]; [done|]. exfalso.
      specialize (Hsane _ Hc). cbn in Hsane. unfold expired in Hx. cbn [expires_at row] in Hx.
      rewrite wrap_small in Hx by (unfold SESSION_TTL_SECS in *; lia).
      rewrite text_lt_dec in Hx by (unfold SESSION_TTL_SECS in *; lia). guards. lia. }
    assert (tables (db w) = true) as Htab by (apply HT; intros ->; done).
    pose proof (validate_row now token user t (db w) Htab Hrow Hh) as Hv.
    rewrite wrap_small, (proj2 (Z.ltb_lt _ _)) in Hv by (unfold SESSION_TTL_SECS in *; lia).
    by destruct (validate_session now token (db w)) as [[[]|] ?]; simplify_eq/=.
Qed.

(** ** A concrete server *)

(** A toy bcrypt whose hash is the password; every header value parses. *)
Definition toy_bcrypt : BcryptLib := {|
  bcrypt_hash _ p := Some p;
  bcrypt_verify p h := Some (bytes_eqb p h);
|}.
Definition toy_header : HeaderLib := λ l, Some l.
Lemma toy_laws : @header_laws toy_header.
Proof. done. Qed.

Definition toy_run : bool → list bool → list Op → World * list Event :=
  @run toy_bcrypt toy_header (-(2 ^ 63)).

(** A request with a [Cookie] header. *)
Definition with_cookie (m : Method) (p cookie : bytes) : Request :=
  mkRequest m p (λ name, if bytes_eqb name (lit "cookie") then Some cookie else None) None true.

Definition admin_login (pw : bytes) : Credentials := mkCredentials [] pw.
Definition cookie_of (rand : bytes) : bytes := lit "session=" ++ generate_token rand.

(** Set up, log in with request 1 up to the check of the password, change the
    password with request 2, then let request 1 finish. *)
Definition race_ops : list Op :=
  [OpSetup (mkCredentials (lit "admin") (lit "password")) None [] [1] [2] 1700000000;
   OpLoginBegin 1 (admin_login (lit "password")) None 0;
   OpLoginVerify 1 true 1;
   OpAuth 2 (with_cookie POST (lit "/api/auth/reset") (cookie_of [1])) 1700000001;
   OpReset 2 [] (lit "password") (lit "s");
   OpLoginCreate 1 [3] [4] 1700000002].

(** C26 Where sessions come from.  Apart from the setup, every session was
    issued to a login that was begun while the account was not locked, and
    whose password matched the hash stored for that user at that moment.  The
    hash is not looked at again: a login begun before a password reset with
    the old password obtains its session after it, and the session that the
    reset was to prevent is accepted. *)
Theorem session_origins {bcrypt : BcryptLib} {http : HeaderLib} min_instant migrated oracle ops w tr :
  run min_instant migrated oracle ops = (w, tr) →
  (∀ job user token t, Issued (Some job) user token t ∈ tr →
     user = job_user job ∧ verified job ∧ begun min_instant migrated oracle ops job)
  ∧ let '(w', tr') := toy_run true [] race_ops in
    tr' = [Issued (Some (mkJob (lit "admin") (lit "password") (lit "password")))
             (lit "admin") (generate_token [3]) 1700000002;
           ResetDone (lit "admin");
           Issued None (lit "admin") (generate_token [1]) 1700000000]
    ∧ users (db w') !! lit "admin" = Some (lit "s")
    ∧ (require_auth 1700000003 (with_cookie GET (lit "/api/cameras") (cookie_of [3])) (db w')).1
      = inl (lit "admin").
Proof.
  intros Hrun. split.
  - intros job user token t Hi. pose proof (run_origins min_instant migrated oracle ops) as HO.
    rewrite Hrun in HO. destruct HO as [_ HO]. rewrite Forall_forall in HO.
    destruct (HO _ Hi) as (? & ? & ?). done.
  - vm_compute. done.
Qed.

Lemma session_origins_witness :
  @verified toy_bcrypt (mkJob (lit "admin") (lit "password") (lit "password")).
Proof.
  destruct (@session_origins toy_bcrypt toy_header (-(2 ^ 63)) true [] race_ops
    (toy_run true [] race_ops).1 (toy_run true [] race_ops).2 (surjective_pairing _)) as [Ho _].
  apply (Ho _ (lit "admin") (generate_token [3]) 1700000002).
  vm_compute. apply elem_of_cons. by left.
Defined.

Lemma session_refines_witness :
  ∃ token t, extract_session_token (with_cookie GET (lit "/") (cookie_of [3])) = Some token
    ∧ live (toy_run true [] race_ops).2 token = Some (lit "admin", t)
    ∧ 1700000003 < t + SESSION_TTL_SECS.
Proof.
  assert (Forall clocked race_ops) as Hc by (repeat constructor; cbn; lia).
  destruct (@session_refines toy_bcrypt toy_header (-(2 ^ 63)) true [] race_ops
    (toy_run true [] race_ops).1 (toy_run true [] race_ops).2 toy_laws Hc (surjective_pairing _)) as [Ha _].
  apply Ha. vm_compute. reflexivity.
Defined.

(** C37 There is one administrator.  In any run at most one user exists and
    at most one setup succeeds; once a user exists, every well-formed setup is
    refused, and until then every request outside the exempt paths is
    answered with 503.  The setup wants a password of at least eight bytes, a
    reset takes any. *)
Theorem single_admin {bcrypt : BcryptLib} {http : HeaderLib} min_instant migrated oracle ops w tr :
  header_laws → run min_instant migrated oracle ops = (w, tr) →
  (size (users (db w)) ≤ 1)%nat
  ∧ (length (List.filter is_setup tr) ≤ 1)%nat
  ∧ (users (db w) ≠ ∅ → healthy (db w) → ∀ body secure salt rand rand2 now,
       let r := (setup_handler body secure salt rand rand2 now (db w)).1 in
       status r = 400 ∧ (trim (username body) ≠ [] → 8 ≤ zlen (password body) →
                         r = api_error BadRequest (lit "already configured")))
  ∧ (healthy (db w) → tables (db w) = true → ∀ user salt old new h h',
       users (db w) !! user = Some h → bcrypt_verify old h = Some true →
       bcrypt_hash salt new = Some h' →
       (reset_password_handler user salt old new (db w)).1 = mkResponse 200 None [] None)
  ∧ (healthy (db w) → ∀ req, auth_db req = true →
       option_map status (require_setup req (db w)).1
       = if setup_exempt (path req) || negb (bool_decide (users (db w) = ∅)) then None else Some 503).
Proof.
  intros laws Hrun. pose proof (run_users min_instant laws migrated oracle ops) as HU.
  rewrite Hrun in HU. destruct HU as (HT & HS & HC). split_and!.
  - done.
  - destruct (decide _); lia.
  - intros Hne Hh body secure salt rand rand2 now r.
    destruct (decide (trim (username body) = [])) as [Ht|Ht];
      [split; [|done]; unfold r, setup_handler, bytes_eqb; by rewrite bool_decide_true|].
    destruct (Z.ltb_spec (zlen (password body)) 8) as [Hl|Hl].
    { split; [|lia]. unfold r, setup_handler, bytes_eqb.
      by rewrite bool_decide_false, (proj2 (Z.ltb_lt _ _)). }
    assert (r = api_error BadRequest (lit "already configured")) as ->; [|by split].
    unfold r, setup_handler, bytes_eqb. rewrite bool_decide_false, (proj2 (Z.ltb_ge _ _)) by done.
    assert (tables (db w) = true) as Htab by (destruct (tables (db w)); [done | by destruct Hne; apply HT]).
    unfold setup_locked, mbind, DbM_bind, map_err, is_first_run, mbind, DbM_bind.
    sql_run. rewrite Htab. cbn. sql_run. rewrite Htab. cbn.
    destruct (Z.eqb_spec (Z.of_nat (size (users (db w)))) 0) as [E|E]; [|done].
    destruct Hne. apply map_size_empty_inv. lia.
  - intros Hh Htab user salt old new h h' HL HV HH.
    unfold reset_password_handler, reset_password, mbind, DbM_bind, map_err, lift.
    unfold get_user_password. sql_run. rewrite Htab, HL.
    unfold verify_password, hash_password. rewrite HV, HH. cbn.
    unfold update_user_password, delete_all_user_sessions, mbind, DbM_bind.
    sql_run. rewrite Htab, HL. cbn. sql_run. by rewrite Htab.
  - intros Hh req Hdb. unfold require_setup. rewrite Hdb. cbn [negb].
    destruct (setup_exempt _); [done|]. cbn [orb].
    assert ((is_first_run (db w)).1 = inl (bool_decide (users (db w) = ∅))) as Hf.
    { unfold is_first_run, mbind, DbM_bind. sql_run. destruct (tables (db w)) eqn:Htab; cbn [negb].
      - sql_run. rewrite Htab. cbn. f_equal. destruct (Z.eqb_spec (Z.of_nat (size (users (db w)))) 0) as [E|E].
        + rewrite bool_decide_true; [done|]. apply map_size_empty_inv. lia.
        + rewrite bool_decide_false; [done|]. intros E'. by rewrite E', map_size_empty in E.
      - by rewrite bool_decide_true by auto. }
    destruct (is_first_run (db w)) as [[b|] d]; cbn [fst] in Hf; [|done]. injection Hf as ->.
    by destruct (bool_decide _).
Qed.

Lemma single_admin_witness : (size (users (db (toy_run true [] race_ops).1)) ≤ 1)%nat.
Proof.
  exact (proj1 (@single_admin toy_bcrypt toy_header (-(2 ^ 63)) true [] race_ops
    (toy_run true [] race_ops).1 (toy_run true [] race_ops).2 toy_laws (surjective_pairing _))).
Defined.

(** ** The lockout *)

(** [n] logins with a wrong password, all begun before the first is checked. *)
Definition burst (n : nat) : list Op :=
  OpSetup (mkCredentials (lit "admin") (lit "password")) None [] [1] [2] 1700000000
  :: List.map (λ id, OpLoginBegin id (admin_login (lit "guess")) None 0) (seq 0 n)
  ++ List.map (λ id, OpLoginVerify id true 0) (seq 0 n).

(** Whether a further login is begun after the burst, [instant] later. *)
Definition admitted (n : nat) (instant : Z) : bool :=
  let w := (toy_run true [] (burst n)).1 in
  let w' := (@step toy_bcrypt toy_header (-(2 ^ 63)) w
               (OpLoginBegin n (admin_login (lit "guess")) None instant)).1.1 in
  bool_decide (is_Some (pending w' !! n)).

(** C36 The lockout of an account.  After [n] failed logins in a row, the last
    at [last], a login at [now] is refused exactly while less than [60 *
    2 ^ (n - 5)] seconds have passed when [n] is 5 to 9; from 10 on the entry
    is forgotten after 30 minutes, so that the delay stops doubling; from 67 on
    [60 * 2 ^ (n - 5)] is zero in 64 bits and the account is never locked.  On
    a platform whose clock starts less than 30 minutes ago and cannot go below
    zero, nobody is locked.  Failures count when they are recorded: any number
    of logins begun before is checked, and 67 of them disable the lockout. *)
Theorem lockout_schedule min_instant user times last now f :
  f !! user = None → last ≤ now → zlen times + 1 < 2 ^ 32 →
  let n := zlen times + 1 in
  let verdict := (check_lockout min_instant user now (record_failures user (times ++ [last]) f)).1 in
  (min_instant ≤ now - 1800 * NANOS →
   (n < 5 → verdict = None)
   ∧ (5 ≤ n < 10 → (is_Some verdict ↔ now - last < 60 * 2 ^ (n - 5) * NANOS))
   ∧ (10 ≤ n < 67 → (is_Some verdict ↔ now - last < 1800 * NANOS))
   ∧ (67 ≤ n → verdict = None))
  ∧ (now - 1800 * NANOS < min_instant → verdict = None)
  ∧ admitted 4 0 = true ∧ admitted 5 0 = false ∧ admitted 66 0 = false ∧ admitted 67 0 = true.
Proof.
  intros Hf Hl Hn n verdict.
  pose proof (record_failures_last user times last f Hf Hn) as Hr. fold n in Hr.
  assert (0 ≤ (now - last) / NANOS) as Hpos by (apply Z.div_pos; [lia | done]).
  split_and!; [| | by vm_compute..].
  - intros Hm. unfold verdict. rewrite (check_lockout_Some _ _ _ _ _ _ Hr) by done. cbv zeta.
    split_and!; intros Hc.
    + by rewrite (proj2 (Z.leb_gt 5 n)) by lia.
    + rewrite (proj2 (Z.leb_le 5 n)) by lia. cbn [andb].
      assert (lockout_duration n = 60 * 2 ^ (n - 5) ∧ 60 ≤ 60 * 2 ^ (n - 5) ≤ 960) as [-> Hd].
      { assert (n = 5 ∨ n = 6 ∨ n = 7 ∨ n = 8 ∨ n = 9) as Hcases by lia.
        destruct Hcases as [->|[->|[->|[->| ->]]]]; by vm_compute. }
      destruct (Z.ltb_spec (now - last) (1800 * NANOS)); cbn [andb];
        destruct (Z.ltb_spec ((now - last) / NANOS) (60 * 2 ^ (n - 5)));
        (split; [intros [? [=]] || intros _ | intros ? || eauto]); unfold NANOS in *; try dm_lia; eauto.
    + pose proof (lockout_long n Hc). rewrite (proj2 (Z.leb_le 5 n)) by lia. cbn [andb].
      destruct (Z.ltb_spec (now - last) (1800 * NANOS)); cbn [andb].
      * rewrite (proj2 (Z.ltb_lt _ _)) by (unfold NANOS in *; dm_lia). split; eauto.
      * split; [intros [? [=]] | lia].
    + rewrite lockout_overflow by lia. rewrite (proj2 (Z.ltb_ge _ 0)) by lia. by rewrite andb_false_r.
  - intros Hm. unfold verdict, check_lockout. cbn [fst]. rewrite (cleanup_lookup _ _ _ _ _ _ Hr).
    unfold checked_sub. rewrite (proj2 (Z.ltb_lt (now - 1800 * NANOS) min_instant)) by lia.
    cbn [from_option]. unfold id. by rewrite (proj2 (Z.ltb_ge now last)) by lia.
Qed.

Lemma lockout_schedule_witness :
  (check_lockout 0 (lit "admin") (4000 * NANOS)
     (record_failures (lit "admin") [3900 * NANOS; 3900 * NANOS; 3901 * NANOS; 3902 * NANOS; 3903 * NANOS] ∅)).1
  = None
  ∧ is_Some (check_lockout 0 (lit "admin") (4000 * NANOS)
     (record_failures (lit "admin") ([3900 * NANOS; 3900 * NANOS; 3901 * NANOS; 3902 * NANOS; 3903 * NANOS]
        ++ [3904 * NANOS]) ∅)).1.
Proof.
  split; [by vm_compute|].
  refine (proj2 (proj1 (proj2 (proj1 (lockout_schedule 0 (lit "admin") _ (3904 * NANOS) (4000 * NANOS) ∅
    eq_refl _ _) _)) _) _); vm_compute; done.
Defined.

(** ** The cookies of a login *)

(** What a browser keeps of a [Set-Cookie] header: the part before the
    attributes. *)
Definition cookie_pair (set_cookie : bytes) : bytes :=
  match split_once SEMI set_cookie with Some (kept, _) => kept | None => set_cookie end.
(** The [Cookie] header it sends back. *)
Definition cookie_header (set_cookies : list bytes) : bytes :=
  match List.map cookie_pair set_cookies with
  | [] => []
  | first :: others => join SEMI (first :: List.map (cons 32) others)
  end.

Lemma hex_lacks rand c : is_digit16 c = false → lacks c (generate_token rand).
Proof.
  intros Hc. unfold generate_token. induction rand as [|b rand IH]; [constructor|].
  rewrite bind_cons. apply lacks_app. split; [|exact IH].
  eapply Forall_impl; [apply hex_digits_digits|]. intros x Hx. cbn in Hx.
  apply Z.eqb_neq. intros ->. by rewrite Hc in Hx.
Qed.

Lemma hex_solid rand : forallb is_solid (generate_token rand) = true.
Proof.
  apply forallb_forall. intros x Hx. unfold generate_token in Hx.
  apply list_elem_of_In, list_elem_of_bind in Hx as (b & Hx & _).
  pose proof (hex_digits_digits 2 b) as H. rewrite Forall_forall in H. specialize (H x Hx). cbn in H.
  unfold is_digit16 in H. unfold is_solid, is_space.
  rewrite orb_true_iff, !andb_true_iff, !Z.leb_le in H.
  rewrite !andb_true_iff, negb_true_iff, orb_false_iff, andb_false_iff, !Z.leb_le, !Z.leb_gt, Z.ltb_lt, Z.eqb_neq.
  lia.
Qed.

Lemma session_pair rand secure :
  cookie_pair (session_cookie (generate_token rand) secure) = lit "session=" ++ generate_token rand.
Proof.
  unfold cookie_pair, session_cookie.
  change (lit "; HttpOnly;") with (SEMI :: lit " HttpOnly;"). rewrite app_assoc.
  rewrite <-(app_comm_cons _ _ SEMI), split_once_app; [done|].
  apply lacks_app. split; [vm_compute; repeat constructor | by apply hex_lacks].
Qed.

Lemma csrf_pair rand : cookie_pair (csrf_cookie (generate_token rand)) = CSRF ++ generate_token rand.
Proof.
  unfold cookie_pair, csrf_cookie.
  change (lit "; SameSite=Strict; Path=/; Max-Age=86400") with (SEMI :: lit " SameSite=Strict; Path=/; Max-Age=86400").
  rewrite app_assoc, split_once_app; [done|].
  apply lacks_app. split; [vm_compute; repeat constructor | by apply hex_lacks].
Qed.

Lemma cookie_split rand rand2 secure :
  List.map trim (split SEMI (cookie_header [session_cookie (generate_token rand) secure; csrf_cookie (generate_token rand2)]))
  = [lit "session=" ++ generate_token rand; CSRF ++ generate_token rand2].
Proof.
  unfold cookie_header. cbn [List.map]. rewrite session_pair, csrf_pair, split_join.
  - cbn [List.map]. rewrite trim_space. f_equal; [|f_equal]; apply trim_id, trimmed_all_solid;
      rewrite forallb_app, hex_solid; done.
  - apply List.Forall_cons; [|apply List.Forall_cons; [constructor; [done|] | apply List.Forall_nil]];
      (apply lacks_app; split; [vm_compute; repeat constructor | by apply hex_lacks]).
  - done.
Qed.

Lemma find_map_map {A B C} (f : B → option C) (g : A → B) l :
  find_map (λ x, f (g x)) l = find_map f (List.map g l).
Proof. induction l as [|x l IH]; [done|]. cbn. by rewrite IH. Qed.

Section cookies.
Context (rand rand2 : bytes) (secure : bool) (req : Request).
Context (Hcookie : header req (lit "cookie")
  = Some (cookie_header [session_cookie (generate_token rand) secure; csrf_cookie (generate_token rand2)])).

Lemma cookies_session : extract_session_token req = Some (generate_token rand).
Proof using Hcookie.
  unfold extract_session_token. rewrite Hcookie, find_map_map, cookie_split. cbn [find_map].
  by rewrite strip_prefix_app.
Qed.

Lemma cookies_csrf : cookie_csrf req = Some (generate_token rand2).
Proof using Hcookie.
  unfold cookie_csrf. rewrite Hcookie, cookie_split. cbn [List.find].
  replace (starts_with CSRF (lit "session=" ++ generate_token rand)) with false by done.
  replace (starts_with CSRF (CSRF ++ generate_token rand2)) with true
    by (symmetry; apply starts_with_true; eauto).
  cbn [option_map]. f_equal. apply trim_start_matches_once; [done|].
  destruct (strip_prefix CSRF (generate_token rand2)) as [r|] eqn:E; [|done].
  apply strip_prefix_Some in E. exfalso.
  pose proof (hex_lacks rand2 115 eq_refl) as Hl. rewrite E in Hl. unfold lacks in Hl.
  apply Forall_app in Hl as [Hl _]. revert Hl. unfold CSRF. vm_compute. intros H.
  inversion H as [|? ? _ H']. inversion H' as [|? ? H'' _]. done.
Qed.
End cookies.

(** The cookies of a login work.  When the database answers, the last part of a
    login succeeds with two cookies and the CSRF token in its body.  A request
    that sends the cookies back, and the token in [X-CSRF-Token], passes
    [csrf_middleware] and for 24 hours [require_auth] as that user; a
    state-changing one on another than the three exempt paths that sends a
    different token or none is refused with status 400; after a logout with
    the cookies the session is refused. *)
Theorem login_usable {bcrypt : BcryptLib} {http : HeaderLib} user secure rand rand2 t d :
  header_laws → tables d = true → healthy d → sessions d !! generate_token rand = None →
  0 ≤ t < 10 ^ 10 →
  let '(r, d') := login_create user secure rand rand2 t d in
  status r = 200 ∧ csrf_body r = Some (generate_token rand2)
  ∧ ∀ req now, auth_db req = true → header req (lit "cookie") = Some (cookie_header (set_cookie r)) →
      (header req (lit "x-csrf-token") = csrf_body r → csrf_middleware req = None)
      ∧ (is_state_changing (method req) = true → is_auth_endpoint (path req) = false →
         header req (lit "x-csrf-token") ≠ csrf_body r →
         ∃ refusal, csrf_middleware req = Some refusal ∧ status refusal = 400)
      ∧ (require_auth now req d').1
        = (if now <? t + SESSION_TTL_SECS then inl user else inr (error_response 401 (lit "unauthorized")))
      ∧ let '(r', d'') := logout_handler secure req d' in
        status r' = 204 ∧ (require_auth now req d'').1 = inr (error_response 401 (lit "unauthorized")).
Proof.
  intros laws HT Hh Hfresh Ht. unfold login_create.
  set (d1 := with_sessions (<[generate_token rand := row user t]> (sessions d)) (with_faults (tail (faults d)) d)).
  assert (create_session rand t user d = (inl (generate_token rand), d1)) as ->.
  { unfold create_session, mbind, DbM_bind, insert_session. sql_run. by rewrite HT, Hfresh. }
  assert (healthy d1) as Hh1 by (unfold healthy in *; cbn; by apply Forall_tail).
  rewrite signed_in_ok by done.
  cbn [status csrf_body set_cookie]. split_and!; [done..|]. intros req now Hdb Hcookie.
  pose proof (cookies_session _ _ _ _ Hcookie) as Hs. pose proof (cookies_csrf _ _ _ _ Hcookie) as Hc.
  split_and!.
  - intros Hx. unfold csrf_middleware. rewrite Hc, Hx. unfold bytes_eqb.
    rewrite bool_decide_true by done. by destruct (_ && _).
  - intros Hm Hp Hx. unfold csrf_middleware. rewrite Hm, Hp, Hc. cbn [andb negb].
    destruct (header req (lit "x-csrf-token")) as [actual|]; [|by eexists].
    unfold bytes_eqb. rewrite bool_decide_false by congruence. by eexists.
  - unfold require_auth. rewrite Hdb, Hs. cbn [negb].
    pose proof (validate_row now (generate_token rand) user t d1 HT (lookup_insert_eq _ _ _) Hh1) as Hv.
    rewrite wrap_small in Hv by done.
    destruct (validate_session _ _ _) as [v d'] eqn:E. cbn [fst] in Hv. rewrite Hv.
    by destruct (now <? _).
  - set (d2 := with_sessions (delete (generate_token rand) (sessions d1)) (with_faults (tail (faults d1)) d1)).
    assert (invalidate_session (generate_token rand) d1 = (inl (), d2)) as Hi.
    { unfold invalidate_session. sql_run. by rewrite HT. }
    unfold logout_handler. rewrite Hs, Hi. cbn [snd]. rewrite laws.
    2:{ unfold session_cookie_cleared. destruct (default true secure); by apply visible_dec. }
    split; [done|]. unfold require_auth. rewrite Hdb, Hs. cbn [negb].
    assert (healthy d2) as Hh2 by (unfold healthy in *; cbn; by repeat apply Forall_tail).
    assert ((validate_session now (generate_token rand) d2).1 = inl None) as Hv.
    { unfold validate_session, mbind, DbM_bind. sql_run. rewrite HT. cbn.
      by rewrite lookup_delete_eq. }
    destruct (validate_session _ _ _) as [v d3]. cbn [fst] in Hv. by rewrite Hv.
Qed.

Lemma login_usable_witness :
  let d := mkDb true {[lit "admin" := lit "password"]} ∅ [] in
  let out := @login_create toy_header (lit "admin") None [1; 2] [3] 1700000000 d in
  let req := mkRequest POST (lit "/api/cameras")
    (λ name, if bytes_eqb name (lit "cookie") then Some (cookie_header (set_cookie out.1))
             else if bytes_eqb name (lit "x-csrf-token") then csrf_body out.1 else None) None true in
  csrf_middleware req = None ∧ (require_auth 1700000100 req out.2).1 = inl (lit "admin").
Proof.
  intros d out req.
  pose proof (@login_usable toy_bcrypt toy_header (lit "admin") None [1; 2] [3] 1700000000 d
    toy_laws eq_refl (List.Forall_nil _) eq_refl ltac:(lia)) as H.
  change (@login_create toy_header (lit "admin") None [1; 2] [3] 1700000000 d) with out in H.
  destruct out as [r d'] eqn:E. destruct H as (_ & _ & H).
  destruct (H req 1700000100 eq_refl eq_refl) as (H1 & _ & H2 & _).
  split; [by apply H1 | exact H2].
Defined.
