(* ===== verification/Media.v ===== *)
(** * Media frames, sources and outputs ([crates/streaming/src/source.rs],
    [output/mod.rs])

    The unit of data of the pipeline and the two traits that its ends
    implement; [Hub] is written against the traits, [Outputs] implements
    one of them. *)
From Stdlib Require Import ZArith Lia List Bool String.
From stdpp Require Import base option numbers gmap.
From S2P Require Import Prelude.

Inductive MediaFrame :=
  | VideoFrame (keyframe : bool) (data : bytes) (timestamp : Z)
  | AudioFrame (data : bytes) (timestamp : Z).

Definition frame_timestamp (f : MediaFrame) : Z :=
  match f with VideoFrame _ _ ts | AudioFrame _ ts => ts end.

Definition frame_data (f : MediaFrame) : bytes :=
  match f with VideoFrame _ data _ | AudioFrame data _ => data end.

(** [trait Source] *)
Class Source (S : Type) := {
  source_start : ST S unit;
  next_frame : ST S MediaFrame;
  source_stop : ST S unit;
}.

(** [trait Output] *)
Class Output (O : Type) := {
  output_start : ST O unit;
  send_frame : MediaFrame → ST O unit;
  output_stop : ST O unit;
}.

(** The outcome of delivering frames one after another, up to an error. *)
Fixpoint send_all {O} `{Output O} (fs : list MediaFrame) : ST O unit :=
  match fs with
  | [] => st_ret tt
  | f :: fs => _ ← send_frame f; send_all fs
  end.

(** [MockSource], the scripted source that a ["test"] camera selects. *)
Record MockSource := mkMockSource { frames : list MediaFrame; started : bool; index : Z }.

Definition mock_new (frames : list MediaFrame) : MockSource := mkMockSource frames false 0.

Definition mock_start : ST MockSource unit := λ s,
  (Ok tt, mkMockSource (frames s) true (index s)).

Definition mock_next_frame : ST MockSource MediaFrame := λ s,
  if negb (started s) then (Err "MockSource not started", s)
  else if zlen (frames s) <=? index s then (Err "MockSource exhausted", s)
  else
    match at_ (frames s) (index s) with
    | Ok f => (Ok f, mkMockSource (frames s) (started s) (index s + 1))
    | Err e => (Err e, s)
    | Panic => (Panic, s)
    | OutOfFuel => (OutOfFuel, s)
    end.

Definition mock_stop : ST MockSource unit := λ s,
  (Ok tt, mkMockSource (frames s) false (index s)).

#[export] Instance MockSource_source : Source MockSource := {
  source_start := mock_start;
  next_frame := mock_next_frame;
  source_stop := mock_stop;
}.
