(* ===== verification/Outputs.v ===== *)
(** * From the encoder to the network ([crates/streaming/src/encoder/h264.rs],
    [output/mod.rs], [output/rtsp.rs], [output/rtmp.rs])

    The splitting of the encoder's byte stream into frames ([Encoder]), the
    RTSP output that packetizes them ([RtspOut]) and the RTMP output that
    pushes them ([RtmpOut]), both instances of [Media.Output], and what a
    client at the other end of the wire sees. *)
From Stdlib Require Import ZArith Lia List Bool String.
From stdpp Require Import base option numbers gmap.
From S2P Require Import Prelude H264 Rtp Text RtmpClient Media.

(** ** The NAL units of the encoder *)
Module Encoder.

Record NalUnit := mkNal { data : bytes; is_keyframe : bool }.

Definition start_code_len_at (data : bytes) (i : Z) : Res (option Z) :=
  four ← (if i + 4 <=? zlen data
          then s ← slice data i (i + 4); Ok (bool_decide (s = [0; 0; 0; 1])) else Ok false);
  if four : bool then Ok (Some 4)
  else
    three ← (if i + 3 <=? zlen data
             then s ← slice data i (i + 3); Ok (bool_decide (s = [0; 0; 1])) else Ok false);
    if three : bool then Ok (Some 3) else Ok None.

(** The loop that finds the end of a unit. *)
Fixpoint find_end (fuel : nat) (data : bytes) (j : Z) : Res Z :=
  match fuel with
  | O => OutOfFuel
  | S fuel =>
      if j <? zlen data then
        sc ← start_code_len_at data j;
        match sc with Some _ => Ok j | None => find_end fuel data (j + 1) end
      else Ok j
  end.

Fixpoint split_loop (fuel : nat) (annex_b : bytes) (is_keyframe : bool) (i : Z)
    : Res (list NalUnit) :=
  match fuel with
  | O => OutOfFuel
  | S fuel =>
      if i <? zlen annex_b then
        sc ← start_code_len_at annex_b i;
        match sc with
        | None => split_loop fuel annex_b is_keyframe (i + 1)
        | Some sc_len =>
            let nal_start := i + sc_len in
            j ← find_end (S (length annex_b)) annex_b (nal_start + 1);
            nal ← (if nal_start <? j
                   then d ← slice annex_b nal_start j; Ok [mkNal d is_keyframe] else Ok []);
            nals ← split_loop fuel annex_b is_keyframe j;
            Ok (nal ++ nals)
        end
      else Ok []
  end.

Definition split_annex_b_to_nals (annex_b : bytes) (is_keyframe : bool) : Res (list NalUnit) :=
  split_loop (S (length annex_b)) annex_b is_keyframe 0.

(** *** Streams of units behind long or short start codes *)
Definition code_of (long : bool) : bytes := if long then [0; 0; 0; 1] else [0; 0; 1].

Definition byte_stream (us : list (bool * bytes)) : bytes :=
  flat_map (λ u, code_of u.1 ++ u.2) us.

(** A NAL unit as the standard has it: not empty, no start code inside, the
    last byte not zero. *)
Definition unit_ok (n : bytes) : Prop := n ≠ [] ∧ no_code n = true ∧ last n ≠ Some 0.

(** What starts at the head of the rest of the stream. *)
Definition code_at (tl : bytes) : option Z :=
  if bool_decide (take 4 tl = [0; 0; 0; 1]) then Some 4
  else if bool_decide (take 3 tl = [0; 0; 1]) then Some 3 else None.

Lemma start_code_len_at_app pre tl :
  start_code_len_at (pre ++ tl) (zlen pre) = Ok (code_at tl).
Proof.
  assert (∀ (n : nat) c, length c = n →
    (if zlen pre + Z.of_nat n <=? zlen (pre ++ tl)
     then s ← slice (pre ++ tl) (zlen pre) (zlen pre + Z.of_nat n); Ok (bool_decide (s = c))
     else Ok false) = Ok (bool_decide (take n tl = c))) as H.
  { intros n c Hc. rewrite zlen_app. destruct (Z.leb_spec (zlen pre + Z.of_nat n) (zlen pre + zlen tl)).
    - rewrite <-(Z.add_0_r (zlen pre)) at 1. rewrite slice_app_add by lia.
      rewrite slice_in_range by lia. cbn [mbind Res_bind]. rewrite Z.sub_0_r, Nat2Z.id. done.
    - rewrite bool_decide_eq_false_2; [done|]. intros Ht. apply (f_equal length) in Ht.
      rewrite length_take in Ht. unfold zlen in *. lia. }
  pose proof (H 4%nat [0; 0; 0; 1] eq_refl) as H4. pose proof (H 3%nat [0; 0; 1] eq_refl) as H3.
  change (Z.of_nat 4) with 4 in H4. change (Z.of_nat 3) with 3 in H3.
  unfold start_code_len_at, code_at. rewrite H4. cbn [mbind Res_bind].
  destruct (bool_decide _); [done|]. rewrite H3. cbn [mbind Res_bind].
  by destruct (bool_decide _).
Qed.

Lemma byte_stream_cons long n us :
  byte_stream ((long, n) :: us) = code_of long ++ n ++ byte_stream us.
Proof. cbn. by rewrite <-app_assoc. Qed.

Lemma code_at_stream long n us :
  code_at (byte_stream ((long, n) :: us)) = Some (zlen (code_of long)).
Proof. by destruct long. Qed.

(** Inside a unit no start code begins, whatever follows. *)
Lemma code_at_inside s us :
  s ≠ [] → no_code s = true → last s ≠ Some 0 → code_at (s ++ byte_stream us) = None.
Proof.
  intros Hne Hnc Hl. unfold code_at.
  destruct s as [|x [|y [|z s]]]; [done|..]; cbn [last] in Hl.
  - rewrite !bool_decide_eq_false_2; [done|..]; intros [= ->]; done.
  - rewrite !bool_decide_eq_false_2; [done|..]; cbn; intros [= -> ->]; done.
  - apply no_code_head in Hnc as [H3 Hnc].
    rewrite !bool_decide_eq_false_2; [done|..]; cbn; intros E.
    + injection E as -> -> ->. done.
    + destruct s as [|w s]; cbn in E; [injection E as -> -> -> _; done|].
      injection E as -> -> -> ->. apply no_code_head in Hnc as [H4 _]. done.
Qed.

Lemma no_code_tail x s : no_code (x :: s) = true → no_code s = true.
Proof.
  destruct s as [|y [|z s]]; [done|done|]. intros H. by apply no_code_head in H as [].
Qed.

Lemma last_tail (x : Z) s : s ≠ [] → last (x :: s) = last s.
Proof. by destruct s. Qed.

Lemma find_end_unit fuel pre s us :
  no_code s = true → (s = [] ∨ last s ≠ Some 0) → (length (s ++ byte_stream us) < fuel)%nat →
  find_end fuel (pre ++ s ++ byte_stream us) (zlen pre) = Ok (zlen (pre ++ s)).
Proof.
  revert fuel pre. induction s as [|x s IH]; intros fuel pre Hnc Hl Hf;
    (destruct fuel as [|fuel]; [lia|]); cbn [find_end].
  - rewrite app_nil_r. cbn [app]. destruct us as [|[long n] us].
    + cbn [byte_stream flat_map]. rewrite app_nil_r. by rewrite Z.ltb_irrefl.
    + rewrite start_code_len_at_app, code_at_stream. cbn [mbind Res_bind].
      rewrite zlen_app, byte_stream_cons, (proj2 (Z.ltb_lt _ _)); [done|].
      destruct long; cbn [code_of]; zsolve.
  - rewrite (proj2 (Z.ltb_lt _ _)) by (rewrite !zlen_app, zlen_cons; zlen_facts; lia).
    rewrite start_code_len_at_app.
    assert (last (x :: s) ≠ Some 0) as Hl' by (by destruct Hl as [?|?]).
    rewrite code_at_inside by done. cbn [mbind Res_bind].
    replace (pre ++ (x :: s) ++ byte_stream us) with ((pre ++ [x]) ++ s ++ byte_stream us)
      by by rewrite <-app_assoc.
    replace (zlen pre + 1) with (zlen (pre ++ [x])) by (rewrite zlen_app; done).
    rewrite IH; [by rewrite <-app_assoc | by eapply no_code_tail | | cbn in Hf; lia].
    destruct s; [by left | right; by rewrite last_tail in Hl'].
Qed.

Lemma split_loop_stream us fuel pre kf :
  Forall (λ u, unit_ok u.2) us → (length (byte_stream us) < fuel)%nat →
  split_loop fuel (pre ++ byte_stream us) kf (zlen pre) = Ok (map (λ u, mkNal u.2 kf) us).
Proof.
  revert fuel pre. induction us as [|[long n] us IH]; intros fuel pre Hus Hf;
    (destruct fuel as [|fuel]; [lia|]); cbn [split_loop].
  { cbn [byte_stream flat_map]. rewrite app_nil_r. by rewrite Z.ltb_irrefl. }
  apply Forall_cons in Hus as [(Hne & Hnc & Hl) Hus]. cbn [snd] in Hne, Hnc, Hl.
  destruct n as [|x n]; [done|].
  set (st := byte_stream ((long, x :: n) :: us)).
  assert (st = code_of long ++ [x] ++ n ++ byte_stream us) as Est
    by (unfold st; by rewrite byte_stream_cons).
  assert (0 < zlen st) by (rewrite Est; destruct long; cbn [code_of]; zsolve).
  rewrite (proj2 (Z.ltb_lt _ _)) by (rewrite zlen_app; lia).
  assert (code_at st = Some (zlen (code_of long))) as Hcode by apply code_at_stream.
  rewrite start_code_len_at_app, Hcode. cbn [mbind Res_bind].
  set (pre' := pre ++ code_of long).
  assert (pre ++ st = (pre' ++ [x]) ++ n ++ byte_stream us) as Eall
    by (unfold pre'; rewrite Est; by rewrite <-!app_assoc).
  rewrite <-zlen_app. fold pre'.
  replace (zlen pre' + 1) with (zlen (pre' ++ [x])) by (rewrite zlen_app; done).
  rewrite Eall, find_end_unit.
  - cbn [mbind Res_bind]. rewrite <-app_assoc.
    rewrite (proj2 (Z.ltb_lt _ _)) by zsolve.
    rewrite <-!app_assoc. change ([x] ++ n ++ byte_stream us) with ((x :: n) ++ byte_stream us).
    rewrite (slice_app_mid pre' (x :: n)) by zsolve.
    cbn [mbind Res_bind app]. change ((x :: n) ++ byte_stream us) with (x :: n ++ byte_stream us).
    replace (pre' ++ x :: n ++ byte_stream us) with ((pre' ++ x :: n) ++ byte_stream us)
      by by rewrite <-app_assoc.
    rewrite IH; [done | done |]. rewrite byte_stream_cons, !length_app in Hf.
    destruct long; cbn in Hf; lia.
  - by eapply no_code_tail.
  - destruct n; [by left | right; by rewrite last_tail in Hl].
  - rewrite !length_app. lia.
Qed.

Lemma split_byte_stream us kf :
  Forall (λ u, unit_ok u.2) us →
  split_annex_b_to_nals (byte_stream us) kf = Ok (map (λ u, mkNal u.2 kf) us).
Proof. intros H. apply (split_loop_stream us _ []); [done | lia]. Qed.

(** A bare start code at the end of the stream unwinds the task. *)
Example trailing_code_panics :
  split_annex_b_to_nals [0; 0; 1; 0x65; 7; 0; 0; 1] true = Panic.
Proof. vm_compute. reflexivity. Qed.
End Encoder.

(** ** The RTSP output *)
Module RtspOut.

Definition RTP_PT_H264 : Z := 96.
Definition RTP_MAX_PAYLOAD : Z := 1400.

(** The twelve bytes before the payload. *)
Definition rtp_header (m : bool) (seq timestamp ssrc : Z) : bytes :=
  [0x80; Z.lor (wrap8 (Z.shiftl (Z_of_bool m) 7)) RTP_PT_H264]
  ++ to_be 2 seq ++ to_be 4 timestamp ++ to_be 4 ssrc.

Section fua.
Context (body : bytes) (fu_indicator nal_type timestamp ssrc : Z) (marker : bool).

(** The loop over the fragments: the packets and the next sequence number. *)
Fixpoint fua_loop (fuel : nat) (offset seq : Z) : Res (list bytes * Z) :=
  match fuel with
  | O => OutOfFuel
  | S fuel =>
      if offset <? zlen body then
        let chunk := Z.min (RTP_MAX_PAYLOAD - 2) (zlen body - offset) in
        let is_first := offset =? 0 in
        let is_last := zlen body <=? offset + chunk in
        let m := is_last && marker in
        frag ← slice body offset (offset + chunk);
        let pkt := rtp_header m seq timestamp ssrc
          ++ [fu_indicator;
              Z.lor (Z.lor (wrap8 (Z.shiftl (Z_of_bool is_first) 7))
                       (wrap8 (Z.shiftl (Z_of_bool is_last) 6))) nal_type] ++ frag in
        '(packets, seq') ← fua_loop fuel (offset + chunk) (wrap16 (seq + 1));
        Ok (pkt :: packets, seq')
      else Ok ([], seq)
  end.
End fua.

Definition build_rtp_packets (nal_data : bytes) (seq timestamp ssrc : Z)
    : Res (list bytes * Z) :=
  match nal_data with
  | [] => Ok ([], seq)
  | nal_header :: body =>
      let nal_type := Z.land nal_header 0x1F in
      let nri := Z.land nal_header 0x60 in
      let marker := (nal_type =? 5) || (nal_type =? 1) in
      if zlen nal_data <=? RTP_MAX_PAYLOAD then
        Ok ([rtp_header marker seq timestamp ssrc ++ nal_data], wrap16 (seq + 1))
      else
        fua_loop body (Z.lor 28 nri) nal_type timestamp ssrc marker
          (S (length body)) 0 seq
  end.

(** [frame_tx] holds what was sent on the channel so far, [sps_pps_tx]
    whether the sender of the oneshot channel is still there and
    [sps_pps_sent] what was sent on it. *)
Record RtspOutput := mkOutput {
  stream_path : bytes;
  sdp_body : bytes;
  ssrc : Z;
  frame_tx : option (list bytes);
  started : bool;
  rtp_seq : Z;
  rtp_timestamp : Z;
  cached_sps : option bytes;
  cached_pps : option bytes;
  sps_pps_tx : bool;
  sps_pps_sent : option (bytes * bytes);
}.

Definition new (stream_path sdp_body : bytes) (ssrc : Z) : RtspOutput :=
  mkOutput stream_path sdp_body ssrc None false 0 0 None None false None.

Definition with_channel (stream_path sdp_body : bytes) (ssrc : Z) : RtspOutput :=
  mkOutput stream_path sdp_body ssrc (Some []) false 0 0 None None false None.

Definition set_sps_pps_tx (o : RtspOutput) : RtspOutput :=
  mkOutput (stream_path o) (sdp_body o) (ssrc o) (frame_tx o) (started o) (rtp_seq o)
    (rtp_timestamp o) (cached_sps o) (cached_pps o) true (sps_pps_sent o).

Definition set_started (b : bool) (tx : option (list bytes)) (o : RtspOutput) : RtspOutput :=
  mkOutput (stream_path o) (sdp_body o) (ssrc o) tx b (rtp_seq o)
    (rtp_timestamp o) (cached_sps o) (cached_pps o) (sps_pps_tx o) (sps_pps_sent o).

Definition set_cached (sps pps : option bytes) (tx : bool) (sent : option (bytes * bytes))
    (o : RtspOutput) : RtspOutput :=
  mkOutput (stream_path o) (sdp_body o) (ssrc o) (frame_tx o) (started o) (rtp_seq o)
    (rtp_timestamp o) sps pps tx sent.

Definition set_rtp (seq ts : Z) (tx : option (list bytes)) (o : RtspOutput) : RtspOutput :=
  mkOutput (stream_path o) (sdp_body o) (ssrc o) tx (started o) seq
    ts (cached_sps o) (cached_pps o) (sps_pps_tx o) (sps_pps_sent o).

Definition start : ST RtspOutput unit := λ o,
  if bool_decide (stream_path o = []) then (Err "RtspOutput stream path must not be empty", o)
  else
    match frame_tx o with
    | None => (Err "RtspOutput has no channel -- use with_channel() or register a live stream", o)
    | Some _ => (Ok tt, set_started true (frame_tx o) o)
    end.

(** Caching of the parameter sets, with the one notification. *)
Definition cache_parameter_set (nal_type : Z) (data : bytes) (o : RtspOutput) : RtspOutput :=
  let notify (other : option bytes) (pair : option (bytes * bytes)) :=
    match other with
    | Some _ => if sps_pps_tx o then (false, pair) else (sps_pps_tx o, sps_pps_sent o)
    | None => (sps_pps_tx o, sps_pps_sent o)
    end in
  if nal_type =? 7 then
    let '(tx, sent) := notify (cached_pps o) (pps ← cached_pps o; Some (data, pps)) in
    set_cached (Some data) (cached_pps o) tx sent o
  else if nal_type =? 8 then
    let '(tx, sent) := notify (cached_sps o) (sps ← cached_sps o; Some (sps, data)) in
    set_cached (cached_sps o) (Some data) tx sent o
  else o.

(** [for pkt in build_rtp_packets(nal, ..) { tx.send(pkt) }] *)
Definition send_nal (nal : bytes) (ts : Z) : ST RtspOutput unit := λ o,
  match build_rtp_packets nal (rtp_seq o) ts (ssrc o) with
  | Ok (pkts, seq) => (Ok tt, set_rtp seq (rtp_timestamp o) ((.++ pkts) <$> frame_tx o) o)
  | Err e => (Err e, o)
  | Panic => (Panic, o)
  | OutOfFuel => (OutOfFuel, o)
  end.

Definition send_cached (nal : option bytes) (ts : Z) : ST RtspOutput unit :=
  match nal with Some nal => send_nal nal ts | None => st_ret tt end.

Definition send_frame (frame : MediaFrame) : ST RtspOutput unit :=
  match frame with
  | VideoFrame _ data _ =>
      up ← st_get started;
      if negb up then st_fail "RtspOutput not started"
      else
        tx ← st_get frame_tx;
        match tx with
        | None => st_fail "RtspOutput has no channel -- call with_channel()"
        | Some _ =>
            let nal_type := match data with b :: _ => Z.land b 0x1f | [] => 0 end in
            _ ← st_modify (cache_parameter_set nal_type data);
            ts ← st_get rtp_timestamp;
            _ ← (if nal_type =? 1 then
                   sps ← st_get cached_sps;
                   _ ← send_cached sps ts;
                   pps ← st_get cached_pps;
                   send_cached pps ts
                 else st_ret tt);
            _ ← send_nal data ts;
            if (nal_type =? 1) || (nal_type =? 5)
            then st_modify (λ o, set_rtp (rtp_seq o) (wrap32 (rtp_timestamp o + 3000)) (frame_tx o) o)
            else st_ret tt
        end
  | AudioFrame _ _ => st_ret tt
  end.

Definition stop : ST RtspOutput unit := st_modify (set_started false None).

#[global] Instance RtspOutput_output : Output RtspOutput := {
  output_start := start;
  Media.send_frame := send_frame;
  output_stop := stop;
}.
End RtspOut.

(** ** The RTMP output *)
Module RtmpOut.

(** [data.windows(3).any(|w| w == [0, 0, 1])] *)
Fixpoint is_annex_b (data : bytes) : bool :=
  match data with
  | b0 :: ((b1 :: b2 :: _) as tl) => ((b0 =? 0) && (b1 =? 0) && (b2 =? 1)) || is_annex_b tl
  | _ => false
  end.

Definition parse_h264_nal_units (data : bytes) : Res (list bytes) :=
  if zlen data <? 4 then Ok [data]
  else if is_annex_b data then split_nal_units data
  else split_nal_units_avcc data.

Definition SLASH : Z := 47.
Definition COLON : Z := 58.

Definition parse_rtmp_url (url : bytes) : bytes * bytes :=
  let rest := trim_start_matches (lit "rtmp://") url in
  match find_byte (Z.eqb SLASH) rest with
  | Some slash_pos =>
      let after_host := drop (S slash_pos) rest in
      match find_byte (Z.eqb SLASH) after_host with
      | Some second_slash => (take second_slash after_host, drop (S second_slash) after_host)
      | None => (after_host, [])
      end
  | None => (lit "live", lit "stream")
  end.

Definition parse_rtmp_host_port (url : bytes) : bytes * Z :=
  let rest := trim_start_matches (lit "rtmp://") url in
  let host_part := match find_byte (Z.eqb SLASH) rest with
                   | Some slash_pos => take slash_pos rest
                   | None => rest
                   end in
  match find_byte (Z.eqb COLON) host_part with
  | Some colon_pos =>
      (take colon_pos host_part, default 1935 (parse_u16 (drop (S colon_pos) host_part)))
  | None => (host_part, 1935)
  end.

Record RtmpOutput := mkOutput {
  url : bytes;
  app_name : bytes;
  stream_key : bytes;
  host : bytes;
  port : Z;
  client : option RtmpPushClient;
  started : bool;
  seq_header_sent : bool;
}.

Definition new (url : bytes) : RtmpOutput :=
  let '(app_name, stream_key) := parse_rtmp_url url in
  let '(host, port) := parse_rtmp_host_port url in
  mkOutput url app_name stream_key host port None false false.

Definition new_with_parts (host : bytes) (port : Z) (app stream : bytes) : RtmpOutput :=
  mkOutput (lit "rtmp://" ++ host ++ [COLON] ++ dec_of_Z port ++ [SLASH] ++ app ++ [SLASH] ++ stream)
    app stream host port None false false.

Definition set_state (c : option RtmpPushClient) (up sent : bool) (o : RtmpOutput) : RtmpOutput :=
  mkOutput (url o) (app_name o) (stream_key o) (host o) (port o) c up sent.

Section net.
(** [TcpStream::connect], and the clock of the handshake. *)
Context (dial : bytes → Z → Res Sock) (time : Z).

Definition start : ST RtmpOutput unit := λ o,
  if bool_decide (url o = []) then (Err "RtmpOutput URL must not be empty", o)
  else
    match dial (host o) (port o) with
    | Ok sock =>
        match connect time (sock, client_new (host o) (port o) (app_name o) (stream_key o)) with
        | (Ok _, (_, c)) => (Ok tt, set_state (Some c) true false o)
        | (Err e, _) => (Err e, o)
        | (Panic, _) => (Panic, o)
        | (OutOfFuel, _) => (OutOfFuel, o)
        end
    | Err e => (Err "Failed to connect to RTMP server", o)
    | Panic => (Panic, o)
    | OutOfFuel => (OutOfFuel, o)
    end.

Definition nal_type_is (t : Z) (n : bytes) : bool :=
  match n with b :: _ => Z.land b 0x1F =? t | [] => false end.

(** [client.send_video(data, ts).await?] on the client of the output. *)
Definition push (data : bytes) (ts : Z) : ST RtmpOutput unit := λ o,
  match client o with
  | None => (Err "RtmpOutput client not connected", o)
  | Some c =>
      let '(r, c') := send_video data ts c in
      (r, set_state (Some c') (started o) (seq_header_sent o) o)
  end.

Definition send_frame (frame : MediaFrame) : ST RtmpOutput unit :=
  match frame with
  | VideoFrame kf data timestamp =>
      let ts := wrap32 timestamp in
      up ← st_get started;
      if negb up then st_fail "RtmpOutput not started"
      else
        c ← st_get client;
        match c with
        | None => st_fail "RtmpOutput client not connected"
        | Some _ =>
            nal_units ← st_lift (parse_h264_nal_units data);
            if bool_decide (nal_units = []) then st_ret tt
            else
              sent ← st_get seq_header_sent;
              _ ← (if kf && negb sent then
                     _ ← match List.find (nal_type_is 7) nal_units,
                               List.find (nal_type_is 8) nal_units with
                         | Some sps, Some pps => push (build_video_sequence_header sps pps) ts
                         | _, _ => st_ret tt
                         end;
                     st_modify (λ o, set_state (client o) (started o) true o)
                   else st_ret tt);
              let avcc_data := flat_map (λ nal, to_be 4 (wrap32 (zlen nal)) ++ nal) nal_units in
              push (build_video_nalus avcc_data kf 0) ts
        end
  | AudioFrame _ _ => st_ret tt
  end.

(** [stop]: what [close] still writes is not kept. *)
Definition stop : ST RtmpOutput unit :=
  st_modify (λ o, set_state None false (seq_header_sent o) o).

#[global] Instance RtmpOutput_output : Output RtmpOutput := {
  output_start := start;
  Media.send_frame := send_frame;
  output_stop := stop;
}.
End net.
End RtmpOut.

(** ** What a client sees of the RTSP output *)
Section receiver.

(** A receiver in non-interleaved mode (RFC 6184): single NAL unit packets
    are delivered at once, FU-A packets are collected up to the one with the
    end bit.  It returns each unit with the timestamp and the marker of its
    last packet. *)
Definition fu_end_of (p : RtpPacket) : bool :=
  match payload p with _ :: h :: _ => fu_end (parse_fua_header h) | _ => false end.

Fixpoint receive (pending ps : list RtpPacket) : Res (list (bytes * Z * bool)) :=
  match ps with
  | [] => Ok []
  | p :: ps =>
      if is_fua (payload p) then
        if fu_end_of p then
          nal ← reassemble_fua (pending ++ [p]);
          more ← receive [] ps;
          Ok ((nal, timestamp p, marker (flags p)) :: more)
        else receive (pending ++ [p]) ps
      else
        more ← receive [] ps;
        Ok ((payload p, timestamp p, marker (flags p)) :: more)
  end.

(** [parse] on every packet. *)
Fixpoint parse_all (pkts : list bytes) : Res (list RtpPacket) :=
  match pkts with
  | [] => Ok []
  | d :: pkts => p ← Rtp.parse d; ps ← parse_all pkts; Ok (p :: ps)
  end.
End receiver.

Module RtspOutFacts.
Import RtspOut.

(** A packet without extension, contributing sources or padding. *)
Definition plain (m : bool) (seq ts src : Z) (pl : bytes) : RtpPacket :=
  mkPacket (mkFlags RTP_VERSION false false 0 m RTP_PT_H264) seq ts src [] None [] pl.

Lemma to_bytes_plain m seq ts src pl :
  to_bytes (plain m seq ts src pl) = rtp_header m seq ts src ++ pl.
Proof. by destruct m. Qed.

Lemma parse_plain m seq ts src pl :
  is_u16 seq → is_u32 ts → is_u32 src →
  Rtp.parse (to_bytes (plain m seq ts src pl)) = Ok (plain m seq ts src pl).
Proof.
  intros Hs Ht Hr. rewrite parse_layout; [done|].
  by split.
Qed.

(** The fragments of one unit, as packets. *)
Definition fu_packet (hdr : Z) (slice_ : bool) (n i seq ts src : Z) (chunk : bytes) : RtpPacket :=
  plain ((i =? n - 1) && slice_) seq ts src
    ([build_fua_indicator (nri_of hdr);
      build_fua_header (i =? 0) (i =? n - 1) (Z.land hdr 31)] ++ chunk).

Definition is_slice (hdr : Z) : bool := (Z.land hdr 31 =? 5) || (Z.land hdr 31 =? 1).

Lemma indicator_bits hdr : 0 ≤ hdr < 128 →
  Z.lor 28 (Z.land hdr 0x60) = build_fua_indicator (nri_of hdr).
Proof. intros. by_enum hdr 0 128. Qed.

Lemma fu_header_bits hdr (s e : bool) : 0 ≤ hdr < 128 →
  Z.lor (Z.lor (wrap8 (Z.shiftl (Z_of_bool s) 7)) (wrap8 (Z.shiftl (Z_of_bool e) 6))) (Z.land hdr 31)
  = build_fua_header s e (Z.land hdr 31).
Proof. intros. destruct s, e; by_enum hdr 0 128. Qed.

Abbreviation MF := (RTP_MAX_PAYLOAD - 2).

Lemma fua_loop_spec hdr ts src k : ∀ sent todo i seq fuel,
  0 ≤ hdr < 128 → 0 ≤ i → zlen sent = i * MF →
  zlen todo ≤ Z.of_nat k * MF → (Z.of_nat k - 1) * MF < zlen todo →
  (k < fuel)%nat → is_u16 seq →
  fua_loop (sent ++ todo) (Z.lor 28 (Z.land hdr 0x60)) (Z.land hdr 31) ts src (is_slice hdr)
    fuel (zlen sent) seq
  = Ok (map to_bytes (imap (λ j c, fu_packet hdr (is_slice hdr) (i + Z.of_nat k) (i + Z.of_nat j)
                ((seq + Z.of_nat j) mod 2 ^ 16) ts src c) (chunks MF k todo)),
        (seq + Z.of_nat k) mod 2 ^ 16).
Proof.
  induction k as [|k IH]; intros sent todo i seq fuel Hh Hi Hs Hle Hlt Hf Hseq;
    (destruct fuel as [|fuel]; [lia|]); cbn [fua_loop].
  - assert (zlen todo = 0) as Ht by (pose proof (zlen_nonneg todo); lia).
    rewrite zlen_app, Ht, (proj2 (Z.ltb_ge _ _)) by lia. cbn.
    rewrite Z.add_0_r, Z.mod_small by done. done.
  - assert (0 < zlen todo) as H0 by (unfold RTP_MAX_PAYLOAD in *; lia).
    rewrite zlen_app, (proj2 (Z.ltb_lt _ _)) by lia.
    set (m := Z.to_nat MF). set (ch := Z.min MF (zlen sent + zlen todo - zlen sent)).
    assert (zlen (take m todo) = ch) as Ht
      by (unfold m, ch, RTP_MAX_PAYLOAD, zlen in *; rewrite length_take; lia).
    assert (slice (sent ++ todo) (zlen sent) (zlen sent + ch) = Ok (take m todo)) as ->.
    { rewrite <-(take_drop m todo) at 1. apply slice_app_mid; [done|]. lia. }
    cbn [mbind Res_bind]. rewrite <-Ht, <-(zlen_app sent (take m todo)).
    assert (zlen (drop m todo) = Z.max 0 (zlen todo - MF)) as Hd
      by (unfold m, RTP_MAX_PAYLOAD, zlen in *; rewrite length_drop; lia).
    replace (sent ++ todo) with ((sent ++ take m todo) ++ drop m todo) at 1
      by by rewrite <-app_assoc, take_drop.
    assert ((zlen sent + zlen todo <=? zlen (sent ++ take m todo)) = (i =? i + Z.of_nat (S k) - 1))
      as Hlast.
    { apply eq_iff_eq_true. rewrite Z.leb_le, Z.eqb_eq, zlen_app, Ht. unfold ch, RTP_MAX_PAYLOAD in *.
      nia. }
    assert ((zlen sent =? 0) = (i =? 0)) as Hfirst
      by (apply eq_iff_eq_true; rewrite !Z.eqb_eq; unfold RTP_MAX_PAYLOAD in *; nia).
    destruct (Z.leb_spec (zlen todo) MF) as [Hsmall|Hbig].
    + (* the last fragment *)
      assert (k = 0%nat) as -> by (unfold RTP_MAX_PAYLOAD in *; nia).
      assert (drop m todo = []) as Hnil by (apply zlen_0; lia).
      destruct fuel as [|fuel]; [lia|]. cbn [fua_loop]. rewrite Hnil, app_nil_r.
      rewrite Z.ltb_irrefl. cbn [mbind Res_bind]. do 2 f_equal.
      cbn [chunks imap map]. f_equal. unfold fu_packet. rewrite to_bytes_plain.
      rewrite indicator_bits, fu_header_bits, Hfirst, Hlast by done.
      change (Z.of_nat 0) with 0. rewrite !Z.add_0_r, (Z.mod_small seq) by done. done.
    + assert (ch = MF) as Hch by (unfold ch; lia).
      rewrite (IH (sent ++ take m todo) (drop m todo) (i + 1)); [|done|lia| |lia|lia|lia|].
      2:{ rewrite zlen_app, Ht, Hch. unfold RTP_MAX_PAYLOAD in *. lia. }
      2:{ unfold wrap16. apply Z.mod_pos_bound. lia. }
      cbn [mbind Res_bind]. f_equal. f_equal.
      * cbn [chunks imap map]. fold m. f_equal.
        -- unfold fu_packet. rewrite to_bytes_plain, indicator_bits, fu_header_bits, Hfirst, Hlast by done.
           change (Z.of_nat 0) with 0. rewrite !Z.add_0_r, (Z.mod_small seq) by done. done.
        -- f_equal. apply imap_ext. intros j c _. cbn. unfold wrap16. rewrite Zplus_mod_idemp_l.
           f_equal; (lia || (f_equal; lia)).
      * unfold wrap16. rewrite Zplus_mod_idemp_l. f_equal. lia.
Qed.

(** A NAL unit that can be packetized: the forbidden bit clear, one of the
    types 1 to 23 that are not payload formats of their own. *)
Definition nal_ok (n : bytes) : Prop :=
  match n with
  | hdr :: _ => 0 ≤ hdr < 128 ∧ 1 ≤ Z.land hdr 31 ≤ 23
  | [] => False
  end.

(** The packets of a unit. *)
Definition packets_of (hdr : Z) (body : bytes) (seq ts src : Z) : list RtpPacket :=
  if zlen (hdr :: body) <=? RTP_MAX_PAYLOAD
  then [plain (is_slice hdr) seq ts src (hdr :: body)]
  else
    let n := div_ceil (zlen body) MF in
    imap (λ j c, fu_packet hdr (is_slice hdr) n (Z.of_nat j) ((seq + Z.of_nat j) mod 2 ^ 16) ts src c)
      (chunks MF (Z.to_nat n) body).

Lemma build_rtp_packets_spec hdr body seq ts src :
  nal_ok (hdr :: body) → is_u16 seq →
  build_rtp_packets (hdr :: body) seq ts src
  = Ok (map to_bytes (packets_of hdr body seq ts src),
        (seq + zlen (packets_of hdr body seq ts src)) mod 2 ^ 16).
Proof.
  intros [Hh Hty] Hs. unfold build_rtp_packets, packets_of.
  destruct (Z.leb_spec (zlen (hdr :: body)) RTP_MAX_PAYLOAD) as [Hle|Hgt].
  - cbn [map]. rewrite to_bytes_plain. done.
  - rewrite zlen_cons in Hgt. unfold RTP_MAX_PAYLOAD in Hgt.
    set (n := div_ceil (zlen body) MF).
    destruct (div_ceil_spec (zlen body) MF) as (Hn & Hle & Hlt); [lia | done |]. fold n in Hn, Hle, Hlt.
    pose proof (fua_loop_spec hdr ts src (Z.to_nat n) [] body 0 seq (S (length body))) as H.
    rewrite app_nil_l in H. rewrite Z2Nat.id in H by lia.
    change (zlen []) with 0 in H. unfold is_slice at 1 in H.
    rewrite H; [| done | lia | lia | lia | lia | | done].
    + rewrite Z.add_0_l. do 2 f_equal. unfold zlen at 1. rewrite length_imap, length_chunks. f_equal. lia.
    + clearbody n. unfold RTP_MAX_PAYLOAD, zlen in *. lia.
Qed.

Lemma packets_of_Forall (P : RtpPacket → Prop) hdr body seq ts src :
  is_u16 seq →
  (zlen (hdr :: body) ≤ RTP_MAX_PAYLOAD → P (plain (is_slice hdr) seq ts src (hdr :: body))) →
  (∀ i m s h c, is_u16 s → zlen c ≤ MF → s = (seq + Z.of_nat i) mod 2 ^ 16 →
     P (plain m s ts src ([build_fua_indicator (nri_of hdr); h] ++ c))) →
  Forall P (packets_of hdr body seq ts src).
Proof.
  intros Hs H1 H2. unfold packets_of. destruct (Z.leb_spec (zlen (hdr :: body)) RTP_MAX_PAYLOAD) as [Hle|Hgt].
  - constructor; [by apply H1 | done].
  - apply Forall_lookup. intros i p Hp. rewrite list_lookup_imap in Hp.
    destruct (chunks _ _ _ !! i) as [c|] eqn:E; [|done]. injection Hp as <-.
    apply (H2 i); [apply Z.mod_pos_bound; lia | | done].
    pose proof (chunks_bound MF (Z.to_nat (div_ceil (zlen body) MF)) body eq_refl) as Hb.
    rewrite Forall_lookup in Hb. by eapply Hb.
Qed.

Lemma parse_all_packets ps rest :
  Forall (λ p, Rtp.parse (to_bytes p) = Ok p) ps →
  parse_all (map to_bytes ps ++ rest) = (qs ← parse_all rest; Ok (ps ++ qs)).
Proof.
  induction 1 as [|p ps Hp Hps IH]; cbn [map app parse_all].
  - by destruct (parse_all rest).
  - rewrite Hp. cbn [mbind Res_bind]. rewrite IH. by destruct (parse_all rest).
Qed.

Lemma packets_parse hdr body seq ts src :
  is_u16 seq → is_u32 ts → is_u32 src →
  Forall (λ p, Rtp.parse (to_bytes p) = Ok p) (packets_of hdr body seq ts src).
Proof.
  intros Hs Ht Hr. apply packets_of_Forall; [done | intros; by apply parse_plain |].
  intros. by apply parse_plain.
Qed.

(** *** Reassembly depends on the payloads only *)
Lemma check_fragments_payload ind h n i ps ps' :
  map payload ps = map payload ps' → check_fragments ind h n i ps = check_fragments ind h n i ps'.
Proof.
  revert i ps'. induction ps as [|p ps IH]; intros i [|p' ps'] E; try done.
  injection E as E1 E2. cbn [check_fragments]. rewrite E1.
  destruct (zlen (payload p') <? 2); [done|].
  destruct (at_ (payload p') 0); try done. destruct (at_ (payload p') 1); try done.
  cbn [mbind Res_bind]. by rewrite (IH (i + 1) ps' E2).
Qed.

Lemma collect_fragments_payload ps ps' :
  map payload ps = map payload ps' → collect_fragments ps = collect_fragments ps'.
Proof.
  revert ps'. induction ps as [|p ps IH]; intros [|p' ps'] E; try done.
  injection E as E1 E2. cbn. by rewrite E1, (IH ps' E2).
Qed.

Lemma reassemble_payload ps ps' :
  map payload ps = map payload ps' → reassemble_fua ps = reassemble_fua ps'.
Proof.
  intros E. destruct ps as [|p ps], ps' as [|p' ps']; try done.
  assert (zlen (p :: ps) = zlen (p' :: ps')) as Hl.
  { apply (f_equal length) in E. rewrite !length_map in E. unfold zlen. by rewrite E. }
  pose proof (λ ind h n i, check_fragments_payload ind h n i _ _ E) as Hc.
  pose proof (collect_fragments_payload _ _ E) as Hk.
  injection E as E1 _. unfold reassemble_fua. rewrite E1, Hl, Hk.
  destruct (zlen (payload p') <? 2); [done|].
  destruct (at_ (payload p') 0); try done. destruct (at_ (payload p') 1); try done.
  cbn [mbind Res_bind]. by rewrite Hc.
Qed.

Lemma receive_fragments ps p pending rest :
  Forall (λ p, is_fua (payload p) = true ∧ fu_end_of p = false) ps →
  is_fua (payload p) = true → fu_end_of p = true →
  receive pending (ps ++ p :: rest)
  = (nal ← reassemble_fua (pending ++ ps ++ [p]); more ← receive [] rest;
     Ok ((nal, timestamp p, marker (flags p)) :: more)).
Proof.
  revert pending. induction ps as [|q ps IH]; intros pending Hps Hp He; cbn [app receive].
  - by rewrite Hp, He.
  - apply Forall_cons in Hps as [[Hq Hqe] Hps]. rewrite Hq, Hqe, IH by done.
    by rewrite <-app_assoc.
Qed.

Lemma fu_packet_fua hdr s n i seq ts src c :
  0 ≤ nri_of hdr < 4 → 0 ≤ Z.land hdr 31 < 32 →
  is_fua (payload (fu_packet hdr s n i seq ts src c)) = true
  ∧ fu_end_of (fu_packet hdr s n i seq ts src c) = (i =? n - 1).
Proof.
  intros Hnri Hty. split.
  - unfold is_fua, first_type. cbn. generalize dependent (nri_of hdr). intros x Hx. by_enum x 0 4.
  - unfold fu_end_of. cbn [fu_packet plain payload app]. by rewrite build_parse_header.
Qed.

(** The receiver gets the unit back. *)
Lemma receive_packets hdr body seq ts src rest :
  nal_ok (hdr :: body) → is_u16 seq →
  receive [] (packets_of hdr body seq ts src ++ rest)
  = (more ← receive [] rest; Ok ((hdr :: body, ts, is_slice hdr) :: more)).
Proof.
  intros [Hh Hty] Hs. unfold packets_of.
  destruct (Z.leb_spec (zlen (hdr :: body)) RTP_MAX_PAYLOAD) as [Hle|Hgt].
  { cbn [app receive plain payload]. unfold is_fua, first_type.
    by rewrite (proj2 (Z.eqb_neq _ _)) by lia. }
  rewrite zlen_cons in Hgt. unfold RTP_MAX_PAYLOAD in Hgt.
  set (n := div_ceil (zlen body) MF).
  destruct (div_ceil_spec (zlen body) MF) as (Hn & Hle & Hlt); [lia | done |]. fold n in Hn, Hle, Hlt.
  destruct (header_byte_rebuild hdr Hh) as (Hr & Hnri & Hty').
  set (f := λ j : nat, (seq + Z.of_nat j) mod 2 ^ 16).
  set (g := λ (j : nat) c, fu_packet hdr (is_slice hdr) n (Z.of_nat j) (f j) ts src c).
  set (cs := chunks MF (Z.to_nat n) body).
  assert (length cs = Z.to_nat n) as Hlen by apply length_chunks.
  change (imap _ cs) with (imap g cs).
  destruct (exists_last (l := cs)) as (cs' & c & Ecs);
    [intros Hnil; rewrite Hnil in Hlen; cbn in Hlen; lia|].
  assert (length cs' = Z.to_nat n - 1)%nat as Hlen'
    by (rewrite Ecs, length_app in Hlen; cbn in Hlen; lia).
  assert (imap g cs = imap g cs' ++ [g (length cs') c]) as Eimap
    by (rewrite Ecs, imap_app; cbn; by rewrite Nat.add_0_r).
  rewrite Eimap, <-app_assoc. cbn [app]. rewrite receive_fragments.
  - rewrite app_nil_l, <-Eimap.
    rewrite (reassemble_payload _ (imap (λ j c, fragment (nri_of hdr) (Z.land hdr 31) 96 ts src n
               (Z.of_nat j) (f j) c) cs)).
    + rewrite check_fua_ok; [|done|done|unfold zlen; lia|].
      * cbn [mbind Res_bind]. rewrite Hr. unfold cs at 1. rewrite concat_chunks by lia.
        cbn [g fu_packet plain timestamp flags marker].
        replace (Z.of_nat (length cs') =? n - 1) with true by lia. done.
      * intros E. rewrite E in Hlen. cbn in Hlen. lia.
    + unfold g. apply list_eq. intros i.
      rewrite !list_lookup_fmap, !list_lookup_imap. by destruct (cs !! i).
  - apply Forall_lookup. intros i p Hp. rewrite list_lookup_imap in Hp.
    destruct (cs' !! i) as [c'|] eqn:E; [|done]. injection Hp as <-.
    apply lookup_lt_Some in E. unfold g.
    destruct (fu_packet_fua hdr (is_slice hdr) n (Z.of_nat i) (f i) ts src c' Hnri Hty') as [H1 H2].
    split; [done|]. rewrite H2. apply Z.eqb_neq. lia.
  - by apply fu_packet_fua.
  - unfold g. destruct (fu_packet_fua hdr (is_slice hdr) n (Z.of_nat (length cs')) (f (length cs'))
      ts src c Hnri Hty') as [_ ->]. apply Z.eqb_eq. lia.
Qed.

(** *** What a run of packets carries *)

(** The packets [ps] on the wire: numbered from [start], within the size
    limit, read back as themselves, and received as [out]. *)
Record carries (start src : Z) (ps : list RtpPacket) (out : list (bytes * Z * bool)) : Prop := {
  car_numbered i p : ps !! i = Some p →
    sequence_number p = (start + Z.of_nat i) mod 2 ^ 16 ∧ Rtp.ssrc p = src
    ∧ zlen (to_bytes p) ≤ 12 + RTP_MAX_PAYLOAD;
  car_parse : Forall (λ p, Rtp.parse (to_bytes p) = Ok p) ps;
  car_receive rest : receive [] (ps ++ rest) = (more ← receive [] rest; Ok (out ++ more));
}.

Lemma carries_nil start src : carries start src [] [].
Proof. split; [done | constructor |]. intros rest. cbn. by destruct (receive [] rest). Qed.

Lemma carries_app start src ps qs out out' :
  carries start src ps out →
  carries ((start + zlen ps) mod 2 ^ 16) src qs out' → carries start src (ps ++ qs) (out ++ out').
Proof.
  intros [N1 P1 R1] [N2 P2 R2]. split.
  - intros i p Hp. apply lookup_app_Some in Hp as [Hp|[Hi Hp]]; [by apply N1|].
    destruct (N2 _ _ Hp) as (-> & Hs & Hz). split; [|done]. rewrite Zplus_mod_idemp_l. f_equal.
    unfold zlen. lia.
  - by apply Forall_app.
  - intros rest. rewrite <-app_assoc, R1, R2. destruct (receive [] rest); cbn; [|done..].
    by rewrite <-app_assoc.
Qed.

Lemma plain_size hdr nal m s ts src :
  zlen (hdr :: nal) ≤ RTP_MAX_PAYLOAD → zlen (to_bytes (plain m s ts src (hdr :: nal))) ≤ 12 + RTP_MAX_PAYLOAD.
Proof.
  intros H. rewrite to_bytes_plain, zlen_app. unfold rtp_header.
  rewrite !zlen_app, !zlen_to_be. change (zlen [_; _]) with 2. lia.
Qed.

Lemma carries_nal hdr body seq ts src :
  nal_ok (hdr :: body) → is_u16 seq → is_u32 ts → is_u32 src →
  carries seq src (packets_of hdr body seq ts src) [(hdr :: body, ts, is_slice hdr)].
Proof.
  intros Hn Hs Ht Hr. split.
  - intros i p Hp. unfold packets_of in Hp.
    destruct (Z.leb_spec (zlen (hdr :: body)) RTP_MAX_PAYLOAD) as [Hle|Hgt].
    + destruct i; [|done]. injection Hp as <-. cbn [plain sequence_number Rtp.ssrc].
      rewrite Z.add_0_r, Z.mod_small by done. split_and!; [done..|]. by apply plain_size.
    + rewrite list_lookup_imap in Hp. set (k := Z.to_nat _) in Hp.
      destruct (chunks MF k body !! i) as [c|] eqn:E; [|done]. injection Hp as <-.
      split_and!; [done..|]. pose proof (chunks_bound MF k body eq_refl) as Hb.
      rewrite Forall_lookup in Hb. specialize (Hb i c E). unfold fu_packet.
      apply plain_size. rewrite !zlen_cons. cbn [app]. unfold RTP_MAX_PAYLOAD in *. lia.
  - by apply packets_parse.
  - intros rest. by rewrite receive_packets.
Qed.

(** *** The output, frame by frame *)
Definition nal_type_of (n : bytes) : Z := match n with b :: _ => Z.land b 0x1f | [] => 0 end.
Definition slice_type (n : bytes) : bool := (nal_type_of n =? 5) || (nal_type_of n =? 1).

(** What a client is to receive: before each type 1 unit the parameter sets
    cached so far, every unit with the timestamp of its access unit, and the
    marker on the slices. *)
Fixpoint expected (sps pps : option bytes) (ts : Z) (nals : list bytes) : list (bytes * Z * bool) :=
  match nals with
  | [] => []
  | n :: nals =>
      let sps := if nal_type_of n =? 7 then Some n else sps in
      let pps := if nal_type_of n =? 8 then Some n else pps in
      (if nal_type_of n =? 1
       then map (λ x, (x, ts, false)) (option_list sps ++ option_list pps) else [])
      ++ (n, ts, slice_type n)
      :: expected sps pps (if slice_type n then wrap32 (ts + 3000) else ts) nals
  end.

(** An output that is delivering. *)
Definition cached_ok (ty : Z) (c : option bytes) : Prop :=
  match c with Some n => nal_ok n ∧ nal_type_of n = ty | None => True end.

Record delivering (o : RtspOutput) (sent : list bytes) : Prop := {
  dl_started : started o = true;
  dl_tx : frame_tx o = Some sent;
  dl_seq : is_u16 (rtp_seq o);
  dl_ts : is_u32 (rtp_timestamp o);
  dl_ssrc : is_u32 (ssrc o);
  dl_sps : cached_ok 7 (cached_sps o);
  dl_pps : cached_ok 8 (cached_pps o);
}.

Definition advance (ps : list RtpPacket) (o : RtspOutput) : RtspOutput :=
  set_rtp ((rtp_seq o + zlen ps) mod 2 ^ 16) (rtp_timestamp o) ((.++ map to_bytes ps) <$> frame_tx o) o.

Lemma advance_app ps qs o : advance (ps ++ qs) o = advance qs (advance ps o).
Proof.
  unfold advance, set_rtp; cbn. rewrite map_app, zlen_app, Zplus_mod_idemp_l.
  f_equal; [|f_equal; lia]. destruct (frame_tx o); cbn; [|done]. by rewrite app_assoc.
Qed.

Lemma advance_nil o sent : delivering o sent → advance [] o = o.
Proof.
  intros [_ Htx Hs _ _ _ _]. unfold advance, set_rtp. rewrite Htx. cbn. rewrite app_nil_r, Z.add_0_r.
  rewrite Z.mod_small by exact Hs. rewrite <-Htx. by destruct o.
Qed.

Lemma delivering_advance o sent ps :
  delivering o sent → delivering (advance ps o) (sent ++ map to_bytes ps).
Proof.
  intros [? Htx ? ? ? ? ?]. split; cbn; try done; [by rewrite Htx|]. apply Z.mod_pos_bound. lia.
Qed.

Lemma send_nal_spec n ts o sent :
  nal_ok n → is_u32 ts → delivering o sent →
  ∃ ps, send_nal n ts o = (Ok tt, advance ps o)
      ∧ carries (rtp_seq o) (ssrc o) ps [(n, ts, slice_type n)].
Proof.
  intros Hn Ht Ho. destruct n as [|hdr body]; [done|].
  exists (packets_of hdr body (rtp_seq o) ts (ssrc o)). destruct Ho as [? Htx Hs ? Hr ? ?].
  split; [|by apply carries_nal]. unfold send_nal. by rewrite build_rtp_packets_spec.
Qed.

Lemma send_cached_spec ty c ts o sent :
  cached_ok ty c → ty ≠ 1 → ty ≠ 5 → is_u32 ts → delivering o sent →
  ∃ ps, send_cached c ts o = (Ok tt, advance ps o)
      ∧ carries (rtp_seq o) (ssrc o) ps (map (λ x, (x, ts, false)) (option_list c)).
Proof.
  intros Hc H1 H5 Ht Ho. destruct c as [n|]; cbn.
  - destruct Hc as [Hn Hty]. destruct (send_nal_spec n ts o sent Hn Ht Ho) as (ps & E & Hps).
    exists ps. split; [done|]. replace false with (slice_type n); [done|].
    unfold slice_type. rewrite Hty. by rewrite !(proj2 (Z.eqb_neq _ _)).
  - exists []. split; [by rewrite (advance_nil o sent) | apply carries_nil].
Qed.

Lemma cache_delivering n o sent :
  nal_ok n → delivering o sent →
  let o' := cache_parameter_set (nal_type_of n) n o in
  delivering o' sent ∧ rtp_seq o' = rtp_seq o ∧ rtp_timestamp o' = rtp_timestamp o ∧ ssrc o' = ssrc o
  ∧ cached_sps o' = (if nal_type_of n =? 7 then Some n else cached_sps o)
  ∧ cached_pps o' = (if nal_type_of n =? 8 then Some n else cached_pps o).
Proof.
  intros Hn [? ? ? ? ? ? ?]. unfold cache_parameter_set.
  destruct (Z.eqb_spec (nal_type_of n) 7) as [H7|H7]; [|destruct (Z.eqb_spec (nal_type_of n) 8) as [H8|H8]].
  - rewrite H7. cbn. destruct (match cached_pps o with Some _ => _ | None => _ end) as [tx s].
    split_and!; (done || by split).
  - cbn. destruct (match cached_sps o with Some _ => _ | None => _ end) as [tx s].
    split_and!; (done || by split).
  - split_and!; (done || by split).
Qed.

Lemma send_frame_spec kf n t o sent :
  nal_ok n → delivering o sent →
  ∃ ps o' pre, send_frame (VideoFrame kf n t) o = (Ok tt, o')
    ∧ delivering o' (sent ++ map to_bytes ps)
    ∧ carries (rtp_seq o) (ssrc o) ps (pre ++ [(n, rtp_timestamp o, slice_type n)])
    ∧ rtp_seq o' = (rtp_seq o + zlen ps) mod 2 ^ 16 ∧ ssrc o' = ssrc o
    ∧ cached_sps o' = (if nal_type_of n =? 7 then Some n else cached_sps o)
    ∧ cached_pps o' = (if nal_type_of n =? 8 then Some n else cached_pps o)
    ∧ rtp_timestamp o' = (if slice_type n then wrap32 (rtp_timestamp o + 3000) else rtp_timestamp o)
    ∧ pre = (if nal_type_of n =? 1
             then map (λ x, (x, rtp_timestamp o, false))
                    (option_list (cached_sps o') ++ option_list (cached_pps o')) else []).
Proof.
  intros Hn Ho. destruct (cache_delivering n o sent Hn Ho) as (Hc & Hseq & Hts & Hsrc & Hsps & Hpps).
  set (oc := cache_parameter_set (nal_type_of n) n o) in *.
  assert (∃ ps1 pre, (if nal_type_of n =? 1 then
                   sps ← st_get cached_sps;
                   _ ← send_cached sps (rtp_timestamp o);
                   pps ← st_get cached_pps;
                   send_cached pps (rtp_timestamp o)
                 else st_ret tt) oc = (Ok tt, advance ps1 oc)
          ∧ carries (rtp_seq oc) (ssrc oc) ps1 pre
          ∧ pre = (if nal_type_of n =? 1 then map (λ x, (x, rtp_timestamp o, false))
                    (option_list (cached_sps oc) ++ option_list (cached_pps oc)) else []))
    as (ps1 & pre & E1 & C1 & Epre).
  { destruct (nal_type_of n =? 1).
    - destruct (send_cached_spec 7 (cached_sps oc) (rtp_timestamp o) oc sent) as (p1 & X1 & Y1);
        [apply Hc | done | done | apply Ho | done |].
      pose proof (delivering_advance oc sent p1 Hc) as Ha.
      destruct (send_cached_spec 8 (cached_pps (advance p1 oc)) (rtp_timestamp o) (advance p1 oc)
          (sent ++ map to_bytes p1))
        as (p2 & X2 & Y2); [apply Ha | done | done | apply Ho | exact Ha |].
      exists (p1 ++ p2). eexists. split; [|split; [|reflexivity]].
      + st_next (reflexivity). st_next (exact X1). st_next (reflexivity). rewrite X2.
        by rewrite advance_app.
      + rewrite map_app. by apply carries_app.
    - exists [], []. split; [by rewrite (advance_nil oc sent)|]. split; [apply carries_nil | done]. }
  pose proof (delivering_advance oc sent ps1 Hc) as Ha.
  destruct (send_nal_spec n (rtp_timestamp o) (advance ps1 oc) _ Hn (dl_ts _ _ Ho) Ha)
    as (ps2 & E2 & C2).
  pose proof (delivering_advance _ _ ps2 Ha) as Ha2. rewrite <-app_assoc, <-map_app in Ha2.
  rewrite <-advance_app in Ha2, E2.
  set (oa := advance (ps1 ++ ps2) oc) in *.
  set (fin := if (nal_type_of n =? 1) || (nal_type_of n =? 5)
              then set_rtp (rtp_seq oa) (wrap32 (rtp_timestamp oa + 3000)) (frame_tx oa) oa else oa).
  assert (send_frame (VideoFrame kf n t) o = (Ok tt, fin)) as E.
  { unfold send_frame. st_next (reflexivity). rewrite (dl_started _ _ Ho). cbn [negb].
    st_next (reflexivity). rewrite (dl_tx _ _ Ho). st_next (reflexivity).
    fold (nal_type_of n). fold oc. st_next (reflexivity). rewrite Hts.
    st_next (exact E1). st_next (exact E2). fold oa. unfold fin.
    by destruct ((nal_type_of n =? 1) || (nal_type_of n =? 5)). }
  exists (ps1 ++ ps2), fin, pre.
  assert (rtp_timestamp oa = rtp_timestamp o) as Hta by exact Hts.
  assert (slice_type n = (nal_type_of n =? 1) || (nal_type_of n =? 5)) as Hsl by apply orb_comm.
  split; [exact E|]. split.
  { unfold fin. destruct (_ || _); [|exact Ha2]. destruct Ha2. split; try done. cbn.
    unfold wrap32. apply Z.mod_pos_bound. lia. }
  rewrite <-Hseq, <-Hsrc. split; [by apply carries_app|].
  unfold fin. rewrite Hsl, <-Hta.
  destruct ((nal_type_of n =? 1) || (nal_type_of n =? 5)); split_and!.
  all: try (exact Hsps || exact Hpps || done); rewrite Hta; exact Epre.
Qed.

(** The frames of a list of units with any timestamps and flags. *)
Definition carries_units (fs : list MediaFrame) (nals : list bytes) : Prop :=
  Forall2 (λ f n, ∃ kf t, f = VideoFrame kf n t) fs nals.

Lemma send_all_spec fs nals o sent :
  carries_units fs nals → Forall nal_ok nals → delivering o sent →
  ∃ ps o', send_all fs o = (Ok tt, o') ∧ delivering o' (sent ++ map to_bytes ps)
    ∧ carries (rtp_seq o) (ssrc o) ps (expected (cached_sps o) (cached_pps o) (rtp_timestamp o) nals).
Proof.
  intros Hf. revert o sent. induction Hf as [|f n fs nals (kf & t & ->) Hf IH]; intros o sent Hn Ho.
  - exists [], o. cbn. rewrite app_nil_r. split_and!; [done | done | apply carries_nil].
  - apply Forall_cons in Hn as [Hn Hns].
    destruct (send_frame_spec kf n t o sent Hn Ho)
      as (ps & o1 & pre & E & H1 & C & Hseq & Hsrc & Hsps & Hpps & Hts & Hpre).
    destruct (IH o1 _ Hns H1) as (qs & o2 & E2 & H2 & C2).
    exists (ps ++ qs), o2. split; [|split].
    + cbn [send_all]. st_next (exact E). exact E2.
    + by rewrite map_app, app_assoc.
    + cbn [expected]. rewrite <-Hsps, <-Hpps, <-Hts, <-Hpre.
      change ((n, rtp_timestamp o, slice_type n) :: ?l) with ([(n, rtp_timestamp o, slice_type n)] ++ l).
      rewrite app_assoc. apply carries_app; [done|]. by rewrite <-Hseq, <-Hsrc.
Qed.
End RtspOutFacts.

(** A frame of the capture source: one NAL unit of the encoder. *)
Definition frame_of_nal (nal : Encoder.NalUnit) (timestamp : Z) : MediaFrame :=
  VideoFrame (Encoder.is_keyframe nal) (Encoder.data nal) timestamp.

Module RtmpOutFacts.
Import RtmpOut.

Lemma is_annex_b_no_code d : is_annex_b d = negb (no_code d).
Proof.
  induction d as [|b0 d IH]; [done|]. destruct d as [|b1 [|b2 d]]; [done|done|].
  cbn [is_annex_b no_code] in *. rewrite IH. by rewrite negb_andb, negb_involutive.
Qed.

Lemma parse_units_annexb nals :
  nals ≠ [] → Forall (λ n, n ≠ []) nals → Forall (λ n, no_code n = true) nals →
  parse_h264_nal_units (annexb nals) = Ok nals.
Proof.
  intros Hne H1 H2. unfold parse_h264_nal_units. destruct nals as [|n nals]; [done|].
  rewrite (proj2 (Z.ltb_ge _ _)).
  - assert (is_annex_b (annexb (n :: nals)) = true) as -> by done.
    by apply split_annexb.
  - change (annexb (n :: nals)) with (start_code ++ n ++ annexb nals). unfold start_code. zsolve.
Qed.

(** A unit as the capture source emits it: no start code in it, four bytes at
    least and less than 16 MB, the header byte not zero. *)
Definition capture_unit (n : bytes) : Prop :=
  Encoder.unit_ok n ∧ bytes_ok n ∧ 4 ≤ zlen n < 2 ^ 24 ∧ head n ≠ Some 0.

Lemma parse_units_capture n : capture_unit n → parse_h264_nal_units n = Ok [].
Proof.
  intros ((_ & Hnc & _) & Hb & Hl & Hh). unfold parse_h264_nal_units.
  rewrite (proj2 (Z.ltb_ge _ _)) by lia. rewrite is_annex_b_no_code, Hnc. cbn [negb].
  destruct n as [|a [|b [|c [|d tl]]]]; try (exfalso; revert Hl; rewrite ?zlen_cons, zlen_nil; lia).
  unfold split_nal_units_avcc. cbn [avcc_loop].
  rewrite (proj2 (Z.leb_le _ _)) by lia.
  change (be_at 4 (a :: b :: c :: d :: tl) 0) with (Ok (from_be [a; b; c; d])).
  cbn [mbind Res_bind]. rewrite !bytes_ok_cons in Hb. destruct Hb as (Ha & Hb & Hc & Hd & _).
  unfold is_byte in *. cbn in Hh.
  assert (2 ^ 24 ≤ from_be [a; b; c; d]) as Hbig.
  { unfold from_be; cbn. assert (a ≠ 0) by congruence. lia. }
  rewrite (proj2 (Z.eqb_neq _ _)), (proj2 (Z.ltb_lt _ _)) by lia. done.
Qed.

(** A connected output. *)
Definition connected (o : RtmpOutput) : Prop := started o = true ∧ client o ≠ None.

Lemma send_frame_connected kf data ts o :
  connected o →
  RtmpOut.send_frame (VideoFrame kf data ts) o
  = (nal_units ← st_lift (parse_h264_nal_units data);
     if bool_decide (nal_units = []) then st_ret tt
     else
       sent ← st_get seq_header_sent;
       _ ← (if kf && negb sent then
              _ ← match List.find (nal_type_is 7) nal_units,
                        List.find (nal_type_is 8) nal_units with
                  | Some sps, Some pps =>
                      push (build_video_sequence_header sps pps) (wrap32 ts)
                  | _, _ => st_ret tt
                  end;
              st_modify (λ o, set_state (client o) (started o) true o)
            else st_ret tt);
       push (build_video_nalus (flat_map (λ nal, to_be 4 (wrap32 (zlen nal)) ++ nal) nal_units) kf 0)
         (wrap32 ts)) o.
Proof.
  intros [Hs Hc]. unfold send_frame. st_next (reflexivity). rewrite Hs. cbn [negb].
  st_next (reflexivity). by destruct (client o).
Qed.

Lemma send_capture_unit kf n ts o :
  capture_unit n → connected o → RtmpOut.send_frame (VideoFrame kf n ts) o = (Ok tt, o).
Proof.
  intros Hn Ho. rewrite send_frame_connected by done.
  st_next (apply st_lift_ok; by apply parse_units_capture). done.
Qed.

Lemma avcc_wrap nals :
  Forall (λ n, zlen n < 2 ^ 32) nals →
  flat_map (λ nal, to_be 4 (wrap32 (zlen nal)) ++ nal) nals = avcc nals.
Proof.
  unfold avcc. induction 1 as [|n nals Hn Hns IH]; [done|]. cbn [flat_map]. rewrite IH. unfold wrap32.
  pose proof (zlen_nonneg n). by rewrite Z.mod_small by lia.
Qed.
End RtmpOutFacts.

(** What the RTMP output pushes.  A frame of NAL units in Annex B form is
    sent as one message with the same units in AVCC form; a first keyframe
    without both parameter sets counts as having sent the sequence header, so
    that none is ever sent.  But the frames of the capture source are
    single units without start code, which the output takes for AVCC with the
    first four bytes as a length: of everything the encoder produces, nothing
    is sent. *)
Theorem rtmp_output_annexb_only dial time o :
  RtmpOutFacts.connected o →
  (∀ us kf nals tss,
     Forall (λ u, RtmpOutFacts.capture_unit u.2) us →
     Encoder.split_annex_b_to_nals (Encoder.byte_stream us) kf = Ok nals →
     length nals = length us
     ∧ @send_all _ (RtmpOut.RtmpOutput_output dial time) (zip_with frame_of_nal nals tss) o = (Ok tt, o))
  ∧ (∀ nals kf ts,
     nals ≠ [] → Forall (λ n, n ≠ [] ∧ no_code n = true ∧ zlen n < 2 ^ 32) nals →
     ∃ payload, extract_h264_nal_units payload = Ok nals
       ∧ (kf && negb (RtmpOut.seq_header_sent o) = false →
          RtmpOut.send_frame (VideoFrame kf (annexb nals) ts) o = RtmpOut.push payload (wrap32 ts) o)
       ∧ (kf && negb (RtmpOut.seq_header_sent o) = true →
          List.find (RtmpOut.nal_type_is 7) nals = None ∨ List.find (RtmpOut.nal_type_is 8) nals = None →
          RtmpOut.send_frame (VideoFrame kf (annexb nals) ts) o
          = RtmpOut.push payload (wrap32 ts)
              (RtmpOut.set_state (RtmpOut.client o) (RtmpOut.started o) true o))).
Proof.
  intros Ho. split.
  - intros us kf nals tss Hus E.
    rewrite Encoder.split_byte_stream in E by (eapply Forall_impl; [exact Hus | intros u Hu; apply Hu]).
    injection E as <-. split; [by rewrite length_map|]. revert tss.
    induction Hus as [|[long n] us Hu Hus IH]; intros [|t tss]; try done.
    cbn [map zip_with send_all]. st_next (by apply RtmpOutFacts.send_capture_unit). apply IH.
  - intros nals kf ts Hne Hn.
    assert (Forall (λ n, n ≠ []) nals ∧ Forall (λ n, no_code n = true) nals
            ∧ Forall (λ n, zlen n < 2 ^ 32) nals) as (H1 & H2 & H3)
      by (rewrite <-!Forall_and; exact Hn).
    exists (build_video_nalus (avcc nals) kf 0). split; [by apply extract_build_nalus|].
    rewrite RtmpOutFacts.send_frame_connected by done.
    split; [intros Hk | intros Hk Hfind];
      (st_next (apply st_lift_ok; by apply RtmpOutFacts.parse_units_annexb));
      rewrite bool_decide_eq_false_2 by done; st_next (reflexivity); rewrite Hk;
      rewrite RtmpOutFacts.avcc_wrap by done.
    + st_next (reflexivity). done.
    + destruct (List.find (RtmpOut.nal_type_is 7) nals); [|st_next (reflexivity); done].
      destruct (List.find (RtmpOut.nal_type_is 8) nals); [by destruct Hfind|].
      st_next (reflexivity). done.
Qed.

(** A connected output with nothing written yet. *)
Definition sample_rtmp_output : RtmpOut.RtmpOutput :=
  RtmpOut.set_state
    (Some (set_stream (Some (mkSock [] [])) (client_new (lit "h") 1935 (lit "live") (lit "s"))))
    true false (RtmpOut.new (lit "rtmp://h/live/s")).

Lemma rtmp_output_annexb_only_witness :
  let us := [(true, [0x67; 0x42; 0xC0; 0x1E]); (false, [0x65; 1; 2; 3; 4])] in
  ∃ nals, Encoder.split_annex_b_to_nals (Encoder.byte_stream us) true = Ok nals
  ∧ nals ≠ []
  ∧ @send_all _ (RtmpOut.RtmpOutput_output (λ _ _, Err "x") 0) (zip_with frame_of_nal nals [0; 1])
      sample_rtmp_output = (Ok tt, sample_rtmp_output).
Proof.
  eexists. split; [vm_compute; reflexivity|]. split; [discriminate|].
  destruct (rtmp_output_annexb_only (λ _ _, Err "x") 0 sample_rtmp_output) as [H _].
  { split; [reflexivity | vm_compute; discriminate]. }
  eapply (H [(true, [0x67; 0x42; 0xC0; 0x1E]); (false, [0x65; 1; 2; 3; 4])] true).
  - assert (∀ n, bool_decide (n ≠ [] ∧ no_code n = true ∧ last n ≠ Some 0) = true →
      bool_decide (Forall (λ b, 0 ≤ b < 256) n) = true → 4 ≤ zlen n < 2 ^ 24 → head n ≠ Some 0 →
      RtmpOutFacts.capture_unit n) as Hc.
    { intros n H1%bool_decide_eq_true H2%bool_decide_eq_true H3 H4. split; [exact H1 | split; [exact H2 | by split]]. }
    apply Forall_cons; split; [|apply Forall_cons; split; [|done]];
      (apply Hc; [vm_compute; reflexivity | vm_compute; reflexivity
        | cbn [snd]; rewrite !zlen_cons, zlen_nil; lia | vm_compute; discriminate]).
  - vm_compute. reflexivity.
Defined.
