(* ===== verification/Live.v ===== *)
(** * Live delivery from end to end

    The composition of the encoder's byte stream, the frames of the capture
    source, the RTSP output and the delivery loop of an RTSP connection: what
    a client decodes from the bytes on its socket. *)
From Stdlib Require Import ZArith Lia List Bool String.
From stdpp Require Import base option numbers gmap.
From S2P Require Import Prelude H264 Rtp Text RtspAuth RtspFraming RtspServer Media Outputs.
Import RtspOutFacts.

(** The interleaved frames on the wire (RFC 2326, 10.12). *)
Fixpoint deinterleave (fuel : nat) (wire : bytes) : option (list (Z * bytes)) :=
  match fuel, wire with
  | S fuel, dollar :: channel :: hi :: lo :: rest =>
      if dollar =? 0x24 then
        let n := Z.to_nat (256 * hi + lo) in
        if (n <=? length rest)%nat
        then more ← deinterleave fuel (drop n rest); Some ((channel, take n rest) :: more)
        else None
      else None
  | _, [] => Some []
  | _, _ => None
  end.

Definition on_wire (channel : Z) (pkts : list bytes) : bytes :=
  concat (List.map (frame_bytes channel) pkts).

Lemma deinterleave_on_wire channel pkts fuel :
  Forall (λ d, zlen d ≤ 65535) pkts → (length (on_wire channel pkts) < fuel)%nat →
  deinterleave fuel (on_wire channel pkts) = Some (List.map (pair channel) pkts).
Proof.
  revert fuel. induction pkts as [|d pkts IH]; intros fuel Hd Hf; (destruct fuel as [|fuel]; [lia|]);
    [done|].
  apply Forall_cons in Hd as [Hd Hds].
  assert (on_wire channel (d :: pkts)
    = 0x24 :: channel :: (zlen d / 256) mod 256 :: (zlen d / 1) mod 256 :: d ++ on_wire channel pkts)
    as E by done.
  rewrite E in Hf |- *. cbn [deinterleave Z.eqb Pos.eqb]. cbn [length] in Hf. rewrite length_app in Hf.
  assert (Z.to_nat (256 * ((zlen d / 256) mod 256) + (zlen d / 1) mod 256) = length d) as ->.
  { pose proof (zlen_nonneg d). rewrite Z.div_1_r, (Z.mod_small (zlen d / 256)) by dm_lia.
    rewrite <-Z.div_mod by lia. apply length_zlen. }
  rewrite (proj2 (Nat.leb_le _ _)) by (rewrite length_app; lia).
  rewrite drop_app_length, take_app_length, IH by (done || lia). done.
Qed.

(** Frames arrive less than five seconds apart ([steady] without the bound on
    their size). *)
Fixpoint paced (t : Z) (es : list Event) : Prop :=
  match es with
  | [] => True
  | EvFrame _ now :: es => paced now es
  | EvTimer _ now :: es => now - t < 5000 ∧ paced t es
  | _ => False
  end.

Lemma paced_steady es t :
  paced t es → Forall (λ d, zlen d ≤ 65535) (frames_of es) → steady t es.
Proof.
  revert t. induction es as [|[| | |data now| | |ntp now] es IH]; intros t Hp Hf; try done; cbn in *.
  - apply Forall_cons in Hf as [Hd Hf]. split; [done|]. by apply IH.
  - destruct Hp as [Ht Hp]. split; [done|]. by apply IH.
Qed.

(** What is asked of the encoder's units: NAL units of the types 1 to 23. *)
Definition live_unit (n : bytes) : Prop := Encoder.unit_ok n ∧ nal_ok n.

Lemma carries_facts start src ps out :
  carries start src ps out →
  parse_all (List.map to_bytes ps) = Ok ps ∧ receive [] ps = Ok out
  ∧ Forall (λ d, zlen d ≤ 65535) (List.map to_bytes ps).
Proof.
  intros [Hn Hp Hr]. split_and!.
  - pose proof (parse_all_packets ps [] Hp) as H. rewrite app_nil_r in H. rewrite H. cbn.
    by rewrite app_nil_r.
  - specialize (Hr []). rewrite app_nil_r in Hr. rewrite Hr. cbn. by rewrite app_nil_r.
  - apply Forall_map, Forall_lookup. intros i p Hi. destruct (Hn i p Hi) as (_ & _ & Hz).
    change (zlen (to_bytes p) ≤ 65535). unfold RtspOut.RTP_MAX_PAYLOAD in Hz. lia.
Qed.

Lemma frames_carry (us : list (bool * bytes)) kf tss :
  length tss = length us →
  carries_units (zip_with frame_of_nal (List.map (λ u, Encoder.mkNal u.2 kf) us) tss) (List.map snd us).
Proof.
  revert tss. induction us as [|u us IH]; intros [|t tss] Hl; try done; [constructor|].
  cbn. constructor; [by exists kf, t|]. apply IH. by injection Hl.
Qed.

Section live.
Context (hex_encode base64_encode : bytes → bytes) (alloc : Z → bool).
Context (config : RtspServerConfig) (streams : Streams) (nonce : bytes).

(** C22 From the encoder to the client.  The encoder's access units, split into
    NAL units, sent through a started RTSP output and delivered by a playing
    connection while frames come less than five seconds apart: the bytes
    written on the socket are interleaved frames of the connection's RTP
    channel, each a valid RTP packet of the output's SSRC, numbered without a
    gap modulo 2^16; reassembled, they are exactly the NAL units of the
    encoder, in order, with the parameter sets seen so far again before every
    type 1 unit, the timestamp 3000 ticks apart per slice (whatever the
    capture times) and the marker on the slices. *)
Theorem live_delivery us kf nals tss o :
  Forall (λ u, live_unit u.2) us → length tss = length us → delivering o [] →
  Encoder.split_annex_b_to_nals (Encoder.byte_stream us) kf = Ok nals →
  ∃ pkts o', send_all (zip_with frame_of_nal nals tss) o = (Ok tt, o')
    ∧ RtspOut.frame_tx o' = Some pkts
    ∧ ∀ es (c : Conn) (d : Delivery), c_phase c = Delivering d → paced (d_iter d) es → frames_of es = pkts →
      ∃ wire ps,
        c_out (conn_run hex_encode base64_encode alloc config streams nonce c es) = c_out c ++ wire
        ∧ deinterleave (S (length wire)) wire = Some (List.map (pair (d_rtp_channel d)) pkts)
        ∧ parse_all pkts = Ok ps
        ∧ (∀ i p, ps !! i = Some p →
             sequence_number p = (RtspOut.rtp_seq o + Z.of_nat i) mod 2 ^ 16
             ∧ Rtp.ssrc p = RtspOut.ssrc o)
        ∧ receive [] ps
          = Ok (expected (RtspOut.cached_sps o) (RtspOut.cached_pps o) (RtspOut.rtp_timestamp o)
                  (List.map snd us)).
Proof.
  intros Hus Hl Ho E. rewrite Encoder.split_byte_stream in E
    by (eapply Forall_impl; [exact Hus | intros u Hu; apply Hu]). injection E as <-.
  destruct (send_all_spec _ _ o [] (frames_carry us kf tss Hl)) as (ps & o' & E & Ho' & C); [|done|].
  { apply Forall_map. eapply Forall_impl; [exact Hus | intros u Hu; apply Hu]. }
  destruct (carries_facts _ _ _ _ C) as (Hp & Hr & Hz).
  exists (List.map to_bytes ps), o'. split_and!; [done | apply Ho' |].
  intros es c d Hc Hes Hf. exists (on_wire (d_rtp_channel d) (List.map to_bytes ps)), ps.
  destruct (steady_run hex_encode base64_encode alloc config streams nonce es c d Hc) as [Hout _].
  { apply paced_steady; [done | by rewrite Hf]. }
  split_and!; [by rewrite Hout, Hf | | done | | done].
  - apply deinterleave_on_wire; [done | lia].
  - intros i p Hi. by destruct (car_numbered _ _ _ _ C i p Hi) as (H1 & H2 & _).
Qed.
End live.

Definition live_us : list (bool * bytes) :=
  [(true, [0x67; 0x42; 7]); (true, [0x68; 1]); (false, 0x65 :: replicate 1500 9); (true, [0x41; 5])].

Lemma live_us_ok : Forall (λ u, live_unit u.2) live_us.
Proof.
  apply Forall_forall. intros u Hu.
  assert (forallb (λ u, bool_decide (u.2 ≠ []) && no_code u.2 && bool_decide (last u.2 ≠ Some 0)
    && match u.2 with hdr :: _ => (0 <=? hdr) && (hdr <? 128) && (1 <=? Z.land hdr 31)
         && (Z.land hdr 31 <=? 23) | [] => false end) live_us = true) as H by (vm_compute; reflexivity).
  rewrite forallb_forall in H. specialize (H u (proj1 (list_elem_of_In _ _) Hu)).
  rewrite !andb_true_iff, !bool_decide_eq_true in H. destruct H as [[[H1 H2] H3] H4].
  split; [done|]. unfold nal_ok. destruct (u.2) as [|hdr tl]; [done|].
  rewrite !andb_true_iff in H4. lia.
Qed.

Lemma live_delivery_witness :
  ∃ pkts o', send_all (zip_with frame_of_nal
      (List.map (λ u, Encoder.mkNal u.2 true) live_us) [0; 1; 2; 3])
      (RtspOut.set_started true (Some []) (RtspOut.with_channel (lit "cam") [] 42)) = (Ok tt, o')
    ∧ RtspOut.frame_tx o' = Some pkts ∧ zlen pkts = 7
    ∧ ∃ wire ps, c_out (sample_run sample_playing (List.map (λ p, EvFrame p 1) pkts)) = wire
      ∧ deinterleave (S (length wire)) wire = Some (List.map (pair 0) pkts)
      ∧ parse_all pkts = Ok ps ∧ ∃ out, receive [] ps = Ok out ∧ zlen out = 6.
Proof.
  destruct (live_delivery hex_encode_sample (λ b, b) sample_alloc sample_config [] (lit "n0")
    live_us true (List.map (λ u, Encoder.mkNal u.2 true) live_us) [0; 1; 2; 3]
    (RtspOut.set_started true (Some []) (RtspOut.with_channel (lit "cam") [] 42)))
    as (pkts & o' & E & Ht & H).
  - exact live_us_ok.
  - reflexivity.
  - by split.
  - vm_compute. reflexivity.
  - exists pkts, o'. split; [exact E|]. split; [exact Ht|].
    assert (Some pkts = RtspOut.frame_tx (send_all (zip_with frame_of_nal
      (List.map (λ u, Encoder.mkNal u.2 true) live_us) [0; 1; 2; 3])
      (RtspOut.set_started true (Some []) (RtspOut.with_channel (lit "cam") [] 42))).2) as Hp
      by (rewrite E; cbn; by rewrite Ht).
    split.
    + apply (f_equal (from_option zlen 0)) in Hp. etrans; [exact Hp|]. vm_compute. reflexivity.
    + destruct (H (List.map (λ p, EvFrame p 1) pkts) sample_playing _ eq_refl)
        as (wire & ps & H1 & H2 & H3 & _ & H5).
      * clear. induction pkts as [|p pkts IH]; [done|]. cbn. clear IH. by induction pkts.
      * clear. induction pkts as [|p pkts IH]; [done|]. cbn. by f_equal.
      * exists wire, ps. split; [exact H1|]. split; [exact H2|]. split; [exact H3|].
        eexists. split; [exact H5|]. vm_compute. reflexivity.
Defined.
