(* ===== verification/Capture.v ===== *)
(** * The video capture source ([crates/streaming/src/capture_source.rs],
    [encoder/h264.rs])

    From the frames of a camera to the units of the hub: conversion, rotation,
    flips, watermark, substream, the JPEG tap of the web interface and the
    H.264 encoder with its queue of units.  OpenH264 and the JPEG codecs are
    the classes below; the camera, the clock and the flags other threads set
    are the environment of the source. *)
From Stdlib Require Import ZArith Lia List Bool String.
From stdpp Require Import base option list numbers gmap.
From S2P Require Import Prelude Text Media F32 Pixels Watermark Outputs.
Import Outputs.Encoder.

(** ** Encoder configuration *)
Inductive QualityPreset := UltraFast | Medium | High | HardwareMax.
Inductive Profile := ProfileBaseline | ProfileHigh.
Inductive Complexity := ComplexityLow | ComplexityMedium | ComplexityHigh.
Inductive FrameType := FtInvalid | FtIDR | FtI | FtP | FtSkip | FtIPMixed.

Record H264EncoderConfig := mkEncConfig {
  cfg_width : Z; cfg_height : Z; cfg_fps : f32; cfg_bitrate : Z; cfg_preset : QualityPreset;
}.

(** Profile, complexity and QP range; the rate control mode is the same for
    all. *)
Definition preset_to_tuning (p : QualityPreset) : Profile * Complexity * (Z * Z) :=
  match p with
  | UltraFast => (ProfileBaseline, ComplexityLow, (18, 45))
  | Medium => (ProfileHigh, ComplexityMedium, (15, 44))
  | High => (ProfileHigh, ComplexityHigh, (10, 40))
  | HardwareMax => (ProfileHigh, ComplexityMedium, (15, 44))
  end.

(** [x.round().max(1.0) as u32] *)
Definition u32_max : Z := 2 ^ 32 - 1.
Definition gop (fps : f32) : Z :=
  let f := if f32_le (f32_of_Z 1) fps then fps else f32_of_Z 30 in
  Z.max 1 (round_as u32_max f).

(** What is handed to OpenH264. *)
Record EncSettings := mkEncSettings {
  bitrate : Z; max_frame_rate : f32; profile : Profile; complexity : Complexity; qp : Z * Z;
  intra_frame_period : Z;
}.

Definition enc_settings (c : H264EncoderConfig) : EncSettings :=
  let '(p, x, q) := preset_to_tuning (cfg_preset c) in
  mkEncSettings (cfg_bitrate c) (cfg_fps c) p x q (gop (cfg_fps c)).

Definition bitrate_for_dimensions (w h : Z) : Z :=
  let pixels := w * h in
  if 1280 * 720 <=? pixels then 2500000
  else if 640 * 480 <=? pixels then 1200000
  else if 320 * 240 <=? pixels then 400000
  else 150000.

(** OpenH264: a session takes pictures with time stamps and returns for each
    an error, or its type and the Annex B bytes of its access unit. *)
Class OpenH264 (E : Type) := {
  h264_new : EncSettings → option E;
  encode_at : E → Yuv420p → Z → option (FrameType * bytes) * E;
  force_intra_frame : E → E;
}.

(** The JPEG codecs. *)
Class JpegLib := {
  jpeg_decode : bytes → option Decoded;
  jpeg_encode : bytes → Z → Z → option bytes;
}.

(** ** The encoder wrapper *)
Section encoder.
Context {E : Type} `{OpenH264 E}.

Record H264Encoder := mkEncoder { session : E; config : H264EncoderConfig }.

Definition encoder_new (c : H264EncoderConfig) : Res H264Encoder :=
  match h264_new (enc_settings c) with
  | Some e => Ok (mkEncoder e c)
  | None => Err "failed to initialize OpenH264 encoder"
  end.

Definition is_key (t : FrameType) : bool := match t with FtIDR | FtI => true | _ => false end.

(** [encode]: OpenH264 reads the three planes of the picture. *)
Definition encode (enc : H264Encoder) (f : Yuv420p) (ts : Z) : Res (list NalUnit) * H264Encoder :=
  match (_ ← y_plane f; _ ← u_plane f; _ ← v_plane f; Ok tt) with
  | Ok _ =>
      let '(r, e) := encode_at (session enc) f ts in
      (match r with
       | None => Err "openh264 encode_frame failed"
       | Some (t, bits) => split_annex_b_to_nals bits (is_key t)
       end, mkEncoder e (config enc))
  | Err m => (Err m, enc)
  | Panic => (Panic, enc)
  | OutOfFuel => (OutOfFuel, enc)
  end.

Definition force_keyframe (enc : H264Encoder) : H264Encoder :=
  mkEncoder (force_intra_frame (session enc)) (config enc).
End encoder.
Arguments H264Encoder : clear implicits.

(** ** The source *)
Record SubstreamSettings := mkSubstream {
  sub_width : Z; sub_height : Z; sub_fps : f32; sub_bitrate : Z;
}.

Definition JPEG_REENCODE_EVERY_N_FRAMES : Z := 6.

(** [Flips]: two flags; the static flips xor those of the platform. *)
Definition Flips : Type := bool * bool.
Definition effective_flips (static_hflip static_vflip : bool) (gb : option Flips) : bool * bool :=
  match gb with
  | None => (static_hflip, static_vflip)
  | Some (gh, gv) => (xorb static_hflip gh, xorb static_vflip gv)
  end.

Inductive PixelSource := Mjpeg | Yuyv | OtherPixels.
Record VideoFrame := mkVideo { v_data : bytes; v_width : Z; v_height : Z; v_format : PixelSource }.

(** What the source meets when it receives one frame: the frame, the pending
    request for a keyframe, the flags of the platform, the rendering of
    formats at that time and the two readings of the clock. *)
Record Arrival := mkArrival {
  video : VideoFrame; idr_request : bool; gb : Flips; render : bytes → bytes; clock_sub : Z; clock_main : Z;
}.

Record StreamDimensions := mkDims { dim_width : Z; dim_height : Z; dim_fps : f32 }.

(** The fields of [VideoCaptureSource], grouped: what is set before [start],
    the main encoder, the substream and the JPEG tap.  [jpeg_sent] and
    [sub_sent] are what was sent on the two broadcasts. *)
Record SourceConfig := mkConf {
  target_fps : f32; quality_preset : QualityPreset; hflip : bool; vflip : bool; rotation : Z;
  gb_flips : bool; force_idr : bool;
}.

Definition with_rotation (degrees : Z) (c : SourceConfig) : SourceConfig :=
  mkConf (target_fps c) (quality_preset c) (hflip c) (vflip c)
    (if (degrees =? 90) || (degrees =? 180) || (degrees =? 270) then degrees else 0)
    (gb_flips c) (force_idr c).

Record MainEncoder (E : Type) := mkMain {
  encoder : option (H264Encoder E); vc_width : Z; vc_height : Z; vc_fps : f32;
  dimensions : option StreamDimensions;
}.
Record Substream (E : Type) := mkSub {
  settings : option SubstreamSettings; sub_encoder : option (H264Encoder E); sub_sent : list MediaFrame;
  sub_frame_div : Z; sub_frame_count : Z;
}.
Record Tap := mkTap { latest_jpeg : option bytes; jpeg_sent : list bytes; frame_count : Z }.
Arguments encoder {E}. Arguments vc_width {E}. Arguments vc_height {E}. Arguments vc_fps {E}.
Arguments dimensions {E}. Arguments mkMain {E}. Arguments mkSub {E}. Arguments settings {E}.
Arguments sub_encoder {E}. Arguments sub_sent {E}. Arguments sub_frame_div {E}. Arguments sub_frame_count {E}.

(** Whether the bytes of the camera may be shown as they are. *)
Definition mjpeg_passthrough (mjpeg_native : bool) (rotation : Z) (hflip vflip watermark : bool) : bool :=
  mjpeg_native && (rotation =? 0) && negb hflip && negb vflip && negb watermark.

Section source.
Context {E Font : Type} `{OpenH264 E} `{FontLib Font} `{JpegLib}.

(** [cameras]: what the next openings of the device give; [arrivals]: what
    the open camera will deliver until its channel closes; [clock]: the
    readings when queued units are handed out. *)
Record VideoCaptureSource := mkVcs {
  cameras : list (Res (list Arrival)); arrivals : option (list Arrival); clock : list Z;
  conf : SourceConfig; main : MainEncoder E; wmark : option (Watermark Font); sub : Substream E;
  tap : Tap; pending_nals : list NalUnit; running : bool;
}.

(** [new] and the [with_] methods. *)
Definition vcs_new (cameras : list (Res (list Arrival))) (clock : list Z) (c : SourceConfig)
    (wm : option (Watermark Font)) (substream : option SubstreamSettings) : VideoCaptureSource :=
  mkVcs cameras None clock c (mkMain None 0 0 f32_zero None) wm (mkSub substream None [] 1 0)
    (mkTap None [] 0) [] false.

(** *** The stages of one frame *)

(** 3. The encoder is made for the first frame. *)
Definition init_encoder (c : SourceConfig) (v : VideoFrame) : ST (MainEncoder E) unit := λ m,
  match encoder m with
  | Some _ => (Ok tt, m)
  | None =>
      let fps := if f32_lt f32_zero (target_fps c) then target_fps c else f32_of_Z 30 in
      let '(eff_w, eff_h) := rotated_dims (v_width v) (v_height v) (rotation c) in
      let m := mkMain None (v_width v) (v_height v) fps (dimensions m) in
      match encoder_new (mkEncConfig eff_w eff_h fps (bitrate_for_dimensions eff_w eff_h) (quality_preset c)) with
      | Ok e => (Ok tt, mkMain (Some e) (v_width v) (v_height v) fps (Some (mkDims eff_w eff_h fps)))
      | _ => (Err "encoder init failed", m)
      end
  end.

(** 3b. The latch of the platform. *)
Definition consume_idr (c : SourceConfig) (a : Arrival) (m : MainEncoder E) : MainEncoder E :=
  if force_idr c && idr_request a then
    mkMain (force_keyframe <$> encoder m) (vc_width m) (vc_height m) (vc_fps m) (dimensions m)
  else m.

(** 4. Conversion. *)
Definition to_yuv (v : VideoFrame) : Res Yuv420p :=
  let r := match v_format v with
           | Yuyv => yuyv_to_yuv420p (v_data v) (v_width v) (v_height v)
           | Mjpeg | OtherPixels => mjpeg_to_yuv420p jpeg_decode (v_data v)
           end in
  match r with
  | Err _ => Err (match v_format v with
                  | Yuyv => "YUYV → YUV420p conversion failed"
                  | _ => "MJPEG → YUV420p decode failed"
                  end)
  | r => r
  end.

(** The flips of one frame, the half turn folded in, and their application
    after a quarter turn. *)
Definition frame_flips (c : SourceConfig) (a : Arrival) : bool * bool :=
  let '(h, v) := effective_flips (hflip c) (vflip c) (if gb_flips c then Some (gb a) else None) in
  if rotation c =? 180 then (negb h, negb v) else (h, v).

Definition orient (c : SourceConfig) (a : Arrival) (yuv : Yuv420p) : Res Yuv420p :=
  let '(h, v) := frame_flips c a in
  yuv ← (if (rotation c =? 90) || (rotation c =? 270) then rotated (rotation c =? 90) yuv else Ok yuv);
  if h || v then flip h v yuv else Ok yuv.

Definition overlay (a : Arrival) (yuv : Yuv420p) (wm : option (Watermark Font))
    : Res (Yuv420p * option (Watermark Font)) :=
  match wm with
  | None => Ok (yuv, None)
  | Some w => '(yuv, w) ← render_into (render a) yuv w; Ok (yuv, Some w)
  end.

(** 4b. The second encoder, on every [sub_frame_div]-th frame. *)
Definition init_sub (c : SourceConfig) (fps : f32) (s : Substream E) : Substream E :=
  match settings s, sub_encoder s with
  | Some st, None =>
      let f := if f32_lt f32_zero (sub_fps st) then sub_fps st else fps in
      match encoder_new (mkEncConfig (sub_width st) (sub_height st) f (sub_bitrate st) (quality_preset c)) with
      | Ok e => mkSub (Some st) (Some e) (sub_sent s) (Z.max 1 (round_as u32_max (f32_div fps f))) (sub_frame_count s)
      | _ => mkSub None None (sub_sent s) (sub_frame_div s) (sub_frame_count s)
      end
  | _, _ => s
  end.

Definition sub_step (c : SourceConfig) (fps : f32) (ts : Z) (yuv : Yuv420p) : ST (Substream E) unit := λ s,
  match settings s with
  | None => (Ok tt, s)
  | Some st =>
      let s := init_sub c fps s in
      match sub_encoder s with
      | None => (Ok tt, s)
      | Some enc =>
          let count := wrap32 (sub_frame_count s + 1) in
          let s := mkSub (settings s) (Some enc) (sub_sent s) (sub_frame_div s) count in
          if (sub_frame_div s <=? 1) || (count mod sub_frame_div s =? 0) then
            match downscaled (sub_width st) (sub_height st) yuv with
            | Ok small =>
                let '(r, enc) := encode enc small ts in
                let s' sent := mkSub (settings s) (Some enc) sent (sub_frame_div s) count in
                match r with
                | Ok nals => (Ok tt, s' (sub_sent s ++ List.map (λ n, frame_of_nal n ts) nals))
                | Err _ => (Ok tt, s' (sub_sent s))
                | Panic => (Panic, s' (sub_sent s))
                | OutOfFuel => (OutOfFuel, s' (sub_sent s))
                end
            | Err m => (Err m, s)
            | Panic => (Panic, s)
            | OutOfFuel => (OutOfFuel, s)
            end
          else (Ok tt, s)
      end
  end.

(** [jpeg_encode_yuv] *)
Definition jpeg_encode_yuv (yuv : Yuv420p) : Res (option bytes) :=
  rgb ← yuv420p_to_rgb8 yuv;
  if (2 ^ 16 <=? width yuv) || (2 ^ 16 <=? height yuv) then Ok None
  else
    match jpeg_encode rgb (width yuv) (height yuv) with
    | Some [] | None => Ok None
    | Some out => Ok (Some out)
    end.

(** 5. The tap. *)
Definition tap_step (c : SourceConfig) (a : Arrival) (wm : bool) (yuv : Yuv420p) : ST Tap unit := λ t,
  let count := wrap64 (frame_count t + 1) in
  let native := match v_format (video a) with Mjpeg => true | _ => false end in
  let '(h, v) := frame_flips c a in
  let r := if mjpeg_passthrough native (rotation c) h v wm then Ok (Some (v_data (video a)))
           else if count mod JPEG_REENCODE_EVERY_N_FRAMES =? 0 then jpeg_encode_yuv yuv
           else Ok None in
  match r with
  | Ok (Some j) => (Ok tt, mkTap (Some j) (jpeg_sent t ++ [j]) count)
  | Ok None => (Ok tt, mkTap (latest_jpeg t) (jpeg_sent t) count)
  | Err m => (Err m, mkTap (latest_jpeg t) (jpeg_sent t) count)
  | Panic => (Panic, mkTap (latest_jpeg t) (jpeg_sent t) count)
  | OutOfFuel => (OutOfFuel, mkTap (latest_jpeg t) (jpeg_sent t) count)
  end.

(** 6. The main encoder. *)
Definition encode_main (yuv : Yuv420p) (ts : Z) : ST (MainEncoder E) (list NalUnit) := λ m,
  match encoder m with
  | None => (Err "encoder not initialized", m)
  | Some enc =>
      let '(r, enc) := encode enc yuv ts in
      (match r with Err _ => Err "H.264 encode failed" | r => r end,
       mkMain (Some enc) (vc_width m) (vc_height m) (vc_fps m) (dimensions m))
  end.

(** *** The source *)
Definition set_main (m : MainEncoder E) (s : VideoCaptureSource) : VideoCaptureSource :=
  mkVcs (cameras s) (arrivals s) (clock s) (conf s) m (wmark s) (sub s) (tap s) (pending_nals s) (running s).
Definition set_wmark (w : option (Watermark Font)) (s : VideoCaptureSource) : VideoCaptureSource :=
  mkVcs (cameras s) (arrivals s) (clock s) (conf s) (main s) w (sub s) (tap s) (pending_nals s) (running s).
Definition set_sub (u : Substream E) (s : VideoCaptureSource) : VideoCaptureSource :=
  mkVcs (cameras s) (arrivals s) (clock s) (conf s) (main s) (wmark s) u (tap s) (pending_nals s) (running s).
Definition set_tap (t : Tap) (s : VideoCaptureSource) : VideoCaptureSource :=
  mkVcs (cameras s) (arrivals s) (clock s) (conf s) (main s) (wmark s) (sub s) t (pending_nals s) (running s).
Definition set_arrivals (l : option (list Arrival)) (s : VideoCaptureSource) : VideoCaptureSource :=
  mkVcs (cameras s) l (clock s) (conf s) (main s) (wmark s) (sub s) (tap s) (pending_nals s) (running s).
Definition set_pending (l : list NalUnit) (s : VideoCaptureSource) : VideoCaptureSource :=
  mkVcs (cameras s) (arrivals s) (clock s) (conf s) (main s) (wmark s) (sub s) (tap s) l (running s).

(** A stage on one group of fields. *)
Definition on {X A} (get : VideoCaptureSource → X) (set : X → VideoCaptureSource → VideoCaptureSource)
    (m : ST X A) : ST VideoCaptureSource A := λ s,
  let '(r, x) := m (get s) in (r, set x s).

(** The body of the loop of [next_frame]: the units of one camera frame. *)
Definition process (a : Arrival) : ST VideoCaptureSource (list NalUnit) := λ s,
  let c := conf s in
  (_ ← on main set_main (init_encoder c (video a));
   _ ← on main set_main (st_modify (consume_idr c a));
   yuv ← st_lift (to_yuv (video a));
   yuv ← st_lift (orient c a yuv);
   w ← st_get wmark;
   '(yuv, w) ← st_lift (overlay a yuv w);
   _ ← on wmark set_wmark (st_modify (λ _, w));
   fps ← st_get (λ s, vc_fps (main s));
   _ ← on sub set_sub (sub_step c fps (clock_sub a) yuv);
   _ ← on tap set_tap (tap_step c a (bool_decide (is_Some w)) yuv);
   on main set_main (encode_main yuv (clock_main a))) s.

(** The loop: a frame whose encoding is empty is passed over. *)
Fixpoint receive (l : list Arrival) (s : VideoCaptureSource) : Res MediaFrame * VideoCaptureSource :=
  match l with
  | [] => (Err "video frame channel closed", set_arrivals (Some []) s)
  | a :: l =>
      match process a (set_arrivals (Some l) s) with
      | (Ok [], s) => receive l s
      | (Ok (first :: rest), s) => (Ok (frame_of_nal first (clock_main a)), set_pending rest s)
      | (Err m, s) => (Err m, s)
      | (Panic, s) => (Panic, s)
      | (OutOfFuel, s) => (OutOfFuel, s)
      end
  end.

Definition vcs_next_frame : ST VideoCaptureSource MediaFrame := λ s,
  if negb (running s) then (Err "VideoCaptureSource not started", s)
  else
    match pending_nals s with
    | nal :: rest =>
        (Ok (frame_of_nal nal (hd 0 (clock s))),
         mkVcs (cameras s) (arrivals s) (tl (clock s)) (conf s) (main s) (wmark s) (sub s) (tap s) rest (running s))
    | [] =>
        match arrivals s with
        | None => (Err "frame receiver not available", s)
        | Some l => receive l s
        end
    end.

Definition vcs_start : ST VideoCaptureSource unit := λ s,
  match cameras s with
  | [] => (Err "Video device {} not found", s)
  | open :: cameras =>
      match open with
      | Ok l => (Ok tt, mkVcs cameras (Some l) (clock s) (conf s) (main s) (wmark s) (sub s)
                          (mkTap (latest_jpeg (tap s)) (jpeg_sent (tap s)) 0) [] true)
      | _ => (Err "failed to open camera at index {device_index}",
              mkVcs cameras (arrivals s) (clock s) (conf s) (main s) (wmark s) (sub s) (tap s) (pending_nals s) (running s))
      end
  end.

Definition vcs_stop : ST VideoCaptureSource unit := λ s,
  let m := main s in
  let u := sub s in
  (Ok tt, mkVcs (cameras s) None (clock s) (conf s)
            (mkMain None (vc_width m) (vc_height m) (vc_fps m) (dimensions m)) (wmark s)
            (mkSub (settings u) None (sub_sent u) (sub_frame_div u) 0)
            (mkTap None (jpeg_sent (tap s)) (frame_count (tap s))) [] false).

#[export] Instance VideoCaptureSource_source : Source VideoCaptureSource := {
  source_start := vcs_start;
  next_frame := vcs_next_frame;
  source_stop := vcs_stop;
}.
End source.

(** ** The picture that is encoded *)

(** The source place of a pixel: the frame is turned clockwise by
    [rotation], then mirrored. *)
Definition quarter (rotation w h x y : Z) : Z * Z :=
  if rotation =? 90 then turn true w h x y
  else if rotation =? 180 then (w - 1 - x, h - 1 - y)
  else if rotation =? 270 then turn false w h x y
  else (x, y).

Definition view (rotation : Z) (flips : bool * bool) (w h x y : Z) : Z * Z :=
  let '(ew, eh) := rotated_dims w h rotation in
  let p := mirrors flips.1 flips.2 ew eh x y in quarter rotation w h p.1 p.2.

Definition rotation_ok (r : Z) : Prop := r = 0 ∨ r = 90 ∨ r = 180 ∨ r = 270.

Lemma with_rotation_ok degrees c : rotation_ok (rotation (with_rotation degrees c)).
Proof.
  unfold rotation_ok. cbn. destruct (Z.eqb_spec degrees 90), (Z.eqb_spec degrees 180), (Z.eqb_spec degrees 270); cbn; auto.
Qed.

(** The flips that apply to a frame: those of the mount and those of the
    platform. *)
Definition flips_of (c : SourceConfig) (a : Arrival) : bool * bool :=
  effective_flips (hflip c) (vflip c) (if gb_flips c then Some (gb a) else None).

Lemma mapped_ext f g w h t t' :
  (∀ W H x y, t W H x y = t' W H x y) → mapped f g w h t → mapped f g w h t'.
Proof.
  intros Ht [Hg Gw Gh Gl Gc]. split; try done.
  - intros x y Hx Hy. by rewrite Gl, Ht.
  - intros x y Hx Hy. destruct (Gc x y Hx Hy) as [-> ->]. by rewrite Ht.
Qed.

Lemma flips_mapped h v f :
  frame_ok f → ∃ g, (if h || v then flip h v f else Ok f) = Ok g ∧ mapped f g (width f) (height f) (mirrors h v).
Proof.
  intros Hf. destruct (h || v) eqn:E; [by apply flip_mapped|].
  apply orb_false_iff in E as [-> ->]. exists f. split; [done|]. by apply mapped_id.
Qed.

Lemma orient_mapped c a f :
  frame_ok f → rotation_ok (rotation c) → ∃ o, orient c a f = Ok o
    ∧ mapped f o (rotated_dims (width f) (height f) (rotation c)).1
        (rotated_dims (width f) (height f) (rotation c)).2 (view (rotation c) (flips_of c a)).
Proof.
  intros Hf Hr. unfold orient, frame_flips. fold (flips_of c a). destruct (flips_of c a) as [h v] eqn:Ef.
  assert (∀ cw, ∃ o, (yuv ← rotated cw f; if h || v then flip h v yuv else Ok yuv) = Ok o
    ∧ mapped f o (height f) (width f) (compose true (turns cw) (mirrors h v))) as Hturn.
  { intros cw. destruct (rotated_mapped cw f Hf) as (k & -> & M1). cbn [mbind Res_bind].
    destruct (flips_mapped h v k (mp_ok _ _ _ _ _ M1)) as (o & E & M2). exists o. split; [exact E|].
    pose proof (mapped_trans f k o true false _ _ (mirrors_into h v) M1 M2) as M. cbn [swap fst snd] in M.
    destruct M1 as [_ W1 H1 _ _]. by rewrite W1, H1 in M. }
  destruct Hr as [-> | [-> | [-> | ->]]]; cbn [Z.eqb Pos.eqb orb rotated_dims fst snd mbind Res_bind].
  - destruct (flips_mapped h v f Hf) as (o & E & M). exists o. split; [exact E|].
    eapply mapped_ext; [|exact M]. done.
  - destruct (Hturn true) as (o & E & M). exists o. split; [exact E|]. eapply mapped_ext; [|exact M]. done.
  - destruct (flips_mapped (negb h) (negb v) f Hf) as (o & E & M). exists o. split; [exact E|].
    eapply mapped_ext; [|exact M]. intros W H x y. unfold view, quarter, mirrors, mirror. cbn.
    destruct h, v; cbn; f_equal; lia.
  - destruct (Hturn false) as (o & E & M). exists o. split; [exact E|]. eapply mapped_ext; [|exact M]. done.
Qed.

(** ** OpenH264 writes Annex B streams of NAL units *)
Class OpenH264Laws (E : Type) `{OpenH264 E} := {
  annex_b e f ts t bits e' : encode_at e f ts = (Some (t, bits), e') →
    ∃ us, bits = byte_stream us ∧ Forall (λ u, unit_ok u.2) us;
}.

Section pictures.
Context {E Font : Type} `{OpenH264Laws E} `{FontLaws Font} `{JpegLib}.

(** What an encoder answers to a picture: the units of an access unit, all
    with the flag of its type, or an error. *)
Inductive encoded (enc : H264Encoder E) (f : Yuv420p) (ts : Z) : Res (list NalUnit) → H264Encoder E → Prop :=
  | encoded_units t us e :
      encode_at (session enc) f ts = (Some (t, byte_stream us), e) → Forall (λ u, unit_ok u.2) us →
      encoded enc f ts (Ok (List.map (λ u, mkNal u.2 (is_key t)) us)) (mkEncoder e (config enc))
  | encoded_error e :
      encode_at (session enc) f ts = (None, e) →
      encoded enc f ts (Err "openh264 encode_frame failed") (mkEncoder e (config enc)).

Lemma encode_encoded enc f ts : frame_ok f →
  ∃ r enc', encode enc f ts = (r, enc') ∧ encoded enc f ts r enc'.
Proof.
  intros Hf. unfold encode. destruct (frame_planes f Hf) as (yp & up & vp & Hd & Hy & Hu & Hv).
  destruct (plane_reads f yp up vp (Build_planes _ _ _ _ Hd Hy Hu Hv)) as (-> & -> & ->). cbn [mbind Res_bind].
  destruct (encode_at (session enc) f ts) as [[[t bits]|] e] eqn:Ee.
  - destruct (annex_b _ _ _ _ _ _ Ee) as (us & -> & Hus). rewrite split_byte_stream by done.
    eexists _, _. split; [done|]. by apply encoded_units.
  - eexists _, _. split; [done|]. by apply encoded_error.
Qed.

(** The overlay of a frame: none, or what the renderer gives. *)
Definition overlaid (format : bytes → bytes) (o : Yuv420p) (w : option (Watermark Font)) (g : Yuv420p)
    (w' : option (Watermark Font)) : Prop :=
  match w, w' with
  | None, None => g = o
  | Some w, Some w' => rendered format o w g w'
  | _, _ => False
  end.

Definition caches_ok (w : option (Watermark Font)) : Prop := ∀ x, w = Some x → cache_ok x.

Definition even (f : Yuv420p) : Prop := frame_ok f ∧ width f mod 2 = 0 ∧ height f mod 2 = 0.

Lemma overlay_overlaid a f w : even f → caches_ok w →
  ∃ g w', overlay a f w = Ok (g, w') ∧ overlaid (render a) f w g w' ∧ even g ∧ caches_ok w'
    ∧ width g = width f ∧ height g = height f ∧ bool_decide (is_Some w') = bool_decide (is_Some w).
Proof.
  intros (Hf & Ew & Eh) Hc. destruct w as [w|]; cbn [overlay].
  - destruct (render_into_rendered (render a) f w Hf Ew Eh (Hc w eq_refl)) as (g & w' & -> & Hc' & Hg & Hr).
    cbn [mbind Res_bind]. exists g, (Some w'). split; [done|]. split; [done|].
    assert (width g = width f ∧ height g = height f) as [Wg Hgh].
    { destruct Hr as (_ & [(_ & -> & _) | (_ & _ & m & _ & _ & [[_ ->] | [_ Hb]])]); [done | done|].
      split; apply Hb. }
    split; [split; [done|]; by rewrite Wg, Hgh|]. split; [by intros x [= <-]|]. done.
  - exists f, None. split; [done|]. done.
Qed.

(** *** The substream *)
Definition sub_ok (u : Substream E) : Prop :=
  ∀ st, settings u = Some st → 2 ≤ sub_width st ∧ 2 ≤ sub_height st.

(** The substream after the picture [g]: nothing without settings or after a
    failed initialisation; otherwise the frame is counted, and when it is due
    its downscaling is encoded and the units are sent. *)
Definition sub_after (c : SourceConfig) (fps : f32) (ts : Z) (g : Yuv420p) (u u' : Substream E) : Prop :=
  let v := init_sub c fps u in
  match settings v, sub_encoder v with
  | Some st, Some enc =>
      let count := wrap32 (sub_frame_count v + 1) in
      if (sub_frame_div v <=? 1) || (count mod sub_frame_div v =? 0) then
        ∃ small r enc', downscaled (sub_width st) (sub_height st) g = Ok small ∧ encoded enc small ts r enc'
          ∧ u' = mkSub (Some st) (Some enc')
                   (sub_sent v ++ match r with Ok nals => List.map (λ n, frame_of_nal n ts) nals | _ => [] end)
                   (sub_frame_div v) count
      else u' = mkSub (Some st) (Some enc) (sub_sent v) (sub_frame_div v) count
  | _, _ => u' = v
  end.

Lemma init_sub_settings c fps u st : settings (init_sub c fps u) = Some st → settings u = Some st.
Proof.
  unfold init_sub. destruct (settings u) as [s0|] eqn:Es; [|by rewrite Es].
  destruct (sub_encoder u) eqn:Ee; [by rewrite Es|]. by destruct (encoder_new _).
Qed.

Lemma even_two f : even f → 2 ≤ width f ∧ 2 ≤ height f.
Proof. intros ([Hw Hh _ _] & Ew & Eh). dm_lia. Qed.

Lemma sub_step_after c fps ts g u : even g → sub_ok u →
  ∃ u', sub_step c fps ts g u = (Ok tt, u') ∧ sub_after c fps ts g u u' ∧ sub_ok u'.
Proof.
  intros Hg Hu. unfold sub_step, sub_after.
  destruct (settings u) as [st|] eqn:Es.
  2:{ exists u. assert (init_sub c fps u = u) as -> by (unfold init_sub; by rewrite Es). by rewrite Es. }
  set (v := init_sub c fps u).
  assert (settings v = Some st ∨ settings v = None ∧ sub_encoder v = None) as Hv.
  { unfold v, init_sub. rewrite Es. destruct (sub_encoder u) eqn:Ee; [by left|]. destruct (encoder_new _); cbn; auto. }
  destruct (Hu st Es) as [Hw Hh]. destruct (even_two g Hg).
  destruct (sub_encoder v) as [enc|] eqn:Ev.
  2:{ exists v. split; [done|]. split; [by destruct (settings v)|]. intros x Hx. apply Hu. by apply (init_sub_settings c fps). }
  destruct Hv as [Hv | [_ ?]]; [|done]. rewrite Hv. cbn [sub_frame_div settings sub_sent].
  destruct ((_ <=? 1) || _).
  - destruct (downscaled_ok g (sub_width st) (sub_height st)) as (small & -> & Hs); [apply Hg | done..|].
    destruct (encode_encoded enc small ts Hs) as (r & enc' & -> & Henc). cbn [sub_frame_div settings sub_sent].
    destruct Henc as [t us e E1 E2 | e E1].
    + eexists. split; [done|]. split; [|by intros x [= <-]]. eexists _, _, _.
      split; [done|]. split; [by apply encoded_units|]. done.
    + eexists. split; [done|]. split; [|by intros x [= <-]]. eexists _, _, _.
      split; [done|]. split; [by apply encoded_error|]. by rewrite app_nil_r.
  - eexists. split; [done|]. split; [done|]. by intros x [= <-].
Qed.

(** *** The JPEG tap *)

(** The JPEG of a picture. *)
Definition picture_jpeg (g : Yuv420p) (rgb : bytes) : option bytes :=
  if (2 ^ 16 <=? width g) || (2 ^ 16 <=? height g) then None
  else match jpeg_encode rgb (width g) (height g) with Some [] | None => None | Some out => Some out end.

(** The bytes of the camera are shown when nothing changes the picture. *)
Definition untouched (c : SourceConfig) (a : Arrival) (w : option (Watermark Font)) : bool :=
  match v_format (video a) with Mjpeg => true | _ => false end
  && (rotation c =? 0) && bool_decide (flips_of c a = (false, false)) && bool_decide (w = None).

Definition tap_after (c : SourceConfig) (a : Arrival) (w : option (Watermark Font)) (g : Yuv420p) (t t' : Tap) : Prop :=
  let count := wrap64 (frame_count t + 1) in
  let shown j := t' = match j with
                      | Some j => mkTap (Some j) (jpeg_sent t ++ [j]) count
                      | None => mkTap (latest_jpeg t) (jpeg_sent t) count
                      end in
  if untouched c a w then shown (Some (v_data (video a)))
  else if count mod 6 =? 0 then ∃ rgb, yuv420p_to_rgb8 g = Ok rgb ∧ shown (picture_jpeg g rgb)
  else shown None.

Lemma passthrough_untouched c a (w : option (Watermark Font)) :
  mjpeg_passthrough (match v_format (video a) with Mjpeg => true | _ => false end) (rotation c)
    (frame_flips c a).1 (frame_flips c a).2 (bool_decide (is_Some w)) = untouched c a w.
Proof.
  unfold mjpeg_passthrough, untouched, frame_flips. fold (flips_of c a). destruct (flips_of c a) as [h v].
  destruct (match v_format (video a) with Mjpeg => true | _ => false end); cbn [andb]; [|done].
  destruct (Z.eqb_spec (rotation c) 0) as [-> | Hr]; cbn [andb]; [|done]. cbn [Z.eqb fst snd].
  destruct h, v; cbn [negb andb]; try done; by destruct w.
Qed.

Lemma tap_step_after c a (w : option (Watermark Font)) g t : even g →
  ∃ t', tap_step c a (bool_decide (is_Some w)) g t = (Ok tt, t') ∧ tap_after c a w g t t'.
Proof.
  intros (Hg & Ew & Eh). unfold tap_step, tap_after. rewrite <-passthrough_untouched.
  destruct (frame_flips c a) as [h v]. cbn [fst snd]. unfold JPEG_REENCODE_EVERY_N_FRAMES.
  destruct (mjpeg_passthrough _ _ _ _ _); [by eexists|].
  destruct (_ mod 6 =? 0); [|by eexists].
  destruct (rgb8_pixels g Hg Ew Eh) as (rgb & Ergb & _). unfold jpeg_encode_yuv. rewrite Ergb. cbn [mbind Res_bind].
  unfold picture_jpeg.
  destruct ((_ <=? _) || _); [by eexists; split; [done|]; eexists|].
  destruct (jpeg_encode rgb (width g) (height g)) as [[|b out]|] eqn:Ej; (eexists; split; [done|]; exists rgb; by rewrite Ej).
Qed.

(** *** One frame of the camera *)
#[local] Ltac fields :=
  cbn [main wmark sub tap conf set_main set_wmark set_sub set_tap cameras arrivals clock pending_nals running
       encoder vc_width vc_height vc_fps dimensions].

Record source_ok (s : @VideoCaptureSource E Font) : Prop := {
  so_rotation : rotation_ok (rotation (conf s));
  so_cache : caches_ok (wmark s);
  so_sub : sub_ok (sub s);
}.

(** A frame that converts to one of even dimensions. *)
Definition readable (v : VideoFrame) (f : Yuv420p) : Prop := to_yuv v = Ok f ∧ even f.

(** The encoder that takes the picture. *)
Definition armed (c : SourceConfig) (a : Arrival) (enc : H264Encoder E) : H264Encoder E :=
  if force_idr c && idr_request a then force_keyframe enc else enc.

Lemma consume_idr_armed c a m enc : encoder m = Some enc →
  consume_idr c a m = mkMain (Some (armed c a enc)) (vc_width m) (vc_height m) (vc_fps m) (dimensions m).
Proof.
  intros Em. unfold consume_idr, armed. destruct (force_idr c && idr_request a); [by rewrite Em|].
  destruct m; cbn in *; by rewrite Em.
Qed.

(** The first frame makes the encoder, for the dimensions after the turn. *)
Lemma init_encoder_first c v (m m' : MainEncoder E) enc :
  encoder m = None → init_encoder c v m = (Ok tt, m') → encoder m' = Some enc →
  let '(w, h) := rotated_dims (v_width v) (v_height v) (rotation c) in
  dimensions m' = Some (mkDims w h (vc_fps m')) ∧ cfg_width (config enc) = w ∧ cfg_height (config enc) = h
  ∧ cfg_bitrate (config enc) = bitrate_for_dimensions w h.
Proof.
  unfold init_encoder. intros ->. destruct (rotated_dims _ _ _) as [w h]. unfold encoder_new.
  destruct (h264_new _) as [e|]; [|done]. intros [= <-] [= <-]. done.
Qed.

Lemma untouched_picture c a f o w g w' :
  untouched c a w' = true → orient c a f = Ok o → overlaid (render a) o w g w' → g = f.
Proof.
  unfold untouched. rewrite !andb_true_iff, !bool_decide_eq_true, Z.eqb_eq. intros [[[_ Hr] Hf] ->].
  unfold orient, frame_flips. fold (flips_of c a). rewrite Hf, Hr. cbn. intros [= ->].
  by destruct w.
Qed.

Lemma process_picture s a f m enc :
  source_ok s → readable (video a) f → init_encoder (conf s) (video a) (main s) = (Ok tt, m) →
  encoder m = Some enc →
  ∃ o g w r enc' s', mapped f o (rotated_dims (width f) (height f) (rotation (conf s))).1
      (rotated_dims (width f) (height f) (rotation (conf s))).2 (view (rotation (conf s)) (flips_of (conf s) a))
    ∧ overlaid (render a) o (wmark s) g w ∧ even g
    ∧ encoded (armed (conf s) a enc) g (clock_main a) r enc'
    ∧ process a s = (match r with Err _ => Err "H.264 encode failed" | r => r end, s')
    ∧ s' = mkVcs (cameras s) (arrivals s) (clock s) (conf s)
             (mkMain (Some enc') (vc_width m) (vc_height m) (vc_fps m) (dimensions m)) w (sub s') (tap s')
             (pending_nals s) (running s)
    ∧ sub_after (conf s) (vc_fps m) (clock_sub a) g (sub s) (sub s')
    ∧ tap_after (conf s) a w g (tap s) (tap s') ∧ (untouched (conf s) a w = true → g = f) ∧ source_ok s'.
Proof.
  intros [Hrot Hc Hsub] [Hy Hf] Hi Hm.
  destruct (orient_mapped (conf s) a f (proj1 Hf) Hrot) as (o & Ho & Mo).
  assert (even o) as Heo.
  { destruct Hf as (_ & Ew & Eh). destruct Mo as [Hok Wo Hho _ _]. split; [done|]. rewrite Wo, Hho.
    destruct Hrot as [-> | [-> | [-> | ->]]]; by cbn. }
  destruct (overlay_overlaid a o (wmark s) Heo Hc) as (g & w & Hov & Hover & Hg & Hc' & _).
  destruct (sub_step_after (conf s) (vc_fps m) (clock_sub a) g (sub s) Hg Hsub) as (u & Hu & Au & Uok).
  destruct (tap_step_after (conf s) a w g (tap s) Hg) as (t & Ht & At).
  destruct (encode_encoded (armed (conf s) a enc) g (clock_main a) (proj1 Hg)) as (r & enc' & He & Henc).
  exists o, g, w, r, enc'. eexists. split; [done|]. split; [done|]. split; [done|]. split; [done|].
  split; [|split; [|split_and!]].
  - unfold process, on, st_modify, st_lift, st_get, mbind, ST_bind. rewrite Hi. fields.
    rewrite (consume_idr_armed _ _ _ _ Hm), Hy, Ho. fields. rewrite Hov. fields.
    rewrite Hu. fields. rewrite Ht. fields. unfold encode_main. fields. rewrite He. reflexivity.
  - reflexivity.
  - exact Au.
  - exact At.
  - intros Hun. by eapply untouched_picture.
  - by split.
Qed.

(** *** The queue of units

    A stage neither reads nor changes the queue, the clock and the camera. *)
Definition set_queue (arr : option (list Arrival)) (clk : list Z) (p : list NalUnit)
    (s : @VideoCaptureSource E Font) : VideoCaptureSource :=
  mkVcs (cameras s) arr clk (conf s) (main s) (wmark s) (sub s) (tap s) p (running s).

Definition framed {A} (m : ST (@VideoCaptureSource E Font) A) : Prop :=
  ∀ arr clk p s, m (set_queue arr clk p s) = ((m s).1, set_queue arr clk p (m s).2).

Lemma framed_bind {A B} (m : ST VideoCaptureSource A) (f : A → ST VideoCaptureSource B) :
  framed m → (∀ a, framed (f a)) → framed (m ≫= f).
Proof.
  intros Hm Hf arr clk p s. unfold mbind, ST_bind. rewrite Hm. destruct (m s) as [[] s']; cbn [fst snd]; try done. apply Hf.
Qed.

Lemma framed_on {X A} get set (m : ST X A) :
  (∀ arr clk p s, get (set_queue arr clk p s) = get s) →
  (∀ arr clk p s x, set x (set_queue arr clk p s) = set_queue arr clk p (set x s)) → framed (on get set m).
Proof. intros Hg Hs arr clk p s. unfold on. rewrite Hg. destruct (m (get s)). cbn. by rewrite Hs. Qed.

Lemma framed_lift {A} (r : Res A) : framed (st_lift r).
Proof. done. Qed.

Lemma process_framed a : framed (process a).
Proof.
  intros arr clk p s. unfold process. cbn [conf set_queue].
  match goal with |- ?m _ = _ => enough (framed m) as Hf by apply Hf end.
  repeat (first [apply framed_bind; [|intros ?] | apply framed_on; done | apply framed_lift | by intros ????
                 | match goal with x : _ * _ |- _ => destruct x end]).
Qed.

(** Calls of [next_frame] one after another, up to the first failure. *)
Fixpoint pump (n : nat) (s : @VideoCaptureSource E Font) : list MediaFrame * option (Res MediaFrame) * VideoCaptureSource :=
  match n with
  | O => ([], None, s)
  | S n =>
      match next_frame s with
      | (Ok f, s) => let '(fs, e, s) := pump n s in (f :: fs, e, s)
      | (r, s) => ([], Some r, s)
      end
  end.

(** The units of the frames of a camera, up to the first failure. *)
Inductive filmed : list Arrival → @VideoCaptureSource E Font → list (Z * list NalUnit) → string → VideoCaptureSource → Prop :=
  | filmed_end s : filmed [] s [] "video frame channel closed" s
  | filmed_shot a l s nals s1 xs e s2 :
      process a s = (Ok nals, s1) → filmed l s1 xs e s2 → filmed (a :: l) s ((clock_main a, nals) :: xs) e s2
  | filmed_fail a l s m s1 : process a s = (Err m, s1) → filmed (a :: l) s [] m s1.

(** Their frames: the first unit of an access unit has the time of its
    encoding, each other one the time at which it is handed out. *)
Fixpoint queued (clk : list Z) (nals : list NalUnit) : list MediaFrame * list Z :=
  match nals with
  | [] => ([], clk)
  | n :: nals => let '(fs, clk') := queued (tl clk) nals in (frame_of_nal n (hd 0 clk) :: fs, clk')
  end.

Fixpoint stamped (clk : list Z) (xs : list (Z * list NalUnit)) : list MediaFrame * list Z :=
  match xs with
  | [] => ([], clk)
  | (_, []) :: xs => stamped clk xs
  | (ts, n :: nals) :: xs =>
      let '(fs, clk) := queued clk nals in
      let '(gs, clk) := stamped clk xs in (frame_of_nal n ts :: fs ++ gs, clk)
  end.

Definition unit_of (f : MediaFrame) : bool * bytes :=
  match f with Media.VideoFrame k d _ => (k, d) | AudioFrame d _ => (false, d) end.
Definition nal_unit (n : NalUnit) : bool * bytes := (is_keyframe n, data n).

Lemma queued_units clk nals : List.map unit_of (queued clk nals).1 = List.map nal_unit nals.
Proof.
  revert clk. induction nals as [|n nals IH]; intros clk; cbn [queued]; [done|].
  specialize (IH (tl clk)). destruct (queued (tl clk) nals). cbn in *. by rewrite IH.
Qed.

Lemma stamped_units clk xs : List.map unit_of (stamped clk xs).1 = List.map nal_unit (concat (List.map snd xs)).
Proof.
  revert clk. induction xs as [|[ts [|n nals]] xs IH]; intros clk; cbn [stamped]; [done | apply IH|].
  pose proof (queued_units clk nals) as Hq. destruct (queued clk nals) as [fs clk']. specialize (IH clk').
  destruct (stamped clk' xs) as [gs clk'']. cbn in *. by rewrite !map_app, Hq, IH.
Qed.

Lemma next_queued x nals arr clk s : running s = true →
  next_frame (set_queue arr clk (x :: nals) s) = (Ok (frame_of_nal x (hd 0 clk)), set_queue arr (tl clk) nals s).
Proof. intros Hr. destruct s. cbn in Hr. by subst. Qed.

Lemma next_received l clk s : running s = true →
  next_frame (set_queue (Some l) clk [] s) = receive l (set_queue (Some l) clk [] s).
Proof. intros Hr. destruct s. cbn in Hr. by subst. Qed.

Lemma pump_queued nals arr clk s n : running s = true →
  pump (length nals + n) (set_queue arr clk nals s)
  = let '(fs, clk') := queued clk nals in
    let '(gs, e, s') := pump n (set_queue arr clk' [] s) in (fs ++ gs, e, s').
Proof.
  intros Hr. revert clk. induction nals as [|x nals IH]; intros clk; cbn [length Nat.add queued]; [by destruct (pump n _) as [[]]|].
  cbn [pump]. rewrite next_queued, IH by done.
  destruct (queued (tl clk) nals) as [fs clk']. by destruct (pump n _) as [[]].
Qed.

(** A frame of the camera whose encoding is not empty, in [pump]. *)
Lemma pump_shot a l clk s s1 x nals n : running s1 = true → running s = true →
  process a s = (Ok (x :: nals), s1) →
  pump (S (length nals + n)) (set_queue (Some (a :: l)) clk [] s)
  = let '(fs, clk') := queued clk nals in
    let '(gs, e, s') := pump n (set_queue (Some l) clk' [] s1) in
    (frame_of_nal x (clock_main a) :: fs ++ gs, e, s').
Proof.
  intros Hr1 Hr Hp. cbn [pump]. rewrite next_received by done. cbn [receive].
  change (set_arrivals (Some l) (set_queue _ clk [] s)) with (set_queue (Some l) clk [] s).
  rewrite process_framed, Hp. cbn [fst snd].
  change (set_pending nals (set_queue _ clk [] s1)) with (set_queue (Some l) clk nals s1).
  rewrite pump_queued by done. destruct (queued clk nals) as [fs clk']. by destruct (pump n _) as [[]].
Qed.

(** One whose encoding is empty, or whose processing fails. *)
Lemma pump_skip a l clk s s1 n : running s1 = true → running s = true → process a s = (Ok [], s1) →
  pump (S n) (set_queue (Some (a :: l)) clk [] s) = pump (S n) (set_queue (Some l) clk [] s1).
Proof.
  intros Hr1 Hr Hp. cbn [pump]. rewrite !next_received by done. cbn [receive].
  change (set_arrivals (Some l) (set_queue _ clk [] s)) with (set_queue (Some l) clk [] s).
  by rewrite process_framed, Hp.
Qed.

Lemma pump_fail a l clk s s1 m n : running s = true → process a s = (Err m, s1) →
  pump (S n) (set_queue (Some (a :: l)) clk [] s) = ([], Some (Err m), set_queue (Some l) clk [] s1).
Proof.
  intros Hr Hp. cbn [pump]. rewrite !next_received by done. cbn [receive].
  change (set_arrivals (Some l) (set_queue _ clk [] s)) with (set_queue (Some l) clk [] s).
  by rewrite process_framed, Hp.
Qed.

(** The number of units. *)
Definition unit_count (xs : list (Z * list NalUnit)) : nat := length (concat (List.map snd xs)).

(** Processing keeps the source running. *)
Definition keeps_running {A} (m : ST (@VideoCaptureSource E Font) A) : Prop := ∀ s, running (m s).2 = running s.

Lemma keeps_bind {A B} (m : ST VideoCaptureSource A) (f : A → ST VideoCaptureSource B) :
  keeps_running m → (∀ a, keeps_running (f a)) → keeps_running (m ≫= f).
Proof.
  intros Hm Hf s. unfold mbind, ST_bind. specialize (Hm s). destruct (m s) as [[] s']; cbn [snd] in *; try done.
  by rewrite Hf.
Qed.

Lemma keeps_on {X A} get set (m : ST X A) : (∀ x s, running (set x s) = running s) → keeps_running (on get set m).
Proof. intros Hs s. unfold on. destruct (m (get s)). cbn. by rewrite Hs. Qed.

Lemma process_running a s r s1 : process a s = (r, s1) → running s1 = running s.
Proof.
  intros E1. replace s1 with (process a s).2 by (by rewrite E1). unfold process.
  match goal with |- running (?m _).2 = _ => enough (keeps_running m) as Hf by apply Hf end.
  repeat (first [apply keeps_bind; [|intros ?] | apply keeps_on; done | by intros ?
                 | match goal with x : _ * _ |- _ => destruct x end]).
Qed.

Lemma filmed_pump l s xs e s' clk : filmed l s xs e s' → running s = true → ∃ arr,
  pump (S (unit_count xs)) (set_queue (Some l) clk [] s)
  = ((stamped clk xs).1, Some (Err e), set_queue arr (stamped clk xs).2 [] s').
Proof.
  intros Hf. revert clk. induction Hf as [s | a l s nals s1 xs e s2 Hp Hf IH | a l s m s1 Hp]; intros clk Hr.
  - exists (Some []). cbn [unit_count List.map concat length pump stamped fst snd]. by rewrite next_received.
  - pose proof (process_running _ _ _ _ Hp) as Hr1. rewrite Hr in Hr1.
    destruct nals as [|x nals]; cbn [stamped].
    + destruct (IH clk Hr1) as [arr Hx]. exists arr. unfold unit_count in *. cbn [List.map concat snd app].
      by rewrite (pump_skip _ _ _ _ s1).
    + destruct (queued clk nals) as [fs clk'] eqn:Eq. destruct (IH clk' Hr1) as [arr Hx]. exists arr.
      unfold unit_count in *. cbn [List.map concat snd]. rewrite length_app. cbn [length].
      replace (S (S (length nals) + length (concat (map snd xs))))%nat
        with (S (length nals + S (length (concat (map snd xs)))))%nat by lia.
      rewrite (pump_shot _ _ _ _ s1 x) by done. rewrite Eq, Hx. by destruct (stamped clk' xs).
  - exists (Some l). cbn [unit_count List.map concat length stamped fst snd]. by rewrite (pump_fail _ _ _ _ s1 m).
Qed.

Lemma process_ready a s : source_ok s → (∃ f, readable (video a) f) →
  (∃ nals s', process a s = (Ok nals, s') ∧ source_ok s') ∨ (∃ m s', process a s = (Err m, s')).
Proof.
  intros Hs [f Hf]. destruct (init_encoder (conf s) (video a) (main s)) as [r m] eqn:Ei.
  assert ((r = Ok tt ∧ is_Some (encoder m)) ∨ ∃ e, r = Err e) as Hr.
  { unfold init_encoder in Ei. destruct (encoder (main s)) as [enc|] eqn:Em; [injection Ei as <- <-; left; by rewrite Em|].
    destruct (rotated_dims _ _ _). unfold encoder_new in Ei.
    destruct (h264_new _); injection Ei as <- <-; [by left | right; by eexists]. }
  destruct Hr as [[-> [enc Hm]] | [e ->]].
  - destruct (process_picture s a f m enc Hs Hf Ei Hm) as (o & g & w & r & enc' & s' & _ & _ & _ & He & -> & _ & _ & _ & _ & Hok).
    destruct He; [left; by eexists _, _ | right; by eexists _, _].
  - right. unfold process, on, mbind, ST_bind. rewrite Ei. by eexists _, _.
Qed.

Lemma filmed_all l s : source_ok s → Forall (λ a, ∃ f, readable (video a) f) l → ∃ xs e s', filmed l s xs e s'.
Proof.
  intros Hs Hl. revert s Hs. induction Hl as [|a l Ha Hl IH]; intros s Hs; [eexists _, _, _; constructor|].
  destruct (process_ready a s Hs Ha) as [(nals & s1 & Hp & Hs1) | (m & s1 & Hp)].
  - destruct (IH s1 Hs1) as (xs & e & s' & Hf). eexists _, _, _. by eapply filmed_shot.
  - eexists _, _, _. by eapply filmed_fail.
Qed.

(** C19 One camera frame, for every configuration and every session of the
    encoder.  A frame that converts to even dimensions never unwinds the
    source: it is turned and mirrored to the place [view] gives, the flips of
    the mount and those of the platform combined by exclusive or, it gets the
    overlay of that moment, and this picture is what the encoder takes (as a
    keyframe when one is requested), what the substream scales down and
    encodes when it is due, and what the JPEG tap shows every sixth frame;
    the tap passes the bytes of the camera on only when nothing changes the
    picture.  All units of an access unit carry the flag of its type. *)
Theorem capture_picture s a f m enc :
  source_ok s → readable (video a) f → init_encoder (conf s) (video a) (main s) = (Ok tt, m) →
  encoder m = Some enc →
  ∃ o g w r enc' s', mapped f o (rotated_dims (width f) (height f) (rotation (conf s))).1
      (rotated_dims (width f) (height f) (rotation (conf s))).2 (view (rotation (conf s)) (flips_of (conf s) a))
    ∧ overlaid (render a) o (wmark s) g w ∧ even g
    ∧ encoded (armed (conf s) a enc) g (clock_main a) r enc'
    ∧ process a s = (match r with Err _ => Err "H.264 encode failed" | r => r end, s')
    ∧ s' = mkVcs (cameras s) (arrivals s) (clock s) (conf s)
             (mkMain (Some enc') (vc_width m) (vc_height m) (vc_fps m) (dimensions m)) w (sub s') (tap s')
             (pending_nals s) (running s)
    ∧ sub_after (conf s) (vc_fps m) (clock_sub a) g (sub s) (sub s')
    ∧ tap_after (conf s) a w g (tap s) (tap s') ∧ (untouched (conf s) a w = true → g = f) ∧ source_ok s'
    ∧ (encoder (main s) = None →
         let '(w, h) := rotated_dims (v_width (video a)) (v_height (video a)) (rotation (conf s)) in
         dimensions m = Some (mkDims w h (vc_fps m)) ∧ cfg_width (config enc) = w ∧ cfg_height (config enc) = h
         ∧ cfg_bitrate (config enc) = bitrate_for_dimensions w h).
Proof.
  intros Hs Hf Hi Hm.
  destruct (process_picture s a f m enc Hs Hf Hi Hm) as (o & g & w & r & enc' & s' & H1' & H2' & H3' & H4' & H5' & H6' & H7' & H8' & H9' & H10').
  exists o, g, w, r, enc', s'. do 10 (split; [done|]). intros Hn. by apply (init_encoder_first _ _ (main s)).
Qed.

(** C18 What a source delivers, for every stream of camera frames that
    convert to even dimensions: calls of [next_frame] hand out every unit of
    every access unit exactly once and in order, passing over frames whose
    encoding is empty, and then the failure that ended the stream, the
    closing of the camera when there was no other; nothing unwinds.  The first
    unit of an access unit has the time of its encoding, the others the time
    at which they are handed out, so that units of one picture need not carry
    one time stamp. *)
Theorem capture_delivery s l :
  source_ok s → running s = true → pending_nals s = [] → arrivals s = Some l →
  Forall (λ a, ∃ f, readable (video a) f) l →
  ∃ xs e s', filmed l s xs e s'
    ∧ ∃ arr, pump (S (unit_count xs)) s
        = ((stamped (clock s) xs).1, Some (Err e), set_queue arr (stamped (clock s) xs).2 [] s')
      ∧ List.map unit_of (stamped (clock s) xs).1 = List.map nal_unit (concat (List.map snd xs)).
Proof.
  intros Hs Hr Hp Ha Hl. destruct (filmed_all l s Hs Hl) as (xs & e & s' & Hf). exists xs, e, s'. split; [done|].
  destruct (filmed_pump l s xs e s' (clock s) Hf Hr) as [arr Hpump]. exists arr. split; [|apply stamped_units].
  rewrite <-Hpump. f_equal. destruct s; cbn in *; by subst.
Qed.
End pictures.

(** What cameras deliver converts. *)
Lemma yuyv_readable `{JpegLib} v :
  v_format v = Yuyv → 0 < v_width v → 0 < v_height v → v_width v mod 2 = 0 → v_height v mod 2 = 0 →
  v_width v * v_height v * 2 ≤ zlen (v_data v) → zlen (v_data v) < 2 ^ 63 → bytes_ok (v_data v) →
  ∃ f, readable v f ∧ width f = v_width v ∧ height f = v_height v.
Proof.
  intros Hv Hw Hh Ew Eh Hl Hm Hb. destruct (yuyv_frame (v_data v) _ _ Hw Hh Ew Eh Hl Hm Hb) as (f & E & W & Hg & Hf & _).
  exists f. split; [|done]. split; [unfold to_yuv; by rewrite Hv, E|]. split; [done|]. by rewrite W, Hg.
Qed.

Lemma mjpeg_readable `{JpegLib} v d :
  v_format v = Mjpeg → jpeg_decode (v_data v) = Some d → pixel_format d = RGB24 →
  0 < info_width d → 0 < info_height d → info_width d mod 2 = 0 → info_height d mod 2 = 0 →
  info_width d * info_height d * 3 ≤ zlen (pixels d) → zlen (pixels d) < 2 ^ 63 →
  ∃ f, readable v f ∧ width f = info_width d ∧ height f = info_height d.
Proof.
  intros Hv Hd Hp Hw Hh Ew Eh Hl Hm. destruct (rgb_frame (pixels d) _ _ Hw Hh Hl Hm) as (f & E & W & Hg & Hf & _).
  exists f. split; [|done]. split; [unfold to_yuv, mjpeg_to_yuv420p; by rewrite Hv, Hd, Hp, E|].
  split; [done|]. by rewrite W, Hg.
Qed.

(** ** An encoder that writes a keyframe when it is fresh or asked to *)
Definition key_stream : bytes := byte_stream [(true, [0x67; 1]); (true, [0x65; 1])].
Definition other_stream : bytes := byte_stream [(true, [0x41; 1])].

#[local] Instance flag_encoder : OpenH264 bool := {
  h264_new _ := Some true;
  encode_at e f ts := (Some (if e then (FtIDR, key_stream) else (FtP, other_stream)), false);
  force_intra_frame _ := true;
}.
#[local] Instance flag_encoder_laws : OpenH264Laws bool.
Proof.
  split. intros [] f ts t bits e' [= <- <- <-].
  - exists [(true, [0x67; 1]); (true, [0x65; 1])]. split; [done|]. by repeat constructor.
  - exists [(true, [0x41; 1])]. split; [done|]. by repeat constructor.
Qed.

#[local] Instance no_font : FontLib unit := {
  from_bytes _ := None;
  metrics _ _ _ := mkMetrics 0 0 0 0 f32_zero;
  bitmap _ _ _ := [];
  chars := id;
}.
#[local] Instance no_font_laws : FontLaws unit.
Proof. split; intros; cbn; [done | constructor]. Qed.

#[local] Instance no_jpeg : JpegLib := { jpeg_decode _ := None; jpeg_encode _ _ _ := Some [0xFF; 0xD8] }.

(** A camera mounted on its side, mirrored by the platform. *)
Definition sample_conf : SourceConfig := with_rotation 90 (mkConf f32_zero Medium false false 0 true true).
Definition sample_arrival (idr : bool) : Arrival :=
  mkArrival (mkVideo (replicate 16 100) 4 2 Yuyv) idr (true, false) (λ _, []) 5 7.
Definition sample_vcs (l : list Arrival) : @VideoCaptureSource bool unit :=
  (vcs_start (vcs_new [Ok l] [8; 9; 10] sample_conf None (Some (mkSubstream 2 2 f32_zero 400000)))).2.

Lemma sample_vcs_ok l : source_ok (sample_vcs l).
Proof.
  split; [apply with_rotation_ok | done|]. intros st. cbn. intros [= <-]. done.
Qed.

Lemma sample_readable idr : ∃ f, readable (video (sample_arrival idr)) f ∧ width f = 4 ∧ height f = 2.
Proof. apply yuyv_readable; try done. repeat constructor; lia. Qed.

Definition sample_main : MainEncoder bool :=
  (init_encoder (conf (sample_vcs [])) (video (sample_arrival false)) (main (sample_vcs []))).2.
Definition sample_encoder : H264Encoder bool := mkEncoder true (mkEncConfig 2 4 (f32_of_Z 30) 150000 Medium).

Lemma sample_init :
  init_encoder (conf (sample_vcs [])) (video (sample_arrival false)) (main (sample_vcs [])) = (Ok tt, sample_main).
Proof. reflexivity. Qed.

Lemma capture_picture_witness :
  ∃ s', process (sample_arrival false) (sample_vcs []) = (Ok [mkNal [0x67; 1] true; mkNal [0x65; 1] true], s')
    ∧ dimensions (main s') = Some (mkDims 2 4 (f32_of_Z 30)).
Proof.
  destruct (sample_readable false) as (f & Hf & _).
  destruct (capture_picture (sample_vcs []) (sample_arrival false) f sample_main sample_encoder
    (sample_vcs_ok []) Hf sample_init eq_refl)
    as (o & g & w & r & enc' & s' & _ & _ & _ & He & Hp & Hs & _).
  exists s'. rewrite Hp. split; [|rewrite Hs; vm_compute; reflexivity]. f_equal.
  destruct He as [t us e E1 Hus | e E1]; cbn in E1; [|done]. injection E1 as <- Eus _.
  assert (Encoder.split_annex_b_to_nals (byte_stream us) true = Encoder.split_annex_b_to_nals key_stream true) as Hsplit
    by (by rewrite <-Eus).
  rewrite split_byte_stream in Hsplit by done. etrans; [exact Hsplit | vm_compute; reflexivity].
Defined.

Definition sample_stream : @VideoCaptureSource bool unit :=
  sample_vcs [sample_arrival false; sample_arrival false; sample_arrival true].

Lemma sample_frames : ∃ s', pump 6 sample_stream =
  ([Media.VideoFrame true [0x67; 1] 7; Media.VideoFrame true [0x65; 1] 8; Media.VideoFrame false [0x41; 1] 7;
    Media.VideoFrame true [0x67; 1] 7; Media.VideoFrame true [0x65; 1] 9], Some (Err "video frame channel closed"), s').
Proof. eexists. vm_compute. reflexivity. Qed.

Lemma capture_delivery_witness :
  ∃ xs e s', pump (S (unit_count xs)) sample_stream = ((stamped [8; 9; 10] xs).1, Some (Err e), s')
    ∧ List.map unit_of (stamped [8; 9; 10] xs).1 = List.map nal_unit (concat (List.map snd xs)).
Proof.
  destruct (capture_delivery sample_stream [sample_arrival false; sample_arrival false; sample_arrival true]
    (sample_vcs_ok _) eq_refl eq_refl eq_refl) as (xs & e & s' & _ & arr & Hp & Hu).
  { destruct (sample_readable false) as (f & Hf & _), (sample_readable true) as (f' & Hf' & _).
    repeat constructor; [by exists f | by exists f | by exists f']. }
  exists xs, e. eexists. split; [exact Hp | exact Hu].
Defined.
