(* ===== verification/Calendar.v ===== *)
(** * The time stamp of a recording ([format_local_timestamp] of
    [crates/streaming/src/output/file.rs])

    The conversion of seconds to a civil date, and a calendar that counts the
    days one by one to compare it with. *)
From Stdlib Require Import ZArith Lia List Bool String.
From stdpp Require Import base option list numbers.
From S2P Require Import Prelude Text.

(** ** The code *)

Record Date := mkDate { year : Z; month : Z; day : Z }.

Definition civil_from_days (days : Z) : Date :=
  let z := days + 719468 in
  let era := Z.quot (if 0 <=? z then z else z - 146096) 146097 in
  let doe := z - era * 146097 in
  let yoe := Z.quot (doe - Z.quot doe 1460 + Z.quot doe 36524 - Z.quot doe 146096) 365 in
  let y := yoe + era * 400 in
  let doy := doe - (365 * yoe + Z.quot yoe 4 - Z.quot yoe 100) in
  let mp := Z.quot (5 * doy + 2) 153 in
  let d := doy - Z.quot (153 * mp + 2) 5 + 1 in
  let m := if mp <? 10 then mp + 3 else mp - 9 in
  mkDate (if m <=? 2 then y + 1 else y) m d.

(** [{:0w}] of a number that is not negative. *)
Definition pad (w : nat) (n : Z) : bytes := let s := dec_of_Z n in replicate (w - length s) 48 ++ s.

Definition format_local_timestamp (epoch_secs : Z) : bytes :=
  let secs_of_day := epoch_secs mod 86400 in
  let date := civil_from_days (epoch_secs / 86400) in
  pad 4 (year date) ++ pad 2 (month date) ++ pad 2 (day date)
  ++ pad 2 (secs_of_day / 3600) ++ pad 2 (secs_of_day mod 3600 / 60) ++ pad 2 (secs_of_day mod 60).

Example epoch_zero : format_local_timestamp 0 = bytes_of_string "19700101000000".
Proof. vm_compute. reflexivity. Qed.
Example known_value : format_local_timestamp 1704067200 = bytes_of_string "20240101000000".
Proof. vm_compute. reflexivity. Qed.
Example leap_day : format_local_timestamp 1709251199 = bytes_of_string "20240229235959".
Proof. vm_compute. reflexivity. Qed.

(** ** The calendar *)
Definition leap (y : Z) : bool := (y mod 4 =? 0) && (negb (y mod 100 =? 0) || (y mod 400 =? 0)).

Definition month_len (leap : bool) (m : Z) : Z :=
  if m =? 2 then if leap then 29 else 28
  else if (m =? 4) || (m =? 6) || (m =? 9) || (m =? 11) then 30 else 31.

Definition next_day_in (leap : bool) (d : Date) : Date :=
  if day d <? month_len leap (month d) then mkDate (year d) (month d) (day d + 1)
  else if month d <? 12 then mkDate (year d) (month d + 1) 1
  else mkDate (year d + 1) 1 1.
Definition next_day (d : Date) : Date := next_day_in (leap (year d)) d.

(** The date [n] days after the epoch. *)
Definition date_of_day (n : Z) : Date := Nat.iter (Z.to_nat n) next_day (mkDate 1970 1 1).

Definition valid (d : Date) : Prop := 1 ≤ month d ≤ 12 ∧ 1 ≤ day d ≤ month_len (leap (year d)) (month d).

(** ** Years that begin in March *)

(** The day of the era on which year [y] of the era begins. *)
Definition year_start (y : Z) : Z := 365 * y + y / 4 - y / 100 + y / 400.

Definition corrected (doe : Z) : Z := doe - doe / 1460 + doe / 36524 - doe / 146096.

Lemma corrected_step n : 0 ≤ n < 146096 → corrected n ≤ corrected (n + 1).
Proof. unfold corrected. intros. dm_lia. Qed.

Lemma corrected_mono a b : 0 ≤ a → a ≤ b → b ≤ 146096 → corrected a ≤ corrected b.
Proof.
  intros Ha Hab Hb. replace b with (a + Z.of_nat (Z.to_nat (b - a))) in * by lia.
  induction (Z.to_nat (b - a)) as [|k IH]; [by rewrite Z.add_0_r|].
  pose proof (corrected_step (a + Z.of_nat k) ltac:(lia)).
  replace (a + Z.of_nat (S k)) with (a + Z.of_nat k + 1) in * by lia.
  etrans; [apply IH; lia | done].
Qed.

(** The first and the last day of every year of the era. *)
Lemma corrected_ends :
  forallb (λ k, (k <=? corrected (year_start k) / 365) && (corrected (year_start (k + 1) - 1) / 365 <=? k))
    (seqZ 0 400) = true.
Proof. vm_compute. reflexivity. Qed.

Lemma year_of_day k doe : 0 ≤ k < 400 → year_start k ≤ doe < year_start (k + 1) → corrected doe / 365 = k.
Proof.
  intros Hk Hd. pose proof corrected_ends as H. rewrite forallb_forall in H.
  specialize (H k ltac:(apply list_elem_of_In, elem_of_seqZ; lia)).
  apply andb_true_iff in H as [H1%Z.leb_le H2%Z.leb_le].
  assert (0 ≤ year_start k ∧ year_start (k + 1) ≤ 146097) as [? ?] by (unfold year_start; dm_lia).
  pose proof (corrected_mono (year_start k) doe ltac:(lia) ltac:(lia) ltac:(lia)).
  pose proof (corrected_mono doe (year_start (k + 1) - 1) ltac:(lia) ltac:(lia) ltac:(lia)).
  pose proof (Z.div_le_mono (corrected (year_start k)) (corrected doe) 365 ltac:(lia) ltac:(lia)).
  pose proof (Z.div_le_mono (corrected doe) (corrected (year_start (k + 1) - 1)) 365 ltac:(lia) ltac:(lia)). lia.
Qed.

Lemma day_year doe : 0 ≤ doe < 146097 →
  ∃ k, 0 ≤ k < 400 ∧ year_start k ≤ doe < year_start (k + 1) ∧ corrected doe / 365 = k.
Proof.
  intros Hd.
  assert (∀ n, ∃ k, 0 ≤ k < 400 ∧ year_start k ≤ Z.of_nat n `min` 146096 < year_start (k + 1)) as H.
  { induction n as [|n (k & Hk & Hn)]; [by exists 0|].
    destruct (Z.lt_ge_cases (Z.of_nat (S n) `min` 146096) (year_start (k + 1))) as [Hlt|Hge].
    - exists k. split; [done|]. lia.
    - exists (k + 1). assert (k ≠ 399).
      { intros ->. change (year_start (399 + 1)) with 146097 in Hge. lia. }
      split; [lia|]. split; [lia|]. unfold year_start in *. dm_lia. }
  destruct (H (Z.to_nat doe)) as (k & Hk & Hn). exists k. rewrite Z2Nat.id, Z.min_l in Hn by lia.
  split_and!; [lia | lia | lia | lia | by apply year_of_day].
Qed.

(** Month and day of a day of such a year, in the year after January. *)
Definition month_day (y doy : Z) : Date :=
  let mp := (5 * doy + 2) / 153 in
  let d := doy - (153 * mp + 2) / 5 + 1 in
  let m := if mp <? 10 then mp + 3 else mp - 9 in
  mkDate (if m <=? 2 then y + 1 else y) m d.

Lemma civil_in_era era doe k : 0 ≤ era → 0 ≤ k < 400 → year_start k ≤ doe < year_start (k + 1) →
  civil_from_days (era * 146097 + doe - 719468) = month_day (k + era * 400) (doe - year_start k).
Proof.
  intros He Hk Hd. assert (0 ≤ doe < 146097) as Hdoe by (unfold year_start in Hd; dm_lia).
  pose proof (year_of_day k doe Hk Hd) as Hy.
  unfold civil_from_days. replace (era * 146097 + doe - 719468 + 719468) with (era * 146097 + doe) by lia.
  replace (0 <=? era * 146097 + doe) with true by (symmetry; apply Z.leb_le; lia).
  assert (Z.quot (era * 146097 + doe) 146097 = era) as -> by (rewrite Z.quot_div_nonneg by lia; dm_lia).
  replace (era * 146097 + doe - era * 146097) with doe by lia.
  rewrite (Z.quot_div_nonneg doe 1460), (Z.quot_div_nonneg doe 36524), (Z.quot_div_nonneg doe 146096) by lia.
  fold (corrected doe). assert (0 ≤ corrected doe) by (unfold corrected; dm_lia).
  rewrite (Z.quot_div_nonneg (corrected doe)), Hy by lia.
  rewrite (Z.quot_div_nonneg k 4), (Z.quot_div_nonneg k 100) by lia.
  assert (k / 400 = 0) as E0 by dm_lia.
  replace (365 * k + k / 4 - k / 100) with (year_start k) by (unfold year_start; lia).
  set (doy := doe - year_start k). assert (0 ≤ doy < 367) by (unfold doy, year_start in *; dm_lia).
  rewrite (Z.quot_div_nonneg (5 * doy + 2)) by lia. set (mp := (5 * doy + 2) / 153).
  assert (0 ≤ mp) by (unfold mp; dm_lia). rewrite Z.quot_div_nonneg by lia. done.
Qed.

(** The days of a year from the first of March to the end of February. *)
Lemma month_day_steps :
  forallb (λ doy, forallb (λ lp,
      let b := month_day 0 (doy + 1) in
      let n := next_day_in lp (month_day 0 doy) in
      (year n =? year b) && (month n =? month b) && (day n =? day b)) [true; false])
    (seqZ 0 364) = true.
Proof. vm_compute. reflexivity. Qed.

Lemma month_day_shift y doy : month_day y doy = mkDate (y + year (month_day 0 doy)) (month (month_day 0 doy)) (day (month_day 0 doy)).
Proof. unfold month_day. cbn [year month day]. repeat case_match; f_equal; lia. Qed.

Lemma next_day_shift lp y d :
  next_day_in lp (mkDate (y + year d) (month d) (day d))
  = mkDate (y + year (next_day_in lp d)) (month (next_day_in lp d)) (day (next_day_in lp d)).
Proof. unfold next_day_in. cbn [year month day]. repeat case_match; cbn [year month day]; f_equal; lia. Qed.

Lemma month_day_next y doy : 0 ≤ doy < 364 → next_day (month_day y doy) = month_day y (doy + 1).
Proof.
  intros Hd. pose proof month_day_steps as H. rewrite forallb_forall in H.
  specialize (H doy ltac:(apply list_elem_of_In, elem_of_seqZ; lia)).
  rewrite forallb_forall in H. unfold next_day. rewrite (month_day_shift y doy), (month_day_shift y (doy + 1)).
  cbn [year]. rewrite next_day_shift.
  specialize (H (leap (y + year (month_day 0 doy))) ltac:(destruct (leap _); cbn; auto)).
  apply andb_true_iff in H as [[->%Z.eqb_eq ->%Z.eqb_eq]%andb_true_iff ->%Z.eqb_eq]. done.
Qed.

(** The years of an era end in leap days where the calendar has them. *)
Lemma year_length k era : 0 ≤ k < 400 →
  year_start (k + 1) - year_start k = 365 + Z_of_bool (leap (k + era * 400 + 1)).
Proof.
  intros Hk. unfold year_start, leap.
  replace ((k + era * 400 + 1) mod 400) with ((k + 1) mod 400) by dm_lia.
  replace ((k + era * 400 + 1) mod 100) with ((k + 1) mod 100) by dm_lia.
  replace ((k + era * 400 + 1) mod 4) with ((k + 1) mod 4) by dm_lia.
  destruct (Z.eqb_spec ((k + 1) mod 4) 0), (Z.eqb_spec ((k + 1) mod 100) 0), (Z.eqb_spec ((k + 1) mod 400) 0);
    cbn [andb orb negb Z_of_bool]; dm_lia.
Qed.

Lemma next_day_civil n : 0 ≤ n → next_day (civil_from_days n) = civil_from_days (n + 1).
Proof.
  intros Hn. set (z := n + 719468).
  destruct (day_year (z mod 146097) ltac:(dm_lia)) as (k & Hk & Hd & _).
  assert (∃ era, 0 ≤ era ∧ n = era * 146097 + z mod 146097 - 719468) as (era & He & En)
    by (exists (z / 146097); unfold z; dm_lia).
  set (doe := z mod 146097) in *. clearbody doe. subst n. clear z.
  pose proof (year_length k era Hk) as Hl.
  assert (0 ≤ Z_of_bool (leap (k + era * 400 + 1)) ≤ 1) as Hb by (by destruct (leap _)).
  rewrite (civil_in_era era doe k He Hk Hd).
  destruct (Z.lt_ge_cases (doe + 1) (year_start (k + 1))) as [Hlt|Hge].
  - replace (era * 146097 + doe - 719468 + 1) with (era * 146097 + (doe + 1) - 719468) by lia.
    rewrite (civil_in_era era (doe + 1) k He Hk ltac:(lia)).
    replace (doe + 1 - year_start k) with (doe - year_start k + 1) by lia.
    destruct (Z.lt_ge_cases (doe - year_start k) 364) as [H|H]; [apply month_day_next; lia|].
    assert (doe - year_start k = 364) as -> by lia.
    destruct (leap (k + era * 400 + 1)) eqn:El; cbn [Z_of_bool] in Hl; [|lia].
    rewrite (month_day_shift _ 364), (month_day_shift _ (364 + 1)). unfold next_day, next_day_in.
    change (month_day 0 364) with (mkDate 1 2 28). change (month_day 0 (364 + 1)) with (mkDate 1 2 29).
    cbn [year month day]. rewrite El. done.
  - assert (next_day (month_day (k + era * 400) (doe - year_start k)) = month_day (k + era * 400 + 1) 0) as ->.
    { assert (doe - year_start k = 364 + Z_of_bool (leap (k + era * 400 + 1))) as -> by lia.
      rewrite month_day_shift, (month_day_shift _ 0). unfold next_day, next_day_in. cbn [year month day].
      destruct (leap (k + era * 400 + 1)) eqn:El; cbn [Z_of_bool].
      - change (month_day 0 (364 + 1)) with (mkDate 1 2 29). change (month_day 0 0) with (mkDate 0 3 1).
        cbn [year month day]. rewrite El. cbn. f_equal. lia.
      - change (month_day 0 (364 + 0)) with (mkDate 1 2 28). change (month_day 0 0) with (mkDate 0 3 1).
        cbn [year month day]. rewrite El. cbn. f_equal. lia. }
    assert (doe + 1 = year_start (k + 1)) as Hend by lia.
    replace (era * 146097 + doe - 719468 + 1) with (era * 146097 + year_start (k + 1) - 719468) by lia.
    destruct (Z.eq_dec k 399) as [->|Hk'].
    + change (year_start (399 + 1)) with 146097.
      replace (era * 146097 + 146097 - 719468) with ((era + 1) * 146097 + 0 - 719468) by lia.
      rewrite (civil_in_era (era + 1) 0 0) by (change (year_start 0) with 0; change (year_start (0 + 1)) with 365; lia).
      change (0 - year_start 0) with 0. f_equal. lia.
    + rewrite (civil_in_era era (year_start (k + 1)) (k + 1)) by (try lia; unfold year_start; dm_lia).
      rewrite Z.sub_diag. f_equal. lia.
Qed.

Lemma civil_date n : 0 ≤ n → civil_from_days n = date_of_day n.
Proof.
  intros Hn. unfold date_of_day. rewrite <-(Z2Nat.id n) at 1 by lia.
  induction (Z.to_nat n) as [|k IH]; [vm_compute; reflexivity|].
  rewrite Nat.iter_succ. rewrite <-IH, next_day_civil by lia. f_equal. lia.
Qed.

(** ** The stamp *)
Lemma next_day_valid d : valid d → valid (next_day d)
  ∧ 372 * year d + 31 * month d + day d < 372 * year (next_day d) + 31 * month (next_day d) + day (next_day d).
Proof.
  intros [Hm Hd]. unfold next_day, next_day_in.
  assert (28 ≤ month_len (leap (year d)) (month d) ≤ 31) as Hl by (unfold month_len; repeat case_match; lia).
  assert (∀ b m, 28 ≤ month_len b m) as Hl' by (intros; unfold month_len; repeat case_match; lia).
  destruct (Z.ltb_spec (day d) (month_len (leap (year d)) (month d))); [|destruct (Z.ltb_spec (month d) 12)];
    (split; [split; cbn [year month day] | cbn [year month day]]); try lia.
  - specialize (Hl' (leap (year d)) (month d + 1)). lia.
  - specialize (Hl' (leap (year d + 1)) 1). lia.
Qed.

Lemma date_valid n : valid (date_of_day n).
Proof.
  unfold date_of_day. induction (Z.to_nat n) as [|k IH]; [vm_compute; intuition discriminate|].
  rewrite Nat.iter_succ. by apply next_day_valid.
Qed.

Definition ordinal (d : Date) : Z := 372 * year d + 31 * month d + day d.

Lemma date_ordinal a b : 0 ≤ a < b → ordinal (date_of_day a) < ordinal (date_of_day b).
Proof.
  intros H. replace b with (a + 1 + Z.of_nat (Z.to_nat (b - a - 1))) by lia. generalize (Z.to_nat (b - a - 1)) as k.
  intros k. assert (∀ n, 0 ≤ n → ordinal (date_of_day n) < ordinal (date_of_day (n + 1))) as Hs.
  { intros n Hn. unfold date_of_day at 2. replace (Z.to_nat (n + 1)) with (S (Z.to_nat n)) by lia.
    rewrite Nat.iter_succ. apply next_day_valid, date_valid. }
  induction k as [|k IH]; [rewrite Z.add_0_r; apply Hs; lia|].
  etrans; [exact IH|]. replace (a + 1 + Z.of_nat (S k)) with (a + 1 + Z.of_nat k + 1) by lia. apply Hs. lia.
Qed.

Lemma digits_val_zeros n l max : 0 ≤ max → digits_val 10 max 0 (replicate n 48 ++ l) = digits_val 10 max 0 l.
Proof.
  intros Hm. induction n as [|n IH]; [done|]. cbn [replicate app digits_val].
  change (digit_val 10 48) with (Some 0). cbv beta iota zeta. case_match eqn:E; [exact IH | apply Z.leb_gt in E; lia].
Qed.

Lemma pad_inj w a b : 0 ≤ a → 0 ≤ b → pad w a = pad w b → a = b.
Proof.
  intros Ha Hb E. assert (∀ n, 0 ≤ n ≤ Z.max a b → digits_val 10 (Z.max a b) 0 (pad w n) = Some n) as H.
  { intros n Hn. unfold pad. rewrite digits_val_zeros by lia. apply digits_val_dec; [done | lia]. }
  pose proof (H a ltac:(lia)) as H1. rewrite E, (H b) in H1 by lia. congruence.
Qed.

Lemma dec_length_le w n : 0 ≤ n < 10 ^ Z.of_nat w → (0 < w)%nat → (length (dec_of_Z n) ≤ w)%nat.
Proof.
  unfold dec_of_Z. rewrite length_rev. generalize (S (Z.to_nat (Z.log2 n))) as fuel. revert n.
  induction w as [|w IH]; intros n fuel Hn Hw; [lia|]. destruct fuel as [|fuel]; [cbn; lia|].
  cbn [dec_rev length]. destruct (Z.ltb_spec n 10); [cbn; lia|].
  destruct w as [|w]; [cbn in Hn; lia|]. apply le_n_S, IH; [|lia].
  rewrite (Nat2Z.inj_succ (S w)), Z.pow_succ_r in Hn by lia.
  split; [apply Z.div_pos; lia | apply Z.div_lt_upper_bound; lia].
Qed.

Lemma pad_length w n : 0 ≤ n < 10 ^ Z.of_nat w → (0 < w)%nat → length (pad w n) = w.
Proof.
  intros Hn Hw. unfold pad. rewrite length_app, length_replicate. pose proof (dec_length_le w n Hn Hw). lia.
Qed.

Lemma pad_app_inj w a b k l : 0 ≤ a < 10 ^ Z.of_nat w → 0 ≤ b < 10 ^ Z.of_nat w → (0 < w)%nat →
  pad w a ++ k = pad w b ++ l → a = b ∧ k = l.
Proof.
  intros Ha Hb Hw E. apply app_inj_1 in E as [E1 E2]; [|by rewrite !pad_length].
  split; [by apply (pad_inj w); [lia | lia |] | done].
Qed.

(** The first second of the year 10000. *)
Definition YEAR_10000 : Z := 253402300800.

Lemma date_year n : 0 ≤ n < YEAR_10000 / 86400 → 1970 ≤ year (date_of_day n) < 10000.
Proof.
  intros Hn.
  assert (∀ a b, 0 ≤ a ≤ b → year (date_of_day a) ≤ year (date_of_day b)) as Hm.
  { intros a b H. replace b with (a + Z.of_nat (Z.to_nat (b - a))) by lia.
    induction (Z.to_nat (b - a)) as [|k IH]; [by rewrite Z.add_0_r|]. etrans; [exact IH|].
    unfold date_of_day at 2. replace (Z.to_nat (a + Z.of_nat (S k))) with (S (Z.to_nat (a + Z.of_nat k))) by lia.
    rewrite Nat.iter_succ. fold (date_of_day (a + Z.of_nat k)). unfold next_day, next_day_in.
    repeat case_match; cbn [year]; lia. }
  split; [apply (Hm 0 n); lia|].
  assert (year (date_of_day n) ≤ year (date_of_day (YEAR_10000 / 86400 - 1))) by (apply Hm; lia).
  rewrite <-(civil_date (YEAR_10000 / 86400 - 1)) in * by (vm_compute; discriminate).
  change (year (civil_from_days (YEAR_10000 / 86400 - 1))) with 9999 in *. lia.
Qed.

(** The parts of a stamp before the year 10000 have their widths. *)
Lemma stamp_parts x : 0 ≤ x < YEAR_10000 → let d := date_of_day (x / 86400) in
  0 ≤ year d < 10 ^ Z.of_nat 4 ∧ 0 ≤ month d < 10 ^ Z.of_nat 2 ∧ 0 ≤ day d < 10 ^ Z.of_nat 2
  ∧ 0 ≤ x mod 86400 / 3600 < 10 ^ Z.of_nat 2 ∧ 0 ≤ x mod 86400 mod 3600 / 60 < 10 ^ Z.of_nat 2
  ∧ 0 ≤ x mod 86400 mod 60 < 10 ^ Z.of_nat 2.
Proof.
  intros Hx d. assert (0 ≤ x / 86400 < YEAR_10000 / 86400) as Hb.
  { change (YEAR_10000 / 86400) with 2932897. unfold YEAR_10000 in Hx. dm_lia. }
  pose proof (date_year (x / 86400) Hb) as Hy.
  pose proof (date_valid (x / 86400)) as [Hm Hd]. fold d in Hy, Hm, Hd.
  assert (month_len (leap (year d)) (month d) ≤ 31) by (unfold month_len; repeat case_match; lia).
  change (10 ^ Z.of_nat 4) with 10000. change (10 ^ Z.of_nat 2) with 100. split_and!; dm_lia.
Qed.

Lemma format_eq secs : 0 ≤ secs →
  format_local_timestamp secs
  = pad 4 (year (date_of_day (secs / 86400))) ++ pad 2 (month (date_of_day (secs / 86400)))
    ++ pad 2 (day (date_of_day (secs / 86400))) ++ pad 2 (secs mod 86400 / 3600)
    ++ pad 2 (secs mod 86400 mod 3600 / 60) ++ pad 2 (secs mod 86400 mod 60).
Proof. intros H. unfold format_local_timestamp. rewrite civil_date by dm_lia. done. Qed.

Lemma stamp_inj secs secs' : 0 ≤ secs < YEAR_10000 → 0 ≤ secs' < YEAR_10000 →
  format_local_timestamp secs' = format_local_timestamp secs → secs' = secs.
Proof.
  intros Hs Hs'. rewrite !format_eq by lia.
  destruct (stamp_parts secs Hs) as (R1 & R2 & R3 & R4 & R5 & R6).
  destruct (stamp_parts secs' Hs') as (Q1 & Q2 & Q3 & Q4 & Q5 & Q6).
  intros (E1 & (E2 & (E3 & (E4 & (E5 & E6)%pad_app_inj)%pad_app_inj)%pad_app_inj)%pad_app_inj)%pad_app_inj; try done; try lia.
  apply pad_inj in E6; [|lia..].
  assert (secs' / 86400 = secs / 86400) as Ed.
  { assert (ordinal (date_of_day (secs' / 86400)) = ordinal (date_of_day (secs / 86400))) as Eo
      by (unfold ordinal; congruence).
    assert (0 ≤ secs / 86400 ∧ 0 ≤ secs' / 86400) as [? ?] by dm_lia.
    destruct (Z.lt_trichotomy (secs' / 86400) (secs / 86400)) as [H'|[H'|H']]; [|done|].
    - pose proof (date_ordinal (secs' / 86400) (secs / 86400) ltac:(lia)). lia.
    - pose proof (date_ordinal (secs / 86400) (secs' / 86400) ltac:(lia)). lia. }
  dm_lia.
Qed.

(** The time stamp in the name of a recording, for every [u64]. The date is
    the one reached by counting days from the first of January 1970 with the
    leap years of the Gregorian calendar, the time is UTC. Before the year
    10000 the stamp has 14 digits and different seconds have different
    stamps. *)
Theorem stamp_correct secs :
  0 ≤ secs < 2 ^ 64 →
  let date := date_of_day (secs / 86400) in
  let s := secs mod 86400 in
  valid date
  ∧ format_local_timestamp secs
    = pad 4 (year date) ++ pad 2 (month date) ++ pad 2 (day date)
      ++ pad 2 (s / 3600) ++ pad 2 (s mod 3600 / 60) ++ pad 2 (s mod 60)
  ∧ (secs < YEAR_10000 →
       length (format_local_timestamp secs) = 14%nat
       ∧ ∀ secs', 0 ≤ secs' < YEAR_10000 →
           format_local_timestamp secs' = format_local_timestamp secs → secs' = secs).
Proof.
  intros Hs. cbv zeta. split; [apply date_valid|]. split; [apply format_eq; lia|].
  intros Hlt. split.
  - rewrite format_eq by lia. destruct (stamp_parts secs ltac:(lia)) as (? & ? & ? & ? & ? & ?).
    rewrite !length_app, !pad_length by (done || lia). done.
  - intros secs' Hs'. apply stamp_inj; lia.
Qed.

Lemma stamp_correct_witness :
  let s := 1709251199 mod 86400 in
  (valid (date_of_day (1709251199 / 86400))
   ∧ format_local_timestamp 1709251199
     = pad 4 2024 ++ pad 2 2 ++ pad 2 29 ++ pad 2 (s / 3600) ++ pad 2 (s mod 3600 / 60) ++ pad 2 (s mod 60))
  ∧ format_local_timestamp 1709251199 = bytes_of_string "20240229235959".
Proof.
  cbv zeta. pose proof (stamp_correct 1709251199) as H. cbv zeta in H.
  rewrite <-(civil_date (1709251199 / 86400)) in * by (vm_compute; discriminate).
  split; [|vm_compute; reflexivity]. destruct H as (Hv & E & _); [lia|]. split; [exact Hv | exact E].
Defined.
