(* ===== verification/Remux.v ===== *)
(** * Fragmented MP4 for browsers ([crates/streaming/src/fmp4.rs], the task of
    [crates/web/src/routes/mse.rs])

    The remuxer of one connection, from the frames of the hub to the init
    segment and the media segments, and the task that drives it. The muxer
    itself, muxide's [FragmentedMuxer], is a class. *)
From Stdlib Require Import ZArith Lia List Bool String.
From stdpp Require Import base option list numbers.
From S2P Require Import Prelude H264 Media.

(** The fields of [FragmentConfig] that the code sets to other than a
    constant; [timescale] is 90000. *)
Record FragmentConfig := mkConfig {
  config_width : Z; config_height : Z; config_duration_ms : Z; config_sps : bytes; config_pps : bytes }.

(** [FragmentedMuxer] of muxide. *)
Class FragmentedMuxer (Mux : Type) := {
  muxer_new : FragmentConfig → Mux;
  init_segment : Mux → Mux * bytes;
  write_video : Mux → Z → Z → bytes → bool → option Mux;
  ready_to_flush : Mux → bool;
  flush_segment : Mux → Mux * option bytes }.

(** ** The remuxer *)
Definition nal_type (byte0 : Z) : Z := Z.land byte0 0x1f.

Definition nal_to_avcc (nal : bytes) : bytes := to_be 4 (wrap32 (zlen nal)) ++ nal.

(** [saturating_mul] of [u64] *)
Definition ms_to_ticks (ms : Z) : Z := Z.min (ms * 90000) (2 ^ 64 - 1) / 1000.

Definition TFDT : bytes := [116; 102; 100; 116].

(** The position of the first window of four bytes that is [tfdt]. *)
Fixpoint tfdt_pos (data : bytes) : option nat :=
  match data with
  | [] => None
  | _ :: tl => if bool_decide (take 4 data = TFDT) then Some 0%nat else S <$> tfdt_pos tl
  end.

Section Remuxer.
Context {Mux : Type} `{FragmentedMuxer Mux}.

Record Inner := mkInner {
  muxer : Mux; init_sent : bool; first_base_ticks : Z; saw_sample : bool; first_segment_retimed : bool }.

Record Fmp4Remuxer := mkRemuxer {
  inner : option Inner; fragment_duration_ms : Z; pending_sps : option bytes; pending_pps : option bytes }.

Inductive Fmp4Chunk := Init (b : bytes) | Segment (b : bytes).
Definition into_bytes (c : Fmp4Chunk) : bytes := match c with Init b | Segment b => b end.

Definition with_muxer (m : Mux) (i : Inner) : Inner :=
  mkInner m (init_sent i) (first_base_ticks i) (saw_sample i) (first_segment_retimed i).
Definition with_retimed (i : Inner) : Inner :=
  mkInner (muxer i) (init_sent i) (first_base_ticks i) (saw_sample i) true.
Definition with_inner (i : Inner) (r : Fmp4Remuxer) : Fmp4Remuxer :=
  mkRemuxer (Some i) (fragment_duration_ms r) (pending_sps r) (pending_pps r).

(** The addition to the eight bytes after the version and the flags. *)
Definition shift_tfdt (base : Z) (data : bytes) : option bytes :=
  pos ← tfdt_pos data;
  let value := take 8 (drop (pos + 8) data) in
  if bool_decide (length value = 8%nat)
  then Some (take (pos + 8) data ++ to_be 8 (Z.min (from_be value + base) (2 ^ 64 - 1)) ++ drop (pos + 16) data)
  else None.

Definition retime_first_segment (i : Inner) (data : bytes) : Inner * bytes :=
  if first_segment_retimed i || negb (saw_sample i) then (i, data)
  else if first_base_ticks i =? 0 then (with_retimed i, data)
  else
    match shift_tfdt (first_base_ticks i) data with
    | Some data' => (with_retimed i, data')
    | None => (i, data)
    end.

Definition with_fragment_duration_ms (ms : Z) : Fmp4Remuxer := mkRemuxer None ms None None.
Definition remuxer_new : Fmp4Remuxer := with_fragment_duration_ms 1000.

Definition seed_sps_pps (sps pps : bytes) (r : Fmp4Remuxer) : Fmp4Remuxer :=
  match inner r with
  | None => mkRemuxer None (fragment_duration_ms r) (Some sps) (Some pps)
  | Some _ => r
  end.

(** [init_with_sps_pps]: a parameter set that does not parse counts as
    1280x720. *)
Definition fragment_config (duration : Z) (sps pps : bytes) : FragmentConfig :=
  let '(w, h) := match parse_sps sps with Ok p => (width p, height p) | _ => (1280, 720) end in
  mkConfig w h duration sps pps.

Definition init_with_sps_pps (sps pps : bytes) (r : Fmp4Remuxer) : Fmp4Remuxer :=
  mkRemuxer (Some (mkInner (muxer_new (fragment_config (fragment_duration_ms r) sps pps)) false 0 false false))
    (fragment_duration_ms r) None None.

(** The parameter set that a unit carries, unless there is one already. *)
Definition harvest (data : bytes) (t : Z) (r : Fmp4Remuxer) : Fmp4Remuxer :=
  if (t =? 7) && bool_decide (pending_sps r = None)
  then mkRemuxer (inner r) (fragment_duration_ms r) (Some data) (pending_pps r)
  else if (t =? 8) && bool_decide (pending_pps r = None)
  then mkRemuxer (inner r) (fragment_duration_ms r) (pending_sps r) (Some data)
  else r.

(** The rest of [push] once there is a muxer. *)
Definition push_inner (data : bytes) (keyframe : bool) (timestamp : Z) (i : Inner) : Res (list Fmp4Chunk) * Inner :=
  let '(i, out) :=
    if init_sent i then (i, [])
    else let '(m, b) := init_segment (muxer i) in
         (mkInner m true (first_base_ticks i) (saw_sample i) (first_segment_retimed i), [Init b]) in
  match data with
  | [] => (Panic, i)
  | b0 :: _ =>
      if (6 <=? nal_type b0) && (nal_type b0 <=? 8) then (Ok out, i)
      else
        let pts_ticks := ms_to_ticks timestamp in
        let i := if saw_sample i then i
                 else mkInner (muxer i) (init_sent i) pts_ticks true (first_segment_retimed i) in
        match write_video (muxer i) pts_ticks pts_ticks (nal_to_avcc data) keyframe with
        | None => (Err "fMP4 write_video failed", i)
        | Some m =>
            if ready_to_flush m then
              let '(m, seg) := flush_segment m in
              match seg with
              | Some seg => let '(i, seg) := retime_first_segment (with_muxer m i) seg in (Ok (out ++ [Segment seg]), i)
              | None => (Ok out, with_muxer m i)
              end
            else (Ok out, with_muxer m i)
        end
  end.

Definition push (frame : MediaFrame) (r : Fmp4Remuxer) : Res (list Fmp4Chunk) * Fmp4Remuxer :=
  match frame with
  | AudioFrame _ _ => (Ok [], r)
  | VideoFrame keyframe data timestamp =>
      match inner r, data with
      | None, [] => (Panic, r)
      | None, b0 :: _ =>
          let r := harvest data (nal_type b0) r in
          match pending_sps r, pending_pps r with
          | Some sps, Some pps =>
              let r := init_with_sps_pps sps pps r in
              match inner r with
              | Some i => let '(res, i) := push_inner data keyframe timestamp i in (res, with_inner i r)
              | None => (Panic, r)
              end
          | _, _ => (Ok [], r)
          end
      | Some i, _ => let '(res, i) := push_inner data keyframe timestamp i in (res, with_inner i r)
      end
  end.

Definition flush (r : Fmp4Remuxer) : Fmp4Remuxer * option bytes :=
  match inner r with
  | None => (r, None)
  | Some i =>
      let '(m, seg) := flush_segment (muxer i) in
      match seg with
      | Some seg => let '(i, seg) := retime_first_segment (with_muxer m i) seg in (with_inner i r, Some seg)
      | None => (with_inner (with_muxer m i) r, None)
      end
  end.

(** ** The task of a connection *)

(** What the receiver of the hub gives: a frame, or the news that frames were
    lost. The list ends where the broadcast closes. *)
Inductive Received := Frame (f : MediaFrame) | Lagged (n : Z).

Fixpoint mse_loop (l : list Received) (r : Fmp4Remuxer) : list bytes :=
  match l with
  | [] => option_list (flush r).2
  | Lagged _ :: l => mse_loop l r
  | Frame (AudioFrame _ _) :: l => mse_loop l r
  | Frame f :: l =>
      match push f r with
      | (Ok chunks, r) => map into_bytes chunks ++ mse_loop l r
      | (Err _, r) => option_list (flush r).2
      | (_, _) => []
      end
  end.

Definition mse_response (seeded : option (bytes * bytes)) (l : list Received) : list bytes :=
  mse_loop l (match seeded with Some (sps, pps) => seed_sps_pps sps pps remuxer_new | None => remuxer_new end).
End Remuxer.

(** ** The body of a response *)
Section Reference.
Context {Mux : Type} `{FragmentedMuxer Mux}.

(** A video frame, a sample of the muxer. *)
Definition Video : Type := bool * bytes * Z.
Definition Sample : Type := Z * bytes * bool.

Definition videos (l : list Received) : list Video :=
  omap (λ x, match x with Frame (VideoFrame k d t) => Some (k, d, t) | _ => None end) l.

(** The parameter sets, and the frames from the one that completes them. *)
Fixpoint await (sps pps : option bytes) (vs : list Video) : option (bytes * bytes * list Video) :=
  match vs with
  | [] => None
  | (k, d, t) :: rest =>
      let ty := nal_type (default 0 (head d)) in
      let sps' := if ty =? 7 then Some (default d sps) else sps in
      let pps' := if ty =? 8 then Some (default d pps) else pps in
      match sps', pps' with
      | Some s, Some p => Some (s, p, vs)
      | _, _ => await sps' pps' rest
      end
  end.

(** Everything but SEI and parameter sets. *)
Definition is_sample (v : Video) : bool :=
  let t := nal_type (default 0 (head v.1.2)) in negb ((6 <=? t) && (t <=? 8)).
Definition sample_of (v : Video) : Sample := (ms_to_ticks v.2, nal_to_avcc v.1.2, v.1.1).
Definition samples (vs : list Video) : list Sample := map sample_of (List.filter is_sample vs).

(** The segments of a muxer that is written one sample after another, and
    flushed whenever it is ready and at the end or at an error. *)
Fixpoint mux_run (m : Mux) (ss : list Sample) : list bytes :=
  match ss with
  | [] => option_list (flush_segment m).2
  | (ticks, avcc, key) :: ss =>
      match write_video m ticks ticks avcc key with
      | None => option_list (flush_segment m).2
      | Some m =>
          if ready_to_flush m then let '(m, seg) := flush_segment m in option_list seg ++ mux_run m ss
          else mux_run m ss
      end
  end.

(** The first segment that has a [tfdt] is shifted. *)
Fixpoint retime (base : Z) (segs : list bytes) : list bytes :=
  match segs with
  | [] => []
  | seg :: segs =>
      match shift_tfdt base seg with
      | Some seg' => seg' :: segs
      | None => seg :: retime base segs
      end
  end.
Definition retime_from (base : Z) (segs : list bytes) : list bytes := if base =? 0 then segs else retime base segs.

Definition base_of (ss : list Sample) : Z := match head ss with Some s => s.1.1 | None => 0 end.

(** The frame that completes the parameter sets is a sample that the muxer
    refuses: then the init segment is lost with the error. *)
Definition first_refused (m : Mux) (vs : list Video) : bool :=
  match vs with
  | v :: _ => is_sample v && let '(ticks, avcc, key) := sample_of v in bool_decide (write_video m ticks ticks avcc key = None)
  | [] => false
  end.

Definition body_from (a : option (bytes * bytes * list Video)) : list bytes :=
  match a with
  | None => []
  | Some (sps, pps, vs) =>
      let '(m, b) := init_segment (muxer_new (fragment_config 1000 sps pps)) in
      (if first_refused m vs then [] else [b]) ++ retime_from (base_of (samples vs)) (mux_run m (samples vs))
  end.

Definition body (seeded : option (bytes * bytes)) (vs : list Video) : list bytes :=
  body_from (await (fst <$> seeded) (snd <$> seeded) vs).

(** What the connection does to the segments that come. *)
Definition retime_state (i : @Inner Mux) (ss : list Sample) (segs : list bytes) : list bytes :=
  if first_segment_retimed i then segs
  else retime_from (if saw_sample i then first_base_ticks i else base_of ss) segs.

Definition frames_ok (l : list Received) : Prop :=
  Forall (λ x, match x with Frame (VideoFrame _ d _) => d ≠ [] | _ => True end) l.

Lemma retime_first_spec (i : @Inner Mux) seg :
  saw_sample i = true →
  let '(i', seg') := retime_first_segment i seg in
  muxer i' = muxer i ∧ saw_sample i' = true ∧ first_base_ticks i' = first_base_ticks i ∧ init_sent i' = init_sent i
  ∧ ∀ ss ss' segs, retime_state i ss (seg :: segs) = seg' :: retime_state i' ss' segs.
Proof.
  intros Hs. unfold retime_first_segment, retime_state, retime_from. rewrite Hs.
  destruct (first_segment_retimed i) eqn:Er; cbn [orb negb]; [by rewrite Hs, Er|].
  destruct (Z.eqb_spec (first_base_ticks i) 0) as [E0|E0]; cbn [with_retimed muxer saw_sample first_base_ticks first_segment_retimed init_sent].
  - done.
  - destruct (shift_tfdt _ seg) as [seg'|] eqn:Et; cbn [with_retimed muxer saw_sample first_base_ticks first_segment_retimed init_sent].
    + split_and!; [done..|]. intros. cbn [retime]. by rewrite Et.
    + rewrite Er, Hs. split_and!; [done..|]. intros. cbn [retime]. rewrite Et.
      by destruct (Z.eqb_spec (first_base_ticks i) 0).
Qed.

Lemma retime_state_nil (i : @Inner Mux) ss : retime_state i ss [] = [].
Proof. unfold retime_state, retime_from. by repeat case_match. Qed.

Lemma flush_spec (r : @Fmp4Remuxer Mux) i ss : inner r = Some i → (saw_sample i = true ∨ ss = []) →
  option_list (flush r).2 = retime_state i ss (option_list (flush_segment (muxer i)).2).
Proof.
  intros Hi Hs. unfold flush. rewrite Hi. destruct (flush_segment (muxer i)) as [m [seg|]]; [|by rewrite retime_state_nil].
  destruct (saw_sample i) eqn:E.
  - pose proof (retime_first_spec (with_muxer m i) seg E) as S.
    destruct (retime_first_segment (with_muxer m i) seg) as [i' seg']. destruct S as (_ & _ & _ & _ & S).
    specialize (S ss ss []). rewrite retime_state_nil in S. cbn [option_list]. symmetry. exact S.
  - destruct Hs as [?| ->]; [done|]. unfold retime_first_segment, retime_state, retime_from. cbn [with_muxer first_segment_retimed saw_sample].
    rewrite E, orb_true_r. by destruct (first_segment_retimed i).
Qed.

(** The connection after its first sample. *)
Definition note_sample (ticks : Z) (i : @Inner Mux) : Inner :=
  if saw_sample i then i else mkInner (muxer i) (init_sent i) ticks true (first_segment_retimed i).

Lemma note_sample_spec ticks avcc key ss i ss' segs m :
  let i' := with_muxer m (note_sample ticks i) in
  saw_sample i' = true ∧ init_sent i' = init_sent i
  ∧ retime_state i ((ticks, avcc, key) :: ss) segs = retime_state i' ss' segs.
Proof.
  unfold note_sample, retime_state. destruct (saw_sample i) eqn:E; cbn; [by rewrite E | done].
Qed.

Lemma with_muxer_same (i : @Inner Mux) : with_muxer (muxer i) i = i.
Proof. by destruct i. Qed.

Lemma samples_cons key b0 d ts vs :
  samples ((key, b0 :: d, ts) :: vs)
  = if (6 <=? nal_type b0) && (nal_type b0 <=? 8) then samples vs
    else (ms_to_ticks ts, nal_to_avcc (b0 :: d), key) :: samples vs.
Proof. unfold samples, is_sample. cbn. by destruct ((6 <=? nal_type b0) && (nal_type b0 <=? 8)). Qed.

Lemma mse_loop_inner l (r : Fmp4Remuxer) i :
  inner r = Some i → init_sent i = true → frames_ok l →
  mse_loop l r = retime_state i (samples (videos l)) (mux_run (muxer i) (samples (videos l))).
Proof.
  revert r i. induction l as [|x l IH]; intros r i Hi Hsent Hok.
  - exact (flush_spec r i [] Hi (or_intror eq_refl)).
  - apply Forall_cons_1 in Hok as [Hx Hok]. destruct x as [[key data ts|data ts]|n]; [| exact (IH r i Hi Hsent Hok) ..].
    destruct data as [|b0 data]; [done|].
    cbn [mse_loop push]. rewrite Hi. unfold push_inner. rewrite Hsent.
    change (videos (Frame (VideoFrame key (b0 :: data) ts) :: l)) with ((key, b0 :: data, ts) :: videos l).
    rewrite samples_cons. destruct ((6 <=? nal_type b0) && (nal_type b0 <=? 8)); [cbn [map app]; by apply IH|].
    fold (note_sample (ms_to_ticks ts) i). set (ticks := ms_to_ticks ts). set (avcc := nal_to_avcc (b0 :: data)).
    assert (muxer (note_sample ticks i) = muxer i) as -> by (unfold note_sample; by case_match).
    cbn [mux_run]. set (ss := samples (videos l)).
    destruct (write_video (muxer i) ticks ticks avcc key) as [m|].
    + destruct (note_sample_spec ticks avcc key ss i ss (if ready_to_flush m then
        let '(m, seg) := flush_segment m in option_list seg ++ mux_run m ss else mux_run m ss) m) as (Hsaw & Hs' & ->).
      destruct (ready_to_flush m); [|cbn [map app]; apply (IH _ (with_muxer m (note_sample ticks i))); [done | by rewrite Hs' | done]].
      destruct (flush_segment m) as [m' [seg|]].
      * pose proof (retime_first_spec (with_muxer m' (note_sample ticks i)) seg Hsaw) as S.
        destruct (retime_first_segment _ seg) as [i' seg']. destruct S as (Hm & Hsaw' & _ & Hinit & S).
        cbn [map app option_list into_bytes].
        change (retime_state (with_muxer m (note_sample ticks i))) with (retime_state (with_muxer m' (note_sample ticks i))).
        change (option_list (Some seg) ++ mux_run m' ss) with (seg :: mux_run m' ss). rewrite (S ss ss). f_equal. rewrite (IH _ i'); [by rewrite Hm | done | | done]. rewrite Hinit. exact (eq_trans Hs' Hsent).
      * cbn [map app option_list]. apply (IH _ (with_muxer m' (note_sample ticks i))); [done | by rewrite <-Hsent | done].
    + destruct (note_sample_spec ticks avcc key ss i ss (option_list (flush_segment (muxer i)).2) (muxer i)) as (Hsaw & _ & ->).
      rewrite (flush_spec _ (note_sample ticks i) ss); [|done | left; exact Hsaw].
      assert (muxer (note_sample ticks i) = muxer i) as -> by (unfold note_sample; by case_match).
      unfold retime_state. done.
Qed.

Lemma first_refused_cons (m : Mux) key b0 d ts vs :
  first_refused m ((key, b0 :: d, ts) :: vs)
  = negb ((6 <=? nal_type b0) && (nal_type b0 <=? 8))
    && bool_decide (write_video m (ms_to_ticks ts) (ms_to_ticks ts) (nal_to_avcc (b0 :: d)) key = None).
Proof. done. Qed.

Lemma push_first (m : Mux) b key b0 d ts (i : Inner) :
  init_sent i = false → init_segment (muxer i) = (m, b) → saw_sample i = false →
  let i1 := mkInner m true (first_base_ticks i) false (first_segment_retimed i) in
  let '(res, i') := push_inner (b0 :: d) key ts i1 in
  push_inner (b0 :: d) key ts i
  = (match res with Ok chunks => Ok (Init b :: chunks) | r => r end, i')
  ∧ safe res ∧ ((∃ e, res = Err e) ↔ first_refused m [(key, b0 :: d, ts)] = true).
Proof.
  intros Hs Hi Hsaw. rewrite first_refused_cons. unfold push_inner. rewrite Hs, Hi.
  cbn [init_sent muxer saw_sample first_base_ticks first_segment_retimed]. rewrite Hsaw. cbn [muxer init_sent].
  assert (∀ cs (i' : @Inner Mux), (Ok (Init b :: cs), i') = (Ok (Init b :: cs), i') ∧ safe (Ok cs)
    ∧ ((∃ e, Ok cs = Err e) ↔ false = true)) as Hok.
  { intros cs i'. split; [done|]. split; [done|]. split; [by intros [? ?] | done]. }
  destruct ((6 <=? nal_type b0) && (nal_type b0 <=? 8)); cbn [negb andb]; [apply Hok|].
  destruct (write_video m _ _ _ key) as [m'|].
  - rewrite bool_decide_false by done. destruct (ready_to_flush m'); [|apply Hok].
    destruct (flush_segment m') as [m2 [seg|]]; [|apply Hok].
    destruct (retime_first_segment _ seg) as [i' seg']. apply Hok.
  - rewrite bool_decide_true by done. split; [done|]. split; [done|]. split; eauto.
Qed.

Lemma harvest_spec b0 d (r : @Fmp4Remuxer Mux) :
  let r' := harvest (b0 :: d) (nal_type b0) r in
  inner r' = inner r ∧ fragment_duration_ms r' = fragment_duration_ms r
  ∧ pending_sps r' = (if nal_type b0 =? 7 then Some (default (b0 :: d) (pending_sps r)) else pending_sps r)
  ∧ pending_pps r' = (if nal_type b0 =? 8 then Some (default (b0 :: d) (pending_pps r)) else pending_pps r).
Proof.
  unfold harvest. destruct (Z.eqb_spec (nal_type b0) 7) as [E7|E7], (Z.eqb_spec (nal_type b0) 8) as [E8|E8]; try lia;
    destruct (pending_sps r) as [s|] eqn:Es, (pending_pps r) as [q|] eqn:Eq; cbn; rewrite ?Es, ?Eq; done.
Qed.

Lemma mse_loop_await l (r : @Fmp4Remuxer Mux) :
  inner r = None → fragment_duration_ms r = 1000 → frames_ok l →
  mse_loop l r = body_from (await (pending_sps r) (pending_pps r) (videos l)).
Proof.
  revert r. induction l as [|x l IH]; intros r Hi Hd Hok.
  - cbn. unfold flush. by rewrite Hi.
  - pose proof (Forall_cons_1 _ _ _ Hok) as [Hx Hok']. destruct x as [[key data ts|data ts]|n];
      [| exact (IH r Hi Hd Hok') ..].
    destruct data as [|b0 d]; [done|]. clear Hx.
    change (videos (Frame (VideoFrame key (b0 :: d) ts) :: l)) with ((key, b0 :: d, ts) :: videos l).
    cbn [mse_loop push]. rewrite Hi.
    destruct (harvest_spec b0 d r) as (Hi' & Hd' & Hs & Hp). set (r1 := harvest (b0 :: d) (nal_type b0) r) in *.
    cbn [await]. change (nal_type (default 0 (head (b0 :: d)))) with (nal_type b0). rewrite <-Hs, <-Hp.
    destruct (pending_sps r1) as [sps|] eqn:Es; [destruct (pending_pps r1) as [pps|] eqn:Ep|]; cycle 1.
    { pose proof (IH r1 ltac:(congruence) ltac:(congruence) Hok') as I. rewrite Es, Ep in I. exact I. }
    { pose proof (IH r1 ltac:(congruence) ltac:(congruence) Hok') as I. rewrite Es in I. exact I. }
    assert (init_with_sps_pps sps pps r1
      = mkRemuxer (Some (mkInner (muxer_new (fragment_config 1000 sps pps)) false 0 false false)) 1000 None None) as ->
      by (unfold init_with_sps_pps; by rewrite Hd', Hd).
    cbn [inner body_from]. set (i0 := mkInner (muxer_new (fragment_config 1000 sps pps)) false 0 false false).
    destruct (init_segment (muxer_new (fragment_config 1000 sps pps))) as [m b] eqn:Em.
    set (r2 := mkRemuxer (Some i0) 1000 None None). set (i1 := mkInner m true 0 false false).
    pose proof (mse_loop_inner (Frame (VideoFrame key (b0 :: d) ts) :: l) (with_inner i1 r2) i1 eq_refl eq_refl Hok) as L.
    pose proof (push_first m b key b0 d ts i0 eq_refl Em eq_refl) as F. cbv zeta in F. change (mkInner m true _ false _) with i1 in F.
    cbn [mse_loop push with_inner inner] in L.
    change (videos (Frame (VideoFrame key (b0 :: d) ts) :: l)) with ((key, b0 :: d, ts) :: videos l) in L.
    rewrite first_refused_cons in *.
    destruct (push_inner (b0 :: d) key ts i1) as [res i']. destruct F as (-> & Hnp & Hr).
    change (retime_state i1 ?ss ?segs) with (retime_from (base_of ss) segs) in L. cbn [muxer i1] in L.
    rewrite <-L. destruct res as [chunks|e| |]; cbn [map].
    + replace (_ && _) with false; [done|]. symmetry. apply not_true_iff_false. intros Hc. apply Hr in Hc as [? ?]. done.
    + assert (_ && _ = true) as -> by (apply Hr; eauto). done.
    + destruct Hnp.
    + destruct Hnp.
Qed.

Lemma parse_sps_returns d : bytes_ok d → safe (parse_sps d).
Proof.
  intros Hd. pose proof (parse_nal_header_post d Hd) as Hh. unfold parse_sps.
  destruct (parse_nal_header d) as [[h rest]|e| |]; try done. cbn [mbind Res_bind].
  destruct (negb _); [done|]. apply parse_set_safe, sps_body_post.
Qed.

(** C31 The body of an MSE response, for every muxer and every stream of frames
    that are not empty, with losses anywhere. Nothing is sent until both
    parameter sets are known, the seed or the first of each kind; then the
    init segment, once, and the segments of a muxer that is given, from that
    frame on and across losses, every unit but SEI and parameter sets in order,
    as AVCC with its time in 90 kHz ticks. It is flushed when it is ready and at
    the end, and the time of the first sample is added to the decode time of
    the first segment that has one. Only the error of a sample that is itself the
    first frame loses the init segment. A sample splits back into its unit, and
    the parser of the seed always returns. *)
Theorem mse_body seeded l :
  frames_ok l →
  mse_response seeded l = body seeded (videos l)
  ∧ (∀ v, v ∈ videos l → 0 < zlen v.1.2 < 2 ^ 32 → split_nal_units_avcc (sample_of v).1.2 = Ok [v.1.2])
  ∧ (∀ sps, bytes_ok sps → safe (parse_sps sps)).
Proof.
  intros Hok. split_and!; [| |exact parse_sps_returns].
  - unfold mse_response, body. rewrite mse_loop_await; [by destruct seeded as [[sps pps]|] | by destruct seeded as [[sps pps]|] ..|done].
  - intros v _ Hl. unfold sample_of, nal_to_avcc, wrap32. cbn [fst snd]. rewrite Z.mod_small by lia.
    pose proof (avcc_loop_spec [v.1.2] [] (S (length (avcc [v.1.2])))) as A. cbn [avcc flat_map] in A.
    rewrite app_nil_r in A. apply A; [by constructor | lia].
Qed.
End Reference.

(** ** A muxer that can be run

    The samples since the last flush; it is ready at two. A segment is a [tfdt]
    with the time of its first sample since the start, and the samples. *)
Record ToyMux := mkToy { toy_config : FragmentConfig; toy_first : option Z; toy_samples : list Sample }.

#[local] Instance toy_muxer : FragmentedMuxer ToyMux := {
  muxer_new c := mkToy c None [];
  init_segment m := (m, config_sps (toy_config m) ++ config_pps (toy_config m));
  write_video m pts dts data key :=
    Some (mkToy (toy_config m) (Some (default pts (toy_first m))) (toy_samples m ++ [(pts, data, key)]));
  ready_to_flush m := (2 <=? length (toy_samples m))%nat;
  flush_segment m :=
    match toy_samples m with
    | [] => (m, None)
    | (t, _, _) :: _ =>
        (mkToy (toy_config m) (toy_first m) [],
         Some (TFDT ++ [1; 0; 0; 0] ++ to_be 8 (t - default 0 (toy_first m))
               ++ flat_map (λ s : Sample, Z_of_bool s.2 :: s.1.2) (toy_samples m)))
    end }.

Definition slice_frame (key : bool) (b t : Z) : Received := Frame (VideoFrame key [if key then 0x65 else 0x41; b] t).
Definition sps_frame : Received := Frame (VideoFrame true [0x67; 1] 0).
Definition pps_frame : Received := Frame (VideoFrame true [0x68; 2] 0).

(** With a seed the first sample is the slice that comes first, though it is
    not a keyframe, and so it is after a loss; the parameter sets of the stream
    do not replace the seed. *)
Lemma mse_body_witness :
  let l := [slice_frame false 7 1000; sps_frame; pps_frame; slice_frame true 8 1040; Lagged 5; slice_frame false 9 1300] in
  (mse_response (Some ([0x67; 9], [0x68; 9])) l = body (Some ([0x67; 9], [0x68; 9])) (videos l)
   ∧ (∀ v, v ∈ videos l → 0 < zlen v.1.2 < 2 ^ 32 → split_nal_units_avcc (sample_of v).1.2 = Ok [v.1.2])
   ∧ (∀ sps, bytes_ok sps → safe (parse_sps sps)))
  ∧ mse_response (Some ([0x67; 9], [0x68; 9])) l
    = [[0x67; 9; 0x68; 9];
       TFDT ++ [1; 0; 0; 0] ++ to_be 8 90000 ++ [0; 0; 0; 0; 2; 0x41; 7] ++ [1; 0; 0; 0; 2; 0x65; 8];
       TFDT ++ [1; 0; 0; 0] ++ to_be 8 27000 ++ [0; 0; 0; 0; 2; 0x41; 9]].
Proof.
  cbv zeta. split; [|vm_compute; reflexivity]. apply mse_body. repeat constructor; discriminate.
Defined.

(** An empty frame ends the response without its tail. *)
Example empty_frame_ends :
  mse_response (Some ([0x67], [0x68])) [slice_frame true 1 0; Frame (VideoFrame false [] 40)] = [[0x67; 0x68]].
Proof. vm_compute. reflexivity. Qed.
