(* ===== verification/Recording.v ===== *)
(** * Local recording ([crates/streaming/src/output/file.rs])

    The output that writes rolling MP4 files: when a file is opened, rotated,
    paused and closed, what goes into which file, and the pruning of old
    files. A file is the list of what muxide's [Muxer] was given for it, and
    whether the muxer still writes it, has finished it, or was lost before it
    could (then the file may be incomplete); the clock, the negotiated
    dimensions and the outcome of every call of the file system and of the
    muxer are arguments of a call. *)
From Stdlib Require Import ZArith Lia List Bool String.
From stdpp Require Import base option list numbers gmap sorting.
From S2P Require Import Prelude Text F32 Media Calendar.

(** ** Pruning *)
Record Entry := mkEntry { path : bytes; mtime : Z; size : Z }.

(** The stable sort by modification time. *)
Fixpoint insert_entry (e : Entry) (l : list Entry) : list Entry :=
  match l with
  | [] => [e]
  | x :: l => if mtime e <? mtime x then e :: x :: l else x :: insert_entry e l
  end.
Definition sort_entries (l : list Entry) : list Entry := fold_left (λ s e, insert_entry e s) l [].

(** The loop: what is left, and what has been removed. *)
Fixpoint prune_loop (remove : bytes → bool) (max_bytes remaining : Z) (l : list Entry) : Z * list bytes :=
  match l with
  | [] => (remaining, [])
  | e :: l =>
      if remaining <=? max_bytes then (remaining, [])
      else if remove (path e)
      then let '(r, removed) := prune_loop remove max_bytes (wrap64 (remaining - size e)) l in (r, path e :: removed)
      else prune_loop remove max_bytes remaining l
  end.

Definition total_size (l : list Entry) : Z := fold_left (λ s e, wrap64 (s + size e)) l 0.

(** [prune_oldest_if_needed] on the MP4 files of the directory. *)
Definition prune_oldest_if_needed (max_capacity_mb : Z) (remove : bytes → bool) (entries : list Entry)
    : bool * list bytes :=
  if max_capacity_mb =? 0 then (false, [])
  else
    let max_bytes := wrap64 (wrap64 (max_capacity_mb * 1024) * 1024) in
    let total := total_size entries in
    if total <=? max_bytes then (false, [])
    else let '(remaining, removed) := prune_loop remove max_bytes total (sort_entries entries) in
         (remaining <? total, removed).

(** ** Files *)
Record Dimensions := mkDims { d_width : Z; d_height : Z; d_fps : f32 }.

(** A sample: presentation time in seconds, Annex B bytes, keyframe. *)
Definition Sample : Type := f64 * bytes * bool.

Inductive FileState := Writing | Finished | Torn.
Record File := mkFile { f_dims : Dimensions; f_samples : list Sample; f_state : FileState }.

(** The files ever created, oldest first, and the directory. *)
Record Disk := mkDisk { inodes : list File; dir : gmap bytes nat }.

Record ActiveSegment := mkActive { inode : nat; created_at : Z }.

Record FileOutput := mkOutput {
  camera_id : bytes; directory : bytes; segment_duration_secs : Z; max_capacity_mb : Z;
  dims : Dimensions; active : option ActiveSegment; segment_start_pts : f64; started : bool;
  was_paused : bool; frame_count : Z; segment_slot : option (bytes * Z) }.

(** What a call meets: the pause flag, the live dimensions if any, the wall
    clock in seconds, a monotonic clock in milliseconds, the outcomes of
    creating the file, of building the muxer, of writing the sample and of
    finishing the muxer of the segment that is closed, and for a pruning the directory and which removals succeed. *)
Record Env := mkEnv {
  e_paused : bool; e_dims : option Dimensions; e_now : Z; e_mono : Z;
  e_create : bool; e_build : bool; e_write : bool; e_finish : bool; e_entries : option (list Entry); e_remove : bytes → bool }.

Definition output_new (dir cam : bytes) (duration capacity : Z) : FileOutput :=
  mkOutput cam dir duration capacity (mkDims 1280 720 (f32_of_Z 30)) None f32_zero false false 0 None.

Definition set_active (a : option ActiveSegment) (o : FileOutput) : FileOutput :=
  mkOutput (camera_id o) (directory o) (segment_duration_secs o) (max_capacity_mb o) (dims o) a
    (segment_start_pts o) (started o) (was_paused o) (frame_count o) (segment_slot o).
Definition set_dims (d : Dimensions) (o : FileOutput) : FileOutput :=
  mkOutput (camera_id o) (directory o) (segment_duration_secs o) (max_capacity_mb o) d (active o)
    (segment_start_pts o) (started o) (was_paused o) (frame_count o) (segment_slot o).
Definition set_start (p : f64) (o : FileOutput) : FileOutput :=
  mkOutput (camera_id o) (directory o) (segment_duration_secs o) (max_capacity_mb o) (dims o) (active o)
    p (started o) (was_paused o) (frame_count o) (segment_slot o).
Definition set_started (b : bool) (o : FileOutput) : FileOutput :=
  mkOutput (camera_id o) (directory o) (segment_duration_secs o) (max_capacity_mb o) (dims o) (active o)
    (segment_start_pts o) b (was_paused o) (frame_count o) (segment_slot o).
Definition set_paused (b : bool) (o : FileOutput) : FileOutput :=
  mkOutput (camera_id o) (directory o) (segment_duration_secs o) (max_capacity_mb o) (dims o) (active o)
    (segment_start_pts o) (started o) b (frame_count o) (segment_slot o).
Definition set_count (n : Z) (o : FileOutput) : FileOutput :=
  mkOutput (camera_id o) (directory o) (segment_duration_secs o) (max_capacity_mb o) (dims o) (active o)
    (segment_start_pts o) (started o) (was_paused o) n (segment_slot o).
Definition set_slot (s : option (bytes * Z)) (o : FileOutput) : FileOutput :=
  mkOutput (camera_id o) (directory o) (segment_duration_secs o) (max_capacity_mb o) (dims o) (active o)
    (segment_start_pts o) (started o) (was_paused o) (frame_count o) s.

(** [File::create]: an entry of the same name is truncated, and what it held
    is no longer in the directory. *)
Definition create_file (name : bytes) (d : Dimensions) (k : Disk) : Disk * nat :=
  (mkDisk (inodes k ++ [mkFile d [] Writing]) (<[name := length (inodes k)]> (dir k)), length (inodes k)).
(** [finish_with_stats], that consumes the muxer whether it succeeds or not. *)
Definition close_file (finish : bool) (i : nat) (k : Disk) : Disk :=
  mkDisk (alter (λ f, mkFile (f_dims f) (f_samples f) (if finish then Finished else Torn)) i (inodes k)) (dir k).
Definition append_sample (i : nat) (s : Sample) (k : Disk) : Disk :=
  mkDisk (alter (λ f, mkFile (f_dims f) (f_samples f ++ [s]) (f_state f)) i (inodes k)) (dir k).

Definition World : Type := FileOutput * Disk.

Definition close_current_segment (finish : bool) (w : World) : World :=
  match active w.1 with
  | Some a => (set_active None w.1, close_file finish (inode a) w.2)
  | None => w
  end.

Definition segment_name (o : FileOutput) (now : Z) : bytes :=
  directory o ++ bytes_of_string "/" ++ camera_id o ++ bytes_of_string "_" ++ format_local_timestamp now
  ++ bytes_of_string ".mp4".

Definition open_new_segment (e : Env) (w : World) : World :=
  let '(o, k) := close_current_segment (e_finish e) w in
  let o := match e_dims e with Some d => set_dims d o | None => o end in
  let name := segment_name o (e_now e) in
  let o := set_slot (Some (name, wrap64 (e_now e * 1000))) o in
  if negb (e_create e) then (o, k)
  else
    let '(k, i) := create_file name (dims o) k in
    if negb (e_build e) then (o, close_file false i k)
    else (set_active (Some (mkActive i (e_mono e))) o, k).

(** [pause_transition]: whether frames are held. *)
Definition pause_transition (paused : bool) (o : FileOutput) : bool * FileOutput :=
  if paused then (true, set_paused true o) else (false, set_paused false o).

Definition start_code : bytes := [0; 0; 0; 1].
Definition seconds (timestamp : Z) : f64 := f64_div (f64_of_Z timestamp) (f64_of_Z 1000).

Definition is_due (e : Env) (o : FileOutput) : bool :=
  match active o with
  | Some a => segment_duration_secs o <=? (e_mono e - created_at a) / 1000
  | None => true
  end.

(** [send_frame]: the answer, the output and the disk. *)
Definition send_frame (e : Env) (f : MediaFrame) (w : World) : Res unit * World :=
  match f with
  | AudioFrame _ _ => (Ok tt, w)
  | VideoFrame keyframe data timestamp =>
      let '(hold, o) := pause_transition (e_paused e) w.1 in
      let w := (o, w.2) in
      if hold then (Ok tt, close_current_segment (e_finish e) w)
      else if negb (started o) then (Err "FileOutput not started", w)
      else
        let open_now := is_due e o && (keyframe || bool_decide (active o = None)) in
        let '(o, k) := if open_now then
                         let '(o, k) := open_new_segment e w in (set_start (seconds timestamp) o, k)
                       else w in
        match active o with
        | None => (Err "no active MP4 segment", (o, k))
        | Some a =>
            let pts := f64_max_zero (f64_sub (seconds timestamp) (segment_start_pts o)) in
            if negb (e_write e) then (Err "muxide write_video failed", (o, k))
            else
              let k := append_sample (inode a) (pts, start_code ++ data, keyframe) k in
              let n := wrap64 (frame_count o + 1) in
              let o := set_count n o in
              let k := if n mod 1000 =? 0 then
                         match e_entries e with
                         | Some entries =>
                             mkDisk (inodes k)
                               (foldr delete (dir k)
                                  (prune_oldest_if_needed (max_capacity_mb o) (e_remove e) entries).2)
                         | None => k
                         end
                       else k in
              (Ok tt, (o, k))
        end
  end.

Definition start (created : bool) (w : World) : Res unit * World :=
  if created then (Ok tt, (set_started true w.1, w.2)) else (Err "create_dir_all", w).

Definition stop (finish : bool) (w : World) : Res unit * World :=
  let w := close_current_segment finish w in (Ok tt, (set_started false w.1, w.2)).

(** ** A run *)
Inductive Event := Start (created : bool) | Frame (e : Env) (f : MediaFrame) | Stop (finish : bool).

Definition step (ev : Event) (w : World) : Res unit * World :=
  match ev with Start created => start created w | Frame e f => send_frame e f w | Stop finish => stop finish w end.

(** The frames that were accepted while not paused, the seconds at which files
    were created, the names that prunings removed, and the files whose muxer
    could not be finished or not be built, counted from the first file ever. *)
Record History := mkHistory { h_samples : list (bytes * bool); h_opened : list Z; h_removed : list bytes; h_torn : list nat }.

Definition opens (e : Env) (keyframe : bool) (o : FileOutput) : bool :=
  is_due e o && (keyframe || bool_decide (active o = None)).

Definition removed_by (e : Env) (o : FileOutput) : list bytes :=
  if wrap64 (frame_count o + 1) mod 1000 =? 0 then
    match e_entries e with
    | Some entries => (prune_oldest_if_needed (max_capacity_mb o) (e_remove e) entries).2
    | None => []
    end
  else [].

Definition torn_close (finish : bool) (o : FileOutput) : list nat :=
  match active o with Some a => if finish then [] else [inode a] | None => [] end.
Definition torn_open (e : Env) (w : World) : list nat :=
  torn_close (e_finish e) w.1 ++ if e_create e && negb (e_build e) then [length (inodes w.2)] else [].

Definition note (ev : Event) (w : World) (h : History) : History :=
  match ev with
  | Frame e (VideoFrame keyframe data timestamp) =>
      if e_paused e then mkHistory (h_samples h) (h_opened h) (h_removed h) (h_torn h ++ torn_close (e_finish e) w.1)
      else if negb (started w.1) then h
      else
        let ok := is_ok (step ev w).1 in
        mkHistory (h_samples h ++ if ok then [(start_code ++ data, keyframe)] else [])
          (h_opened h ++ if opens e keyframe w.1 && e_create e then [e_now e] else [])
          (h_removed h ++ if ok then removed_by e w.1 else [])
          (h_torn h ++ if opens e keyframe w.1 then torn_open e w else [])
  | Stop finish => mkHistory (h_samples h) (h_opened h) (h_removed h) (h_torn h ++ torn_close finish w.1)
  | _ => h
  end.

Fixpoint run (evs : list Event) (w : World) (h : History) : World * History :=
  match evs with
  | [] => (w, h)
  | ev :: evs => run evs (step ev w).2 (note ev w h)
  end.

Definition empty_disk : Disk := mkDisk [] ∅.
Definition empty_history : History := mkHistory [] [] [] [].

(** ** What is kept *)
Definition contents (k : Disk) : list (bytes * bool) :=
  flat_map (λ f, map (λ s : Sample, (s.1.2, s.2)) (f_samples f)) (inodes k).

(** The active file, the last, is being written, and no other. *)
Definition closed (f : File) : Prop := f_state f ≠ Writing.
Definition files_ok (w : World) : Prop :=
  match active w.1 with
  | Some a => ∃ fs f, inodes w.2 = fs ++ [f] ∧ inode a = length fs ∧ f_state f = Writing ∧ Forall closed fs
  | None => Forall closed (inodes w.2)
  end.

(** The torn files are those of a list. *)
Definition torn_are (l : list File) (torn : list nat) : Prop :=
  ∀ i, i ∈ torn ↔ ∃ f, l !! i = Some f ∧ f_state f = Torn.

Lemma torn_snoc fs f torn : torn_are fs torn → torn_are (fs ++ [f]) (torn ++ match f_state f with Torn => [length fs] | _ => [] end).
Proof.
  intros H i. rewrite elem_of_app, (H i). split.
  - intros [(g & Hg & Ht)|Hi]; [exists g; split; [by apply lookup_app_l_Some | done]|].
    destruct (f_state f) eqn:Ef; [by apply elem_of_nil in Hi..|]. apply list_elem_of_singleton in Hi as ->.
    exists f. by rewrite lookup_app_r, Nat.sub_diag.
  - intros (g & [Hg|[Hle Hg]]%lookup_app_Some & Ht); [left; by exists g|]. right.
    apply list_lookup_singleton_Some in Hg as [Hi <-]. rewrite Ht. apply list_elem_of_singleton. lia.
Qed.
Lemma torn_unsnoc fs f torn : f_state f ≠ Torn → torn_are (fs ++ [f]) torn → torn_are fs torn.
Proof.
  intros Hf H i. rewrite (H i). split; intros (g & Hg & Ht); [|exists g; split; [by apply lookup_app_l_Some | done]].
  apply lookup_app_Some in Hg as [Hg|[_ [_ <-]%list_lookup_singleton_Some]]; [by exists g | done].
Qed.

Lemma alter_last {A} (g : A → A) (l : list A) x : alter g (length l) (l ++ [x]) = l ++ [g x].
Proof. induction l as [|y l IH]; [done|]. change (alter g (length (y :: l)) ((y :: l) ++ [x])) with (y :: alter g (length l) (l ++ [x])). by rewrite IH. Qed.

Lemma contents_snoc fs f d : contents (mkDisk (fs ++ [f]) d) = contents (mkDisk fs d) ++ map (λ s : Sample, (s.1.2, s.2)) (f_samples f).
Proof. unfold contents. cbn. by rewrite flat_map_app; cbn; rewrite app_nil_r. Qed.

Lemma close_spec fin w : files_ok w →
  let w' := close_current_segment fin w in
  files_ok w' ∧ active w'.1 = None ∧ contents w'.2 = contents w.2 ∧ length (inodes w'.2) = length (inodes w.2) ∧ dir w'.2 = dir w.2
  ∧ started w'.1 = started w.1 ∧ (∀ t, segment_name w'.1 t = segment_name w.1 t)
  ∧ ∀ torn, torn_are (inodes w.2) torn → torn_are (inodes w'.2) (torn ++ torn_close fin w.1).
Proof.
  intros H. unfold close_current_segment, torn_close. destruct (active w.1) as [a|] eqn:Ea; [|split_and!; try done; intros torn; by rewrite app_nil_r].
  unfold files_ok in *. rewrite Ea in H. cbn [fst snd set_active active]. destruct H as (fs & f & Hk & Ha & Hf & Hfs).
  destruct w as [o [fl d]]. cbn [snd inodes fst] in *. subst fl. unfold close_file. cbn [inodes dir]. rewrite Ha, alter_last.
  split_and!; try done.
  - apply Forall_app. split; [done|]. repeat constructor. unfold closed. by destruct fin.
  - by rewrite !contents_snoc.
  - by rewrite !length_app.
  - intros torn Ht. apply torn_unsnoc in Ht; [|congruence].
    pose proof (torn_snoc fs (mkFile (f_dims f) (f_samples f) (if fin then Finished else Torn)) torn Ht) as Hs.
    cbn [f_state] in Hs. by destruct fin.
Qed.

Lemma open_spec e w : files_ok w →
  let w' := open_new_segment e w in
  files_ok w' ∧ contents w'.2 = contents w.2 ∧ started w'.1 = started w.1 ∧ (∀ t, segment_name w'.1 t = segment_name w.1 t)
  ∧ length (inodes w'.2) = (length (inodes w.2) + if e_create e then 1 else 0)%nat
  ∧ dir w'.2 = (if e_create e then <[segment_name w.1 (e_now e) := length (inodes w.2)]> (dir w.2) else dir w.2)
  ∧ active w'.1 = (if e_create e && e_build e then Some (mkActive (length (inodes w.2)) (e_mono e)) else None)
  ∧ ∀ torn, torn_are (inodes w.2) torn → torn_are (inodes w'.2) (torn ++ torn_open e w).
Proof.
  intros H. destruct (close_spec (e_finish e) w H) as (C1 & C2 & C3 & C4 & C5 & C6 & C7 & C8). unfold open_new_segment, torn_open.
  destruct (close_current_segment (e_finish e) w) as [o k]. cbn [fst snd] in *.
  set (o1 := match e_dims e with Some d => set_dims d o | None => o end).
  assert (active o1 = None ∧ started o1 = started w.1 ∧ ∀ t, segment_name o1 t = segment_name w.1 t) as (A1 & A2 & A3)
    by (unfold o1; destruct (e_dims e); by split_and!).
  unfold files_ok in C1. cbn [fst snd] in C1. rewrite C2 in C1.
  destruct (e_create e); cbn [negb andb].
  - cbn [create_file dims]. unfold create_file.
    destruct (e_build e); cbn [negb fst snd].
    + split_and!; try done.
      * unfold files_ok. cbn. exists (inodes k), (mkFile (dims o1) [] Writing). by split_and!.
      * rewrite contents_snoc. cbn. by rewrite app_nil_r.
      * cbn. rewrite length_app, C4. done.
      * cbn. by rewrite A3, C4, C5.
      * cbn. by rewrite C4.
      * intros torn Ht. rewrite app_assoc. apply (torn_snoc (inodes k) (mkFile (dims o1) [] Writing)), C8, Ht.
    + unfold close_file. cbn [inodes dir]. rewrite alter_last. cbn [f_dims f_samples]. split_and!; try done.
      * unfold files_ok. cbn [fst snd set_slot active inodes]. rewrite A1. apply Forall_app. by repeat constructor.
      * cbn [snd]. rewrite contents_snoc. cbn. by rewrite app_nil_r.
      * cbn. rewrite length_app, C4. done.
      * cbn. by rewrite A3, C4, C5.
      * intros torn Ht. rewrite app_assoc, <-C4. apply (torn_snoc (inodes k) (mkFile (dims o1) [] Torn)), C8, Ht.
  - cbn [fst snd]. split_and!; try done.
    + unfold files_ok. cbn [fst snd set_slot active]. by rewrite A1.
    + by rewrite C4, Nat.add_0_r.
    + intros torn Ht. rewrite app_nil_r. by apply C8.
Qed.

Lemma append_spec o k a s : files_ok (o, k) → active o = Some a →
  files_ok (o, append_sample (inode a) s k) ∧ contents (append_sample (inode a) s k) = contents k ++ [(s.1.2, s.2)]
  ∧ length (inodes (append_sample (inode a) s k)) = length (inodes k)
  ∧ ∀ torn, torn_are (inodes k) torn → torn_are (inodes (append_sample (inode a) s k)) torn.
Proof.
  intros H Ha. unfold files_ok in *. cbn [fst snd] in *. rewrite Ha in *. destruct H as (fs & f & Hk & Hi & Hf & Hfs).
  unfold append_sample. cbn [inodes]. rewrite Hk, Hi, alter_last. split_and!.
  - by exists fs, (mkFile (f_dims f) (f_samples f ++ [s]) (f_state f)).
  - rewrite contents_snoc. destruct k as [fl d]. cbn [inodes] in Hk. subst fl. rewrite contents_snoc.
    cbn [f_samples]. by rewrite map_app, app_assoc.
  - by rewrite !length_app.
  - intros torn Ht. apply torn_unsnoc in Ht; [|congruence].
    pose proof (torn_snoc fs (mkFile (f_dims f) (f_samples f ++ [s]) (f_state f)) torn Ht) as Hs.
    cbn [f_state] in Hs. rewrite Hf in Hs |- *. by rewrite app_nil_r in Hs.
Qed.

Lemma foldr_delete_lookup (m : gmap bytes nat) l n :
  n ∉ l → foldr delete m l !! n = m !! n.
Proof.
  induction l as [|x l IH]; intros Hn; [done|]. cbn. apply not_elem_of_cons in Hn as [Hx Hn].
  rewrite lookup_delete_ne by done. by apply IH.
Qed.

(** Directory entries, apart from the output they belong to. *)
Definition names_ok (nm : Z → bytes) (k : Disk) (opened : list Z) (removed : list bytes) : Prop :=
  length opened = length (inodes k)
  ∧ (∀ i t, opened !! i = Some t → (∀ j t', (i < j)%nat → opened !! j = Some t' → nm t' ≠ nm t) →
       dir k !! nm t = Some i ∨ nm t ∈ removed).

Lemma names_open nm k k' opened removed now :
  names_ok nm k opened removed → length (inodes k') = S (length (inodes k)) →
  dir k' = <[nm now := length (inodes k)]> (dir k) → names_ok nm k' (opened ++ [now]) removed.
Proof.
  intros [Hl H] Hk Hd. split; [rewrite length_app, Hl, Hk; cbn; lia|]. intros i t Hi Hlast. rewrite Hd.
  apply lookup_app_Some in Hi as [Hi|[Hge Hi]].
  - assert (nm now ≠ nm t) as Hne.
    { apply (Hlast (length opened)); [by eapply lookup_lt_Some | by rewrite lookup_app_r, Nat.sub_diag]. }
    rewrite lookup_insert_ne by done. apply H; [done|]. intros j t' Hj Ht'. apply (Hlast j); [done|].
    by apply lookup_app_l_Some.
  - apply list_lookup_singleton_Some in Hi as [Hi <-]. left. rewrite lookup_insert_eq. f_equal. lia.
Qed.

Lemma names_remove nm k opened removed l :
  names_ok nm k opened removed → names_ok nm (mkDisk (inodes k) (foldr delete (dir k) l)) opened (removed ++ l).
Proof.
  intros [Hl H]. split; [done|]. intros i t Hi Hlast. cbn [dir].
  destruct (decide (nm t ∈ l)) as [?|Hn]; [right; set_solver|]. rewrite foldr_delete_lookup by done.
  destruct (H i t Hi Hlast); [by left | right; set_solver].
Qed.

Record recorded (w : World) (h : History) : Prop := {
  rec_files : files_ok w;
  rec_contents : contents w.2 = h_samples h;
  rec_names : names_ok (segment_name w.1) w.2 (h_opened h) (h_removed h);
  rec_torn : torn_are (inodes w.2) (h_torn h) }.

Lemma names_ext nm nm' k opened removed : (∀ t, nm' t = nm t) → names_ok nm k opened removed → names_ok nm' k opened removed.
Proof.
  intros E [Hl H]. split; [done|]. intros i t Hi Hlast. rewrite E. apply H; [done|].
  intros j t' Hj Ht'. rewrite <-!E. by apply (Hlast j).
Qed.

Lemma names_same nm k k' opened removed : length (inodes k') = length (inodes k) → dir k' = dir k →
  names_ok nm k opened removed → names_ok nm k' opened removed.
Proof. intros Hl Hd [H1 H2]. split; [congruence|]. intros i t. rewrite Hd. apply H2. Qed.

(** The segment a frame goes to, before its sample is written. *)
Definition prepare (e : Env) (keyframe : bool) (timestamp : Z) (w : World) : World :=
  if opens e keyframe w.1
  then let '(o, k) := open_new_segment e w in (set_start (seconds timestamp) o, k) else w.

Lemma prepare_spec e keyframe timestamp w h : recorded w h →
  let w' := prepare e keyframe timestamp w in
  recorded w' (mkHistory (h_samples h) (h_opened h ++ if opens e keyframe w.1 && e_create e then [e_now e] else []) (h_removed h)
      (h_torn h ++ if opens e keyframe w.1 then torn_open e w else []))
  ∧ started w'.1 = started w.1
  ∧ bool_decide (active w'.1 = None) = opens e keyframe w.1 && negb (e_create e && e_build e)
  ∧ frame_count w'.1 = frame_count w.1 ∧ max_capacity_mb w'.1 = max_capacity_mb w.1
  ∧ (∀ t, segment_name w'.1 t = segment_name w.1 t).
Proof.
  intros [Hf Hc Hn Ht]. unfold prepare. destruct (opens e keyframe w.1) eqn:Eo; cbn [andb].
  - destruct (open_spec e w Hf) as (P1 & P2 & P3 & P4 & P5 & P6 & P7 & P7').
    assert (frame_count (open_new_segment e w).1 = frame_count w.1
      ∧ max_capacity_mb (open_new_segment e w).1 = max_capacity_mb w.1) as [P8 P9].
    { clear. unfold open_new_segment, close_current_segment. destruct w as [o k]. cbn [fst snd].
      by destruct (active o), (e_dims e), (e_create e), (e_build e). }
    destruct (open_new_segment e w) as [o k]. cbn [fst snd] in *. split_and!; try done.
    + split; [exact P1 | cbn; congruence | | by apply P7']. cbn [fst snd h_opened h_removed].
      apply (names_ext (segment_name w.1)); [exact P4|].
      destruct (e_create e).
      * apply (names_open _ w.2); [exact Hn | rewrite P5; lia | exact P6].
      * rewrite app_nil_r. apply (names_same _ w.2); [rewrite P5; lia | exact P6 | exact Hn].
    + cbn [fst set_start active]. rewrite P7. by destruct (e_create e && e_build e).
  - rewrite !app_nil_r. split_and!; try done.
    unfold opens, is_due in Eo. apply bool_decide_eq_false. intros E. rewrite E in Eo. cbn in Eo. by rewrite orb_true_r in Eo.
Qed.

Lemma set_paused_id o : was_paused o = false → set_paused false o = o.
Proof. destruct o. by intros [= ->]. Qed.

(** A frame while recording. *)
Lemma frame_spec e keyframe data timestamp w h :
  recorded w h → e_paused e = false → started w.1 = true →
  let '(r, w') := send_frame e (VideoFrame keyframe data timestamp) w in
  recorded w' (note (Frame e (VideoFrame keyframe data timestamp)) w h)
  ∧ is_ok r = e_write e && (negb (opens e keyframe w.1) || (e_create e && e_build e))
  ∧ (∀ t, segment_name w'.1 t = segment_name w.1 t).
Proof.
  intros Hr Hp Hs.
  set (w1 := (set_paused false w.1, w.2) : World).
  assert (recorded w1 h) as Hr1 by (destruct Hr; split; done).
  destruct (prepare_spec e keyframe timestamp w1 h Hr1) as (P1 & P2 & P3 & P4 & P5 & P6).
  change (opens e keyframe w1.1) with (opens e keyframe w.1) in *.
  unfold note. cbn [step]. rewrite Hp, Hs. cbn [negb].
  assert (send_frame e (VideoFrame keyframe data timestamp) w
    = let '(o, k) := prepare e keyframe timestamp w1 in
      match active o with
      | None => (Err "no active MP4 segment", (o, k))
      | Some a =>
          if negb (e_write e) then (Err "muxide write_video failed", (o, k))
          else
            let k := append_sample (inode a) (f64_max_zero (f64_sub (seconds timestamp) (segment_start_pts o)), start_code ++ data, keyframe) k in
            (Ok tt, (set_count (wrap64 (frame_count o + 1)) o, mkDisk (inodes k) (foldr delete (dir k) (removed_by e o))))
      end) as E.
  { unfold send_frame, pause_transition. rewrite Hp. cbn [fst snd set_paused started]. rewrite Hs. cbn [negb].
    unfold prepare, opens, w1. cbn [fst snd].
    destruct (if is_due e (set_paused false w.1) && _ then _ else _) as [o k].
    destruct (active o); [|done]. destruct (negb (e_write e)); [done|]. unfold removed_by. cbn [set_count max_capacity_mb].
    destruct (_ mod 1000 =? 0); [|by destruct (append_sample _ _ _)].
    destruct (e_entries e); [done | by destruct (append_sample _ _ _)]. }
  rewrite E. clear E. destruct (prepare e keyframe timestamp w1) as [o k]. cbn [fst snd] in *.
  assert (removed_by e o = removed_by e w.1) as Hrem by (unfold removed_by; by rewrite P4, P5).
  destruct (active o) as [a|] eqn:Ea.
  - cbn in P3. symmetry in P3. assert (opens e keyframe w.1 && negb (e_create e && e_build e) = false) as P3' by done. clear P3.
    assert (negb (opens e keyframe w.1) || (e_create e && e_build e) = true) as ->
      by (by destruct (opens e keyframe w.1), (e_create e && e_build e)).
    destruct (e_write e); cbn [negb andb is_ok fst]; [|by rewrite !app_nil_r].
    destruct P1 as [F C N T]. cbn [fst snd h_opened h_removed h_samples] in *.
    destruct (append_spec o k a (f64_max_zero (f64_sub (seconds timestamp) (segment_start_pts o)), start_code ++ data, keyframe) F Ea)
      as (A1 & A2 & A3 & A4).
    split_and!; [|done|done]. split; cbn [fst snd h_opened h_removed h_samples].
    + unfold files_ok in *. exact A1.
    + unfold contents in *. cbn [inodes]. rewrite A2, C. done.
    + rewrite Hrem. apply (names_ext (segment_name o)); [done|]. apply names_remove.
      apply (names_same _ k); [exact A3 | done | exact N].
    + by apply A4.
  - assert (opens e keyframe w.1 && negb (e_create e && e_build e) = true) as P3' by done.
    cbn [is_ok fst]. apply andb_true_iff in P3' as [Ho Hb%negb_true_iff]. rewrite Ho, Hb in *. cbn [negb orb].
    rewrite andb_false_r, !app_nil_r. done.
Qed.

Lemma recorded_close fin w h : recorded w h →
  recorded (close_current_segment fin w) (mkHistory (h_samples h) (h_opened h) (h_removed h) (h_torn h ++ torn_close fin w.1)).
Proof.
  intros [F C N T]. destruct (close_spec fin w F) as (C1 & _ & C3 & C4 & C5 & _ & C7 & C8).
  split; [done | cbn; congruence | | by apply C8]. cbn [h_opened h_removed]. apply (names_ext (segment_name w.1)); [done|]. by apply (names_same _ w.2).
Qed.

Lemma recorded_step ev w h : recorded w h → recorded (step ev w).2 (note ev w h).
Proof.
  intros H. destruct ev as [created|e [keyframe data timestamp|data timestamp]|].
  - cbn. destruct created; [|done]. destruct H as [F C N T]. by split.
  - destruct (e_paused e) eqn:Ep; [|destruct (started w.1) eqn:Es].
    + cbn [step note]. rewrite Ep. unfold send_frame, pause_transition. rewrite Ep.
      apply (recorded_close (e_finish e) (set_paused true w.1, w.2)). destruct H as [F C N T]. by split.
    + pose proof (frame_spec e keyframe data timestamp w h H Ep Es) as S. cbn [step].
      destruct (send_frame _ _ w) as [r w']. apply S.
    + cbn [step note]. rewrite Ep, Es. cbn [negb]. unfold send_frame, pause_transition. rewrite Ep.
      cbn [fst snd set_paused started]. rewrite Es. destruct H as [F C N T]. by split.
  - done.
  - cbn. pose proof (recorded_close finish w h H) as [F C N T]. by split.
Qed.

Lemma segment_name_inj o t t' : 0 ≤ t < YEAR_10000 → 0 ≤ t' < YEAR_10000 →
  segment_name o t' = segment_name o t → t' = t.
Proof.
  intros Ht Ht' E. apply stamp_inj; [done..|]. unfold segment_name in E.
  do 4 apply app_inv_head in E. by apply app_inv_tail in E.
Qed.

(** C32 What a recording keeps, over every run of starts, frames, pauses and
    stops, whatever fails: creating a file, building its muxer, writing a
    sample, finishing the muxer, a removal. The muxers of the files were given,
    in the order of their creation, exactly the frames that were accepted, each
    as one Annex B unit; the active file alone is being written, and of the
    others exactly those are torn, and may be incomplete, whose muxer could not
    be built, or not be finished when a rotation, a pause or a stop closed them.
    A file is found under its name unless another was created under the same
    name later, or it was pruned; names of files created in different seconds
    before the year 10000 are different. A frame that is neither held by a
    pause nor early is accepted exactly if the muxer takes it and, when it
    opens a file, that succeeds, whatever became of the file before it: the old
    file is closed before the new one is created, so a failed rotation does not
    go on with the old one. *)
Theorem recording_kept directory cam duration capacity evs :
  let '(w, h) := run evs (output_new directory cam duration capacity, empty_disk) empty_history in
  contents w.2 = h_samples h
  ∧ files_ok w
  ∧ torn_are (inodes w.2) (h_torn h)
  ∧ names_ok (segment_name w.1) w.2 (h_opened h) (h_removed h)
  ∧ (NoDup (h_opened h) → Forall (λ t, 0 ≤ t < YEAR_10000) (h_opened h) →
       ∀ i t, h_opened h !! i = Some t →
         dir w.2 !! segment_name w.1 t = Some i ∨ segment_name w.1 t ∈ h_removed h)
  ∧ (∀ e keyframe data timestamp, e_paused e = false → started w.1 = true →
       is_ok (send_frame e (VideoFrame keyframe data timestamp) w).1
       = e_write e && (negb (opens e keyframe w.1) || (e_create e && e_build e))).
Proof.
  assert (∀ w h, recorded w h → let '(w', h') := run evs w h in recorded w' h') as Hrun.
  { induction evs as [|ev evs IH]; intros w h Hr; [done|]. cbn [run]. apply IH. by apply recorded_step. }
  specialize (Hrun (output_new directory cam duration capacity, empty_disk) empty_history
    ltac:(split; [by apply List.Forall_nil | done | by split |];
      intros i; split; [by intros ?%elem_of_nil | by intros (f & Hf & _)])).
  destruct (run evs _ _) as [w h]. destruct Hrun as [F C N T]. split_and!; try done.
  - intros Hnd Ht i t Hi. apply N; [done|]. intros j t' Hj Ht' E.
    pose proof (Forall_lookup_1 _ _ _ _ Ht Hi). pose proof (Forall_lookup_1 _ _ _ _ Ht Ht').
    apply segment_name_inj in E; [|done..]. subst t'. pose proof (NoDup_lookup _ _ _ _ Hnd Hi Ht'). lia.
  - intros e keyframe data timestamp Hp Hs.
    pose proof (frame_spec e keyframe data timestamp w h ltac:(by split) Hp Hs) as S.
    destruct (send_frame e _ w) as [r w']. apply S.
Qed.

(** ** What pruning removes *)
Fixpoint sizes (l : list Entry) : Z := match l with [] => 0 | e :: l => size e + sizes l end.

Lemma sizes_app l k : sizes (l ++ k) = sizes l + sizes k.
Proof. induction l as [|e l IH]; cbn; [done | rewrite IH; lia]. Qed.

Lemma sizes_perm l k : l ≡ₚ k → sizes l = sizes k.
Proof. induction 1; cbn in *; lia. Qed.

Lemma sizes_nonneg l : Forall (λ e, 0 ≤ size e) l → 0 ≤ sizes l.
Proof. induction 1; cbn in *; lia. Qed.

Definition older (a b : Entry) : Prop := mtime a ≤ mtime b.

Lemma insert_entry_perm e l : insert_entry e l ≡ₚ e :: l.
Proof. induction l as [|x l IH]; [done|]. cbn. destruct (_ <? _); [done|]. rewrite IH. apply Permutation_swap. Qed.

Lemma insert_entry_sorted e l : StronglySorted older l → StronglySorted older (insert_entry e l).
Proof.
  induction 1 as [|x l Hs IH Hf]; cbn; [repeat constructor|].
  destruct (Z.ltb_spec (mtime e) (mtime x)).
  - constructor; [by constructor|]. constructor; [unfold older; lia|].
    eapply Forall_impl; [exact Hf|]. unfold older. intros; lia.
  - constructor; [done|]. rewrite insert_entry_perm. constructor; [done | done].
Qed.

Lemma sort_entries_spec l : sort_entries l ≡ₚ l ∧ StronglySorted older (sort_entries l).
Proof.
  unfold sort_entries.
  assert (∀ s, StronglySorted older s →
    fold_left (λ s e, insert_entry e s) l s ≡ₚ l ++ s ∧ StronglySorted older (fold_left (λ s e, insert_entry e s) l s)) as H.
  { induction l as [|e l IH]; intros s Hs; [done|]. cbn [fold_left].
    destruct (IH (insert_entry e s) (insert_entry_sorted e s Hs)) as [H1 H2]. split; [|done].
    rewrite H1, insert_entry_perm. by rewrite <-Permutation_middle. }
  destruct (H [] ltac:(constructor)) as [H1 H2]. by rewrite app_nil_r in H1.
Qed.

Lemma total_size_eq l : Forall (λ e, 0 ≤ size e) l → sizes l < 2 ^ 64 → total_size l = sizes l.
Proof.
  unfold total_size. assert (∀ s, 0 ≤ s → Forall (λ e, 0 ≤ size e) l → s + sizes l < 2 ^ 64 →
    fold_left (λ s e, wrap64 (s + size e)) l s = s + sizes l) as H.
  { induction l as [|e l IH]; intros s Hs Hl Hb; cbn [fold_left sizes] in *; [lia|].
    apply Forall_cons in Hl as [He Hl]. pose proof (sizes_nonneg l Hl).
    unfold wrap64. rewrite Z.mod_small by lia. rewrite IH by (done || lia). lia. }
  intros Hl Hb. rewrite H; [lia | lia | done | lia].
Qed.

(** The entries of [l] that could be removed. *)
Definition removable (remove : bytes → bool) (l : list Entry) : list Entry := List.filter (λ e, remove (path e)) l.

Lemma sizes_removable remove l : Forall (λ e, 0 ≤ size e) l → sizes (removable remove l) ≤ sizes l.
Proof.
  unfold removable. induction 1 as [|e l He _ IH]; cbn [List.filter sizes]; [done|]. destruct (remove _); cbn [sizes]; lia.
Qed.

Lemma prune_loop_spec remove max total l :
  Forall (λ e, 0 ≤ size e) l → sizes l ≤ total < 2 ^ 64 →
  let '(remaining, removed) := prune_loop remove max total l in
  ∃ k, removed = map path (removable remove (take k l))
    ∧ remaining = total - sizes (removable remove (take k l))
    ∧ (remaining ≤ max ∨ (length l ≤ k)%nat)
    ∧ ∀ j, (j < k)%nat → max < total - sizes (removable remove (take j l)).
Proof.
  revert total. induction l as [|e l IH]; intros total Hl Hb; cbn [prune_loop].
  - exists 0%nat. split_and!; [done | cbn; lia | by right | lia].
  - apply Forall_cons in Hl as [He Hl]. pose proof (sizes_nonneg l Hl). cbn [sizes] in Hb.
    destruct (Z.leb_spec total max) as [Hle|Hgt].
    { exists 0%nat. split_and!; [done | cbn; lia | by left | lia]. }
    assert (∀ j (P : Prop), (∀ j', j = S j' → P) → (j = 0%nat → P) → P) as Hj by (intros [|j] P; eauto).
    unfold removable in *. destruct (remove (path e)) eqn:Er.
    + unfold wrap64. rewrite Z.mod_small by lia.
      specialize (IH (total - size e) Hl ltac:(lia)). destruct (prune_loop remove max (total - size e) l) as [rem rmd].
      destruct IH as (k & -> & -> & Hend & Hj').
      exists (S k). cbn [take List.filter]. rewrite Er. cbn [map sizes foldr length].
      split_and!; [done | lia | destruct Hend; [left; lia | right; lia] |].
      intros [|j] Hlt; cbn [take List.filter]; [cbn; lia|]. rewrite Er. cbn [sizes]. specialize (Hj' j ltac:(lia)). lia.
    + specialize (IH total Hl ltac:(lia)). destruct (prune_loop remove max total l) as [rem rmd].
      destruct IH as (k & -> & -> & Hend & Hj').
      exists (S k). cbn [take List.filter length]. rewrite Er.
      split_and!; [done | done | destruct Hend; [by left | right; lia] |].
      intros [|j] Hlt; cbn [take List.filter]; [cbn; lia|]. rewrite Er. apply (Hj' j). lia.
Qed.

(** Pruning. With a limit, the files are taken in the order of their
    modification times, the oldest first, only as long as what is left exceeds
    the limit, until it does not or no file is left; those that cannot be
    removed are passed over. The answer says whether the total shrank. The
    file being written has no protection. *)
Theorem prune_oldest capacity remove entries :
  0 < capacity < 2 ^ 44 → Forall (λ e, 0 ≤ size e) entries → sizes entries < 2 ^ 64 →
  let limit := capacity * 2 ^ 20 in
  let '(answer, removed) := prune_oldest_if_needed capacity remove entries in
  ∃ sorted k,
    sorted ≡ₚ entries ∧ StronglySorted older sorted
    ∧ removed = map path (removable remove (take k sorted))
    ∧ (sizes entries - sizes (removable remove (take k sorted)) ≤ limit ∨ (length sorted ≤ k)%nat)
    ∧ (∀ j, (j < k)%nat → limit < sizes entries - sizes (removable remove (take j sorted)))
    ∧ (answer = true ↔ 0 < sizes (removable remove (take k sorted))).
Proof.
  intros Hc Hs Hb. cbv zeta. unfold prune_oldest_if_needed. destruct (Z.eqb_spec capacity 0); [lia|].
  assert (wrap64 (wrap64 (capacity * 1024) * 1024) = capacity * 2 ^ 20) as ->
    by (unfold wrap64; rewrite (Z.mod_small (capacity * 1024)) by lia; rewrite Z.mod_small; lia).
  rewrite (total_size_eq entries Hs Hb). destruct (sort_entries_spec entries) as [Hp Hsort].
  destruct (Z.leb_spec (sizes entries) (capacity * 2 ^ 20)) as [Hle|Hgt].
  { exists (sort_entries entries), 0%nat. rewrite take_0. unfold removable. cbn [List.filter map sizes].
    split_and!; [done..|left; lia|lia|split; [done | lia]]. }
  pose proof (prune_loop_spec remove (capacity * 2 ^ 20) (sizes entries) (sort_entries entries)) as S.
  rewrite (sizes_perm _ _ Hp) in S. specialize (S ltac:(by rewrite Hp) ltac:(lia)).
  destruct (prune_loop _ _ _ _) as [remaining removed]. destruct S as (k & -> & -> & Hend & Hj).
  exists (sort_entries entries), k. split_and!; try done. rewrite Z.ltb_lt. lia.
Qed.

(** One file above the limit is removed though it is the one being written. *)
Lemma prune_oldest_witness :
  let entries := [mkEntry [2] 20 (2 ^ 21); mkEntry [1] 10 5] in
  (let '(answer, removed) := prune_oldest_if_needed 1 (λ _, true) entries in
   ∃ sorted k,
     sorted ≡ₚ entries ∧ StronglySorted older sorted
     ∧ removed = map path (removable (λ _, true) (take k sorted))
     ∧ (sizes entries - sizes (removable (λ _, true) (take k sorted)) ≤ 1 * 2 ^ 20 ∨ (length sorted ≤ k)%nat)
     ∧ (∀ j, (j < k)%nat → 1 * 2 ^ 20 < sizes entries - sizes (removable (λ _, true) (take j sorted)))
     ∧ (answer = true ↔ 0 < sizes (removable (λ _, true) (take k sorted))))
  ∧ prune_oldest_if_needed 1 (λ _, true) entries = (true, [[1]; [2]]).
Proof.
  cbv zeta. split; [|vm_compute; reflexivity].
  apply (prune_oldest 1 (λ _, true) [mkEntry [2] 20 (2 ^ 21); mkEntry [1] 10 5]);
    [lia | repeat constructor; vm_compute; discriminate | vm_compute; reflexivity].
Defined.

(** *** Runs *)
Definition calm (now mono : Z) : Env := mkEnv false None now mono true true true true None (λ _, true).
Definition frame (key : bool) (b ts : Z) : MediaFrame := VideoFrame key [b] ts.
Definition held (now mono : Z) : Env := mkEnv true None now mono true true true true None (λ _, true).
Definition recorder : World := (output_new [47] [97] 1 0, empty_disk).

(** A pause of less than a second: the file after it has the name of the file
    before it, and begins with a frame that is not a keyframe. *)
Example paused_within_a_second :
  let '(w, h) := run [Start true; Frame (calm 5 0) (frame true 1 0); Frame (held 5 100) (frame false 2 100);
                      Frame (calm 5 200) (frame false 3 200)] recorder empty_history in
  contents w.2 = [(start_code ++ [1], true); (start_code ++ [3], false)]
  ∧ map_to_list (dir w.2) = [(segment_name w.1 5, 1%nat)].
Proof. vm_compute. split; reflexivity. Qed.

(** A rotation whose file cannot be created loses the frames up to the next
    opening instead of going on with the current file. *)
Example failed_rotation :
  let w := (run [Start true; Frame (calm 5 0) (frame true 1 0)] recorder empty_history).1 in
  let r := send_frame (mkEnv false None 7 2000 false true true true None (λ _, true)) (frame true 2 2000) w in
  r.1 = Err "no active MP4 segment" ∧ map f_state (inodes r.2.2) = [Finished]
  ∧ segment_slot r.2.1 = Some (segment_name w.1 7, 7000).
Proof. vm_compute. split_and!; reflexivity. Qed.

(** A file whose muxer cannot be finished is torn, and nobody hears of it. *)
Example torn_rotation :
  let w := (run [Start true; Frame (calm 5 0) (frame true 1 0)] recorder empty_history).1 in
  let r := send_frame (mkEnv false None 7 2000 true true true false None (λ _, true)) (frame true 2 2000) w in
  r.1 = Ok tt ∧ map f_state (inodes r.2.2) = [Torn; Writing].
Proof. vm_compute. split; reflexivity. Qed.
