(* ===== verification/Resources.v ===== *)
(** * Stream resources ([crates/streaming/src/resource.rs], [buffer.rs])

    The limit on concurrent streams ([Controller]), the memory budget of a
    stream ([Budget]) with its refinement of a table of totals, the lifecycle
    of a stream ([Lifecycle]) and the pool of recycled frame buffers
    ([Pool]). *)
From Stdlib Require Import ZArith Lia List Bool String.
From stdpp Require Import base option list numbers gmap.
From S2P Require Import Prelude.

(** A [Uuid] is its 128-bit number. *)
Abbreviation Uuid := Z.

(** ** Sums over the values of a map *)
Definition sum_values {A} (f : A → Z) (m : gmap Uuid A) : Z :=
  map_fold (λ _ x acc, f x + acc) 0 m.

Section sum_values.
Context {A : Type} (f : A → Z).
Implicit Types m : gmap Uuid A.

Lemma sum_values_empty : sum_values f ∅ = 0.
Proof. apply map_fold_empty. Qed.

Lemma sum_values_fresh m i x :
  m !! i = None → sum_values f (<[i := x]> m) = f x + sum_values f m.
Proof. intros H. unfold sum_values. rewrite map_fold_insert_L; [done | | done]. intros; lia. Qed.

Lemma sum_values_lookup m i x :
  m !! i = Some x → sum_values f m = f x + sum_values f (delete i m).
Proof.
  intros H. rewrite <-(insert_delete_id m i x H) at 1.
  apply sum_values_fresh, lookup_delete_eq.
Qed.

Lemma sum_values_insert m i x :
  sum_values f (<[i := x]> m) = f x + sum_values f (delete i m).
Proof. rewrite <-insert_delete_eq. apply sum_values_fresh, lookup_delete_eq. Qed.

Lemma sum_values_delete m i :
  sum_values f (delete i m) = sum_values f m - default 0 (f <$> m !! i).
Proof.
  destruct (m !! i) as [x|] eqn:E; cbn.
  - rewrite (sum_values_lookup m i x E). lia.
  - rewrite delete_id by done. lia.
Qed.
End sum_values.

(** ** The semaphore of tokio

    The documented behaviour that the controller relies on: a semaphore
    starts with its permits, [try_acquire] takes one if there is one, and
    dropping a permit gives it back.  The code never closes the semaphore. *)
Class Semaphore (S : Type) := {
  sem_new : Z → S;
  sem_try_acquire : S → option S;
  sem_release : S → S;
  sem_available : S → Z;
}.

(** [Semaphore::MAX_PERMITS] *)
Definition MAX_PERMITS : Z := usize_max / 8.

Class SemaphoreLaws (S : Type) `{Semaphore S} := {
  sem_new_available n : 0 ≤ n ≤ MAX_PERMITS → sem_available (sem_new n) = n;
  sem_try_acquire_some s s' :
    sem_try_acquire s = Some s' → 0 < sem_available s ∧ sem_available s' = sem_available s - 1;
  sem_try_acquire_none s : sem_try_acquire s = None → sem_available s ≤ 0;
  sem_release_available s : sem_available (sem_release s) = sem_available s + 1;
}.

(** A counter is a semaphore. *)
#[export] Instance counter_semaphore : Semaphore Z := {
  sem_new n := n;
  sem_try_acquire s := if 0 <? s then Some (s - 1) else None;
  sem_release s := s + 1;
  sem_available s := s;
}.

#[export] Instance counter_semaphore_laws : SemaphoreLaws Z.
Proof.
  split; cbn; try done.
  - intros s s'. destruct (Z.ltb_spec 0 s); [intros [= <-]; lia | done].
  - intros s. destruct (Z.ltb_spec 0 s); [done | lia].
Qed.

Module Controller.
Section Controller.
Context {S : Type} `{Semaphore S}.

Record ResourceController := mkController { max_streams : Z; semaphore : S }.

(** [ResourceController::new]; the assertion unwinds on [0]. *)
Definition new (max_streams : Z) : Res ResourceController :=
  if 0 <? max_streams then Ok (mkController max_streams (sem_new max_streams)) else Panic.

(** [acquire]: [None] while the task has to wait. *)
Definition acquire (c : ResourceController) : option ResourceController :=
  s ← sem_try_acquire (semaphore c); Some (mkController (max_streams c) s).

Definition try_acquire (c : ResourceController) : option ResourceController := acquire c.

(** Dropping a [StreamPermit], also by [StreamPermit::release]. *)
Definition release (c : ResourceController) : ResourceController :=
  mkController (max_streams c) (sem_release (semaphore c)).

Definition available_permits (c : ResourceController) : Z := sem_available (semaphore c).

Context `{!SemaphoreLaws S}.

Lemma acquire_some c c' :
  acquire c = Some c' →
  0 < available_permits c ∧ available_permits c' = available_permits c - 1
  ∧ max_streams c' = max_streams c.
Proof.
  unfold acquire. destruct (sem_try_acquire (semaphore c)) as [s|] eqn:E; [|done].
  intros [= <-]. destruct (sem_try_acquire_some _ _ E). done.
Qed.

Lemma acquire_waits c : acquire c = None → available_permits c ≤ 0.
Proof.
  unfold acquire. destruct (sem_try_acquire (semaphore c)) eqn:E; [done|]. intros _.
  by apply sem_try_acquire_none.
Qed.

Lemma release_permits c :
  available_permits (release c) = available_permits c + 1
  ∧ max_streams (release c) = max_streams c.
Proof. split; [apply sem_release_available | done]. Qed.
End Controller.
Arguments ResourceController S : clear implicits.
End Controller.

(** ** The memory budget of a stream *)
Module Budget.

(** [inner], behind its mutex, and [max_per_stream]. *)
Record StreamBudget := mkBudget { inner : gmap Uuid Z; max_per_stream : Z }.

Definition DEFAULT_MAX_BUDGET_PER_STREAM : Z := 10 * 1024 * 1024.

Definition new : StreamBudget := mkBudget ∅ DEFAULT_MAX_BUDGET_PER_STREAM.
Definition with_max_per_stream (max_per_stream : Z) : StreamBudget :=
  mkBudget ∅ max_per_stream.

Definition set_inner (b : StreamBudget) (m : gmap Uuid Z) : StreamBudget :=
  mkBudget m (max_per_stream b).

(** [entry(stream_id).or_insert(0)] leaves its entry behind when the
    allocation is refused. *)
Definition try_alloc (b : StreamBudget) (stream_id : Uuid) (bytes : Z)
    : StreamBudget * Res unit :=
  let current := default 0 (inner b !! stream_id) in
  let inner := <[stream_id := current]> (inner b) in
  let new_total := saturating_add current bytes in
  if max_per_stream b <? new_total
  then (set_inner b inner, Err "503: Per-stream memory budget exceeded for stream ")
  else (set_inner b (<[stream_id := new_total]> inner), Ok tt).

Definition release (b : StreamBudget) (stream_id : Uuid) (bytes : Z) : StreamBudget :=
  match inner b !! stream_id with
  | Some current =>
      let current := saturating_sub current bytes in
      if current =? 0 then set_inner b (delete stream_id (inner b))
      else set_inner b (<[stream_id := current]> (inner b))
  | None => b
  end.

Definition allocated (b : StreamBudget) (stream_id : Uuid) : Z :=
  default 0 (inner b !! stream_id).

Definition remove_stream (b : StreamBudget) (stream_id : Uuid) : StreamBudget :=
  set_inner b (delete stream_id (inner b)).

Definition stream_count (b : StreamBudget) : Z := Z.of_nat (size (inner b)).

Definition total_allocated (b : StreamBudget) : Z := wrap64 (sum_values id (inner b)).

Definition stream_budgets (b : StreamBudget) : list (Uuid * Z) := map_to_list (inner b).

(** *** The specification: a total per stream *)
Inductive Call := CallAlloc (i : Uuid) (n : Z) | CallRelease (i : Uuid) (n : Z)
  | CallRemove (i : Uuid).

Definition run_call (b : StreamBudget) (c : Call) : StreamBudget * bool :=
  match c with
  | CallAlloc i n => let '(b, r) := try_alloc b i n in (b, is_ok r)
  | CallRelease i n => (release b i n, true)
  | CallRemove i => (remove_stream b i, true)
  end.

Fixpoint run_calls (b : StreamBudget) (cs : list Call) : StreamBudget * list bool :=
  match cs with
  | [] => (b, [])
  | c :: cs =>
      let '(b, r) := run_call b c in
      let '(b, rs) := run_calls b cs in (b, r :: rs)
  end.

Abbreviation totals := (Uuid → Z).

Definition set_total (t : totals) (i : Uuid) (x : Z) : totals :=
  λ j, if decide (j = i) then x else t j.

Definition spec_call (max : Z) (t : totals) (c : Call) : totals * bool :=
  match c with
  | CallAlloc i n => if t i + n <=? max then (set_total t i (t i + n), true) else (t, false)
  | CallRelease i n => (set_total t i (Z.max 0 (t i - n)), true)
  | CallRemove i => (set_total t i 0, true)
  end.

Fixpoint spec_calls (max : Z) (t : totals) (cs : list Call) : totals * list bool :=
  match cs with
  | [] => (t, [])
  | c :: cs =>
      let '(t, r) := spec_call max t c in
      let '(t, rs) := spec_calls max t cs in (t, r :: rs)
  end.

(** The stream of a call, and the range of its [usize] argument. *)
Definition call_id (c : Call) : Uuid :=
  match c with CallAlloc i _ | CallRelease i _ | CallRemove i => i end.
Definition call_ok (c : Call) : Prop :=
  match c with CallAlloc _ n | CallRelease _ n => is_u64 n | CallRemove _ => True end.

(** What the table means: [t] is what is allocated, within the budget, and
    the entries are among [ids]. *)
Record refines (max : Z) (ids : list Uuid) (b : StreamBudget) (t : totals) : Prop := {
  ref_max : max_per_stream b = max;
  ref_allocated i : allocated b i = t i;
  ref_range i : 0 ≤ t i ≤ max;
  ref_ids i : i ∉ ids → inner b !! i = None;
}.

Lemma allocated_insert b i x j :
  allocated (set_inner b (<[i := x]> (inner b))) j = set_total (allocated b) i x j.
Proof.
  unfold allocated, set_total; cbn. destruct (decide (j = i)) as [->|].
  - by rewrite lookup_insert_eq.
  - by rewrite lookup_insert_ne by congruence.
Qed.

Lemma allocated_delete b i j :
  allocated (set_inner b (delete i (inner b))) j = set_total (allocated b) i 0 j.
Proof.
  unfold allocated, set_total; cbn. destruct (decide (j = i)) as [->|].
  - by rewrite lookup_delete_eq.
  - by rewrite lookup_delete_ne by congruence.
Qed.

(** [release] in one equation: an entry that reaches zero reads as zero. *)
Lemma allocated_release b i n j :
  0 ≤ allocated b i → 0 ≤ n →
  allocated (release b i n) j = set_total (allocated b) i (Z.max 0 (allocated b i - n)) j.
Proof.
  intros H0 Hn. unfold release. destruct (inner b !! i) as [x|] eqn:E.
  - assert (allocated b i = x) as Hx by (unfold allocated; by rewrite E).
    unfold saturating_sub. rewrite Hx in *. destruct (Z.eqb_spec (Z.max (x - n) 0) 0) as [He|He].
    + rewrite allocated_delete. by replace (Z.max 0 (x - n)) with 0 by lia.
    + rewrite allocated_insert. by replace (Z.max 0 (x - n)) with (Z.max (x - n) 0) by lia.
  - assert (allocated b i = 0) as Hx by (unfold allocated; by rewrite E).
    unfold set_total. destruct (decide (j = i)) as [->|]; [lia | done].
Qed.

Lemma release_lookup_None b i n j :
  inner b !! j = None → j ≠ i → inner (release b i n) !! j = None.
Proof.
  intros H Hj. unfold release. destruct (inner b !! i); [|done].
  destruct (_ =? 0); cbn.
  - by rewrite lookup_delete_ne by congruence.
  - by rewrite lookup_insert_ne by congruence.
Qed.

Lemma set_total_range max t i x :
  (∀ j, 0 ≤ t j ≤ max) → 0 ≤ x ≤ max → ∀ j, 0 ≤ set_total t i x j ≤ max.
Proof. intros Ht Hx j. unfold set_total. destruct (decide _); auto. Qed.

Lemma set_total_ext t t' i x j : (∀ j, t j = t' j) → set_total t i x j = set_total t' i x j.
Proof. intros H. unfold set_total. by rewrite H. Qed.

(** The simulation: one call keeps the relation and answers the same. *)
Lemma call_refines max ids b t c :
  max < usize_max → refines max ids b t → call_ok c → call_id c ∈ ids →
  refines max ids (run_call b c).1 (spec_call max t c).1
  ∧ (run_call b c).2 = (spec_call max t c).2.
Proof.
  intros Hmax [Hm Ha Hr Hi] Hc Hin. destruct c as [i n|i n|i]; cbn [run_call call_ok call_id] in *.
  - unfold try_alloc. fold (allocated b i). rewrite Ha, Hm. cbn [spec_call].
    unfold saturating_add. specialize (Hr i) as Hri. unfold is_u64 in Hc.
    rewrite insert_insert_eq. destruct (Z.leb_spec (t i + n) max) as [Hle|Hgt].
    + rewrite (proj2 (Z.ltb_ge max _)) by lia. rewrite Z.min_l by lia. cbn.
      split; [|done]. constructor; cbn; [done | | apply set_total_range; [done | lia] |].
      * intros j. rewrite allocated_insert. by apply set_total_ext.
      * intros j Hj. rewrite lookup_insert_ne by (intros ->; done). by apply Hi.
    + rewrite (proj2 (Z.ltb_lt max _)) by lia. cbn. split; [|done].
      constructor; cbn; [done | | done |].
      * intros j. rewrite allocated_insert. unfold set_total.
        destruct (decide (j = i)) as [->|]; [done | apply Ha].
      * intros j Hj. rewrite lookup_insert_ne by (intros ->; done). by apply Hi.
  - split; [|done]. cbn. specialize (Hr i) as Hri. unfold is_u64 in Hc.
    constructor; [unfold release; destruct (inner b !! i); [destruct (_ =? 0)|]; exact Hm | | |].
    + intros j. rewrite allocated_release by (rewrite ?Ha; lia). rewrite Ha.
      by apply set_total_ext.
    + apply set_total_range; [done | lia].
    + intros j Hj. apply release_lookup_None; [by apply Hi | intros ->; done].
  - split; [|done]. cbn. constructor; [exact Hm | | apply set_total_range; [done | specialize (Hr i); lia] |].
    + intros j. unfold remove_stream. rewrite allocated_delete. by apply set_total_ext.
    + intros j Hj. cbn. rewrite lookup_delete_ne by (intros ->; done). by apply Hi.
Qed.

Lemma calls_refine max ids cs b t :
  max < usize_max → refines max ids b t → Forall call_ok cs → Forall (λ c, call_id c ∈ ids) cs →
  refines max ids (run_calls b cs).1 (spec_calls max t cs).1
  ∧ (run_calls b cs).2 = (spec_calls max t cs).2.
Proof.
  intros Hmax. revert b t. induction cs as [|c cs IH]; intros b t Href Hok Hin; [done|].
  apply Forall_cons in Hok as [Hc Hok], Hin as [Hi Hin].
  destruct (call_refines max ids b t c Hmax Href Hc Hi) as [H1 H2]. cbn.
  destruct (run_call b c) as [b' r], (spec_call max t c) as [t' r']. cbn in H1, H2. subst r'.
  destruct (IH b' t' H1 Hok Hin) as [H3 H4].
  destruct (run_calls b' cs) as [b'' rs], (spec_calls max t' cs) as [t'' rs']. cbn in *.
  by subst rs'.
Qed.

(** The sum over the entries as a sum over any list that covers them. *)
Lemma sum_over (m : gmap Uuid Z) ids :
  NoDup ids → (∀ i, i ∉ ids → m !! i = None) →
  sum_values id m = foldr (λ i acc, default 0 (m !! i) + acc) 0 ids.
Proof.
  revert m. induction ids as [|i ids IH]; intros m Hnd Hm.
  - assert (m = ∅) as -> by (apply map_empty; intros j; apply Hm, not_elem_of_nil).
    apply sum_values_empty.
  - apply NoDup_cons in Hnd as [Hi Hnd]. cbn [foldr].
    assert (foldr (λ j acc, default 0 (m !! j) + acc) 0 ids
            = foldr (λ j acc, default 0 (delete i m !! j) + acc) 0 ids) as ->.
    { clear IH Hm Hnd. induction ids as [|j ids IHi]; [done|]. cbn.
      rewrite lookup_delete_ne by set_solver. f_equal. apply IHi. set_solver. }
    rewrite <-IH; [|done|].
    + rewrite sum_values_delete. destruct (m !! i) as [x|]; cbn; unfold id; lia.
    + intros j Hj. destruct (decide (j = i)) as [->|]; [apply lookup_delete_eq|].
      rewrite lookup_delete_ne by congruence. apply Hm. set_solver.
Qed.

(** Refused allocations of new streams: what they leave behind. *)
Lemma refused_calls max ids b :
  0 ≤ max → max_per_stream b = max → max < usize_max → NoDup ids →
  (∀ i, i ∈ ids → inner b !! i = None) →
  let b' := (run_calls b (map (λ i, CallAlloc i (max + 1)) ids)).1 in
  (run_calls b (map (λ i, CallAlloc i (max + 1)) ids)).2 = map (λ _, false) ids
  ∧ (∀ i, allocated b' i = allocated b i)
  ∧ stream_count b' = stream_count b + zlen ids.
Proof.
  intros H0 Hm Hmax. revert b Hm. induction ids as [|i ids IH]; intros b Hm Hnd Hfr.
  { cbn. split_and!; [done | done | rewrite zlen_nil; lia]. }
  apply NoDup_cons in Hnd as [Hi Hnd]. cbn [map run_calls run_call]. unfold try_alloc.
  rewrite (Hfr i) by set_solver. cbn [default]. unfold saturating_add.
  rewrite (proj2 (Z.ltb_lt _ _)) by lia. cbn.
  set (b1 := set_inner b (<[i := 0]> (inner b))).
  destruct (IH b1) as (H1 & H2 & H3); [done | done | |].
  { intros j Hj. cbn. rewrite lookup_insert_ne by (intros ->; done). apply Hfr. set_solver. }
  destruct (run_calls b1 _) as [b2 rs]. cbn in *. subst rs. split_and!; [done | |].
  - intros j. rewrite H2. unfold b1. rewrite allocated_insert. unfold set_total.
    destruct (decide (j = i)) as [->|]; [|done]. unfold allocated. by rewrite (Hfr i) by set_solver.
  - rewrite H3, zlen_cons. unfold stream_count, b1; cbn.
    rewrite map_size_insert_None by (apply Hfr; set_solver). lia.
Qed.
End Budget.

(** ** The lifecycle of a stream *)
Module Lifecycle.

Inductive StreamState := Starting | Running | Stopping | Stopped | Error.

#[export] Instance StreamState_eq_dec : EqDecision StreamState.
Proof. solve_decision. Defined.

Definition can_transition_to (self next : StreamState) : bool :=
  match self with
  | Starting => match next with Running | Error => true | _ => false end
  | Running => match next with Stopping | Error => true | _ => false end
  | Stopping => match next with Stopped | Error => true | _ => false end
  | Stopped => match next with Starting => true | _ => false end
  | Error => match next with Starting => true | _ => false end
  end.

(** [StreamEntries]; the value last sent on the watch channel of an entry
    is its state. *)
Abbreviation Entries := (gmap Uuid StreamState).

Definition state (l : Entries) (stream_id : Uuid) : option StreamState := l !! stream_id.

Definition start (l : Entries) (stream_id : Uuid) : Entries := <[stream_id := Starting]> l.

Definition transition (l : Entries) (stream_id : Uuid) (next : StreamState)
    : Entries * Res unit :=
  match l !! stream_id with
  | Some s =>
      if can_transition_to s next then (<[stream_id := next]> l, Ok tt)
      else (l, Err "Invalid transition for stream ")
  | None => (l, Err " not found in lifecycle")
  end.

Definition stop (l : Entries) (stream_id : Uuid) : Entries * Res unit :=
  match state l stream_id with
  | None => (l, Err " not found in lifecycle")
  | Some (Starting | Running) =>
      let '(l, r) := transition l stream_id Stopping in
      match r with
      | Ok _ => transition l stream_id Stopped
      | r => (l, r)
      end
  | Some Stopped => (l, Err " is already stopped")
  | Some Error => (l, Err " is in error state; use restart()")
  | Some Stopping => (l, Err " is already stopping")
  end.

Definition restart (l : Entries) (stream_id : Uuid) : Entries * Res unit :=
  match state l stream_id with
  | None => (l, Err " not found in lifecycle")
  | Some (Stopped | Error) => transition l stream_id Starting
  | Some _ => (l, Err " state; cannot restart")
  end.

Definition remove (l : Entries) (stream_id : Uuid) : Entries := delete stream_id l.

Definition is_active (s : StreamState) : bool :=
  match s with Starting | Running => true | _ => false end.

Definition active_count (l : Entries) : Z :=
  Z.of_nat (size (filter (λ kv : Uuid * StreamState, is_active kv.2 = true) l)).
Definition stream_count (l : Entries) : Z := Z.of_nat (size l).

(** *** Calls and histories *)
Inductive Call := CallStart (i : Uuid) | CallTransition (i : Uuid) (s : StreamState)
  | CallStop (i : Uuid) | CallRestart (i : Uuid) | CallRemove (i : Uuid).

Definition run_call (l : Entries) (c : Call) : Entries * Res unit :=
  match c with
  | CallStart i => (start l i, Ok tt)
  | CallTransition i s => transition l i s
  | CallStop i => stop l i
  | CallRestart i => restart l i
  | CallRemove i => (remove l i, Ok tt)
  end.

(** An edge of the state machine; [start] and [remove] enter and leave it
    from anywhere. *)
Definition edge (s s' : StreamState) : Prop := can_transition_to s s' = true.

Lemma transition_spec l i next :
  (∃ s, l !! i = Some s ∧ edge s next
        ∧ transition l i next = (<[i := next]> l, Ok tt))
  ∨ ∃ e, transition l i next = (l, Err e).
Proof.
  unfold transition, edge. destruct (l !! i) as [s|]; [|by right; eexists].
  destruct (can_transition_to s next) eqn:E; [left; by exists s | right; by eexists].
Qed.

(** [stop] succeeds on a running stream and on no other. *)
Lemma stop_spec l i :
  (l !! i = Some Running ∧ stop l i = (<[i := Stopped]> l, Ok tt))
  ∨ (l !! i ≠ Some Running ∧ ∃ e, stop l i = (l, Err e)).
Proof.
  unfold stop, state, transition. destruct (l !! i) as [[]|] eqn:E;
    try (right; split; [congruence | by eexists]).
  left. split; [done|]. cbn. rewrite lookup_insert_eq. cbn. by rewrite insert_insert_eq.
Qed.

Lemma restart_spec l i :
  (∃ s, l !! i = Some s ∧ edge s Starting ∧ restart l i = (<[i := Starting]> l, Ok tt))
  ∨ ∃ e, restart l i = (l, Err e).
Proof.
  unfold restart, state, transition, edge.
  destruct (l !! i) as [[]|] eqn:E; try (by right; eexists); left; cbn; by eexists.
Qed.
End Lifecycle.

(** ** The pool of frame buffers *)
Module Pool.

(** A [Vec<u8>]: its contents and the capacity of its allocation. *)
Record Vec8 := mkVec { data : bytes; capacity : Z }.

Definition vec_ok (v : Vec8) : Prop := zlen (data v) ≤ capacity v ≤ usize_max.

(** [PoolInner], [max_bytes], and the [Buffer]s that are lent. *)
Record BufferPool := mkPool {
  buffers : list Vec8;
  total_capacity : Z;
  max_bytes : Z;
  lent : list Vec8;
}.

Definition new (max_bytes : Z) : BufferPool := mkPool [] 0 max_bytes [].

(** [Vec::swap_remove] at a position in range. *)
Definition swap_remove {A} (l : list A) (pos : nat) : list A :=
  match last l with
  | Some x => take (length l - 1) (<[pos := x]> l)
  | None => l
  end.

Definition len (p : BufferPool) : Z := zlen (buffers p).
Definition usage (p : BufferPool) : Z * Z := (zlen (buffers p), total_capacity p).

Section pool.
(** The capacity [Vec::with_capacity] obtains for a requested one. *)
Context (with_capacity : Z → Z).

(** [acquire]: the first buffer that is large enough, cleared, or a new one. *)
Definition acquire (p : BufferPool) (max_size : Z) : BufferPool * Vec8 :=
  match list_find (λ b, max_size ≤ capacity b) (buffers p) with
  | Some (pos, buf) =>
      let buf' := mkVec [] (capacity buf) in
      (mkPool (swap_remove (buffers p) pos)
         (saturating_sub (total_capacity p) (capacity buf)) (max_bytes p) (buf' :: lent p), buf')
  | None =>
      let buf' := mkVec [] (with_capacity max_size) in
      (mkPool (buffers p) (total_capacity p) (max_bytes p) (buf' :: lent p), buf')
  end.

(** [drop] of the buffer [buf]; [locked] when another task holds the lock. *)
Definition drop_buffer (p : BufferPool) (buf : Vec8) (locked : bool) : BufferPool :=
  if locked then p
  else
    let would_be := saturating_add (total_capacity p) (capacity buf) in
    if would_be <=? max_bytes p
    then mkPool (buffers p ++ [buf]) would_be (max_bytes p) (lent p)
    else p.

(** What the users of a pool do: acquire, change the contents of a buffer
    they hold (which may reallocate it), drop it, or keep its storage. *)
Inductive Event :=
  | Acquire (max_size : Z)
  | Change (k : nat) (v : Vec8)
  | DropBuffer (k : nat) (locked : bool)
  | IntoInner (k : nat).

Definition set_lent (p : BufferPool) (l : list Vec8) : BufferPool :=
  mkPool (buffers p) (total_capacity p) (max_bytes p) l.

Definition step (p : BufferPool) (e : Event) : BufferPool :=
  match e with
  | Acquire max_size => (acquire p max_size).1
  | Change k v => set_lent p (<[k := v]> (lent p))
  | DropBuffer k locked =>
      match lent p !! k with
      | Some buf => drop_buffer (set_lent p (delete k (lent p))) buf locked
      | None => p
      end
  | IntoInner k => set_lent p (delete k (lent p))
  end.

Definition event_ok (e : Event) : Prop :=
  match e with
  | Acquire n => 0 ≤ n ∧ with_capacity n ≤ usize_max
  | Change _ v => vec_ok v
  | _ => True
  end.

Fixpoint run (p : BufferPool) (es : list Event) : BufferPool :=
  match es with [] => p | e :: es => run (step p e) es end.

Definition capacities (l : list Vec8) : Z := foldr (λ b acc, capacity b + acc) 0 l.
#[local] Arguments capacities : simpl never.

Record pool_ok (p : BufferPool) : Prop := {
  ok_total : total_capacity p = capacities (buffers p);
  ok_budget : total_capacity p ≤ max_bytes p;
  ok_buffers : Forall vec_ok (buffers p);
  ok_lent : Forall vec_ok (lent p);
}.

Context (with_capacity_ge : ∀ n, 0 ≤ n → n ≤ with_capacity n).

Lemma capacities_cons b l : capacities (b :: l) = capacity b + capacities l.
Proof. done. Qed.

Lemma capacities_app l k : capacities (l ++ k) = capacities l + capacities k.
Proof. induction l as [|b l IH]; [done|]. rewrite <-app_comm_cons, !capacities_cons. lia. Qed.

Lemma capacities_nonneg l : Forall vec_ok l → 0 ≤ capacities l.
Proof.
  induction 1 as [|b l Hb Hl IH]; [done|]. rewrite capacities_cons. unfold vec_ok in Hb.
  pose proof (zlen_nonneg (data b)). lia.
Qed.

Lemma swap_remove_perm {A} (l : list A) pos x :
  l !! pos = Some x → l ≡ₚ x :: swap_remove l pos.
Proof.
  intros H. unfold swap_remove. destruct l as [|y l _] using rev_ind; [done|].
  rewrite last_snoc. rewrite length_app; cbn [length].
  replace (length l + 1 - 1)%nat with (length l) by lia.
  destruct (decide (pos = length l)) as [->|Hne].
  - rewrite lookup_app_r, Nat.sub_diag in H by lia. cbn in H. injection H as ->.
    rewrite insert_app_r_alt, Nat.sub_diag by lia. cbn. rewrite take_app_length.
    symmetry. apply Permutation_cons_append.
  - assert (pos < length l)%nat.
    { apply lookup_lt_Some in H. rewrite length_app in H; cbn in H. lia. }
    rewrite lookup_app_l in H by done. rewrite insert_app_l by done.
    rewrite take_app_le, take_ge by (rewrite length_insert; lia).
    rewrite insert_take_drop by done.
    rewrite <-(take_drop_middle l pos x H) at 1.
    rewrite <-app_assoc. cbn. rewrite <-(Permutation_middle _ _ x).
    apply Permutation_skip, Permutation_app_head. symmetry. apply Permutation_cons_append.
Qed.

Lemma capacities_perm l k : l ≡ₚ k → capacities l = capacities k.
Proof. induction 1; rewrite ?capacities_cons; lia. Qed.

Lemma acquire_ok p max_size :
  pool_ok p → event_ok (Acquire max_size) →
  pool_ok (acquire p max_size).1
  ∧ data (acquire p max_size).2 = [] ∧ max_size ≤ capacity (acquire p max_size).2.
Proof using with_capacity_ge.
  intros [Ht Hb Hbs Hl] [Hm Hcap]. unfold acquire.
  destruct (list_find _ (buffers p)) as [[pos buf]|] eqn:E; cbn.
  - apply list_find_Some in E as (Hpos & Hge & _).
    pose proof (swap_remove_perm _ _ _ Hpos) as HP.
    pose proof (capacities_perm _ _ HP) as Hsum. rewrite capacities_cons in Hsum.
    assert (Forall vec_ok (buf :: swap_remove (buffers p) pos)) as [Hv Hrest]%Forall_cons
      by (by rewrite <-HP).
    pose proof (capacities_nonneg _ Hrest). unfold vec_ok in Hv. pose proof (zlen_nonneg (data buf)).
    split_and!; [|done | done]. constructor; cbn; unfold saturating_sub.
    all: [>lia | lia | done |].
    apply Forall_cons. split; [|done]. unfold vec_ok; cbn. rewrite zlen_nil. lia.
  - split_and!; [|done | auto]. constructor; cbn; [done..|]. apply Forall_cons. split; [|done].
    unfold vec_ok; cbn. rewrite zlen_nil. specialize (with_capacity_ge max_size Hm). lia.
Qed.

Lemma drop_ok p buf locked :
  pool_ok p → vec_ok buf → max_bytes p < usize_max → pool_ok (drop_buffer p buf locked).
Proof.
  intros Hp Hv Hmax. unfold drop_buffer. destruct locked; [done|].
  destruct (Z.leb_spec (saturating_add (total_capacity p) (capacity buf)) (max_bytes p)) as [Hle|];
    [|done].
  destruct Hp as [Ht Hb Hbs Hl]. unfold saturating_add in *.
  constructor; cbn; [rewrite capacities_app, capacities_cons; unfold capacities at 2; cbn; lia | lia | | done].
  apply Forall_app. by split; [|constructor].
Qed.

Lemma step_ok p e : pool_ok p → max_bytes p < usize_max → event_ok e → pool_ok (step p e).
Proof using with_capacity_ge.
  intros Hp Hmax He. destruct e as [n|k v|k locked|k]; cbn.
  - by apply acquire_ok.
  - destruct Hp. constructor; cbn; [done..|]. by apply Forall_insert.
  - destruct (lent p !! k) as [buf|] eqn:E; [|done]. destruct Hp as [Ht Hb Hbs Hl].
    apply drop_ok; [|by eapply Forall_lookup_1 | done].
    constructor; cbn; [done..|]. by apply Forall_delete.
  - destruct Hp. constructor; cbn; [done..|]. by apply Forall_delete.
Qed.

Lemma max_bytes_step p e : max_bytes (step p e) = max_bytes p.
Proof.
  destruct e as [n|k v|k locked|k]; cbn; [| done | | done].
  - unfold acquire. by destruct (list_find _ _) as [[]|].
  - destruct (lent p !! k); [|done]. unfold drop_buffer. destruct locked; [done|].
    by destruct (_ <=? _).
Qed.

Lemma run_ok p es : pool_ok p → max_bytes p < usize_max → Forall event_ok es → pool_ok (run p es).
Proof using with_capacity_ge.
  intros Hp Hmax Hes. revert p Hp Hmax. induction Hes as [|e es He Hes IH]; intros p Hp Hmax; [done|].
  apply IH; [by apply step_ok | by rewrite max_bytes_step].
Qed.
End pool.
End Pool.

(** C24 The budget tracker refines a table of totals: over every sequence of
    calls it grants exactly the allocations that keep the total of their
    stream within the limit, and afterwards it reports for each stream its
    total and for all of them the sum.  What the table does not show is that
    every refused allocation of a new stream leaves an entry behind: any
    number of them is counted by [stream_count] although nothing is
    allocated. *)
Theorem budget_refines max ids cs :
  0 ≤ max < usize_max → NoDup ids → Forall Budget.call_ok cs →
  Forall (λ c, Budget.call_id c ∈ ids) cs →
  let impl := Budget.run_calls (Budget.with_max_per_stream max) cs in
  let spec := Budget.spec_calls max (λ _, 0) cs in
  let total := foldr (λ i acc, spec.1 i + acc) 0 ids in
  impl.2 = spec.2
  ∧ (∀ i, Budget.allocated impl.1 i = spec.1 i ∧ 0 ≤ spec.1 i ≤ max)
  ∧ (total < 2 ^ 64 → Budget.total_allocated impl.1 = total)
  ∧ (∀ fresh, NoDup fresh → (∀ i, i ∈ fresh → i ∉ ids) →
     let impl' := Budget.run_calls impl.1 (map (λ i, Budget.CallAlloc i (max + 1)) fresh) in
     Forall (λ r, r = false) impl'.2
     ∧ (∀ i, Budget.allocated impl'.1 i = Budget.allocated impl.1 i)
     ∧ Budget.stream_count impl'.1 = Budget.stream_count impl.1 + zlen fresh).
Proof.
  intros Hmax Hnd Hok Hin impl spec total.
  destruct (Budget.calls_refine max ids cs (Budget.with_max_per_stream max) (λ _, 0))
    as [[Hm Ha Hr Hi] Hres]; [lia | | done | done |].
  { constructor; [done | intros i; unfold Budget.allocated; cbn; by rewrite lookup_empty
      | intros i; lia | intros i _; apply lookup_empty]. }
  fold impl spec in Hm, Ha, Hr, Hi, Hres. split_and!; [done | auto | |].
  - intros Hfit. unfold Budget.total_allocated. rewrite (Budget.sum_over _ ids) by done.
    assert (foldr (λ i acc, default 0 (Budget.inner impl.1 !! i) + acc) 0 ids = total) as ->.
    { unfold total. clear -Ha. induction ids as [|i ids IH]; [done|]. cbn. by rewrite IH, <-Ha. }
    unfold wrap64. apply Z.mod_small. split; [|done]. unfold total. clear -Hr.
    induction ids as [|i ids IH]; cbn; [done|]. specialize (Hr i). lia.
  - intros fresh Hfnd Hfr.
    destruct (Budget.refused_calls max fresh impl.1) as (H1 & H2 & H3);
      [lia | done | lia | done | intros i Hif; by apply Hi, Hfr |].
    cbv zeta. rewrite H1. split_and!; [|done..]. apply Forall_map, Forall_true. done.
Qed.

Lemma budget_refines_witness :
  let impl := Budget.run_calls (Budget.with_max_per_stream 100)
    [Budget.CallAlloc 1 60; Budget.CallAlloc 1 50; Budget.CallAlloc 2 100; Budget.CallRelease 1 10] in
  impl.2 = [true; false; true; true] ∧ Budget.total_allocated impl.1 = 150.
Proof.
  destruct (budget_refines 100 [1; 2] [Budget.CallAlloc 1 60; Budget.CallAlloc 1 50;
    Budget.CallAlloc 2 100; Budget.CallRelease 1 10]) as (H1 & _ & H2 & _).
  - vm_compute. split; [discriminate | reflexivity].
  - apply (bool_decide_unpack _). vm_compute. exact I.
  - repeat constructor; discriminate.
  - repeat constructor.
  - split; [exact H1 | apply H2; vm_compute; reflexivity].
Defined.

(** The pool of frame buffers, for every sequence of acquisitions, uses
    and drops by any number of tasks and every outcome of [try_lock]: the
    recorded capacity is the sum of the recycled buffers' and never exceeds
    the budget (so the saturating arithmetic is exact), and a buffer is lent
    empty with at least the requested capacity.  The buffer chosen is the
    first that is large enough, not the best fit. *)
Theorem pool_invariant with_capacity max_bytes es n :
  (∀ k, 0 ≤ k → k ≤ with_capacity k) → 0 ≤ max_bytes < usize_max →
  Forall (Pool.event_ok with_capacity) es → Pool.event_ok with_capacity (Pool.Acquire n) →
  let p := Pool.run with_capacity (Pool.new max_bytes) es in
  let '(p', buf) := Pool.acquire with_capacity p n in
  Pool.usage p = (Pool.len p, Pool.capacities (Pool.buffers p))
  ∧ Pool.capacities (Pool.buffers p) ≤ max_bytes
  ∧ Pool.data buf = [] ∧ n ≤ Pool.capacity buf
  ∧ (Pool.buffers p ≡ₚ Pool.buffers p' ∨ ∃ b, Pool.buffers p ≡ₚ b :: Pool.buffers p'
       ∧ Pool.capacity b = Pool.capacity buf)
  ∧ Pool.usage (Pool.run (λ k, k) (Pool.new 1000)
      [Pool.Acquire 300; Pool.Acquire 100; Pool.DropBuffer 1 false; Pool.DropBuffer 0 false;
       Pool.Acquire 50]) = (1, 100).
Proof.
  intros Hwc Hmax Hes Hn p.
  assert (Pool.pool_ok (Pool.new max_bytes)) as H0 by (constructor; cbn; (lia || constructor)).
  pose proof (Pool.run_ok with_capacity Hwc _ es H0 (proj2 Hmax) Hes) as Hp. fold p in Hp.
  assert (Pool.max_bytes p = max_bytes) as Hm.
  { unfold p. clear -Hmax. change max_bytes with (Pool.max_bytes (Pool.new max_bytes)) at 2.
    generalize (Pool.new max_bytes). induction es as [|e es IH]; intros q; [done|]. cbn.
    rewrite IH. apply Pool.max_bytes_step. }
  destruct (Pool.acquire_ok with_capacity Hwc p n Hp Hn) as (Hp' & Hd & Hc).
  destruct (Pool.acquire with_capacity p n) as [p' buf] eqn:E. cbn in Hp', Hd, Hc.
  destruct Hp as [Ht Hb _ _]. unfold Pool.usage, Pool.len.
  split_and!; [by rewrite Ht | lia | done | done | | by vm_compute].
  unfold Pool.acquire in E. destruct (list_find _ _) as [[pos b]|] eqn:F; injection E as <- <-; cbn.
  - right. exists b. split; [|done]. apply Pool.swap_remove_perm.
    by apply list_find_Some in F as (? & _ & _).
  - by left.
Qed.

Lemma pool_invariant_witness :
  let p := Pool.run (λ k, k) (Pool.new 100)
    [Pool.Acquire 60; Pool.Acquire 60; Pool.DropBuffer 1 false; Pool.DropBuffer 0 false] in
  Pool.usage p = (1, 60).
Proof.
  refine (let H := pool_invariant (λ k, k) 100
    [Pool.Acquire 60; Pool.Acquire 60; Pool.DropBuffer 1 false; Pool.DropBuffer 0 false] 10
    _ _ _ _ in proj1 H).
  - intros k _. apply Z.le_refl.
  - vm_compute. split; [discriminate | reflexivity].
  - rewrite !Forall_cons, Forall_nil. cbn. unfold usize_max. lia.
  - cbn. unfold usize_max. lia.
Defined.
