(* ===== verification/Hub.v ===== *)
(** * The stream hub ([crates/streaming/src/hub.rs])

    One source task and any number of output tasks per hub, several hubs
    sharing a resource controller.  The hub is written against the traits
    [Media.Source] and [Media.Output], the semaphore of [Resources] and the
    interface of tokio's broadcast channel below; its tasks interleave at
    every point where the code awaits. *)
From Stdlib Require Import ZArith Lia List Bool String.
From stdpp Require Import base option numbers gmap.
From S2P Require Import Prelude Media Resources.

(** ** The broadcast channel of tokio

    Its documented behaviour: a receiver sees the frames sent since it
    subscribed, in order; when it has fallen more than [capacity] frames
    behind, it is told how many it lost and continues with the oldest that is
    kept.  A frame sent while there is no receiver is gone.  (A channel is
    closed when all senders are dropped; every output task owns one.) *)
Inductive Received := Frame (f : MediaFrame) | Lagged (n : Z).

Class Broadcast (C : Type) := {
  bc_new : nat → C;
  bc_subscribe : C → C * nat;
  bc_send : MediaFrame → C → C;
  bc_recv : nat → C → option (Received * C);
  bc_drop : nat → C → C;
  bc_receiver_count : C → Z;
}.

(** The laws speak about the frames sent so far and the position of each
    receiver among them. *)
Class BroadcastLaws (C : Type) `{Broadcast C} := {
  bc_log : C → list MediaFrame;
  bc_cursor : C → nat → option nat;
  bc_capacity : C → nat;
  bc_new_spec n : bc_log (bc_new n) = [] ∧ bc_capacity (bc_new n) = n
    ∧ ∀ r, bc_cursor (bc_new n) r = None;
  bc_subscribe_spec c c' r : bc_subscribe c = (c', r) →
    bc_cursor c r = None ∧ bc_log c' = bc_log c ∧ bc_capacity c' = bc_capacity c
    ∧ bc_cursor c' r = Some (length (bc_log c))
    ∧ ∀ q, q ≠ r → bc_cursor c' q = bc_cursor c q;
  bc_send_spec f c : 0 < bc_receiver_count c →
    bc_log (bc_send f c) = bc_log c ++ [f] ∧ bc_capacity (bc_send f c) = bc_capacity c
    ∧ ∀ q, bc_cursor (bc_send f c) q = bc_cursor c q;
  bc_recv_spec c r n : bc_cursor c r = Some n → (n ≤ length (bc_log c))%nat →
    match bc_recv r c with
    | None => n = length (bc_log c)
    | Some (got, c') =>
        bc_log c' = bc_log c ∧ bc_capacity c' = bc_capacity c
        ∧ (∀ q, q ≠ r → bc_cursor c' q = bc_cursor c q)
        ∧ match got with
          | Frame f => (length (bc_log c) ≤ n + bc_capacity c)%nat ∧ bc_log c !! n = Some f
                       ∧ bc_cursor c' r = Some (S n)
          | Lagged k => (n + bc_capacity c < length (bc_log c))%nat
                        ∧ k = Z.of_nat (length (bc_log c) - bc_capacity c - n)
                        ∧ bc_cursor c' r = Some (length (bc_log c) - bc_capacity c)%nat
          end
    end;
  bc_drop_spec c r : bc_log (bc_drop r c) = bc_log c ∧ bc_capacity (bc_drop r c) = bc_capacity c
    ∧ (∀ q, q ≠ r → bc_cursor (bc_drop r c) q = bc_cursor c q);
  bc_receiver_count_spec c r : bc_cursor c r ≠ None → 0 < bc_receiver_count c;
}.

(** A log with the positions of the receivers is a broadcast channel. *)
Record LogChannel := mkLog {
  lc_log : list MediaFrame;
  lc_cursors : gmap nat nat;
  lc_next : nat;
  lc_capacity : nat;
}.

Definition lc_ok (c : LogChannel) (r : nat) : option nat :=
  if (r <? lc_next c)%nat then lc_cursors c !! r else None.

#[export] Instance log_channel : Broadcast LogChannel := {
  bc_new n := mkLog [] ∅ 0 n;
  bc_subscribe c :=
    (mkLog (lc_log c) (<[lc_next c := length (lc_log c)]> (lc_cursors c)) (S (lc_next c))
       (lc_capacity c), lc_next c);
  bc_send f c := mkLog (lc_log c ++ [f]) (lc_cursors c) (lc_next c) (lc_capacity c);
  bc_recv r c :=
    n ← lc_ok c r;
    if bool_decide (n + lc_capacity c < length (lc_log c))%nat then
      let m := (length (lc_log c) - lc_capacity c)%nat in
      Some (Lagged (Z.of_nat (m - n)), mkLog (lc_log c) (<[r := m]> (lc_cursors c)) (lc_next c) (lc_capacity c))
    else
      f ← lc_log c !! n;
      Some (Frame f, mkLog (lc_log c) (<[r := S n]> (lc_cursors c)) (lc_next c) (lc_capacity c));
  bc_drop r c := mkLog (lc_log c) (delete r (lc_cursors c)) (lc_next c) (lc_capacity c);
  bc_receiver_count c := Z.of_nat (size (lc_cursors c));
}.

#[export] Instance log_channel_laws : BroadcastLaws LogChannel.
Proof.
  refine {| bc_log := lc_log; bc_cursor := lc_ok; bc_capacity := lc_capacity |}.
  - done.
  - intros c c' r [= <- <-]. unfold lc_ok; cbn [lc_next lc_cursors lc_log lc_capacity]. rewrite Nat.ltb_irrefl.
    split_and!; [done..| |].
    + rewrite (proj2 (Nat.ltb_lt _ _)) by lia. apply lookup_insert_eq.
    + intros q Hq. rewrite lookup_insert_ne by done.
      destruct (Nat.ltb_spec q (S (lc_next c))), (Nat.ltb_spec q (lc_next c)); (done || lia).
  - done.
  - intros c r n Hr Hn. cbn. rewrite Hr. cbn.
    assert ((r <? lc_next c)%nat = true) as Hlt
      by (unfold lc_ok in Hr; by destruct (r <? lc_next c)%nat).
    assert (∀ m q, q ≠ r → lc_ok (mkLog (lc_log c) (<[r:=m]> (lc_cursors c)) (lc_next c) (lc_capacity c)) q
      = lc_ok c q) as Ho by (intros m q Hq; unfold lc_ok; cbn [lc_next lc_cursors]; by rewrite lookup_insert_ne).
    case_bool_decide as Hlag.
    + split; [done|]. split; [done|]. split; [apply Ho|]. split_and!; [done | done |].
      unfold lc_ok; cbn [lc_next lc_cursors lc_log lc_capacity]. by rewrite Hlt, lookup_insert_eq.
    + destruct (lc_log c !! n) as [f|] eqn:E; cbn.
      * split; [done|]. split; [done|]. split; [apply Ho|]. split_and!; [lia | done |].
        unfold lc_ok; cbn [lc_next lc_cursors lc_log lc_capacity]. by rewrite Hlt, lookup_insert_eq.
      * apply lookup_ge_None in E. lia.
  - intros c r. split_and!; [done | done |]. intros q Hq. cbn. unfold lc_ok; cbn [lc_next lc_cursors].
    by rewrite lookup_delete_ne.
  - intros c r Hr. cbn. unfold lc_ok in Hr. destruct (_ <? _)%nat; [|done].
    destruct (lc_cursors c !! r) eqn:E; [|done].
    assert (size (lc_cursors c) ≠ 0%nat); [|lia].
    intros H0%map_size_empty_inv. by rewrite H0, lookup_empty in E.
Defined.

(** ** The hub *)
Section hub.
Context {S O C Sem : Type} `{Source S} `{Output O} `{Broadcast C} `{Semaphore Sem}.

Definition MAX_OUTPUTS : Z := 16.
Definition BROADCAST_CAPACITY : nat := 64.

(** The source task, between two of its awaits; [SrcPanicked] when the source
    unwound it. *)
Inductive SourcePhase :=
  | SrcNotRun (s : S)
  | SrcSpawned (s : S)
  | SrcAcquiring (s : S)
  | SrcHolding (s : S)
  | SrcStarting (s : S)
  | SrcLoop (s : S)
  | SrcCleanup (s : S)
  | SrcEnded
  | SrcPanicked.

(** An output task; [Looping] has its receiver and the sum of the losses it
    has logged. *)
Inductive TaskPhase :=
  | Spawned
  | Taken (o : O)
  | Started (o : O)
  | Looping (o : O) (rx : nat) (lagged : Z)
  | Stopping (o : O) (rx : nat)
  | Finished.

Record OutputTask := mkTask { task_id : Uuid; task_phase : TaskPhase }.

(** How far [run] got. *)
Inductive RunPhase := NotRun | RunMarked | RunSpawning (ids : list Uuid) | RunDone.

(** [output_stop] holds the ids whose stop sender is still in the map: the
    receiver of a task is signalled when it is removed. *)
Record Hub := mkHub {
  source : SourcePhase;
  chan : C;
  stopped : bool;
  outputs : gmap Uuid O;
  output_stop : gset Uuid;
  running : bool;
  run_phase : RunPhase;
  tasks : list OutputTask;
  lifecycle : Lifecycle.Entries;
  budget : Budget.StreamBudget;
  stream_id : Uuid;
}.

Definition hub_new (s : S) (stream_id : Uuid) : Hub :=
  mkHub (SrcNotRun s) (bc_new BROADCAST_CAPACITY) false ∅ ∅ false NotRun [] ∅ Budget.new stream_id.

Definition set_source (p : SourcePhase) (h : Hub) : Hub :=
  mkHub p (chan h) (stopped h) (outputs h) (output_stop h) (running h) (run_phase h) (tasks h)
    (lifecycle h) (budget h) (stream_id h).
Definition set_chan (c : C) (h : Hub) : Hub :=
  mkHub (source h) c (stopped h) (outputs h) (output_stop h) (running h) (run_phase h) (tasks h)
    (lifecycle h) (budget h) (stream_id h).
Definition set_inner (os : gmap Uuid O) (st : gset Uuid) (h : Hub) : Hub :=
  mkHub (source h) (chan h) (stopped h) os st (running h) (run_phase h) (tasks h)
    (lifecycle h) (budget h) (stream_id h).
Definition set_run (r : bool) (p : RunPhase) (h : Hub) : Hub :=
  mkHub (source h) (chan h) (stopped h) (outputs h) (output_stop h) r p (tasks h)
    (lifecycle h) (budget h) (stream_id h).
Definition set_tasks (ts : list OutputTask) (h : Hub) : Hub :=
  mkHub (source h) (chan h) (stopped h) (outputs h) (output_stop h) (running h) (run_phase h) ts
    (lifecycle h) (budget h) (stream_id h).
Definition set_managed (l : Lifecycle.Entries) (b : Budget.StreamBudget) (h : Hub) : Hub :=
  mkHub (source h) (chan h) (stopped h) (outputs h) (output_stop h) (running h) (run_phase h) (tasks h)
    l b (stream_id h).
Definition set_stopped (h : Hub) : Hub :=
  mkHub (source h) (chan h) true (outputs h) (output_stop h) (running h) (run_phase h) (tasks h)
    (lifecycle h) (budget h) (stream_id h).

(** *** Outputs *)

(** [tokio::spawn] of an output task. *)
Definition spawn_output_task (id : Uuid) (h : Hub) : Hub :=
  set_tasks (tasks h ++ [mkTask id Spawned]) h.

Definition register (id : Uuid) (output : O) (h : Hub) : Hub :=
  set_inner (<[id := output]> (outputs h)) ({[ id ]} ∪ output_stop h) h.

Definition add_output (id : Uuid) (output : O) (h : Hub) : Hub :=
  let h := register id output h in
  if running h then spawn_output_task id h else h.

Definition try_add_output (ctrl : Controller.ResourceController Sem) (id : Uuid) (output : O)
    (h : Hub) : Res Hub :=
  if MAX_OUTPUTS <=? Z.of_nat (size (outputs h)) then Err "503: Maximum outputs"
  else if Controller.available_permits ctrl =? 0 then
    Err "503: All stream slots are exhausted. Try again later."
  else Ok (add_output id output h).

Definition remove_output (id : Uuid) (h : Hub) : Hub * bool :=
  (set_inner (delete id (outputs h)) (output_stop h ∖ {[ id ]}) h,
   bool_decide (is_Some (outputs h !! id))).

(** [HubHandle::add_output_at_runtime], [HubHandle::remove_output] *)
Definition add_output_at_runtime (id : Uuid) (output : O) (h : Hub) : Hub :=
  spawn_output_task id (register id output h).

Definition handle_remove_output (id : Uuid) (h : Hub) : Hub :=
  set_inner (delete id (outputs h)) (output_stop h ∖ {[ id ]}) h.

(** [run], from lock to lock: marking, collecting the ids, spawning the
    output tasks one by one and the source task at the end. *)
Definition run_step (h : Hub) : option Hub :=
  match run_phase h, source h with
  | NotRun, SrcNotRun _ => Some (set_run true RunMarked h)
  | RunMarked, _ => Some (set_run true (RunSpawning (map_to_list (outputs h)).*1) h)
  | RunSpawning (id :: ids), _ => Some (spawn_output_task id (set_run true (RunSpawning ids) h))
  | RunSpawning [], SrcNotRun s => Some (set_source (SrcSpawned s) (set_run true RunDone h))
  | _, _ => None
  end.

(** [&mut self] is not available while [run] is being awaited. *)
Definition idle (h : Hub) : bool :=
  match run_phase h with NotRun | RunDone => true | _ => false end.

(** *** An output task *)
Definition stop_ready (t : OutputTask) (h : Hub) : bool :=
  stopped h || negb (bool_decide (task_id t ∈ output_stop h)).

Inductive TaskAction := Go | OnStop.

(** One step of the task [t]: its next phase and the hub; [None] when the
    step is not enabled. *)
Definition task_step (a : TaskAction) (t : OutputTask) (h : Hub) : option (TaskPhase * Hub) :=
  match task_phase t, a with
  | Spawned, Go =>
      match outputs h !! task_id t with
      | Some o => Some (Taken o, set_inner (delete (task_id t) (outputs h)) (output_stop h) h)
      | None => Some (Finished, h)
      end
  | Taken o, Go =>
      match output_start o with
      | (Ok _, o) => Some (Started o, h)
      | _ => Some (Finished, h)
      end
  | Started o, Go => let '(c, rx) := bc_subscribe (chan h) in Some (Looping o rx 0, set_chan c h)
  | Looping o rx lagged, OnStop => if stop_ready t h then Some (Stopping o rx, h) else None
  | Looping o rx lagged, Go =>
      '(got, c) ← bc_recv rx (chan h);
      let h := set_chan c h in
      match got with
      | Frame f =>
          match send_frame f o with
          | (Ok _, o) => Some (Looping o rx lagged, h)
          | (Err _, o) => Some (Stopping o rx, h)
          | _ => Some (Finished, set_chan (bc_drop rx c) h)
          end
      | Lagged n => Some (Looping o rx (lagged + n), h)
      end
  | Stopping o rx, Go => Some (Finished, set_chan (bc_drop rx (chan h)) h)
  | _, _ => None
  end.

(** *** The source task *)
Definition transition (next : Lifecycle.StreamState) (h : Hub) : Hub :=
  set_managed (Lifecycle.transition (lifecycle h) (stream_id h) next).1 (budget h) h.

Definition release_budget (h : Hub) : Hub :=
  set_managed (lifecycle h) (Budget.remove_stream (budget h) (stream_id h)) h.

Inductive SourceAction := SrcGo | SrcOnStop.

(** The permit is bound in the first arm of the [match] on [acquire], and
    dropped at its end. *)
Definition source_step (a : SourceAction) (ctrl : Controller.ResourceController Sem) (h : Hub)
    : option (Controller.ResourceController Sem * Hub) :=
  match source h, a with
  | SrcSpawned s, SrcGo =>
      Some (ctrl, set_source (SrcAcquiring s)
                    (set_managed (Lifecycle.start (lifecycle h) (stream_id h)) (budget h) h))
  | SrcAcquiring s, SrcGo =>
      ctrl ← Controller.acquire ctrl; Some (ctrl, set_source (SrcHolding s) h)
  | SrcHolding s, SrcGo =>
      Some (Controller.release ctrl, set_source (SrcStarting s) (transition Lifecycle.Running h))
  | SrcStarting s, SrcGo =>
      match source_start s with
      | (Ok _, s) => Some (ctrl, set_source (SrcLoop s) h)
      | (Err _, s) =>
          let h := transition Lifecycle.Error h in
          Some (ctrl, set_source SrcEnded
                        (set_managed (Lifecycle.remove (lifecycle h) (stream_id h)) (budget h) h))
      | _ => Some (ctrl, set_source SrcPanicked h)
      end
  | SrcLoop s, SrcOnStop => if stopped h then Some (ctrl, set_source (SrcCleanup s) h) else None
  | SrcLoop s, SrcGo =>
      match next_frame s with
      | (Ok f, s) =>
          let c := if 0 <? bc_receiver_count (chan h) then bc_send f (chan h) else chan h in
          Some (ctrl, set_source (SrcLoop s) (set_chan c h))
      | (Err _, s) =>
          Some (ctrl, set_source (SrcCleanup s) (release_budget (transition Lifecycle.Error h)))
      | _ => Some (ctrl, set_source SrcPanicked h)
      end
  | SrcCleanup s, SrcGo =>
      let h := transition Lifecycle.Stopping h in
      match source_stop s with
      | (Ok _, _) | (Err _, _) =>
          Some (ctrl, set_source SrcEnded (release_budget (transition Lifecycle.Stopped h)))
      | _ => Some (ctrl, set_source SrcPanicked h)
      end
  | _, _ => None
  end.

(** ** Worlds: hubs that share a controller *)
Inductive Action :=
  | AddOutput (id : Uuid) (o : O)
  | TryAddOutput (id : Uuid) (o : O)
  | RemoveOutput (id : Uuid)
  | HandleAdd (id : Uuid) (o : O)
  | HandleRemove (id : Uuid)
  | Run
  | Stop
  | SourceStep (a : SourceAction)
  | TaskStep (k : nat) (a : TaskAction).

(** The ids a hub has seen; [Uuid::new_v4] returns another one. *)
Definition known (id : Uuid) (h : Hub) : bool :=
  bool_decide (is_Some (outputs h !! id)) || bool_decide (id ∈ output_stop h)
  || existsb (λ t, task_id t =? id) (tasks h)
  || match run_phase h with RunSpawning ids => existsb (Z.eqb id) ids | _ => false end.

Definition hub_step (a : Action) (ctrl : Controller.ResourceController Sem) (h : Hub)
    : option (Controller.ResourceController Sem * Hub) :=
  match a with
  | AddOutput id o => if idle h && negb (known id h) then Some (ctrl, add_output id o h) else None
  | TryAddOutput id o =>
      if idle h && negb (known id h) then
        match try_add_output ctrl id o h with
        | Ok h' => Some (ctrl, h')
        | _ => Some (ctrl, h)
        end
      else None
  | RemoveOutput id => if idle h then Some (ctrl, (remove_output id h).1) else None
  | HandleAdd id o => if negb (known id h) then Some (ctrl, add_output_at_runtime id o h) else None
  | HandleRemove id => Some (ctrl, handle_remove_output id h)
  | Run => h ← run_step h; Some (ctrl, h)
  | Stop => Some (ctrl, set_stopped h)
  | SourceStep a => source_step a ctrl h
  | TaskStep k a =>
      t ← tasks h !! k;
      '(p, h) ← task_step a t h;
      Some (ctrl, set_tasks (<[k := mkTask (task_id t) p]> (tasks h)) h)
  end.

Record World := mkWorld { controller : Controller.ResourceController Sem; hubs : list Hub }.

Definition world_step (w : World) (i : nat) (a : Action) : option World :=
  h ← hubs w !! i;
  '(ctrl, h) ← hub_step a (controller w) h;
  Some (mkWorld ctrl (<[i := h]> (hubs w))).

Inductive reachable (w0 : World) : World → Prop :=
  | reach_start : reachable w0 w0
  | reach_step w i a w' : reachable w0 w → world_step w i a = Some w' → reachable w0 w'.

(** ** Stream slots *)
Section slots.
Context `{!SemaphoreLaws Sem}.

Definition holding (h : Hub) : Z := match source h with SrcHolding _ => 1 | _ => 0 end.

Definition held (hs : list Hub) : Z := foldr (λ h acc, holding h + acc) 0 hs.
#[local] Arguments held : simpl never.

Lemma held_cons h hs : held (h :: hs) = holding h + held hs.
Proof. done. Qed.

Lemma held_insert hs i h h' :
  hs !! i = Some h → held (<[i := h']> hs) = held hs - holding h + holding h'.
Proof.
  revert i. induction hs as [|x hs IH]; intros [|i] Hi; try done; cbn in Hi.
  - injection Hi as ->. change (<[0%nat := h']> (h :: hs)) with (h' :: hs). rewrite !held_cons. lia.
  - change (<[Datatypes.S i := h']> (x :: hs)) with (x :: <[i := h']> hs).
    rewrite !held_cons, (IH i Hi). lia.
Qed.

Lemma source_step_slots a ctrl h ctrl' h' :
  source_step a ctrl h = Some (ctrl', h') →
  Controller.available_permits ctrl' + holding h' = Controller.available_permits ctrl + holding h
  ∧ Controller.max_streams ctrl' = Controller.max_streams ctrl
  ∧ 0 ≤ Controller.available_permits ctrl' - Z.min 0 (Controller.available_permits ctrl).
Proof.
  unfold source_step. intros E. assert (∀ p x, holding (set_source p x)
    = match p with SrcHolding _ => 1 | _ => 0 end) as Hset by done.
  assert (holding h = match source h with SrcHolding _ => 1 | _ => 0 end) as Hh by done.
  destruct (source h) as [s|s|s|s|s|s|s| |], a; try done; simplify_eq;
    repeat (case_match; simplify_eq; try done); rewrite ?Hset, ?Hh; try lia.
  - destruct (Controller.acquire ctrl) as [c|] eqn:Ea; [|done]. injection E as <- <-.
    destruct (Controller.acquire_some _ _ Ea) as (A1 & A2 & A3). rewrite Hset. lia.
  - destruct (Controller.release_permits ctrl) as [A1 A2]. lia.
Qed.

(** Only the source task touches the controller and its phase. *)
Lemma task_step_source a t h p h' : task_step a t h = Some (p, h') → source h' = source h.
Proof.
  unfold task_step. intros E. destruct (task_phase t), a; simplify_eq; try done;
    try (by repeat (case_match; simplify_eq)).
  destruct (bc_recv rx (chan h)) as [[got c]|]; [|done]. cbn in E.
  by repeat (case_match; simplify_eq).
Qed.

Lemma hub_step_slots a ctrl h ctrl' h' :
  hub_step a ctrl h = Some (ctrl', h') →
  Controller.available_permits ctrl' + holding h' = Controller.available_permits ctrl + holding h
  ∧ Controller.max_streams ctrl' = Controller.max_streams ctrl
  ∧ 0 ≤ Controller.available_permits ctrl' - Z.min 0 (Controller.available_permits ctrl).
Proof.
  intros E. assert (ctrl' = ctrl ∧ holding h' = holding h ∨ ∃ b, a = SourceStep b) as [[-> ->]|[b ->]].
  - destruct a as [id o|id o|id|id o|id| | |b|k b]; cbn in E; [..|by right; eexists|]; left.
    + case_match; [|done]. injection E as <- <-. unfold add_output. by case_match.
    + case_match; [|done]. unfold try_add_output in E. repeat case_match; simplify_eq/=; try done.
      split; [done|]. unfold add_output. by case_match.
    + case_match; [|done]. by injection E as <- <-.
    + case_match; [|done]. by injection E as <- <-.
    + by injection E as <- <-.
    + unfold run_step in E. unfold holding.
      destruct (run_phase h) as [| |[|id ids]|], (source h) eqn:Es; simplify_eq/=; split; try done;
        by rewrite Es.
    + by injection E as <- <-.
    + destruct (tasks h !! k) as [t|]; [|done]. cbn in E.
      destruct (task_step b t h) as [[p h'']|] eqn:Et; [|done]. injection E as <- <-.
      split; [done|]. unfold holding; cbn. by rewrite (task_step_source _ _ _ _ _ Et).
  - lia.
  - by apply source_step_slots in E.
Qed.

Lemma reachable_slots w0 w :
  reachable w0 w →
  0 ≤ Controller.available_permits (controller w0) →
  Controller.available_permits (controller w) + held (hubs w)
  = Controller.available_permits (controller w0) + held (hubs w0)
  ∧ 0 ≤ Controller.available_permits (controller w)
  ∧ Controller.max_streams (controller w) = Controller.max_streams (controller w0).
Proof.
  intros Hr Hav. induction Hr as [|w i a w' Hr IH Hs]; [done|].
  unfold world_step in Hs. destruct (hubs w !! i) as [h|] eqn:Eh; [|done]. cbn in Hs.
  destruct (hub_step a (controller w) h) as [[ctrl h']|] eqn:E; [|done]. injection Hs as <-. cbn.
  destruct (hub_step_slots _ _ _ _ _ E) as (A1 & A2 & A3). rewrite (held_insert _ _ h h' Eh).
  destruct IH as (I1 & I2 & I3). lia.
Qed.
End slots.

(** ** The lifecycle of the stream *)
Definition life_ok (h : Hub) : Prop :=
  let st := lifecycle h !! stream_id h in
  match source h with
  | SrcNotRun _ | SrcSpawned _ => st = None
  | SrcAcquiring _ | SrcHolding _ => st = Some Lifecycle.Starting
  | SrcStarting _ | SrcLoop _ => st = Some Lifecycle.Running
  | SrcCleanup _ => st = Some Lifecycle.Error ∨ st = Some Lifecycle.Running ∧ stopped h = true
  | SrcEnded =>
      st = None ∨ st = Some Lifecycle.Error ∨ st = Some Lifecycle.Stopped ∧ stopped h = true
  | SrcPanicked => True
  end.

Lemma lookup_transition l i s next :
  l !! i = Some s →
  (Lifecycle.transition l i next).1 !! i
  = Some (if Lifecycle.can_transition_to s next then next else s).
Proof.
  intros E. unfold Lifecycle.transition. rewrite E.
  destruct (Lifecycle.can_transition_to s next); cbn; [apply lookup_insert_eq | done].
Qed.

Lemma source_step_life a ctrl h ctrl' h' :
  source_step a ctrl h = Some (ctrl', h') → life_ok h → life_ok h'.
Proof.
  unfold source_step, life_ok. intros E Hl.
  destruct (source h) as [s|s|s|s|s|s|s| |], a; try done; simplify_eq.
  - cbn. apply lookup_insert_eq.
  - destruct (Controller.acquire ctrl); [|done]. cbn in E. by simplify_eq.
  - cbn. by rewrite (lookup_transition _ _ _ _ Hl).
  - destruct (source_start s) as [[] s']; simplify_eq; cbn; try done. left. apply lookup_delete_eq.
  - destruct (next_frame s) as [[] s']; simplify_eq; cbn; try done. left.
    by rewrite (lookup_transition _ _ _ _ Hl).
  - destruct (stopped h) eqn:Es; simplify_eq. cbn. by right.
  - assert (∀ st, lifecycle h !! stream_id h = Some st →
      (Lifecycle.transition (Lifecycle.transition (lifecycle h) (stream_id h) Lifecycle.Stopping).1
         (stream_id h) Lifecycle.Stopped).1 !! stream_id h
      = Some (if Lifecycle.can_transition_to st Lifecycle.Stopping then Lifecycle.Stopped else
              if Lifecycle.can_transition_to st Lifecycle.Stopped then Lifecycle.Stopped else st)) as Hst.
    { intros st Est. erewrite lookup_transition; [|by apply lookup_transition].
      by destruct (Lifecycle.can_transition_to st Lifecycle.Stopping). }
    destruct (source_stop s) as [[] s']; simplify_eq; cbn; try done;
      (destruct Hl as [Hl|[Hl Hs]]; rewrite (Hst _ Hl); auto).
Qed.

Lemma hub_step_life a ctrl h ctrl' h' :
  hub_step a ctrl h = Some (ctrl', h') → life_ok h → life_ok h'.
Proof.
  intros E Hl.
  assert ((source h' = source h ∧ lifecycle h' = lifecycle h ∧ stream_id h' = stream_id h
           ∧ (stopped h = true → stopped h' = true))
          ∨ a = Run ∨ ∃ b, a = SourceStep b) as [(X1 & X2 & X3 & X4)|[->|[b ->]]].
  - destruct a as [id o|id o|id|id o|id| | |b|k b]; cbn in E;
      [..|by right; left| |by right; right; eexists|]; left.
    + case_match; [|done]. injection E as <- <-. unfold add_output. by case_match.
    + case_match; [|done]. unfold try_add_output in E. repeat case_match; simplify_eq/=; try done.
      unfold add_output. by case_match.
    + case_match; [|done]. by injection E as <- <-.
    + case_match; [|done]. by injection E as <- <-.
    + by injection E as <- <-.
    + by injection E as <- <-.
    + destruct (tasks h !! k) as [t|]; [|done]. cbn in E.
      destruct (task_step b t h) as [[p h'']|] eqn:Et; [|done]. injection E as <- <-.
      cbn. clear -Et. unfold task_step in Et. destruct (task_phase t), b; simplify_eq; try done;
        try (by repeat (case_match; simplify_eq)).
      destruct (bc_recv rx (chan h)) as [[got c]|]; [|done]. cbn in Et.
      by repeat (case_match; simplify_eq).
  - unfold life_ok in *. rewrite X1, X2, X3. destruct (source h); try done.
    + destruct Hl as [?|[? ?]]; auto.
    + destruct Hl as [?|[?|[? ?]]]; auto.
  - cbn in E. destruct (run_step h) as [h''|] eqn:Er; [|done]. injection E as <- <-.
    unfold run_step in Er. unfold life_ok in *.
    destruct (run_phase h) as [| |[|id ids]|], (source h) eqn:Es; simplify_eq; cbn;
      rewrite ?Es; done.
  - by apply source_step_life in E.
Qed.

(** ** The outputs *)
Section delivery.
Context `{!BroadcastLaws C}.

Definition held_output (t : OutputTask) : bool :=
  match task_phase t with
  | Taken _ | Started _ | Looping _ _ _ | Stopping _ _ => true
  | _ => false
  end.

Definition receiver_of (t : OutputTask) : option nat :=
  match task_phase t with Looping _ rx _ | Stopping _ rx => Some rx | _ => None end.

(** [o] was started and then given the frames [fs] one after another. *)
Definition fed (fs : list MediaFrame) (o : O) : Prop :=
  ∃ o1 o0, output_start o1 = (Ok tt, o0) ∧ send_all fs o0 = (Ok tt, o).

Definition window (s n : nat) (log : list MediaFrame) : list MediaFrame := take (n - s) (drop s log).

(** What an output has been given: a subsequence of the frames broadcast
    since it subscribed, up to its position; the others are its logged
    losses. *)
Definition delivered (c : C) (o : O) (rx : nat) (lagged : Z) : Prop :=
  ∃ s n fs, bc_cursor c rx = Some n ∧ (s ≤ n ≤ length (bc_log c))%nat
    ∧ fed fs o ∧ fs `sublist_of` window s n (bc_log c)
    ∧ Z.of_nat (length fs) + lagged = Z.of_nat (n - s).

Definition task_ok (c : C) (t : OutputTask) : Prop :=
  match task_phase t with
  | Started o => fed [] o
  | Looping o rx lagged => delivered c o rx lagged
  | Stopping _ rx => ∃ n, bc_cursor c rx = Some n
  | _ => True
  end.

Record hub_ok (h : Hub) : Prop := {
  ok_capacity : bc_capacity (chan h) = BROADCAST_CAPACITY;
  ok_tasks : ∀ k t, tasks h !! k = Some t → task_ok (chan h) t;
  ok_registry : ∀ k t, tasks h !! k = Some t → held_output t = true → outputs h !! task_id t = None;
  ok_owner : ∀ i j t u, tasks h !! i = Some t → tasks h !! j = Some u → i ≠ j →
    held_output t = true → held_output u = true → task_id t ≠ task_id u;
  ok_receivers : ∀ i j t u r, tasks h !! i = Some t → tasks h !! j = Some u → i ≠ j →
    receiver_of t = Some r → receiver_of u ≠ Some r;
}.

Lemma sublist_full {A} (l k : list A) :
  l `sublist_of` k → (length k ≤ length l)%nat → l = k.
Proof.
  induction 1 as [|x l k Hs IH|x l k Hs IH]; cbn; intros Hl; [done | f_equal; apply IH; lia|].
  apply sublist_length in Hs. lia.
Qed.

Lemma window_snoc s n log f :
  (s ≤ n)%nat → log !! n = Some f → window s (Datatypes.S n) log = window s n log ++ [f].
Proof.
  intros Hs Hf. unfold window. replace (Datatypes.S n - s)%nat with (Datatypes.S (n - s)) by lia.
  apply take_S_r. rewrite lookup_drop. by replace (s + (n - s))%nat with n by lia.
Qed.

Lemma window_mono s n m log : (n ≤ m)%nat → window s n log `sublist_of` window s m log.
Proof.
  intros Hn. unfold window. replace (n - s)%nat with ((n - s) `min` (m - s))%nat by lia.
  rewrite <-take_take. apply sublist_take.
Qed.

Lemma window_app s n log l : (s ≤ n ≤ length log)%nat → window s n (log ++ l) = window s n log.
Proof.
  intros Hn. unfold window. rewrite drop_app_le by lia. apply take_app_le. rewrite length_drop. lia.
Qed.

(** The channel as another receiver, or the source, leaves it. *)
Definition extends (c c' : C) (r : option nat) : Prop :=
  (∃ l, bc_log c' = bc_log c ++ l) ∧ bc_capacity c' = bc_capacity c
  ∧ ∀ q, Some q ≠ r → bc_cursor c' q = bc_cursor c q.

Lemma task_ok_extends c c' r t :
  extends c c' r → receiver_of t ≠ r ∨ receiver_of t = None → task_ok c t → task_ok c' t.
Proof.
  intros ((l & Hl) & _ & Hc) Hr. unfold task_ok, receiver_of in *.
  destruct (task_phase t) as [|o|o|o rx lg|o rx|]; try done.
  - intros (s & n & fs & X1 & X2 & X3 & X4 & X5). exists s, n, fs.
    rewrite Hc by (destruct Hr; congruence). rewrite Hl, length_app, window_app by lia.
    split_and!; try done; lia.
  - intros [n Hn]. exists n. rewrite Hc; [done|]. destruct Hr; congruence.
Qed.

Lemma extends_refl c r : extends c c r.
Proof. split_and!; [exists []; by rewrite app_nil_r | done | done]. Qed.

Lemma extends_same c c' r :
  bc_log c' = bc_log c → bc_capacity c' = bc_capacity c →
  (∀ q, Some q ≠ r → bc_cursor c' q = bc_cursor c q) → extends c c' r.
Proof. intros E1 E2 E3. split_and!; [exists []; by rewrite E1, app_nil_r | done | done]. Qed.

Lemma receiver_cursor c t r : task_ok c t → receiver_of t = Some r → bc_cursor c r ≠ None.
Proof.
  unfold task_ok, receiver_of. destruct (task_phase t) as [|o|o|o rx lg|o rx|]; try done.
  - intros (s & n & fs & X1 & _) [= <-]. by rewrite X1.
  - intros [n Hn] [= <-]. by rewrite Hn.
Qed.

(** Steps that leave the running tasks alone. *)
Lemma hub_ok_change h h' new :
  hub_ok h → tasks h' = tasks h ++ new → Forall (λ t, task_phase t = Spawned) new →
  extends (chan h) (chan h') None →
  (∀ k t, tasks h !! k = Some t → outputs h !! task_id t = None → outputs h' !! task_id t = None) →
  hub_ok h'.
Proof.
  intros [X1 X2 X3 X4 X5] Ht Hnew He Hout.
  assert (∀ k t, tasks h' !! k = Some t → tasks h !! k = Some t ∨ task_phase t = Spawned) as Hk.
  { intros k t. rewrite Ht. intros [Hk|[_ Hk]]%lookup_app_Some; [by left|]. right.
    rewrite Forall_lookup in Hnew. by eapply Hnew. }
  assert (∀ t, task_phase t = Spawned → held_output t = false ∧ receiver_of t = None) as Hsp
    by (intros t E; unfold held_output, receiver_of; by rewrite E).
  constructor.
  - destruct He as (_ & -> & _). done.
  - intros k t Hkt. destruct (Hk k t Hkt) as [Hold|Hs].
    + eapply task_ok_extends; [exact He | | by eapply X2].
      destruct (receiver_of t); [by left | by right].
    + unfold task_ok. by rewrite Hs.
  - intros k t Hkt Hh. destruct (Hk k t Hkt) as [Hold|Hs].
    + by eapply Hout, X3.
    + destruct (Hsp t Hs) as [E _]. by rewrite E in Hh.
  - intros i j t u Hi Hj Hij Hh Hu.
    destruct (Hk i t Hi) as [Hi'|Hs]; [|by rewrite (proj1 (Hsp t Hs)) in Hh].
    destruct (Hk j u Hj) as [Hj'|Hs]; [|by rewrite (proj1 (Hsp u Hs)) in Hu].
    by eapply (X4 i j).
  - intros i j t u r Hi Hj Hij Hh Hu.
    destruct (Hk i t Hi) as [Hi'|Hs]; [|by rewrite (proj2 (Hsp t Hs)) in Hh].
    destruct (Hk j u Hj) as [Hj'|Hs]; [|by rewrite (proj2 (Hsp u Hs)) in Hu].
    by eapply (X5 i j).
Qed.

(** A step of one task. *)
Lemma hub_ok_task h h' k t t' r :
  hub_ok h → tasks h !! k = Some t → tasks h' = <[k := t']> (tasks h) → task_id t' = task_id t →
  extends (chan h) (chan h') r → (r = receiver_of t ∨ ∃ q, r = Some q ∧ bc_cursor (chan h) q = None) →
  task_ok (chan h') t' →
  (∀ i, outputs h !! i = None → outputs h' !! i = None) →
  (held_output t' = true →
     (held_output t = true ∨ is_Some (outputs h !! task_id t)) ∧ outputs h' !! task_id t = None) →
  (receiver_of t' = None ∨ receiver_of t' = receiver_of t ∨ receiver_of t' = r) →
  hub_ok h'.
Proof.
  intros [X1 X2 X3 X4 X5] Hk Ht Hid He Hr Hok Hout Hheld Hrecv.
  assert (∀ j u, tasks h' !! j = Some u → j = k ∧ u = t' ∨ j ≠ k ∧ tasks h !! j = Some u) as Hj.
  { intros j u. rewrite Ht. intros [(<- & <- & _)|[Hne E]]%list_lookup_insert_Some; [by left | by right; auto]. }
  assert (∀ j u, j ≠ k → tasks h !! j = Some u → receiver_of u ≠ r ∨ receiver_of u = None) as Hother.
  { intros j u Hne Hu. destruct (receiver_of u) as [q|] eqn:Eq; [|by right]. left.
    destruct Hr as [->|(q' & -> & Hq')].
    - intros E. eapply (X5 j k u t q); eauto.
    - intros [= ->]. eapply receiver_cursor; [by eapply X2 | exact Eq | exact Hq']. }
  assert (∀ j u q, j ≠ k → tasks h !! j = Some u → receiver_of t' = Some q → receiver_of u ≠ Some q)
    as Hsep.
  { intros j u q Hne Hu Hq Hq'. destruct Hrecv as [E|[E|E]]; [congruence | |].
    - eapply (X5 j k u t q); eauto. congruence.
    - destruct (Hother j u Hne Hu) as [F|F]; congruence. }
  constructor.
  - destruct He as (_ & -> & _). done.
  - intros j u Hu. destruct (Hj j u Hu) as [[-> ->]|[Hne Hu']]; [done|].
    eapply task_ok_extends; [exact He | by eapply Hother | by eapply X2].
  - intros j u Hu Hh. destruct (Hj j u Hu) as [[-> ->]|[Hne Hu']].
    + rewrite Hid. by apply Hheld.
    + by eapply Hout, X3.
  - assert (∀ j u, j ≠ k → tasks h !! j = Some u → held_output t' = true → held_output u = true →
      task_id t' ≠ task_id u) as Hown.
    { intros j u Hne Hu Hh' Hhu. rewrite Hid. destruct (Hheld Hh') as [[Hht|[o Ho]] _].
      - by eapply (X4 k j).
      - intros E. rewrite E in Ho. by rewrite (X3 j u Hu Hhu) in Ho. }
    intros i j t1 u1 Hi' Hj' Hij Hh Hu.
    destruct (Hj i t1 Hi') as [[-> ->]|[Hnei Hi1]], (Hj j u1 Hj') as [[-> ->]|[Hnej Hj1]].
    + done.
    + by eapply Hown.
    + apply not_eq_sym. by eapply Hown.
    + by eapply (X4 i j).
  - intros i j t1 u1 q Hi' Hj' Hij Hh Hu.
    destruct (Hj i t1 Hi') as [[-> ->]|[Hnei Hi1]], (Hj j u1 Hj') as [[-> ->]|[Hnej Hj1]].
    + done.
    + by eapply Hsep.
    + by eapply Hsep.
    + by eapply (X5 i j).
Qed.

Lemma send_all_snoc fs f (o0 o1 o2 : O) :
  send_all fs o0 = (Ok tt, o1) → send_frame f o1 = (Ok tt, o2) →
  send_all (fs ++ [f]) o0 = (Ok tt, o2).
Proof.
  revert o0. induction fs as [|g fs IH]; intros o0 E1 E2; cbn [app send_all] in *.
  - injection E1 as ->. st_next (exact E2). done.
  - unfold mbind, ST_bind in *. destruct (send_frame g o0) as [[] o']; try done. by apply IH.
Qed.

Lemma received_extends c rx n got c' :
  bc_cursor c rx = Some n → (n ≤ length (bc_log c))%nat → bc_recv rx c = Some (got, c') →
  extends c c' (Some rx).
Proof.
  intros Hn Hle E. pose proof (bc_recv_spec c rx n Hn Hle) as Hs. rewrite E in Hs.
  destruct Hs as (Hl & Hc & Hq & _). split_and!; [exists []; by rewrite Hl, app_nil_r | done |].
  intros q Hne. apply Hq. congruence.
Qed.

(** [hub_ok_task] for the tasks of [task_step]. *)
Lemma task_moves h h' k t p r :
  hub_ok h → tasks h !! k = Some t → tasks h' = tasks h →
  extends (chan h) (chan h') r →
  (r = receiver_of t ∨ ∃ q, r = Some q ∧ bc_cursor (chan h) q = None) →
  task_ok (chan h') (mkTask (task_id t) p) →
  (∀ i, outputs h !! i = None → outputs h' !! i = None) →
  (held_output (mkTask (task_id t) p) = true →
     (held_output t = true ∨ is_Some (outputs h !! task_id t)) ∧ outputs h' !! task_id t = None) →
  (receiver_of (mkTask (task_id t) p) = None
   ∨ receiver_of (mkTask (task_id t) p) = receiver_of t ∨ receiver_of (mkTask (task_id t) p) = r) →
  hub_ok (set_tasks (<[k := mkTask (task_id t) p]> (tasks h')) h').
Proof.
  intros Hh Hk Ht He Hr Hok Hout Hheld Hrecv.
  eapply (hub_ok_task h _ k t _ r);
    [exact Hh | exact Hk | cbn; by rewrite Ht | done | exact He | exact Hr | exact Hok | exact Hout
    | exact Hheld | exact Hrecv].
Qed.

(** The obligations of [task_moves] that are the same for every step. *)
Ltac move_task r :=
  match goal with
  | Hk : tasks ?h !! ?k = Some ?t |- _ =>
      apply (task_moves h _ k t _ r); try done; try (left; congruence); try (by left); try (by right; left); try (by right; right);
      try (right; right; congruence); try (right; eexists; split; [reflexivity | done]);
      try apply extends_refl;
      try (intros _; split; [left; assumption | by match goal with
        | Hreg : held_output t = true → outputs h !! task_id t = None |- _ => apply Hreg end])
  end.

Lemma task_step_ok a h k t p h' :
  hub_ok h → tasks h !! k = Some t → task_step a t h = Some (p, h') →
  hub_ok (set_tasks (<[k := mkTask (task_id t) p]> (tasks h')) h').
Proof.
  intros Hh Hk E. pose proof (ok_tasks _ Hh k t Hk) as Hok. pose proof (ok_registry _ Hh k t Hk) as Hreg.
  unfold task_step in E. unfold task_ok in Hok.
  destruct (task_phase t) as [|o|o|o rx lg|o rx|] eqn:Ep, a; try done.
  all: assert (receiver_of t = match task_phase t with Looping _ rx _ | Stopping _ rx => Some rx | _ => None end) as Hrt by done; rewrite Ep in Hrt.
  all: assert (held_output t = match task_phase t with Taken _ | Started _ | Looping _ _ _ | Stopping _ _ => true | _ => false end) as Hht by done; rewrite Ep in Hht.
  - (* taking the output *)
    destruct (outputs h !! task_id t) as [o|] eqn:Eo; injection E as <- <-.
    + move_task (@None nat).
      * intros i Hi. cbn. apply lookup_delete_None; by right.
      * intros _. split; [right; by rewrite Eo; eexists | apply lookup_delete_eq].
    + move_task (@None nat).
  - (* starting it *)
    destruct (output_start o) as [[[]| | |] o'] eqn:Es; injection E as <- <-;
      move_task (@None nat); auto.
    cbn. exists o, o'. done.
  - (* subscribing *)
    destruct (bc_subscribe (chan h)) as [c rx] eqn:Ec. injection E as <- <-.
    destruct (bc_subscribe_spec _ _ _ Ec) as (C1 & C2 & C3 & C4 & C5).
    move_task (Some rx).
    + apply extends_same; [done | done |]. intros q Hq. apply C5. congruence.
    + cbn. exists (length (bc_log (chan h))), (length (bc_log (chan h))), [].
      rewrite C2, C4, Nat.sub_diag. split_and!; try done; [lia.. | apply sublist_nil_l].
  - (* receiving *)
    destruct Hok as (s & n & fs & D1 & D2 & D3 & D4 & D5).
    destruct (bc_recv rx (chan h)) as [[got c]|] eqn:Er; [|done]. cbn in E.
    pose proof (received_extends _ _ _ _ _ D1 ltac:(lia) Er) as Hext.
    pose proof (bc_recv_spec _ _ _ D1 ltac:(lia)) as Hr. rewrite Er in Hr.
    destruct Hr as (L1 & L2 & _ & Hgot). destruct got as [f|lost].
    + destruct Hgot as (G1 & G2 & G3).
      assert (extends (chan h) (bc_drop rx c) (Some rx)) as Hdrop.
      { destruct (bc_drop_spec c rx) as (B1 & B2 & B3), Hext as (_ & _ & Hq).
        apply extends_same; [congruence | congruence |].
        intros q Hne. rewrite B3 by congruence. by apply Hq. }
      destruct (send_frame f o) as [[[]| | |] o'] eqn:Es; injection E as <- <-;
        move_task (Some rx).
      * cbn. exists s, (Datatypes.S n), (fs ++ [f]). rewrite L1, G3, length_app. cbn [length].
        apply lookup_lt_Some in G2 as Hlt. split_and!; [done | lia | lia | | | lia].
        -- destruct D3 as (o1 & o0 & F1 & F2). exists o1, o0. split; [done|]. by eapply send_all_snoc.
        -- rewrite (window_snoc _ _ _ f) by (done || lia). by apply sublist_app.
      * cbn. by eexists.
    + destruct Hgot as (G1 & -> & G3). injection E as <- <-.
      move_task (Some rx).
      cbn. exists s, (length (bc_log (chan h)) - bc_capacity (chan h))%nat, fs. rewrite L1, G3.
      split_and!; [done | lia | lia | done | | lia].
      etrans; [exact D4 | apply window_mono; lia].
  - (* the stop signal *)
    destruct (stop_ready t h); [|done]. injection E as <- <-.
    destruct Hok as (s & n & fs & D1 & _).
    move_task (Some rx). by exists n.
  - (* stopping *)
    injection E as <- <-. destruct (bc_drop_spec (chan h) rx) as (B1 & B2 & B3).
    move_task (Some rx).
    apply extends_same; [done | done |]. intros q Hq. apply B3. congruence.
Qed.

(** ** Every step keeps the hub well formed *)
Lemma known_fresh id h :
  known id h = false →
  outputs h !! id = None ∧ ∀ k t, tasks h !! k = Some t → task_id t ≠ id.
Proof.
  unfold known. rewrite !orb_false_iff. intros [[[E1 _] E2] _]. split.
  - apply bool_decide_eq_false in E1. by apply eq_None_not_Some.
  - intros k t Hk Hid. rewrite <-not_true_iff_false, existsb_exists in E2. apply E2.
    exists t. split; [|by apply Z.eqb_eq]. apply list_elem_of_In. by eapply list_elem_of_lookup_2.
Qed.

Lemma register_ok id o h new :
  hub_ok h → known id h = false → Forall (λ t, task_phase t = Spawned) new →
  hub_ok (set_tasks (tasks h ++ new) (register id o h)).
Proof.
  intros Hh Hk Hnew. destruct (known_fresh id h Hk) as [Hid Hts].
  apply (hub_ok_change h _ new); try done; [apply extends_refl|].
  intros k t Ht Ho. cbn. rewrite lookup_insert_ne; [done|]. apply not_eq_sym. by eapply Hts.
Qed.

Lemma set_tasks_same h : set_tasks (tasks h) h = h.
Proof. by destruct h. Qed.

Lemma add_output_ok id o h : hub_ok h → known id h = false → hub_ok (add_output id o h).
Proof.
  intros Hh Hk. unfold add_output. destruct (running _).
  - by apply (register_ok id o h [mkTask id Spawned]); [..|constructor].
  - pose proof (register_ok id o h [] Hh Hk ltac:(constructor)) as Hr.
    rewrite app_nil_r in Hr. exact Hr.
Qed.

Lemma removed_ok id h : hub_ok h → hub_ok (handle_remove_output id h).
Proof.
  intros Hh. apply (hub_ok_change h _ []); try done; [by rewrite app_nil_r | apply extends_refl|].
  intros k t _ Ho. cbn. by apply lookup_delete_None; right.
Qed.

Lemma source_step_ok a ctrl h ctrl' h' :
  hub_ok h → source_step a ctrl h = Some (ctrl', h') → hub_ok h'.
Proof.
  intros Hh E. assert (tasks h' = tasks h ∧ outputs h' = outputs h ∧ extends (chan h) (chan h') None)
    as (X1 & X2 & X3).
  { unfold source_step in E. destruct (source h) as [s|s|s|s|s|s|s| |], a; try done; simplify_eq;
      try (by split_and!; [..|apply extends_refl]).
    - destruct (Controller.acquire ctrl) as [c|]; [|done]. injection E as <- <-.
      by split_and!; [..|apply extends_refl].
    - destruct (source_start s) as [[] s']; simplify_eq; by split_and!; [..|apply extends_refl].
    - destruct (next_frame s) as [[f|e| |] s']; simplify_eq;
        try (by split_and!; [..|apply extends_refl]).
      split_and!; [done..|]. cbn. destruct (Z.ltb_spec 0 (bc_receiver_count (chan h))) as [Hc|];
        [|apply extends_refl].
      destruct (bc_send_spec f _ Hc) as (B1 & B2 & B3).
      split_and!; [by exists [f] | done | auto].
    - destruct (stopped h); simplify_eq. by split_and!; [..|apply extends_refl].
    - destruct (source_stop s) as [[] s']; simplify_eq; by split_and!; [..|apply extends_refl]. }
  apply (hub_ok_change h _ []); [done | by rewrite app_nil_r | constructor | done |].
  intros k t _ Ho. by rewrite X2.
Qed.

Lemma hub_step_ok a ctrl h ctrl' h' :
  hub_ok h → hub_step a ctrl h = Some (ctrl', h') → hub_ok h'.
Proof.
  intros Hh E. destruct a as [id o|id o|id|id o|id| | |b|k b]; cbn in E.
  - destruct (idle h); [|done]. destruct (known id h) eqn:Ek; [done|]. injection E as <- <-.
    by apply add_output_ok.
  - destruct (idle h); [|done]. destruct (known id h) eqn:Ek; [done|].
    unfold try_add_output in E. repeat case_match; simplify_eq; try done. by apply add_output_ok.
  - destruct (idle h); [|done]. injection E as <- <-. by apply removed_ok.
  - destruct (known id h) eqn:Ek; [done|]. injection E as <- <-.
    by apply (register_ok id o h [mkTask id Spawned]); [..|constructor].
  - injection E as <- <-. by apply removed_ok.
  - destruct (run_step h) as [h''|] eqn:Er; [|done]. injection E as <- <-.
    assert (∃ new, tasks h'' = tasks h ++ new ∧ Forall (λ t, task_phase t = Spawned) new
            ∧ outputs h'' = outputs h ∧ chan h'' = chan h) as (new & X1 & X2 & X3 & X4).
    { unfold run_step in Er. destruct (run_phase h) as [| |[|id ids]|], (source h); simplify_eq;
        first [by (exists []; rewrite app_nil_r) | by (eexists; split_and!; [done|by constructor|..])]. }
    apply (hub_ok_change h _ new); [done..|rewrite X4; apply extends_refl|].
    intros k t _ Ho. by rewrite X3.
  - injection E as <- <-. apply (hub_ok_change h _ []); try done;
      [by rewrite app_nil_r | apply extends_refl].
  - by eapply source_step_ok.
  - destruct (tasks h !! k) as [t|] eqn:Et; [|done]. cbn in E.
    destruct (task_step b t h) as [[p h'']|] eqn:Es; [|done]. injection E as <- <-.
    by eapply task_step_ok.
Qed.

Lemma hub_new_ok s i : hub_ok (hub_new s i).
Proof.
  destruct (bc_new_spec BROADCAST_CAPACITY) as (_ & B2 & _).
  by constructor.
Qed.
End delivery.

(** ** Reachable worlds *)
Definition initial (w : World) : Prop := Forall (λ h, ∃ s i, h = hub_new s i) (hubs w).

Lemma reachable_hubs (P : Hub → Prop) w0 w :
  reachable w0 w → (∀ s i, P (hub_new s i)) →
  (∀ a ctrl h ctrl' h', P h → hub_step a ctrl h = Some (ctrl', h') → P h') →
  initial w0 → Forall P (hubs w).
Proof.
  intros Hr Hn Hs Hi. induction Hr as [|w i a w' Hr IH E].
  - eapply Forall_impl; [exact Hi|]. intros h (s & i & ->). apply Hn.
  - unfold world_step in E. destruct (hubs w !! i) as [h|] eqn:Eh; [|done]. cbn in E.
    destruct (hub_step a (controller w) h) as [[c h']|] eqn:Es; [|done]. injection E as <-. cbn.
    apply Forall_insert; [done|]. eapply Hs; [|exact Es]. by eapply Forall_lookup_1.
Qed.

Fixpoint world_run (w : World) (steps : list (nat * Action)) : option World :=
  match steps with
  | [] => Some w
  | (i, a) :: steps => w ← world_step w i a; world_run w steps
  end.

Lemma reachable_run w0 w steps w' : reachable w0 w → world_run w steps = Some w' → reachable w0 w'.
Proof.
  revert w. induction steps as [|[i a] steps IH]; intros w Hr E; cbn in E; [by injection E as <-|].
  destruct (world_step w i a) as [w1|] eqn:E1; [|done]. eapply IH; [|exact E]. by eapply reach_step.
Qed.

Lemma world_run_app w steps steps' :
  world_run w (steps ++ steps') = w' ← world_run w steps; world_run w' steps'.
Proof.
  revert w. induction steps as [|[i a] steps IH]; intros w; cbn; [done|].
  destruct (world_step w i a); cbn; [apply IH | done].
Qed.

Lemma world_step_at ctrl pre h post a ctrl' h' :
  hub_step a ctrl h = Some (ctrl', h') →
  world_step (mkWorld ctrl (pre ++ h :: post)) (length pre) a = Some (mkWorld ctrl' (pre ++ h' :: post)).
Proof.
  intros E. unfold world_step. cbn. rewrite list_lookup_middle by done. cbn. rewrite E. cbn.
  by rewrite insert_app_r_alt, Nat.sub_diag by lia.
Qed.

(** *** Worlds in which the limits are exceeded *)
Section limits.
Context `{!SemaphoreLaws Sem}.
Context (s s' : S) (source_starts : source_start s = (Ok tt, s')).
Context (o o' : O) (output_starts : output_start o = (Ok tt, o')).

(** The actions that go through the checks. *)
Definition checked (st : nat * Action) : Prop :=
  match st.2 with AddOutput _ _ | HandleAdd _ _ => False | _ => True end.

Definition start_actions : list Action :=
  [Run; Run; Run; SourceStep SrcGo; SourceStep SrcGo; SourceStep SrcGo; SourceStep SrcGo].

(** A hub in its main loop that ran without outputs. *)
Record looping (h : Hub) : Prop := {
  lp_source : source h = SrcLoop s';
  lp_running : running h = true;
  lp_run : run_phase h = RunDone;
  lp_outputs : outputs h = ∅;
}.

Lemma world_run_at ctrl pre h post a actions ctrl' h' :
  hub_step a ctrl h = Some (ctrl', h') →
  world_run (mkWorld ctrl (pre ++ h :: post)) (map (pair (length pre)) (a :: actions))
  = world_run (mkWorld ctrl' (pre ++ h' :: post)) (map (pair (length pre)) actions).
Proof. intros E. cbn [map world_run]. rewrite (world_step_at _ _ _ _ _ _ _ E). done. Qed.

Lemma start_hub_steps ctrl c1 pre post c os st l b i :
  (map_to_list os).*1 = [] → Controller.acquire ctrl = Some c1 →
  ∃ l', world_run (mkWorld ctrl (pre ++ mkHub (SrcNotRun s) c false os st false NotRun [] l b i :: post))
    (map (pair (length pre)) start_actions)
  = Some (mkWorld (Controller.release c1)
            (pre ++ mkHub (SrcLoop s') c false os st true RunDone [] l' b i :: post)).
Proof.
  intros Hos Ea. unfold start_actions. eexists.
  set (hub p r ph l := mkHub p c false os st r ph [] l b i).
  change (mkHub (SrcNotRun s) _ _ _ _ _ _ _ _ _ _) with (hub (SrcNotRun s) false NotRun l).
  rewrite (world_run_at ctrl pre _ post Run _ ctrl (hub (SrcNotRun s) true RunMarked l)) by done.
  rewrite (world_run_at ctrl pre _ post Run _ ctrl (hub (SrcNotRun s) true (RunSpawning []) l))
    by (cbn [hub hub_step run_step run_phase set_run outputs source]; by rewrite Hos).
  rewrite (world_run_at ctrl pre _ post Run _ ctrl (hub (SrcSpawned s) true RunDone l)) by done.
  set (l1 := Lifecycle.start l i).
  rewrite (world_run_at ctrl pre _ post _ _ ctrl (hub (SrcAcquiring s) true RunDone l1)) by done.
  rewrite (world_run_at ctrl pre _ post _ _ c1 (hub (SrcHolding s) true RunDone l1))
    by (cbn [hub hub_step source_step source set_source]; by rewrite Ea).
  set (l2 := (Lifecycle.transition l1 i Lifecycle.Running).1).
  rewrite (world_run_at c1 pre _ post _ _ (Controller.release c1) (hub (SrcStarting s) true RunDone l2))
    by done.
  rewrite (world_run_at _ pre _ post _ _ (Controller.release c1) (hub (SrcLoop s') true RunDone l2))
    by (cbn [hub hub_step source_step source set_source]; by rewrite source_starts).
  reflexivity.
Qed.

Lemma start_hub ctrl pre i post :
  0 < Controller.available_permits ctrl →
  ∃ ctrl' h',
    world_run (mkWorld ctrl (pre ++ hub_new s i :: post)) (map (pair (length pre)) start_actions)
    = Some (mkWorld ctrl' (pre ++ h' :: post))
    ∧ Controller.available_permits ctrl' = Controller.available_permits ctrl
    ∧ looping h' ∧ tasks h' = [] ∧ output_stop h' = ∅.
Proof.
  intros Hav. destruct (Controller.acquire ctrl) as [c|] eqn:Ea;
    [|apply Controller.acquire_waits in Ea; lia].
  destruct (Controller.acquire_some _ _ Ea) as (A1 & A2 & _).
  destruct (Controller.release_permits c) as [A3 _].
  destruct (start_hub_steps ctrl c pre post (bc_new BROADCAST_CAPACITY) ∅ ∅ ∅ Budget.new i)
    as [l' E]; [by rewrite map_to_list_empty | done |].
  eexists _, _. split; [exact E|]. split; [lia|]. split; [by split | done].
Qed.

Lemma start_hubs ctrl pre ids :
  0 < Controller.available_permits ctrl →
  ∃ steps ctrl' hs,
    world_run (mkWorld ctrl (pre ++ map (hub_new s) ids)) steps = Some (mkWorld ctrl' (pre ++ hs))
    ∧ Forall checked steps ∧ length hs = length ids
    ∧ Controller.available_permits ctrl' = Controller.available_permits ctrl
    ∧ Forall (λ h, looping h ∧ tasks h = [] ∧ output_stop h = ∅) hs.
Proof.
  revert ctrl pre. induction ids as [|i ids IH]; intros ctrl pre Hav.
  - by exists [], ctrl, [].
  - destruct (start_hub ctrl pre i (map (hub_new s) ids) Hav) as (c1 & h1 & E1 & Av1 & L1).
    destruct (IH c1 (pre ++ [h1])) as (steps & c2 & hs & E2 & Hch & Hl & Av2 & L2); [lia|].
    rewrite <-!app_assoc in E2. cbn in E2.
    exists (map (pair (length pre)) start_actions ++ steps), c2, (h1 :: hs). split_and!.
    + rewrite world_run_app. cbn [map]. rewrite E1. exact E2.
    + apply Forall_app. split; [|done]. apply Forall_map. by repeat constructor.
    + cbn. by rewrite Hl.
    + lia.
    + by constructor.
Qed.

Definition attach_actions (k : nat) (id : Uuid) : list Action :=
  [TryAddOutput id o; TaskStep k Go; TaskStep k Go; TaskStep k Go].

Lemma attach_output ctrl pre h post id :
  0 < Controller.available_permits ctrl → looping h → known id h = false →
  ∃ h' rx,
    world_run (mkWorld ctrl (pre ++ h :: post))
      (map (pair (length pre)) (attach_actions (length (tasks h)) id))
    = Some (mkWorld ctrl (pre ++ h' :: post))
    ∧ looping h' ∧ output_stop h' = {[ id ]} ∪ output_stop h
    ∧ tasks h' = tasks h ++ [mkTask id (Looping o' rx 0)].
Proof.
  intros Hav [Hs Hr Hp Ho] Hk.
  destruct (bc_subscribe (chan h)) as [c rx] eqn:Ec.
  assert (∀ t h0, tasks h0 = tasks h ++ [t] → tasks h0 !! length (tasks h) = Some t) as Hlast
    by (intros t h0 ->; by rewrite list_lookup_middle).
  assert (∀ t u, <[length (tasks h) := u]> (tasks h ++ [t]) = tasks h ++ [u]) as Hins
    by (intros t u; rewrite insert_app_r_alt, Nat.sub_diag by lia; done).
  set (os1 := <[id := o]> (outputs h)). set (st1 := {[ id ]} ∪ output_stop h).
  set (hub os ph c0 := set_tasks (tasks h ++ [mkTask id ph]) (set_chan c0 (set_inner os st1 h))).
  assert (∀ os ph ph' c0, set_tasks (<[length (tasks h) := mkTask id ph']> (tasks (hub os ph c0)))
      (hub os ph c0) = hub os ph' c0) as Hset
    by (intros os ph ph' c0; unfold hub; cbn [tasks set_tasks]; by rewrite Hins).
  exists (hub (delete id os1) (Looping o' rx 0) c), rx. split.
  - unfold attach_actions.
    rewrite (world_run_at ctrl pre _ post _ _ ctrl (hub os1 Spawned (chan h))).
    2:{ cbn [hub_step]. unfold idle. rewrite Hp, Hk. cbn [negb andb]. unfold try_add_output.
        rewrite Ho, map_size_empty. cbn [Z.of_nat Z.leb Z.compare MAX_OUTPUTS].
        rewrite (proj2 (Z.eqb_neq _ _)) by lia. unfold add_output. cbn [running register set_inner].
        by rewrite Hr. }
    rewrite (world_run_at ctrl pre _ post _ _ ctrl (hub (delete id os1) (Taken o) (chan h))).
    2:{ cbn [hub_step]. rewrite (Hlast (mkTask id Spawned)) by done.
        cbn [mbind option_bind task_step task_phase task_id].
        change (outputs (hub os1 Spawned (chan h))) with os1. unfold os1 at 1. rewrite lookup_insert_eq.
        cbn [mbind option_bind]. do 2 f_equal. unfold hub. cbn [tasks set_tasks set_inner].
        by rewrite Hins. }
    rewrite (world_run_at ctrl pre _ post _ _ ctrl (hub (delete id os1) (Started o') (chan h))).
    2:{ cbn [hub_step]. rewrite (Hlast (mkTask id (Taken o))) by done.
        cbn [mbind option_bind task_step task_phase task_id]. rewrite output_starts.
        cbn [mbind option_bind]. by rewrite Hset. }
    rewrite (world_run_at ctrl pre _ post _ _ ctrl (hub (delete id os1) (Looping o' rx 0) c)).
    2:{ cbn [hub_step]. rewrite (Hlast (mkTask id (Started o'))) by done.
        cbn [mbind option_bind task_step task_phase task_id].
        change (chan (hub (delete id os1) (Started o') (chan h))) with (chan h). rewrite Ec.
        cbn [mbind option_bind]. do 2 f_equal. unfold hub. cbn [tasks set_tasks set_chan].
        by rewrite Hins. }
    reflexivity.
  - split_and!; [split; try done | done | done].
    unfold os1. rewrite Ho. apply map_eq. intros q. cbn.
    rewrite lookup_empty. destruct (decide (q = id)) as [->|];
      [apply lookup_delete_eq | by rewrite lookup_delete_ne, lookup_insert_ne by congruence].
Qed.

Lemma attach_outputs ctrl pre h post outs :
  0 < Controller.available_permits ctrl → looping h → NoDup outs →
  (∀ id, id ∈ outs → known id h = false) →
  ∃ steps h',
    world_run (mkWorld ctrl (pre ++ h :: post)) steps = Some (mkWorld ctrl (pre ++ h' :: post))
    ∧ Forall checked steps ∧ looping h'
    ∧ ∃ new, tasks h' = tasks h ++ new ∧ map task_id new = outs
      ∧ Forall (λ t, ∃ rx, task_phase t = Looping o' rx 0) new.
Proof.
  intros Hav. revert h. induction outs as [|id outs IH]; intros h Hl Hnd Hk.
  - exists [], h. split_and!; try done. exists []. by rewrite app_nil_r.
  - apply NoDup_cons in Hnd as [Hid Hnd].
    destruct (attach_output ctrl pre h post id Hav Hl) as (h1 & rx & E1 & L1 & S1 & T1);
      [apply Hk; left|].
    destruct (IH h1 L1 Hnd) as (steps & h2 & E2 & Hch & L2 & new & T2 & Hids & Hnew).
    { intros q Hq. assert (q ≠ id) as Hne by (intros ->; done).
      specialize (Hk q ltac:(by right)). unfold known in *.
      destruct Hl as [_ _ Hp Ho], L1 as [_ _ Hp1 Ho1]. rewrite Ho1, S1, Hp1, T1.
      rewrite Ho, Hp in Hk. rewrite !orb_false_iff in *. destruct Hk as [[[K1 K2] K3] K4].
      split_and!; [done | | | done].
      - apply bool_decide_eq_false in K2. apply bool_decide_eq_false. set_solver.
      - rewrite existsb_app, K3. cbn. rewrite orb_false_r. by apply Z.eqb_neq, not_eq_sym. }
    exists (map (pair (length pre)) (attach_actions (length (tasks h)) id) ++ steps), h2.
    split_and!; [| | done |].
    + rewrite world_run_app, E1. cbn. exact E2.
    + apply Forall_app. split; [|done]. apply Forall_map. by repeat constructor.
    + exists (mkTask id (Looping o' rx 0) :: new). rewrite T2, T1, <-app_assoc. cbn.
      split_and!; [done | by rewrite Hids |]. constructor; [by exists rx | done].
Qed.
End limits.
End hub.
Arguments Hub : clear implicits.
Arguments World : clear implicits.
Arguments SourcePhase : clear implicits.
Arguments TaskPhase : clear implicits.
Arguments OutputTask : clear implicits.
Arguments Action : clear implicits.

(** ** Properties *)

(** The stream slots, for any number of hubs sharing a controller and any
    interleaving of their tasks: the free slots and the streams that hold a
    permit always add up to [max_streams].  But a stream holds its permit only
    between two steps of its start, and an output leaves the registry when its
    task takes it, so neither limit bounds what runs: there are executions in
    which any number of streams broadcast with all slots free, and any number
    of outputs, each admitted by [try_add_output], is served by one hub. *)
Theorem hub_limits {S O C Sem} `{Source S} `{Output O} `{BroadcastLaws C} `{SemaphoreLaws Sem}
    max (ctrl : Controller.ResourceController Sem) :
  0 < max ≤ MAX_PERMITS → Controller.new max = Ok ctrl →
  (∀ (w0 w : World S O C Sem), controller w0 = ctrl → initial w0 → reachable w0 w →
     Controller.available_permits (controller w) + held (hubs w) = max
     ∧ 0 ≤ Controller.available_permits (controller w))
  ∧ (∀ (s s' : S) (o o' : O) i ids outs,
      source_start s = (Ok tt, s') → output_start o = (Ok tt, o') → NoDup outs →
      ∃ steps (w : World S O C Sem) h,
        world_run (mkWorld ctrl (map (hub_new s) (i :: ids))) steps = Some w
        ∧ Forall checked steps
        ∧ length (hubs w) = length (i :: ids) ∧ Forall (λ h, source h = SrcLoop s') (hubs w)
        ∧ Controller.available_permits (controller w) = max
        ∧ hubs w !! 0%nat = Some h ∧ map task_id (tasks h) = outs
        ∧ Forall (λ t, ∃ rx, task_phase t = Looping o' rx 0) (tasks h)).
Proof.
  intros Hmax Hnew. assert (Controller.available_permits ctrl = max) as Hav.
  { unfold Controller.new in Hnew. rewrite (proj2 (Z.ltb_lt 0 max)) in Hnew by lia.
    injection Hnew as <-. apply sem_new_available. lia. }
  split.
  - intros w0 w E Hi Hr. subst ctrl. destruct (reachable_slots w0 w Hr) as (H1' & H2' & _); [lia|].
    split; [|done]. rewrite H1', Hav. assert (held (hubs w0) = 0) as ->; [|lia].
    unfold initial in Hi. clear -Hi. induction Hi as [|h hs (s & i & ->) Hhs IH]; [done|].
    rewrite held_cons, IH. done.
  - intros s s' o o' i ids outs Hs Ho Hnd.
    destruct (start_hubs s s' Hs ctrl [] (i :: ids)) as (steps & c1 & hs & E1 & Ch1 & L1 & Av1 & F1);
      [lia|]. destruct hs as [|h hs]; [done|]. apply Forall_cons in F1 as [(Hl & Ht & Hst) F1].
    destruct (attach_outputs s s' Hs o o' Ho c1 [] h hs outs) as (steps2 & h2 & E2 & Ch2 & L2 & new & T2 & I2 & F2);
      [lia | done | done | |].
    { intros id _. unfold known. destruct Hl as [_ _ Hp Hout]. by rewrite Hout, Hp, Hst, Ht. }
    exists (steps ++ steps2), (mkWorld c1 (h2 :: hs)), h2. rewrite Ht in T2. cbn in T2.
    split_and!; [| | done | | cbn [controller]; lia | done | by rewrite T2 | by rewrite T2].
    + cbn [app] in E1, E2. rewrite world_run_app, E1. exact E2.
    + by apply Forall_app.
    + constructor; [apply L2|]. eapply Forall_impl; [exact F1|]. intros x (Hx & _). apply Hx.
Qed.

(** C23 What an output receives, in every reachable world: an output that is
    being served was started and has then been given, in order, frames
    broadcast since it subscribed; it has all of them up to its position
    except for the number it has logged as lost, and none is missing when it
    never lagged.  No other task and no registry entry owns the same output. *)
Theorem hub_delivery {S O C Sem} `{Source S} `{Output O} `{BroadcastLaws C} `{Semaphore Sem}
    (w0 w : World S O C Sem) h k t o rx lagged :
  initial w0 → reachable w0 w → h ∈ hubs w →
  tasks h !! k = Some t → task_phase t = Looping o rx lagged →
  (∃ (start position : nat) fs,
     (start ≤ position ≤ length (bc_log (chan h)))%nat ∧ bc_cursor (chan h) rx = Some position
     ∧ fed fs o
     ∧ fs `sublist_of` window start position (bc_log (chan h))
     ∧ Z.of_nat (length fs) + lagged = Z.of_nat (position - start)
     ∧ (lagged = 0 → fs = window start position (bc_log (chan h))))
  ∧ outputs h !! task_id t = None
  ∧ (∀ j u, j ≠ k → tasks h !! j = Some u → held_output u = true → task_id u ≠ task_id t).
Proof.
  intros Hi Hr Hh Hk Hp.
  pose proof (reachable_hubs hub_ok w0 w Hr hub_new_ok
    (λ a c x c' x' Hx E, hub_step_ok a c x c' x' Hx E) Hi) as Hall.
  rewrite Forall_forall in Hall. pose proof (Hall h Hh) as Hok.
  assert (held_output t = true) as Ht by (unfold held_output; by rewrite Hp).
  split_and!; [|by eapply ok_registry|].
  - pose proof (ok_tasks _ Hok k t Hk) as D. unfold task_ok in D. rewrite Hp in D.
    destruct D as (s & n & fs & D1 & D2 & D3 & D4 & D5). exists s, n, fs. split_and!; try done.
    + lia.
    + lia.
    + intros ->. apply sublist_full; [done|]. unfold window.
      rewrite length_take, length_drop. lia.
  - intros j u Hj Hu Hhu. by eapply (ok_owner _ Hok j k).
Qed.

(** The lifecycle entry of a stream follows its source task in every
    reachable world: absent before it runs, [Starting] while it waits for a
    slot, [Running] from then on; a task that returned leaves [Stopped] if it
    was told to stop, [Error] if its source failed, and no entry if the source
    did not start. *)
Theorem hub_lifecycle {S O C Sem} `{Source S} `{Output O} `{Broadcast C} `{Semaphore Sem}
    (w0 w : World S O C Sem) :
  initial w0 → reachable w0 w → Forall life_ok (hubs w).
Proof.
  intros Hi Hr. apply (reachable_hubs life_ok w0 w); [done | | | done].
  - intros s i. unfold life_ok. cbn. apply lookup_empty.
  - intros a c h c' h' Hl E. by eapply hub_step_life.
Qed.

(** ** A concrete hub *)

(** An output that records its frames. *)
#[local] Instance recorder : Output (list MediaFrame) := {
  output_start := st_ret tt;
  send_frame f := st_modify (.++ [f]);
  output_stop := st_ret tt;
}.

Definition sample_frame : MediaFrame := VideoFrame true [0x65; 1] 40.
Definition sample_source : MockSource := mock_new [sample_frame].

Definition sample_start : World MockSource (list MediaFrame) LogChannel Z :=
  mkWorld (Controller.mkController 1 1) [hub_new sample_source 9].

Definition sample_steps : list (nat * Action (list MediaFrame)) :=
  map (pair 0%nat)
    ([AddOutput 7 []; Run; Run; Run; Run]
     ++ replicate 4 (SourceStep SrcGo) ++ replicate 3 (TaskStep 0 Go)
     ++ [SourceStep SrcGo; TaskStep 0 Go]).

Definition sample_world : World MockSource (list MediaFrame) LogChannel Z :=
  default sample_start (world_run sample_start sample_steps).

Lemma sample_initial : initial sample_start.
Proof. constructor; [by exists sample_source, 9 | constructor]. Qed.

Lemma sample_reachable : reachable sample_start sample_world.
Proof.
  apply (reachable_run sample_start sample_start sample_steps); [apply reach_start|].
  vm_compute. reflexivity.
Qed.

Lemma hub_limits_witness :
  ∃ steps (w : World MockSource (list MediaFrame) LogChannel Z) h,
    world_run (mkWorld (Controller.mkController 1 1) (map (hub_new sample_source) [1; 2; 3])) steps
    = Some w
    ∧ Controller.available_permits (controller w) = 1 ∧ hubs w !! 0%nat = Some h
    ∧ map task_id (tasks h) = seqZ 1 20.
Proof.
  destruct (hub_limits (S := MockSource) (O := list MediaFrame) (C := LogChannel) (Sem := Z)
    1 (Controller.mkController 1 1)) as [_ Hx].
  - vm_compute. split; [reflexivity | discriminate].
  - reflexivity.
  - destruct (Hx sample_source (mkMockSource [sample_frame] true 0) [] [] 1 [2; 3] (seqZ 1 20))
      as (steps & w & h & X1 & _ & _ & _ & X2 & X3 & X4 & _);
      [reflexivity | reflexivity | apply NoDup_seqZ |].
    exists steps, w, h. split; [exact X1|]. split; [exact X2|]. split; [exact X3 | exact X4].
Defined.

Lemma hub_delivery_witness :
  ∃ h, hubs sample_world !! 0%nat = Some h
  ∧ tasks h = [mkTask 7 (Looping [sample_frame] 0 0)]
  ∧ outputs h !! 7 = None ∧ ∃ fs, fed fs [sample_frame].
Proof.
  eexists. split; [vm_compute; reflexivity|]. split; [vm_compute; reflexivity|].
  destruct (hub_delivery sample_start sample_world
    (default (hub_new sample_source 9) (hubs sample_world !! 0%nat)) 0
    (mkTask 7 (Looping [sample_frame] 0 0)) [sample_frame] 0 0) as ((s & n & fs & _ & _ & F & _) & Hn & _).
  - exact sample_initial.
  - exact sample_reachable.
  - vm_compute. left.
  - vm_compute. reflexivity.
  - reflexivity.
  - split; [exact Hn|]. exists fs. exact F.
Defined.

Lemma hub_lifecycle_witness :
  ∃ h, hubs sample_world !! 0%nat = Some h ∧ lifecycle h !! 9 = Some Lifecycle.Running.
Proof.
  eexists. split; [vm_compute; reflexivity|].
  pose proof (hub_lifecycle sample_start sample_world sample_initial sample_reachable) as Hl.
  assert (hubs sample_world !! 0%nat
    = Some (default (hub_new sample_source 9) (hubs sample_world !! 0%nat))) as Hw
    by (vm_compute; reflexivity).
  exact (Forall_lookup_1 life_ok _ _ _ Hl Hw).
Defined.
