(* ===== verification/CameraConfig.v ===== *)
(** * Camera configurations ([crates/web/src/stream_manager.rs],
    [routes/cameras.rs])

    How the JSON configuration of a camera becomes a capture source, what the
    API accepts, and the tasks fed by the frame broadcasts: the harvesters of
    parameter sets and the forwarder of the substream mount. *)
From Stdlib Require Import ZArith Lia List Bool String Floats.SpecFloat.
From stdpp Require Import base option list numbers gmap.
From S2P Require Import Prelude Text Media F32 Value Pixels Watermark Rtp Outputs Capture Resources Hub.

(** ** Parsing *)
Definition parse_quality_preset (s : bytes) : option QualityPreset :=
  let s := trim s in
  if bytes_eqb s (lit "ultra-fast") then Some UltraFast
  else if bytes_eqb s (lit "medium") then Some Medium
  else if bytes_eqb s (lit "high") then Some High
  else if bytes_eqb s (lit "hardware-max") then Some HardwareMax
  else None.

(** [as_f64() as f32] *)
Definition parse_substream_config (config : Value) : Res (option SubstreamSettings) :=
  match get (lit "substream") config with
  | None => Ok None
  | Some node =>
      if negb (get_or as_bool false (lit "enabled") node) then Ok None
      else
        let width := wrap32 (get_or as_u64 640 (lit "width") node) in
        let height := wrap32 (get_or as_u64 360 (lit "height") node) in
        if (width =? 0) || (height =? 0) || negb (width mod 2 =? 0) || negb (height mod 2 =? 0) then
          Err "camera config substream dimensions must be positive and even, got "
        else if (7680 <? width) || (4320 <? height) then
          Err "camera config substream dimensions exceed 7680x4320"
        else
          let fps := f32_of_f64 (get_or as_f64 (f64_of_Z 0) (lit "fps") node) in
          let bitrate := wrap32 (get_or as_u64 400000 (lit "bitrate") node) in
          if (bitrate =? 0) || (50000000 <? bitrate) then
            Err "camera config substream bitrate must be 1..50000000, got "
          else Ok (Some (mkSubstream width height fps bitrate))
  end.

Definition validate_substream_config (config : Value) : Res unit :=
  _ ← parse_substream_config config; Ok tt.

Definition is_rotation (r : Z) : bool := (r =? 0) || (r =? 90) || (r =? 180) || (r =? 270).

(** The checks of [PUT /api/cameras/{id}] on the configuration in its body:
    the message of the refusal. *)
Definition update_check (config : option Value) : option string :=
  match config with
  | None => None
  | Some cfg =>
      match get (lit "rotation") cfg with
      | Some r =>
          if match as_u64 r with Some v => is_rotation v | None => false end then
            match validate_substream_config cfg with Ok _ => None | _ => Some "config.substream: "%string end
          else Some "config.rotation must be 0, 90, 180 or 270 (degrees clockwise)"%string
      | None => match validate_substream_config cfg with Ok _ => None | _ => Some "config.substream: "%string end
      end
  end.

(** ** The source of a ["usb"] camera *)

(** [v.get(key).and_then(as_x)] *)
Definition get_as {A} (as_ : Value → option A) (key : bytes) (v : Value) : option A :=
  match get key v with Some x => as_ x | None => None end.

Section usb.
Context {E Font : Type} `{OpenH264 E} `{FontLib Font} `{JpegLib}.

(** The overlay of the settings row: [row] is what the database gives,
    [None] for an error. *)
Definition usb_watermark (embedded : bytes) (read : bytes → option bytes) (row : option (option Value))
    : option (Watermark Font) :=
  match row with
  | Some (Some cfg) =>
      match settings_from_value cfg with
      | Some wm =>
          if enabled wm then match watermark_new embedded read wm with Ok w => Some w | _ => None end else None
      | None => None
      end
  | _ => None
  end.

Record Host := mkHost {
  recommended : QualityPreset; force_idr_flag : bool; gb_flips_flags : bool;
  embedded_font : bytes; read_file : bytes → option bytes;
}.

(** The ["usb"] arm of [create_stream]: the device and its source. *)
Definition usb_source (host : Host) (row : option (option Value)) (cameras : Z → list (Res (list Arrival)))
    (clock : list Z) (config : Value) : Res (@VideoCaptureSource E Font) :=
  match get_as as_u64 (lit "device_index") config with
  | None => Err "USB camera config must include 'device_index'"
  | Some device =>
      let preset := default (recommended host) (name ← get_as as_str (lit "quality_preset") config; parse_quality_preset name) in
      let fps := match get_as as_f64 (lit "target_fps") config with
                 | Some x => if SFltb (f64_of_Z 0) x then f32_of_f64 x else f32_zero
                 | None => f32_zero
                 end in
      let hflip := get_or as_bool false (lit "hflip") config in
      let vflip := get_or as_bool false (lit "vflip") config in
      let rotation := get_as as_u64 (lit "rotation") config in
      if match rotation with Some r => negb (is_rotation r) | None => false end then
        Err "camera config rotation must be 0, 90, 180 or 270, got "
      else
        let conf := with_rotation (wrap32 (default 0 rotation))
          (mkConf fps preset hflip vflip 0 (gb_flips_flags host) (force_idr_flag host)) in
        let wm := usb_watermark (embedded_font host) (read_file host) row in
        sub ← parse_substream_config config;
        Ok (vcs_new (cameras device) clock conf wm sub)
  end.
End usb.

(** ** The tasks on the broadcasts *)

(** The cache of a harvester: what it holds after the results of [recv]; the
    loop ends at the first that is not a frame. *)
Definition Cache : Type := option (bytes * bytes).
Definition harvest_frame (c : Cache) (f : MediaFrame) : Cache :=
  match f with
  | Media.VideoFrame _ [] _ | AudioFrame _ _ => c
  | Media.VideoFrame _ (b :: data) _ =>
      let entry := default ([], []) c in
      let nal_type := Z.land b 0x1F in
      if nal_type =? 7 then Some (b :: data, entry.2)
      else if nal_type =? 8 then Some (entry.1, b :: data)
      else c
  end.

Fixpoint harvest (c : Cache) (rs : list Received) : Cache :=
  match rs with
  | Frame f :: rs => harvest (harvest_frame c f) rs
  | Lagged _ :: _ | [] => c
  end.

(** The one-shot update of the SDP of the substream mount. *)
Fixpoint sprop_once (sps pps : option bytes) (rs : list Received) : option (bytes * bytes) :=
  match rs with
  | Frame (Media.VideoFrame _ (b :: data) _) :: rs =>
      let nal_type := Z.land b 0x1F in
      let sps := if nal_type =? 7 then Some (b :: data) else sps in
      let pps := if nal_type =? 8 then Some (b :: data) else pps in
      match sps, pps with
      | Some s, Some p => Some (s, p)
      | _, _ => sprop_once sps pps rs
      end
  | Frame _ :: rs => sprop_once sps pps rs
  | Lagged _ :: _ | [] => None
  end.

(** The forwarder of the substream mount: what it sends on the channel of the
    mount while someone listens. *)
Fixpoint forward_sub (rs : list Received) : list bytes :=
  match rs with
  | Frame (Media.VideoFrame _ data _) :: rs => data :: forward_sub rs
  | _ :: rs => forward_sub rs
  | [] => []
  end.

(** ** What is accepted *)

(** The settings of a substream that is accepted. *)
Record substream_in_range (st : SubstreamSettings) : Prop := {
  sr_width : 2 ≤ sub_width st ≤ 7680;
  sr_width_even : sub_width st mod 2 = 0;
  sr_height : 2 ≤ sub_height st ≤ 4320;
  sr_height_even : sub_height st mod 2 = 0;
  sr_bitrate : 1 ≤ sub_bitrate st ≤ 50000000;
}.

Lemma wrap32_range x : 0 ≤ wrap32 x < 2 ^ 32.
Proof. apply Z.mod_pos_bound. lia. Qed.

Lemma parse_substream_range config st :
  parse_substream_config config = Ok (Some st) → substream_in_range st.
Proof.
  unfold parse_substream_config. destruct (get _ config) as [node|]; [|done].
  destruct (negb _); [done|].
  pose proof (wrap32_range (get_or as_u64 640 (lit "width") node)).
  pose proof (wrap32_range (get_or as_u64 360 (lit "height") node)).
  pose proof (wrap32_range (get_or as_u64 400000 (lit "bitrate") node)).
  set (w := wrap32 (get_or as_u64 640 _ node)) in *. set (h := wrap32 (get_or as_u64 360 _ node)) in *.
  set (b := wrap32 (get_or as_u64 400000 _ node)) in *. cbv zeta.
  destruct ((w =? 0) || _ || _ || _) eqn:E1; [done|]. destruct ((7680 <? w) || _) eqn:E2; [done|].
  destruct ((b =? 0) || _) eqn:E3; [done|]. intros [= <-].
  rewrite !orb_false_iff, !negb_false_iff, ?Z.eqb_eq, ?Z.eqb_neq in E1. rewrite !orb_false_iff, !Z.ltb_ge in E2.
  rewrite !orb_false_iff, Z.eqb_neq, Z.ltb_ge in E3. split; cbn; dm_lia.
Qed.

(** The accepted settings are those of the JSON when it fits 32 bits, and its
    remainder otherwise. *)
Lemma parse_substream_values config node st :
  get (lit "substream") config = Some node → parse_substream_config config = Ok (Some st) →
  sub_width st = wrap32 (get_or as_u64 640 (lit "width") node)
  ∧ sub_height st = wrap32 (get_or as_u64 360 (lit "height") node)
  ∧ sub_bitrate st = wrap32 (get_or as_u64 400000 (lit "bitrate") node)
  ∧ sub_fps st = f32_of_f64 (get_or as_f64 (f64_of_Z 0) (lit "fps") node).
Proof.
  unfold parse_substream_config. intros ->. destruct (negb _); [done|]. cbv zeta.
  destruct ((_ =? 0) || _ || _ || _); [done|]. destruct ((7680 <? _) || _); [done|].
  destruct ((_ =? 0) || _); [done|]. by intros [= <-].
Qed.

Lemma parse_substream_safe config : safe (parse_substream_config config).
Proof.
  unfold parse_substream_config. destruct (get _ config) as [node|]; [|done]. destruct (negb _); [done|]. cbv zeta.
  destruct ((_ =? 0) || _ || _ || _); [done|]. destruct ((7680 <? _) || _); [done|]. by destruct ((_ =? 0) || _).
Qed.

Lemma is_rotation_small r : is_rotation r = true → wrap32 r = r ∧ rotation_ok r.
Proof.
  unfold is_rotation. rewrite !orb_true_iff, !Z.eqb_eq. unfold rotation_ok.
  intros [[[-> | ->] | ->] | ->]; cbn; auto.
Qed.

Section accepted.
Context {E Font : Type} `{OpenH264 E} `{FontLaws Font} `{JpegLib}.

Lemma watermark_new_fresh embedded read cfg (w : Watermark Font) :
  watermark_new embedded read cfg = Ok w → cache_ok w.
Proof.
  unfold watermark_new. destruct (negb _); [done|].
  destruct (if bytes_eqb _ _ then _ else _); [|done]. intros [= <-] k. done.
Qed.

Lemma usb_watermark_fresh embedded read row : caches_ok (usb_watermark (Font := Font) embedded read row).
Proof.
  intros w. unfold usb_watermark. destruct row as [[cfg|]|]; try done. destruct (settings_from_value cfg) as [wm|]; [|done].
  destruct (enabled wm); [|done]. destruct (watermark_new embedded read wm) eqn:Ew; try done.
  intros [= <-]. by eapply watermark_new_fresh.
Qed.

Definition rotation_accepted (r : option Z) : bool :=
  match r with Some r => is_rotation r | None => true end.

(** A source is made exactly when there is a device, the rotation is accepted
    and the substream parses. *)
Lemma usb_source_made host row cameras clock config (s : @VideoCaptureSource E Font) :
  usb_source host row cameras clock config = Ok s ↔
  ∃ device conf u, get_as as_u64 (lit "device_index") config = Some device
    ∧ rotation_accepted (get_as as_u64 (lit "rotation") config) = true
    ∧ parse_substream_config config = Ok u
    ∧ conf = with_rotation (wrap32 (default 0 (get_as as_u64 (lit "rotation") config)))
        (mkConf (match get_as as_f64 (lit "target_fps") config with
                 | Some x => if SFltb (f64_of_Z 0) x then f32_of_f64 x else f32_zero | None => f32_zero end)
          (default (recommended host) (name ← get_as as_str (lit "quality_preset") config; parse_quality_preset name))
          (get_or as_bool false (lit "hflip") config) (get_or as_bool false (lit "vflip") config) 0
          (gb_flips_flags host) (force_idr_flag host))
    ∧ s = vcs_new (cameras device) clock conf (usb_watermark (embedded_font host) (read_file host) row) u.
Proof.
  unfold usb_source. destruct (get_as as_u64 (lit "device_index") config) as [device|].
  2:{ split; [done|]. by intros (? & ? & ? & ? & _). }
  assert (match get_as as_u64 (lit "rotation") config with Some r => negb (is_rotation r) | None => false end
    = negb (rotation_accepted (get_as as_u64 (lit "rotation") config))) as ->
    by (by destruct (get_as as_u64 (lit "rotation") config)).
  destruct (rotation_accepted _); cbn [negb].
  2:{ split; [done|]. by intros (? & ? & ? & _ & ? & _). }
  destruct (parse_substream_config config) as [u| | |]; cbn [mbind Res_bind].
  - split; [intros [= <-]; by eexists _, _, _|]. intros (? & ? & ? & [= <-] & _ & [= <-] & -> & ->). done.
  - split; [done|]. by intros (? & ? & ? & _ & _ & ? & _).
  - split; [done|]. by intros (? & ? & ? & _ & _ & ? & _).
  - split; [done|]. by intros (? & ? & ? & _ & _ & ? & _).
Qed.

Lemma rotation_accepted_small r c : rotation_accepted r = true →
  rotation (with_rotation (wrap32 (default 0 r)) c) = default 0 r.
Proof.
  destruct r as [r|]; [|done]. cbn [rotation_accepted default]. intros Hr.
  destruct (is_rotation_small r Hr) as [Hw Hok]. cbn. unfold default, id. rewrite Hw.
  destruct Hok as [-> | [-> | [-> | ->]]]; done.
Qed.

Lemma update_check_accepted config : update_check (Some config) = None →
  rotation_accepted (get_as as_u64 (lit "rotation") config) = true ∧ ∃ u, parse_substream_config config = Ok u.
Proof.
  unfold update_check, validate_substream_config, get_as.
  destruct (get (lit "rotation") config) as [r|].
  - destruct (as_u64 r) as [v|]; [|done]. cbn. destruct (is_rotation v); [|done].
    destruct (parse_substream_config config); cbn; try done. intros _. by eauto.
  - destruct (parse_substream_config config); cbn; try done. intros _. by eauto.
Qed.

(** C21 From the configuration of a camera to its source, for every JSON
    value.  Whatever the configuration, a source that is made is one that
    frames of even dimensions never unwind ([Capture.capture_delivery]): its
    rotation is a quarter turn, its overlay has a consistent cache and its
    substream has even dimensions and a bit rate in range, which are those of
    the JSON modulo 2^32, and the frame rate of the JSON.  A configuration that
    the update of a camera accepts and that names a device makes a source.  A
    rotation that is a natural number of 64 bits and not 0, 90, 180 or 270 is
    refused by both; one that is anything else, a negative number, a fraction
    or a string, is refused by the update alone, and [create_stream] takes it
    for no rotation. *)
Theorem usb_source_ready host row cameras clock config :
  (∀ s : @VideoCaptureSource E Font, usb_source host row cameras clock config = Ok s →
     source_ok s ∧ Capture.running s = false ∧ (∃ device, get_as as_u64 (lit "device_index") config = Some device ∧ Capture.cameras s = cameras device)
     ∧ rotation (conf s) = default 0 (get_as as_u64 (lit "rotation") config)
     ∧ ∀ st, settings (sub s) = Some st → substream_in_range st
         ∧ ∃ node, get (lit "substream") config = Some node
             ∧ sub_width st = wrap32 (get_or as_u64 640 (lit "width") node)
             ∧ sub_height st = wrap32 (get_or as_u64 360 (lit "height") node)
             ∧ sub_bitrate st = wrap32 (get_or as_u64 400000 (lit "bitrate") node)
             ∧ sub_fps st = f32_of_f64 (get_or as_f64 (f64_of_Z 0) (lit "fps") node))
  ∧ (update_check (Some config) = None → is_Some (get_as as_u64 (lit "device_index") config) →
     ∃ s : @VideoCaptureSource E Font, usb_source host row cameras clock config = Ok s)
  ∧ (∀ r, get_as as_u64 (lit "rotation") config = Some r → ¬ rotation_ok r →
     update_check (Some config) ≠ None
     ∧ ∀ s : @VideoCaptureSource E Font, usb_source host row cameras clock config ≠ Ok s)
  ∧ (∀ v, get (lit "rotation") config = Some v → as_u64 v = None →
     update_check (Some config) ≠ None
     ∧ (is_Some (get_as as_u64 (lit "device_index") config) → (∃ u, parse_substream_config config = Ok u) →
        ∃ s : @VideoCaptureSource E Font, usb_source host row cameras clock config = Ok s ∧ rotation (conf s) = 0)).
Proof.
  split_and!.
  - intros s (device & conf & u & Hd & Hr & Hu & -> & ->)%usb_source_made.
    assert (∀ st, u = Some st → substream_in_range st) as Hin by (intros st ->; by eapply parse_substream_range).
    split; [|split; [done|]; split; [by exists device|]; split].
    + split; [apply with_rotation_ok | apply usb_watermark_fresh|]. intros st Hst. destruct (Hin st Hst). lia.
    + by apply rotation_accepted_small.
    + intros st Hst. cbn in Hst. subst. split; [by apply Hin|].
      destruct (get (lit "substream") config) as [node|] eqn:En.
      * exists node. split; [done|]. by apply (parse_substream_values config node st En Hu).
      * unfold parse_substream_config in Hu. by rewrite En in Hu.
  - intros (Hr & u & Hu)%update_check_accepted [device Hd]. eexists. apply usb_source_made. by eexists _, _, _.
  - intros r Hr Hno. assert (rotation_accepted (Some r) = false) as Hf.
    { apply not_true_is_false. intros Ha. apply Hno. by apply is_rotation_small. }
    split.
    + intros [Ha _]%update_check_accepted. rewrite Hr in Ha. congruence.
    + intros s (device & conf & u & _ & Ha & _)%usb_source_made. rewrite Hr in Ha. congruence.
  - intros v Hv Hn. assert (get_as as_u64 (lit "rotation") config = None) as Hr by (unfold get_as; by rewrite Hv). split.
    + unfold update_check. by rewrite Hv, Hn.
    + intros [device Hd] [u Hu]. eexists. split; [apply usb_source_made; eexists _, _, _; by rewrite Hr|]. done.
Qed.
End accepted.

(** A number that is even and in range only modulo 2^32 is accepted. *)
Lemma truncated_width_accepted :
  let config := VObject [(lit "substream", VObject [(lit "enabled", VBool true); (lit "width", VNumber (PosInt (2 ^ 32 + 640)))])] in
  update_check (Some config) = None ∧ ∃ st, parse_substream_config config = Ok (Some st) ∧ sub_width st = 640.
Proof. split; [reflexivity|]. eexists. split; reflexivity. Qed.

(** ** The harvesters *)

(** The data of the non-empty video frames of a type. *)
Definition typed (t : Z) (f : MediaFrame) : option bytes :=
  match f with
  | Media.VideoFrame _ (b :: data) _ => if Z.land b 0x1F =? t then Some (b :: data) else None
  | _ => None
  end.

Definition latest (t : Z) (fs : list MediaFrame) : option bytes := last (omap (typed t) fs).

Definition cache_of (sps pps : option bytes) : Cache :=
  match sps, pps with
  | None, None => None
  | _, _ => Some (default [] sps, default [] pps)
  end.

Lemma latest_snoc t fs f : latest t (fs ++ [f]) = match typed t f with Some d => Some d | None => latest t fs end.
Proof.
  unfold latest. rewrite omap_app. cbn. destruct (typed t f); cbn; [by rewrite last_snoc | by rewrite app_nil_r].
Qed.

Lemma harvest_frame_latest fs f :
  harvest_frame (cache_of (latest 7 fs) (latest 8 fs)) f = cache_of (latest 7 (fs ++ [f])) (latest 8 (fs ++ [f])).
Proof.
  rewrite !latest_snoc. unfold harvest_frame, typed. destruct f as [k [|b data] ts|]; try done.
  set (t := Z.land b 0x1F). destruct (Z.eqb_spec t 7) as [H7|H7], (Z.eqb_spec t 8) as [H8|H8]; try lia;
    destruct (latest 7 fs), (latest 8 fs); reflexivity.
Qed.

(** The cache holds the last parameter set of each kind received before the
    first loss, and an empty one for a kind that was not seen. *)
Lemma harvest_latest fs rs : match rs with Frame _ :: _ => False | _ => True end →
  harvest None (List.map Frame fs ++ rs) = cache_of (latest 7 fs) (latest 8 fs).
Proof.
  intros Hrs. change None with (cache_of (latest 7 []) (latest 8 [])) at 1. rewrite <-(app_nil_l fs) at 2 3.
  generalize (@nil MediaFrame) as pre. induction fs as [|f fs IH]; intros pre; cbn [List.map app harvest].
  - rewrite app_nil_r. by destruct rs as [|[] rs].
  - rewrite harvest_frame_latest, IH, <-app_assoc. done.
Qed.

(** ** The substream mount

    The server writes what it finds on the channel of a mount as the payload
    of interleaved frames ([RtspServer]); the main mount is fed with RTP
    packets, this one with bare units, which no RTP parser accepts: the
    forbidden bit of a unit is zero, the version of a packet two. *)
Lemma unit_not_rtp d : (∀ b, head d = Some b → 0 ≤ b < 128) → ∃ e, Rtp.parse d = Err e.
Proof.
  intros Hb. unfold Rtp.parse. destruct (Z.ltb_spec (zlen d) RTP_HEADER_SIZE) as [|Hl]; [by eexists|].
  destruct d as [|b0 [|b1 d]]; [done | done|]. cbn [at_]. specialize (Hb b0 eq_refl).
  change (at_ (b0 :: b1 :: d) 0) with (Ok b0). change (at_ (b0 :: b1 :: d) 1) with (Ok b1). cbn [mbind Res_bind].
  assert ((Z.land (Z.shiftr b0 6) 3 =? RTP_VERSION) = false) as ->; [|by eexists].
  apply Z.eqb_neq. change 3 with (Z.ones 2). rewrite Z.land_ones, Z.shiftr_div_pow2 by lia. change (2 ^ 6) with 64. change (2 ^ 2) with 4. unfold RTP_VERSION. dm_lia.
Qed.

Lemma sub_mount_not_rtp rs :
  Forall (λ d, ∀ b, head d = Some b → 0 ≤ b < 128) (forward_sub rs) →
  Forall (λ d, ∃ e, Rtp.parse d = Err e) (forward_sub rs).
Proof. intros Hd. eapply Forall_impl; [exact Hd|]. apply unit_not_rtp. Qed.

(** ** A camera with a substream *)
#[local] Existing Instance flag_encoder.
#[local] Existing Instance no_font.
#[local] Existing Instance no_font_laws.
#[local] Existing Instance no_jpeg.

Definition sample_config : Value :=
  VObject [(lit "device_index", VNumber (PosInt 0)); (lit "rotation", VNumber (PosInt 270)); (lit "hflip", VBool true);
           (lit "substream", VObject [(lit "enabled", VBool true); (lit "height", VNumber (PosInt 180))])].
Definition sample_host : Host := mkHost Medium true true [] (λ _, None).

Lemma usb_source_ready_witness :
  ∃ s : @VideoCaptureSource bool unit,
    usb_source sample_host (Some None) (λ _, []) [] sample_config = Ok s ∧ source_ok s ∧ rotation (conf s) = 270
    ∧ ∀ r, get_as as_u64 (lit "rotation") sample_config = Some r → rotation_ok r.
Proof.
  destruct (usb_source_ready (E := bool) (Font := unit) sample_host (Some None) (λ _, []) [] sample_config) as (H1 & H2 & _ & _).
  destruct (H2 eq_refl (mk_is_Some _ _ eq_refl)) as [s Hs]. destruct (H1 s Hs) as (Hok & _ & _ & Hr & _).
  exists s. split; [exact Hs|]. split; [exact Hok|]. split; [exact Hr|]. intros r [= <-]. unfold rotation_ok. auto.
Defined.
