(* ===== verification/Manager.v ===== *)
(** * The stream manager ([crates/web/src/stream_manager.rs])

    The table of streams, the mounts of the RTSP server, the segment slots of
    the recordings and the calls that create and stop streams, each cut at
    every lock it takes and every point where it awaits; calls run in
    parallel, and one may be dropped at any point, as a request handler is
    when its client disconnects.  Pipelines are the hubs of [Hub]. *)
From Stdlib Require Import ZArith Lia List Bool String.
From stdpp Require Import base option list numbers gmap.
From S2P Require Import Prelude Text Media Value Capture CameraConfig RtspServer Resources Hub.

(** ** Data *)
Inductive StreamStatus := StRunning | StStopped | StError (msg : bytes).
Record StreamInfo := mkInfo {
  info_id : bytes; info_rtsp : option bytes; info_rtmp : option bytes; info_status : StreamStatus;
}.

(** [h_hub] stands for the join handle, the stop sender and the hub handle,
    which belong to one pipeline. *)
Record StreamHandle := mkHandle {
  h_hub : nat; h_rtsp : option bytes; h_rtmp : option bytes; h_sub : option SubstreamSettings;
  h_mounts : list bytes; h_status : StreamStatus;
}.

Definition DEFAULT_MAX_STREAMS : Z := 16.
Definition RTSP_PORT : Z := 8554.
Definition SDP_BODY : bytes :=
  lit "v=0" ++ CRLF ++ lit "o=- 0 0 IN IP4 0.0.0.0" ++ CRLF ++ lit "s=mibee-eye" ++ CRLF
  ++ lit "c=IN IP4 0.0.0.0" ++ CRLF ++ lit "t=0 0" ++ CRLF ++ lit "m=video 0 RTP/AVP 96" ++ CRLF
  ++ lit "a=rtpmap:96 H264/90000" ++ CRLF ++ lit "a=fmtp:96 packetization-mode=1" ++ CRLF
  ++ lit "a=control:track1" ++ CRLF.

Definition main_path (id : bytes) : bytes := lit "live/" ++ id.
Definition sub_path (id : bytes) : bytes := main_path id ++ lit "/sub".

(** The channels behind the two mounts of a pipeline. *)
Definition main_tx (k : nat) : nat := (2 * k)%nat.
Definition sub_tx (k : nat) : nat := (2 * k + 1)%nat.

(** ** What the settings rows ask for; [None] is a failed query *)
Definition Row : Type := option (option Value).

Definition push_target (row : Row) : option bytes :=
  match row with
  | Some (Some cfg) =>
      if get_or as_bool false (lit "enabled") cfg then
        let push_url := get_or as_str [] (lit "push_url") cfg in
        let name := get_or as_str (lit "stream") (lit "stream_name") cfg in
        if bytes_eqb push_url [] then None
        else if ends_with name push_url then Some push_url
        else Some (trim_end_matches (lit "/") push_url ++ lit "/" ++ name)
      else None
  | _ => None
  end.

Record Recording := mkRec { rec_path : bytes; rec_seconds : Z; rec_capacity : Z }.
Definition recording_asked (row : Row) : option Recording :=
  match row with
  | Some (Some cfg) =>
      if get_or as_bool false (lit "enabled") cfg then
        Some (mkRec (get_or as_str (lit "./recordings") (lit "path") cfg)
                (get_or as_u64 900 (lit "segment_duration_secs") cfg)
                (get_or as_u64 10240 (lit "max_capacity_mb") cfg))
      else None
  | _ => None
  end.

(** The frames of a ["test"] camera. *)
Definition test_frames (config : Value) : list MediaFrame :=
  let n := Z.max 1 (Z.min 16 (get_or as_u64 3 (lit "n_frames") config)) in
  List.map (λ i,
    let i := Z.of_nat i in
    let data := if i mod 2 =? 0
                then [0x67; 0x42; 0x00; 0x0a; 0xf8; 0x41; 0xa2; 0x00; 0x00; 0x01; 0x68; 0xeb; 0xec; 0xb2; 0x20]
                else [0x65; 0x88; 0x84; 0x00; 0x1f; 0xff; 0xd7] in
    Media.VideoFrame (i mod 2 =? 0) data (i * 33)) (List.seq 0 (Z.to_nat n)).

(** ** Calls *)
Record CreateArgs := mkArgs { a_id : bytes; a_type : bytes; a_config : Value; a_server : bool }.

(** A call that has a pipeline: what it has gathered for the handle. *)
Record Building := mkBuilding {
  b_args : CreateArgs; b_hub : nat; b_sub : option SubstreamSettings;
  b_rtsp : option bytes; b_rtmp : option bytes; b_mounts : list bytes;
}.

Inductive StopPhase :=
  | SRemove (id : bytes)
  | SSlots (id : bytes) (h : StreamHandle)
  | SMounts (id : bytes) (h : StreamHandle) (ms : list bytes)
  | SWait (id : bytes) (h : StreamHandle).

(** [PGone]: dropped, or returned without a result. *)
Inductive Proc :=
  | CStart (a : CreateArgs)
  | CGuard (a : CreateArgs)
  | CSource (a : CreateArgs)
  | CMount (b : Building)
  | CSub (b : Building)
  | CRtmp (b : Building)
  | CRec (b : Building)
  | CRecStart (b : Building) (r : Recording)
  | CRun (b : Building)
  | CStore (b : Building)
  | PStop (p : StopPhase)
  | PShutdown (ids : list bytes)
  | PShutdownStop (p : StopPhase) (ids : list bytes)
  | PDone (r : Res StreamInfo)
  | PGone.

(** The monitor of a pipeline: it waits for the stop sender, which was used or
    dropped, or it has stopped the hub. *)
Inductive MonState := Watching | Signalled | Fired.

(** How the code around the manager makes sources and outputs. *)
Class Parts (S O X : Type) := {
  scripted : list MediaFrame → S;
  usb : X → Value → Res (S * option SubstreamSettings);
  rtsp_output : bytes → bytes → Z → nat → O;
  rtmp_output : bytes → O;
  file_output : bytes → Recording → nat → O;
}.

(** What a step finds outside: the devices, the identifiers it draws, the row
    it reads and whether an output starts or the wait times out. *)
Record Input (X : Type) := mkInput {
  x_env : X; x_uuid : Uuid; x_ssrc : Z; x_row : Row; x_started : bool; x_timeout : bool;
}.
Arguments x_env {X}. Arguments x_uuid {X}. Arguments x_ssrc {X}. Arguments x_row {X}.
Arguments x_started {X}. Arguments x_timeout {X}. Arguments mkInput {X}.

Section manager.
Context {S O C Sem X : Type} `{Source S} `{Output O} `{Broadcast C} `{Semaphore Sem} `{Parts S O X}.

Record Mgr := mkMgr {
  world : Hub.World S O C Sem; streams : gmap bytes StreamHandle; live : LiveStreams;
  slots : gmap bytes nat; monitors : gmap nat MonState; procs : gmap Z Proc; advertised_host : bytes;
}.

Definition set_world (v : Hub.World S O C Sem) (w : Mgr) : Mgr :=
  mkMgr v (streams w) (live w) (slots w) (monitors w) (procs w) (advertised_host w).
Definition set_streams (v : gmap bytes StreamHandle) (w : Mgr) : Mgr :=
  mkMgr (world w) v (live w) (slots w) (monitors w) (procs w) (advertised_host w).
Definition set_live (v : LiveStreams) (w : Mgr) : Mgr :=
  mkMgr (world w) (streams w) v (slots w) (monitors w) (procs w) (advertised_host w).
Definition set_slots (v : gmap bytes nat) (w : Mgr) : Mgr :=
  mkMgr (world w) (streams w) (live w) v (monitors w) (procs w) (advertised_host w).
Definition set_monitors (v : gmap nat MonState) (w : Mgr) : Mgr :=
  mkMgr (world w) (streams w) (live w) (slots w) v (procs w) (advertised_host w).
Definition set_proc (pid : Z) (p : Proc) (w : Mgr) : Mgr :=
  mkMgr (world w) (streams w) (live w) (slots w) (monitors w) (<[pid := p]> (procs w)) (advertised_host w).

Definition mgr_new (max_streams : Z) (host : bytes) : Res Mgr :=
  c ← Controller.new max_streams; Ok (mkMgr (Hub.mkWorld c []) ∅ [] ∅ ∅ ∅ host).

Definition set_controller (c : Controller.ResourceController Sem) (w : Mgr) : Mgr :=
  set_world (Hub.mkWorld c (hubs (world w))) w.
Definition release_permit (w : Mgr) : Mgr := set_controller (Controller.release (controller (world w))) w.

(** The permit of a create call is dropped when the call ends. *)
Definition finish_create (pid : Z) (r : Res StreamInfo) (w : Mgr) : Mgr := set_proc pid (PDone r) (release_permit w).

(** The stop sender of a pipeline is used or dropped. *)
Definition signal (k : nat) (w : Mgr) : Mgr :=
  match monitors w !! k with
  | Some Watching => set_monitors (<[k := Signalled]> (monitors w)) w
  | _ => w
  end.

Definition on_hub (k : nat) (a : Hub.Action O) (w : Mgr) : option Mgr :=
  v ← Hub.world_step (world w) k a; Some (set_world v w).

(** 3. *)
Definition build_source (env : X) (a : CreateArgs) : Res (S * option SubstreamSettings) :=
  if bytes_eqb (a_type a) (lit "test") then Ok (scripted (test_frames (a_config a)), None)
  else if bytes_eqb (a_type a) (lit "usb") then usb env (a_config a)
  else Err "unsupported camera type: ".

Definition rtsp_url (w : Mgr) (id : bytes) : bytes :=
  lit "rtsp://" ++ advertised_host w ++ lit ":" ++ dec_of_Z RTSP_PORT ++ lit "/" ++ main_path id.

Definition handle_of (b : Building) : StreamHandle :=
  mkHandle (b_hub b) (b_rtsp b) (b_rtmp b) (b_sub b) (b_mounts b) StRunning.

Definition mounted (p : bytes) (url : option bytes) (b : Building) : Building :=
  mkBuilding (b_args b) (b_hub b) (b_sub b) (match url with Some u => Some u | None => b_rtsp b end)
    (b_rtmp b) (b_mounts b ++ [p]).
Definition pushed (url : bytes) (b : Building) : Building :=
  mkBuilding (b_args b) (b_hub b) (b_sub b) (b_rtsp b) (Some url) (b_mounts b).

(** The end of [create_stream]: the handle is stored, the one it replaces
    dropped. *)
Definition store_handle (b : Building) (w : Mgr) : Mgr :=
  let id := a_id (b_args b) in
  let w' := match streams w !! id with Some old => signal (h_hub old) w | None => w end in
  set_streams (<[id := handle_of b]> (streams w')) w'.

(** *** One step of [create_stream] *)
Definition create_step (pid : Z) (p : Proc) (x : Input X) (w : Mgr) : option Mgr :=
  match p with
  | CStart a =>
      match Controller.try_acquire (controller (world w)) with
      | None => Some (set_proc pid (PDone (Err "all {} stream slots are exhausted; try again later")) w)
      | Some c => Some (set_proc pid (CGuard a) (set_controller c w))
      end
  | CGuard a =>
      match streams w !! a_id a with
      | Some _ => Some (finish_create pid (Err "stream already exists for camera ") w)
      | None => Some (set_proc pid (CSource a) w)
      end
  | CSource a =>
      match build_source (x_env x) a with
      | Ok (s, sub) =>
          let k := length (hubs (world w)) in
          Some (set_proc pid (CMount (mkBuilding a k sub None None []))
                  (set_world (Hub.mkWorld (controller (world w)) (hubs (world w) ++ [hub_new s (x_uuid x)])) w))
      | Err e => Some (finish_create pid (Err e) w)
      | Panic => Some (finish_create pid Panic w)
      | OutOfFuel => Some (finish_create pid OutOfFuel w)
      end
  | CMount b =>
      let id := a_id (b_args b) in
      if a_server (b_args b) then
        let p := main_path id in
        w ← on_hub (b_hub b) (AddOutput (x_uuid x) (rtsp_output p SDP_BODY (x_ssrc x) (main_tx (b_hub b)))) w;
        Some (set_proc pid (CSub (mounted p (Some (rtsp_url w id)) b))
                (set_live (register_live_stream (live w) (main_tx (b_hub b)) p SDP_BODY (x_ssrc x)) w))
      else Some (set_proc pid (CSub b) w)
  | CSub b =>
      let p := sub_path (a_id (b_args b)) in
      match b_sub b with
      | Some _ =>
          if a_server (b_args b) then
            Some (set_proc pid (CRtmp (mounted p None b))
                    (set_live (register_live_stream (live w) (sub_tx (b_hub b)) p SDP_BODY (x_ssrc x)) w))
          else Some (set_proc pid (CRtmp b) w)
      | None => Some (set_proc pid (CRtmp b) w)
      end
  | CRtmp b =>
      match push_target (x_row x) with
      | Some url =>
          if x_started x then
            w ← on_hub (b_hub b) (AddOutput (x_uuid x) (rtmp_output url)) w;
            Some (set_proc pid (CRec (pushed url b)) w)
          else Some (set_proc pid (CRec b) w)
      | None => Some (set_proc pid (CRec b) w)
      end
  | CRec b =>
      match recording_asked (x_row x) with
      | Some r => Some (set_proc pid (CRecStart b r) (set_slots (<[a_id (b_args b) := b_hub b]> (slots w)) w))
      | None => Some (set_proc pid (CRun b) w)
      end
  | CRecStart b r =>
      if x_started x then
        w ← on_hub (b_hub b) (AddOutput (x_uuid x) (file_output (a_id (b_args b)) r (b_hub b))) w;
        Some (set_proc pid (CRun b) w)
      else Some (set_proc pid (CRun b) w)
  | CRun b =>
      w ← on_hub (b_hub b) Run w;
      h ← hubs (world w) !! b_hub b;
      match run_phase h with
      | RunDone => Some (set_proc pid (CStore b) (set_monitors (<[b_hub b := Watching]> (monitors w)) w))
      | _ => Some w
      end
  | CStore b =>
      Some (finish_create pid (Ok (mkInfo (a_id (b_args b)) (b_rtsp b) (b_rtmp b) StRunning)) (store_handle b w))
  | _ => None
  end.

(** *** One step of [stop_stream]: its next phase, or its result *)
Definition ended (h : Hub S O C) : bool :=
  match source h with SrcEnded | SrcPanicked => true | _ => false end.

Definition stop_step (p : StopPhase) (x : Input X) (w : Mgr) : option (Mgr * (StopPhase + Res StreamInfo)) :=
  match p with
  | SRemove id =>
      match streams w !! id with
      | None => Some (w, inr (Err "no active stream for camera "))
      | Some h => Some (set_streams (delete id (streams w)) w, inl (SSlots id h))
      end
  | SSlots id h => Some (set_slots (delete id (slots w)) w, inl (SMounts id h (h_mounts h)))
  | SMounts id h (m :: ms) => Some (set_live (unregister_live_stream (live w) m).1 w, inl (SMounts id h ms))
  | SMounts id h [] => Some (signal (h_hub h) w, inl (SWait id h))
  | SWait id h =>
      hub ← hubs (world w) !! h_hub h;
      if ended hub || x_timeout x then Some (w, inr (Ok (mkInfo id (h_rtsp h) (h_rtmp h) StStopped))) else None
  end.

Definition advance (pid : Z) (p : Proc) (x : Input X) (w : Mgr) : option Mgr :=
  match p with
  | PStop q =>
      '(w, r) ← stop_step q x w;
      Some (set_proc pid (match r with inl q => PStop q | inr r => PDone r end) w)
  | PShutdown [] => Some (set_proc pid PGone w)
  | PShutdown (id :: ids) => Some (set_proc pid (PShutdownStop (SRemove id) ids) w)
  | PShutdownStop q ids =>
      '(w, r) ← stop_step q x w;
      Some (set_proc pid (match r with inl q => PShutdownStop q ids | inr _ => PShutdown ids end) w)
  | _ => create_step pid p x w
  end.

(** A dropped call: its permit is given back, the handle it holds is dropped. *)
Definition proc_hub (p : Proc) : option nat :=
  match p with
  | CMount b | CSub b | CRtmp b | CRec b | CRecStart b _ | CRun b | CStore b => Some (b_hub b)
  | PStop q | PShutdownStop q _ =>
      match q with SRemove _ => None | SSlots _ h | SMounts _ h _ | SWait _ h => Some (h_hub h) end
  | _ => None
  end.
Definition has_permit (p : Proc) : bool :=
  match p with
  | CGuard _ | CSource _ | CMount _ | CSub _ | CRtmp _ | CRec _ | CRecStart _ _ | CRun _ | CStore _ => true
  | _ => false
  end.

Definition cancel (pid : Z) (p : Proc) (w : Mgr) : Mgr :=
  let w := if has_permit p then release_permit w else w in
  let w := match proc_hub p with Some k => signal k w | None => w end in
  set_proc pid PGone w.

Inductive Event :=
  | CallCreate (pid : Z) (a : CreateArgs)
  | CallStop (pid : Z) (id : bytes)
  | CallShutdown (pid : Z)
  | Advance (pid : Z) (x : Input X)
  | Cancel (pid : Z)
  | MonitorStops (k : nat)
  | SourceGoes (k : nat) (a : SourceAction)
  | TaskGoes (k : nat) (t : nat) (a : TaskAction)
  | AddToStream (id : bytes) (uuid : Uuid) (o : O)
  | RemoveFromStream (id : bytes) (uuid : Uuid)
  | SpropUpdate (path sps pps : bytes).

(** [add_output_to_stream] and [remove_output_from_stream] hold the read lock
    of the table; the update of an SDP comes from a task of some pipeline. *)
Definition mstep (w : Mgr) (e : Event) : option Mgr :=
  match e with
  | CallCreate pid a => match procs w !! pid with None => Some (set_proc pid (CStart a) w) | _ => None end
  | CallStop pid id => match procs w !! pid with None => Some (set_proc pid (PStop (SRemove id)) w) | _ => None end
  | CallShutdown pid =>
      match procs w !! pid with None => Some (set_proc pid (PShutdown (map_to_list (streams w)).*1) w) | _ => None end
  | Advance pid x => p ← procs w !! pid; advance pid p x w
  | Cancel pid =>
      p ← procs w !! pid;
      match p with PDone _ | PGone => None | _ => Some (cancel pid p w) end
  | MonitorStops k =>
      match monitors w !! k with
      | Some Signalled => w ← on_hub k Stop w; Some (set_monitors (<[k := Fired]> (monitors w)) w)
      | _ => None
      end
  | SourceGoes k a => on_hub k (SourceStep a) w
  | TaskGoes k t a => on_hub k (TaskStep t a) w
  | AddToStream id uuid o => h ← streams w !! id; on_hub (h_hub h) (HandleAdd uuid o) w
  | RemoveFromStream id uuid => h ← streams w !! id; on_hub (h_hub h) (HandleRemove uuid) w
  | SpropUpdate path sps pps => Some (set_live (update_sps_pps (live w) path sps pps) w)
  end.

(** *** Queries *)
Definition list_active_streams (w : Mgr) : list StreamInfo :=
  List.map (λ kv, mkInfo kv.1 (h_rtsp kv.2) (h_rtmp kv.2) (h_status kv.2)) (map_to_list (streams w)).
Definition active_stream_count (w : Mgr) : Z := Z.of_nat (size (streams w)).
Definition has_stream (w : Mgr) (id : bytes) : bool := bool_decide (is_Some (streams w !! id)).
Definition any_substream_active (w : Mgr) : bool :=
  existsb (λ kv, bool_decide (is_Some (h_sub kv.2))) (map_to_list (streams w)).
Definition segment_covering (registry : gmap bytes nat) (slot : nat → option (bytes * Z)) (id : bytes) (ts : Z) : option bytes :=
  s ← registry !! id;
  '(path, opened) ← slot s;
  if opened <=? ts then Some path else None.

Inductive mreachable (w0 : Mgr) : Mgr → Prop :=
  | mreach_start : mreachable w0 w0
  | mreach_step w e w' : mreachable w0 w → mstep w e = Some w' → mreachable w0 w'.

Fixpoint mrun (w : Mgr) (es : list Event) : option Mgr :=
  match es with
  | [] => Some w
  | e :: es => w ← mstep w e; mrun w es
  end.
End manager.
Arguments Mgr : clear implicits.
Arguments Event : clear implicits.

(** ** Who owns a pipeline *)
Inductive Owner := ById (id : bytes) | ByPid (pid : Z).

(** How far the owner has brought it: being built, running under its monitor,
    or told to stop. *)
Inductive Stage := Build | Ready | Leaving.

Definition proc_stage (p : Proc) : option (nat * Stage) :=
  k ← proc_hub p;
  Some (k, match p with
           | CStore _ => Ready
           | PStop q | PShutdownStop q _ => match q with SWait _ _ => Leaving | _ => Ready end
           | _ => Build
           end).

Section ownership.
Context {S O C Sem X : Type} `{Source S} `{Output O} `{Broadcast C} `{SemaphoreLaws Sem} `{Parts S O X}.
Notation Mgr := (Mgr S O C Sem).

Definition stage (w : Mgr) (o : Owner) : option (nat * Stage) :=
  match o with
  | ById id => h ← streams w !! id; Some (h_hub h, Ready)
  | ByPid pid => p ← procs w !! pid; proc_stage p
  end.

(** What holds of a pipeline at a stage, and of one without owner. *)
Definition never_run (h : Hub S O C) : Prop := ∃ s, source h = SrcNotRun s.
Definition at_stage (s : Stage) (m : option MonState) (h : Hub S O C) : Prop :=
  match s with
  | Build => m = None ∧ never_run h
  | Ready => m = Some Watching ∧ run_phase h = RunDone
  | Leaving => m = Some Signalled ∨ m = Some Fired
  end.

Definition abandoned (m : option MonState) (h : Hub S O C) : Prop :=
  match m with Some Watching => False | None => never_run h | _ => True end.

Definition local (st : Owner → option (nat * Stage)) (k : nat) (oh : option (Hub S O C)) (m : option MonState) : Prop :=
  match oh with
  | None => m = None ∧ ∀ o s, st o ≠ Some (k, s)
  | Some h =>
      (stopped h = true ↔ m = Some Fired)
      ∧ ((∀ o s, st o ≠ Some (k, s)) ∧ abandoned m h
         ∨ ∃ o s, st o = Some (k, s) ∧ at_stage s m h ∧ ∀ o' s', st o' = Some (k, s') → o' = o)
  end.

Definition owned (w : Mgr) : Prop := ∀ k, local (stage w) k (hubs (world w) !! k) (monitors w !! k).

Lemma local_ext st st' k oh m :
  (∀ o s, st' o = Some (k, s) ↔ st o = Some (k, s)) → local st k oh m → local st' k oh m.
Proof.
  intros Hst. destruct oh as [h|]; cbn.
  - intros [Hs [[Hf Ha] | (o & s & Ho & Hat & Hu)]]; (split; [done|]).
    + left. split; [|done]. intros o s. rewrite Hst. apply Hf.
    + right. exists o, s. rewrite Hst. split; [done|]. split; [done|]. intros o' s'. rewrite Hst. apply Hu.
  - intros [-> Hf]. split; [done|]. intros o s. rewrite Hst. apply Hf.
Qed.

(** *** Hubs under the actions of the manager *)
Lemma hub_step_keeps a ctrl (h : Hub S O C) ctrl' h' :
  hub_step a ctrl h = Some (ctrl', h') → a ≠ Stop →
  stopped h' = stopped h ∧ (run_phase h = RunDone → run_phase h' = RunDone)
  ∧ (a ≠ Run → never_run h → never_run h').
Proof.
  assert (∀ id o (g : Hub S O C), stopped (add_output id o g) = stopped g ∧ run_phase (add_output id o g) = run_phase g
    ∧ source (add_output id o g) = source g) as Hadd.
  { intros id o g. unfold add_output. by destruct (running _). }
  intros E Ha. unfold never_run. destruct a as [id o|id o|id|id o|id| | |b|k b]; cbn in E.
  - case_match; [|done]. injection E as _ <-. by destruct (Hadd id o h) as (-> & -> & ->).
  - case_match; [|done]. unfold try_add_output in E. repeat case_match; simplify_eq/=; try done.
    by destruct (Hadd id o h) as (-> & -> & ->).
  - case_match; [|done]. by injection E as _ <-.
  - case_match; [|done]. by injection E as _ <-.
  - by injection E as _ <-.
  - unfold run_step in E. destruct (run_phase h) as [| |[|i ids]|], (source h); simplify_eq/=; try done.
  - done.
  - assert (stopped h' = stopped h ∧ run_phase h' = run_phase h ∧ ∀ s, source h ≠ SrcNotRun s) as (-> & -> & Hn).
    { unfold source_step in E. destruct (source h), b; try done;
        try (destruct (Controller.acquire ctrl) as [c0|]; [|done]); cbn in E;
        repeat (case_match; try done); by simplify_eq/=. }
    split; [done|]. split; [done|]. intros _ [s Hs]. by destruct (Hn s).
  - destruct (tasks h !! k) as [t|]; [|done]. cbn in E.
    destruct (task_step b t h) as [[p h'']|] eqn:Et; [|done]. injection E as _ <-. cbn.
    pose proof (task_step_source _ _ _ _ _ Et) as Hs. rewrite Hs.
    assert (stopped h'' = stopped h ∧ run_phase h'' = run_phase h) as [-> ->]; [|done].
    unfold task_step in Et. destruct (task_phase t), b; simplify_eq/=; try done;
      try (by repeat (case_match; simplify_eq/=)).
    destruct (bc_recv rx (chan h)) as [[got c]|]; [|done]. cbn in Et. by repeat (case_match; simplify_eq/=).
Qed.

Lemma on_hub_parts k a (w w' : Mgr) : on_hub k a w = Some w' →
  ∃ h ctrl h', hubs (world w) !! k = Some h ∧ hub_step a (controller (world w)) h = Some (ctrl, h')
    ∧ w' = set_world (Hub.mkWorld ctrl (<[k := h']> (hubs (world w)))) w.
Proof.
  unfold on_hub, world_step. destruct (hubs (world w) !! k) as [h|] eqn:Eh; [|done]. cbn.
  destruct (hub_step a (controller (world w)) h) as [[c h']|] eqn:E; [|done]. intros [= <-]. by exists h, c, h'.
Qed.

Lemma on_hub_local k a (w w' : Mgr) st : on_hub k a w = Some w' → a ≠ Stop → a ≠ Run →
  (∀ j, local st j (hubs (world w) !! j) (monitors w !! j)) →
  ∀ j, local st j (hubs (world w') !! j) (monitors w' !! j).
Proof.
  intros (h & c & h' & Hk & E & ->)%on_hub_parts Ha Hrun Hw j. cbn. specialize (Hw j).
  destruct (hub_step_keeps _ _ _ _ _ E Ha) as (Hst & Hrd & Hnr).
  destruct (decide (j = k)) as [->|Hj]; [|by rewrite list_lookup_insert_ne].
  rewrite list_lookup_insert_eq by (by eapply lookup_lt_Some). rewrite Hk in Hw. cbn in *. rewrite Hst.
  destruct Hw as [Hs [[Hf Hab] | (o & s & Ho & Hat & Hu)]]; (split; [done|]).
  - left. split; [done|]. unfold abandoned in *. destruct (monitors w !! k) as [[]|]; try done. by apply Hnr.
  - right. exists o, s. split; [done|]. split; [|done]. destruct s; cbn in *; naive_solver.
Qed.

(** *** Changes of owners *)
#[local] Instance owner_eq : EqDecision Owner.
Proof. solve_decision. Qed.

Lemma owned_eq (w w' : Mgr) :
  hubs (world w') = hubs (world w) → monitors w' = monitors w → (∀ o, stage w' o = stage w o) →
  owned w → owned w'.
Proof. intros Hh Hm Hs Hw k. rewrite Hh, Hm. eapply local_ext; [|apply Hw]. intros. by rewrite Hs. Qed.

(** Only the pipeline [k] and owners of it are concerned. *)
Lemma owned_at k (w w' : Mgr) :
  (∀ o j s, j ≠ k → stage w' o = Some (j, s) ↔ stage w o = Some (j, s)) →
  (∀ j, j ≠ k → hubs (world w') !! j = hubs (world w) !! j ∧ monitors w' !! j = monitors w !! j) →
  owned w → local (stage w') k (hubs (world w') !! k) (monitors w' !! k) → owned w'.
Proof.
  intros Hs Hr Hw Hk j. destruct (decide (j = k)) as [->|Hj]; [done|].
  destruct (Hr j Hj) as [-> ->]. eapply local_ext; [|apply Hw]. intros. by apply Hs.
Qed.

Definition owners_change (w w' : Mgr) (os : list Owner) : Prop := ∀ o, o ∉ os → stage w' o = stage w o.

Lemma owner_hub (w : Mgr) o k s : owned w → stage w o = Some (k, s) →
  ∃ h, hubs (world w) !! k = Some h ∧ (stopped h = true ↔ monitors w !! k = Some Fired)
    ∧ at_stage s (monitors w !! k) h ∧ ∀ o' s', stage w o' = Some (k, s') → o' = o.
Proof.
  intros Hw Ho. specialize (Hw k). unfold local in Hw. destruct (hubs (world w) !! k) as [h|]; [|by destruct Hw as [_ Hf]; destruct (Hf o s)].
  destruct Hw as [Hs [[Hf _] | (o1 & s1 & Ho1 & Hat & Hu)]]; [by destruct (Hf o s)|].
  assert (o = o1) as -> by (by eapply Hu). rewrite Ho in Ho1. injection Ho1 as ->. by exists h.
Qed.

(** The pipeline passes from one owner to another, or changes its stage. *)
Lemma owned_move (w w' : Mgr) o o' k s s' :
  hubs (world w') = hubs (world w) → (∀ j, j ≠ k → monitors w' !! j = monitors w !! j) →
  owners_change w w' [o; o'] → stage w o = Some (k, s) → (o' = o ∨ stage w o' = None ∧ stage w' o = None) →
  stage w' o' = Some (k, s') →
  (∀ h, at_stage s (monitors w !! k) h → at_stage s' (monitors w' !! k) h) →
  (monitors w' !! k = Some Fired ↔ monitors w !! k = Some Fired) →
  owned w → owned w'.
Proof.
  intros Hh Hm Hch Ho Ho' Hs' Hat Hfire Hw. destruct (owner_hub w o k s Hw Ho) as (h & Hk & Hf & Ha & Hu).
  apply (owned_at k w); [|intros j Hj; by rewrite Hh, Hm|done|].
  - intros q j t Hj. destruct (decide (q = o')) as [->|Hq]; [|destruct (decide (q = o)) as [->|Hq']].
    + rewrite Hs'. destruct Ho' as [-> | [-> _]]; [rewrite Ho|]; naive_solver.
    + rewrite Ho. destruct Ho' as [?|[_ ->]]; naive_solver.
    + rewrite Hch; [done|]. set_solver.
  - rewrite Hh, Hk. split; [by rewrite Hfire|]. right. exists o', s'. split; [done|]. split; [by apply Hat|].
    intros q t Hq. destruct (decide (q = o')) as [|Hqo']; [done|]. exfalso.
    destruct (decide (q = o)) as [->|Hqo]; [destruct Ho' as [?|[_ Hn]]; congruence|].
    rewrite Hch in Hq by set_solver. destruct (Hqo (Hu _ _ Hq)).
Qed.

Lemma signal_other k (w : Mgr) j : j ≠ k → monitors (signal k w) !! j = monitors w !! j.
Proof. intros Hj. unfold signal. destruct (monitors w !! k) as [[]|]; try done. cbn. by rewrite lookup_insert_ne. Qed.
Lemma signal_self k (w : Mgr) : monitors (signal k w) !! k =
  match monitors w !! k with Some Watching => Some Signalled | m => m end.
Proof. unfold signal. destruct (monitors w !! k) as [[]|] eqn:E; cbn; rewrite ?lookup_insert_eq; done. Qed.
Lemma signal_rest k (w : Mgr) : world (signal k w) = world w ∧ streams (signal k w) = streams w
  ∧ procs (signal k w) = procs w ∧ live (signal k w) = live w ∧ slots (signal k w) = slots w
  ∧ advertised_host (signal k w) = advertised_host w.
Proof. unfold signal. by destruct (monitors w !! k) as [[]|]. Qed.

(** An owner goes, and with it the stop sender. *)
Lemma owned_drop (w w' : Mgr) o k s :
  hubs (world w') = hubs (world w) → monitors w' = monitors (signal k w) →
  owners_change w w' [o] → stage w o = Some (k, s) → stage w' o = None → owned w → owned w'.
Proof.
  intros Hh Hm Hch Ho Ho' Hw. destruct (owner_hub w o k s Hw Ho) as (h & Hk & Hf & Ha & Hu).
  apply (owned_at k w); [|intros j Hj; by rewrite Hh, Hm, signal_other|done|].
  - intros q j t Hj. destruct (decide (q = o)) as [->|Hq]; [rewrite Ho', Ho; naive_solver|].
    rewrite Hch; [done|]. set_solver.
  - rewrite Hh, Hk, Hm, signal_self. split.
    + rewrite Hf. destruct (monitors w !! k) as [[]|]; naive_solver.
    + left. split.
      * intros q t Hq. destruct (decide (q = o)) as [->|Hqo]; [congruence|].
        rewrite Hch in Hq by set_solver. destruct (Hqo (Hu _ _ Hq)).
      * destruct s; cbn in Ha; [by destruct Ha as [-> ?] | by destruct Ha as [-> _] | by destruct Ha as [-> | ->]].
Qed.

(** *** Every step keeps the ownership *)
Lemma stage_set_proc pid p (w : Mgr) o :
  stage (set_proc pid p w) o = if decide (o = ByPid pid) then proc_stage p else stage w o.
Proof.
  destruct o as [id|q]; cbn; [by rewrite decide_False|].
  destruct (decide (q = pid)) as [->|Hq]; [by rewrite lookup_insert_eq, decide_True|].
  rewrite lookup_insert_ne by done. rewrite decide_False; congruence.
Qed.

Lemma stage_parts (w v : Mgr) o : streams v = streams w → procs v = procs w → stage v o = stage w o.
Proof. intros Hs Hp. destruct o; cbn; by rewrite ?Hs, ?Hp. Qed.

Lemma stage_pid (w : Mgr) pid p : procs w !! pid = Some p → stage w (ByPid pid) = proc_stage p.
Proof. intros E. cbn. by rewrite E. Qed.

(** A call goes on without change of what it owns. *)
Lemma owned_proc pid p p' (w v : Mgr) :
  procs w !! pid = Some p → proc_stage p' = proc_stage p → owned v → procs v = procs w →
  owned (set_proc pid p' v).
Proof.
  intros Hp Hst Hv Hpv. eapply (owned_eq v); [done | done | | done].
  intros o. rewrite stage_set_proc. case_decide as Ho; [|done]. subst. cbn. by rewrite Hpv, Hp.
Qed.

Lemma owned_parts (w v : Mgr) : hubs (world v) = hubs (world w) → monitors v = monitors w → streams v = streams w →
  procs v = procs w → owned w → owned v.
Proof. intros Hh Hm Hs Hp. apply owned_eq; [done..|]. intros o. by apply stage_parts. Qed.

Lemma owned_on_hub k a (w w' : Mgr) : on_hub k a w = Some w' → a ≠ Stop → a ≠ Run → owned w →
  owned w' ∧ procs w' = procs w ∧ streams w' = streams w ∧ monitors w' = monitors w.
Proof.
  intros E Ha Hr Hw. pose proof (on_hub_local k a w w' (stage w) E Ha Hr Hw) as Hl.
  apply on_hub_parts in E as (h & c & h' & _ & _ & ->). split; [|done].
  intros j. eapply local_ext; [|apply Hl]. intros o s. by rewrite (stage_parts w).
Qed.

(** A call that owns [k] ends or is dropped. *)
Lemma owned_end pid p p' k s (w v : Mgr) :
  procs w !! pid = Some p → proc_stage p = Some (k, s) → proc_stage p' = None → owned w →
  hubs (world v) = hubs (world w) → monitors v = monitors (signal k w) → streams v = streams w → procs v = procs w →
  owned (set_proc pid p' v).
Proof.
  intros Hp Hk Hn Hw Hh Hm Hs Hpv.
  apply (owned_drop w _ (ByPid pid) k s); try done.
  - intros o Ho. rewrite stage_set_proc, decide_False by set_solver. by apply stage_parts.
  - by rewrite (stage_pid _ _ _ Hp).
  - by rewrite stage_set_proc, decide_True.
Qed.

Lemma owned_source pid a b s id (w : Mgr) :
  procs w !! pid = Some (CSource a) → b_hub b = length (hubs (world w)) → owned w →
  owned (set_proc pid (CMount b) (set_world (Hub.mkWorld (controller (world w)) (hubs (world w) ++ [hub_new s id])) w)).
Proof.
  intros Hp Hb Hw. set (k := length (hubs (world w))) in *.
  assert (hubs (world w) !! k = None) as Hnone by (by apply lookup_ge_None_2).
  pose proof (Hw k) as Hk. rewrite Hnone in Hk. destruct Hk as [Hm Hf].
  assert (∀ o, stage (set_proc pid (CMount b) (set_world (Hub.mkWorld (controller (world w)) (hubs (world w) ++ [hub_new s id])) w)) o
    = if decide (o = ByPid pid) then Some (k, Build) else stage w o) as Hst.
  { intros o. rewrite stage_set_proc. case_decide; [cbn; by rewrite Hb|]. by apply stage_parts. }
  apply (owned_at k w); [| |done|].
  - intros o j t Hj. rewrite Hst. case_decide as Ho; [|done]. subst. rewrite (stage_pid _ _ _ Hp). cbn. naive_solver.
  - intros j Hj. cbn. split; [|done]. destruct (decide (j < k)%nat) as [Hlt|Hge]; [by rewrite lookup_app_l|].
    rewrite !lookup_ge_None_2; [done | unfold k in *; lia | rewrite length_app; cbn; unfold k in *; lia].
  - cbn. rewrite lookup_app_r by done. unfold k. rewrite Nat.sub_diag. cbn. fold k. rewrite Hm. split; [done|].
    right. exists (ByPid pid), Build. rewrite Hst, decide_True by done. split; [done|]. split; [split; [done|]; by exists s|].
    intros o t. rewrite Hst. case_decide; [done|]. intros Ho. by destruct (Hf o t).
Qed.

(** [run], which ends with the monitor in place. *)
Lemma run_step_phase (h h' : Hub S O C) : run_step h = Some h' → never_run h →
  stopped h' = stopped h ∧ (run_phase h' = RunDone ∨ never_run h').
Proof.
  unfold run_step. intros E [s Hs]. rewrite Hs in E. unfold never_run.
  destruct (run_phase h) as [| |[|i ids]|]; simplify_eq/=; split; try done; [right; by exists s..| |]; [by left|].
  right. by exists s.
Qed.

Lemma owned_run pid b (w w' : Mgr) h : procs w !! pid = Some (CRun b) → owned w →
  on_hub (b_hub b) Run w = Some w' → hubs (world w') !! b_hub b = Some h →
  owned (match run_phase h with
         | RunDone => set_proc pid (CStore b) (set_monitors (<[b_hub b := Watching]> (monitors w')) w')
         | _ => w'
         end).
Proof.
  intros Hp Hw E Hh. set (k := b_hub b) in *.
  destruct (owner_hub w (ByPid pid) k Build Hw) as (g & Hg & Hf & [Hm Hnr] & Hu); [by rewrite (stage_pid _ _ _ Hp)|].
  apply on_hub_parts in E as (g' & c & h' & Hg' & E & ->). rewrite Hg in Hg'. injection Hg' as <-.
  cbn in Hh. rewrite list_lookup_insert_eq in Hh by (by eapply lookup_lt_Some). injection Hh as ->.
  cbn in E. destruct (run_step g) as [g'|] eqn:Er; [|done]. injection E as _ ->.
  destruct (run_step_phase g h Er Hnr) as [Hst Hph].
  assert (run_phase h ≠ RunDone → owned (set_world (Hub.mkWorld c (<[k:=h]> (hubs (world w)))) w)) as Hnot.
  { intros Hrd. destruct Hph as [|Hnr']; [done|]. apply (owned_at k w); [by intros o j t _; rewrite (stage_parts w)| |done|].
    - intros j Hj. cbn. by rewrite list_lookup_insert_ne.
    - cbn. rewrite list_lookup_insert_eq by (by eapply lookup_lt_Some). unfold local. rewrite Hst. split; [done|]. right.
      exists (ByPid pid), Build. rewrite (stage_parts w) by done. rewrite (stage_pid _ _ _ Hp). split; [done|]. split; [done|].
      intros o t. rewrite (stage_parts w) by done. apply Hu. }
  destruct (run_phase h) eqn:Eph; [by apply Hnot..|]. clear Hnot.
  assert (∀ o, stage (set_proc pid (CStore b) (set_monitors (<[k:=Watching]> (monitors w))
    (set_world (Hub.mkWorld c (<[k:=h]> (hubs (world w)))) w))) o = if decide (o = ByPid pid) then Some (k, Ready) else stage w o) as Hst'.
  { intros o. rewrite stage_set_proc. case_decide; [done|]. by apply stage_parts. }
  apply (owned_at k w); [| |done|].
  - intros o j t Hj. cbn [monitors set_world]. rewrite Hst'. case_decide as Ho; [|done]. subst. rewrite (stage_pid _ _ _ Hp). cbn. naive_solver.
  - intros j Hj. cbn. by rewrite list_lookup_insert_ne, lookup_insert_ne.
  - cbn. rewrite list_lookup_insert_eq by (by eapply lookup_lt_Some). rewrite lookup_insert_eq. unfold local. rewrite Hst, Hf, Hm. split; [done|].
    right. exists (ByPid pid), Ready. cbn [monitors set_world]. rewrite Hst', decide_True by done. split; [done|]. split; [done|].
    intros o t. rewrite Hst'. case_decide; [done|]. apply Hu.
Qed.

(** Every step of [create_stream], of [stop_stream] and of the others. *)
Ltac keep Hp Hw :=
  eapply owned_proc; [exact Hp | reflexivity | eapply owned_parts; [..|exact Hw]; reflexivity | reflexivity].

Lemma owned_added pid p p' k id o (w v v' : Mgr) :
  procs w !! pid = Some p → proc_stage p' = proc_stage p → owned w → on_hub k (AddOutput id o) w = Some v →
  hubs (world v') = hubs (world v) → monitors v' = monitors v → streams v' = streams v → procs v' = procs v →
  owned (set_proc pid p' v').
Proof.
  intros Hp Hst Hw E Hh Hm Hs Hpv. destruct (owned_on_hub _ _ _ _ E) as (Hv & Hvp & _ & _); [done..|].
  eapply owned_proc; [exact Hp | done | by eapply owned_parts | by rewrite Hpv].
Qed.

Lemma owned_store pid b r (w : Mgr) : procs w !! pid = Some (CStore b) → owned w →
  owned (finish_create pid r (store_handle b w)).
Proof.
  intros Hp Hw. unfold store_handle. set (id := a_id (b_args b)).
  set (w' := match streams w !! id with Some old => signal (h_hub old) w | None => w end).
  set (w1 := set_streams (delete id (streams w)) w').
  assert (streams w' = streams w ∧ procs w' = procs w ∧ hubs (world w') = hubs (world w)) as (Hs & Hpv & Hh).
  { unfold w'. destruct (streams w !! id) as [old|]; [|done]. by destruct (signal_rest (h_hub old) w) as (-> & -> & -> & _). }
  assert (owners_change w w1 [ById id]) as Hch.
  { intros [j|q] Hj; cbn; [|by rewrite Hpv]. rewrite lookup_delete_ne; [done|]. set_solver. }
  assert (stage w1 (ById id) = None) as Hnone by (cbn; by rewrite lookup_delete_eq).
  assert (owned w1) as Hw1.
  { unfold w' in *. destruct (streams w !! id) as [old|] eqn:Eo.
    - apply (owned_drop w _ (ById id) (h_hub old) Ready); try done. cbn. by rewrite Eo.
    - apply (owned_parts w); try done. cbn. by rewrite delete_id. }
  apply (owned_move w1 _ (ByPid pid) (ById id) (b_hub b) Ready Ready); try done.
  - intros o Ho. unfold finish_create. rewrite stage_set_proc, decide_False by set_solver.
    destruct o as [j|q]; cbn; [|done]. rewrite Hs. rewrite lookup_insert_ne by set_solver.
    rewrite lookup_delete_ne by set_solver. done.
  - cbn. by rewrite Hpv, Hp.
  - right. split; [done|]. unfold finish_create. by rewrite stage_set_proc, decide_True.
  - unfold finish_create. rewrite stage_set_proc, decide_False by done. cbn. by rewrite lookup_insert_eq.
Qed.

Lemma owned_create pid p (x : Input X) (w w' : Mgr) : procs w !! pid = Some p → owned w →
  create_step pid p x w = Some w' → owned w'.
Proof.
  intros Hp Hw E. destruct p as [a|a|a|b|b|b|b|b r|b|b|q|ids|q ids|r|]; cbn in E; try done.
  - destruct (Controller.try_acquire _); injection E as <-; keep Hp Hw.
  - destruct (streams w !! a_id a); injection E as <-; keep Hp Hw.
  - destruct (build_source (x_env x) a) as [[s sub]|e| |]; injection E as <-; [|keep Hp Hw..].
    by eapply owned_source.
  - destruct (a_server (b_args b)); [|injection E as <-; keep Hp Hw].
    destruct (on_hub _ _ w) as [v|] eqn:Eh; [|done]. injection E as <-. by eapply owned_added.
  - destruct (b_sub b); [destruct (a_server (b_args b))|]; injection E as <-; keep Hp Hw.
  - destruct (push_target (x_row x)) as [url|]; [destruct (x_started x)|]; [|injection E as <-; keep Hp Hw..].
    destruct (on_hub _ _ w) as [v|] eqn:Eh; [|done]. injection E as <-. by eapply owned_added.
  - destruct (recording_asked (x_row x)); injection E as <-; keep Hp Hw.
  - destruct (x_started x); [|injection E as <-; keep Hp Hw].
    destruct (on_hub _ _ w) as [v|] eqn:Eh; [|done]. injection E as <-. by eapply owned_added.
  - destruct (on_hub _ _ w) as [v|] eqn:Eh; [|done]. cbn in E.
    destruct (hubs (world v) !! b_hub b) as [h|] eqn:Ek; [|done]. cbn in E.
    pose proof (owned_run pid b w v h Hp Hw Eh Ek) as Ho. by destruct (run_phase h); injection E as <-.
  - injection E as <-. by apply owned_store.
Qed.

Lemma owned_stop pid p q (x : Input X) p' r (w v : Mgr) : procs w !! pid = Some p → owned w →
  proc_stage p = proc_stage (PStop q) → stop_step q x w = Some (v, r) →
  proc_stage p' = match r with inl q' => proc_stage (PStop q') | inr _ => None end → owned (set_proc pid p' v).
Proof.
  intros Hp Hw Hst E Hst'. pose proof (stage_pid _ _ _ Hp) as Hsp. rewrite Hst in Hsp.
  destruct q as [id|id h|id h [|m ms]|id h]; cbn in E, Hst, Hsp.
  - destruct (streams w !! id) as [h|] eqn:Eh; injection E as <- <-.
    + apply (owned_move w _ (ById id) (ByPid pid) (h_hub h) Ready Ready); try done.
      * intros o Ho. rewrite stage_set_proc, decide_False by set_solver.
        destruct o as [j|j]; cbn; [|done]. rewrite lookup_delete_ne; [done|]. set_solver.
      * cbn. by rewrite Eh.
      * right. split; [done|]. rewrite stage_set_proc, decide_False by done. cbn. by rewrite lookup_delete_eq.
      * by rewrite stage_set_proc, decide_True.
    + by eapply owned_proc; [|rewrite Hst| |].
  - injection E as <- <-. eapply owned_proc; [exact Hp | by rewrite Hst' | by eapply owned_parts | done].
  - injection E as <- <-. destruct (signal_rest (h_hub h) w) as (Sw & Ss & Sp & _).
    apply (owned_move w _ (ByPid pid) (ByPid pid) (h_hub h) Ready Leaving); try done.
    + cbn. by rewrite Sw.
    + intros j Hj. by apply signal_other.
    + intros o Ho. rewrite stage_set_proc, decide_False by set_solver. by apply stage_parts.
    + by left.
    + by rewrite stage_set_proc, decide_True.
    + intros g [Hm _]. cbn. rewrite signal_self, Hm. by left.
    + cbn. rewrite signal_self. destruct (monitors w !! h_hub h) as [[]|]; naive_solver.
  - injection E as <- <-. eapply owned_proc; [exact Hp | by rewrite Hst' | by eapply owned_parts | done].
  - destruct (hubs (world w) !! h_hub h) as [g|]; [|done]. cbn in E. destruct (_ || _); [|done]. injection E as <- <-.
    destruct (owner_hub w (ByPid pid) (h_hub h) Leaving Hw Hsp) as (g' & _ & _ & Hat & _).
    eapply (owned_end pid p p' (h_hub h) Leaving w w); try done.
    unfold signal. by destruct Hat as [-> | ->].
Qed.

Lemma owned_monitor k (w w' : Mgr) : owned w → mstep w (MonitorStops k) = Some w' → owned w'.
Proof.
  intros Hw E. cbn in E. destruct (monitors w !! k) as [[]|] eqn:Em; try done.
  destruct (on_hub k Stop w) as [v|] eqn:Eh; [|done]. cbn in E. injection E as <-.
  apply on_hub_parts in Eh as (h & c & h' & Hk & Es & ->). cbn in Es. injection Es as <- <-.
  pose proof (Hw k) as Hl. rewrite Hk, Em in Hl. apply (owned_at k w); [| |done|].
  - intros o j s _. by rewrite (stage_parts w).
  - intros j Hj. cbn. by rewrite list_lookup_insert_ne, lookup_insert_ne.
  - cbn. rewrite list_lookup_insert_eq by (by eapply lookup_lt_Some). rewrite lookup_insert_eq.
    unfold local in *. split; [done|]. destruct Hl as [_ [[Hf _] | (o & s & Ho & Hat & Hu)]].
    + left. split; [|done]. intros o s. rewrite (stage_parts w) by done. apply Hf.
    + right. exists o, s. rewrite (stage_parts w) by done. split; [done|].
      split; [|intros o' s'; rewrite (stage_parts w) by done; apply Hu].
      destruct s; cbn in *; [by destruct Hat..|by right].
Qed.

Lemma owned_fresh pid p (w : Mgr) : procs w !! pid = None → proc_stage p = None → owned w → owned (set_proc pid p w).
Proof.
  intros Hp Hst. apply owned_eq; [done..|]. intros o. rewrite stage_set_proc. case_decide as Ho; [|done].
  subst. cbn. by rewrite Hp.
Qed.

Lemma owned_cancel pid p (w : Mgr) : procs w !! pid = Some p → owned w → owned (cancel pid p w).
Proof.
  intros Hp Hw. unfold cancel. set (w1 := if has_permit p then _ else w).
  assert (hubs (world w1) = hubs (world w) ∧ monitors w1 = monitors w ∧ streams w1 = streams w ∧ procs w1 = procs w)
    as (Hh & Hm & Hs & Hpr) by (unfold w1; by destruct (has_permit p)).
  destruct (proc_hub p) as [k|] eqn:Ek.
  - destruct (signal_rest k w1) as (Sw & Ss & Sp & _).
    assert (∃ s, proc_stage p = Some (k, s)) as [s Hst] by (unfold proc_stage; rewrite Ek; by eexists).
    eapply (owned_end pid p PGone k s w); try done.
    + by rewrite Sw. + unfold signal. rewrite Hm. by destruct (monitors w !! k) as [[]|]. + by rewrite Ss. + by rewrite Sp.
  - eapply owned_proc; [exact Hp | unfold proc_stage; by rewrite Ek | by eapply owned_parts | done].
Qed.

Lemma owned_step (w : Mgr) e w' : owned w → mstep w e = Some w' → owned w'.
Proof.
  intros Hw E. destruct e as [pid a|pid id|pid|pid x|pid|k|k a|k t a|id u o|id u|path sps pps]; cbn in E.
  - destruct (procs w !! pid) eqn:Hp; [done|]. injection E as <-. by apply owned_fresh.
  - destruct (procs w !! pid) eqn:Hp; [done|]. injection E as <-. by apply owned_fresh.
  - destruct (procs w !! pid) eqn:Hp; [done|]. injection E as <-. by apply owned_fresh.
  - destruct (procs w !! pid) as [p|] eqn:Hp; [|done]. cbn in E.
    destruct p as [a|a|a|b|b|b|b|b r|b|b|q|[|id ids]|q ids|r|]; try (by eapply (owned_create pid _ x)); cbn in E.
    + destruct (stop_step q x w) as [[v r]|] eqn:Eq; [|done]. injection E as <-.
      eapply owned_stop; [exact Hp | done | done | exact Eq | by destruct r].
    + injection E as <-. by eapply owned_proc.
    + injection E as <-. by eapply owned_proc.
    + destruct (stop_step q x w) as [[v r]|] eqn:Eq; [|done]. injection E as <-.
      eapply owned_stop; [exact Hp | done | done | exact Eq | by destruct r].
  - destruct (procs w !! pid) as [p|] eqn:Hp; [|done]. cbn in E.
    assert (w' = cancel pid p w) as -> by (by destruct p; simplify_eq). by apply owned_cancel.
  - by eapply owned_monitor.
  - by eapply owned_on_hub.
  - by eapply owned_on_hub.
  - destruct (streams w !! id); [|done]. by eapply owned_on_hub.
  - destruct (streams w !! id); [|done]. by eapply owned_on_hub.
  - injection E as <-. by eapply owned_parts.
Qed.
End ownership.

(** ** Who holds a stream slot *)
Section permits.
Context {S O C Sem X : Type} `{Source S} `{Output O} `{Broadcast C} `{SemaphoreLaws Sem} `{Parts S O X}.
Notation Mgr := (Mgr S O C Sem).
#[local] Arguments held : simpl never.

Definition free_slots (w : Mgr) : Z := Controller.available_permits (controller (world w)).
Definition pays (p : Proc) : Z := if has_permit p then 1 else 0.
Definition accounted (w : Mgr) : Z := free_slots w + held (hubs (world w)) + sum_values pays (procs w).

(** The slots neither move between [w] and [v] nor are they overdrawn. *)
Definition slots_kept (w v : Mgr) : Prop := accounted v = accounted w ∧ (0 ≤ free_slots w → 0 ≤ free_slots v).
#[local] Instance slots_kept_refl : Reflexive slots_kept.
Proof. done. Qed.

Lemma sum_set pid p p' (m : gmap Z Proc) : m !! pid = Some p →
  sum_values pays (<[pid := p']> m) = sum_values pays m - pays p + pays p'.
Proof. intros E. rewrite sum_values_insert, sum_values_delete, E. cbn. lia. Qed.

Lemma slots_on_hub k a (w v : Mgr) : on_hub k a w = Some v → slots_kept w v ∧ procs v = procs w.
Proof.
  intros (h & c & h' & Hk & E & ->)%on_hub_parts. split; [|done]. destruct (hub_step_slots _ _ _ _ _ E) as (A1 & A2 & A3).
  unfold slots_kept, accounted, free_slots. cbn. rewrite (held_insert _ _ h h' Hk). lia.
Qed.

(** A call goes on, or ends, with the slots of [v]. *)
Lemma slots_proc pid p p' (w v : Mgr) : procs w !! pid = Some p → pays p' = pays p → procs v = procs w →
  slots_kept w v → slots_kept w (set_proc pid p' v).
Proof.
  intros Hp Hpay Hpr [Ha Hf]. split; [|done]. unfold accounted, free_slots in *. cbn. rewrite Hpr, (sum_set pid p p') by done.
  rewrite Hpr in Ha. lia.
Qed.

Lemma slots_end pid p p' (w v : Mgr) : procs w !! pid = Some p → pays p = 1 → pays p' = 0 →
  procs v = procs w → slots_kept w v → slots_kept w (set_proc pid p' (release_permit v)).
Proof.
  intros Hp Hpay Hpay' Hpr [Ha Hf]. unfold slots_kept, accounted, free_slots in *. cbn.
  destruct (Controller.release_permits (controller (world v))) as [-> _].
  rewrite Hpr, (sum_set pid p p') by done. rewrite Hpr in Ha. lia.
Qed.

Lemma slots_new (w : Mgr) c s id : c = controller (world w) →
  slots_kept w (set_world (Hub.mkWorld c (hubs (world w) ++ [hub_new s id])) w).
Proof.
  intros ->. unfold slots_kept, accounted, free_slots. cbn. split; [|done].
  assert (∀ hs : list (Hub S O C), held (hs ++ [hub_new s id]) = held hs) as ->; [|done].
  induction hs as [|h hs IH]; [done|]. cbn. rewrite !held_cons, IH. done.
Qed.

Ltac slots Hp :=
  eapply slots_proc; [exact Hp | reflexivity | reflexivity | split; [reflexivity | exact (λ h, h)]].

Lemma slots_create pid p (x : Input X) (w w' : Mgr) : procs w !! pid = Some p → create_step pid p x w = Some w' →
  slots_kept w w'.
Proof.
  intros Hp E.
  assert (∀ k a v p' v', on_hub k a w = Some v → pays p' = pays p → world v' = world v → procs v' = procs v →
    slots_kept w (set_proc pid p' v')) as Hhub.
  { intros k a v p' v' Eh Hpay Hwd Hpr. destruct (slots_on_hub _ _ _ _ Eh) as [[Ha Hf] Hv].
    eapply slots_proc; [exact Hp | done | by rewrite Hpr |]. unfold slots_kept, accounted, free_slots in *. by rewrite Hwd, Hpr. }
  destruct p as [a|a|a|b|b|b|b|b r|b|b|q|ids|q ids|r|]; cbn in E; try done.
  - destruct (Controller.try_acquire _) as [c|] eqn:Ec; injection E as <-; [|slots Hp].
    destruct (Controller.acquire_some _ _ Ec) as (A1 & A2 & A3).
    unfold slots_kept, accounted, free_slots. cbn. rewrite (sum_set pid _ _ _ Hp). cbn. lia.
  - destruct (streams w !! a_id a); injection E as <-; [by eapply slots_end | slots Hp].
  - destruct (build_source (x_env x) a) as [[s sub]|e| |]; injection E as <-; [|by eapply slots_end..].
    eapply slots_proc; [exact Hp | done | done | by apply slots_new].
  - destruct (a_server (b_args b)); [|injection E as <-; slots Hp].
    destruct (on_hub _ _ w) as [v|] eqn:Eh; [|done]. injection E as <-. by eapply Hhub.
  - destruct (b_sub b); [destruct (a_server (b_args b))|]; injection E as <-; slots Hp.
  - destruct (push_target (x_row x)) as [url|]; [destruct (x_started x)|]; [|injection E as <-; slots Hp..].
    destruct (on_hub _ _ w) as [v|] eqn:Eh; [|done]. injection E as <-. by eapply Hhub.
  - destruct (recording_asked (x_row x)); injection E as <-; slots Hp.
  - destruct (x_started x); [|injection E as <-; slots Hp].
    destruct (on_hub _ _ w) as [v|] eqn:Eh; [|done]. injection E as <-. by eapply Hhub.
  - destruct (on_hub _ _ w) as [v|] eqn:Eh; [|done]. cbn in E.
    destruct (hubs (world v) !! b_hub b) as [h|] eqn:Ek; [|done]. cbn in E.
    destruct (run_phase h); injection E as <-; [by eapply slots_on_hub..|by eapply Hhub].
  - injection E as <-. unfold store_handle, finish_create. eapply slots_end; [exact Hp | done | done | |].
    + destruct (streams w !! _); [|done]. cbn. by destruct (signal_rest (h_hub s) w) as (_ & _ & Hpr & _).
    + destruct (streams w !! _); [|done]. destruct (signal_rest (h_hub s) w) as (Hw & _ & Hpr & _).
      unfold slots_kept, accounted, free_slots. cbn. by rewrite Hw, Hpr.
Qed.

Lemma stop_step_world q (x : Input X) (w v : Mgr) r : stop_step q x w = Some (v, r) →
  world v = world w ∧ procs v = procs w.
Proof.
  destruct q as [id|id h|id h [|m ms]|id h]; cbn; intros E.
  - by destruct (streams w !! id); injection E as <- _.
  - by injection E as <- _.
  - injection E as <- _. by destruct (signal_rest (h_hub h) w) as (-> & _ & -> & _).
  - by injection E as <- _.
  - destruct (hubs (world w) !! h_hub h); [|done]. cbn in E. by destruct (_ || _); [injection E as <- _|].
Qed.

Lemma slots_stop pid p q (x : Input X) p' (w v : Mgr) r : procs w !! pid = Some p → stop_step q x w = Some (v, r) →
  pays p' = pays p → slots_kept w (set_proc pid p' v).
Proof.
  intros Hp [Hw Hpr]%stop_step_world Hpay. eapply slots_proc; [exact Hp | done | done |].
  unfold slots_kept, accounted, free_slots. by rewrite Hw, Hpr.
Qed.

Lemma slots_fresh pid p (w : Mgr) : procs w !! pid = None → pays p = 0 → slots_kept w (set_proc pid p w).
Proof. intros Hp Hpay. unfold slots_kept, accounted, free_slots. cbn. rewrite sum_values_fresh by done. lia. Qed.

Lemma slots_cancel pid p (w : Mgr) : procs w !! pid = Some p → slots_kept w (cancel pid p w).
Proof.
  intros Hp. unfold cancel. destruct (has_permit p) eqn:Eh.
  - assert (set_proc pid PGone (match proc_hub p with Some k => signal k (release_permit w) | None => release_permit w end)
      = set_proc pid PGone (release_permit (match proc_hub p with Some k => signal k w | None => w end))) as ->.
    { destruct (proc_hub p) as [k|]; [|done]. unfold signal. cbn. by destruct (monitors w !! k) as [[]|]. }
    destruct (proc_hub p) as [k|]; (eapply slots_end; [exact Hp | unfold pays; by rewrite Eh | done | |]); try done.
    + by destruct (signal_rest k w) as (_ & _ & -> & _).
    + destruct (signal_rest k w) as (Hw & _ & Hpr & _). unfold slots_kept, accounted, free_slots. by rewrite Hw, Hpr.
  - destruct (proc_hub p) as [k|]; (eapply slots_proc; [exact Hp | unfold pays; by rewrite Eh | |]); try done.
    + by destruct (signal_rest k w) as (_ & _ & -> & _).
    + destruct (signal_rest k w) as (Hw & _ & Hpr & _). unfold slots_kept, accounted, free_slots. by rewrite Hw, Hpr.
Qed.

Lemma slots_step (w : Mgr) e w' : mstep w e = Some w' → slots_kept w w'.
Proof.
  intros E. destruct e as [pid a|pid id|pid|pid x|pid|k|k a|k t a|id u o|id u|path sps pps]; cbn in E.
  1-3: destruct (procs w !! pid) eqn:Hp; [done|]; injection E as <-; by apply slots_fresh.
  - destruct (procs w !! pid) as [p|] eqn:Hp; [|done]. cbn in E.
    destruct p as [a|a|a|b|b|b|b|b r|b|b|q|[|id ids]|q ids|r|]; try (by eapply (slots_create pid _ x)); cbn in E.
    + destruct (stop_step q x w) as [[v r]|] eqn:Eq; [|done]. injection E as <-.
      eapply slots_stop; [exact Hp | exact Eq | by destruct r].
    + injection E as <-. slots Hp.
    + injection E as <-. slots Hp.
    + destruct (stop_step q x w) as [[v r]|] eqn:Eq; [|done]. injection E as <-.
      eapply slots_stop; [exact Hp | exact Eq | by destruct r].
  - destruct (procs w !! pid) as [p|] eqn:Hp; [|done]. cbn in E.
    assert (w' = cancel pid p w) as -> by (by destruct p; simplify_eq). by apply slots_cancel.
  - destruct (monitors w !! k) as [[]|]; try done. destruct (on_hub k Stop w) as [v|] eqn:Eh; [|done].
    cbn in E. injection E as <-. by destruct (slots_on_hub _ _ _ _ Eh).
  - by eapply slots_on_hub.
  - by eapply slots_on_hub.
  - destruct (streams w !! id); [|done]. by eapply slots_on_hub.
  - destruct (streams w !! id); [|done]. by eapply slots_on_hub.
  - by injection E as <-.
Qed.

(** ** The invariant of the manager *)
Lemma reachable_manager max host (w0 w : Mgr) : 0 < max ≤ MAX_PERMITS → mgr_new max host = Ok w0 → mreachable w0 w →
  owned w ∧ accounted w = max ∧ 0 ≤ free_slots w.
Proof.
  intros Hmax Hnew Hr. assert (owned w0 ∧ accounted w0 = max ∧ 0 ≤ free_slots w0) as H0'.
  { unfold mgr_new, Controller.new in Hnew. rewrite (proj2 (Z.ltb_lt 0 max)) in Hnew by lia.
    cbn in Hnew. injection Hnew as <-. unfold accounted, free_slots, Controller.available_permits. cbn.
    rewrite sem_new_available, sum_values_empty by lia. unfold held. cbn. split; [|lia].
    intros k. cbn. split; [done|]. by intros []. }
  induction Hr as [|w e w' _ (I1 & I2 & I3) E]; [done|].
  split; [by eapply owned_step|]. destruct (slots_step _ _ _ E) as [-> Hf]. split; [done|]. by apply Hf.
Qed.
End permits.

(** C3 Every pipeline has a keeper: at every moment, however the calls to
    create, stop and shut down overlap, fail or are dropped, the streams of the
    table are served by different pipelines, each completely started and none
    told to stop; and a pipeline that neither the table nor a call in progress
    holds was never started, is stopped, or its monitor is about to stop it, so
    that no pipeline runs on unreachable.  The free slots, those held by
    pipelines while they start and those held by create calls always add up to
    the limit. *)
Theorem pipelines_owned {S O C Sem X : Type} `{Source S} `{Output O} `{Broadcast C} `{SemaphoreLaws Sem} `{Parts S O X}
    max host (w0 w : Mgr S O C Sem) :
  0 < max ≤ MAX_PERMITS → mgr_new max host = Ok w0 → mreachable w0 w →
  (∀ id h, streams w !! id = Some h →
     (∃ hub, hubs (world w) !! h_hub h = Some hub ∧ run_phase hub = RunDone ∧ stopped hub = false)
     ∧ ∀ id' h', streams w !! id' = Some h' → h_hub h' = h_hub h → id' = id)
  ∧ (∀ k hub, hubs (world w) !! k = Some hub →
       (∀ id h, streams w !! id = Some h → h_hub h ≠ k) →
       (∀ pid p, procs w !! pid = Some p → proc_hub p ≠ Some k) →
       never_run hub ∨ stopped hub = true
       ∨ ∃ w' hub', mstep w (MonitorStops k) = Some w' ∧ hubs (world w') !! k = Some hub' ∧ stopped hub' = true)
  ∧ free_slots w + held (hubs (world w)) + sum_values pays (procs w) = max ∧ 0 ≤ free_slots w.
Proof.
  intros Hmax Hnew Hr. destruct (reachable_manager max host w0 w Hmax Hnew Hr) as (Hw & Hacc & Hfree).
  split; [|split; [|done]].
  - intros id h Hid. assert (stage w (ById id) = Some (h_hub h, Ready)) as Hst by (cbn; by rewrite Hid).
    destruct (owner_hub w _ _ _ Hw Hst) as (hub & Hk & Hs & [Hm Hrun] & Hu). split.
    + exists hub. split; [done|]. split; [done|]. destruct (stopped hub) eqn:Es; [|done].
      rewrite Hm in Hs. by discriminate (proj1 Hs eq_refl).
    + intros id' h' Hid' Heq. specialize (Hu (ById id') Ready). cbn in Hu. rewrite Hid', <-Heq in Hu.
      specialize (Hu eq_refl). congruence.
  - intros k hub Hk Hno Hnop. pose proof (Hw k) as Hl. rewrite Hk in Hl. unfold local in Hl.
    destruct Hl as [Hs [[_ Hab] | ([id|pid] & s & Ho & _)]].
    + unfold abandoned in Hab. destruct (monitors w !! k) as [[| |]|] eqn:Em; [done | | |by left].
      * right. right. cbn. rewrite Em. unfold on_hub, world_step. rewrite Hk. cbn. do 2 eexists. split; [done|].
        cbn. rewrite list_lookup_insert_eq by (by eapply lookup_lt_Some). by split.
      * right. left. by apply Hs.
    + cbn in Ho. destruct (streams w !! id) as [h|] eqn:Eh; [|done]. injection Ho as Hk' _. by destruct (Hno id h).
    + cbn in Ho. destruct (procs w !! pid) as [p|] eqn:Ep; [|done]. cbn in Ho. unfold proc_stage in Ho.
      destruct (proc_hub p) as [k'|] eqn:Ek; [|done]. cbn in Ho. injection Ho as -> _. by destruct (Hnop pid p).
Qed.

(** ** A call that stops a stream *)
Section stopping.
Context {S O C Sem X : Type} `{Source S} `{Output O} `{Broadcast C} `{SemaphoreLaws Sem} `{Parts S O X}.
Notation Mgr := (Mgr S O C Sem).

Lemma mrun_app (w : Mgr) es es' : mrun w (es ++ es') = (w ← mrun w es; mrun w es').
Proof. revert w. induction es as [|e es IH]; intros w; cbn; [done|]. destruct (mstep w e); cbn; [apply IH | done]. Qed.

Lemma stop_mounts pid id h ms (x : Input X) (w : Mgr) :
  procs w !! pid = Some (PStop (SMounts id h ms)) →
  ∃ w', mrun w (replicate (length ms) (Advance pid x)) = Some w'
    ∧ procs w' !! pid = Some (PStop (SMounts id h []))
    ∧ streams w' = streams w ∧ slots w' = slots w ∧ world w' = world w ∧ monitors w' = monitors w
    ∧ live w' = foldl (λ l m, (unregister_live_stream l m).1) (live w) ms.
Proof.
  revert w. induction ms as [|m ms IH]; intros w Hp; [by exists w|]. cbn. rewrite Hp. cbn.
  destruct (IH (set_proc pid (PStop (SMounts id h ms)) (set_live (unregister_live_stream (live w) m).1 w)))
    as (w' & E & Hp' & Hr); [cbn; by rewrite lookup_insert_eq|].
  exists w'. split; [exact E|]. split; [done|]. exact Hr.
Qed.

(** Left to itself the call ends, at the latest with its timeout. *)
Lemma stop_runs pid id h (x : Input X) (w : Mgr) : owned w → x_timeout x = true →
  procs w !! pid = Some (PStop (SRemove id)) → streams w !! id = Some h →
  ∃ w', mrun w (replicate (2 + length (h_mounts h) + 2) (Advance pid x)) = Some w'
    ∧ procs w' !! pid = Some (PDone (Ok (mkInfo id (h_rtsp h) (h_rtmp h) StStopped)))
    ∧ streams w' = delete id (streams w) ∧ slots w' = delete id (slots w)
    ∧ live w' = foldl (λ l m, (unregister_live_stream l m).1) (live w) (h_mounts h)
    ∧ world w' = world w ∧ monitors w' !! h_hub h = Some Signalled.
Proof.
  intros Hw Hx Hp Hid. rewrite !replicate_add, !mrun_app.
  destruct (owner_hub w (ById id) (h_hub h) Ready Hw) as (hub & Hk & _ & [Hm _] & _); [cbn; by rewrite Hid|].
  set (v := set_proc pid (PStop (SMounts id h (h_mounts h))) (set_slots (delete id (slots w))
    (set_proc pid (PStop (SSlots id h)) (set_streams (delete id (streams w)) w)))).
  assert (mrun w (replicate 2 (Advance pid x)) = Some v) as ->.
  { cbn. rewrite Hp. cbn. rewrite Hid. cbn. rewrite lookup_insert_eq. done. }
  cbn [mbind option_bind].
  destruct (stop_mounts pid id h (h_mounts h) x v) as (w' & -> & Hp' & Hs & Hsl & Hwd & Hmon & Hl);
    [cbn; by rewrite lookup_insert_eq|].
  cbn. rewrite Hp'. cbn. rewrite lookup_insert_eq. cbn.
  destruct (signal_rest (h_hub h) w') as (Sw & Ss & _ & Sl & Sslots & _). rewrite Sw, Hwd. cbn. rewrite Hk. cbn.
  rewrite Hx, orb_true_r. eexists. split; [reflexivity|]. cbn. rewrite lookup_insert_eq, Ss, Sslots, Sl, Sw, Hs, Hsl, Hwd, Hl.
  split_and!; try done. rewrite signal_self, Hmon. cbn. by rewrite Hm.
Qed.
End stopping.

(** C20 [stop_stream] of a tracked stream, run without other calls in between,
    always comes back with its description marked stopped, at the latest when
    its wait times out: the stream is out of the table, its segment slot and
    all its mounts are gone, and its pipeline is told to stop, which the step
    of its monitor does; of an unknown one it fails and changes nothing. *)
Theorem stop_stream_complete {S O C Sem X : Type} `{Source S} `{Output O} `{Broadcast C} `{SemaphoreLaws Sem}
    `{Parts S O X} max host (w0 w : Mgr S O C Sem) pid id (x : Input X) :
  0 < max ≤ MAX_PERMITS → mgr_new max host = Ok w0 → mreachable w0 w → x_timeout x = true → procs w !! pid = None →
  match streams w !! id with
  | Some h =>
      ∃ w' w'' hub, mrun w (CallStop pid id :: replicate (2 + length (h_mounts h) + 2) (Advance pid x)) = Some w'
        ∧ procs w' !! pid = Some (PDone (Ok (mkInfo id (h_rtsp h) (h_rtmp h) StStopped)))
        ∧ streams w' = delete id (streams w) ∧ slots w' = delete id (slots w)
        ∧ (∀ p e, (p, e) ∈ live w' ↔ (p, e) ∈ live w ∧ p ∉ h_mounts h)
        ∧ mstep w' (MonitorStops (h_hub h)) = Some w''
        ∧ hubs (world w'') !! h_hub h = Some hub ∧ stopped hub = true
  | None =>
      mrun w [CallStop pid id; Advance pid x] = Some (set_proc pid (PDone (Err "no active stream for camera "))
        (set_proc pid (PStop (SRemove id)) w))
  end.
Proof.
  intros Hmax Hnew Hr Hx Hp. destruct (reachable_manager max host w0 w Hmax Hnew Hr) as (Hw & _).
  destruct (streams w !! id) as [h|] eqn:Hid.
  - destruct (stop_runs pid id h x (set_proc pid (PStop (SRemove id)) w))
      as (w' & E & Hdone & Hs & Hsl & Hl & Hwd & Hm); [by apply owned_fresh | done | cbn; by rewrite lookup_insert_eq | done |].
    assert (is_Some (hubs (world w) !! h_hub h)) as [hub Hk].
    { destruct (owner_hub w (ById id) (h_hub h) Ready Hw) as (hub & Hk & _); [cbn; by rewrite Hid|]. by exists hub. }
    eexists w', _, _. split; [cbn; rewrite Hp; exact E|]. split; [done|]. split; [done|]. split; [done|].
    split; [|split].
    + intros p e. rewrite Hl. cbn [live set_proc]. clear. generalize (live w) as l.
      induction (h_mounts h) as [|m ms IH]; intros l; cbn; [set_solver|].
      rewrite IH. unfold map_remove. rewrite !list_elem_of_In, filter_In. cbn.
      destruct (bytes_eqb p m) eqn:Em; cbn.
      * apply bytes_eqb_eq in Em. subst. set_solver.
      * assert (p ≠ m) by (intros ->; by rewrite bytes_eqb_refl in Em). set_solver.
    + cbn. rewrite Hm. unfold on_hub, world_step. rewrite Hwd. cbn. rewrite Hk. cbn. reflexivity.
    + cbn. rewrite list_lookup_insert_eq by (by eapply lookup_lt_Some). by split.
  - cbn. rewrite Hp. cbn. rewrite lookup_insert_eq. cbn. by rewrite Hid.
Qed.

(** ** A concrete manager *)
#[local] Instance recorder : Output (list MediaFrame) := {
  output_start := st_ret tt;
  send_frame f := st_modify (.++ [f]);
  output_stop := st_ret tt;
}.

#[local] Instance sample_parts : Parts MockSource (list MediaFrame) () := {
  scripted fs := mock_new fs;
  usb _ _ := Err "no device";
  rtsp_output _ _ _ _ := [];
  rtmp_output _ := [];
  file_output _ _ _ := [];
}.

Definition sample_mgr : Mgr MockSource (list MediaFrame) LogChannel Z :=
  match mgr_new 1 (lit "host") with Ok w => w | _ => mkMgr (Hub.mkWorld (Controller.mkController 0 0) []) ∅ [] ∅ ∅ ∅ [] end.
Definition sample_input (uuid : Z) : Input () := mkInput () uuid 1 None true false.
Definition sample_args (id : String.string) : CreateArgs := mkArgs (lit id) (lit "test") (VObject []) true.
Definition sample_create (pid : Z) (id : String.string) (uuid : Z) : list (Event (list MediaFrame) ()) :=
  CallCreate pid (sample_args id) :: replicate 12 (Advance pid (sample_input uuid)).
Definition sample_stop (pid : Z) (id : String.string) (n : nat) : list (Event (list MediaFrame) ()) :=
  CallStop pid (lit id) :: replicate n (Advance pid (sample_input 0)).

Lemma mrun_reachable {S O C Sem X : Type} `{Source S} `{Output O} `{Broadcast C} `{Semaphore Sem} `{Parts S O X}
    es (w0 w w' : Mgr S O C Sem) : mreachable w0 w → mrun w es = Some w' → mreachable w0 w'.
Proof.
  revert w. induction es as [|e es IH]; intros w Hr E; cbn in E; [by injection E as <-|].
  destruct (mstep w e) as [v|] eqn:Ev; [|done]. by apply (IH v); [eapply mreach_step|].
Qed.

(** Two streams with a single slot; the call that stops the first one is
    dropped while it waits. *)
Definition sample_events : list (Event (list MediaFrame) ()) :=
  sample_create 1 "a" 7 ++ sample_create 2 "b" 8 ++ sample_stop 3 "a" 4 ++ [Cancel 3].
Definition sample_late : Mgr MockSource (list MediaFrame) LogChannel Z :=
  default sample_mgr (mrun sample_mgr sample_events).

Lemma pipelines_owned_witness :
  (∃ h, streams sample_late !! lit "b" = Some h ∧ ∃ hub, hubs (world sample_late) !! h_hub h = Some hub
     ∧ run_phase hub = RunDone ∧ stopped hub = false)
  ∧ (∃ hub, hubs (world sample_late) !! 0%nat = Some hub
     ∧ (never_run hub ∨ stopped hub = true
        ∨ ∃ w' hub', mstep sample_late (MonitorStops 0) = Some w' ∧ hubs (world w') !! 0%nat = Some hub' ∧ stopped hub' = true))
  ∧ free_slots sample_late + held (hubs (world sample_late)) + sum_values pays (procs sample_late) = 1.
Proof.
  assert (mreachable sample_mgr sample_late) as Hr.
  { apply (mrun_reachable sample_events _ sample_mgr); [apply mreach_start|]. vm_compute. reflexivity. }
  destruct (pipelines_owned 1 (lit "host") sample_mgr sample_late) as (Ht & Ho & Hs & _);
    [vm_compute; by split | reflexivity | exact Hr |].
  split; [|split; [|exact Hs]].
  - assert (is_Some (streams sample_late !! lit "b")) as [h Hh] by (vm_compute; by eexists).
    exists h. split; [exact Hh|]. apply (Ht _ _ Hh).
  - assert (is_Some (hubs (world sample_late) !! 0%nat)) as [hub Hh] by (vm_compute; by eexists).
    exists hub. split; [exact Hh|]. apply (Ho 0%nat hub Hh).
    + apply (bool_decide_unpack (map_Forall (λ _ h, h_hub h ≠ 0%nat) (streams sample_late))). vm_compute. exact I.
    + apply (bool_decide_unpack (map_Forall (λ _ p, proc_hub p ≠ Some 0%nat) (procs sample_late))). vm_compute. exact I.
Defined.

Definition sample_one : Mgr MockSource (list MediaFrame) LogChannel Z :=
  default sample_mgr (mrun sample_mgr (sample_create 1 "a" 7)).

Lemma stop_stream_complete_witness :
  ∃ w' w'' hub,
    mrun sample_one (CallStop 9 (lit "a") :: replicate 5 (Advance 9 (mkInput () 0 1 None true true))) = Some w'
    ∧ streams w' = delete (lit "a") (streams sample_one)
    ∧ (∀ p e, (p, e) ∈ live w' ↔ (p, e) ∈ live sample_one ∧ p ∉ [lit "live/a"])
    ∧ mstep w' (MonitorStops 0) = Some w'' ∧ hubs (world w'') !! 0%nat = Some hub ∧ stopped hub = true.
Proof.
  assert (mreachable sample_mgr sample_one) as Hr.
  { apply (mrun_reachable (sample_create 1 "a" 7) _ sample_mgr); [apply mreach_start|]. vm_compute. reflexivity. }
  pose proof (stop_stream_complete 1 (lit "host") sample_mgr sample_one 9 (lit "a") (mkInput () 0 1 None true true)) as Ht.
  assert (streams sample_one !! lit "a" = Some (mkHandle 0 (Some (lit "rtsp://host:8554/live/a")) None None
    [lit "live/a"] StRunning)) as Es by (vm_compute; reflexivity).
  rewrite Es in Ht. destruct Ht as (w' & w'' & hub & H1 & _ & H2 & _ & H3 & H4 & H5 & H6);
    [vm_compute; by split | reflexivity | exact Hr | reflexivity | vm_compute; reflexivity |].
  exists w', w'', hub. split; [exact H1|]. split; [exact H2|]. split; [exact H3|]. split; [exact H4|]. split; [exact H5 | exact H6].
Defined.

(** *** What overlapping calls leave behind *)
Definition go (pid : Z) (uuid : Z) (n : nat) : list (Event (list MediaFrame) ()) :=
  replicate n (Advance pid (sample_input uuid)).

(** What a state shows: the table, the monitors of the pipelines, the mounts with
    their channels, the segment slots. *)
Definition shown (w : Mgr MockSource (list MediaFrame) LogChannel Z) :
    list (bytes * nat) * list (nat * MonState) * list (bytes * nat) * list bytes :=
  (List.map (λ kv, (kv.1, h_hub kv.2)) (map_to_list (streams w)),
   omap (λ k, pair k <$> monitors w !! k) (List.seq 0 (length (hubs (world w)))),
   List.map (λ kv, (kv.1, frame_tx kv.2)) (live w), (map_to_list (slots w)).*1).

Definition sample_two : Mgr MockSource (list MediaFrame) LogChannel Z :=
  match mgr_new 2 (lit "host") with Ok w => w | _ => sample_mgr end.

Definition sample_recording (uuid : Z) : Input () :=
  mkInput () uuid 1 (Some (Some (VObject [(lit "enabled", VBool true)]))) true false.

(** Two calls that create the same camera at the same time both get past the
    guard: the one that stores last is tracked, the other is told to stop, but
    the mount of the camera is the one that was registered last. *)
Lemma overlapping_creates :
  shown <$> mrun sample_two
    ([CallCreate 1 (sample_args "a"); CallCreate 2 (sample_args "a")] ++ go 1 7 2 ++ go 2 8 2
     ++ go 1 7 2 ++ go 2 8 10 ++ go 1 7 8)
  = Some ([(lit "a", 0%nat)], [(0%nat, Watching); (1%nat, Signalled)], [(lit "live/a", main_tx 1)], []).
Proof. vm_compute. reflexivity. Qed.

(** A camera created again while its stop is under way keeps a stream without
    mount. *)
Lemma stop_recreate :
  shown <$> mrun sample_mgr
    (sample_create 1 "a" 7 ++ sample_stop 2 "a" 1 ++ sample_create 3 "a" 8 ++ go 2 0 3)
  = Some ([(lit "a", 1%nat)], [(0%nat, Signalled); (1%nat, Watching)], [], []).
Proof. vm_compute. reflexivity. Qed.

(** A call dropped while it builds the stream leaves its mount and its slot. *)
Lemma cancelled_create :
  shown <$> mrun sample_mgr
    (CallCreate 1 (sample_args "a") :: go 1 7 6 ++ [Advance 1 (sample_recording 7); Cancel 1])
  = Some ([], [], [(lit "live/a", main_tx 0)], [lit "a"]).
Proof. vm_compute. reflexivity. Qed.
