(* ===== verification/Listen.v ===== *)
(** * The listening engine ([crates/streaming/src/voice/mod.rs])

    The worker that turns chunks of the microphone into transcripts: wake
    word, capture, follow-up windows, the mute during playback, and the
    registry of speakers with its enrollment sessions.  The worker is cut at
    every access to what it shares with the host (three atomics and the
    registry), so that calls of the host fall anywhere between them.  The
    models are the classes below. *)
From Stdlib Require Import ZArith Lia List Bool String Floats.SpecFloat.
From stdpp Require Import base option list numbers gmap.
From S2P Require Import Prelude Text F32.

(** ** The models *)
Abbreviation Wave := (list f32).

(** The detector of voice activity: completed segments wait in a queue. *)
Class Vad (V : Type) := {
  vad_accept : Wave → V → V; vad_front : V → option Wave; vad_pop : V → V;
  vad_waiting : V → nat; vad_detected : V → bool; vad_clear : V → V; vad_reset : V → V;
}.
Class VadLaws (V : Type) `{Vad V} := {
  vad_front_waiting v : vad_front v = None ↔ vad_waiting v = 0%nat;
  vad_pop_waiting v : vad_waiting (vad_pop v) = pred (vad_waiting v);
}.

(** The keyword spotter with its stream: audio waits until it is decoded. *)
Class Kws (K : Type) := {
  kws_accept : Wave → K → K; kws_ready : K → bool; kws_decode : K → K;
  kws_backlog : K → nat; kws_result : K → option bytes; kws_reset : K → K;
}.
Class KwsLaws (K : Type) `{Kws K} := {
  kws_decode_backlog k : kws_ready k = true → (kws_backlog (kws_decode k) < kws_backlog k)%nat;
}.

(** The table of voiceprints. *)
Class Speakers (M : Type) := {
  mgr_create : Z → option M; mgr_add : bytes → list Wave → M → M * bool; mgr_search : Wave → f32 → M → option bytes;
  mgr_remove : bytes → M → M * bool; mgr_all : M → list bytes;
}.
Class SpeakersLaws (M : Type) `{Speakers M} := {
  mgr_create_empty dim m : mgr_create dim = Some m → mgr_all m = [];
  mgr_add_known name embs m : name ∈ mgr_all m → mgr_add name embs m = (m, false);
  mgr_add_all name embs m m' b :
    mgr_add name embs m = (m', b) → ∀ n, n ∈ mgr_all m' ↔ n ∈ mgr_all m ∨ b = true ∧ n = name;
  mgr_remove_all name m m' b : mgr_remove name m = (m', b) → ∀ n, n ∈ mgr_all m' ↔ n ∈ mgr_all m ∧ n ≠ name;
  mgr_search_known e t m n : mgr_search e t m = Some n → n ∈ mgr_all m;
}.
Definition mgr_contains {M} `{Speakers M} (name : bytes) (m : M) : bool := bool_decide (name ∈ mgr_all m).

(** ** Configuration *)
Record VoiceConfig := mkVoice {
  capture_secs : Z; speaker_verify : bool; speaker_threshold : f32; verify_window_secs : f32; barge_in : bytes;
}.

(** [x as usize] truncates and saturates. *)
Definition mag_trunc (m : positive) (e : Z) : Z := if 0 <=? e then Z.pos m * 2 ^ e else Z.pos m / 2 ^ (- e).
Definition trunc_as (top : Z) (x : f32) : Z :=
  match x with
  | S754_finite false m e => Z.min (mag_trunc m e) top
  | S754_infinity false => top
  | _ => 0
  end.

Definition TARGET_RATE : Z := 16000.
Definition ring_cap (c : VoiceConfig) : Z :=
  Z.max (trunc_as usize_max (f32_mul (f32_max (verify_window_secs c) (f32_of_Z 1)) (f32_of_Z TARGET_RATE))) 16000.

Definition CAPTURE_HEADROOM_SECS : Z := 6.
Definition MIN_SPEECH_SAMPLES : Z := 16000 * 6 / 5.

(** Instants and clocks are in milliseconds. *)
Definition secs (n : Z) : Z := n * 1000.
Definition capture_window (c : VoiceConfig) : Z := secs (Z.max (capture_secs c) 1).

(** [s as f32 / 32_768.0] *)
Definition sample_f32 (s : Z) : f32 := f32_div (f32_of_Z s) (f32_of_Z 32768).

(** ** The ring of recent samples *)
Record SampleRing := mkRing { buf : Wave; cap : Z }.
Definition ring_new (n : Z) : SampleRing := mkRing [] (Z.max n 1).
Definition ring_push (samples : Wave) (r : SampleRing) : SampleRing :=
  let b := buf r ++ samples in
  let overflow := Z.max 0 (zlen b - cap r) in
  mkRing (drop (Z.to_nat overflow) b) (cap r).
Definition snapshot (r : SampleRing) : Wave := buf r.

(** ** Events *)
Record VoiceEvent := mkEvent {
  ev_keyword : bytes; ev_transcript : bytes; ev_timestamp : Z; ev_speaker : bytes; ev_follow_up : bool;
}.

(** ** The registry of speakers *)
Record EnrollmentSession := mkSession { s_name : bytes; s_needed : Z; s_embeddings : list Wave }.

Definition enrollment_accepts (s : EnrollmentSession) : bool := zlen (s_embeddings s) <? s_needed s.
Definition wake_gate_allows (verify_armed : bool) (matched : option bytes) : bool :=
  negb verify_armed || bool_decide (is_Some matched).

Section registry.
Context {M : Type} `{Speakers M}.

Record SpeakerRegistry := mkRegistry { dim : Z; manager : option M; enrollment : option EnrollmentSession }.

Definition registry_new (d : Z) : SpeakerRegistry := mkRegistry d None None.
Definition set_manager (m : option M) (r : SpeakerRegistry) : SpeakerRegistry := mkRegistry (dim r) m (enrollment r).
Definition set_enrollment (s : option EnrollmentSession) (r : SpeakerRegistry) : SpeakerRegistry :=
  mkRegistry (dim r) (manager r) s.

(** [SpeakerRegistry::manager] creates the table on its first use. *)
Definition get_manager (r : SpeakerRegistry) : option M :=
  if dim r <=? 0 then None
  else match manager r with Some m => Some m | None => mgr_create (dim r) end.

(** [reg.manager().is_some_and(|m| m.add_list(name, embeddings))] *)
Definition register (name : bytes) (embs : list Wave) (r : SpeakerRegistry) : SpeakerRegistry * bool :=
  match get_manager r with
  | None => (r, false)
  | Some m => let '(m, b) := mgr_add name embs m in (set_manager (Some m) r, b)
  end.

Fixpoint load_loop (profiles : list (bytes * list Wave)) (loaded : Z) (r : SpeakerRegistry) : SpeakerRegistry * Z :=
  match profiles with
  | [] => (r, loaded)
  | (name, embs) :: ps =>
      match embs with
      | [] => load_loop ps loaded r
      | e :: _ =>
          if zlen (concat embs) =? 0 then load_loop ps loaded r
          else
            let d := zlen e in
            let r := if dim r =? 0 then mkRegistry d (manager r) (enrollment r) else r in
            if negb (d =? dim r) then load_loop ps loaded r
            else let '(r, b) := register name embs r in load_loop ps (if b then loaded + 1 else loaded) r
      end
  end.
Definition load_speakers (capable : bool) (profiles : list (bytes * list Wave)) (r : SpeakerRegistry) : SpeakerRegistry * Z :=
  if capable then load_loop profiles 0 r else (r, 0).

Definition list_speakers (r : SpeakerRegistry) : list bytes := match manager r with Some m => mgr_all m | None => [] end.
Definition remove_speaker (name : bytes) (r : SpeakerRegistry) : SpeakerRegistry * bool :=
  match manager r with
  | Some m => let '(m, b) := mgr_remove name m in (set_manager (Some m) r, b)
  | None => (r, false)
  end.

Definition begin_enrollment (capable : bool) (name : bytes) (needed : Z) (r : SpeakerRegistry)
    : SpeakerRegistry * Res unit :=
  if negb capable then (r, Err "speaker model unavailable (voice.speaker_embedding_model)")
  else if bytes_eqb (trim name) [] || (32 <? zlen name) then (r, Err "speaker name must be 1..=32 bytes")
  else if negb ((1 <=? needed) && (needed <=? 10)) then (r, Err "utterances must be 1..=10")
  else if bool_decide (is_Some (enrollment r)) then (r, Err "an enrollment session is already in progress")
  else if match manager r with Some m => mgr_contains name m | None => false end then (r, Err "speaker already enrolled")
  else (set_enrollment (Some (mkSession (trim name) needed [])) r, Ok tt).

Definition enrollment_status (r : SpeakerRegistry) : option (bytes * Z * Z) :=
  s ← enrollment r; Some (s_name s, zlen (s_embeddings s), s_needed s).

Definition take_completed_enrollment (r : SpeakerRegistry) : SpeakerRegistry * option (bytes * list Wave) :=
  match enrollment r with
  | Some s =>
      if s_needed s <=? zlen (s_embeddings s) then
        let '(r, b) := register (s_name s) (s_embeddings s) (set_enrollment None r) in
        (r, if b then Some (s_name s, s_embeddings s) else None)
      else (r, None)
  | None => (r, None)
  end.

Definition cancel_enrollment (r : SpeakerRegistry) : SpeakerRegistry := set_enrollment None r.

(** A sample of the worker goes to the session there is. *)
Definition push_sample (emb : Wave) (r : SpeakerRegistry) : SpeakerRegistry :=
  match enrollment r with
  | Some s => set_enrollment (Some (mkSession (s_name s) (s_needed s) (s_embeddings s ++ [emb]))) r
  | None => r
  end.

Definition search (emb : Wave) (t : f32) (r : SpeakerRegistry) : option bytes := m ← manager r; mgr_search emb t m.
Definition num_speakers (r : SpeakerRegistry) : Z := match manager r with Some m => zlen (mgr_all m) | None => 0 end.
End registry.
Arguments SpeakerRegistry M : clear implicits.

(** ** The worker *)
Inductive Job := JFollow (w : Wave) | JCapture (keyword : bytes) (w : Wave).

(** Where the worker is within the chunk it works on: before the load of the
    mute, its reset, the load of the window, its reset, the next segment of
    the window, the capture and the wake word, and the three locks of the
    registry behind a wake word.  [km] says that the wake word is deaf. *)
Inductive Phase :=
  | Idle
  | AtMute (s : Wave)
  | AtUnmute (s : Wave)
  | AtFollow (s : Wave) (km : bool)
  | AtClose (s : Wave) (km : bool)
  | AtSegment (now : Z)
  | AtListen (s : Wave) (km : bool)
  | AtEnroll (k : bytes)
  | AtSample (emb : option Wave)
  | AtVerify (k : bytes)
  | AtSearch (k : bytes) (emb : option Wave)
  | AtOpen (k : bytes)
  | Ended.

(** What the worker does, for the statements below: a chunk received, a chunk
    dropped for the mute, audio given to a model or to the capture, a capture
    opened and closed, a segment taken. *)
Inductive Heard :=
  | HChunk (s : Wave)
  | HDeaf (s : Wave)
  | HKws (s : Wave)
  | HVad (s : Wave)
  | HCapture (s : Wave) (at_ : Z)
  | HOpen (k : bytes) (at_ : Z)
  | HTaken (k : bytes) (w : Wave)
  | HSegment (w : Wave).

Section worker.
Context {V K M : Type} `{Vad V} `{Kws K} `{Speakers M}.
Context (config : VoiceConfig) (transcribe : Wave → bytes) (embed : option (Wave → option Wave)).

Record Worker := mkWorker {
  vad : option V; capture_vad : option V; kws : K; captured : Wave; keyword_pending : option bytes;
  capture_deadline : Z; captured_speech : Z; ring : SampleRing; warned_no_profiles : bool; was_muted : bool;
  phase : Phase; capture_hard_cap : Z;
}.

Record World := mkWorld {
  follow_until : Z; follow_window : Z; mute_until : Z; registry : SpeakerRegistry M;
  worker : Worker; jobs : list Job; sent : list VoiceEvent; heard : list Heard;
}.

Definition set_follow_until (v : Z) (w : World) : World :=
  mkWorld v (follow_window w) (mute_until w) (registry w) (worker w) (jobs w) (sent w) (heard w).
Definition set_follow_window (v : Z) (w : World) : World :=
  mkWorld (follow_until w) v (mute_until w) (registry w) (worker w) (jobs w) (sent w) (heard w).
Definition set_mute_until (v : Z) (w : World) : World :=
  mkWorld (follow_until w) (follow_window w) v (registry w) (worker w) (jobs w) (sent w) (heard w).
Definition set_registry (v : SpeakerRegistry M) (w : World) : World :=
  mkWorld (follow_until w) (follow_window w) (mute_until w) v (worker w) (jobs w) (sent w) (heard w).
Definition set_worker (v : Worker) (w : World) : World :=
  mkWorld (follow_until w) (follow_window w) (mute_until w) (registry w) v (jobs w) (sent w) (heard w).
Definition spawn_job (j : Job) (w : World) : World :=
  mkWorld (follow_until w) (follow_window w) (mute_until w) (registry w) (worker w) (jobs w ++ [j]) (sent w) (heard w).
Definition hear (x : Heard) (w : World) : World :=
  mkWorld (follow_until w) (follow_window w) (mute_until w) (registry w) (worker w) (jobs w) (sent w) (x :: heard w).

Definition set_phase (p : Phase) (k : Worker) : Worker :=
  mkWorker (vad k) (capture_vad k) (kws k) (captured k) (keyword_pending k) (capture_deadline k) (captured_speech k)
    (ring k) (warned_no_profiles k) (was_muted k) p (capture_hard_cap k).
Definition set_was_muted (b : bool) (k : Worker) : Worker :=
  mkWorker (vad k) (capture_vad k) (kws k) (captured k) (keyword_pending k) (capture_deadline k) (captured_speech k)
    (ring k) (warned_no_profiles k) b (phase k) (capture_hard_cap k).
Definition set_ring (r : SampleRing) (k : Worker) : Worker :=
  mkWorker (vad k) (capture_vad k) (kws k) (captured k) (keyword_pending k) (capture_deadline k) (captured_speech k)
    r (warned_no_profiles k) (was_muted k) (phase k) (capture_hard_cap k).
Definition set_vads (v c : option V) (k : Worker) : Worker :=
  mkWorker v c (kws k) (captured k) (keyword_pending k) (capture_deadline k) (captured_speech k)
    (ring k) (warned_no_profiles k) (was_muted k) (phase k) (capture_hard_cap k).
Definition set_kws (s : K) (k : Worker) : Worker :=
  mkWorker (vad k) (capture_vad k) s (captured k) (keyword_pending k) (capture_deadline k) (captured_speech k)
    (ring k) (warned_no_profiles k) (was_muted k) (phase k) (capture_hard_cap k).
Definition set_captured (w : Wave) (k : Worker) : Worker :=
  mkWorker (vad k) (capture_vad k) (kws k) w (keyword_pending k) (capture_deadline k) (captured_speech k)
    (ring k) (warned_no_profiles k) (was_muted k) (phase k) (capture_hard_cap k).
Definition set_pending (p : option bytes) (deadline : Z) (k : Worker) : Worker :=
  mkWorker (vad k) (capture_vad k) (kws k) (captured k) p deadline (captured_speech k)
    (ring k) (warned_no_profiles k) (was_muted k) (phase k) (capture_hard_cap k).
Definition set_capture_vad (v : V) (deadline speech : Z) (k : Worker) : Worker :=
  mkWorker (vad k) (Some v) (kws k) (captured k) (keyword_pending k) deadline speech
    (ring k) (warned_no_profiles k) (was_muted k) (phase k) (capture_hard_cap k).
Definition set_warned (k : Worker) : Worker :=
  mkWorker (vad k) (capture_vad k) (kws k) (captured k) (keyword_pending k) (capture_deadline k) (captured_speech k)
    (ring k) true (was_muted k) (phase k) (capture_hard_cap k).

(** [spawn_worker] at an instant: the hard cap is computed once. *)
Definition worker_new (v c : option V) (k : K) (start : Z) : Worker :=
  mkWorker v c k [] None start 0 (ring_new (ring_cap config)) false false Idle
    (start + secs (Z.max (capture_secs config) 1 + CAPTURE_HEADROOM_SECS)).

Definition flush (v : V) : V := vad_reset (vad_clear v).

(** The loop over completed segments during a capture: the speech so far and
    whether a segment ends the capture. *)
Fixpoint drain (n : nat) (v : V) (speech : Z) (ended : bool) : V * Z * bool :=
  match n with
  | O => (v, speech, ended)
  | S n =>
      match vad_front v with
      | None => (v, speech, ended)
      | Some seg =>
          let speech := Z.min usize_max (speech + zlen seg) in
          drain n (vad_pop v) speech (ended || (8000 <=? zlen seg) && (MIN_SPEECH_SAMPLES <=? speech))
      end
  end.

Fixpoint decode_all (n : nat) (k : K) : K :=
  match n with
  | O => k
  | S n => if kws_ready k then decode_all n (kws_decode k) else k
  end.

(** What a step reads of the clocks: the time of day and two instants. *)
Record Now := mkNow { unix : Z; instant : Z; instant' : Z }.

(** The capture of one chunk: the deadline slides while there is speech. *)
Definition capture_chunk (t : Now) (s : Wave) (k : Worker) : Worker * bool :=
  let k := set_captured (captured k ++ s) k in
  match capture_vad k with
  | None => (k, false)
  | Some c =>
      let c := vad_accept s c in
      let deadline :=
        if vad_detected c && (capture_deadline k <? capture_hard_cap k)
        then Z.min (instant t + secs 1) (capture_hard_cap k) else capture_deadline k in
      let '(c, speech, ended) := drain (vad_waiting c) c (captured_speech k) false in
      (set_capture_vad c deadline speech k, ended)
  end.

Definition goto (p : Phase) (w : World) : World := set_worker (set_phase p (worker w)) w.

(** *** One step of the worker *)
Definition worker_step (t : Now) (w : World) : option World :=
  let k := worker w in
  match phase k with
  | Idle | Ended => None
  | AtMute s =>
      if 0 <? mute_until w then
        if mute_until w <=? unix t then Some (goto (AtUnmute s) w)
        else if bytes_eqb (barge_in config) (lit "aec") then
          Some (set_worker (set_phase (AtFollow s true) (set_was_muted true k)) w)
        else Some (hear (HDeaf s) (set_worker (set_phase Idle (set_was_muted true k)) w))
      else if was_muted k then
        Some (set_worker (set_phase (AtFollow s false)
                (set_vads (flush <$> vad k) (flush <$> capture_vad k) (set_was_muted false k))) w)
      else Some (goto (AtFollow s false) w)
  | AtUnmute s => Some (goto (AtFollow s false) (set_mute_until 0 w))
  | AtFollow s km =>
      match vad k with
      | Some v =>
          if 0 <? follow_until w then
            if follow_until w <=? unix t then Some (goto (AtClose s km) w)
            else Some (hear (HVad s) (set_worker (set_phase (AtSegment (unix t))
                         (set_vads (Some (vad_accept s v)) (capture_vad k) k)) w))
          else Some (goto (AtListen s km) w)
      | None => Some (goto (AtListen s km) w)
      end
  | AtClose s km =>
      Some (set_worker (set_phase (AtListen s km) (set_vads (flush <$> vad k) (capture_vad k) k)) (set_follow_until 0 w))
  | AtSegment now =>
      v ← vad k;
      match vad_front v with
      | None => Some (goto Idle w)
      | Some seg =>
          let w := set_worker (set_vads (Some (vad_pop v)) (capture_vad k) k) w in
          if zlen seg <? 8000 then Some w
          else Some (hear (HSegment seg) (spawn_job (JFollow seg) (set_follow_until (now + 2000) w)))
      end
  | AtListen s km =>
      match keyword_pending k with
      | Some keyword =>
          let w := hear (HCapture s (instant' t)) w in
          let '(k, ended) := capture_chunk t s k in
          if ended || (capture_deadline k <=? instant' t) then
            Some (hear (HTaken keyword (captured k)) (spawn_job (JCapture keyword (captured k))
              (set_worker (set_phase Idle (set_pending None (capture_deadline k) (set_captured [] k))) w)))
          else Some (set_worker (set_phase Idle k) w)
      | None =>
          if km then Some (goto Idle w)
          else
            let w := hear (HKws s) w in
            let q := kws_accept s (kws k) in
            let q := decode_all (kws_backlog q) q in
            match kws_result q with
            | Some (b :: keyword) =>
                Some (set_worker (set_phase (AtEnroll (b :: keyword)) (set_captured [] (set_kws (kws_reset q) k))) w)
            | _ => Some (set_worker (set_phase Idle (set_kws q k)) w)
            end
      end
  | AtEnroll keyword =>
      if match enrollment (registry w) with Some s => enrollment_accepts s | None => false end then
        match embed with
        | Some e => Some (goto (AtSample (e (snapshot (ring k)))) w)
        | None => Some (goto Idle w)
        end
      else if speaker_verify config then Some (goto (AtVerify keyword) w)
      else Some (goto (AtOpen keyword) w)
  | AtSample emb =>
      Some (goto Idle (match emb with Some e => set_registry (push_sample e (registry w)) w | None => w end))
  | AtVerify keyword =>
      if num_speakers (registry w) =? 0 then Some (set_worker (set_phase (AtOpen keyword) (set_warned k)) w)
      else
        match embed with
        | Some e => Some (goto (AtSearch keyword (e (snapshot (ring k)))) w)
        | None => Some (goto (AtOpen keyword) w)
        end
  | AtSearch keyword emb =>
      let matched := e ← emb; search e (speaker_threshold config) (registry w) in
      if wake_gate_allows true matched then Some (goto (AtOpen keyword) w) else Some (goto Idle w)
  | AtOpen keyword =>
      Some (hear (HOpen keyword (instant t)) (set_worker (set_phase Idle
              (set_pending (Some keyword) (instant t + capture_window config) k)) w))
  end.

(** What reaches the worker on its channel. *)
Inductive Reception := Chunk (samples : list Z) | ChunksLost (n : Z) | Closed.
Definition receive (r : Reception) (w : World) : option World :=
  let k := worker w in
  match phase k with
  | Idle =>
      match r with
      | Chunk samples =>
          let s := sample_f32 <$> samples in
          Some (hear (HChunk s) (set_worker (set_phase (AtMute s) (set_ring (ring_push s (ring k)) k)) w))
      | ChunksLost _ => Some w
      | Closed => Some (goto Ended w)
      end
  | _ => None
  end.

(** A transcription that has run; its lock of the registry is the last thing
    before the event. *)
Definition finish_job (i : nat) (now : Z) (w : World) : option World :=
  j ← jobs w !! i;
  let ev := match j with
            | JFollow wave => mkEvent [] (transcribe wave) now [] true
            | JCapture keyword wave =>
                mkEvent keyword (transcribe wave) now
                  (default [] (e ← embed; emb ← e wave; search emb (speaker_threshold config) (registry w))) false
            end in
  Some (mkWorld (follow_until w) (follow_window w) (mute_until w) (registry w) (worker w) (delete i (jobs w))
          (ev :: sent w) (heard w)).

(** *** The calls of the host *)
Definition arm_follow_up (now : Z) (w : World) : World :=
  if (follow_window w =? 0) || bool_decide (vad (worker w) = None) then w
  else set_follow_until (wrap64 (now + follow_window w)) w.
Definition arm_listen (now window_ms : Z) (w : World) : World * bool :=
  if (window_ms =? 0) || bool_decide (vad (worker w) = None) then (w, false)
  else (set_follow_until (wrap64 (now + window_ms)) w, true).
Definition begin_playback_mute (now : Z) (w : World) : World := set_mute_until (now + 120000) w.
Definition end_playback_mute (w : World) : World := set_mute_until 0 w.

Inductive Event :=
  | Receives (r : Reception)
  | Goes (t : Now)
  | JobEnds (i : nat) (now : Z)
  | ArmFollowUp (now : Z)
  | ArmListen (now window_ms : Z)
  | SetWindow (ms : Z)
  | BeginMute (now : Z)
  | EndMute
  | LoadSpeakers (profiles : list (bytes * list Wave))
  | RemoveSpeaker (name : bytes)
  | BeginEnrollment (name : bytes) (needed : Z)
  | TakeEnrollment
  | CancelEnrollment.

Definition capable : bool := bool_decide (is_Some embed).

Definition lstep (w : World) (e : Event) : option World :=
  match e with
  | Receives r => receive r w
  | Goes t => worker_step t w
  | JobEnds i now => finish_job i now w
  | ArmFollowUp now => Some (arm_follow_up now w)
  | ArmListen now ms => Some (arm_listen now ms w).1
  | SetWindow ms => Some (set_follow_window ms w)
  | BeginMute now => Some (begin_playback_mute now w)
  | EndMute => Some (end_playback_mute w)
  | LoadSpeakers ps => Some (set_registry (load_speakers capable ps (registry w)).1 w)
  | RemoveSpeaker name => Some (set_registry (remove_speaker name (registry w)).1 w)
  | BeginEnrollment name needed => Some (set_registry (begin_enrollment capable name needed (registry w)).1 w)
  | TakeEnrollment => Some (set_registry (take_completed_enrollment (registry w)).1 w)
  | CancelEnrollment => Some (set_registry (cancel_enrollment (registry w)) w)
  end.

Fixpoint lrun (w : World) (es : list Event) : option World :=
  match es with
  | [] => Some w
  | e :: es => w ← lstep w e; lrun w es
  end.
End worker.
Arguments Worker : clear implicits.
Arguments World : clear implicits.

(** ** What the worker is deaf to *)
Section laws.
Context {V K M : Type} `{VadLaws V} `{KwsLaws K} `{SpeakersLaws M}.
Context (config : VoiceConfig) (transcribe : Wave → bytes) (embed : option (Wave → option Wave)).
Notation World := (World V K M).
Notation lrun := (lrun config transcribe embed).
Notation lstep := (lstep config transcribe embed).

Lemma lrun_inv (P : World → Prop) (Q : Event → Prop) :
  (∀ w e w', P w → Q e → lstep w e = Some w' → P w') →
  ∀ es w w', P w → Forall Q es → lrun w es = Some w' → P w'.
Proof.
  intros Hs es. induction es as [|e es IH]; intros w w' Hw Hq E; cbn in E; [by injection E as <-|].
  apply Forall_cons in Hq as [Hqe Hq]. destruct (lstep w e) as [v|] eqn:Ev; [|done].
  by apply (IH v); [eapply Hs| |].
Qed.

(** Nobody touches the mute and the clock stays before [m]. *)
Definition quiet (m : Z) (e : Event) : Prop :=
  match e with BeginMute _ | EndMute => False | Goes t => unix t < m | _ => True end.

Definition is_chunk (x : Heard) : Prop := match x with HChunk _ => True | _ => False end.
Definition unheard (x : Heard) : Prop := match x with HChunk _ | HDeaf _ => True | _ => False end.
Definition not_wake (x : Heard) : Prop := match x with HKws _ | HOpen _ _ => False | _ => True end.

(** What the worker keeps while it is deaf to everything. *)
Definition same_worker (k k' : Worker V K) : Prop :=
  vad k' = vad k ∧ capture_vad k' = capture_vad k ∧ kws k' = kws k ∧ captured k' = captured k
  ∧ keyword_pending k' = keyword_pending k ∧ capture_deadline k' = capture_deadline k
  ∧ captured_speech k' = captured_speech k ∧ warned_no_profiles k' = warned_no_profiles k
  ∧ capture_hard_cap k' = capture_hard_cap k.

Definition deaf (m : Z) (w0 w : World) : Prop :=
  mute_until w = m ∧ same_worker (worker w0) (worker w)
  ∧ (∃ new, heard w = new ++ heard w0 ∧ Forall unheard new)
  ∧ match phase (worker w) with Idle | AtMute _ | Ended => True | _ => False end.

Lemma arm_rest now (w : World) : worker (arm_follow_up now w) = worker w ∧ heard (arm_follow_up now w) = heard w
  ∧ mute_until (arm_follow_up now w) = mute_until w ∧ registry (arm_follow_up now w) = registry w
  ∧ jobs (arm_follow_up now w) = jobs w ∧ sent (arm_follow_up now w) = sent w.
Proof. unfold arm_follow_up. by destruct (_ || _). Qed.
Lemma listen_rest now ms (w : World) : worker (arm_listen now ms w).1 = worker w ∧ heard (arm_listen now ms w).1 = heard w
  ∧ mute_until (arm_listen now ms w).1 = mute_until w ∧ registry (arm_listen now ms w).1 = registry w
  ∧ jobs (arm_listen now ms w).1 = jobs w ∧ sent (arm_listen now ms w).1 = sent w.
Proof. unfold arm_listen. by destruct (_ || _). Qed.

(** A step of the host leaves the worker and what it heard. *)
Definition host (e : Event) : Prop := match e with Receives _ | Goes _ => False | _ => True end.
Lemma host_rest e (w w' : World) : host e → lstep w e = Some w' → worker w' = worker w ∧ heard w' = heard w
  ∧ (match e with BeginMute _ | EndMute => True | _ => mute_until w' = mute_until w end).
Proof.
  intros He E. destruct e; cbn in E; try done; try (by injection E as <-).
  - unfold finish_job in E. destruct (jobs w !! i); [|done]. cbn in E. by injection E as <-.
  - injection E as <-. by destruct (arm_rest now w) as (-> & -> & -> & _).
  - injection E as <-. by destruct (listen_rest now window_ms w) as (-> & -> & -> & _).
Qed.

Lemma deaf_step m (w0 w : World) e w' : 0 < m → bytes_eqb (barge_in config) (lit "aec") = false →
  deaf m w0 w → quiet m e → lstep w e = Some w' → deaf m w0 w'.
Proof.
  intros Hm Haec (Hmu & Hsame & (new & Hh & Hn) & Hph) Hq E.
  assert (host e ∨ (∃ r, e = Receives r) ∨ ∃ t, e = Goes t) as [Hhost | [[r ->] | [t ->]]].
  { destruct e; cbn; naive_solver. }
  - destruct (host_rest e w w' Hhost E) as (Hw & Hh' & Hmu').
    unfold deaf. rewrite Hw, Hh'. split; [destruct e; try done; congruence|]. split; [done|].
    split; [by exists new | done].
  - cbn in E. unfold receive in E. destruct (phase (worker w)) eqn:Ep; try done.
    destruct r as [l|n|]; injection E as <-; unfold deaf.
    + split; [done|]. split; [done|]. split; [|done]. exists (HChunk (sample_f32 <$> l) :: new). cbn. by rewrite Hh, Forall_cons.
    + rewrite Ep. split; [done|]. split; [done|]. split; [|done]. by exists new.
    + split; [done|]. split; [done|]. split; [|done]. by exists new.
  - cbn in E, Hq. unfold worker_step in E. destruct (phase (worker w)) eqn:Ep; try done.
    rewrite Hmu, (proj2 (Z.ltb_lt 0 m) Hm), (proj2 (Z.leb_gt m (unix t)) Hq), Haec in E. injection E as <-.
    split; [done|]. split; [done|]. split; [|done]. exists (HDeaf s :: new). cbn. by rewrite Hh, Forall_cons.
Qed.

(** With echo cancellation only the wake word is deaf. *)
Definition wake_deaf (m : Z) (w0 w : World) : Prop :=
  mute_until w = m ∧ kws (worker w) = kws (worker w0)
  ∧ (∃ new, heard w = new ++ heard w0 ∧ Forall not_wake new)
  ∧ match phase (worker w) with
    | Idle | AtMute _ | AtSegment _ | AtFollow _ true | AtClose _ true | AtListen _ true | Ended => True
    | _ => False
    end.

Lemma capture_chunk_rest t s (k k' : Worker V K) b : capture_chunk t s k = (k', b) →
  kws k' = kws k ∧ vad k' = vad k ∧ keyword_pending k' = keyword_pending k ∧ captured k' = captured k ++ s
  ∧ ring k' = ring k ∧ capture_hard_cap k' = capture_hard_cap k.
Proof.
  unfold capture_chunk. cbn. destruct (capture_vad k) as [c|]; [|by intros [= <- _]].
  destruct (drain _ _ _ _) as [[c' sp] b']. by intros [= <- _].
Qed.

Lemma wake_deaf_step m (w0 w : World) e w' : 0 < m → bytes_eqb (barge_in config) (lit "aec") = true →
  wake_deaf m w0 w → quiet m e → lstep w e = Some w' → wake_deaf m w0 w'.
Proof.
  intros Hm Haec (Hmu & Hk & (new & Hh & Hn) & Hph) Hq E.
  assert (host e ∨ (∃ r, e = Receives r) ∨ ∃ t, e = Goes t) as [Hhost | [[r ->] | [t ->]]].
  { destruct e; cbn; naive_solver. }
  - destruct (host_rest e w w' Hhost E) as (Hw & Hh' & Hmu').
    unfold wake_deaf. rewrite Hw, Hh'. split; [destruct e; try done; congruence|]. split; [done|].
    split; [by exists new | done].
  - cbn in E. unfold receive in E. destruct (phase (worker w)) eqn:Ep; try done.
    destruct r as [l|n|]; injection E as <-; unfold wake_deaf.
    + split; [done|]. split; [done|]. split; [|done]. exists (HChunk (sample_f32 <$> l) :: new). cbn. by rewrite Hh, Forall_cons.
    + rewrite Ep. split; [done|]. split; [done|]. split; [|done]. by exists new.
    + split; [done|]. split; [done|]. split; [|done]. by exists new.
  - assert (∀ x (v : World), not_wake x → mute_until v = m → kws (worker v) = kws (worker w0) → heard v = heard w →
      match phase (worker v) with
      | Idle | AtMute _ | AtSegment _ | AtFollow _ true | AtClose _ true | AtListen _ true | Ended => True
      | _ => False
      end → wake_deaf m w0 v ∧ wake_deaf m w0 (hear x v)) as Hstay.
    { intros x v Hx Hv1 Hv2 Hv3 Hv4. unfold wake_deaf. cbn. rewrite Hv3, Hh. split; (split; [done|]; split; [done|]; split; [|done]).
      - by exists new. - exists (x :: new). by rewrite Forall_cons. }
    cbn in E, Hq. unfold worker_step in E. destruct (phase (worker w)) as [|s|s|s []|s []|now|s []|k|e|k|k e|k|] eqn:Ep; try done.
    + rewrite Hmu, (proj2 (Z.ltb_lt 0 m) Hm), (proj2 (Z.leb_gt m (unix t)) Hq), Haec in E. injection E as <-.
      by apply (Hstay (HChunk [])).
    + destruct (vad (worker w)); [destruct (0 <? follow_until w); [destruct (follow_until w <=? unix t)|]|]; injection E as <-;
        first [by apply (Hstay (HVad s)) | by apply (Hstay (HChunk []))].
    + injection E as <-. by apply (Hstay (HChunk [])).
    + destruct (vad (worker w)) as [v|]; [|done]. cbn in E. destruct (vad_front v) as [seg|];
        [destruct (zlen seg <? 8000)|]; injection E as <-.
      * apply (Hstay (HChunk [])); try done. cbn. by rewrite Ep.
      * apply (Hstay (HSegment seg)); try done. cbn. by rewrite Ep.
      * by apply (Hstay (HChunk [])).
    + destruct (keyword_pending (worker w)) as [kw|]; [|injection E as <-; by apply (Hstay (HChunk []))].
      destruct (capture_chunk t s (worker w)) as [k' b] eqn:Ec.
      destruct (capture_chunk_rest _ _ _ _ _ Ec) as (Hk' & _).
      destruct (b || _); injection E as <-; unfold wake_deaf; cbn; rewrite Hh, Hk'.
      * split; [done|]. split; [done|]. split; [|done]. eexists (_ :: _ :: new). by rewrite !Forall_cons.
      * split; [done|]. split; [done|]. split; [|done]. eexists (_ :: new). by rewrite !Forall_cons.
Qed.

(** The chunk at hand when the mute begins, if there is one, is finished first;
    only a worker that is about to reset an expired mute resets the new one. *)
Definition resets_mute (p : Phase) : Prop := match p with AtUnmute _ => True | _ => False end.

Lemma quiet_step m (w : World) e w' : 0 < m → mute_until w = m → ¬ resets_mute (phase (worker w)) → quiet m e → lstep w e = Some w' →
  mute_until w' = m ∧ ¬ resets_mute (phase (worker w')).
Proof.
  intros Hm Hmu Hp Hq E. assert (host e ∨ (∃ r, e = Receives r) ∨ ∃ t, e = Goes t) as [Hhost | [[r ->] | [t ->]]] by (destruct e; cbn; naive_solver).
  - destruct (host_rest e w w' Hhost E) as (Hw & _ & Hmu'). rewrite Hw. split; [|done]. destruct e; try done; congruence.
  - cbn in E. unfold receive in E. destruct (phase (worker w)) eqn:Ep; try done. destruct r; injection E as <-; cbn; rewrite ?Ep; by split; [|intros []].
  - cbn in E, Hq. unfold worker_step in E. destruct (phase (worker w)) as [|s|s|s km|s km|now|s km|k|e|k|k e|k|] eqn:Ep; try done.
    + rewrite Hmu, (proj2 (Z.ltb_lt 0 m) Hm), (proj2 (Z.leb_gt m (unix t)) Hq) in E. by destruct (bytes_eqb _ _); injection E as <-.
    + repeat (case_match; try done); by injection E as <-.
    + by injection E as <-.
    + destruct (vad (worker w)); [|done]. cbn in E. repeat (case_match; try done); injection E as <-; cbn; by rewrite ?Ep.
    + destruct (keyword_pending (worker w)).
      * destruct (capture_chunk t s (worker w)) as [k' b]. by destruct (b || _); injection E as <-.
      * repeat (case_match; try done); by injection E as <-.
    + repeat (case_match; try done); by injection E as <-.
    + injection E as <-. by destruct e.
    + repeat (case_match; try done); by injection E as <-.
    + cbv zeta in E. repeat (case_match; try done); by injection E as <-.
    + by injection E as <-.
Qed.

(** Away from the channel nothing is received. *)
Lemma busy_step (w : World) e w' : phase (worker w) ≠ Idle → lstep w e = Some w' →
  ∃ new, heard w' = new ++ heard w ∧ Forall (λ x, ¬ is_chunk x) new.
Proof.
  intros Hp E. assert (host e ∨ (∃ r, e = Receives r) ∨ ∃ t, e = Goes t) as [Hhost | [[r ->] | [t ->]]] by (destruct e; cbn; naive_solver).
  - destruct (host_rest e w w' Hhost E) as (_ & Hh & _). by exists [].
  - cbn in E. unfold receive in E. by destruct (phase (worker w)).
  - cbn in E. unfold worker_step in E.
    assert (∀ v : World, heard v = heard w → ∃ new, heard v = new ++ heard w ∧ Forall (λ x, ¬ is_chunk x) new) as Hsame by (by exists []).
    assert (∀ x (v : World), heard v = x :: heard w → ¬ is_chunk x → ∃ new, heard v = new ++ heard w ∧ Forall (λ x, ¬ is_chunk x) new) as Hone
      by (intros x v Hv Hx; exists [x]; by repeat constructor).
    destruct (phase (worker w)) as [|s|s|s km|s km|now|s km|k|e|k|k e|k|]; try done; cbv zeta in E.
    5: { destruct (vad (worker w)); [|done]. cbn in E. repeat (case_match; try done); injection E as <-;
           first [by apply Hsame | eapply Hone; [reflexivity | by intros []]]. }
    5: { destruct (keyword_pending (worker w)).
         - destruct (capture_chunk t s (worker w)) as [k' b]. destruct (b || _); injection E as <-;
             [eexists [_; _] | eexists [_]]; (split; [reflexivity|]); repeat constructor; by intros [].
         - repeat (case_match; try done); injection E as <-; first [by apply Hsame | eapply Hone; [reflexivity | by intros []]]. }
    all: repeat (case_match; try done); injection E as <-; first [by apply Hsame | eapply Hone; [reflexivity | by intros []]].
Qed.

Lemma mute_step (w : World) e w' : match e with BeginMute _ | EndMute => False | _ => True end → lstep w e = Some w' →
  (mute_until w' = mute_until w ∧ (resets_mute (phase (worker w)) → phase (worker w') = phase (worker w))) ∨ mute_until w' = 0.
Proof.
  intros Hq E. assert (host e ∨ (∃ r, e = Receives r) ∨ ∃ t, e = Goes t) as [Hhost | [[r ->] | [t ->]]] by (destruct e; cbn; naive_solver).
  - left. destruct (host_rest e w w' Hhost E) as (-> & _ & Hmu'). split; [by destruct e | done].
  - left. cbn in E. unfold receive in E. destruct (phase (worker w)) eqn:Ep; try done. by destruct r; injection E as <-.
  - cbn in E. unfold worker_step in E. destruct (phase (worker w)) as [|s|s|s km|s km|now|s km|k|e|k|k e|k|] eqn:Ep; try done; cbv zeta in E.
    5: { destruct (vad (worker w)); [|done]. cbn in E. repeat (case_match; try done); injection E as <-; by left. }
    5: { destruct (keyword_pending (worker w)).
         - destruct (capture_chunk t s (worker w)) as [k' b]. destruct (b || _); injection E as <-; by left.
         - repeat (case_match; try done); injection E as <-; by left. }
    all: repeat (case_match; try done); injection E as <-; solve [by left | by right].
Qed.

Lemma finish_chunk m es : ∀ w w' : World, 0 < m → mute_until w = m → ¬ resets_mute (phase (worker w)) → Forall (quiet m) es → lrun w es = Some w' →
  ∃ es1 es2 v, es = es1 ++ es2 ∧ lrun w es1 = Some v ∧ lrun v es2 = Some w' ∧ (es2 = [] ∨ phase (worker v) = Idle)
    ∧ mute_until v = m ∧ ∃ new, heard v = new ++ heard w ∧ Forall (λ x, ¬ is_chunk x) new.
Proof.
  induction es as [|e es IH]; intros w w' Hm Hmu Hp Hq E.
  - exists [], [], w. split_and!; try done; [by left | by exists []].
  - assert (phase (worker w) = Idle ∨ phase (worker w) ≠ Idle) as [Hi|Hi] by (destruct (phase (worker w)); auto).
    + exists [], (e :: es), w. split_and!; try done; [by right | by exists []].
    + apply Forall_cons in Hq as [Hqe Hq]. cbn in E. destruct (lstep w e) as [x|] eqn:Ex; [|done].
      destruct (quiet_step m w e x Hm Hmu Hp Hqe Ex) as [Hmu' Hp'].
      destruct (IH x w' Hm Hmu' Hp' Hq E) as (es1 & es2 & v & -> & E1 & E2 & Hv & Hmv & new & Hn & Hf).
      destruct (busy_step w e x Hi Ex) as (new' & Hn' & Hf').
      exists (e :: es1), es2, v. cbn. rewrite Ex. split_and!; try done. exists (new ++ new').
      rewrite Hn, Hn', app_assoc. split; [done | by apply Forall_app].
Qed.

Lemma deaf_from m (v w : World) es : 0 < m → mute_until v = m → es = [] ∨ phase (worker v) = Idle → Forall (quiet m) es → lrun v es = Some w →
  (bytes_eqb (barge_in config) (lit "aec") = false → same_worker (worker v) (worker w)
     ∧ ∃ new, heard w = new ++ heard v ∧ Forall unheard new)
  ∧ (bytes_eqb (barge_in config) (lit "aec") = true → kws (worker w) = kws (worker v)
     ∧ ∃ new, heard w = new ++ heard v ∧ Forall not_wake new).
Proof.
  intros Hm Hmu [-> | Hp] Hq E.
  { injection E as <-. split; intros _; (split; [done | by exists []]). }
  split; intros Haec.
  - assert (deaf m v w) as (_ & Hs & Hh & _); [|by split]. eapply (lrun_inv (deaf m v) (quiet m)); [| |exact Hq | exact E].
    + intros u e u' Hu Hqe Eu. by eapply (deaf_step _ v u).
    + split; [done|]. split; [done|]. split; [by exists [] | by rewrite Hp].
  - assert (wake_deaf m v w) as (_ & Hk & Hh & _); [|by split]. eapply (lrun_inv (wake_deaf m v) (quiet m)); [| |exact Hq | exact E].
    + intros u e u' Hu Hqe Eu. by eapply (wake_deaf_step _ v u).
    + split; [done|]. split; [done|]. split; [by exists [] | by rewrite Hp].
Qed.

(** C13 While the reply of the device is on the speaker the microphone is
    deaf.  [begin_playback_mute] is called at any moment, and for as long as
    nobody else touches the mute and its 120 seconds are not over, whatever the
    rest of the host does and however its calls fall between the steps of the
    worker: the worker finishes the chunk it has at hand, receiving none, and
    from its return to the channel on, however many chunks it receives, no audio
    reaches the wake word, the detectors or a capture, no segment is taken, no
    capture opened, extended or closed, only the ring keeps the samples.  With
    [barge_in = "aec"] it is the wake word alone that hears nothing and opens
    nothing.  One moment is excepted: a worker that has seen the deadline of an
    older mute expire and is about to reset it resets the new mute, and after
    its next step the microphone is not muted. *)
Theorem muted_deaf now (w w' : World) es :
  0 ≤ now → lrun (begin_playback_mute now w) es = Some w' → Forall (quiet (now + 120000)) es →
  (¬ resets_mute (phase (worker w)) →
     mute_until w' = now + 120000
     ∧ ∃ es1 es2 v, es = es1 ++ es2 ∧ lrun (begin_playback_mute now w) es1 = Some v ∧ lrun v es2 = Some w'
       ∧ (es2 = [] ∨ phase (worker v) = Idle)
       ∧ (∃ new, heard v = new ++ heard w ∧ Forall (λ x, ¬ is_chunk x) new)
       ∧ (bytes_eqb (barge_in config) (lit "aec") = false → same_worker (worker v) (worker w')
          ∧ ∃ new, heard w' = new ++ heard v ∧ Forall unheard new)
       ∧ (bytes_eqb (barge_in config) (lit "aec") = true → kws (worker w') = kws (worker v)
          ∧ ∃ new, heard w' = new ++ heard v ∧ Forall not_wake new))
  ∧ (resets_mute (phase (worker w)) →
     (mute_until w' = now + 120000 ∧ phase (worker w') = phase (worker w)) ∨ mute_until w' = 0).
Proof.
  intros Hnow E Hq. set (m := now + 120000) in *. set (w0 := begin_playback_mute now w) in *. assert (0 < m) as Hm by lia. split.
  - intros Hp. split.
    + assert (mute_until w' = m ∧ ¬ resets_mute (phase (worker w'))) as [Hd _]; [|done].
      eapply (lrun_inv (λ v, mute_until v = m ∧ ¬ resets_mute (phase (worker v))) (quiet m)); [| |exact Hq | exact E]; [|by split].
      intros u e u' [Hu Hpu] Hqe Eu. by eapply quiet_step.
    + destruct (finish_chunk m es w0 w' Hm eq_refl Hp Hq E) as (es1 & es2 & v & -> & E1 & E2 & Hv & Hmv & Hn).
      apply Forall_app in Hq as [_ Hq]. exists es1, es2, v. destruct (deaf_from m v w' es2 Hm Hmv Hv Hq E2). by split_and!.
  - intros Hp. eapply (lrun_inv (λ v, (mute_until v = m ∧ phase (worker v) = phase (worker w)) ∨ mute_until v = 0) (quiet m)); [| |exact Hq | exact E]; [|by left].
    intros u e u' Hu Hqe Eu. destruct (mute_step u e u') as [[Hu1 Hu2]|Hu1]; [by destruct e | done | | by right].
    destruct Hu as [[Hu Hpu]|Hu]; [left | right; congruence]. split; [congruence|]. rewrite Hu2; by rewrite Hpu.
Qed.

(** ** What is captured *)
Definition in_capture (x : Heard) : Prop := match x with HChunk _ | HDeaf _ | HVad _ | HCapture _ _ | HSegment _ => True | _ => False end.

(** The chunks of a capture, newest first, with the instants they ended. *)
Definition chunks_of (l : list Heard) : list (Wave * Z) :=
  omap (λ x, match x with HCapture s i => Some (s, i) | _ => None end) l.
Definition wave_of (l : list Heard) : Wave := concat (rev (chunks_of l).*1).

Lemma wave_of_capture s i l : wave_of (HCapture s i :: l) = wave_of l ++ s.
Proof. unfold wave_of. cbn. rewrite concat_app. cbn. by rewrite app_nil_r. Qed.
Lemma wave_of_other x l : (∀ s i, x ≠ HCapture s i) → chunks_of (x :: l) = chunks_of l ∧ wave_of (x :: l) = wave_of l.
Proof. intros Hx. unfold wave_of. destruct x; try done. by destruct (Hx s at_). Qed.

(** What was received, what became of it, and the chunk the worker works on. *)
Definition received (l : list Heard) : list Wave := omap (λ x, match x with HChunk s => Some s | _ => None end) l.
Definition placed (l : list Heard) : list Wave :=
  omap (λ x, match x with HCapture s _ | HVad s | HDeaf s => Some s | _ => None end) l.
Definition in_hand (p : Phase) : list Wave :=
  match p with AtMute s | AtUnmute s | AtFollow s _ | AtClose s _ | AtListen s _ => [s] | _ => [] end.

Lemma received_app l k : received (l ++ k) = received l ++ received k.
Proof. apply omap_app. Qed.
Lemma placed_app l k : placed (l ++ k) = placed l ++ placed k.
Proof. apply omap_app. Qed.

(** Nothing was deafened and nothing given to a listening window. *)
Definition undisturbed (x : Heard) : Prop := match x with HVad _ | HDeaf _ => False | _ => True end.
Lemma undisturbed_wave l : Forall undisturbed l → received l = placed l → wave_of l = concat (rev (received l)).
Proof.
  intros Hu ->. unfold wave_of. do 2 f_equal. clear -Hu. induction Hu as [|x l Hx _ IH]; [done|].
  destruct x; cbn in *; try done. by f_equal.
Qed.

(** A capture opened at an instant takes no chunk after its window; only in
    the first seconds of the worker, before the hard cap of its start, speech
    makes the window longer. *)
Definition window_end (hard_cap at_ : Z) : Z := Z.max (at_ + capture_window config) hard_cap.

Record capturing (w : World) (keyword : bytes) : Prop := {
  cap_trace : ∃ mid at_ older, heard w = mid ++ HOpen keyword at_ :: older ∧ Forall in_capture mid
    ∧ captured (worker w) = wave_of mid ∧ received mid = in_hand (phase (worker w)) ++ placed mid
    ∧ Forall (λ c, c.2 < window_end (capture_hard_cap (worker w)) at_) (chunks_of mid)
    ∧ capture_deadline (worker w) <= window_end (capture_hard_cap (worker w)) at_
    ∧ (capture_hard_cap (worker w) <= at_ + capture_window config → capture_deadline (worker w) = at_ + capture_window config);
}.

(** Every capture that was closed is the chunks since it was opened. *)
Definition taken_ok (cap : Z) (l : list Heard) : Prop :=
  ∀ newer keyword wave rest, l = newer ++ HTaken keyword wave :: rest →
  ∃ mid at_ older, rest = mid ++ HOpen keyword at_ :: older ∧ Forall in_capture mid ∧ wave = wave_of mid
    ∧ received mid = placed mid ∧ Forall (λ c, c.2 < window_end cap at_) (tail (chunks_of mid)).

Definition known (x : list Heard) (j : Job) : Prop :=
  match j with
  | JFollow wave => HSegment wave ∈ x ∧ 8000 <= zlen wave
  | JCapture keyword wave => HTaken keyword wave ∈ x
  end.
Definition transcript_of (ev : VoiceEvent) (j : Job) : Prop :=
  ev_transcript ev = transcribe (match j with JFollow wave | JCapture _ wave => wave end)
  ∧ match j with
    | JFollow _ => ev_keyword ev = [] ∧ ev_speaker ev = [] ∧ ev_follow_up ev = true
    | JCapture keyword _ => ev_keyword ev = keyword ∧ ev_follow_up ev = false
    end.

Definition on_the_way (p : Phase) : Prop :=
  match p with AtEnroll _ | AtSample _ | AtVerify _ | AtSearch _ _ | AtOpen _ => True | _ => False end.

Record listening (cap : Z) (w : World) : Prop := {
  lis_cap : capture_hard_cap (worker w) = cap;
  lis_taken : taken_ok cap (heard w);
  lis_jobs : Forall (known (heard w)) (jobs w);
  lis_sent : Forall (λ ev, ∃ j, known (heard w) j ∧ transcript_of ev j) (sent w);
  lis_pending : ∀ keyword, keyword_pending (worker w) = Some keyword → capturing w keyword;
  lis_way : on_the_way (phase (worker w)) → keyword_pending (worker w) = None ∧ captured (worker w) = [];
}.

Lemma known_more x new j : known x j → known (new ++ x) j.
Proof. destruct j; cbn; [intros [Hi Hl]; split; [|done]|intros Hi]; apply elem_of_app; by right. Qed.

Lemma taken_more cap x l : (∀ k wave, x ≠ HTaken k wave) → taken_ok cap l → taken_ok cap (x :: l).
Proof.
  intros Hx Hl newer k wave rest E. destruct newer as [|y newer]; cbn in E; [injection E as -> _; by destruct (Hx k wave)|].
  injection E as -> E. by apply (Hl newer).
Qed.

Definition plain (x : Heard) : Prop := match x with HChunk _ | HDeaf _ | HVad _ | HSegment _ => True | _ => False end.
Definition not_taken (x : Heard) : Prop := match x with HTaken _ _ => False | _ => True end.

Lemma plain_capture xs : Forall plain xs → Forall in_capture xs ∧ ∀ l, chunks_of (xs ++ l) = chunks_of l ∧ wave_of (xs ++ l) = wave_of l.
Proof.
  induction 1 as [|x xs Hx _ [IH1 IH2]]; [done|]. split; [constructor; [by destruct x | done]|].
  intros l. destruct (wave_of_other x (xs ++ l)) as [E1 E2]; [by destruct x|]. cbn [app]. rewrite E1, E2. apply IH2.
Qed.

(** A step that neither opens, extends nor closes a capture. *)
Lemma listening_plain cap (w v : World) xs js :
  listening cap w → heard v = xs ++ heard w → Forall not_taken xs →
  (keyword_pending (worker w) = None
   ∨ Forall plain xs ∧ received xs ++ in_hand (phase (worker w)) = in_hand (phase (worker v)) ++ placed xs) →
  captured (worker v) = captured (worker w) → keyword_pending (worker v) = keyword_pending (worker w) →
  capture_deadline (worker v) = capture_deadline (worker w) → capture_hard_cap (worker v) = capture_hard_cap (worker w) →
  jobs v = jobs w ++ js → Forall (known (heard v)) js → sent v = sent w →
  (on_the_way (phase (worker v)) → keyword_pending (worker w) = None ∧ captured (worker w) = []) → listening cap v.
Proof.
  intros [L1 L2 L3 L4 L5 L6] Hh Hnt Hpl Hc Hk Hd Hcap Hj Hjs Hs Hway. split.
  - by rewrite Hcap.
  - rewrite Hh. clear -L2 Hnt. induction Hnt as [|x xs Hx _ IH]; [done|]. apply taken_more; [|done].
    intros k wave ->. done.
  - rewrite Hj. apply Forall_app. split; [|done]. rewrite Hh. eapply Forall_impl; [exact L3|]. intros j. apply known_more.
  - rewrite Hs, Hh. eapply Forall_impl; [exact L4|]. intros ev (j & Hkn & Ht). exists j. split; [by apply known_more | done].
  - intros keyword Hkw. rewrite Hk in Hkw. destruct Hpl as [Hn|[Hpl Hhand]]; [congruence|].
    destruct (L5 keyword Hkw) as [(mid & at_ & older & C1 & C2 & C3 & Cr & C4 & C5 & C6)].
    destruct (plain_capture xs Hpl) as [P1 P2]. destruct (P2 mid) as [P3 P4]. split.
    exists (xs ++ mid), at_, older. rewrite Hh, C1, <-app_assoc, Hc, Hd, Hcap, P3, P4.
    split; [done|]. split; [by apply Forall_app|]. split; [done|]. split; [|done].
    rewrite received_app, placed_app. by rewrite Cr, !app_assoc, Hhand.
  - rewrite Hk, Hc. apply Hway.
Qed.

Lemma capture_chunk_deadline t s (k k' : Worker V K) b : capture_chunk t s k = (k', b) →
  capture_deadline k' = capture_deadline k ∨ capture_deadline k < capture_hard_cap k ∧ capture_deadline k' <= capture_hard_cap k.
Proof.
  unfold capture_chunk. cbn. destruct (capture_vad k) as [c|]; [|intros [= <- _]; by left].
  destruct (drain _ _ _ _) as [[c' sp] b']. intros [= <- _]. cbn.
  destruct (vad_detected _ && _) eqn:E; [|by left]. right. apply andb_true_iff in E as [_ E%Z.ltb_lt]. lia.
Qed.

(** The capture of a chunk: it goes on with the chunk in it, or is closed. *)
Lemma capturing_chunk cap keyword t s (w : World) k' b :
  listening cap w → in_hand (phase (worker w)) = [s] → keyword_pending (worker w) = Some keyword →
  capture_chunk t s (worker w) = (k', b) →
  let v := set_worker (set_phase Idle k') (hear (HCapture s (instant' t)) w) in
  ∃ mid at_ older, heard v = HCapture s (instant' t) :: mid ++ HOpen keyword at_ :: older ∧ Forall in_capture mid
    ∧ captured k' = wave_of (HCapture s (instant' t) :: mid)
    ∧ received (HCapture s (instant' t) :: mid) = placed (HCapture s (instant' t) :: mid) ∧ Forall (λ c, c.2 < window_end cap at_) (chunks_of mid)
    ∧ capture_deadline k' <= window_end cap at_
    ∧ (cap <= at_ + capture_window config → capture_deadline k' = at_ + capture_window config).
Proof.
  intros [L1 L2 L3 L4 L5 L6] Hh Hk E v. destruct (L5 keyword Hk) as [(mid & at_ & older & C1 & C2 & C3 & Cr & C4 & C5 & C6)].
  destruct (capture_chunk_rest _ _ _ _ _ E) as (_ & _ & _ & Hc & _). pose proof (capture_chunk_deadline _ _ _ _ _ E) as Hd.
  rewrite L1 in *. exists mid, at_, older. split; [cbn; by rewrite C1|]. split; [done|].
  split; [by rewrite Hc, C3, wave_of_capture|]. split; [change (received mid = s :: placed mid); by rewrite Cr, Hh|]. split; [done|]. unfold window_end in *. split; lia.
Qed.

Lemma listening_capture cap keyword t s km (w w' : World) :
  listening cap w → phase (worker w) = AtListen s km → keyword_pending (worker w) = Some keyword →
  worker_step config embed t w = Some w' → listening cap w'.
Proof.
  intros HL Hp Hk E. unfold worker_step in E. rewrite Hp, Hk in E.
  destruct (capture_chunk t s (worker w)) as [k' b] eqn:Ec.
  destruct (capturing_chunk cap keyword t s w k' b HL ltac:(by rewrite Hp) Hk Ec) as (mid & at_ & older & C1 & C2 & C3 & Cr & C4 & C5 & C6).
  destruct (capture_chunk_rest _ _ _ _ _ Ec) as (_ & _ & Hk' & _ & _ & Hcap). destruct HL as [L1 L2 L3 L4 L5 L6].
  cbn in C1. assert (Forall in_capture (HCapture s (instant' t) :: mid)) as C2' by (by constructor).
  destruct (b || (capture_deadline k' <=? instant' t)) eqn:Eend; injection E as <-.
  - split; cbn.
    + by rewrite Hcap.
    + intros newer k wave rest Eq. destruct newer as [|y newer].
      * injection Eq as <- <- <-. rewrite C1. exists (HCapture s (instant' t) :: mid), at_, older.
        split; [done|]. split; [done|]. split; [done|]. split; [done|]. cbn. done.
      * injection Eq as <- Eq. by apply (taken_more cap (HCapture s (instant' t)) (heard w)) in Eq.
    + apply Forall_app. split; [|constructor; [constructor|constructor]].
      eapply Forall_impl; [exact L3|]. intros j Hj. by apply (known_more _ [_; _]).
    + eapply Forall_impl; [exact L4|]. intros ev (j & Hj & Ht). exists j. split; [|done]. by apply (known_more _ [_; _]).
    + done.
    + done.
  - apply orb_false_iff in Eend as [_ Hdl%Z.leb_gt]. split; cbn.
    + by rewrite Hcap.
    + by apply taken_more.
    + eapply Forall_impl; [exact L3|]. intros j Hj. by apply (known_more _ [_]).
    + eapply Forall_impl; [exact L4|]. intros ev (j & Hj & Ht). exists j. split; [|done]. by apply (known_more _ [_]).
    + intros kw Hkw. rewrite Hk', Hk in Hkw. injection Hkw as <-. split. cbn. rewrite Hcap, L1.
      exists (HCapture s (instant' t) :: mid), at_, older. split; [done|]. split; [done|]. split; [done|]. split; [done|].
      split; [|done]. cbn. constructor; [|done]. cbn. lia.
    + done.
Qed.

(** A step that only adds harmless entries to what was heard. *)
Ltac still Hplain xs :=
  apply (Hplain _ xs); [reflexivity | by repeat constructor | right; split; [by repeat constructor | reflexivity] | reflexivity.. | first [done | by intros _]].

Lemma listening_worker cap t (w w' : World) : listening cap w → worker_step config embed t w = Some w' → listening cap w'.
Proof.
  intros HL E. pose proof (lis_way _ _ HL) as Hway.
  assert (∀ v xs, heard v = xs ++ heard w → Forall not_taken xs →
    (keyword_pending (worker w) = None
     ∨ Forall plain xs ∧ received xs ++ in_hand (phase (worker w)) = in_hand (phase (worker v)) ++ placed xs) →
    captured (worker v) = captured (worker w) → keyword_pending (worker v) = keyword_pending (worker w) →
    capture_deadline (worker v) = capture_deadline (worker w) → capture_hard_cap (worker v) = capture_hard_cap (worker w) →
    jobs v = jobs w → sent v = sent w →
    (on_the_way (phase (worker v)) → keyword_pending (worker w) = None ∧ captured (worker w) = []) → listening cap v) as Hplain.
  { intros v xs E1 E2 E3 E4 E5 E6 E7 E8 E9 E10. apply (listening_plain cap w v xs []); rewrite ?app_nil_r; auto. }
  pose proof E as E'. unfold worker_step in E.
  destruct (phase (worker w)) as [|s|s|s km|s km|now|s km|k|e|k|k e|k|] eqn:Ep; try done; cbn in Hway.
  - destruct (0 <? mute_until w); [destruct (mute_until w <=? unix t); [|destruct (bytes_eqb (barge_in config) (lit "aec"))]|destruct (was_muted (worker w))];
      injection E as <-; first [still Hplain (@nil Heard) | still Hplain [HDeaf s]].
  - injection E as <-. still Hplain (@nil Heard).
  - destruct (vad (worker w)) as [v|]; [destruct (0 <? follow_until w); [destruct (follow_until w <=? unix t)|]|]; injection E as <-;
      first [still Hplain (@nil Heard) | still Hplain [HVad s]].
  - injection E as <-. still Hplain (@nil Heard).
  - destruct (vad (worker w)) as [v|]; [|done]. cbn in E. destruct (vad_front v) as [seg|];
      [destruct (zlen seg <? 8000) eqn:El|]; injection E as <-; [|  |still Hplain (@nil Heard)].
    + apply (Hplain _ []); try done; [right; split; [done|]|]; cbn; by rewrite Ep.
    + apply Z.ltb_ge in El. apply (listening_plain cap w _ [HSegment seg] [JFollow seg]); try done; [by repeat constructor|..].
      * right. split; [by repeat constructor|]. cbn. by rewrite Ep.
      * constructor; [|constructor]. split; [left | done].
      * cbn. by rewrite Ep.
  - destruct (keyword_pending (worker w)) as [kw|] eqn:Ek; [by eapply listening_capture|].
    destruct km; [injection E as <-; apply (Hplain _ []); first [done | exact Ek | by left]|].
    assert (∀ l (v : World), heard v = HKws s :: heard w → captured (worker v) = l → keyword_pending (worker v) = None →
      capture_deadline (worker v) = capture_deadline (worker w) → capture_hard_cap (worker v) = capture_hard_cap (worker w) →
      jobs v = jobs w → sent v = sent w → (on_the_way (phase (worker v)) → l = []) → listening cap v) as Hkws.
    { intros l v E1 E2 E3 E4 E5 E6 E7 E8. destruct HL as [L1 L2 L3 L4 L5 L6]. split.
      - by rewrite E5.
      - rewrite E1. by apply taken_more.
      - rewrite E6, E1. eapply Forall_impl; [exact L3|]. intros j. apply (known_more _ [_]).
      - rewrite E7, E1. eapply Forall_impl; [exact L4|]. intros ev (j & Hj & Ht). exists j. split; [|done]. by apply (known_more _ [_]).
      - by rewrite E3.
      - rewrite E2, E3. intros Hw. split; [done|]. by apply E8. }
    destruct (kws_result _) as [[|b keyword]|]; injection E as <-; (eapply Hkws; first [reflexivity | exact Ek | done]).
  - destruct (Hway I) as [Hn Hc].
    assert (∀ p, listening cap (goto p w)) as Hgo by (intros p; apply (Hplain _ []); first [done | by left]).
    destruct (match enrollment (registry w) with Some s => enrollment_accepts s | None => false end);
      [destruct embed|destruct (speaker_verify config)]; injection E as <-; apply Hgo.
  - injection E as <-. destruct e; still Hplain (@nil Heard).
  - destruct (Hway I) as [Hn Hc]. destruct (num_speakers (registry w) =? 0); [|destruct embed]; injection E as <-; still Hplain (@nil Heard).
  - destruct (Hway I) as [Hn Hc]. destruct (wake_gate_allows _ _); injection E as <-; still Hplain (@nil Heard).
  - destruct (Hway I) as [Hn Hc]. injection E as <-. destruct HL as [L1 L2 L3 L4 L5 L6]. split; cbn.
    + done.
    + by apply taken_more.
    + eapply Forall_impl; [exact L3|]. intros j. apply (known_more _ [_]).
    + eapply Forall_impl; [exact L4|]. intros ev (j & Hj & Ht). exists j. split; [|done]. by apply (known_more _ [_]).
    + intros kw [= <-]. split. exists [], (instant t), (heard w). cbn. rewrite Hc. unfold window_end. split_and!; try done. lia.
    + done.
Qed.

Lemma known_delete (l : list Job) i (P : Job → Prop) : Forall P l → Forall P (delete i l).
Proof.
  rewrite !Forall_forall. intros Hl j Hj. apply Hl. revert i Hj. induction l as [|x l IH]; intros [|i] Hj; cbn in *; try done.
  - by right.
  - apply elem_of_cons in Hj as [->|Hj]; [by left|]. right. eapply IH; [|exact Hj]. intros y Hy. apply Hl. by right.
Qed.

Lemma listening_step cap (w : World) e w' : listening cap w → lstep w e = Some w' → listening cap w'.
Proof.
  intros HL E. assert (host e ∨ ¬ host e) as [Hhost|Hn] by (destruct e; cbn; tauto).
  - destruct (host_rest e w w' Hhost E) as (Hw & Hh & _). destruct HL as [L1 L2 L3 L4 L5 L6].
    assert (Forall (known (heard w)) (jobs w') ∧ Forall (λ ev, ∃ j, known (heard w) j ∧ transcript_of ev j) (sent w')) as [J1 J2].
    { destruct e; cbn in E; try done; try (injection E as <-; done).
      - unfold finish_job in E. destruct (jobs w !! i) as [j|] eqn:Ej; [|done]. cbn in E. injection E as <-. cbn.
        split; [by apply known_delete|]. constructor; [|done]. exists j.
        split; [by eapply Forall_lookup_1 in L3|]. by destruct j.
      - injection E as <-. by destruct (arm_rest now w) as (_ & _ & _ & _ & -> & ->).
      - injection E as <-. by destruct (listen_rest now window_ms w) as (_ & _ & _ & _ & -> & ->). }
    split; rewrite ?Hw, ?Hh; try done. intros kw Hk. destruct (L5 kw Hk) as [C]. split. by rewrite Hw, Hh.
  - destruct e; try (by destruct Hn); cbn in E; [|by eapply listening_worker].
    unfold receive in E. destruct (phase (worker w)) eqn:Ep; try done. destruct r as [l|n|]; injection E as <-; [|done|].
    + apply (listening_plain cap w _ [HChunk (sample_f32 <$> l)] []); rewrite ?app_nil_r, ?Ep; try done; [by repeat constructor|].
      right. split; [by repeat constructor | done].
    + apply (listening_plain cap w _ [] []); rewrite ?app_nil_r, ?Ep; try done. by right.
Qed.

Inductive lreachable (w0 : World) : World → Prop :=
  | lreach_start : lreachable w0 w0
  | lreach_step w e w' : lreachable w0 w → lstep w e = Some w' → lreachable w0 w'.

(** The engine as it is started. *)
Definition engine_start (v c : option V) (q : K) (window d start : Z) : World :=
  mkWorld 0 window 0 (registry_new d) (worker_new config v c q start) [] [] [].

Lemma listening_reachable v c q window d start w :
  lreachable (engine_start v c q window d start) w →
  listening (start + secs (Z.max (capture_secs config) 1 + CAPTURE_HEADROOM_SECS)) w.
Proof.
  induction 1 as [|w e w' _ IH E]; [|by eapply listening_step]. split; try done.
  intros newer k wave rest E. by destruct newer.
Qed.

(** C14 Where transcripts come from, in every run: each event is either the
    transcript of one completed segment of at least half a second, taken while
    a listening window was open, or the transcript of a capture.  The audio of
    a capture is that of the chunks it took between the wake word that opened
    it and the chunk that closed it, in order and nothing else of the
    microphone in between.  Every chunk the worker received in between is
    accounted for, in order: the capture took it, or it was dropped because of
    the mute, or it went to a listening window that was open, so a capture
    misses exactly the chunks of a mute or of a window, and one that neither
    disturbed is all that was received.  A capture takes no chunk after
    [capture_secs] but the one that closes it; only the captures opened in the
    first seconds of the worker can be longer, because the hard cap, said to be
    the fixed window plus six seconds, is computed once when the worker starts
    and not when a capture is opened: from then on speech does not keep a
    capture open. *)
Theorem transcripts_exact v c q window d start w :
  lreachable (engine_start v c q window d start) w →
  let hard_cap := start + secs (Z.max (capture_secs config) 1 + CAPTURE_HEADROOM_SECS) in
  (∀ ev, ev ∈ sent w →
     if ev_follow_up ev then
       ∃ wave, HSegment wave ∈ heard w ∧ 8000 <= zlen wave ∧ ev_transcript ev = transcribe wave ∧ ev_keyword ev = []
     else
       ∃ newer mid at_ older wave, heard w = newer ++ HTaken (ev_keyword ev) wave :: mid ++ HOpen (ev_keyword ev) at_ :: older
         ∧ Forall in_capture mid ∧ wave = wave_of mid ∧ ev_transcript ev = transcribe wave
         ∧ received mid = placed mid ∧ (Forall undisturbed mid → wave = concat (rev (received mid)))
         ∧ Forall (λ ch, ch.2 < window_end hard_cap at_) (tail (chunks_of mid)))
  ∧ ∀ keyword, keyword_pending (worker w) = Some keyword →
      ∃ mid at_ older, heard w = mid ++ HOpen keyword at_ :: older ∧ Forall in_capture mid ∧ captured (worker w) = wave_of mid
        ∧ received mid = in_hand (phase (worker w)) ++ placed mid
        ∧ Forall (λ ch, ch.2 < window_end hard_cap at_) (chunks_of mid)
        ∧ (hard_cap <= at_ + capture_window config → capture_deadline (worker w) = at_ + capture_window config).
Proof.
  intros Hr hard_cap. destruct (listening_reachable _ _ _ _ _ _ _ Hr) as [L1 L2 L3 L4 L5 L6]. fold hard_cap in L1, L2. split.
  - intros ev Hev. destruct (proj1 (Forall_forall _ _) L4 ev Hev) as (j & Hk & Ht & Hj).
    destruct j as [wave|keyword wave]; cbn in Hk.
    + destruct Hj as (-> & _ & ->). exists wave. by destruct Hk.
    + destruct Hj as (Hkey & ->). apply list_elem_of_split in Hk as (newer & rest & Eh).
      destruct (L2 newer keyword wave rest Eh) as (mid & at_ & older & E1 & E2 & E3 & Er & E4).
      exists newer, mid, at_, older, wave. rewrite Hkey, Eh, E1. split_and!; try done. intros Hu. rewrite E3. by apply undisturbed_wave.
  - intros keyword Hk. destruct (L5 keyword Hk) as [(mid & at_ & older & C1 & C2 & C3 & Cr & C4 & C5 & C6)].
    rewrite L1 in *. by exists mid, at_, older.
Qed.

(** ** Enrollment *)
Definition session_ok (s : EnrollmentSession) : Prop :=
  s_name s ≠ [] ∧ trim (s_name s) = s_name s ∧ zlen (s_name s) <= 32 ∧ 1 <= s_needed s <= 10 ∧ zlen (s_embeddings s) <= s_needed s.

Definition enrolling_ok (w : World) : Prop :=
  (∀ s, enrollment (registry w) = Some s → session_ok s)
  ∧ match phase (worker w) with
    | AtSample _ => ∀ s, enrollment (registry w) = Some s → enrollment_accepts s = true
    | _ => True
    end.

Lemma register_enrollment name embs (r : SpeakerRegistry M) : enrollment (register name embs r).1 = enrollment r.
Proof. unfold register. destruct (get_manager r); [|done]. by destruct (mgr_add name embs m). Qed.

Lemma load_enrollment cap ps (r : SpeakerRegistry M) : enrollment (load_speakers cap ps r).1 = enrollment r.
Proof.
  unfold load_speakers. destruct cap; [|done]. generalize 0 as n. revert r.
  induction ps as [|[name embs] ps IH]; intros r n; cbn; [done|]. destruct embs as [|e es]; [apply IH|].
  destruct (zlen _ =? 0); [apply IH|]. set (r1 := if dim r =? 0 then _ else r).
  assert (enrollment r1 = enrollment r) as <- by (unfold r1; by destruct (dim r =? 0)).
  destruct (negb _); [apply IH|]. pose proof (register_enrollment name (e :: es) r1) as Hr.
  destruct (register name (e :: es) r1) as [r2 b]. cbn in Hr. rewrite <-Hr. apply IH.
Qed.

Lemma begin_session cap name needed (r r' : SpeakerRegistry M) : begin_enrollment cap name needed r = (r', Ok tt) →
  enrollment r = None ∧ r' = set_enrollment (Some (mkSession (trim name) needed [])) r
  ∧ session_ok (mkSession (trim name) needed []).
Proof.
  unfold begin_enrollment. destruct (negb cap); [done|].
  destruct (bytes_eqb (trim name) [] || (32 <? zlen name)) eqn:En; [done|].
  destruct (negb ((1 <=? needed) && (needed <=? 10))) eqn:Ed; [done|].
  destruct (bool_decide (is_Some (enrollment r))) eqn:Ee; [done|].
  destruct (match manager r with Some m => mgr_contains name m | None => false end); [done|]. intros [= <-].
  apply orb_false_iff in En as [En1 En2%Z.ltb_ge]. apply negb_false_iff, andb_true_iff in Ed as [Ed1%Z.leb_le Ed2%Z.leb_le].
  apply bool_decide_eq_false in Ee. split; [by apply eq_None_not_Some|]. split; [done|]. unfold session_ok, zlen in *. cbn.
  pose proof (length_trim name). split_and!; try lia; [intros E0; by rewrite E0 in En1 | apply trim_trim].
Qed.

Lemma begin_enrollment_result cap name needed (r : SpeakerRegistry M) :
  enrollment (begin_enrollment cap name needed r).1 = enrollment r
  ∨ (begin_enrollment cap name needed r).2 = Ok tt.
Proof.
  unfold begin_enrollment. repeat (case_match; [by left|]). by right.
Qed.

Lemma take_enrollment (r : SpeakerRegistry M) : enrollment (take_completed_enrollment r).1 = enrollment r
  ∨ enrollment (take_completed_enrollment r).1 = None.
Proof.
  unfold take_completed_enrollment. destruct (enrollment r) as [s|] eqn:Es; [|by left].
  destruct (s_needed s <=? _); [|by left]. right.
  pose proof (register_enrollment (s_name s) (s_embeddings s) (set_enrollment None r)) as Hr.
  destruct (register _ _ _) as [r' b]. cbn in *. done.
Qed.

Lemma enrolling_step (w : World) e w' : enrolling_ok w → lstep w e = Some w' → enrolling_ok w'.
Proof.
  intros [Hs Hp] E. assert (∀ v : World, enrollment (registry v) = enrollment (registry w) →
    match phase (worker v) with AtSample _ => ∀ s, enrollment (registry w) = Some s → enrollment_accepts s = true | _ => True end →
    enrolling_ok v) as Hsame.
  { intros v Hv Hpv. split; [by rewrite Hv|]. by rewrite Hv. }
  assert (∀ r, enrollment r = enrollment (registry w) ∨ (∀ s, enrollment r = Some s → session_ok s ∧ enrollment_accepts s = true) →
    enrolling_ok (set_registry r w)) as Hreg.
  { intros r [Er|Hr].
    - apply Hsame; [done|]. cbn. by destruct (phase (worker w)).
    - split; [by intros s Es; apply Hr|]. cbn. destruct (phase (worker w)); try done. intros s Es. by apply Hr. }
  destruct e; cbn in E.
  - unfold receive in E. destruct (phase (worker w)) eqn:Ep; try done. destruct r; injection E as <-; apply Hsame; try done. by rewrite Ep.
  - unfold worker_step in E. destruct (phase (worker w)) as [|s|s|s km|s km|now|s km|k|e|k|k e|k|] eqn:Ep; try done.
    8: { injection E as <-. destruct e as [e|]; [|by apply Hsame].
         unfold push_sample. destruct (enrollment (registry w)) as [s|] eqn:Es; [|by split; [by cbn; rewrite Es|]].
         split; [|done]. cbn. intros s' [= <-]. destruct (Hs s eq_refl) as (S1 & St & S2 & S3 & S4).
         specialize (Hp s eq_refl). apply Z.ltb_lt in Hp. unfold session_ok, zlen in *. cbn. rewrite length_app. cbn. split_and!; try done; lia. }
    all: repeat (case_match; try done); simplify_eq; try (by apply Hsame; cbn; rewrite ?Ep).
    + destruct (vad (worker w)); [|done]. cbn in E. repeat case_match; simplify_eq; apply Hsame; cbn; by rewrite ?Ep.
    + apply Hsame; [done|]. cbn. intros s' Es. congruence.
  - unfold finish_job in E. destruct (jobs w !! i); [|done]. cbn in E. injection E as <-. by apply Hsame.
  - injection E as <-. destruct (arm_rest now w) as (Hw & _ & _ & Hr & _). apply Hsame; [by rewrite Hr|]. rewrite Hw.
    by destruct (phase (worker w)).
  - injection E as <-. destruct (listen_rest now window_ms w) as (Hw & _ & _ & Hr & _). apply Hsame; [by rewrite Hr|]. rewrite Hw.
    by destruct (phase (worker w)).
  - injection E as <-. apply Hsame; [done|]. by cbn.
  - injection E as <-. apply Hsame; [done|]. by cbn.
  - injection E as <-. apply Hsame; [done|]. by cbn.
  - injection E as <-. apply Hreg. left. by rewrite load_enrollment.
  - injection E as <-. assert (enrollment (remove_speaker name (registry w)).1 = enrollment (registry w)) as Er.
    { unfold remove_speaker. destruct (manager (registry w)) as [m|]; [|done]. by destruct (mgr_remove name m). }
    apply Hreg. by left.
  - injection E as <-. destruct (begin_enrollment_result (capable embed) name needed (registry w)) as [Er|Eok].
    + apply Hreg. by left.
    + destruct (begin_enrollment (capable embed) name needed (registry w)) as [r' res] eqn:Eb. cbn in Eok. subst.
      destruct (begin_session _ _ _ _ _ Eb) as (Hn & -> & Hok). apply Hreg. right. cbn. intros s [= <-]. split; [done|].
      apply Z.ltb_lt. unfold session_ok, zlen in *. cbn in *. lia.
  - injection E as <-. apply Hreg. destruct (take_enrollment (registry w)) as [Er|Er]; [by left | right]. by rewrite Er.
  - injection E as <-. apply Hreg. by right.
Qed.

(** A table of voiceprints exists only for embeddings of some length. *)
Definition sized (r : SpeakerRegistry M) : Prop := is_Some (manager r) → 0 < dim r.

Lemma register_sized name embs (r : SpeakerRegistry M) : sized r → sized (register name embs r).1 ∧ dim (register name embs r).1 = dim r.
Proof.
  intros Hs. unfold register, get_manager. destruct (dim r <=? 0) eqn:Ed; [done|]. apply Z.leb_gt in Ed.
  destruct (match manager r with Some m => Some m | None => mgr_create (dim r) end) as [m|]; [|done].
  destruct (mgr_add name embs m) as [m' b]. split; [intros _; exact Ed | done].
Qed.

Lemma load_sized cap ps (r : SpeakerRegistry M) : sized r → sized (load_speakers cap ps r).1.
Proof.
  unfold load_speakers. destruct cap; [|done]. generalize 0 as n. revert r.
  induction ps as [|[name embs] ps IH]; intros r n Hs; cbn; [done|]. destruct embs as [|e es]; [by apply IH|].
  destruct (zlen _ =? 0); [by apply IH|]. set (r1 := if dim r =? 0 then _ else r).
  assert (sized r1) as Hr1.
  { unfold r1. destruct (Z.eqb_spec (dim r) 0) as [Hd|]; [|done]. intros Hm%Hs. lia. }
  destruct (negb _); [by apply IH|]. destruct (register_sized name (e :: es) r1 Hr1) as [Hr2 _].
  destruct (register name (e :: es) r1) as [r2 b]. by apply IH.
Qed.

Lemma sized_step (w : World) e w' : sized (registry w) → lstep w e = Some w' → sized (registry w').
Proof.
  intros Hs E. assert (∀ v : World, registry v = registry w → sized (registry v)) as Hsame by (by intros v ->).
  destruct e; cbn in E.
  - unfold receive in E. destruct (phase (worker w)); try done. destruct r; injection E as <-; by apply Hsame.
  - unfold worker_step in E. destruct (phase (worker w)) as [|s|s|s km|s km|now|s km|k|e|k|k e|k|]; try done; cbv zeta in E.
    5: { destruct (vad (worker w)); [|done]. cbn in E. repeat (case_match; try done); injection E as <-; by apply Hsame. }
    5: { destruct (keyword_pending (worker w)); [destruct (capture_chunk t s (worker w)) as [k' b]|];
           repeat (case_match; try done); injection E as <-; by apply Hsame. }
    6: { injection E as <-. destruct e; [|by apply Hsame]. unfold sized, push_sample. cbn. by destruct (enrollment (registry w)). }
    all: repeat (case_match; try done); injection E as <-; by apply Hsame.
  - unfold finish_job in E. destruct (jobs w !! i); [|done]. cbn in E. injection E as <-. by apply Hsame.
  - injection E as <-. apply Hsame. apply arm_rest.
  - injection E as <-. apply Hsame. apply listen_rest.
  - injection E as <-. by apply Hsame.
  - injection E as <-. by apply Hsame.
  - injection E as <-. by apply Hsame.
  - injection E as <-. by apply load_sized.
  - injection E as <-. unfold remove_speaker. destruct (manager (registry w)) as [m|] eqn:Em; [|by apply Hsame].
    unfold sized in *. rewrite Em in Hs. destruct (mgr_remove name m). intros _. by apply Hs.
  - injection E as <-. unfold begin_enrollment. cbn. repeat (case_match; [exact Hs|]). exact Hs.
  - injection E as <-. unfold take_completed_enrollment. cbn. destruct (enrollment (registry w)) as [s|]; [|done].
    destruct (s_needed s <=? _); [|done]. pose proof (register_sized (s_name s) (s_embeddings s) (set_enrollment None (registry w)) Hs) as [Hr _].
    by destruct (register _ _ _).
  - injection E as <-. done.
Qed.

Lemma listed_sized (r : SpeakerRegistry M) name : sized r → name ∈ list_speakers r → 0 < dim r.
Proof. unfold sized, list_speakers. destruct (manager r); [by eauto | by intros _ ?%not_elem_of_nil]. Qed.

Lemma hand_out_lost s (r : SpeakerRegistry M) : enrollment r = Some s → zlen (s_embeddings s) = s_needed s →
  s_name s ∈ list_speakers r → 0 < dim r → take_completed_enrollment r = (set_enrollment None r, None).
Proof.
  intros Es Hl Hin Hd. unfold take_completed_enrollment. rewrite Es, Hl, Z.leb_refl. unfold register, get_manager, list_speakers in *.
  cbn. rewrite (proj2 (Z.leb_gt _ _) Hd). destruct (manager r) as [m|] eqn:Em; [|by apply not_elem_of_nil in Hin].
  rewrite (mgr_add_known _ _ _ Hin). unfold set_manager, set_enrollment. cbn. by rewrite Em.
Qed.

(** C16 Enrollment, in every run: the session there is has a trimmed name of 1
    to 32 bytes, wants 1 to 10 samples and never holds more than it wants,
    although samples are computed between two locks and sessions come and go
    meanwhile.  A session that is handed out is complete, has exactly the
    samples it wanted, is over, and its name is enrolled; but when the name of a
    complete session is enrolled already, the hand-out gives nothing and the
    session is lost.  [begin_enrollment] opens such a session when it is given
    an enrolled name with spaces around it, because it compares the name it was
    given and stores the trimmed one; whatever samples that session collects,
    it is lost. *)
Theorem enrollment_sound v c q window d start w :
  lreachable (engine_start v c q window d start) w →
  (∀ s, enrollment (registry w) = Some s → session_ok s)
  ∧ (∀ r name embs, take_completed_enrollment (registry w) = (r, Some (name, embs)) →
       ∃ s, enrollment (registry w) = Some s ∧ name = s_name s ∧ embs = s_embeddings s
         ∧ zlen embs = s_needed s ∧ enrollment r = None ∧ name ∈ list_speakers r)
  ∧ (∀ s, enrollment (registry w) = Some s → zlen (s_embeddings s) = s_needed s → s_name s ∈ list_speakers (registry w) →
       take_completed_enrollment (registry w) = (set_enrollment None (registry w), None))
  ∧ (∀ name needed, capable embed = true → enrollment (registry w) = None → trim name ≠ [] → zlen name <= 32 →
       trim name ∈ list_speakers (registry w) → name ∉ list_speakers (registry w) → 1 <= needed <= 10 →
       begin_enrollment (capable embed) name needed (registry w) = (set_enrollment (Some (mkSession (trim name) needed [])) (registry w), Ok tt)
       ∧ ∀ embs, zlen embs = needed →
           take_completed_enrollment (set_enrollment (Some (mkSession (trim name) needed embs)) (registry w))
           = (set_enrollment None (registry w), None)).
Proof.
  intros Hr. assert (enrolling_ok w) as [Hs _].
  { induction Hr as [|w e w' _ IH E]; [by split|]. by eapply enrolling_step. }
  assert (sized (registry w)) as Hsz.
  { clear Hs. induction Hr as [|w e w' _ IH E]; [by intros []|]. by eapply sized_step. }
  split; [done|]. split; [|split].
  - intros r name embs E. unfold take_completed_enrollment in E. destruct (enrollment (registry w)) as [s|] eqn:Es; [|done].
    destruct (s_needed s <=? zlen (s_embeddings s)) eqn:Ed; [|done]. apply Z.leb_le in Ed.
    destruct (Hs s eq_refl) as (_ & _ & _ & _ & S4). unfold register in E. cbn in E.
    destruct (get_manager _) as [m|]; [|done]. destruct (mgr_add (s_name s) (s_embeddings s) m) as [m' b] eqn:Em.
    destruct b; [|done]. injection E as <- <- <-. exists s. split; [done|]. split; [done|]. split; [done|]. split; [lia|].
    split; [done|]. cbn. apply (mgr_add_all _ _ _ _ _ Em). by right.
  - intros s Es Hl Hin. apply (hand_out_lost s); [done..|]. by eapply listed_sized.
  - intros name needed Hcap Hn Ht Hl Hin Hnin Hnd. split.
    + unfold begin_enrollment, mgr_contains, list_speakers in *. rewrite Hcap, Hn. cbn.
      rewrite (proj2 (Z.ltb_ge _ _) Hl), (proj2 (Z.leb_le 1 needed)), (proj2 (Z.leb_le needed 10)) by lia.
      destruct (bytes_eqb (trim name) []) eqn:Eb; [by apply bytes_eqb_eq in Eb|]. cbn.
      destruct (manager (registry w)) as [m|]; [|done]. by rewrite bool_decide_false.
    + intros embs Hlen. rewrite (hand_out_lost (mkSession (trim name) needed embs)); try done. by eapply listed_sized.
Qed.

(** ** The loops end *)
Lemma drain_empty n (v v' : V) sp e sp' e' : (vad_waiting v <= n)%nat → drain n v sp e = (v', sp', e') → vad_front v' = None.
Proof.
  revert v sp e. induction n as [|n IH]; intros v sp e Hn E; cbn in E.
  - injection E as <- _ _. apply vad_front_waiting. lia.
  - destruct (vad_front v) as [seg|] eqn:Ef; [|by injection E as <- _ _].
    eapply IH, E. rewrite vad_pop_waiting. assert (vad_waiting v ≠ 0%nat) by (intros E0%vad_front_waiting; congruence). lia.
Qed.

Lemma decode_all_done n (q : K) : (kws_backlog q <= n)%nat → kws_ready (decode_all n q) = false.
Proof.
  revert q. induction n as [|n IH]; intros q Hn; cbn.
  - destruct (kws_ready q) eqn:Er; [|done]. pose proof (kws_decode_backlog q Er). lia.
  - destruct (kws_ready q) eqn:Er; [|done]. apply IH. pose proof (kws_decode_backlog q Er). lia.
Qed.

Lemma lrun_app (w : World) es es' : lrun w (es ++ es') = (w ← lrun w es; lrun w es').
Proof. revert w. induction es as [|e es IH]; intros w; cbn; [done|]. destruct (lstep w e); cbn; [apply IH | done]. Qed.

(** The worker is back after at most [n] steps of its own. *)
Definition returns (t : Now) (n : nat) (w : World) : Prop :=
  ∃ i w', (i <= n)%nat ∧ lrun w (replicate i (Goes t)) = Some w' ∧ phase (worker w') = Idle.

Lemma returns_here t n (w : World) : phase (worker w) = Idle → returns t n w.
Proof. intros E. exists 0%nat, w. split; [lia | done]. Qed.
Lemma returns_step t n (w w' : World) : worker_step config embed t w = Some w' → returns t n w' → returns t (S n) w.
Proof. intros E (i & v & Hi & Hr & Hv). exists (S i), v. split; [lia|]. split; [|done]. cbn. by rewrite E. Qed.

Lemma returns_segments t n now v (w : World) : phase (worker w) = AtSegment now → vad (worker w) = Some v →
  vad_waiting v = n → returns t (S n) w.
Proof.
  revert v w. induction n as [|n IH]; intros v w Hp Hv Hn.
  - eapply returns_step; [unfold worker_step; rewrite Hp, Hv; cbn; by rewrite (proj2 (vad_front_waiting v) Hn)|].
    by apply returns_here.
  - destruct (vad_front v) as [seg|] eqn:Ef; [|apply vad_front_waiting in Ef; lia].
    destruct (zlen seg <? 8000) eqn:El; (eapply returns_step; [unfold worker_step; rewrite Hp, Hv; cbn; rewrite Ef, El; reflexivity|]);
      (eapply (IH (vad_pop v)); [cbn; exact Hp | done | rewrite vad_pop_waiting; lia]).
Qed.

(** From the locks behind a wake word. *)
Lemma returns_open t n k (w : World) : phase (worker w) = AtOpen k → returns t (S n) w.
Proof. intros Hp. eapply returns_step; [unfold worker_step; by rewrite Hp|]. by apply returns_here. Qed.
Lemma returns_sample t n e (w : World) : phase (worker w) = AtSample e → returns t (S n) w.
Proof. intros Hp. eapply returns_step; [unfold worker_step; by rewrite Hp|]. apply returns_here. by destruct e. Qed.
Lemma returns_search t k emb (w : World) : phase (worker w) = AtSearch k emb → returns t 2 w.
Proof.
  intros Hp. destruct (wake_gate_allows true (e ← emb; search e (speaker_threshold config) (registry w))) eqn:Eg;
    (eapply returns_step; [unfold worker_step; rewrite Hp; cbv zeta; rewrite Eg; reflexivity|]); [by eapply returns_open | by apply returns_here].
Qed.
Lemma returns_verify t k (w : World) : phase (worker w) = AtVerify k → returns t 3 w.
Proof.
  intros Hp. destruct (num_speakers (registry w) =? 0) eqn:En.
  { eapply returns_step; [unfold worker_step; rewrite Hp, En; reflexivity|]. by eapply returns_open. }
  assert (∃ o, embed = o) as [[e|] Ee] by eauto;
    (eapply returns_step; [unfold worker_step; rewrite Hp, En, Ee; reflexivity|]); [by eapply returns_search | by eapply returns_open].
Qed.
Lemma returns_enroll t k (w : World) : phase (worker w) = AtEnroll k → returns t 4 w.
Proof.
  intros Hp. destruct (match enrollment (registry w) with Some s => enrollment_accepts s | None => false end) eqn:Een.
  - assert (∃ o, embed = o) as [[e|] Ee] by eauto; (eapply returns_step; [unfold worker_step; rewrite Hp, Een, Ee; reflexivity|]);
      [by eapply returns_sample | by apply returns_here].
  - destruct (speaker_verify config) eqn:Ev; (eapply returns_step; [unfold worker_step; rewrite Hp, Een, Ev; reflexivity|]);
      [by eapply returns_verify | by eapply returns_open].
Qed.

Lemma returns_listen t s km (w : World) : phase (worker w) = AtListen s km → returns t 5 w.
Proof.
  intros Hp. unfold returns.
  destruct (keyword_pending (worker w)) as [kw|] eqn:Ek.
  { destruct (capture_chunk t s (worker w)) as [k' b] eqn:Ec.
    destruct (b || (capture_deadline k' <=? instant' t)) eqn:Eb;
      (eapply returns_step; [unfold worker_step; rewrite Hp, Ek, Ec, Eb; reflexivity|]); by apply returns_here. }
  destruct km; [eapply returns_step; [unfold worker_step; rewrite Hp, Ek; reflexivity|]; by apply returns_here|].
  set (q := decode_all (kws_backlog (kws_accept s (kws (worker w)))) (kws_accept s (kws (worker w)))).
  destruct (kws_result q) as [[|b kw]|] eqn:Eq;
    [eapply returns_step; [unfold worker_step; rewrite Hp, Ek; fold q; rewrite Eq; reflexivity|]; by apply returns_here| |
     eapply returns_step; [unfold worker_step; rewrite Hp, Ek; fold q; rewrite Eq; reflexivity|]; by apply returns_here].
  eapply returns_step; [unfold worker_step; rewrite Hp, Ek; fold q; rewrite Eq; reflexivity|].
  by eapply returns_enroll.
Qed.

Definition has_vad (w : World) : Prop :=
  match phase (worker w) with AtSegment _ => is_Some (vad (worker w)) | _ => True end.

Lemma has_vad_step (w : World) e w' : has_vad w → lstep w e = Some w' → has_vad w'.
Proof.
  intros Hv E. assert (host e ∨ (∃ r, e = Receives r) ∨ ∃ t, e = Goes t) as [Hhost | [[r ->] | [t ->]]] by (destruct e; cbn; naive_solver).
  - destruct (host_rest e w w' Hhost E) as (Hw & _). unfold has_vad. by rewrite Hw.
  - cbn in E. unfold receive in E. destruct (phase (worker w)) eqn:Ep; try done. destruct r; injection E as <-; done.
  - cbn in E. unfold worker_step in E. unfold has_vad in *.
    destruct (phase (worker w)) as [|s|s|s km|s km|now|s km|k|e|k|k e|k|] eqn:Ep; try done.
    5: { destruct (vad (worker w)) as [v|] eqn:Ev; [|done]. cbn in E.
         repeat case_match; simplify_eq; cbn in *; try done; by rewrite Ep in *. }
    5: { destruct (keyword_pending (worker w)); [|repeat case_match; by simplify_eq].
         destruct (capture_chunk t s (worker w)) as [k' b]. by destruct (b || _); injection E as <-. }
    all: repeat case_match; simplify_eq; cbn in *; simplify_eq; done.
Qed.

Lemma returns_follow t s km (w : World) : phase (worker w) = AtFollow s km → ∃ n, returns t n w.
Proof.
  intros Hp. destruct (vad (worker w)) as [v|] eqn:Ev.
  - destruct (0 <? follow_until w) eqn:Ef; [destruct (follow_until w <=? unix t) eqn:Eu|].
    + exists 7%nat. eapply returns_step; [unfold worker_step; rewrite Hp, Ev, Ef, Eu; reflexivity|].
      eapply returns_step; [unfold worker_step; cbn; reflexivity|]. by eapply returns_listen.
    + eexists (S (S (vad_waiting (vad_accept s v)))).
      eapply returns_step; [unfold worker_step; rewrite Hp, Ev, Ef, Eu; reflexivity|]. by eapply returns_segments.
    + exists 6%nat. eapply returns_step; [unfold worker_step; rewrite Hp, Ev, Ef; reflexivity|]. by eapply returns_listen.
  - exists 6%nat. eapply returns_step; [unfold worker_step; rewrite Hp, Ev; reflexivity|]. by eapply returns_listen.
Qed.

(** The worker always comes back: wherever it is within a chunk, in every
    run and whatever time it is, finitely many of its own steps bring it
    back to the channel; its loops over segments and over the backlog of the
    wake word have run to their end. *)
Theorem worker_returns v c q window d start w t :
  lreachable (engine_start v c q window d start) w → phase (worker w) ≠ Ended →
  (∃ n, returns t n w)
  ∧ (∀ u u' sp e sp' e', drain (vad_waiting u) u sp e = (u', sp', e') → vad_front (u' : V) = None)
  ∧ ∀ x : K, kws_ready (decode_all (kws_backlog x) x) = false.
Proof.
  intros Hr Hne. assert (has_vad w) as Hv.
  { clear Hne. induction Hr as [|w e w' _ IH E]; [done|]. by eapply has_vad_step. }
  split; [|split; [intros u u' sp e sp' e'; by apply drain_empty | intros x; by apply decode_all_done]].
  unfold has_vad in Hv.
  destruct (phase (worker w)) as [|s|s|s km|s km|now|s km|k|e|k|k e|k|] eqn:Ep; try done.
  - exists 0%nat. by apply returns_here.
  - assert (∀ v : World, phase (worker v) = Idle ∨ (∃ s km, phase (worker v) = AtFollow s km) ∨ (∃ s, phase (worker v) = AtUnmute s) →
      worker_step config embed t w = Some v → ∃ n, returns t n w) as Hgo.
    { intros v' Hv' E. assert (∃ n, returns t n v') as [n Hn]; [|exists (S n); by eapply returns_step].
      destruct Hv' as [Hi | [(s' & km & Hf) | (s' & Hu)]]; [exists 0%nat; by apply returns_here | by eapply returns_follow|].
      assert (∃ n, returns t n (goto (AtFollow s' false) (set_mute_until 0 v'))) as [n Hn] by (by eapply returns_follow).
      exists (S n). eapply returns_step; [unfold worker_step; rewrite Hu; reflexivity | done]. }
    destruct (worker_step config embed t w) as [v'|] eqn:E.
    + apply (Hgo v'); [|done]. unfold worker_step in E. rewrite Ep in E. repeat case_match; simplify_eq; cbn; eauto.
    + unfold worker_step in E. rewrite Ep in E. repeat case_match; done.
  - assert (∃ n, returns t n (goto (AtFollow s false) (set_mute_until 0 w))) as [n Hn] by (by eapply returns_follow).
    exists (S n). eapply returns_step; [unfold worker_step; rewrite Ep; reflexivity | done].
  - by eapply returns_follow.
  - exists 6%nat. eapply returns_step; [unfold worker_step; rewrite Ep; reflexivity|]. by eapply returns_listen.
  - destruct Hv as [v' Hv']. eexists. by eapply returns_segments.
  - exists 5%nat. by eapply returns_listen.
  - exists 4%nat. by eapply returns_enroll.
  - exists 1%nat. eapply returns_step; [unfold worker_step; rewrite Ep; reflexivity|]. apply returns_here. by destruct e.
  - exists 3%nat. by eapply returns_verify.
  - exists 2%nat. by eapply returns_search.
  - exists 1%nat. by eapply returns_open.
Qed.

(** ** Calls of the host that get lost *)

(** A mute latched or a window armed between the worker's look at the old,
    expired deadline and its reset of it is erased. *)
Lemma mute_erased now t s (w w' : World) : phase (worker w) = AtUnmute s →
  lrun w [BeginMute now; Goes t] = Some w' → mute_until w' = 0.
Proof. intros Hp E. cbn in E. unfold worker_step in E. cbn in E. rewrite Hp in E. by injection E as <-. Qed.
Lemma window_erased now ms t s km (w w' : World) : phase (worker w) = AtClose s km →
  lrun w [ArmListen now ms; Goes t] = Some w' → follow_until w' = 0.
Proof.
  intros Hp E. cbn in E. destruct (listen_rest now ms w) as (Hw & _). unfold worker_step in E. rewrite Hw, Hp in E. by injection E as <-.
Qed.

(** Every segment sets the window to two seconds from its chunk, however long
    it was armed for, and a segment of less than half a second leaves it. *)
Lemma segment_shortens now t v seg (w w' : World) : phase (worker w) = AtSegment now → vad (worker w) = Some v →
  vad_front v = Some seg → lrun w [Goes t] = Some w' →
  follow_until w' = if zlen seg <? 8000 then follow_until w else now + 2000.
Proof.
  intros Hp Hv Hf E. cbn in E. unfold worker_step in E. rewrite Hp, Hv in E. cbn in E. rewrite Hf in E.
  destruct (zlen seg <? 8000); by injection E as <-.
Qed.

(** The ring holds the last samples that were received. *)
Lemma ring_push_last samples r : 0 < cap r → zlen (buf r) <= cap r →
  buf (ring_push samples r) = drop (length (buf r ++ samples) - Z.to_nat (cap r)) (buf r ++ samples)
  ∧ zlen (buf (ring_push samples r)) <= cap r ∧ cap (ring_push samples r) = cap r.
Proof.
  intros Hc Hl. unfold ring_push, zlen in *. cbn. split; [f_equal; lia|]. split; [|done]. rewrite length_drop. lia.
Qed.
End laws.

(** ** A concrete engine *)

(** Every chunk is a segment, the chunk of one sample is the wake word. *)
#[local] Instance sample_vad : Vad (list Wave) := {
  vad_accept s v := v ++ [s]; vad_front := head; vad_pop := tail; vad_waiting := length;
  vad_detected v := true; vad_clear _ := []; vad_reset v := v;
}.
#[local] Instance sample_vad_laws : VadLaws (list Wave).
Proof. split; [by intros [] | by intros []]. Qed.

#[local] Instance sample_kws : Kws (list Wave * option bytes) := {
  kws_accept s k := (k.1 ++ [s], k.2);
  kws_ready k := match k.1 with [] => false | _ => true end;
  kws_decode k := (tail k.1, match k.1 with [_] :: _ => Some (lit "bee") | _ => k.2 end);
  kws_backlog k := length k.1; kws_result := snd; kws_reset k := (k.1, None);
}.
#[local] Instance sample_kws_laws : KwsLaws (list Wave * option bytes).
Proof. split. intros [[|x l] o]; cbn; [done | lia]. Qed.

#[local] Instance sample_speakers : Speakers (list bytes) := {
  mgr_create _ := Some [];
  mgr_add name _ m := if bool_decide (name ∈ m) then (m, false) else (m ++ [name], true);
  mgr_search _ _ := head;
  mgr_remove name m := (filter (λ n, n ≠ name) m, bool_decide (name ∈ m)); mgr_all m := m;
}.
#[local] Instance sample_speakers_laws : SpeakersLaws (list bytes).
Proof.
  split; cbn.
  - by intros _ m [= <-].
  - intros name _ m Hin. by rewrite bool_decide_true.
  - intros name _ m m' b. destruct (bool_decide (name ∈ m)) eqn:E; intros [= <- <-] n.
    + set_solver.
    + rewrite elem_of_app, list_elem_of_singleton. naive_solver.
  - intros name m m' b [= <- _] n. rewrite list_elem_of_filter. tauto.
  - intros _ _ m n E. destruct m; [done|]. injection E as ->. left.
Qed.

Definition sample_config : VoiceConfig := mkVoice 4 false (f32_lit 11 20) (f32_of_Z 2) (lit "off").
Definition sample_start : World (list Wave) (list Wave * option bytes) (list bytes) :=
  engine_start sample_config (Some []) (Some []) ([], None) 8000 1 0.
Definition sample_embed : option (Wave → option Wave) := Some (λ w, Some (take 1 w)).
Definition sample_run : World (list Wave) (list Wave * option bytes) (list bytes) → list Event →
    option (World (list Wave) (list Wave * option bytes) (list bytes)) :=
  lrun sample_config (λ w, dec_of_Z (zlen w)) sample_embed.

Definition at_ms (t : Z) (n : nat) : list Event := replicate n (Goes (mkNow t t t)).

Lemma lrun_reachable {V K M} `{Vad V} `{Kws K} `{Speakers M} config tr em es (w0 w w' : World V K M) :
  lreachable config tr em w0 w → lrun config tr em w es = Some w' → lreachable config tr em w0 w'.
Proof.
  revert w. induction es as [|e es IH]; intros w Hr E; cbn in E; [by injection E as <-|].
  destruct (lstep config tr em w e) as [v|] eqn:Ev; [|done]. by apply (IH v); [eapply lreach_step|].
Qed.

(** A wake word, two chunks of a question and its transcript. *)
Definition sample_talk_events : list Event :=
  Receives (Chunk [1]) :: at_ms 0 5 ++ Receives (Chunk [2; 3]) :: at_ms 9500 3
  ++ Receives (Chunk [4]) :: at_ms 10000 3 ++ [JobEnds 0 10050].
Definition sample_talk := default sample_start (sample_run sample_start sample_talk_events).

Definition sample_event : VoiceEvent := mkEvent (lit "bee") (lit "3") 10050 [] false.

Lemma transcripts_exact_witness :
  ∃ newer mid at_ older wave, heard sample_talk = newer ++ HTaken (lit "bee") wave :: mid ++ HOpen (lit "bee") at_ :: older
    ∧ wave = wave_of mid ∧ lit "3" = dec_of_Z (zlen wave) ∧ Forall (λ ch, ch.2 < window_end sample_config 10000 at_) (tail (chunks_of mid)).
Proof.
  assert (lreachable sample_config (λ w, dec_of_Z (zlen w)) sample_embed sample_start sample_talk) as Hr.
  { apply (lrun_reachable _ _ _ sample_talk_events _ sample_start); [apply lreach_start|]. vm_compute. reflexivity. }
  destruct (transcripts_exact sample_config (λ w, dec_of_Z (zlen w)) sample_embed (Some []) (Some []) ([], None) 8000 1 0 sample_talk Hr) as [He _].
  destruct (He sample_event) as (newer & mid & at_ & older & wave & E1 & _ & E2 & E3 & _ & _ & E4); [vm_compute; left|].
  exists newer, mid, at_, older, wave. split; [exact E1|]. split; [exact E2|]. split; [exact E3 | exact E4].
Defined.

(** The mute begins while the worker has the chunk of a wake word in its hands:
    that chunk still opens a capture, the next one is lost. *)
Definition talk_over : World (list Wave) (list Wave * option bytes) (list bytes) :=
  default sample_start (sample_run sample_start (Receives (Chunk [1]) :: at_ms 0 2)).
Definition talk_over_events : list Event := at_ms 10 3 ++ Receives (Chunk [2; 3]) :: at_ms 50 1.
Definition talk_over_end := default sample_start (sample_run (begin_playback_mute 5 talk_over) talk_over_events).

Lemma muted_deaf_witness :
  mute_until talk_over_end = 120005 ∧ keyword_pending (worker talk_over_end) = Some (lit "bee")
  ∧ (∃ (v : World (list Wave) (list Wave * option bytes) (list bytes)) new, keyword_pending (worker v) = Some (lit "bee") ∧ captured (worker v) = [] ∧ heard talk_over_end = new ++ heard v ∧ Forall unheard new).
Proof.
  destruct (muted_deaf sample_config (λ w, dec_of_Z (zlen w)) sample_embed 5 talk_over talk_over_end talk_over_events) as [Hd _].
  - lia.
  - vm_compute. reflexivity.
  - repeat constructor.
  - destruct Hd as (Hm & es1 & es2 & v & _ & _ & _ & _ & _ & Hs & _); [vm_compute; tauto|].
    split; [exact Hm|]. split; [vm_compute; reflexivity|].
    destruct (Hs eq_refl) as [(_ & _ & _ & Hcap & Hkey & _) (new & Hn & Hf)]. exists v, new.
    split; [rewrite <-Hkey; vm_compute; reflexivity|]. split; [rewrite <-Hcap; vm_compute; reflexivity | by split].
Defined.

(** An enrollment of one sample. *)
Definition sample_enroll_events : list Event :=
  BeginEnrollment (lit "Bob") 1 :: Receives (Chunk [1]) :: at_ms 0 5.
Definition sample_enroll := default sample_start (sample_run sample_start sample_enroll_events).

Lemma enrollment_sound_witness :
  ∃ r embs, take_completed_enrollment (registry sample_enroll) = (r, Some (lit "Bob", embs)) ∧ zlen embs = 1
    ∧ lit "Bob" ∈ list_speakers r ∧ (begin_enrollment true (lit " Bob") 1 r).2 = Ok tt.
Proof.
  assert (lreachable sample_config (λ w, dec_of_Z (zlen w)) sample_embed sample_start sample_enroll) as Hr.
  { apply (lrun_reachable _ _ _ sample_enroll_events _ sample_start); [apply lreach_start|]. vm_compute. reflexivity. }
  pose proof (lreach_step _ _ _ _ _ TakeEnrollment _ Hr eq_refl) as Hr'.
  destruct (enrollment_sound sample_config (λ w, dec_of_Z (zlen w)) sample_embed (Some []) (Some []) ([], None) 8000 1 0 sample_enroll Hr)
    as (_ & Ht & _).
  destruct (enrollment_sound sample_config (λ w, dec_of_Z (zlen w)) sample_embed (Some []) (Some []) ([], None) 8000 1 0 _ Hr')
    as (_ & _ & _ & Hb).
  eexists _, _. split; [vm_compute; reflexivity|].
  destruct (Ht (take_completed_enrollment (registry sample_enroll)).1 (lit "Bob") [[sample_f32 1]]) as (s & _ & _ & _ & _ & _ & Hin);
    [vm_compute; reflexivity|].
  split; [vm_compute; reflexivity|]. split; [exact Hin|].
  destruct (Hb (lit " Bob") 1) as [Hok _];
    [vm_compute; reflexivity | vm_compute; reflexivity | vm_compute; discriminate | vm_compute; discriminate | exact Hin | | lia
    | exact (f_equal snd Hok)].
  apply (bool_decide_unpack (¬ (lit " Bob" ∈ list_speakers (take_completed_enrollment (registry sample_enroll)).1))). vm_compute. exact I.
Defined.

Lemma worker_returns_witness :
  ∃ w, sample_run sample_start [Receives (Chunk [1])] = Some w
    ∧ ∃ n, returns sample_config (λ w, dec_of_Z (zlen w)) sample_embed (mkNow 5 5 5) n w.
Proof.
  eexists. split; [vm_compute; reflexivity|].
  destruct (worker_returns sample_config (λ w, dec_of_Z (zlen w)) sample_embed (Some []) (Some []) ([], None) 8000 1 0
    (default sample_start (sample_run sample_start [Receives (Chunk [1])])) (mkNow 5 5 5)) as (Hn & _).
  - apply (lrun_reachable _ _ _ [Receives (Chunk [1])] _ sample_start); [apply lreach_start|]. vm_compute. reflexivity.
  - vm_compute. discriminate.
  - exact Hn.
Defined.
