(* ===== verification/Rounds.v ===== *)
(** * Spoken conversations ([src/runtime/voice_bridge.rs],
    [crates/streaming/src/decision.rs], [lang.rs])

    The bridge between the transcripts of the listening engine and the
    answers: the interruption gate, the away commands, the triage, the answer
    rounds with their generator and speaker tasks, and the conversation they
    share.  Every task is cut at its awaits and at every access to shared
    state: the slot of the active round, the cancel flags, the conversation,
    the mute and the listening window of [Listen]. *)
From Stdlib Require Import ZArith Lia List Bool String Floats.SpecFloat.
From stdpp Require Import base option list numbers gmap.
From S2P Require Import Prelude Text F32 Speech Away.

(** ** Language and decisions ([lang.rs], [decision.rs]) *)
Inductive SpokenLang := Mandarin | Cantonese | English.
#[export] Instance SpokenLang_eq_dec : EqDecision SpokenLang.
Proof. solve_decision. Defined.

Definition CANTONESE_HINT_CHARS : list bytes := map bytes_of_string
  ["咁"; "嘅"; "唔"; "係"; "喺"; "嗰"; "啲"; "乜"; "嘢"; "佢"; "嚟"; "噉"; "咧"; "嚿"; "掂"; "冇";
   "哋"; "畀"; "睇"; "諗"; "谂"; "攞"; "乸"; "孭"; "瞓"; "咗"; "咩"; "啱"; "搵"; "嘥"]%string.
Definition CANTONESE_BIGRAMS : list bytes := map bytes_of_string ["而家"]%string.
Definition CANTONESE_BIGRAM_EXCLUDES : list bytes := map bytes_of_string ["然而家"]%string.

Definition is_ascii_alphabetic (b : Z) : bool := ((65 <=? b) && (b <=? 90)) || ((97 <=? b) && (b <=? 122)).

(** The characters U+4E00 to U+9FFF, by their first two bytes. *)
Fixpoint cjk_count (l : bytes) : Z :=
  match l with
  | a :: ((b :: _) as r) =>
      (if ((a =? 0xE4) && (0xB8 <=? b)) || ((0xE5 <=? a) && (a <=? 0xE9)) then 1 else 0) + cjk_count r
  | _ => 0
  end.

Definition detect (text : bytes) : SpokenLang :=
  if existsb (λ c, contains c text) CANTONESE_HINT_CHARS then Cantonese
  else if existsb (λ b, contains b text) CANTONESE_BIGRAMS && negb (existsb (λ x, contains x text) CANTONESE_BIGRAM_EXCLUDES)
  then Cantonese
  else
    let letters := zlen (List.filter is_ascii_alphabetic text) in
    let cjk := cjk_count text in
    if (2 <=? letters) && (cjk =? 0) then English else Mandarin.

Definition triage_skips_reply (label transcript : bytes) : bool :=
  bytes_eqb label (lit "ignore") && negb (bool_decide (detect transcript = Cantonese)).

Inductive InterruptAction := IStop | ISupersede | IBackchannel.

Definition NEEDLES : list bytes := map bytes_of_string
  ["停"; "别说了"; "闭嘴"; "不用说了"; "不要说了"; "算了"; "收声"; "唔使讲"; "不用讲"; "stop"; "quiet"; "shh"]%string.

(** No other character than [A] to [Z] has a lower case that occurs in a
    needle. *)
Definition stop_words_match (text : bytes) : bool :=
  let t := trim text in
  if 6 <? chars_count t then false
  else let lower := to_lowercase t in existsb (λ n, contains n lower) NEEDLES.

Definition interrupt_policy (label : bytes) (confidence threshold : f32) : InterruptAction :=
  if f32_lt confidence threshold then IBackchannel
  else if bytes_eqb label (lit "supersede") then ISupersede else IBackchannel.

(** ** Rounds *)
Record ChatTurn := mkTurn { is_user : bool; content : bytes }.

(** A reply, whether the pipeline spoke it, whether the round was cancelled;
    or a failure. *)
Inductive Outcome := OOk (reply : option bytes) (spoken cancelled : bool) | OErr.

(** The generator: [GSending] while the callback, past its look at the flag,
    is in [blocking_send]; [GStopped] once the callback has returned [false]. *)
Inductive Gen := GRuns | GSending (d : bytes) | GStopped | GDone (r : option bytes).

(** What follows the sentence that is synthesized ahead, once it is dealt
    with: the next one takes its place before the rest, or it was the last. *)
Definition Next : Type := option (bytes * list bytes).

(** The speaker task: it waits for a delta, cuts its sentences, and for the
    one synthesized ahead waits, checks the flag, mutes, starts the player and
    polls it.  [tail] says that the channel is closed. *)
Inductive SpeakerPc :=
  | SpRecv
  | SpNext (todo : list bytes) (tail : bool)
  | SpAwait (s : bytes) (next : Next) (tail : bool)
  | SpMute (s : bytes) (next : Next) (tail : bool)
  | SpSpawn (s : bytes) (next : Next) (tail : bool)
  | SpPlaying (s : bytes) (next : Next) (tail : bool)
  | SpTail
  | SpFinish
  | SpDone.

Record Speaker := mkSpeaker {
  filter_ : ThinkFilter; splitter : bytes; synth_ahead : option bytes; first : bool; sentences_ : Z; sp : SpeakerPc;
}.
Definition speaker_new : Speaker := mkSpeaker filter_new [] None true 0 SpRecv.

Inductive RoundPc :=
  | Waiting
  | Remote
  | LocalTts
  | Plain
  | Release (o : Outcome)
  | Extend (reply : option bytes) (spoken cancelled : bool)
  | Say (reply : bytes)
  | Saying
  | Arm
  | Over.

Record Round := mkRound {
  question : bytes; history : list ChatTurn; cancel : bool; spoken_prefix : bytes; chan : list bytes;
  gen : Gen; speaker : Speaker; pc : RoundPc; result : option Outcome;
}.
Definition round_new (q : bytes) (h : list ChatTurn) : Round :=
  mkRound q h false [] [] GRuns speaker_new Waiting None.

(** What is played and heard, newest first. *)
Inductive Sound :=
  | LStart (i : nat) (s : bytes)
  | LPlayed (i : nat) (s : bytes)
  | LSay (i : nat) (reply : bytes).

(** The bridge task with the transcript it works on. *)
Inductive BridgePc :=
  | BIdle
  | BGate (t : bytes)
  | BDecide (t : bytes)
  | BAct (t : bytes) (a : InterruptAction)
  | BAway (t : bytes)
  | BAwaySay (t : bytes)
  | BAwaySaying (t : bytes)
  | BAwayArm (t : bytes)
  | BTriage (t : bytes)
  | BAnswer (t : bytes)
  | BSlot (t : bytes) (h : list ChatTurn)
  | BWindow (i : nat).

Record Setup := mkSetup {
  interrupt_enabled : bool; interrupt_confidence : f32; tts_active : bool; has_vad : bool;
}.

(** What the rounds share.  The mute has a writer outside the bridge: the
    watch of away mode holds it around each of its utterances
    ([speak_text] and the greeting of [away_monitor.rs]); [away_speaks] counts
    those that play. *)
Record World := mkWorld {
  rounds : list Round; active_round : option nat; conversation : option (Z * list ChatTurn);
  mute_until : Z; follow_until : Z; follow_window : Z; bridge : BridgePc; sounds : list Sound; away_speaks : nat;
}.

Definition set_rounds (v : list Round) (w : World) : World :=
  mkWorld v (active_round w) (conversation w) (mute_until w) (follow_until w) (follow_window w) (bridge w) (sounds w) (away_speaks w).
Definition set_active_round (v : option nat) (w : World) : World :=
  mkWorld (rounds w) v (conversation w) (mute_until w) (follow_until w) (follow_window w) (bridge w) (sounds w) (away_speaks w).
Definition set_conversation (v : option (Z * list ChatTurn)) (w : World) : World :=
  mkWorld (rounds w) (active_round w) v (mute_until w) (follow_until w) (follow_window w) (bridge w) (sounds w) (away_speaks w).
Definition set_mute (v : Z) (w : World) : World :=
  mkWorld (rounds w) (active_round w) (conversation w) v (follow_until w) (follow_window w) (bridge w) (sounds w) (away_speaks w).
Definition set_follow (v : Z) (w : World) : World :=
  mkWorld (rounds w) (active_round w) (conversation w) (mute_until w) v (follow_window w) (bridge w) (sounds w) (away_speaks w).
Definition set_window (v : Z) (w : World) : World :=
  mkWorld (rounds w) (active_round w) (conversation w) (mute_until w) (follow_until w) v (bridge w) (sounds w) (away_speaks w).
Definition set_bridge (v : BridgePc) (w : World) : World :=
  mkWorld (rounds w) (active_round w) (conversation w) (mute_until w) (follow_until w) (follow_window w) v (sounds w) (away_speaks w).
Definition sound (x : Sound) (w : World) : World :=
  mkWorld (rounds w) (active_round w) (conversation w) (mute_until w) (follow_until w) (follow_window w) (bridge w) (x :: sounds w) (away_speaks w).
Definition set_away_speaks (v : nat) (w : World) : World :=
  mkWorld (rounds w) (active_round w) (conversation w) (mute_until w) (follow_until w) (follow_window w) (bridge w) (sounds w) v.

Definition set_round (i : nat) (r : Round) (w : World) : World := set_rounds (<[i := r]> (rounds w)) w.

Definition set_cancel (r : Round) : Round :=
  mkRound (question r) (history r) true (spoken_prefix r) (chan r) (gen r) (speaker r) (pc r) (result r).
Definition set_prefix (p : bytes) (r : Round) : Round :=
  mkRound (question r) (history r) (cancel r) p (chan r) (gen r) (speaker r) (pc r) (result r).
Definition set_chan (c : list bytes) (r : Round) : Round :=
  mkRound (question r) (history r) (cancel r) (spoken_prefix r) c (gen r) (speaker r) (pc r) (result r).
Definition set_gen (g : Gen) (r : Round) : Round :=
  mkRound (question r) (history r) (cancel r) (spoken_prefix r) (chan r) g (speaker r) (pc r) (result r).
Definition set_speaker (s : Speaker) (r : Round) : Round :=
  mkRound (question r) (history r) (cancel r) (spoken_prefix r) (chan r) (gen r) s (pc r) (result r).
Definition set_pc (p : RoundPc) (r : Round) : Round :=
  mkRound (question r) (history r) (cancel r) (spoken_prefix r) (chan r) (gen r) (speaker r) p (result r).
Definition set_outcome (o : Outcome) (r : Round) : Round :=
  mkRound (question r) (history r) (cancel r) (spoken_prefix r) (chan r) (gen r) (speaker r) (Release o) (Some o).

Definition set_sp (p : SpeakerPc) (s : Speaker) : Speaker :=
  mkSpeaker (filter_ s) (splitter s) (synth_ahead s) (first s) (sentences_ s) p.
Definition set_ahead (a : option bytes) (p : SpeakerPc) (s : Speaker) : Speaker :=
  mkSpeaker (filter_ s) (splitter s) a (first s) (sentences_ s) p.

(** [voice_engine.arm_listen] and [arm_follow_up], see [Listen]. *)
Definition arm_listen (now ms : Z) (c : Setup) (w : World) : World :=
  if has_vad c then set_follow (wrap64 (now + ms)) w else w.
Definition arm_follow_up (now : Z) (c : Setup) (w : World) : World :=
  if (follow_window w =? 0) || negb (has_vad c) then w else set_follow (wrap64 (now + follow_window w)) w.
Definition begin_mute (now : Z) (w : World) : World := set_mute (now + 120000) w.
Definition end_mute (w : World) : World := set_mute 0 w.

(** ** The generator and the speaker of the local leg *)

(** The callback of a delta looks at the flag. *)
Definition gen_delta (d : bytes) (r : Round) : option Round :=
  match gen r with
  | GRuns => Some (set_gen (if cancel r then GStopped else GSending d) r)
  | _ => None
  end.
(** [blocking_send]: it fails once the receiver is gone and otherwise waits
    for room ([None]). *)
Definition gen_send (r : Round) : option Round :=
  match gen r with
  | GSending d =>
      match sp (speaker r) with
      | SpDone => Some (set_gen GStopped r)
      | _ => if zlen (chan r) <? 8 then Some (set_gen GRuns (set_chan (chan r ++ [d]) r)) else None
      end
  | _ => None
  end.
Definition gen_end (reply : option bytes) (r : Round) : option Round :=
  match gen r with GRuns | GStopped => Some (set_gen (GDone reply) r) | _ => None end.

(** What the synthesizer and the player answer; to a poll, [NoPlayer] is that
    the player still runs. *)
Inductive Answer := Yes | No | NoPlayer.

(** After a sentence is dealt with. *)
Definition go_on (next : Next) (tail : bool) (s : Speaker) : Speaker :=
  match next with
  | Some (ahead, todo) => set_ahead (Some ahead) (SpNext todo tail) s
  | None => set_sp SpFinish s
  end.

(** What a step of the speaker does besides changing its round: the mute it
    latches or lifts, and what is heard. *)
Inductive MuteOp := MKeep | MLatch | MLift.
Definition Effect : Type := Round * MuteOp * list Sound.

Definition played (i : nat) (s : bytes) (next : Next) (tail : bool) (r : Round) : Effect :=
  let sk := speaker r in
  let sk := mkSpeaker (filter_ sk) (splitter sk) (synth_ahead sk) (first sk) (sentences_ sk + 1) (sp sk) in
  (set_prefix (spoken_prefix r ++ s ++ lit " ") (set_speaker (go_on next tail sk) r), MKeep, [LPlayed i s]).

(** One step of the speaker of round [i]. *)
Definition speaker_step (i : nat) (a : Answer) (r : Round) : option Effect :=
  let sk := speaker r in
  let become sk := Some (set_speaker sk r, MKeep, []) in
  match sp sk with
  | SpRecv =>
      match chan r, gen r with
      | d :: ds, _ =>
          if cancel r then Some (set_speaker (set_sp SpTail sk) (set_chan ds r), MKeep, [])
          else
            let '(f, visible) := filter_push (filter_ sk) d in
            let '(sentences, buf) := splitter_push (splitter sk) visible in
            Some (set_speaker (mkSpeaker f buf (synth_ahead sk) (first sk) (sentences_ sk) (SpNext sentences false)) (set_chan ds r),
                  MKeep, [])
      | [], GDone _ => become (set_sp SpTail sk)
      | [], _ => None
      end
  | SpNext (s :: todo) tail =>
      match synth_ahead sk with
      | Some p => become (set_ahead None (SpAwait p (Some (s, todo)) tail) sk)
      | None => become (set_ahead (Some s) (SpNext todo tail) sk)
      end
  | SpNext [] false => become (set_sp SpRecv sk)
  | SpNext [] true =>
      match synth_ahead sk with
      | Some p => become (set_ahead None (SpAwait p None true) sk)
      | None => become (set_sp SpFinish sk)
      end
  | SpAwait s next tail =>
      match a with
      | Yes => if cancel r then become (go_on next tail sk) else become (set_sp (SpMute s next tail) sk)
      | _ => become (go_on next tail sk)
      end
  | SpMute s next tail =>
      Some (set_speaker (mkSpeaker (filter_ sk) (splitter sk) (synth_ahead sk) false (sentences_ sk) (SpSpawn s next tail)) r,
            if first sk then MLatch else MKeep, [])
  | SpSpawn s next tail =>
      match a with
      | Yes => Some (set_speaker (set_sp (SpPlaying s next tail) sk) r, MKeep, [LStart i s])
      | NoPlayer => Some (played i s next tail r)
      | No => become (go_on next tail sk)
      end
  | SpPlaying s next tail =>
      match a with
      | Yes => Some (played i s next tail r)
      | NoPlayer => if cancel r then become (go_on next tail sk) else become sk
      | No => become (go_on next tail sk)
      end
  | SpTail =>
      if cancel r then become (set_sp SpFinish sk)
      else
        let '(rest, buf) := splitter_flush (splitter sk) in
        become (mkSpeaker (filter_ sk) buf (synth_ahead sk) (first sk) (sentences_ sk)
                  (SpNext (match rest with Some t => [t] | None => [] end) true))
  | SpFinish => Some (set_speaker (set_sp SpDone sk) r, if first sk then MKeep else MLift, [])
  | SpDone => None
  end.

Definition mute_op (m : MuteOp) (now : Z) (w : World) : World :=
  match m with MKeep => w | MLatch => begin_mute now w | MLift => end_mute w end.
Definition have_effect (i : nat) (now : Z) (x : Effect) (w : World) : World :=
  let '(r, m, l) := x in foldr sound (mute_op m now (set_round i r w)) l.

(** ** A round *)
Definition local_outcome (reply : bytes) (spoken : bool) (r : Round) : Outcome :=
  if cancel r then
    let prefix := trim (spoken_prefix r) in
    OOk (if bytes_eqb prefix [] then None else Some prefix) spoken true
  else OOk (Some reply) spoken false.

(** The end of the remote legs: a reply, a failure, or on to the local one. *)
Inductive RemoteEnd := RReply (reply : bytes) | RFailed | RLocal.

Definition extend_turns (q : bytes) (reply : option bytes) (turns : list ChatTurn) : list ChatTurn :=
  let turns := turns ++ [mkTurn true q] ++ match reply with Some a => [mkTurn false a] | None => [] end in
  drop (length turns - 8) turns.

Definition round_step (c : Setup) (i : nat) (now : Z) (e : RemoteEnd) (plain : option bytes) (r : Round) (w : World) : option World :=
  match pc r with
  | Waiting | Over => None
  | Remote =>
      Some (set_round i (match e with
                         | RReply reply => set_outcome (OOk (Some reply) false false) r
                         | RFailed => set_outcome OErr r
                         | RLocal => set_pc (if tts_active c then LocalTts else Plain) r
                         end) w)
  | Plain =>
      Some (set_round i (match plain with
                         | Some reply => set_outcome (local_outcome reply false r) r
                         | None => set_outcome OErr r
                         end) w)
  | LocalTts =>
      match gen r, sp (speaker r) with
      | GDone (Some reply), SpDone => Some (set_round i (set_outcome (local_outcome reply (0 <? sentences_ (speaker r)) r) r) w)
      | GDone None, SpDone => Some (set_round i (set_outcome OErr r) w)
      | _, _ => None
      end
  | Release o =>
      let w := if bool_decide (active_round w = Some i) then set_active_round None w else w in
      Some (set_round i (set_pc (match o with OOk reply spoken cancelled => Extend reply spoken cancelled | OErr => Over end) r) w)
  | Extend reply spoken cancelled =>
      let turns := match conversation w with Some (_, turns) => turns | None => [] end in
      let w := set_conversation (Some (now, extend_turns (question r) reply turns)) w in
      Some (set_round i (set_pc (if tts_active c && negb spoken && negb cancelled then Say (default [] reply) else Arm) r) w)
  | Say reply => Some (sound (LSay i reply) (begin_mute now (set_round i (set_pc Saying r) w)))
  | Saying => Some (end_mute (set_round i (set_pc Arm r) w))
  | Arm => Some (arm_follow_up now c (set_round i (set_pc Over r) w))
  end.

(** ** The bridge *)
Definition cancel_active (w : World) : World :=
  match active_round w with
  | Some i => set_active_round None (set_rounds (alter set_cancel i (rounds w)) w)
  | None => w
  end.

(** The conversation of the last two minutes, or a fresh one. *)
Definition join_conversation (now : Z) (w : World) : World :=
  match conversation w with
  | Some (at_, _) => if (now - at_) / 1000 <? 120 then w else set_conversation (Some (now, [])) w
  | None => set_conversation (Some (now, [])) w
  end.

(** [d] is what the decision engine answers, nothing when it is off or fails;
    whether voice commands and the chat engine are on is read at the step. *)
Definition bridge_step (c : Setup) (now : Z) (d : option (bytes * f32)) (voice_control chat_active : bool) (w : World) : option World :=
  match bridge w with
  | BIdle => None
  | BGate t =>
      Some (set_bridge
        (if interrupt_enabled c && bool_decide (is_Some (active_round w)) then
           if bytes_eqb (trim t) [] then BIdle else if stop_words_match t then BAct t IStop else BDecide t
         else BAway t) w)
  | BDecide t =>
      Some (set_bridge (BAct t (match d with
                                | Some (label, confidence) => interrupt_policy label confidence (interrupt_confidence c)
                                | None => IBackchannel
                                end)) w)
  | BAct t IStop => Some (set_bridge BIdle (cancel_active w))
  | BAct t IBackchannel => Some (set_bridge BIdle (arm_listen now 180000 c w))
  | BAct t ISupersede => Some (set_bridge (BAway t) (cancel_active w))
  | BAway t =>
      Some (set_bridge (if bool_decide (is_Some (match_voice_command t)) && voice_control then BAwaySay t else BTriage t) w)
  | BAwaySay t => Some (if tts_active c then begin_mute now (set_bridge (BAwaySaying t) w) else set_bridge (BAwayArm t) w)
  | BAwaySaying t => Some (end_mute (set_bridge (BAwayArm t) w))
  | BAwayArm t => Some (arm_follow_up now c (set_bridge BIdle w))
  | BTriage t =>
      let skip := match d with Some (label, _) => triage_skips_reply label t | None => false end in
      Some (set_bridge (if negb skip && chat_active && negb (bytes_eqb (trim t) []) then BAnswer t else BIdle) w)
  | BAnswer t =>
      Some (set_bridge (BSlot t (take 8 (match conversation w with Some (_, turns) => turns | None => [] end))) w)
  | BSlot t h =>
      let i := length (rounds w) in
      Some (set_bridge (BWindow i) (set_active_round (Some i) (set_rounds (rounds w ++ [round_new t h]) w)))
  | BWindow i =>
      Some (set_bridge BIdle (set_rounds (alter (set_pc Remote) i (rounds w))
              (if interrupt_enabled c then arm_listen now 180000 c w else w)))
  end.

Inductive Event :=
  | Transcript (t : bytes) (now : Z)
  | BridgeGoes (now : Z) (d : option (bytes * f32)) (voice_control chat_active : bool)
  | Delta (i : nat) (d : bytes)
  | Sends (i : nat)
  | Generated (i : nat) (reply : option bytes)
  | SpeakerGoes (i : nat) (now : Z) (a : Answer)
  | RoundGoes (i : nat) (now : Z) (e : RemoteEnd) (plain : option bytes)
  | WindowMoves (v : Z)
  | WindowLength (ms : Z)
  | MuteExpires
  | AwaySpeaks (now : Z)
  | AwaySpoke.

(** A step of the local leg of a round. *)
Definition on_local (i : nat) (f : Round → option World) (w : World) : option World :=
  r ← rounds w !! i;
  match pc r with LocalTts => f r | _ => None end.

Definition vstep (c : Setup) (w : World) (e : Event) : option World :=
  match e with
  | Transcript t now =>
      match bridge w with BIdle => Some (set_bridge (BGate t) (join_conversation now w)) | _ => None end
  | BridgeGoes now d vc ca => bridge_step c now d vc ca w
  | Delta i d => on_local i (λ r, r ← gen_delta d r; Some (set_round i r w)) w
  | Sends i => on_local i (λ r, r ← gen_send r; Some (set_round i r w)) w
  | Generated i reply => on_local i (λ r, r ← gen_end reply r; Some (set_round i r w)) w
  | SpeakerGoes i now a => on_local i (λ r, x ← speaker_step i a r; Some (have_effect i now x w)) w
  | RoundGoes i now e plain => r ← rounds w !! i; round_step c i now e plain r w
  | WindowMoves v => Some (set_follow v w)
  | WindowLength ms => Some (set_window ms w)
  | MuteExpires => Some (end_mute w)
  | AwaySpeaks now => Some (begin_mute now (set_away_speaks (S (away_speaks w)) w))
  | AwaySpoke => match away_speaks w with S n => Some (end_mute (set_away_speaks n w)) | O => None end
  end.

Fixpoint vrun (c : Setup) (w : World) (es : list Event) : option World :=
  match es with
  | [] => Some w
  | e :: es => w ← vstep c w e; vrun c w es
  end.

Definition bridge_new (window : Z) : World := mkWorld [] None None 0 0 window BIdle [] 0.
Inductive vreachable (c : Setup) (w0 : World) : World → Prop :=
  | vreach_start : vreachable c w0 w0
  | vreach_step w e w' : vreachable c w0 w → vstep c w e = Some w' → vreachable c w0 w'.

(** ** How a step changes a round *)
Definition same_task (r r' : Round) : Prop :=
  question r' = question r ∧ history r' = history r ∧ cancel r' = cancel r ∧ spoken_prefix r' = spoken_prefix r
  ∧ chan r' = chan r ∧ gen r' = gen r ∧ speaker r' = speaker r.

(** What [round_step] makes of a round. *)
Inductive advanced (r r' : Round) : Prop :=
  | adv_remote reply : pc r = Remote → r' = set_outcome (OOk (Some reply) false false) r → advanced r r'
  | adv_failed : (pc r = Remote ∨ pc r = Plain ∨ pc r = LocalTts ∧ sp (speaker r) = SpDone) → r' = set_outcome OErr r → advanced r r'
  | adv_local p : pc r = Remote → (p = LocalTts ∨ p = Plain) → r' = set_pc p r → advanced r r'
  | adv_plain reply : pc r = Plain → r' = set_outcome (local_outcome reply false r) r → advanced r r'
  | adv_spoken reply : pc r = LocalTts → gen r = GDone (Some reply) → sp (speaker r) = SpDone →
      r' = set_outcome (local_outcome reply (0 <? sentences_ (speaker r)) r) r → advanced r r'
  | adv_release o : pc r = Release o →
      r' = set_pc (match o with OOk reply spoken cancelled => Extend reply spoken cancelled | OErr => Over end) r → advanced r r'
  | adv_end p : match pc r with Extend _ _ _ | Say _ | Saying | Arm => True | _ => False end →
      match pc r, p with
      | Extend _ _ true, Arm | Extend _ _ false, (Say _ | Arm) | Say _, Saying | Saying, Arm | Arm, Over => True
      | _, _ => False
      end → r' = set_pc p r → advanced r r'.

Lemma arm_follow_up_rest now c w : rounds (arm_follow_up now c w) = rounds w ∧ active_round (arm_follow_up now c w) = active_round w
  ∧ bridge (arm_follow_up now c w) = bridge w ∧ sounds (arm_follow_up now c w) = sounds w
  ∧ mute_until (arm_follow_up now c w) = mute_until w ∧ conversation (arm_follow_up now c w) = conversation w.
Proof. unfold arm_follow_up. by destruct (_ || _). Qed.
Lemma arm_listen_rest now ms c w : rounds (arm_listen now ms c w) = rounds w ∧ active_round (arm_listen now ms c w) = active_round w
  ∧ bridge (arm_listen now ms c w) = bridge w ∧ sounds (arm_listen now ms c w) = sounds w
  ∧ mute_until (arm_listen now ms c w) = mute_until w ∧ conversation (arm_listen now ms c w) = conversation w.
Proof. unfold arm_listen. by destruct (has_vad c). Qed.

Definition said_by (i : nat) (r : Round) : list Sound := match pc r with Say reply => [LSay i reply] | _ => [] end.

Lemma round_step_spec c i now e plain r w w' : round_step c i now e plain r w = Some w' →
  ∃ r', rounds w' = <[i := r']> (rounds w) ∧ advanced r r' ∧ sounds w' = said_by i r ++ sounds w ∧ bridge w' = bridge w
    ∧ active_round w' = match pc r with
                        | Release _ => if bool_decide (active_round w = Some i) then None else active_round w
                        | _ => active_round w
                        end
    ∧ mute_until w' = match pc r with Say _ => now + 120000 | Saying => 0 | _ => mute_until w end
    ∧ conversation w' = match pc r with
                        | Extend reply _ _ => Some (now, extend_turns (question r) reply
                            (match conversation w with Some (_, turns) => turns | None => [] end))
                        | _ => conversation w
                        end.
Proof.
  unfold round_step, said_by. intros E. destruct (pc r) eqn:Ep; try done.
  - injection E as <-. destruct e as [reply| |]; (eexists; split; [reflexivity|]; split; [|by split_and!]).
    + by eapply adv_remote. + eapply adv_failed; [by left | done]. + eapply adv_local; [done | | done]. destruct (tts_active c); tauto.
  - destruct (gen r) as [| | |[reply|]] eqn:Eg, (sp (speaker r)) eqn:Es; try done; injection E as <-;
      (eexists; split; [reflexivity|]; split; [|by split_and!]); [by eapply adv_spoken | eapply adv_failed; [tauto | done]].
  - injection E as <-. destruct plain as [reply|]; (eexists; split; [reflexivity|]; split; [|by split_and!]);
      [by eapply adv_plain | eapply adv_failed; [tauto | done]].
  - injection E as <-. case_bool_decide; (eexists; split; [reflexivity|]; split; [by eapply adv_release | by split_and!]).
  - injection E as <-. eexists. split; [reflexivity|]. split; [|by split_and!].
    eapply adv_end; [by rewrite Ep | | reflexivity]. rewrite Ep. destruct (tts_active c), spoken, cancelled; exact I.
  - injection E as <-. eexists. split; [reflexivity|]. split; [|by split_and!]. eapply adv_end; [by rewrite Ep | | reflexivity]. by rewrite Ep.
  - injection E as <-. eexists. split; [reflexivity|]. split; [|by split_and!]. eapply adv_end; [by rewrite Ep | | reflexivity]. by rewrite Ep.
  - injection E as <-. destruct (arm_follow_up_rest now c (set_round i (set_pc Over r) w)) as (-> & -> & -> & -> & -> & ->).
    eexists. split; [reflexivity|]. split; [|by split_and!]. eapply adv_end; [by rewrite Ep | | reflexivity]. by rewrite Ep.
Qed.

Lemma have_effect_rest i now r m l w :
  let w' := have_effect i now (r, m, l) w in
  rounds w' = <[i := r]> (rounds w) ∧ sounds w' = l ++ sounds w ∧ bridge w' = bridge w ∧ active_round w' = active_round w
  ∧ mute_until w' = match m with MKeep => mute_until w | MLatch => now + 120000 | MLift => 0 end
  ∧ conversation w' = conversation w.
Proof. cbn. induction l as [|x l IH]; cbn; [by destruct m|]. destruct IH as (I1 & I2 & I3 & I4 & I5 & I6). by rewrite I2. Qed.

(** The steps of the generator and the speaker leave the rest of a round. *)
Definition same_place (r r' : Round) : Prop := pc r' = pc r ∧ cancel r' = cancel r ∧ result r' = result r ∧ question r' = question r.

(** The step of the generator that an event is. *)
Definition gen_step (e : Event) (r : Round) : option Round :=
  match e with Delta _ d => gen_delta d r | Sends _ => gen_send r | Generated _ reply => gen_end reply r | _ => None end.

Lemma gen_step_place e r r' : gen_step e r = Some r' → same_place r r' ∧ speaker r' = speaker r ∧ spoken_prefix r' = spoken_prefix r.
Proof.
  unfold gen_step, gen_delta, gen_send, gen_end. intros E. destruct e; try done; destruct (gen r); try done;
    repeat (case_match; try done); by injection E as <-.
Qed.
Lemma speaker_step_place i a r r' m l : speaker_step i a r = Some (r', m, l) → same_place r r'.
Proof.
  unfold speaker_step, played, splitter_flush. intros E.
  destruct (sp (speaker r)) as [|[|s todo] [|]|s n t|s n t|s n t|s n t| | |].
  1: destruct (chan r) as [|d ds]; [destruct (gen r) as [| | |o]|]; try done;
     [|destruct (cancel r) eqn:Ec; [|destruct (filter_push _ _) as [f v]; destruct (splitter_push _ _) as [ss b]]].
  all: repeat (case_match; try done); simplify_eq; done.
Qed.

(** ** One answer at a time *)
Definition unreleased (r : Round) : bool :=
  match pc r with Extend _ _ _ | Say _ | Saying | Arm | Over => false | _ => true end.
Definition past_gate (b : BridgePc) : bool :=
  match b with
  | BAway _ | BAwaySay _ | BAwaySaying _ | BAwayArm _ | BTriage _ | BAnswer _ | BSlot _ _ => true
  | _ => false
  end.

Record exclusive (w : World) : Prop := {
  ex_active : ∀ i r, rounds w !! i = Some r → unreleased r = true → cancel r = false → active_round w = Some i;
  ex_slot : ∀ i, active_round w = Some i → ∃ r, rounds w !! i = Some r ∧ unreleased r = true ∧ cancel r = false;
  ex_gate : past_gate (bridge w) = true → active_round w = None;
  ex_waiting : ∀ i r, rounds w !! i = Some r → pc r = Waiting → bridge w = BWindow i;
  ex_window : ∀ i, bridge w = BWindow i → ∃ r, rounds w !! i = Some r ∧ pc r = Waiting;
}.

(** A round moves within its task. *)
Lemma exclusive_round w w' i r r' : exclusive w → rounds w !! i = Some r → rounds w' = <[i := r']> (rounds w) →
  active_round w' = active_round w → bridge w' = bridge w → cancel r' = cancel r → unreleased r' = unreleased r →
  pc r ≠ Waiting → pc r' ≠ Waiting → exclusive w'.
Proof.
  intros [X1 X2 X3 X4 X5] Hi Hr Ha Hb Hc Hu Hw Hw'.
  assert (∀ j s, rounds w' !! j = Some s → ∃ s0, rounds w !! j = Some s0 ∧ cancel s = cancel s0 ∧ unreleased s = unreleased s0
    ∧ (pc s = Waiting → pc s0 = Waiting)) as Hback.
  { intros j s. rewrite Hr. destruct (decide (j = i)) as [->|Hj]; [|rewrite list_lookup_insert_ne by done; intros; by exists s].
    rewrite list_lookup_insert_eq by (by eapply lookup_lt_Some). intros [= <-]. exists r. by split_and!. }
  assert (∀ j s, rounds w !! j = Some s → ∃ s', rounds w' !! j = Some s' ∧ cancel s' = cancel s ∧ unreleased s' = unreleased s
    ∧ (pc s = Waiting → pc s' = Waiting)) as Hforth.
  { intros j s Hs. rewrite Hr. destruct (decide (j = i)) as [->|Hj]; [|rewrite list_lookup_insert_ne by done; by exists s].
    rewrite list_lookup_insert_eq by (by eapply lookup_lt_Some). rewrite Hi in Hs. injection Hs as <-. exists r'. by split_and!. }
  split.
  - intros j s Hs Hus Hcs. rewrite Ha. destruct (Hback j s Hs) as (s0 & H0 & E1 & E2 & _). apply (X1 j s0); congruence.
  - intros j. rewrite Ha. intros Hj. destruct (X2 j Hj) as (s & Hs & Hus & Hcs). destruct (Hforth j s Hs) as (s' & H' & E1 & E2 & _).
    exists s'. split_and!; congruence.
  - by rewrite Ha, Hb.
  - intros j s Hs Hws. rewrite Hb. destruct (Hback j s Hs) as (s0 & H0 & _ & _ & E3). apply (X4 j s0); [done | by apply E3].
  - intros j. rewrite Hb. intros Hj. destruct (X5 j Hj) as (s & Hs & Hws). destruct (Hforth j s Hs) as (s' & H' & _ & _ & E3). exists s'. by split; [|apply E3].
Qed.

Lemma exclusive_release w w' i r r' : exclusive w → rounds w !! i = Some r → pc r ≠ Waiting → rounds w' = <[i := r']> (rounds w) →
  bridge w' = bridge w → unreleased r' = false → pc r' ≠ Waiting →
  active_round w' = (if bool_decide (active_round w = Some i) then None else active_round w) → exclusive w'.
Proof.
  intros [X1 X2 X3 X4 X5] Hi Hnw Hr Hb Hu Hw Ha.
  assert (∀ j s, j ≠ i → rounds w' !! j = Some s ↔ rounds w !! j = Some s) as Hne by (intros j s Hj; by rewrite Hr, list_lookup_insert_ne).
  assert (rounds w' !! i = Some r') as Hi' by (rewrite Hr; apply list_lookup_insert_eq; by eapply lookup_lt_Some).
  split.
  - intros j s Hs Hus Hcs. destruct (decide (j = i)) as [->|Hj]; [congruence|]. rewrite Ha.
    pose proof (X1 j s (proj1 (Hne j s Hj) Hs) Hus Hcs) as Hact. rewrite Hact. rewrite bool_decide_false; congruence.
  - intros j. rewrite Ha. case_bool_decide as Hact; [done|]. intros Hj. destruct (X2 j Hj) as (s & Hs & Hus & Hcs).
    exists s. split; [|done]. apply Hne; [congruence | done].
  - rewrite Hb, Ha. intros Hg. rewrite (X3 Hg). by case_bool_decide.
  - intros j s Hs Hws. rewrite Hb. destruct (decide (j = i)) as [->|Hj]; [congruence|]. by apply (X4 j s), Hws; apply Hne.
  - intros j. rewrite Hb. intros Hj. destruct (X5 j Hj) as (s & Hs & Hws). exists s. split; [|done]. apply Hne; [congruence | done].
Qed.

(** Only the bridge moves, and no round waits for it. *)
Lemma exclusive_bridge w w' : exclusive w → rounds w' = rounds w → active_round w' = active_round w →
  (∀ i, bridge w ≠ BWindow i) → (∀ i, bridge w' ≠ BWindow i) → (past_gate (bridge w') = true → active_round w = None) → exclusive w'.
Proof.
  intros [X1 X2 X3 X4 X5] Hr Ha Hb Hb' Hg. split; rewrite ?Hr, ?Ha; try done.
  - intros i r Hi Hw. by destruct (Hb i (X4 i r Hi Hw)).
  - intros i Hi. by destruct (Hb' i).
Qed.

Lemma exclusive_cancel w w' : exclusive w → rounds w' = rounds (cancel_active w) → active_round w' = None →
  (∀ i, bridge w ≠ BWindow i) → (∀ i, bridge w' ≠ BWindow i) → exclusive w'.
Proof.
  intros [X1 X2 X3 X4 X5] Hr Ha Hb Hb'.
  assert (∀ j s, rounds w' !! j = Some s → pc s ≠ Waiting ∧ (unreleased s = true → cancel s = true)) as Hall.
  { intros j s. rewrite Hr. unfold cancel_active. destruct (active_round w) as [i|] eqn:Eact; cbn.
    - destruct (decide (j = i)) as [->|Hj].
      + rewrite list_lookup_alter_eq. destruct (rounds w !! i) as [s0|] eqn:E0; cbn; [|done]. intros [= <-]. cbn.
        split; [|done]. intros Hw. by destruct (Hb i (X4 i s0 E0 Hw)).
      + rewrite list_lookup_alter_ne by done. intros Hs. split; [intros Hw; by destruct (Hb j (X4 j s Hs Hw))|].
        intros Hu. apply not_false_iff_true. intros Hc. pose proof (X1 j s Hs Hu Hc). congruence.
    - intros Hs. split; [intros Hw; by destruct (Hb j (X4 j s Hs Hw))|].
      intros Hu. apply not_false_iff_true. intros Hc. by pose proof (X1 j s Hs Hu Hc). }
  split.
  - intros j s Hs Hus Hcs. destruct (Hall j s Hs) as [_ Hc]. rewrite (Hc Hus) in Hcs. done.
  - by rewrite Ha.
  - by rewrite Ha.
  - intros j s Hs Hw. by destruct (Hall j s Hs).
  - intros j Hj. by destruct (Hb' j).
Qed.

Lemma cancel_active_rest w : active_round (cancel_active w) = None ∧ bridge (cancel_active w) = bridge w ∧ sounds (cancel_active w) = sounds w
  ∧ mute_until (cancel_active w) = mute_until w ∧ conversation (cancel_active w) = conversation w.
Proof. unfold cancel_active. by destruct (active_round w) eqn:E. Qed.

Lemma exclusive_bridge_step c now d vc ca w w' : interrupt_enabled c = true → exclusive w → bridge_step c now d vc ca w = Some w' → exclusive w'.
Proof.
  intros Hc HX E. unfold bridge_step in E. pose proof (ex_gate _ HX) as Hgate.
  destruct (bridge w) as [|t|t|t [| |]|t|t|t|t|t|t|t h|i] eqn:Eb; try done; cbn in Hgate.
  - rewrite Hc in E. injection E as <-. apply (exclusive_bridge w); try done; cbn; try (intros i; rewrite ?Eb; try done).
    + case_bool_decide; cbn; [|done]. destruct (bytes_eqb (trim t) []); [done|]. by destruct (stop_words_match t).
    + case_bool_decide as Ha; cbn; [|by apply eq_None_not_Some]. destruct (bytes_eqb (trim t) []); [done|].
      by destruct (stop_words_match t).
  - injection E as <-. apply (exclusive_bridge w); try done; intros i; by rewrite Eb.
  - injection E as <-. destruct (cancel_active_rest w) as (Ha & _). apply (exclusive_cancel w); try done. intros i. by rewrite Eb.
  - injection E as <-. destruct (cancel_active_rest w) as (Ha & _). apply (exclusive_cancel w); try done. intros i. by rewrite Eb.
  - injection E as <-. destruct (arm_listen_rest now 180000 c w) as (R1 & R2 & _). apply (exclusive_bridge w); cbn; try done.
    intros i; by rewrite Eb.
  - injection E as <-. apply (exclusive_bridge w); try done; cbn; try (intros i; rewrite ?Eb; try done); [by destruct (_ && _) | by rewrite Hgate].
  - injection E as <-. destruct (tts_active c); (apply (exclusive_bridge w); try done; intros i; by rewrite Eb).
  - injection E as <-. apply (exclusive_bridge w); try done; intros i; by rewrite Eb.
  - injection E as <-. destruct (arm_follow_up_rest now c (set_bridge BIdle w)) as (R1 & R2 & R3 & _).
    apply (exclusive_bridge w); rewrite ?R1, ?R2, ?R3; cbn; try done. intros i; by rewrite Eb.
  - injection E as <-. apply (exclusive_bridge w); try done; cbn; try (intros i; rewrite ?Eb; try done); [by destruct (_ && _) | by rewrite Hgate].
  - injection E as <-. apply (exclusive_bridge w); try done; intros i; by rewrite Eb.
  - injection E as <-. specialize (Hgate eq_refl). destruct HX as [X1 X2 X3 X4 X5]. set (n := length (rounds w)).
    assert (∀ j s, rounds w !! j = Some s → pc s ≠ Waiting ∧ (unreleased s = true → cancel s = true)) as Hold.
    { intros j s Hs. split; [intros Hw; pose proof (X4 j s Hs Hw); congruence|]. intros Hu. apply not_false_iff_true.
      intros Hcs. pose proof (X1 j s Hs Hu Hcs). congruence. }
    assert (∀ j s, (rounds w ++ [round_new t h]) !! j = Some s → (j = n ∧ s = round_new t h) ∨ rounds w !! j = Some s) as Hnew.
    { intros j s Hs. apply lookup_app_Some in Hs as [Hs|[Hj Hs]]; [by right|]. left.
      apply list_lookup_singleton_Some in Hs as [Hj' <-]. split; [unfold n; lia | done]. }
    assert ((rounds w ++ [round_new t h]) !! n = Some (round_new t h)) as Hn by (by apply list_lookup_middle).
    split; cbn.
    + intros j s Hs Hus Hcs. destruct (Hnew j s Hs) as [[-> ->]|Hs']; [done|]. destruct (Hold j s Hs') as [_ Hx]. rewrite (Hx Hus) in Hcs. done.
    + intros j [= <-]. by exists (round_new t h).
    + done.
    + intros j s Hs Hw. destruct (Hnew j s Hs) as [[-> ->]|Hs']; [done|]. by destruct (Hold j s Hs').
    + intros j [= <-]. by exists (round_new t h).
  - injection E as <-. rewrite Hc. set (v := arm_listen now 180000 c w).
    destruct (arm_listen_rest now 180000 c w) as (R1 & R2 & R3 & _). fold v in R1, R2, R3.
    destruct (ex_window _ HX i Eb) as (r & Hi & Hw). pose proof (ex_waiting _ HX) as X4. destruct HX as [X1 X2 X3 _ X5].
    assert (∀ j s, alter (set_pc Remote) i (rounds w) !! j = Some s → ∃ s0, rounds w !! j = Some s0 ∧ cancel s = cancel s0
      ∧ unreleased s = unreleased s0 ∧ pc s ≠ Waiting) as Hback.
    { intros j s. destruct (decide (j = i)) as [->|Hj].
      - rewrite list_lookup_alter_eq, Hi. cbn. intros [= <-]. exists r. unfold unreleased. cbn. by rewrite Hw.
      - rewrite list_lookup_alter_ne by done. intros Hs. exists s. split_and!; try done. intros Hws. pose proof (X4 j s Hs Hws). congruence. }
    split; cbn; rewrite ?R1, ?R2; try done.
    + intros j s Hs Hus Hcs. destruct (Hback j s Hs) as (s0 & H0 & E1 & E2 & _). apply (X1 j s0); congruence.
    + intros j Hj. destruct (X2 j Hj) as (s & Hs & Hus & Hcs). destruct (decide (j = i)) as [->|Hji].
      * exists (set_pc Remote s). rewrite list_lookup_alter_eq, Hs. done.
      * exists s. by rewrite list_lookup_alter_ne.
    + intros j s Hs Hws. by destruct (Hback j s Hs) as (_ & _ & _ & _ & Hx).
Qed.

(** The steps of the generator and the speaker of a round. *)
Lemma on_local_spec i f w w' : on_local i f w = Some w' → ∃ r, rounds w !! i = Some r ∧ pc r = LocalTts ∧ f r = Some w'.
Proof. unfold on_local. destruct (rounds w !! i) as [r|] eqn:E; [|done]. cbn. destruct (pc r) eqn:Ep; try done. intros. by exists r. Qed.

(** What one event does to the rounds: to the round it is of, by its function;
    to others at most the flag or the start. *)
Inductive own_change (c : Setup) (i : nat) (w w' : World) (r r' : Round) : Event → Prop :=
  | own_gen e : pc r = LocalTts → gen_step e r = Some r' → sounds w' = sounds w → mute_until w' = mute_until w → own_change c i w w' r r' e
  | own_speaker now a m l : pc r = LocalTts → speaker_step i a r = Some (r', m, l) → sounds w' = l ++ sounds w →
      mute_until w' = match m with MKeep => mute_until w | MLatch => now + 120000 | MLift => 0 end →
      own_change c i w w' r r' (SpeakerGoes i now a)
  | own_round now e plain : advanced r r' → sounds w' = said_by i r ++ sounds w →
      mute_until w' = match pc r with Say _ => now + 120000 | Saying => 0 | _ => mute_until w end →
      own_change c i w w' r r' (RoundGoes i now e plain).

Definition owner (e : Event) : option nat :=
  match e with Delta i _ | Sends i | Generated i _ | SpeakerGoes i _ _ | RoundGoes i _ _ _ => Some i | _ => None end.

Lemma own_step c w e w' i : vstep c w e = Some w' → owner e = Some i →
  ∃ r r', rounds w !! i = Some r ∧ rounds w' = <[i := r']> (rounds w) ∧ bridge w' = bridge w ∧ own_change c i w w' r r' e
    ∧ active_round w' = match pc r with
                        | Release _ => if bool_decide (active_round w = Some i) then None else active_round w
                        | _ => active_round w
                        end.
Proof.
  intros E Ho.
  assert (∀ f, on_local i (λ r, r ← f r; Some (set_round i r w)) w = Some w' → (∀ r, f r = gen_step e r) →
    ∃ r r', rounds w !! i = Some r ∧ rounds w' = <[i := r']> (rounds w) ∧ bridge w' = bridge w ∧ own_change c i w w' r r' e
      ∧ active_round w' = match pc r with
                          | Release _ => if bool_decide (active_round w = Some i) then None else active_round w
                          | _ => active_round w
                          end) as Hgen.
  { intros f Ef Hf. apply on_local_spec in Ef as (r & Hi & Hp & Ef). cbn in Ef. destruct (f r) as [r'|] eqn:Eg; [|done].
    cbn in Ef. injection Ef as <-. rewrite Hf in Eg. exists r, r'. rewrite Hp. split_and!; try done. by apply own_gen. }
  destruct e as [t now|now d vc ca|j d|j|j reply|j now a|j now e plain|v|ms| |now|]; try done; injection Ho as ->; cbn in E;
    try by apply (Hgen _ E).
  - apply on_local_spec in E as (r & Hi & Hp & E). cbn in E. destruct (speaker_step i a r) as [[[r' m] l]|] eqn:Eg; [|done].
    cbn in E. injection E as <-. destruct (have_effect_rest i now r' m l w) as (R1 & R2 & R3 & R4 & R5 & _).
    exists r, r'. rewrite Hp. split_and!; try done. by eapply own_speaker.
  - destruct (rounds w !! i) as [r|] eqn:Hi; [|done]. cbn in E.
    destruct (round_step_spec _ _ _ _ _ _ _ _ E) as (r' & R1 & R2 & R3 & R4 & R5 & R6 & _).
    exists r, r'. split_and!; try done. by apply own_round.
Qed.

Lemma advanced_place r r' : advanced r r' → same_task r r' ∧ pc r ≠ Waiting ∧ pc r' ≠ Waiting
  ∧ (unreleased r' = unreleased r ∨ ∃ o, pc r = Release o ∧ unreleased r' = false).
Proof.
  unfold same_task, unreleased. intros [reply Hp ->|Hp ->|p Hp Hq ->|reply Hp ->|reply Hp Hg Hs ->|o Hp ->|p Hp Hq ->]; cbn.
  - rewrite Hp. split_and!; try done. by left.
  - destruct Hp as [Hp|[Hp|[Hp _]]]; rewrite Hp; (split_and!; try done; by left).
  - rewrite Hp. destruct Hq as [-> | ->]; (split_and!; try done; by left).
  - rewrite Hp. split_and!; try done. by left.
  - rewrite Hp. split_and!; try done. by left.
  - rewrite Hp. split_and!; try done; [by destruct o|]. right. exists o. split; [done|]. by destruct o.
  - destruct (pc r) as [| | | | |? ? []| | | |]; try done; destruct p; try done; (split_and!; try done; by left).
Qed.

Lemma exclusive_step c w e w' : interrupt_enabled c = true → exclusive w → vstep c w e = Some w' → exclusive w'.
Proof.
  intros Hc HX E. destruct (owner e) as [i|] eqn:Eo.
  - destruct (own_step _ _ _ _ _ E Eo) as (r & r' & Hi & Hr & Hb & Hch & Ha).
    assert (same_place r r' ∧ pc r = LocalTts ∨ advanced r r') as [[(Hp & Hc' & _) Hl] | Hadv].
    { destruct Hch; [left; split; [by eapply gen_step_place | done] | left; split; [by eapply speaker_step_place | done] | by right]. }
    + rewrite Hl in Ha. apply (exclusive_round w w' i r r'); try done; [unfold unreleased; by rewrite Hp | congruence..].
    + destruct (advanced_place r r' Hadv) as ((_ & _ & Hcc & _) & Hw & Hw' & Hu).
      destruct (pc r) as [| | | |o|re s ca|re| | |] eqn:Ep;
        try (destruct Hu as [Hu | (o' & [=] & _)]; by apply (exclusive_round w w' i r r'); rewrite ?Ep).
      apply (exclusive_release w w' i r r'); rewrite ?Ep; try done.
      destruct Hadv as [ | | | | |o' Hp ->|]; try congruence; [destruct H as [H|[H|[H _]]]; congruence | rewrite Ep in Hp; by destruct o' | by rewrite Ep in H].
  - destruct e; try done; cbn in E.
    + destruct (bridge w) eqn:Eb; try done. injection E as <-.
      assert (rounds (join_conversation now w) = rounds w ∧ active_round (join_conversation now w) = active_round w) as [R1 R2].
      { unfold join_conversation. destruct (conversation w) as [[at_ l]|]; [|done]. by destruct (_ <? _). }
      apply (exclusive_bridge w); cbn; try done. intros i. by rewrite Eb.
    + by eapply exclusive_bridge_step.
    + injection E as <-. destruct HX. by split.
    + injection E as <-. destruct HX. by split.
    + injection E as <-. destruct HX. by split.
    + injection E as <-. destruct HX. by split.
    + destruct (away_speaks w); [done|]. injection E as <-. destruct HX. by split.
Qed.

(** C1 With interruption enabled there is one answer at a time: in every run
    the slot holds exactly the round that has neither come back nor been
    cancelled, if there is one, so that two rounds that both still work on an
    uncancelled answer are the same; and once the bridge has let a transcript
    through its gate there is none, whatever the rounds and the decision engine
    did meanwhile. *)
Theorem one_answer c window w : interrupt_enabled c = true → vreachable c (bridge_new window) w →
  (∀ i, active_round w = Some i ↔ ∃ r, rounds w !! i = Some r ∧ unreleased r = true ∧ cancel r = false)
  ∧ (∀ i j r s, rounds w !! i = Some r → rounds w !! j = Some s → unreleased r = true → unreleased s = true →
       cancel r = false → cancel s = false → i = j)
  ∧ (past_gate (bridge w) = true → ∀ i r, rounds w !! i = Some r → unreleased r = true → cancel r = true).
Proof.
  intros Hc Hr. assert (exclusive w) as [X1 X2 X3 X4 X5].
  { induction Hr as [|w e w' _ IH E]; [|by eapply exclusive_step]. split; cbn; try done; intros i r; by rewrite lookup_nil. }
  split_and!.
  - intros i. split; [apply X2|]. intros (r & Hi & Hu & Hcr). by apply (X1 i r).
  - intros i j r s Hi Hj Hu Hs Hcr Hcs. pose proof (X1 i r Hi Hu Hcr). pose proof (X1 j s Hj Hs Hcs). congruence.
  - intros Hg i r Hi Hu. apply not_false_iff_true. intros Hcr. pose proof (X1 i r Hi Hu Hcr). rewrite (X3 Hg) in *. done.
Qed.

(** ** Interrupted rounds *)
Definition of_round (i : nat) (x : Sound) : bool :=
  match x with LStart j _ | LPlayed j _ | LSay j _ => bool_decide (j = i) end.

(** The round the bridge has just made waits for it. *)
Definition windowed (w : World) : Prop := ∀ i, bridge w = BWindow i → ∃ r, rounds w !! i = Some r ∧ pc r = Waiting.

Lemma own_not_waiting c i w w' r r' e : own_change c i w w' r r' e → pc r ≠ Waiting.
Proof. destruct 1 as [| |now e' plain Ha _ _]; [congruence..|]. by destruct (advanced_place r r' Ha) as (_ & ? & _). Qed.

Lemma windowed_step c w e w' : windowed w → vstep c w e = Some w' → windowed w'.
Proof.
  intros Hw E i Hi. destruct (owner e) as [j|] eqn:Eo.
  - destruct (own_step _ _ _ _ _ E Eo) as (s & s' & Hj & Hr & Hb & Hch & _). rewrite Hb in Hi. destruct (Hw i Hi) as (r & Hri & Hp).
    exists r. split; [|done]. rewrite Hr, list_lookup_insert_ne; [done|]. intros ->. pose proof (own_not_waiting _ _ _ _ _ _ _ Hch). congruence.
  - destruct e; try done; cbn in E.
    + destruct (bridge w); try done. by injection E as <-.
    + unfold bridge_step in E. destruct (bridge w) as [|t|t|t [| |]|t|t|t|t|t|t|t h|k] eqn:Eb; try done; injection E as <-; cbn in Hi; try done.
      * by repeat (case_match; try done).
      * by repeat (case_match; try done).
      * by destruct (tts_active c).
      * by destruct (arm_follow_up_rest now c (set_bridge BIdle w)) as (_ & _ & R3 & _); rewrite R3 in Hi.
      * by repeat (case_match; try done).
      * injection Hi as <-. exists (round_new t h). split; [by apply list_lookup_middle | done].
    + injection E as <-. by apply Hw.
    + injection E as <-. by apply Hw.
    + injection E as <-. by apply Hw.
    + injection E as <-. by apply Hw.
    + destruct (away_speaks w); [done|]. injection E as <-. by apply Hw.
Qed.

Definition touched (r r' : Round) : Prop := r' = r ∨ r' = set_cancel r ∨ pc r = Waiting ∧ r' = set_pc Remote r.

Lemma speaker_step_sounds i a r r' m l : speaker_step i a r = Some (r', m, l) → Forall (λ x, of_round i x = true) l.
Proof.
  unfold speaker_step, played. intros E.
  assert (of_round i (LStart i []) = true) as Hi by (cbn; by rewrite bool_decide_true).
  destruct (sp (speaker r)) as [|[|s todo] [|]|s n t|s n t|s n t|s n t| | |].
  1: destruct (chan r) as [|d ds]; [destruct (gen r) as [| | |o]|]; try done;
     [|destruct (cancel r) eqn:Ec; [|destruct (filter_push _ _) as [f v]; destruct (splitter_push _ _) as [ss b]]].
  all: repeat (case_match; try done); simplify_eq; repeat constructor; exact Hi.
Qed.

Lemma other_sounds i j l : j ≠ i → Forall (λ x, of_round j x = true) l → Forall (λ x, of_round i x = false) l.
Proof.
  intros Hj Hl. eapply Forall_impl; [exact Hl|]. intros x. destruct x; cbn; rewrite bool_decide_eq_true, bool_decide_eq_false; congruence.
Qed.

(** An event of no round: the bridge cancels or starts one, or makes one. *)
Lemma bridge_event c w e w' : vstep c w e = Some w' → owner e = None → sounds w' = sounds w ∧
  (rounds w' = rounds w ∨ (∃ k, rounds w' = alter set_cancel k (rounds w))
   ∨ (∃ k, bridge w = BWindow k ∧ rounds w' = alter (set_pc Remote) k (rounds w)) ∨ ∃ t h, rounds w' = rounds w ++ [round_new t h]).
Proof.
  intros E Eo. assert (rounds (cancel_active w) = rounds w ∨ ∃ k, rounds (cancel_active w) = alter set_cancel k (rounds w)) as Hc.
  { unfold cancel_active. destruct (active_round w) as [k|]; [right; by exists k | by left]. }
  destruct (cancel_active_rest w) as (_ & _ & Hcs & _).
  destruct e; try done; cbn in E; try (injection E as <-; split; [done | by left]).
  - destruct (bridge w); try done. injection E as <-. cbn. unfold join_conversation. split; [by repeat case_match | left; by repeat case_match].
  - unfold bridge_step in E. destruct (bridge w) as [|t|t|t [| |]|t|t|t|t|t|t|t h|k] eqn:Eb; try done; injection E as <-; cbn;
      try (split; [done | by left]).
    + split; [done|]. tauto.
    + split; [done|]. tauto.
    + destruct (arm_listen_rest now 180000 c w) as (R1 & _ & _ & R2 & _). split; [done | by left].
    + destruct (tts_active c); (split; [done | by left]).
    + destruct (arm_follow_up_rest now c (set_bridge BIdle w)) as (R1 & _ & _ & R2 & _). split; [done | by left].
    + split; [done|]. right; right; right. by exists t, h.
    + destruct (arm_listen_rest now 180000 c w) as (R1 & _ & _ & R2 & _). destruct (interrupt_enabled c); (split; [done|]);
        right; right; left; by exists k.
  - destruct (away_speaks w); [done|]. injection E as <-. split; [done | by left].
Qed.

(** An event of another round, or of none. *)
Lemma foreign_step c w e w' i r : windowed w → vstep c w e = Some w' → owner e ≠ Some i → rounds w !! i = Some r →
  (∃ r', rounds w' !! i = Some r' ∧ touched r r') ∧ ∃ new, sounds w' = new ++ sounds w ∧ Forall (λ x, of_round i x = false) new.
Proof.
  intros Hwin E Ho Hi. destruct (owner e) as [j|] eqn:Eo.
  - destruct (own_step _ _ _ _ _ E Eo) as (s & s' & Hj & Hr & _ & Hch & _). assert (j ≠ i) as Hji by congruence. split.
    + exists r. rewrite Hr, list_lookup_insert_ne by done. split; [done | by left].
    + destruct Hch as [e _ _ Hs _|now a m l _ Hs' Hs _|now e' plain _ Hs _]; rewrite Hs.
      * by exists [].
      * exists l. split; [done|]. by eapply other_sounds, speaker_step_sounds.
      * exists (said_by j s). split; [done|]. unfold said_by. destruct (pc s); try constructor; [|constructor]. cbn. by apply bool_decide_eq_false.
  - destruct (bridge_event _ _ _ _ E Eo) as [Hs Hr]. split; [|by exists []].
    assert (∀ g k, rounds w' = alter g k (rounds w) → rounds w' !! i = Some r ∨ i = k ∧ rounds w' !! i = Some (g r)) as Hg.
    { intros g k ->. destruct (decide (i = k)) as [->|Hk]; [right; by rewrite list_lookup_alter_eq, Hi | left; by rewrite list_lookup_alter_ne]. }
    unfold touched. destruct Hr as [Hr | [(k & Hr) | [(k & Hb & Hr) | (t & h & Hr)]]].
    + exists r. rewrite Hr. tauto.
    + destruct (Hg _ _ Hr) as [H | [_ H]]; eauto.
    + destruct (Hg _ _ Hr) as [H | [-> H]]; eexists; (split; [exact H|]); [tauto|]. right; right.
      destruct (Hwin k Hb) as (r0 & Hi0 & Hp0). split; [congruence | done].
    + exists r. rewrite Hr. split; [by apply lookup_app_l_Some | by left].
Qed.

(** A round that was not there is new. *)
Lemma fresh_round c w e w' i r' : vstep c w e = Some w' → rounds w !! i = None → rounds w' !! i = Some r' →
  (∃ t h, r' = round_new t h) ∧ sounds w' = sounds w.
Proof.
  intros E Hi Hi'. destruct (owner e) as [j|] eqn:Eo.
  - destruct (own_step _ _ _ _ _ E Eo) as (s & s' & Hj & Hr & _). exfalso. rewrite Hr in Hi'.
    apply list_lookup_insert_Some in Hi' as [(<- & _ & _) | [_ H]]; congruence.
  - destruct (bridge_event _ _ _ _ E Eo) as [Hs [Hr | [(k & Hr) | [(k & _ & Hr) | (t & h & Hr)]]]]; rewrite Hr in Hi'; split; try done.
    1: congruence.
    1,2: (destruct (decide (i = k)) as [->|Hk]; [rewrite list_lookup_alter_eq in Hi' | rewrite list_lookup_alter_ne in Hi' by done]; by rewrite Hi in Hi').
    apply lookup_app_Some in Hi' as [H|[_ H]]; [congruence|]. apply list_lookup_singleton_Some in H as [_ <-]. eauto.
Qed.

(** Rounds stay, and what is heard grows. *)
Lemma vrun_inv c (P : World → Prop) : (∀ w e w', P w → vstep c w e = Some w' → P w') →
  ∀ es w w', P w → vrun c w es = Some w' → P w'.
Proof.
  intros Hs es. induction es as [|e es IH]; intros w w' Hw E; cbn in E; [by injection E as <-|].
  destruct (vstep c w e) as [v|] eqn:Ev; [|done]. by apply (IH v); [eapply Hs|].
Qed.

Definition starts (i : nat) (l : list Sound) : list bytes :=
  omap (λ x, match x with LStart j s => if decide (j = i) then Some s else None | _ => None end) l.
Definition plays (i : nat) (l : list Sound) : list bytes :=
  omap (λ x, match x with LPlayed j s => if decide (j = i) then Some s else None | _ => None end) l.

(** A sentence past its check of the flag, or already on the speaker. *)
Definition in_hand (r : Round) : nat := match sp (speaker r) with SpMute _ _ _ | SpSpawn _ _ _ => 1 | _ => 0 end.
Definition audible (r : Round) : nat := match sp (speaker r) with SpMute _ _ _ | SpSpawn _ _ _ | SpPlaying _ _ _ => 1 | _ => 0 end.

Lemma speaker_step_hand i a r r' m l : speaker_step i a r = Some (r', m, l) → cancel r = true →
  (length (starts i l) + in_hand r' <= in_hand r)%nat ∧ (length (plays i l) + audible r' <= audible r)%nat.
Proof.
  unfold speaker_step, played, in_hand, audible, starts, plays, go_on. intros E Hc. rewrite Hc in E.
  destruct (sp (speaker r)) as [|[|s todo] [|]|s n t|s n t|s n t|s n t| | |].
  1: destruct (chan r) as [|d ds]; [destruct (gen r) as [| | |o]|]; try done.
  all: repeat (case_match; try done); simplify_eq; cbn; rewrite ?decide_True by done; cbn; lia.
Qed.

Lemma foreign_sounds i new : Forall (λ x, of_round i x = false) new → starts i new = [] ∧ plays i new = [].
Proof.
  induction 1 as [|x l Hx _ [I1 I2]]; [done|]. unfold starts, plays in *. cbn. rewrite I1, I2.
  destruct x; cbn in *; try (apply bool_decide_eq_false in Hx; by rewrite decide_False); done.
Qed.

(** A round that comes back as interrupted says what was played of it. *)
Definition spoken_reply (prefix : bytes) : option bytes := if bytes_eqb (trim prefix) [] then None else Some (trim prefix).
Definition prefix_of (l : list bytes) : bytes := concat (List.map (λ s, s ++ lit " ") l).

Definition working (p : RoundPc) : Prop := match p with Waiting | Remote | LocalTts | Plain => True | _ => False end.

Record told (w : World) (i : nat) (r : Round) : Prop := {
  told_prefix : spoken_prefix r = prefix_of (rev (plays i (sounds w)));
  told_pc : is_Some (result r) → ¬ working (pc r);
  told_result : ∀ reply spoken, result r = Some (OOk reply spoken true) → cancel r = true ∧ reply = spoken_reply (spoken_prefix r);
}.

Lemma prefix_of_snoc l s : prefix_of (l ++ [s]) = prefix_of l ++ s ++ lit " ".
Proof. unfold prefix_of. rewrite List.map_app, concat_app. cbn. by rewrite app_nil_r. Qed.

Lemma speaker_step_prefix i a r r' m l : speaker_step i a r = Some (r', m, l) →
  spoken_prefix r' = spoken_prefix r ++ prefix_of (rev (plays i l)).
Proof.
  unfold speaker_step, played, plays. intros E.
  destruct (sp (speaker r)) as [|[|s todo] [|]|s n t|s n t|s n t|s n t| | |].
  1: destruct (chan r) as [|d ds]; [destruct (gen r) as [| | |o]|]; try done;
     [|destruct (cancel r) eqn:Ec; [|destruct (filter_push _ _) as [f v]; destruct (splitter_push _ _) as [ss b]]].
  all: repeat (case_match; try done); simplify_eq; cbn; rewrite ?decide_True by done; cbn; unfold prefix_of; cbn; rewrite ?app_nil_r; done.
Qed.

Lemma plays_app i l k : plays i (l ++ k) = plays i l ++ plays i k.
Proof. unfold plays. apply omap_app. Qed.
Lemma starts_app i l k : starts i (l ++ k) = starts i l ++ starts i k.
Proof. unfold starts. apply omap_app. Qed.
Lemma prefix_of_app l k : prefix_of (l ++ k) = prefix_of l ++ prefix_of k.
Proof. unfold prefix_of. by rewrite List.map_app, concat_app. Qed.

Record telling (w : World) : Prop := {
  tl_round : ∀ i r, rounds w !! i = Some r → told w i r;
  tl_new : ∀ i, rounds w !! i = None → plays i (sounds w) = [];
  tl_window : windowed w;
}.

Lemma local_outcome_told reply spoken r reply' spoken' : local_outcome reply spoken r = OOk reply' spoken' true →
  cancel r = true ∧ reply' = spoken_reply (spoken_prefix r).
Proof. unfold local_outcome, spoken_reply. destruct (cancel r); [|done]. by intros [= <- _]. Qed.

(** A round's own step, and a step that is not its own, keep its account. *)
Lemma told_own c i w w' r r' e : told w i r → own_change c i w w' r r' e → told w' i r'.
Proof.
  intros [T1 T2 T3] Hch.
  assert (∀ x, same_place r x → told w i r → pc r = LocalTts → sounds w' = sounds w → spoken_prefix x = spoken_prefix r → told w' i x) as Hquiet.
  { intros x (P1 & P2 & P3 & P4) _ Hp Hs Hx. split; [by rewrite Hx, Hs | |]; rewrite P3; [rewrite P1; apply T2|].
    intros reply sp Hres. rewrite Hx, P2. by apply (T3 reply sp). }
  destruct Hch as [e Hp Hg Hs _|now a m l Hp Hg Hs _|now e' plain Ha Hs _].
  - destruct (gen_step_place _ _ _ Hg) as (? & _ & ?). by apply Hquiet.
  - pose proof (speaker_step_place _ _ _ _ _ _ Hg) as (P1 & P2 & P3 & P4). pose proof (speaker_step_prefix _ _ _ _ _ _ Hg) as Hx.
    assert (result r = None) as Hn by (apply eq_None_not_Some; intros Hr; apply (T2 Hr); by rewrite Hp).
    split; rewrite ?P3, ?Hn; [|by intros []|done]. by rewrite Hx, T1, Hs, plays_app, rev_app_distr, prefix_of_app.
  - assert (plays i (sounds w') = plays i (sounds w)) as Hpl by (rewrite Hs; unfold said_by; by destruct (pc r)).
    destruct Ha as [reply Hp ->|Hp ->|p Hp Hq ->|reply Hp ->|reply Hp Hg Hsp ->|o Hp ->|p Hp Hq ->]; split; cbn; rewrite ?Hpl; try done; try (by intros _ []);
      try (intros; by apply (T3 _ spoken)); try (intros reply' spoken' [=]; by eapply local_outcome_told).
    + intros Hr. exfalso. apply (T2 Hr). by rewrite Hp.
    + intros _. destruct o; cbn; tauto.
    + intros _. destruct (pc r) as [| | | | |? ? []| | | |], p; cbn in *; tauto.
Qed.

Lemma told_foreign w w' i r r' : told w i r → touched r r' → plays i (sounds w') = plays i (sounds w) → told w' i r'.
Proof.
  intros [T1 T2 T3] Ht Hs.
  assert (∀ x, result x = result r → (cancel r = true → cancel x = true) → spoken_prefix x = spoken_prefix r →
    (is_Some (result r) → ¬ working (pc x)) → told w' i x) as Hx.
  { intros x X1 X2 X3 X4. split; rewrite ?X1, ?X3, ?Hs; try done. intros reply sp Hres. destruct (T3 reply sp Hres). split; [by apply X2 | done]. }
  destruct Ht as [-> | [-> | [Hp ->]]]; apply Hx; try done. intros Hr. exfalso. apply (T2 Hr). by rewrite Hp.
Qed.

Lemma foreign_plays c w e w' i : vstep c w e = Some w' → owner e ≠ Some i → plays i (sounds w') = plays i (sounds w).
Proof.
  intros E Ho. destruct (owner e) as [j|] eqn:Eo; [|by destruct (bridge_event _ _ _ _ E Eo) as [-> _]].
  destruct (own_step _ _ _ _ _ E Eo) as (s & s' & Hj & _ & _ & Hch & _). assert (j ≠ i) as Hne by congruence.
  assert (∃ new, sounds w' = new ++ sounds w ∧ Forall (λ x, of_round j x = true) new) as (new & Hs & Hn).
  { destruct Hch as [e _ _ Hs _|now a m l _ Hs' Hs _|now e' plain _ Hs _]; [by exists []| |].
    - exists l. split; [done | by eapply speaker_step_sounds].
    - exists (said_by j s). split; [done|]. unfold said_by. destruct (pc s); try constructor; [|constructor]. cbn. by apply bool_decide_eq_true. }
  rewrite Hs, plays_app. by destruct (foreign_sounds i new (other_sounds _ _ _ Hne Hn)) as [_ ->].
Qed.

Lemma absent_owner c w e w' i : vstep c w e = Some w' → rounds w !! i = None → owner e ≠ Some i.
Proof. intros E Hi Ho. destruct (own_step _ _ _ _ _ E Ho) as (s & s' & Hj & _). congruence. Qed.

Lemma telling_step c w e w' : telling w → vstep c w e = Some w' → telling w'.
Proof.
  intros [T1 T2 T3] E. split; [| |by eapply windowed_step].
  - intros i r' Hi'. destruct (rounds w !! i) as [r|] eqn:Hi.
    + destruct (decide (owner e = Some i)) as [Ho|Ho].
      * destruct (own_step _ _ _ _ _ E Ho) as (s & s' & Hj & Hr & _ & Hch & _).
        rewrite Hr, list_lookup_insert_eq in Hi' by (by eapply lookup_lt_Some). injection Hi' as <-. eapply told_own; [by apply T1 | done].
      * destruct (foreign_step _ _ _ _ _ _ T3 E Ho Hi) as [(x & Hx & Ht) (new & Hs & Hn)]. assert (x = r') as -> by congruence.
        eapply told_foreign; [by apply T1 | done |]. rewrite Hs, plays_app. by destruct (foreign_sounds i new Hn) as [_ ->].
    + destruct (fresh_round _ _ _ _ _ _ E Hi Hi') as [(t & h & ->) Hs]. split; cbn; [by rewrite Hs, T2 | by intros [] | done].
  - intros i Hi'. assert (rounds w !! i = None) as Hi.
    { destruct (rounds w !! i) as [r|] eqn:Hi; [|done]. exfalso. destruct (decide (owner e = Some i)) as [Ho|Ho].
      - destruct (own_step _ _ _ _ _ E Ho) as (s & s' & Hj & Hr & _).
        rewrite Hr, list_lookup_insert_eq in Hi' by (by eapply lookup_lt_Some). done.
      - destruct (foreign_step _ _ _ _ _ _ T3 E Ho Hi) as [(x & Hx & _) _]. congruence. }
    rewrite (foreign_plays _ _ _ _ _ E (absent_owner _ _ _ _ _ E Hi)). by apply T2.
Qed.

Lemma reachable_telling c window w : vreachable c (bridge_new window) w → telling w.
Proof. induction 1 as [|w e w' _ IH E]; [|by eapply telling_step]. split; cbn; try done; intros i r; by rewrite lookup_nil. Qed.

(** The one-shot playbacks of a round. *)
Definition says (i : nat) (l : list Sound) : list bytes :=
  omap (λ x, match x with LSay j s => if decide (j = i) then Some s else None | _ => None end) l.

(** A local leg that is under way, or has come back as interrupted or failed. *)
Definition hushed (p : RoundPc) : bool :=
  match p with
  | LocalTts | Plain | Release (OOk _ _ true) | Release OErr | Extend _ _ true | Arm | Over => true
  | _ => false
  end.

Lemma foreign_says i new : Forall (λ x, of_round i x = false) new → says i new = [].
Proof.
  induction 1 as [|x l Hx _ IH]; [done|]. unfold says in *. cbn. rewrite IH.
  destruct x; cbn in *; try (apply bool_decide_eq_false in Hx; by rewrite decide_False); done.
Qed.

Lemma speaker_step_says i a r r' m l : speaker_step i a r = Some (r', m, l) → says i l = [].
Proof.
  unfold speaker_step, played, says. intros E.
  destruct (sp (speaker r)) as [|[|s todo] [|]|s n t|s n t|s n t|s n t| | |].
  1: destruct (chan r) as [|d ds]; [destruct (gen r) as [| | |o]|]; try done;
     [|destruct (cancel r) eqn:Ec; [|destruct (filter_push _ _) as [f v]; destruct (splitter_push _ _) as [ss b]]].
  all: repeat (case_match; try done); by simplify_eq.
Qed.

(** What one event adds to a cancelled round. *)
Record hush (i : nat) (r r' : Round) (new : list Sound) : Prop := {
  hu_cancel : cancel r' = true;
  hu_starts : (length (starts i new) + in_hand r' <= in_hand r)%nat;
  hu_plays : (length (plays i new) + audible r' <= audible r)%nat;
  hu_says : hushed (pc r) = true → says i new = [] ∧ hushed (pc r') = true;
}.

Lemma hush_same i r r' : cancel r' = true → speaker r' = speaker r → (hushed (pc r) = true → hushed (pc r') = true) → hush i r r' [].
Proof. intros Hc Hs Hh. split; unfold in_hand, audible; rewrite ?Hs; cbn; try lia; [done | by split; [|apply Hh]]. Qed.

Lemma advanced_hushed r r' : advanced r r' → cancel r = true → hushed (pc r) = true → said_by 0 r = [] ∧ hushed (pc r') = true.
Proof.
  unfold said_by. intros Ha Hc Hh. destruct Ha as [reply Hp ->|Hp ->|p Hp Hq ->|reply Hp ->|reply Hp Hg Hsp ->|o Hp ->|p Hp Hq ->]; cbn.
  - by rewrite Hp in Hh.
  - destruct Hp as [Hp|[Hp|[Hp _]]]; by rewrite Hp.
  - by rewrite Hp in Hh.
  - rewrite Hp. unfold local_outcome. by rewrite Hc.
  - rewrite Hp. unfold local_outcome. by rewrite Hc.
  - rewrite Hp in *. by destruct o as [? ? []|].
  - destruct (pc r) as [| | | | |? ? []| | | |], p; done.
Qed.

Lemma said_by_says i r : says i (said_by i r) = match pc r with Say reply => [reply] | _ => [] end
  ∧ starts i (said_by i r) = [] ∧ plays i (said_by i r) = [].
Proof. unfold said_by, says, starts, plays. destruct (pc r); try done. cbn. by rewrite decide_True. Qed.

Lemma hush_step c w e w' i r : windowed w → vstep c w e = Some w' → rounds w !! i = Some r → cancel r = true →
  ∃ r' new, rounds w' !! i = Some r' ∧ sounds w' = new ++ sounds w ∧ hush i r r' new.
Proof.
  intros Hw E Hi Hc. destruct (decide (owner e = Some i)) as [Ho|Ho].
  - destruct (own_step _ _ _ _ _ E Ho) as (s & s' & Hj & Hr & _ & Hch & _). assert (s = r) as -> by congruence.
    exists s'. rewrite Hr, list_lookup_insert_eq by (by eapply lookup_lt_Some).
    destruct Hch as [e Hp Hg Hs _|now a m l Hp Hg Hs _|now e' plain Ha Hs _]; rewrite Hs.
    + exists []. destruct (gen_step_place _ _ _ Hg) as ((P1 & P2 & _) & P3 & _). split_and!; try done.
      apply hush_same; [by rewrite P2 | done | by rewrite P1].
    + exists l. destruct (speaker_step_place _ _ _ _ _ _ Hg) as (P1 & P2 & _).
      destruct (speaker_step_hand _ _ _ _ _ _ Hg Hc) as [H1 H2]. split_and!; try done.
      split; [by rewrite P2 | done | done |]. rewrite P1. intros Hh. split; [by eapply speaker_step_says | done].
    + exists (said_by i r). destruct (advanced_place _ _ Ha) as ((_ & _ & P2 & _ & _ & _ & P3) & _).
      destruct (said_by_says i r) as (S1 & S2 & S3). split_and!; try done.
      split; unfold in_hand, audible; rewrite ?P2, ?P3, ?S1, ?S2, ?S3; cbn; try done.
      intros Hh. destruct (advanced_hushed r s' Ha Hc Hh) as [_ Hh']. split; [|done]. by destruct (pc r).
  - destruct (foreign_step _ _ _ _ _ _ Hw E Ho Hi) as [(r' & Hi' & Ht) (new & Hs & Hn)].
    destruct (foreign_sounds i new Hn) as [N1 N2]. pose proof (foreign_says i new Hn) as N3. exists r', new. split_and!; try done.
    assert (cancel r' = true ∧ speaker r' = speaker r ∧ (hushed (pc r) = true → hushed (pc r') = true)) as (T1 & T2 & T3).
    { destruct Ht as [-> | [-> | [Hp ->]]]; [done.. |]. split_and!; try done. by rewrite Hp. }
    split; unfold in_hand, audible; rewrite ?T2, ?N1, ?N2, ?N3; cbn; try lia; [done|]. intros Hh. split; [done | by apply T3].
Qed.

Lemma hush_run c es : ∀ w w' i r, windowed w → vrun c w es = Some w' → rounds w !! i = Some r → cancel r = true →
  ∃ r' new, rounds w' !! i = Some r' ∧ sounds w' = new ++ sounds w ∧ hush i r r' new.
Proof.
  induction es as [|e es IH]; intros w w' i r Hw E Hi Hc; cbn in E.
  - injection E as <-. exists r, []. do 2 (split; [done|]). by apply hush_same.
  - destruct (vstep c w e) as [v|] eqn:Ev; [|done]. cbn in E.
    destruct (hush_step _ _ _ _ _ _ Hw Ev Hi Hc) as (s & n1 & Hs & Hn1 & [A1 A2 A3 A4]).
    destruct (IH v w' i s (windowed_step _ _ _ _ Hw Ev) E Hs A1) as (r' & n2 & Hr' & Hn2 & [B1 B2 B3 B4]).
    exists r', (n2 ++ n1). split_and!; [done | by rewrite Hn2, Hn1, app_assoc|]. split; [done | | |].
    + rewrite starts_app, length_app. lia.
    + rewrite plays_app, length_app. lia.
    + intros Hh. destruct (A4 Hh) as [N1 Hs1]. destruct (B4 Hs1) as [N2 Hs2]. split; [|done]. unfold says in *. by rewrite omap_app, N1, N2.
Qed.

Lemma vrun_reachable c w0 es : ∀ w w', vreachable c w0 w → vrun c w es = Some w' → vreachable c w0 w'.
Proof.
  induction es as [|e es IH]; intros w w' Hw E; cbn in E; [by injection E as <-|].
  destruct (vstep c w e) as [v|] eqn:Ev; [|done]. by apply (IH v w' (vreach_step _ _ _ _ _ Hw Ev)).
Qed.

(** C12 A round that a stop word or a new question cancelled says no more:
    whatever happens from then on, its speaker starts at most the one sentence
    it held past its check of the flag, at most the sentence that plays is
    still heard to its end, and a local leg gives its reply to no one-shot
    playback; and a round that comes back as interrupted answers with exactly
    what was heard of it, so that the conversation keeps only that. *)
Theorem interrupted_round c window w w' es i r : vreachable c (bridge_new window) w → vrun c w es = Some w' →
  rounds w !! i = Some r → cancel r = true →
  ∃ r' new, rounds w' !! i = Some r' ∧ sounds w' = new ++ sounds w ∧ cancel r' = true
    ∧ (length (starts i new) <= in_hand r)%nat ∧ (length (plays i new) <= audible r)%nat
    ∧ (hushed (pc r) = true → says i new = [])
    ∧ ∀ reply spoken, result r' = Some (OOk reply spoken true) → reply = spoken_reply (prefix_of (rev (plays i (sounds w')))).
Proof.
  intros Hr E Hi Hc. pose proof (reachable_telling _ _ _ Hr) as HT. pose proof (reachable_telling _ _ _ (vrun_reachable _ _ _ _ _ Hr E)) as HT'.
  destruct (hush_run _ _ _ _ _ _ (tl_window _ HT) E Hi Hc) as (r' & new & Hi' & Hs & [H1 H2 H3 H4]).
  exists r', new. split_and!; try done; try lia; [intros Hh; by destruct (H4 Hh)|].
  intros reply spoken Hres. destruct (tl_round _ HT' i r' Hi') as [T1 _ T3]. rewrite <- T1. by destruct (T3 _ _ Hres).
Qed.

(** ** The end of an interrupted round *)

(** The steps a cancelled speaker still makes, at most. *)
Definition next_left (next : Next) (tail : bool) : nat :=
  match next with None => 1 | Some (_, todo) => (if tail then 3 else 4) + 2 * length todo end.
Definition speaker_left (s : Speaker) : nat :=
  match sp s with
  | SpRecv => 3
  | SpNext todo tail => (if tail then 3 else 4) + 2 * length todo
  | SpAwait _ next tail => 1 + next_left next tail
  | SpMute _ next tail => 3 + next_left next tail
  | SpSpawn _ next tail => 2 + next_left next tail
  | SpPlaying _ next tail => 1 + next_left next tail
  | SpTail => 2
  | SpFinish => 1
  | SpDone => 0
  end.

Lemma speaker_ends i a r r' m l : speaker_step i a r = Some (r', m, l) → cancel r = true →
  (speaker_left (speaker r') < speaker_left (speaker r))%nat.
Proof.
  unfold speaker_step, played, go_on, speaker_left. intros E Hc. rewrite Hc in E.
  destruct (sp (speaker r)) as [|[|s todo] [|]|s n t|s n t|s n t|s n t| | |].
  1: destruct (chan r) as [|d ds]; [destruct (gen r) as [| | |o]|]; try done.
  all: repeat (case_match; try done); simplify_eq; cbn in *; simplify_eq; cbn; lia.
Qed.

(** The speaker waits for nothing but a delta. *)
Definition starved (r : Round) : Prop := sp (speaker r) = SpRecv ∧ chan r = [] ∧ ∀ o, gen r ≠ GDone o.

Lemma speaker_goes i a r : sp (speaker r) ≠ SpDone → ¬ starved r → is_Some (speaker_step i a r).
Proof.
  intros Hd Hs. unfold speaker_step, starved in *.
  destruct (sp (speaker r)) as [|[|s todo] [|]|s n t|s n t|s n t|s n t| | |]; try done.
  1: destruct (chan r) as [|d ds]; [destruct (gen r); [exfalso; by apply Hs..|by eexists]|]; destruct (cancel r); [by eexists|];
     destruct (filter_push _ _) as [f v]; destruct (splitter_push _ _) as [ss b]; by eexists.
  all: repeat case_match; by eexists.
Qed.

Lemma speaker_step_gen i a r r' m l : speaker_step i a r = Some (r', m, l) → gen r' = gen r.
Proof.
  unfold speaker_step, played. intros E.
  destruct (sp (speaker r)) as [|[|s todo] [|]|s n t|s n t|s n t|s n t| | |].
  1: destruct (chan r) as [|d ds]; [destruct (gen r) as [| | |o] eqn:Eg|]; try done;
     [|destruct (cancel r) eqn:Ec; [|destruct (filter_push _ _) as [f v]; destruct (splitter_push _ _) as [ss b]]].
  all: repeat (case_match; try done); simplify_eq; cbn; congruence.
Qed.

(** What is left of a cancelled local leg, at most: the steps of its speaker
    and of its generator. *)
Definition local_left (r : Round) : nat :=
  speaker_left (speaker r) + match gen r with GSending _ => 3 | GRuns => 2 | GStopped => 1 | GDone _ => 0 end.
Definition local_event (i : nat) (e : Event) : bool :=
  match e with Delta j _ | Sends j | Generated j _ | SpeakerGoes j _ _ => bool_decide (j = i) | _ => false end.

Lemma gen_step_left i e r r' : gen_step e r = Some r' → cancel r = true → local_event i e = true → (local_left r' < local_left r)%nat.
Proof.
  intros E Hc Hi. destruct (gen_step_place _ _ _ E) as (_ & Hs & _). unfold local_left. rewrite Hs.
  unfold gen_step, gen_delta, gen_send, gen_end in E. destruct e; try done; destruct (gen r); try done; rewrite ?Hc in E;
    repeat (case_match; try done); injection E as <-; cbn in *; simplify_eq; lia.
Qed.

Lemma local_left_step c w e w' i r : windowed w → vstep c w e = Some w' → rounds w !! i = Some r → cancel r = true →
  ∃ r', rounds w' !! i = Some r' ∧ cancel r' = true ∧ (local_left r' + (if local_event i e then 1 else 0) <= local_left r)%nat.
Proof.
  intros Hw E Hi Hc. destruct (decide (owner e = Some i)) as [Ho|Ho].
  - destruct (own_step _ _ _ _ _ E Ho) as (s & s' & Hj & Hr & _ & Hch & _). assert (s = r) as -> by congruence.
    exists s'. rewrite Hr, list_lookup_insert_eq by (by eapply lookup_lt_Some). split; [done|].
    destruct Hch as [e Hp Hg _ _|now a m l Hp Hg _ _|now e' plain Ha _ _].
    + destruct (gen_step_place _ _ _ Hg) as ((_ & P2 & _) & _). split; [by rewrite P2|].
      assert (local_event i e = true) as He by (destruct e; try done; cbn in *; injection Ho as ->; by apply bool_decide_eq_true).
      rewrite He. pose proof (gen_step_left i _ _ _ Hg Hc He). lia.
    + destruct (speaker_step_place _ _ _ _ _ _ Hg) as (_ & P2 & _). split; [by rewrite P2|].
      pose proof (speaker_ends _ _ _ _ _ _ Hg Hc). unfold local_left. rewrite (speaker_step_gen _ _ _ _ _ _ Hg).
      cbn. rewrite bool_decide_true by done. lia.
    + destruct (advanced_place _ _ Ha) as ((_ & _ & P2 & _ & _ & P3 & P4) & _). split; [by rewrite P2|].
      unfold local_left. rewrite P3, P4. cbn. lia.
  - destruct (foreign_step _ _ _ _ _ _ Hw E Ho Hi) as [(r' & Hi' & Ht) _]. exists r'. split; [done|].
    assert (local_event i e = false) as -> by (destruct e; cbn in *; try done; apply bool_decide_eq_false; congruence).
    destruct Ht as [-> | [-> | [_ ->]]]; cbn; unfold local_left; cbn; (split; [done | lia]).
Qed.

(** Both tasks wait for the language model. *)
Definition waits_for_model (r : Round) : Prop :=
  (sp (speaker r) = SpDone ∨ starved r) ∧ (gen r = GRuns ∨ gen r = GStopped).

(** C17 An interrupted local leg ends.  Whatever is interleaved, its generator
    and its speaker make only a bounded number of steps more, whatever the
    synthesizer and the player answer.  They do not block each other: unless
    both are done, one of them can go or both wait for the language model, also
    when the generator sits in its send on a full channel; and when the model
    gives a delta the generator stops, and when it returns the generation is
    over.  Once both are done the round comes back as interrupted, or as failed
    when the generation failed. *)
Theorem interrupted_ends c window w i r : vreachable c (bridge_new window) w → rounds w !! i = Some r → cancel r = true →
  (∀ es w', vrun c w es = Some w' → (length (List.filter (local_event i) es) <= local_left r)%nat)
  ∧ (pc r = LocalTts →
     (∀ d, gen r = GRuns → vstep c w (Delta i d) = Some (set_round i (set_gen GStopped r) w))
     ∧ (∀ o, gen r = GRuns ∨ gen r = GStopped → vstep c w (Generated i o) = Some (set_round i (set_gen (GDone o) r) w))
     ∧ ((∃ o now, gen r = GDone o ∧ sp (speaker r) = SpDone
          ∧ ∃ w' r', vstep c w (RoundGoes i now RFailed None) = Some w' ∧ rounds w' !! i = Some r'
            ∧ result r' = Some (match o with Some _ => OOk (spoken_reply (spoken_prefix r)) (0 <? sentences_ (speaker r)) true | None => OErr end))
        ∨ (∀ now a, is_Some (vstep c w (SpeakerGoes i now a))) ∨ is_Some (vstep c w (Sends i)) ∨ waits_for_model r)).
Proof.
  intros Hr Hi Hc. pose proof (tl_window _ (reachable_telling _ _ _ Hr)) as Hw. split.
  - clear Hr. intros es. revert w r Hw Hi Hc. induction es as [|e es IH]; intros w r Hw Hi Hc w' E; cbn in E |- *; [lia|].
    destruct (vstep c w e) as [v|] eqn:Ev; [|done]. cbn in E.
    destruct (local_left_step _ _ _ _ _ _ Hw Ev Hi Hc) as (s & Hs & Hcs & Hl).
    pose proof (IH v s (windowed_step _ _ _ _ Hw Ev) Hs Hcs w' E). destruct (local_event i e); cbn; lia.
  - intros Hp. unfold vstep, on_local. rewrite Hi. cbn [mbind option_bind]. rewrite Hp. split; [|split].
    + intros d Hg. unfold gen_delta. by rewrite Hg, Hc.
    + intros o Hg. unfold gen_end. by destruct Hg as [-> | ->].
    + assert (sp (speaker r) = SpDone ∨ sp (speaker r) ≠ SpDone) as [Hd|Hd] by (destruct (sp (speaker r)); [right; done.. | by left]).
      * destruct (gen r) as [|d| |o] eqn:Hg.
        -- right; right; right. split; [by left | by left].
        -- right; right; left. unfold gen_send. rewrite Hg, Hd. by eexists.
        -- right; right; right. split; [by left | by right].
        -- left. exists o, 0. split; [done|]. split; [done|]. unfold round_step. rewrite Hp, Hg, Hd.
           destruct o as [reply|]; eexists _, _; (split; [reflexivity|]);
             (split; [apply list_lookup_insert_eq; by eapply lookup_lt_Some|]); [|done]. cbn. unfold local_outcome. by rewrite Hc.
      * assert (starved r ∨ ¬ starved r) as [Hst|Hst].
        { unfold starved. destruct (sp (speaker r)); try (right; by intros (? & _)). destruct (chan r); [|right; by intros (_ & ? & _)].
          destruct (gen r) as [| | |o]; [left; by split_and!..|]. right. intros (_ & _ & H). by apply (H o). }
        -- right; right. destruct Hst as (H1 & H2 & H3). destruct (gen r) as [|d| |o] eqn:Hg.
           ++ right. split; [right; split_and!; try done; intros o; by rewrite Hg | by left].
           ++ left. unfold gen_send. rewrite Hg, H1, H2. by eexists.
           ++ right. split; [right; split_and!; try done; intros o; by rewrite Hg | by right].
           ++ by destruct (H3 o).
        -- right. left. intros now a. destruct (speaker_goes i a r Hd Hst) as [x ->]. by eexists.
Qed.

(** ** The microphone *)

(** The tasks that hold the mute: a speaker from its first sentence to its
    end, a one-shot playback of a round, and that of an away command. *)
Definition latched (r : Round) : bool :=
  match pc r with
  | LocalTts => negb (first (speaker r)) && match sp (speaker r) with SpDone => false | _ => true end
  | Saying => true
  | _ => false
  end.
Definition bridge_latched (b : BridgePc) : bool := match b with BAwaySaying _ => true | _ => false end.

Definition mute_held (w : World) : Prop :=
  mute_until w ≠ 0 →
  away_speaks w ≠ 0%nat ∨ bridge_latched (bridge w) = true ∨ ∃ i r, rounds w !! i = Some r ∧ latched r = true.

Lemma speaker_step_latched i a r r' m l : speaker_step i a r = Some (r', m, l) → pc r = LocalTts →
  match m with MLatch => latched r' = true | MLift => True | MKeep => latched r = true → latched r' = true end.
Proof.
  intros E Hp. pose proof (speaker_step_place _ _ _ _ _ _ E) as (P & _). unfold latched. rewrite P, Hp.
  unfold speaker_step, played, go_on in E.
  destruct (sp (speaker r)) as [|[|s todo] [|]|s n t|s n t|s n t|s n t| | |] eqn:Es.
  1: destruct (chan r) as [|d ds]; [destruct (gen r) as [| | |o]|]; try done;
     [|destruct (cancel r) eqn:Ec; [|destruct (filter_push _ _) as [f v]; destruct (splitter_push _ _) as [ss b]]].
  all: repeat (case_match; try done); simplify_eq; cbn in *; simplify_eq; try done; rewrite ?andb_true_r; try done.
  all: by try congruence; destruct (first (speaker r)).
Qed.

Lemma mute_held_bridge c now d vc ca w w' : bridge_step c now d vc ca w = Some w' →
  mute_until w' ≠ 0 → bridge_latched (bridge w') = true ∨ mute_until w ≠ 0 ∧ bridge_latched (bridge w) = false.
Proof.
  intros E Hm. unfold bridge_step in E. destruct (cancel_active_rest w) as (_ & _ & _ & C & _).
  destruct (bridge w) as [|t|t|t [| |]|t|t|t|t|t|t|t h|k] eqn:Eb; try done; injection E as <-; cbn in Hm |- *; rewrite ?C in Hm; try (by right).
  - destruct (arm_listen_rest now 180000 c w) as (_ & _ & _ & _ & R & _). rewrite R in Hm. by right.
  - destruct (tts_active c); [by left | by right].
  - destruct (arm_follow_up_rest now c (set_bridge BIdle w)) as (_ & _ & _ & _ & R & _). rewrite R in Hm. by right.
  - destruct (arm_listen_rest now 180000 c w) as (_ & _ & _ & _ & R & _). destruct (interrupt_enabled c); [rewrite R in Hm|]; by right.
Qed.

Lemma touched_latched r r' : touched r r' → latched r' = latched r.
Proof. intros [-> | [-> | [Hp ->]]]; try done. unfold latched. cbn. by rewrite Hp. Qed.

(** Only the watch counts its utterances. *)
Lemma away_step c w e w' : vstep c w e = Some w' →
  match e with AwaySpeaks _ | AwaySpoke => True | _ => away_speaks w' = away_speaks w end.
Proof.
  intros E. destruct e; cbn in E; try done; try (by injection E as <-).
  - destruct (bridge w); try done. injection E as <-. cbn. unfold join_conversation. by repeat case_match.
  - unfold bridge_step, arm_listen, arm_follow_up, cancel_active in E. repeat (case_match; try done); by simplify_eq.
  - apply on_local_spec in E as (r & _ & _ & E). cbn in E. destruct (gen_delta d r); [by injection E as <- | done].
  - apply on_local_spec in E as (r & _ & _ & E). cbn in E. destruct (gen_send r); [by injection E as <- | done].
  - apply on_local_spec in E as (r & _ & _ & E). cbn in E. destruct (gen_end reply r); [by injection E as <- | done].
  - apply on_local_spec in E as (r & _ & _ & E). cbn in E. destruct (speaker_step i a r) as [[[r' m] l]|]; [|done].
    cbn in E. injection E as <-. induction l as [|x l IH]; cbn; [by destruct m | done].
  - destruct (rounds w !! i) as [r|]; [|done]. cbn in E. unfold round_step, arm_follow_up in E.
    repeat (case_match; try done); by simplify_eq.
Qed.

Lemma mute_held_step c w e w' : windowed w → mute_held w → vstep c w e = Some w' → mute_held w'.
Proof.
  intros Hw Hh E Hm.
  assert (∀ i r, owner e ≠ Some i → rounds w !! i = Some r → latched r = true → ∃ j s, rounds w' !! j = Some s ∧ latched s = true) as Hold.
  { intros i r Ho Hi Hl. destruct (foreign_step _ _ _ _ _ _ Hw E Ho Hi) as [(x & Hx & Ht) _]. exists i, x. split; [done|]. by rewrite (touched_latched r x Ht). }
  destruct (owner e) as [i|] eqn:Eo.
  - destruct (own_step _ _ _ _ _ E Eo) as (r & r' & Hi & Hr & Hb & Hch & _). rewrite Hb.
    assert (away_speaks w' = away_speaks w) as -> by (pose proof (away_step _ _ _ _ E); by destruct e).
    assert (rounds w' !! i = Some r') as Hi' by (rewrite Hr; apply list_lookup_insert_eq; by eapply lookup_lt_Some).
    assert (latched r' = true ∨ (mute_until w ≠ 0 ∧ (latched r = true → latched r' = true))) as [Hl|[Hm0 Hl]]; [| right; right; by exists i, r' |].
    + destruct Hch as [e Hp Hg _ Hs|now a m l Hp Hg _ Hs|now e' plain Ha _ Hs]; rewrite Hs in Hm.
      * right. split; [done|]. destruct (gen_step_place _ _ _ Hg) as ((P & _) & P' & _). unfold latched. by rewrite P, P'.
      * pose proof (speaker_step_latched _ _ _ _ _ _ Hg Hp) as Hl. destruct m; [by right | by left | done].
      * destruct Ha as [reply Hp ->|Hp ->|p Hp Hq ->|reply Hp ->|reply Hp Hg Hsp ->|o Hp ->|p Hp Hq ->]; unfold latched in *; cbn.
        -- rewrite Hp in *. by right.
        -- destruct Hp as [Hp|[Hp|[Hp Hd]]]; rewrite Hp in *; [by right..|]. rewrite Hd, andb_false_r. by right.
        -- rewrite Hp in *. by right.
        -- rewrite Hp in *. by right.
        -- rewrite Hp, Hsp, andb_false_r in *. by right.
        -- rewrite Hp in *. by right.
        -- destruct (pc r) as [| | | | |? ? []| | | |], p; try done; (by left) || (by right).
    + destruct (Hh Hm0) as [Hbl | [Hbl | (j & s & Hj & Hs)]]; [by left | by right; left|]. right; right.
      destruct (decide (j = i)) as [->|Hji]; [|apply (Hold j s); [congruence | done..]]. exists i, r'. split; [done|]. apply Hl. congruence.
  - assert (away_speaks w' ≠ 0%nat ∨ bridge_latched (bridge w') = true ∨ mute_until w ≠ 0
      ∧ (away_speaks w ≠ 0%nat → away_speaks w' ≠ 0%nat) ∧ (bridge_latched (bridge w) = true → bridge_latched (bridge w') = true))
      as [Ha | [Hb | (Hm0 & Ha & Hb)]]; [|by left|by right; left|].
    + pose proof (away_step _ _ _ _ E) as Haw. destruct e; try done; cbn in E.
      * destruct (bridge w) eqn:Eb; try done. right; right. rewrite Haw. injection E as <-. split; [|done]. cbn in Hm. unfold join_conversation in Hm.
        by repeat case_match.
      * destruct (mute_held_bridge _ _ _ _ _ _ _ E Hm) as [H|[H1 H2]]; [by right; left|]. right; right. split; [done|]. by rewrite Haw, H2.
      * injection E as <-. by right; right.
      * injection E as <-. by right; right.
      * injection E as <-. done.
      * injection E as <-. by left.
      * destruct (away_speaks w); [done|]. injection E as <-. done.
    + destruct (Hh Hm0) as [Haw | [Hbl | (j & s & Hj & Hs)]]; [left; by apply Ha | right; left; by apply Hb | right; right; by apply (Hold j s)].
Qed.

(** C15 The microphone is never left deaf: whenever the mute is latched, some
    task holds it that will lift it, a speaker between its first sentence and
    its end, a one-shot playback of a round or of an away command, or an
    utterance of the watch of away mode; so when all rounds have ended, the
    bridge waits and the watch is silent, the mute is off. *)
Theorem mute_is_held c window w : vreachable c (bridge_new window) w →
  mute_held w
  ∧ (bridge w = BIdle → (∀ i r, rounds w !! i = Some r → pc r = Over) → away_speaks w = 0%nat → mute_until w = 0).
Proof.
  intros Hr. assert (mute_held w) as Hh.
  { induction Hr as [|w e w' Hr IH E]; [by intros []|]. eapply mute_held_step; [by eapply tl_window, reachable_telling | done..]. }
  split; [done|]. intros Hb Hall Haw. apply dec_stable. intros Hm. destruct (Hh Hm) as [H | [H | (i & r & Hi & Hl)]];
    [by rewrite Haw in H | by rewrite Hb in H|].
  unfold latched in Hl. by rewrite (Hall i r Hi) in Hl.
Qed.

(** ** What an answer sounds like *)

(** The deltas that the generator of a round got through to its speaker. *)
Definition accepted (i : nat) (w : World) (e : Event) : list bytes :=
  match e with
  | Sends j =>
      if decide (j = i) then
        match rounds w !! i with
        | Some r => match gen r, gen_send r with GSending d, Some r' => match gen r' with GRuns => [d] | _ => [] end | _, _ => [] end
        | None => []
        end
      else []
  | _ => []
  end.

(** Whether more deltas may come. *)
Definition more (r : Round) : bool := match gen r with GRuns | GSending _ => true | _ => false end.

(** The synthesizer and the player of the round do not fail at this step. *)
Definition answers_well (a : Answer) (r : Round) : bool :=
  match sp (speaker r), a with
  | SpAwait _ _ _, Yes => true
  | SpAwait _ _ _, _ => false
  | (SpSpawn _ _ _ | SpPlaying _ _ _), No => false
  | _, _ => true
  end.
Definition smooth (i : nat) (w : World) (e : Event) : bool :=
  match e with
  | SpeakerGoes j _ a => if decide (j = i) then match rounds w !! i with Some r => answers_well a r | None => true end else true
  | _ => true
  end.

Fixpoint deltas_of (c : Setup) (i : nat) (w : World) (es : list Event) : list bytes :=
  match es with
  | [] => []
  | e :: es => accepted i w e ++ match vstep c w e with Some w => deltas_of c i w es | None => [] end
  end.
Fixpoint smooth_run (c : Setup) (i : nat) (w : World) (es : list Event) : bool :=
  match es with
  | [] => true
  | e :: es => smooth i w e && match vstep c w e with Some w => smooth_run c i w es | None => true end
  end.

(** What a speaker has still to play when it gets [l] more. *)
Definition held (s : Speaker) : list bytes := match synth_ahead s with Some p => [p] | None => [] end.
Definition to_play (s : Speaker) (l : list bytes) : list bytes := speak_loop (filter_ s) (splitter s) l.
Definition after (s : Speaker) (next : Next) (tail : bool) (l : list bytes) : list bytes :=
  match next with Some (p, todo) => p :: todo ++ (if tail then [] else to_play s l) | None => [] end.
Definition pend (stopped : bool) (s : Speaker) (l : list bytes) : list bytes :=
  match sp s with
  | SpRecv => held s ++ to_play s l
  | SpNext todo tail => held s ++ todo ++ (if tail then [] else to_play s l)
  | SpAwait p next tail | SpMute p next tail | SpSpawn p next tail | SpPlaying p next tail => p :: after s next tail l
  | SpTail => if stopped then [] else held s ++ to_play s []
  | SpFinish | SpDone => []
  end.
Definition pending (r : Round) (l : list bytes) : list bytes := pend (cancel r) (speaker r) (chan r ++ l).

Lemma sublist_self (l : list bytes) (P Q : Prop) : l `sublist_of` l ∧ (P → Q → l = l).
Proof. by split. Qed.
Lemma sublist_later (x : bytes) (l : list bytes) (Q : Prop) : l `sublist_of` x :: l ∧ (false = true → Q → l = x :: l).
Proof. split; [by constructor | done]. Qed.
Lemma sublist_none (l : list bytes) (P : Prop) : [] `sublist_of` l ∧ (P → true = false → [] = l).
Proof. split; [apply sublist_nil_l | done]. Qed.

(** Once a sentence is dealt with, what follows it is still to play. *)
Lemma go_on_pend b s next tail l : synth_ahead s = None → pend b (go_on next tail s) l = after s next tail l.
Proof. intros Ha. destruct next as [[p todo]|]; unfold go_on, pend, after, held, to_play; cbn -[speak_loop]; [done|]. by destruct (sp s). Qed.

Lemma plays_one i s : rev (plays i [LPlayed i s]) = [s].
Proof. unfold plays. cbn. by rewrite decide_True. Qed.

(** While a sentence is in hand none waits. *)
Definition tidy (s : Speaker) : Prop :=
  match sp s with SpAwait _ _ _ | SpMute _ _ _ | SpSpawn _ _ _ | SpPlaying _ _ _ => synth_ahead s = None | _ => True end.

Lemma speaker_step_pending i a r r' m k l : tidy (speaker r) → speaker_step i a r = Some (r', m, k) → more r = true ∨ l = [] →
  tidy (speaker r') ∧ (rev (plays i k) ++ pending r' l `sublist_of` pending r l
    ∧ (answers_well a r = true → cancel r = false → rev (plays i k) ++ pending r' l = pending r l)).
Proof.
  unfold speaker_step, played, pending, answers_well, tidy. intros Ht E Hl.
  destruct (sp (speaker r)) as [|[|s todo] [|]|s n t|s n t|s n t|s n t| | |] eqn:Es; try done.
  - destruct (chan r) as [|d ds] eqn:Eq.
    { destruct (gen r) as [| | |o] eqn:Eg; try done. destruct Hl as [Hl|Hl]; [unfold more in Hl; by rewrite Eg in Hl|]. injection E as <- <- <-. subst l. split; [done|].
      unfold pend at 1 3. cbn -[speak_loop pend]. unfold pend. rewrite Es. cbn -[speak_loop]. destruct (cancel r); [apply sublist_none | apply sublist_self]. }
    destruct (cancel r) eqn:Ec; [injection E as <- <- <-; cbn; rewrite Ec; split; [done | apply sublist_none]|].
    destruct (filter_push _ _) as [f v] eqn:Ef. destruct (splitter_push _ _) as [ss b] eqn:Eb. injection E as <- <- <-. split; [done|].
    unfold pend, held, to_play. rewrite Es. cbn -[speak_loop]. cbn [speak_loop]. rewrite Ef, Eb. apply sublist_self.
  - destruct (synth_ahead (speaker r)) as [p|] eqn:Ea; injection E as <- <- <-; (split; [done|]); unfold pend, held; rewrite Es;
      cbn -[speak_loop]; rewrite Ea; apply sublist_self.
  - injection E as <- <- <-. split; [done|]. unfold pend, held. rewrite Es. apply sublist_self.
  - destruct (synth_ahead (speaker r)) as [p|] eqn:Ea; injection E as <- <- <-; (split; [done|]); unfold pend, held; rewrite Es;
      cbn -[speak_loop]; rewrite Ea; apply sublist_self.
  - destruct (synth_ahead (speaker r)) as [p|] eqn:Ea; injection E as <- <- <-; (split; [done|]); unfold pend, held; rewrite Es;
      cbn -[speak_loop]; rewrite Ea; apply sublist_self.
  - assert (tidy (go_on n t (speaker r))) as Htidy by (by destruct n as [[? ?]|]).
    assert (pend (cancel r) (speaker r) (chan r ++ l) = s :: after (speaker r) n t (chan r ++ l)) as -> by (unfold pend; by rewrite Es).
    destruct a; [destruct (cancel r) eqn:Ec|..]; injection E as <- <- <-; cbn [speaker set_speaker cancel chan rev plays omap list_omap app];
      rewrite ?go_on_pend by done; (split; [done|]); rewrite ?Ec; (apply sublist_self || apply sublist_later || idtac).
    split; [by constructor | done].
  - injection E as <- <- <-. split; [done|]. unfold pend. rewrite Es. by destruct n as [[? ?]|]; apply sublist_self.
  - assert (tidy (go_on n t (speaker r))) as Htidy by (by destruct n as [[? ?]|]).
    assert (pend (cancel r) (speaker r) (chan r ++ l) = s :: after (speaker r) n t (chan r ++ l)) as Hp by (unfold pend; by rewrite Es).
    destruct a; injection E as <- <- <-; cbn [speaker set_speaker set_prefix cancel chan]; rewrite ?plays_one, ?go_on_pend by done.
    + split; [done|]. unfold pend. rewrite Es. by destruct n as [[? ?]|]; apply sublist_self.
    + rewrite Hp. split; [done|]. apply sublist_later.
    + rewrite Hp. split; [by destruct n as [[? ?]|]|]. apply sublist_self.
  - assert (tidy (go_on n t (speaker r))) as Htidy by (by destruct n as [[? ?]|]).
    assert (pend (cancel r) (speaker r) (chan r ++ l) = s :: after (speaker r) n t (chan r ++ l)) as Hp by (unfold pend; by rewrite Es).
    destruct a; [| |destruct (cancel r) eqn:Ec]; injection E as <- <- <-; cbn [speaker set_speaker set_prefix cancel chan];
      rewrite ?plays_one, ?go_on_pend, ?Ec by done.
    + rewrite Hp. split; [by destruct n as [[? ?]|]|]. apply sublist_self.
    + rewrite Hp. split; [done|]. apply sublist_later.
    + rewrite Hp. split; [done|]. split; [by constructor | done].
    + split; [by rewrite Es|]. apply sublist_self.
  - destruct (cancel r) eqn:Ec; [injection E as <- <- <-; cbn; split; [done | apply sublist_none]|].
    destruct (splitter_flush _) as [rest b] eqn:Ef. injection E as <- <- <-. split; [done|]. unfold pend, held, to_play. rewrite Es. cbn -[speak_loop].
    cbn [speak_loop]. rewrite Ef. destruct rest; cbn; rewrite ?app_nil_r; apply sublist_self.
  - injection E as <- <- <-. split; [done|]. unfold pend. rewrite Es. apply sublist_self.
Qed.

Definition spoken_so_far (i : nat) (ds : list bytes) (ok : bool) (w : World) : Prop :=
  match rounds w !! i with
  | Some r => tidy (speaker r) ∧ ∀ l, more r = true ∨ l = [] →
      rev (plays i (sounds w)) ++ pending r l `sublist_of` speak (ds ++ l)
      ∧ (ok = true → cancel r = false → rev (plays i (sounds w)) ++ pending r l = speak (ds ++ l))
  | None => ds = [] ∧ plays i (sounds w) = []
  end.

Lemma pend_stopped s l : pend true s l `sublist_of` pend false s l.
Proof. unfold pend. destruct (sp s); try done. apply sublist_nil_l. Qed.

(** A round's own step that plays nothing and leaves its speaker and channel. *)
Lemma so_far_same i ds ok ok' w w' r r' : rounds w !! i = Some r → rounds w' !! i = Some r' → spoken_so_far i ds ok w →
  (ok' = true → ok = true) → speaker r' = speaker r → chan r' = chan r → (more r' = true → more r = true) →
  (cancel r = true → cancel r' = true) → plays i (sounds w') = plays i (sounds w) → spoken_so_far i ds ok' w'.
Proof.
  unfold spoken_so_far, pending. intros Hi Hi' H Hok Hs Hc Hg Hx Hp. rewrite Hi in H. rewrite Hi', Hs, Hc, Hp. destruct H as [Ht H].
  split; [done|]. intros l Hl. destruct (H l ltac:(tauto)) as [H1 H2]. split.
  - destruct (cancel r), (cancel r') eqn:Ec; try done; [by specialize (Hx eq_refl)|].
    etransitivity; [|exact H1]. apply sublist_app; [done|]. apply pend_stopped.
  - intros Hok' Hc'. assert (cancel r = false) as Hcr by (destruct (cancel r); [by rewrite Hx in Hc' | done]).
    rewrite Hc'. rewrite Hcr in H2. by apply H2; [apply Hok|].
Qed.

Lemma accepted_foreign i w e : owner e ≠ Some i → accepted i w e = [] ∧ smooth i w e = true.
Proof. destruct e; cbn; try done; intros Ho; rewrite decide_False by congruence; done. Qed.

Lemma so_far_step c w e w' i ds ok : windowed w → vstep c w e = Some w' → spoken_so_far i ds ok w →
  spoken_so_far i (ds ++ accepted i w e) (ok && smooth i w e) w'.
Proof.
  intros Hw E H. destruct (decide (owner e = Some i)) as [Ho|Ho].
  - destruct (own_step _ _ _ _ _ E Ho) as (r & r' & Hi & Hr & _ & Hch & _).
    assert (rounds w' !! i = Some r') as Hi' by (rewrite Hr; apply list_lookup_insert_eq; by eapply lookup_lt_Some).
    destruct Hch as [e Hp Hg Hs _|now a m l Hp Hg Hs _|now e' plain Ha Hs _]; try cbn [accepted smooth]; rewrite ?decide_True by done.
    + destruct (gen_step_place _ _ _ Hg) as ((_ & Hcc & _) & Hsp & _).
      assert ((∃ d, accepted i w e = [d] ∧ more r = true ∧ chan r' = chan r ++ [d])
        ∨ accepted i w e = [] ∧ chan r' = chan r ∧ (more r' = true → more r = true)) as Hacc.
      { unfold more. destruct e; try done; cbn in Ho; injection Ho as ->; cbn [gen_step accepted] in *; rewrite ?decide_True by done; rewrite ?Hi.
        - right. unfold gen_delta in Hg. destruct (gen r); try done. by injection Hg as <-.
        - unfold gen_send in *. destruct (gen r) as [|d| |] eqn:Eg; try done.
          destruct (sp (speaker r)); try (right; by injection Hg as <-);
            (destruct (zlen (chan r) <? 8); [left; exists d; by injection Hg as <- | done]).
        - right. unfold gen_end in Hg. destruct (gen r); try done; by injection Hg as <-. }
      assert (smooth i w e = true) as -> by (by destruct e). rewrite andb_true_r.
      destruct Hacc as [(d & -> & Hm & Hc') | (-> & Hc' & Hm)].
      * unfold spoken_so_far, pending in *. rewrite Hi in H. rewrite Hi', Hsp, Hc', Hs, Hcc. destruct H as [Ht H]. split; [done|].
        intros l _. rewrite <-!app_assoc. cbn [app]. apply H. by left.
      * rewrite app_nil_r. apply (so_far_same i ds ok ok w w' r r'); try done; first [by rewrite Hcc | by rewrite Hs].
    + rewrite Hi, app_nil_r. unfold spoken_so_far in *. rewrite Hi in H. rewrite Hi', Hs, plays_app, rev_app_distr. destruct H as [Ht H].
      destruct (speaker_step_place _ _ _ _ _ _ Hg) as (_ & Hcc & _). pose proof (speaker_step_gen _ _ _ _ _ _ Hg) as Hgg.
      split; [exact (proj1 (speaker_step_pending _ _ _ _ _ _ [] Ht Hg (or_intror eq_refl)))|].
      intros k Hk. assert (more r' = more r) as Hmm by (unfold more; by rewrite Hgg). rewrite Hmm in Hk. destruct (speaker_step_pending _ _ _ _ _ _ k Ht Hg Hk) as (_ & P1 & P2). destruct (H k Hk) as [H1 H2].
      rewrite <-app_assoc. split; [etransitivity; [by apply sublist_app | exact H1]|]. rewrite Hcc.
      intros Hok Hc. apply andb_true_iff in Hok as [Hok Ha]. by rewrite P2, H2.
    + rewrite app_nil_r, andb_true_r. destruct (advanced_place _ _ Ha) as ((_ & _ & P1 & _ & P2 & P3 & P4) & _).
      apply (so_far_same i ds ok ok w w' r r'); try done; first [by unfold more; rewrite P3 | by rewrite P1 | idtac].
      rewrite Hs, plays_app. by destruct (said_by_says i r) as (_ & _ & ->).
  - destruct (accepted_foreign i w e Ho) as [-> ->]. rewrite app_nil_r, andb_true_r. pose proof (foreign_plays _ _ _ _ _ E Ho) as Hp.
    destruct (rounds w !! i) as [r|] eqn:Hi.
    + destruct (foreign_step _ _ _ _ _ _ Hw E Ho Hi) as [(r' & Hi' & Ht) _].
      assert (speaker r' = speaker r ∧ chan r' = chan r ∧ gen r' = gen r ∧ (cancel r = true → cancel r' = true)) as (T1 & T2 & T3 & T4)
        by (by destruct Ht as [-> | [-> | [_ ->]]]).
      apply (so_far_same i ds ok ok w w' r r'); try done. by unfold more; rewrite T3.
    + destruct (rounds w' !! i) as [r'|] eqn:Hi'; unfold spoken_so_far in *; rewrite Hi in H; rewrite Hi', Hp; destruct H as [-> ->]; [|done].
      destruct (fresh_round _ _ _ _ _ _ E Hi Hi') as [(t & h & ->) _]. by split.
Qed.

Lemma so_far_run c es : ∀ w w' i ds ok, windowed w → vrun c w es = Some w' → spoken_so_far i ds ok w →
  spoken_so_far i (ds ++ deltas_of c i w es) (ok && smooth_run c i w es) w'.
Proof.
  induction es as [|e es IH]; intros w w' i ds ok Hw E H; cbn in E |- *.
  - injection E as <-. by rewrite app_nil_r, andb_true_r.
  - destruct (vstep c w e) as [v|] eqn:Ev; [|done]. cbn in E. rewrite app_assoc, andb_assoc.
    apply (IH v); [by eapply windowed_step | done | by eapply so_far_step].
Qed.

(** C2 The pipeline speaks the reply: whatever is interleaved, what is heard
    of a round is in order and without repetition part of the sentences of the
    text that its generator produced (thoughts removed, as [Speech.speak]
    cuts them, however the text came in deltas); and when the round is not
    cancelled and neither the synthesizer nor the player failed, a speaker that
    is done has played all of them. *)
Theorem pipeline_speaks c window es w i r : vrun c (bridge_new window) es = Some w → rounds w !! i = Some r →
  let text := concat (deltas_of c i (bridge_new window) es) in
  rev (plays i (sounds w)) `sublist_of` sentences (filter_all false text).2
  ∧ (smooth_run c i (bridge_new window) es = true → cancel r = false → sp (speaker r) = SpDone →
       rev (plays i (sounds w)) = sentences (filter_all false text).2).
Proof.
  intros E Hi text. assert (spoken_so_far i [] true (bridge_new window)) as H0 by done.
  pose proof (so_far_run c es _ _ i [] true (ltac:(intros j; done) : windowed (bridge_new window)) E H0) as H.
  unfold spoken_so_far in H. rewrite Hi in H. destruct H as [_ H]. destruct (H [] (or_intror eq_refl)) as [H1 H2].
  rewrite app_nil_r in H1, H2. cbn [app andb] in H1, H2. rewrite speak_all in H1, H2. split.
  - etransitivity; [|exact H1]. by apply sublist_inserts_r.
  - intros Hs Hc Hd. unfold text. rewrite <-H2 by done. unfold pending, pend. by rewrite Hd, app_nil_r.
Qed.

(** ** Runs *)
Definition sample_setup : Setup := mkSetup true (f32_lit 6 10) true true.
Definition asks (t : bytes) (now : Z) : list Event := Transcript t now :: repeat (BridgeGoes now None false true) 6.
Definition speaks (i k : nat) : list Event := repeat (SpeakerGoes i 3000 Yes) k.
Definition interrupts (t : bytes) (now : Z) (d : option (bytes * f32)) (k : nat) : list Event :=
  Transcript t now :: repeat (BridgeGoes now d false true) k.

(** A question, an answer of three sentences whose first one is playing, and a
    stop word. *)
Definition stopped_run : list Event :=
  asks (lit "what time is it") 1000
  ++ [RoundGoes 0 1000 RLocal None; Delta 0 (lit "Good morning! It is nine! And it rains! "); Sends 0; Generated 0 (Some (lit "..."))]
  ++ speaks 0 6 ++ interrupts (lit "Stop.") 4000 None 2.
(** The rest of that round. *)
Definition wind_down : list Event := speaks 0 7 ++ repeat (RoundGoes 0 5000 RFailed None) 4.

Definition view (w : World) : list (SpeakerPc * bool * RoundPc * option Outcome) :=
  List.map (λ r, (sp (speaker r), cancel r, pc r, result r)) (rounds w).

Definition stopped_world : World := default (bridge_new 0) (vrun sample_setup (bridge_new 0) stopped_run).
Lemma stopped_world_ok : vrun sample_setup (bridge_new 0) stopped_run = Some stopped_world.
Proof. vm_compute. reflexivity. Qed.
Definition ended_world : World := default (bridge_new 0) (vrun sample_setup stopped_world wind_down).
Lemma ended_world_ok : vrun sample_setup stopped_world wind_down = Some ended_world.
Proof. vm_compute. reflexivity. Qed.

Lemma run_of {c w0 es} w : vrun c w0 es = Some w → vreachable c w0 w.
Proof. apply vrun_reachable, vreach_start. Qed.

Definition stopped_round : Round := default (round_new [] []) (rounds stopped_world !! 0%nat).
Lemma stopped_round_ok : rounds stopped_world !! 0%nat = Some stopped_round.
Proof. vm_compute. reflexivity. Qed.
Definition ended_round : Round := default (round_new [] []) (rounds ended_world !! 0%nat).
Lemma ended_round_ok : rounds ended_world !! 0%nat = Some ended_round.
Proof. vm_compute. reflexivity. Qed.
Definition asked_run : list Event := interrupts (lit "and the weather") 4500 None 2.
Definition asked_world : World := default (bridge_new 0) (vrun sample_setup stopped_world asked_run).
Lemma asked_world_ok : vrun sample_setup stopped_world asked_run = Some asked_world.
Proof. vm_compute. reflexivity. Qed.

(** A new question passes the gate while the interrupted round still plays. *)
Lemma one_answer_witness : bridge asked_world = BTriage (lit "and the weather") ∧ unreleased <$> rounds asked_world = [true]
  ∧ ∀ i r, rounds asked_world !! i = Some r → unreleased r = true → cancel r = true.
Proof.
  split; [vm_compute; reflexivity|]. split; [vm_compute; reflexivity|].
  apply (proj2 (proj2 (one_answer sample_setup 0 asked_world eq_refl (vrun_reachable _ _ _ _ _ (run_of _ stopped_world_ok) asked_world_ok)))).
  vm_compute. reflexivity.
Defined.

Lemma interrupted_round_witness : ∃ new, sounds ended_world = new ++ sounds stopped_world ∧ (length (starts 0 new) <= 0)%nat
  ∧ result ended_round = Some (OOk (Some (lit "Good morning!")) true true) ∧ cancel ended_round = true.
Proof.
  destruct (interrupted_round sample_setup 0 stopped_world ended_world wind_down 0 stopped_round
    (run_of _ stopped_world_ok) ended_world_ok stopped_round_ok ltac:(vm_compute; reflexivity)) as (r' & new & H1 & H2 & H3 & H4 & _).
  exists new. split; [exact H2|]. split; [exact H4|]. split; [vm_compute; reflexivity|]. rewrite ended_round_ok in H1. congruence.
Defined.

(** The player still plays the first sentence, eight deltas wait in the channel
    and the generator sits in its send when the stop word comes. *)
Definition blocked_run : list Event :=
  asks (lit "what time is it") 1000
  ++ [RoundGoes 0 1000 RLocal None; Delta 0 (lit "Good morning! It is nine! And it rains! "); Sends 0] ++ speaks 0 6
  ++ concat (repeat [Delta 0 (lit "Oh! "); Sends 0] 8) ++ [Delta 0 (lit "Oh! ")] ++ interrupts (lit "Stop.") 4000 None 2.
Definition blocked_world : World := default (bridge_new 0) (vrun sample_setup (bridge_new 0) blocked_run).
Lemma blocked_world_ok : vrun sample_setup (bridge_new 0) blocked_run = Some blocked_world.
Proof. vm_compute. reflexivity. Qed.
Definition blocked_round : Round := default (round_new [] []) (rounds blocked_world !! 0%nat).
Lemma blocked_round_ok : rounds blocked_world !! 0%nat = Some blocked_round.
Proof. vm_compute. reflexivity. Qed.

Lemma interrupted_ends_witness : vstep sample_setup blocked_world (Sends 0) = None
  ∧ (∀ now a, is_Some (vstep sample_setup blocked_world (SpeakerGoes 0 now a)))
  ∧ ∀ es w', vrun sample_setup blocked_world es = Some w' → (length (List.filter (local_event 0) es) <= 20)%nat.
Proof.
  destruct (interrupted_ends sample_setup 0 blocked_world 0 blocked_round (run_of _ blocked_world_ok) blocked_round_ok
    ltac:(vm_compute; reflexivity)) as [Hb He].
  split; [vm_compute; reflexivity|]. split.
  - destruct (proj2 (proj2 (He ltac:(vm_compute; reflexivity)))) as [(o & now & H & _) | [H | [[x H] | [_ H]]]]; [| exact H | |].
    + vm_compute in H. discriminate.
    + vm_compute in H. discriminate.
    + vm_compute in H. destruct H; discriminate.
  - intros es w' E. etransitivity; [exact (Hb es w' E)|]. vm_compute. repeat constructor.
Defined.

Lemma mute_is_held_witness : mute_until stopped_world = 123000 ∧ mute_until ended_world = 0 ∧ mute_held stopped_world.
Proof.
  split; [vm_compute; reflexivity|]. split.
  - apply (proj2 (mute_is_held sample_setup 0 ended_world (vrun_reachable _ _ _ _ _ (run_of _ stopped_world_ok) ended_world_ok))); [vm_compute; reflexivity| |vm_compute; reflexivity].
    intros i r Hi. assert (Forall (λ r, pc r = Over) (rounds ended_world)) as Hall by (vm_compute; repeat constructor).
    by apply (proj1 (Forall_lookup _ _) Hall i r Hi).
  - exact (proj1 (mute_is_held sample_setup 0 stopped_world (run_of _ stopped_world_ok))).
Defined.

(** ** Behaviours of the runs *)

(** A stop word does not reach the remote legs: the reply of the cloud is
    spoken in full after it. *)
Example remote_answers_after_stop : option_map (λ w, (List.map cancel (rounds w), sounds w))
  (vrun sample_setup (bridge_new 0) (asks (lit "what time is it") 1000 ++ interrupts (lit "Stop.") 1500 None 2
    ++ repeat (RoundGoes 0 2000 (RReply (lit "It is nine.")) None) 4))
  = Some ([true], [LSay 0 (lit "It is nine.")]).
Proof. vm_compute. reflexivity. Qed.

(** The listening window of three minutes that a round opens outlives it when
    no follow-up window is configured. *)
Example window_outlives_round : mute_until ended_world = 0 ∧ follow_until ended_world = 181000
  ∧ List.map pc (rounds ended_world) = [Over].
Proof. by vm_compute. Qed.

(** The speaker of a stopped round lifts the mute under the answer that
    follows it. *)
Definition followed_run : list Event :=
  asks (lit "and the weather") 4500
  ++ [RoundGoes 1 4500 RLocal None; Delta 1 (lit "It rains! All day! "); Sends 1; Generated 1 (Some (lit "..."))] ++ speaks 1 6
  ++ speaks 0 7.
Example mute_lifted_under_answer : option_map (λ w, (List.map (λ r, sp (speaker r)) (rounds w), mute_until w)) (vrun sample_setup stopped_world followed_run)
  = Some ([SpDone; SpPlaying (lit "It rains!") (Some (lit "All day!", [])) false], 0).
Proof. vm_compute. reflexivity. Qed.

(** An answer that nobody interrupts. *)
Definition spoken_run : list Event :=
  asks (lit "what time is it") 1000
  ++ [RoundGoes 0 1000 RLocal None; Delta 0 (lit "<think>hm! </think>Good mor"); Sends 0; Delta 0 (lit "ning! It is nine! And it"); Sends 0; Delta 0 (lit " rains"); Sends 0]
  ++ speaks 0 12 ++ [Generated 0 (Some (lit "..."))] ++ speaks 0 13.
Definition spoken_world : World := default (bridge_new 0) (vrun sample_setup (bridge_new 0) spoken_run).
Lemma spoken_world_ok : vrun sample_setup (bridge_new 0) spoken_run = Some spoken_world.
Proof. vm_compute. reflexivity. Qed.
Definition spoken_round : Round := default (round_new [] []) (rounds spoken_world !! 0%nat).
Lemma spoken_round_ok : rounds spoken_world !! 0%nat = Some spoken_round.
Proof. vm_compute. reflexivity. Qed.
Lemma pipeline_speaks_witness : rev (plays 0 (sounds spoken_world)) = [lit "Good morning!"; lit "It is nine!"; lit "And it rains"].
Proof.
  pose proof (proj2 (pipeline_speaks sample_setup 0 spoken_run spoken_world 0 spoken_round spoken_world_ok spoken_round_ok)
    ltac:(vm_compute; reflexivity) ltac:(vm_compute; reflexivity) ltac:(vm_compute; reflexivity)) as H.
  etransitivity; [exact H|]. vm_compute. reflexivity.
Defined.
