(* ===== verification/DescGate.v ===== *)
(** * Admission of frame descriptions ([src/desc_gate.rs])

    The gate as the interleaving of the atomic operations of any number of
    callers: every [swap], [load] and [store] of [try_admit] and the store of
    a dropped lease is a step of its own.  The operations are sequentially
    consistent. *)
From Stdlib Require Import ZArith Lia List Bool String.
From stdpp Require Import base option numbers gmap.
From S2P Require Import Prelude.

Inductive DescDecision := DescAdmitted | Busy | Throttled.

Definition as_str (d : DescDecision) : string :=
  match d with DescAdmitted => "admitted" | Busy => "busy" | Throttled => "throttled" end.

(** The three atomics and the constant; [starts] records, newest first, the
    [now_ms] of the runs that were admitted. *)
Record DescGate := mkGate {
  in_flight : bool;
  last_start_ms : Z;
  has_started : bool;
  min_interval_ms : Z;
  starts : list Z;
}.

Definition new (min_interval_ms : Z) : DescGate := mkGate false 0 false min_interval_ms [].

Definition is_busy (g : DescGate) : bool := in_flight g.

Definition set_in_flight (b : bool) (g : DescGate) : DescGate :=
  mkGate b (last_start_ms g) (has_started g) (min_interval_ms g) (starts g).
Definition set_last_start (now : Z) (g : DescGate) : DescGate :=
  mkGate (in_flight g) now (has_started g) (min_interval_ms g) (now :: starts g).
Definition set_has_started (g : DescGate) : DescGate :=
  mkGate (in_flight g) (last_start_ms g) true (min_interval_ms g) (starts g).

(** Where a caller is: before its call, at each operation of [try_admit]
    with what it has read so far, holding the lease, or back with a
    decision. *)
Inductive Pc :=
  | Outside
  | AtSwap (now_ms : Z)
  | AtLoadStarted (now_ms : Z)
  | AtLoadLast (now_ms : Z) (ever_started : bool)
  | AtUndo
  | AtStoreLast (now_ms : Z)
  | AtStoreStarted
  | HoldsLease
  | Returned (d : DescDecision).

Record State := mkState { gate : DescGate; callers : list Pc }.

(** One operation of one caller: its new place and the gate. *)
Inductive op : DescGate → Pc → DescGate → Pc → Prop :=
  | op_call g now : 0 ≤ now → op g Outside g (AtSwap now)
  | op_swap_busy g now : in_flight g = true →
      op g (AtSwap now) (set_in_flight true g) (Returned Busy)
  | op_swap_won g now : in_flight g = false →
      op g (AtSwap now) (set_in_flight true g) (AtLoadStarted now)
  | op_load_started g now : op g (AtLoadStarted now) g (AtLoadLast now (has_started g))
  | op_load_last_inside g now ever_started :
      ever_started && (saturating_sub now (last_start_ms g) <? min_interval_ms g) = true →
      op g (AtLoadLast now ever_started) g AtUndo
  | op_load_last_past g now ever_started :
      ever_started && (saturating_sub now (last_start_ms g) <? min_interval_ms g) = false →
      op g (AtLoadLast now ever_started) g (AtStoreLast now)
  | op_undo g : op g AtUndo (set_in_flight false g) (Returned Throttled)
  | op_store_last g now : op g (AtStoreLast now) (set_last_start now g) AtStoreStarted
  | op_store_started g : op g AtStoreStarted (set_has_started g) HoldsLease
  | op_drop_lease g : op g HoldsLease (set_in_flight false g) (Returned DescAdmitted)
  | op_again g d : op g (Returned d) g Outside.

Inductive step : State → State → Prop :=
  | step_caller g cs i p g' p' :
      cs !! i = Some p → op g p g' p' → step (mkState g cs) (mkState g' (<[i := p']> cs)).

Inductive reachable (s0 : State) : State → Prop :=
  | reach_start : reachable s0 s0
  | reach_step s s' : reachable s0 s → step s s' → reachable s0 s'.

(** ** The invariant *)

(** Between winning the swap and giving the flag back. *)
Definition owns (p : Pc) : bool :=
  match p with
  | AtLoadStarted _ | AtLoadLast _ _ | AtUndo | AtStoreLast _ | AtStoreStarted | HoldsLease => true
  | _ => false
  end.

Definition owners (cs : list Pc) : Z := foldr (λ p acc, Z_of_bool (owns p) + acc) 0 cs.
#[local] Arguments owners : simpl never.

(** Runs start at least the interval apart. *)
Fixpoint spaced (d : Z) (l : list Z) : Prop :=
  match l with
  | now :: ((prev :: _) as tl) => prev + d ≤ now ∧ spaced d tl
  | _ => True
  end.

Definition may_start (g : DescGate) (now : Z) : Prop :=
  match starts g with
  | [] => True
  | prev :: _ => 0 < min_interval_ms g → prev + min_interval_ms g ≤ now
  end.

(** What a caller that owns the flag knows. *)
Definition pc_ok (g : DescGate) (p : Pc) : Prop :=
  match p with
  | AtSwap now | AtLoadStarted now => 0 ≤ now
  | AtLoadLast now ever => 0 ≤ now ∧ ever = has_started g
  | AtStoreLast now => 0 ≤ now ∧ may_start g now
  | AtStoreStarted => starts g ≠ []
  | _ => True
  end.

Record gate_ok (g : DescGate) : Prop := {
  gt_spaced : 0 < min_interval_ms g → spaced (min_interval_ms g) (starts g);
  gt_last : match starts g with [] => has_started g = false | now :: _ => last_start_ms g = now end;
}.

Record state_ok (s : State) : Prop := {
  st_gate : gate_ok (gate s);
  st_owners : owners (callers s) = Z_of_bool (in_flight (gate s));
  st_callers : Forall (pc_ok (gate s)) (callers s);
  (** the first start is recorded before the flag that says so *)
  st_started : has_started (gate s) = false → starts (gate s) ≠ [] → AtStoreStarted ∈ callers s;
}.

Lemma owners_cons p cs : owners (p :: cs) = Z_of_bool (owns p) + owners cs.
Proof. done. Qed.

Lemma owners_nonneg cs : 0 ≤ owners cs.
Proof. induction cs as [|p cs IH]; [done|]. rewrite owners_cons. destruct (owns p); cbn; lia. Qed.

Lemma owners_insert cs i p p' :
  cs !! i = Some p → owners (<[i := p']> cs) = owners cs - Z_of_bool (owns p) + Z_of_bool (owns p').
Proof.
  revert i. induction cs as [|q cs IH]; intros [|i] Hi; try done; cbn in Hi.
  - injection Hi as ->. change (<[0%nat := p']> (p :: cs)) with (p' :: cs). rewrite !owners_cons. lia.
  - change (<[S i := p']> (q :: cs)) with (q :: <[i := p']> cs). rewrite !owners_cons, (IH i Hi). lia.
Qed.

(** Whoever owns the flag is the only one. *)
Lemma owners_unique cs i j p q :
  owners cs ≤ 1 → cs !! i = Some p → cs !! j = Some q → owns p = true → owns q = true → i = j.
Proof.
  intros H1 Hi Hj Hp Hq. destruct (decide (i = j)) as [|Hne]; [done|].
  pose proof (owners_insert cs i p Outside Hi) as E.
  assert (<[i := Outside]> cs !! j = Some q) as Hj' by (by rewrite list_lookup_insert_ne).
  pose proof (owners_insert _ j q Outside Hj') as E'.
  pose proof (owners_nonneg (<[j := Outside]> (<[i := Outside]> cs))).
  rewrite Hp in E. rewrite Hq in E'. cbn in E, E'. lia.
Qed.

Lemma not_owner_ok g g' p :
  owns p = false → pc_ok g p → pc_ok g' p.
Proof. by destruct p. Qed.


Lemma others_ok g g' cs i p p' :
  owners cs ≤ 1 → cs !! i = Some p → owns p = true →
  Forall (pc_ok g) cs → pc_ok g' p' → Forall (pc_ok g') (<[i := p']> cs).
Proof.
  intros H1 Hi Hp Hcs Hp'. apply Forall_lookup. intros j q Hj.
  apply list_lookup_insert_Some in Hj as [(<- & <- & _)|[Hne Hj]]; [done|].
  apply (not_owner_ok g); [|by eapply Forall_lookup_1].
  destruct (owns q) eqn:Eq; [|done]. exfalso. by eapply Hne, owners_unique.
Qed.

(** The flag and the leases: what an operation does to them. *)
Lemma op_owners g p g' p' :
  op g p g' p' → (owns p = true → in_flight g = true) →
  Z_of_bool (in_flight g') = Z_of_bool (in_flight g) - Z_of_bool (owns p) + Z_of_bool (owns p').
Proof.
  intros Hop Hp. destruct Hop; cbn in *; try (rewrite Hp by done); try done; try lia.
  - by rewrite H.
  - by rewrite H.
Qed.

Lemma insert_started (cs : list Pc) i p p' :
  AtStoreStarted ∈ cs → cs !! i = Some p → p ≠ AtStoreStarted → AtStoreStarted ∈ <[i := p']> cs.
Proof.
  intros [j Hj]%list_elem_of_lookup Hi Hp. apply list_elem_of_lookup. exists j.
  rewrite list_lookup_insert_ne; [done|]. intros ->. congruence.
Qed.

Lemma owner_in_flight s i p :
  state_ok s → callers s !! i = Some p → owns p = true → in_flight (gate s) = true.
Proof.
  intros [_ Ho _ _] Hi Hp. pose proof (owners_insert _ i p Outside Hi) as E.
  pose proof (owners_nonneg (<[i := Outside]> (callers s))) as Hn. rewrite Hp in E. cbn in E.
  destruct (in_flight (gate s)); [done|]. cbn in Ho. lia.
Qed.

Lemma gate_step_ok s s' : state_ok s → step s s' → state_ok s'.
Proof.
  intros Hs Hst. destruct Hst as [g cs i p g' p' Hi Hop].
  pose proof (owner_in_flight _ i p Hs Hi) as Hown. destruct Hs as [Hg Ho Hc Hw]. cbn in *.
  assert (owners cs ≤ 1) as H1 by (rewrite Ho; destruct (in_flight g); cbn; lia).
  pose proof (Forall_lookup_1 _ _ _ _ Hc Hi) as Hp.
  constructor; cbn.
  - destruct Hg as [Hsp Hl]. destruct Hop; try by constructor.
    + (* a start is recorded *)
      destruct Hp as [_ Hm]. constructor; cbn; [|done]. intros Hmin. specialize (Hsp Hmin).
      unfold may_start in Hm. destruct (starts g) as [|prev l]; [done|]. auto.
    + constructor; cbn; [done|]. cbn in Hp. by destruct (starts g).
  - rewrite (owners_insert _ _ _ p' Hi), Ho. by rewrite (op_owners _ _ _ _ Hop Hown).
  - assert (pc_ok g' p') as Hp'.
    { destruct Hop; try done; cbn in *. destruct Hp as [Hnow ->]. split; [done|]. unfold may_start.
      destruct (starts g) as [|prev l] eqn:Est; [done|]. intros Hmin.
      destruct Hg as [_ Hl]. rewrite Est in Hl. rewrite Hl in H.
      destruct (has_started g) eqn:Eh; cbn in H.
      - apply Z.ltb_ge in H. unfold saturating_sub in H. lia.
      - exfalso. pose proof (Hw eq_refl ltac:(done)) as [j Hj]%list_elem_of_lookup.
        assert (i = j) as -> by (by eapply owners_unique). congruence. }
    assert (owns p = true ∨ (∀ q, pc_ok g q → pc_ok g' q)) as [Hp1|Hsame]
      by (destruct Hop; try (by left); right; by intros []).
    + by apply (others_ok g _ _ _ p).
    + apply Forall_insert; [|done]. by eapply Forall_impl; [exact Hc | exact Hsame].
  - intros Hh Hst. destruct Hop; cbn in *; try done;
      try (apply (insert_started _ _ _ _ (Hw Hh Hst) Hi); done).
    apply list_elem_of_lookup. exists i. apply list_lookup_insert_eq. by eapply lookup_lt_Some.
Qed.

Lemma reachable_ok s0 s : reachable s0 s → state_ok s0 → state_ok s.
Proof. induction 1 as [|s s' Hr IH Hs]; intros H0; [done|]. eapply gate_step_ok; [by apply IH | done]. Qed.

(** Everyone outside, nothing started. *)
Definition initial (min_interval_ms : Z) (n : nat) : State :=
  mkState (new min_interval_ms) (replicate n Outside).

Lemma initial_ok d n : state_ok (initial d n).
Proof.
  constructor; cbn; [by constructor | | by apply Forall_replicate | done].
  induction n as [|n IH]; [done|]. cbn [replicate]. by rewrite owners_cons, IH.
Qed.

(** What the caller does next with the gate as it is. *)
Lemma owner_progress g p : owns p = true → ∃ g' p', op g p g' p'.
Proof.
  destruct p; try done; intros _; try (by eexists _, _; constructor).
  destruct (ever_started && (saturating_sub now_ms (last_start_ms g) <? min_interval_ms g)) eqn:E.
  - eexists _, _. by apply op_load_last_inside.
  - eexists _, _. by apply op_load_last_past.
Qed.

(** C27 Admission under every interleaving of the atomic operations of any
    number of callers, with any clock readings: two callers never hold the
    lease at once; consecutive runs start at least [min_interval_ms] apart,
    by the clock readings they were admitted with; and the flag is never
    stuck: while it is set, some caller owns it and has an operation to do,
    and when it is clear the next swap wins.  A caller that is about to be
    throttled also sets the flag, so [Busy] does not mean that a description
    is running. *)
Theorem single_flight d n s :
  reachable (initial d n) s →
  (∀ i j, callers s !! i = Some HoldsLease → callers s !! j = Some HoldsLease → i = j)
  ∧ (0 < d → spaced d (starts (gate s)))
  ∧ (in_flight (gate s) = true →
     ∃ i p g' p', callers s !! i = Some p ∧ owns p = true ∧ op (gate s) p g' p')
  ∧ (in_flight (gate s) = false → ∀ i now, callers s !! i = Some (AtSwap now) →
     step s (mkState (set_in_flight true (gate s)) (<[i := AtLoadStarted now]> (callers s)))).
Proof.
  intros Hr. pose proof (reachable_ok _ _ Hr (initial_ok d n)) as [Hg Ho Hc Hw].
  assert (min_interval_ms (gate s) = d) as Hd.
  { clear -Hr. induction Hr as [|s s' Hr IH Hs]; [done|]. destruct Hs as [g cs i p g' p' Hi Hop].
    cbn in *. by destruct Hop. }
  split_and!.
  - intros i j Hi Hj. eapply owners_unique; [|exact Hi|exact Hj|done|done].
    rewrite Ho. by destruct (in_flight _).
  - rewrite <-Hd. apply gt_spaced, Hg.
  - intros Hf. rewrite Hf in Ho. cbn in Ho.
    assert (∃ i p, callers s !! i = Some p ∧ owns p = true) as (i & p & Hi & Hp).
    { clear -Ho. revert Ho. induction (callers s) as [|q cs IH]; [done|]. rewrite owners_cons.
      intros Ho. destruct (owns q) eqn:Eq; [by exists 0%nat, q|].
      destruct IH as (i & p & Hi & Hp); [cbn in Ho; lia|]. by exists (S i), p. }
    destruct (owner_progress (gate s) p Hp) as (g' & p' & Hop). by exists i, p, g', p'.
  - intros Hf i now Hi. destruct s as [g cs]. cbn in *. eapply step_caller; [exact Hi|].
    by apply op_swap_won.
Qed.

(** ** Concrete runs *)
Lemma reachable_at s0 g cs i p g' p' :
  reachable s0 (mkState g cs) → cs !! i = Some p → op g p g' p' →
  reachable s0 (mkState g' (<[i := p']> cs)).
Proof. intros Hr Hi Hop. eapply reach_step; [exact Hr|]. by eapply step_caller. Qed.

(** [run i c]: caller [i] executes the operation that [c] applies. *)
Ltac run i c :=
  match goal with
  | R : reachable _ _ |- _ => eapply (reachable_at _ _ _ i) in R; [|reflexivity|c]
  end.

(** Caller 0 is admitted at 5 while caller 1 is told [Busy]. *)
Definition sample_running : State :=
  mkState (mkGate true 5 true 100 [5]) [HoldsLease; Returned Busy].

Lemma sample_running_reachable : reachable (initial 100 2) sample_running.
Proof.
  pose proof (reach_start (initial 100 2)) as R. unfold initial in R at 2.
  run 0%nat ltac:(apply (op_call _ 5); lia). run 0%nat ltac:(by apply op_swap_won).
  run 1%nat ltac:(apply (op_call _ 7); lia). run 1%nat ltac:(by apply op_swap_busy).
  run 0%nat ltac:(apply op_load_started). run 0%nat ltac:(by apply op_load_last_past).
  run 0%nat ltac:(apply op_store_last). run 0%nat ltac:(apply op_store_started).
  exact R.
Qed.

Lemma single_flight_witness :
  spaced 100 (starts (gate sample_running))
  ∧ ∃ i p g' p', callers sample_running !! i = Some p ∧ owns p = true ∧ op (gate sample_running) p g' p'.
Proof.
  destruct (single_flight 100 2 sample_running sample_running_reachable) as (_ & H1 & H2 & _).
  split; [apply H1; reflexivity | exact (H2 eq_refl)].
Defined.

(** The first run is over; caller 0 asks again too early and, until it gives
    the flag back, caller 1 is told [Busy] although nothing runs. *)
Example busy_without_run :
  ∃ s s', reachable sample_running s ∧ callers s !! 1%nat = Some (AtSwap 1000) ∧ step s s'
  ∧ callers s' !! 1%nat = Some (Returned Busy)
  ∧ HoldsLease ∉ callers s ∧ starts (gate s) = [5] ∧ 5 + min_interval_ms (gate s) ≤ 1000.
Proof.
  pose proof (reach_start sample_running) as R. unfold sample_running in R at 2.
  run 1%nat ltac:(apply op_again). run 0%nat ltac:(apply op_drop_lease).
  run 0%nat ltac:(apply op_again). run 0%nat ltac:(apply (op_call _ 50); lia).
  run 0%nat ltac:(by apply op_swap_won). run 1%nat ltac:(apply (op_call _ 1000); lia).
  eexists _, _. split; [exact R|]. split; [reflexivity|].
  split; [eapply (step_caller _ _ 1%nat); [reflexivity | by apply op_swap_busy]|].
  split; [reflexivity|]. split.
  { cbn. rewrite !not_elem_of_cons. split_and!; (discriminate || apply not_elem_of_nil). }
  split; [reflexivity | vm_compute; discriminate].
Qed.
