(* ===== verification/FeatureGate.v ===== *)
(** * Admission of features at boot ([crates/streaming/src/feature_gate.rs],
    [crates/streaming/src/tools.rs], [src/runtime/forms.rs] and the boot path
    of [src/runtime/full.rs])

    The hardware identity read from [/proc], the named tiers, the greedy plan
    that admits features while they fit the memory budget, the choice of the
    language model file, and the boot sequence that applies them to the
    configuration.  The sizes of the model files are a parameter. *)
From Stdlib Require Import ZArith Lia List Bool String.
From stdpp Require Import base option numbers gmap.
From S2P Require Import Prelude Text.

(** ** Hardware *)
Inductive SimdClass := Baseline | Avx2 | Avx512Vnni.

#[export] Instance SimdClass_eq_dec : EqDecision SimdClass.
Proof. solve_decision. Defined.

Definition simd_rank (s : SimdClass) : Z :=
  match s with Baseline => 0 | Avx2 => 1 | Avx512Vnni => 2 end.

Definition simd_name (s : SimdClass) : bytes :=
  match s with
  | Baseline => lit "baseline" | Avx2 => lit "avx2" | Avx512Vnni => lit "avx512_vnni"
  end.

Definition from_flags (flags : bytes) : SimdClass :=
  let has k := existsb (bytes_eqb k) (split_whitespace flags) in
  if has (lit "avx512_vnni") then Avx512Vnni
  else if has (lit "avx2") then Avx2
  else Baseline.

Record CpuInfo := mkCpuInfo { physical_cores : Z; simd : SimdClass }.

(** The variables of the loop of [parse_cpuinfo]. *)
Record CpuScan := mkScan {
  pairs : gset (bytes * bytes);
  logical : Z;
  saw_physical : bool;
  phys : bytes;
  scan_simd : SimdClass;
  flags_seen : bool;
}.

Definition cpu_line (s : CpuScan) (line : bytes) : CpuScan :=
  match split_once 58 line with
  | None => s
  | Some (k, v) =>
      let k := trim k in
      if bytes_eqb k (lit "processor") then
        mkScan (pairs s) (wrap32 (logical s + 1)) (saw_physical s) (phys s) (scan_simd s) (flags_seen s)
      else if bytes_eqb k (lit "physical id") then
        mkScan (pairs s) (logical s) true (trim v) (scan_simd s) (flags_seen s)
      else if bytes_eqb k (lit "core id") then
        mkScan ({[ (phys s, trim v) ]} ∪ pairs s) (logical s) (saw_physical s) (phys s)
          (scan_simd s) (flags_seen s)
      else if bytes_eqb k (lit "flags") && negb (flags_seen s) then
        mkScan (pairs s) (logical s) (saw_physical s) (phys s) (from_flags (trim v)) true
      else s
  end.

Definition parse_cpuinfo (text : bytes) : CpuInfo :=
  let s := fold_left cpu_line (lines text) (mkScan ∅ 0 false [] Baseline false) in
  if saw_physical s && negb (bool_decide (pairs s = ∅)) then
    mkCpuInfo (wrap32 (Z.of_nat (size (pairs s)))) (scan_simd s)
  else mkCpuInfo (logical s) (scan_simd s).

Definition battery_powered (supply_types : list bytes) : bool :=
  existsb (λ t, eq_ignore_ascii_case t (lit "Battery")) supply_types.

Record HardwareProfile := mkHardware { hw_cores : Z; hw_simd : SimdClass; battery : bool }.

(** [detect]: [cpuinfo] is the content of /proc/cpuinfo if it can be read,
    [supply_types] the readable type files of /sys/class/power_supply. *)
Definition detect (cpuinfo : option bytes) (supply_types : option (list bytes)) : HardwareProfile :=
  let info := parse_cpuinfo (default [] cpuinfo) in
  mkHardware (physical_cores info) (simd info) (default false (battery_powered <$> supply_types)).

(** [parse_memory_mib]: MemTotal and MemAvailable of /proc/meminfo in MiB. *)
Definition memory_value (rest : bytes) : option Z :=
  parse_u64 (trim (trim_end_matches (lit "kB") (trim rest))).

Definition memory_line (acc : option Z * Z) (line : bytes) : option Z * Z :=
  match strip_prefix (lit "MemTotal:") line with
  | Some rest => (memory_value rest, acc.2)
  | None =>
      match strip_prefix (lit "MemAvailable:") line with
      | Some rest => (acc.1, default 0 (memory_value rest))
      | None => acc
      end
  end.

Definition parse_memory_mib (text : bytes) : option (Z * Z) :=
  let '(total, avail) := fold_left memory_line (lines text) (None, 0) in
  total ← total; Some (total / 1024, avail / 1024).

(** ** Tiers *)
Inductive Tier := Minimal | Basic | Standard | Full.

#[export] Instance Tier_eq_dec : EqDecision Tier.
Proof. solve_decision. Defined.

(** The derived order. *)
Definition tier_rank (t : Tier) : Z :=
  match t with Minimal => 0 | Basic => 1 | Standard => 2 | Full => 3 end.

Definition tier_name (t : Tier) : bytes :=
  match t with
  | Minimal => lit "minimal" | Basic => lit "basic"
  | Standard => lit "standard" | Full => lit "full"
  end.

Definition tier_from_name (name : bytes) : option Tier :=
  if bytes_eqb name (lit "minimal") then Some Minimal
  else if bytes_eqb name (lit "basic") then Some Basic
  else if bytes_eqb name (lit "standard") then Some Standard
  else if bytes_eqb name (lit "full") then Some Full
  else None.

Definition is_one_of (name : bytes) (names : list bytes) : bool := existsb (bytes_eqb name) names.

Definition includes (self : Tier) (feature : bytes) : bool :=
  if is_one_of feature [lit "ai"; lit "audio_ai"] then true
  else if is_one_of feature [lit "voice"; lit "llm"; lit "tts"; lit "decision"] then
    tier_rank Basic <=? tier_rank self
  else if is_one_of feature [lit "face"; lit "ocr"] then tier_rank Standard <=? tier_rank self
  else if is_one_of feature [lit "meeting"; lit "vlm"] then tier_rank Full <=? tier_rank self
  else true.

Inductive TierSource := Hardware | Config.

Definition source_name (s : TierSource) : bytes :=
  match s with Hardware => lit "hardware" | Config => lit "config" end.

Record TierContext := mkContext { tier : Tier; tier_source : TierSource; profile : HardwareProfile }.

Definition resolve_tier (profile : HardwareProfile) (total_mib : Z) : Tier :=
  if (4 <=? hw_cores profile) && (simd_rank Avx2 <=? simd_rank (hw_simd profile))
     && (12 * 1024 <=? total_mib) then Full
  else if (4 <=? hw_cores profile) && (8 * 1024 <=? total_mib) then Standard
  else if (2 <=? hw_cores profile) && (3584 <=? total_mib) then Basic
  else Minimal.

(** ** The plan *)
Inductive Reason := REASON_ON | REASON_OFF_CONFIG | REASON_OFF_BUDGET | REASON_DEPENDENCY
  | REASON_OFF_TIER.

#[export] Instance Reason_eq_dec : EqDecision Reason.
Proof. solve_decision. Defined.

Definition disables (reason : Reason) : bool :=
  match reason with REASON_OFF_BUDGET | REASON_OFF_TIER => true | _ => false end.

Record FeatureDecision := mkDecision {
  d_name : bytes; cost_mib : Z; admitted : bool; reason : Reason
}.

Record ResourceProfile := mkProfile {
  mode : bytes; applied_tier : bytes; preset_source : bytes; hardware : HardwareProfile;
  total_mib : Z; available_mib : Z; budget_mib : Z; reserve_mib : Z;
  features : list FeatureDecision;
}.

Record FeatureInput := mkInput {
  f_name : bytes; f_enabled : bool; model_paths : list bytes; overhead_mib : Z;
  depends_on : option bytes;
}.

Section plan.
(** [std::fs::metadata(p).ok().map(|m| m.len())] *)
Context (file_len : bytes → option Z).

Definition div_ceil (a b : Z) : Z := (a + (b - 1)) / b.

Definition file_cost_mib (paths : list bytes) : Z :=
  let bytes := fold_left (λ acc n, wrap64 (acc + n)) (omap file_len paths) 0 in
  let mib := div_ceil bytes (1024 * 1024) in
  div_ceil (wrap64 (mib * 115)) 100.

Definition cost (f : FeatureInput) : Z := wrap64 (file_cost_mib (model_paths f) + overhead_mib f).

(** [decisions.iter().any(|d| d.name == dep && !d.admitted)] *)
Definition unmet (dep : option bytes) (decisions : list FeatureDecision) : bool :=
  match dep with
  | Some dep => existsb (λ d, bytes_eqb (d_name d) dep && negb (admitted d)) decisions
  | None => false
  end.

(** One iteration: the decision, and what is used afterwards. *)
Definition decide_feature (all : bool) (t : Tier) (budget : Z) (decisions : list FeatureDecision)
    (used : Z) (f : FeatureInput) : FeatureDecision * Z :=
  let cost := cost f in
  if negb (f_enabled f) then (mkDecision (f_name f) cost false REASON_OFF_CONFIG, used)
  else if all then (mkDecision (f_name f) cost true REASON_ON, used)
  else if negb (includes t (f_name f)) then (mkDecision (f_name f) cost false REASON_OFF_TIER, used)
  else if unmet (depends_on f) decisions then
    (mkDecision (f_name f) cost false REASON_DEPENDENCY, used)
  else if saturating_add used cost <=? budget then
    (mkDecision (f_name f) cost true REASON_ON, wrap64 (used + cost))
  else (mkDecision (f_name f) cost false REASON_OFF_BUDGET, used).

Fixpoint plan_loop (all : bool) (t : Tier) (budget : Z) (decisions : list FeatureDecision)
    (used : Z) (inputs : list FeatureInput) : list FeatureDecision :=
  match inputs with
  | [] => decisions
  | f :: inputs =>
      let '(d, used) := decide_feature all t budget decisions used f in
      plan_loop all t budget (decisions ++ [d]) used inputs
  end.

Definition plan (inputs : list FeatureInput) (mode : bytes) (t : TierContext)
    (total_mib available_mib reserve_mib : Z) : ResourceProfile :=
  let all := eq_ignore_ascii_case mode (lit "all") in
  let budget := if all then available_mib else saturating_sub available_mib reserve_mib in
  mkProfile (if all then lit "all" else lit "auto")
    (if all then tier_name Full else tier_name (tier t))
    (source_name (tier_source t)) (profile t) total_mib available_mib budget reserve_mib
    (plan_loop all (tier t) budget [] 0 inputs).
End plan.

(** ** The language model file *)
Definition rank (t : bytes) : Z :=
  if bytes_eqb t (lit "full") then 2 else if bytes_eqb t (lit "mid") then 1 else 0.

(** [Iterator::min_by_key]: the first of the minimal elements. *)
Fixpoint min_by_rank (b : bytes) (ts : list bytes) : bytes :=
  match ts with
  | [] => b
  | t :: ts => min_by_rank (if rank t <? rank b then t else b) ts
  end.

Definition resolve_llm_tier (model_path model_path_mid model_path_lite : bytes) (auto_tier : bool)
    (avail_mib physical_cores : Z) (tier_cap : bytes) : bytes * bytes :=
  if negb auto_tier then (model_path, lit "manual")
  else
    let suggested := if 8 * 1024 <=? avail_mib then lit "full"
                     else if 4 * 1024 <=? avail_mib then lit "mid" else lit "lite" in
    let core_cap := if physical_cores <? 2 then lit "lite"
                    else if physical_cores <? 4 then lit "mid" else lit "full" in
    let rank_cap := match tier_from_name tier_cap with
                    | Some Minimal => lit "lite"
                    | Some Basic => lit "mid"
                    | _ => lit "full"
                    end in
    let effective := min_by_rank suggested [core_cap; rank_cap] in
    if bytes_eqb effective (lit "mid") && negb (bool_decide (model_path_mid = [])) then
      (model_path_mid, lit "mid")
    else if bytes_eqb effective (lit "lite") && negb (bool_decide (model_path_lite = [])) then
      (model_path_lite, lit "lite")
    else (model_path, effective).

Record LlmConfig := mkLlm { model_path : bytes; model_path_mid : bytes; model_path_lite : bytes }.

Definition ladder_path (tier : bytes) (config : LlmConfig) : option bytes :=
  if bytes_eqb tier (lit "full") then Some (model_path config)
  else if bytes_eqb tier (lit "mid") then
    Some (if bool_decide (model_path_mid config = []) then model_path config
          else model_path_mid config)
  else if bytes_eqb tier (lit "lite") then
    Some (if bool_decide (model_path_lite config = []) then model_path config
          else model_path_lite config)
  else None.

(** ** The boot sequence *)

(** The sections of the configuration with a master switch. *)
Inductive Feature :=
  Ai | AudioAi | Voice | Llm | Tts | Decision | Face | Ocr | Meeting | Vlm | Conversations | Agent.

#[export] Instance Feature_eq_dec : EqDecision Feature.
Proof. solve_decision. Defined.

(** The model files of the sections other than [llm]. *)
Record ModelPaths := mkPaths {
  ai_model_path : bytes;
  audio_ai_model_path : bytes; audio_ai_vad_model_path : bytes;
  kws_encoder : bytes; kws_decoder : bytes; kws_joiner : bytes; paraformer_model : bytes;
  speaker_verify : bool; speaker_embedding_model : bytes;
  tts_model : bytes; yue_model : bytes; en_model : bytes;
  decision_model_path : bytes; tokenizer_path : bytes;
  detect_model : bytes; recog_model : bytes;
  det_path : bytes; rec_path : bytes;
  segmentation_model : bytes; punctuation_model : bytes;
  vlm_model_path : bytes; mmproj_path : bytes;
}.

Record ResourcesConfig := mkResources {
  auto_tier : bool; feature_gate : bytes; cfg_reserve_mib : Z; cfg_tier : bytes
}.

(** The part of [AppConfig] that the boot sequence reads. *)
Record AppConfig := mkConfig {
  enabled : Feature → bool; llm : LlmConfig; models : ModelPaths; resources : ResourcesConfig
}.

Definition disable (f : Feature) (c : AppConfig) : AppConfig :=
  mkConfig (λ g, if decide (g = f) then false else enabled c g) (llm c) (models c) (resources c).

Definition set_model_path (path : bytes) (c : AppConfig) : AppConfig :=
  mkConfig (enabled c) (mkLlm path (model_path_mid (llm c)) (model_path_lite (llm c)))
    (models c) (resources c).

Record FormProfile := mkForm { vision_ai : bool; audio : bool; voice_out : bool; dialogue : bool }.

Definition EYE := mkForm true true true true.
Definition CAM := mkForm true true false false.
Definition MIC := mkForm false true false false.
Definition TALK := mkForm false true true false.

Definition for_form (form : bytes) : FormProfile :=
  if bytes_eqb form (lit "cam") then CAM
  else if bytes_eqb form (lit "mic") then MIC
  else if bytes_eqb form (lit "talk") then TALK
  else EYE.

Definition form_apply (self : FormProfile) (c : AppConfig) : AppConfig :=
  let c := if negb (audio self) then disable Voice (disable AudioAi c) else c in
  let c := if negb (voice_out self) && enabled c Tts then disable Tts c else c in
  let c := if negb (dialogue self)
           then disable Agent (disable Conversations (disable Meeting (disable Decision
                  (disable Vlm (disable Llm c)))))
           else c in
  if negb (vision_ai self) then disable Ocr (disable Face (disable Ai c)) else c.

Definition LADDER : list bytes := [lit "full"; lit "mid"; lit "lite"].

(** The persisted decision of the elastic controller overrides the model
    path; [setting] is what the database holds for [elastic.llm_tier]. *)
Definition pin_model (setting : option bytes) (c : AppConfig) : AppConfig :=
  match setting with
  | Some t =>
      if is_one_of t LADDER then
        let pinned :=
          if bytes_eqb t (lit "mid") && negb (bool_decide (model_path_mid (llm c) = []))
          then Some (model_path_mid (llm c))
          else if bytes_eqb t (lit "lite") && negb (bool_decide (model_path_lite (llm c) = []))
          then Some (model_path_lite (llm c))
          else None in
        match pinned with
        | Some path => if bytes_eqb path (model_path (llm c)) then c else set_model_path path c
        | None => c
        end
      else c
  | None => c
  end.

Definition boot_tier (hw : HardwareProfile) (total_mib : Z) (c : AppConfig) : Tier * TierSource :=
  match tier_from_name (cfg_tier (resources c)) with
  | Some t => (t, Config)
  | None => (resolve_tier hw total_mib, Hardware)
  end.

Definition feature_inputs (c : AppConfig) : list FeatureInput :=
  let m := models c in
  let tts_paths := filter (λ p, p ≠ []) [tts_model m; yue_model m; en_model m] in
  let voice_paths := [kws_encoder m; kws_decoder m; kws_joiner m; paraformer_model m]
    ++ (if speaker_verify m then [speaker_embedding_model m] else []) in
  [ mkInput (lit "ai") (enabled c Ai) [ai_model_path m] 40 None;
    mkInput (lit "audio_ai") (enabled c AudioAi)
      [audio_ai_model_path m; audio_ai_vad_model_path m] 40 None;
    mkInput (lit "voice") (enabled c Voice) voice_paths 60 None;
    mkInput (lit "llm") (enabled c Llm) [model_path (llm c)] 80 None;
    mkInput (lit "tts") (enabled c Tts) tts_paths 40 None;
    mkInput (lit "decision") (enabled c Decision)
      [decision_model_path m; tokenizer_path m] 40 (Some (lit "voice"));
    mkInput (lit "face") (enabled c Face) [detect_model m; recog_model m] 40 None;
    mkInput (lit "ocr") (enabled c Ocr) [det_path m; rec_path m] 40 None;
    mkInput (lit "meeting") (enabled c Meeting)
      [segmentation_model m; punctuation_model m] 30 (Some (lit "voice"));
    mkInput (lit "vlm") (enabled c Vlm) [vlm_model_path m; mmproj_path m] 80 None ].

(** The match on [d.name] of the loop that applies the plan. *)
Definition gated : list (bytes * Feature) :=
  [(lit "ai", Ai); (lit "audio_ai", AudioAi); (lit "voice", Voice); (lit "llm", Llm);
   (lit "tts", Tts); (lit "decision", Decision); (lit "face", Face); (lit "ocr", Ocr);
   (lit "meeting", Meeting); (lit "vlm", Vlm)].

Definition disable_named (name : bytes) (c : AppConfig) : AppConfig :=
  match List.find (λ p, bytes_eqb name p.1) gated with
  | Some (_, f) => disable f c
  | None => c
  end.

Definition apply_decision (c : AppConfig) (d : FeatureDecision) : AppConfig :=
  if admitted d then c else if negb (disables (reason d)) then c else disable_named (d_name d) c.

Record Boot := mkBoot { config : AppConfig; resource_profile : ResourceProfile; llm_tier : bytes }.

Definition boot (file_len : bytes → option Z) (form : bytes) (setting : option bytes)
    (memory : option (Z * Z)) (hw : HardwareProfile) (c : AppConfig) : Boot :=
  let c := form_apply (for_form form) c in
  let c := pin_model setting c in
  let mem := default (0, 0) memory in
  let '(t, source) := boot_tier hw mem.1 c in
  let '(llm_model, llm_tier) :=
    resolve_llm_tier (model_path (llm c)) (model_path_mid (llm c)) (model_path_lite (llm c))
      (auto_tier (resources c)) mem.2 (hw_cores hw) (cfg_tier (resources c)) in
  let c := if bytes_eqb llm_model (model_path (llm c)) then c else set_model_path llm_model c in
  let resource_profile := plan file_len (feature_inputs c) (feature_gate (resources c))
    (mkContext t source hw) mem.1 mem.2 (cfg_reserve_mib (resources c)) in
  mkBoot (fold_left apply_decision (features resource_profile) c) resource_profile llm_tier.

(** ** What the plan admits *)

(** The cost of the admitted features. *)
Definition spent (ds : list FeatureDecision) : Z :=
  foldr (λ d acc, (if admitted d then cost_mib d else 0) + acc) 0 ds.
#[local] Arguments spent : simpl never.

Lemma spent_app ds es : spent (ds ++ es) = spent ds + spent es.
Proof. unfold spent. induction ds as [|d ds IH]; cbn; [lia|]. rewrite IH. lia. Qed.

Section plan_facts.
Context (file_len : bytes → option Z).

Lemma cost_range f : 0 ≤ cost file_len f < 2 ^ 64.
Proof. unfold cost, wrap64. apply Z.mod_pos_bound. lia. Qed.

(** A decision and the new sum, in terms of the earlier decisions. *)
Lemma decide_feature_used all t budget ds f :
  0 ≤ spent ds → budget < usize_max →
  let '(d, used) := decide_feature file_len all t budget ds (if all then 0 else spent ds) f in
  d = (decide_feature file_len all t budget ds (spent ds) f).1
  ∧ used = (if all then 0 else spent (ds ++ [d]))
  ∧ 0 ≤ spent (ds ++ [d])
  ∧ (all = false → spent ds ≤ budget → spent (ds ++ [d]) ≤ budget).
Proof.
  intros Hu Hb. pose proof (cost_range f) as Hc.
  assert (Hs : ∀ n c a r, spent (ds ++ [mkDecision n c a r]) = spent ds + if a then c else 0).
  { intros. rewrite spent_app. unfold spent at 2. cbn. lia. }
  unfold decide_feature, saturating_add, usize_max in *.
  repeat (match goal with |- context [if ?b then _ else _] =>
            match type of b with bool => destruct b eqn:?; cbn end end);
    rewrite ?Hs; repeat split; try lia; try congruence.
  unfold wrap64. rewrite Z.mod_small; lia.
Qed.

(** The decisions of the plan, each in terms of those before it. *)
Lemma plan_loop_spec all t budget inputs ds :
  0 ≤ spent ds → 0 ≤ budget < usize_max → (all = false → spent ds ≤ budget) →
  ∃ out, plan_loop file_len all t budget ds (if all then 0 else spent ds) inputs = ds ++ out
    ∧ length out = length inputs
    ∧ (all = false → spent (ds ++ out) ≤ budget)
    ∧ ∀ i f d, inputs !! i = Some f → out !! i = Some d →
        d = (decide_feature file_len all t budget (ds ++ take i out)
               (spent (ds ++ take i out)) f).1.
Proof.
  revert ds. induction inputs as [|f inputs IH]; intros ds Hu Hb Hle; cbn.
  { exists []. rewrite app_nil_r. repeat split; auto. intros i f d Hi. done. }
  pose proof (decide_feature_used all t budget ds f Hu ltac:(lia)) as Hd.
  destruct (decide_feature _ _ _ _ _ (if all then 0 else spent ds) f) as [d used].
  destruct Hd as (-> & -> & Hpos & Hle').
  set (d := (decide_feature file_len all t budget ds (spent ds) f).1) in *.
  destruct (IH (ds ++ [d]) Hpos Hb ltac:(auto)) as (out & E & Hlen & Hsum & Hout).
  rewrite <- app_assoc in Hsum. cbn in E, Hsum |- *.
  exists (d :: out). rewrite E, <- app_assoc. cbn. split; [done|]. split; [congruence|]. split; [done|].
  intros [|i] g e Hg He; cbn in *.
  - injection Hg as <-. injection He as <-. rewrite app_nil_r. reflexivity.
  - rewrite (Hout i g e Hg He). rewrite <- app_assoc. done.
Qed.

Lemma plan_budget inputs m t total avail reserve :
  0 ≤ avail < usize_max → 0 ≤ reserve →
  0 ≤ budget_mib (plan file_len inputs m t total avail reserve) < usize_max.
Proof.
  intros Ha Hr. unfold plan. cbn [budget_mib]. unfold saturating_sub.
  destruct (eq_ignore_ascii_case _ _); lia.
Qed.

Lemma plan_spec inputs m t total avail reserve :
  0 ≤ avail < usize_max → 0 ≤ reserve →
  let p := plan file_len inputs m t total avail reserve in
  let all := eq_ignore_ascii_case m (lit "all") in
  length (features p) = length inputs
  ∧ (all = false → spent (features p) ≤ budget_mib p)
  ∧ ∀ i f d, inputs !! i = Some f → features p !! i = Some d →
      d = (decide_feature file_len all (tier t) (budget_mib p) (take i (features p))
             (spent (take i (features p))) f).1.
Proof.
  intros Ha Hr p all. unfold p, plan; cbn [features budget_mib]. fold all.
  set (budget := if all then avail else saturating_sub avail reserve).
  assert (Hb : 0 ≤ budget < usize_max).
  { unfold budget, saturating_sub, usize_max in *. destruct all; lia. }
  destruct (plan_loop_spec all (tier t) budget inputs [] ltac:(done) Hb ltac:(unfold spent; cbn; lia))
    as (out & E & Hlen & Hsum & Hout).
  replace (if all then 0 else spent []) with 0 in E by (destruct all; done).
  rewrite E. cbn in *. auto.
Qed.
End plan_facts.

(** What [plan] admits.  In auto mode the admitted features fit the budget
    together, and each feature is judged by those before it in the list: it
    is admitted exactly if it is enabled, wanted by the tier, no earlier
    entry with the name of its dependency was refused, and its cost fits what
    the earlier admitted ones leave; a refusal carries the first of these
    reasons that applies.  In all mode every enabled feature is admitted,
    whatever its cost and its dependency. *)
Theorem plan_admission file_len inputs m t total avail reserve :
  0 ≤ avail < usize_max → 0 ≤ reserve →
  let p := plan file_len inputs m t total avail reserve in
  let all := eq_ignore_ascii_case m (lit "all") in
  length (features p) = length inputs
  ∧ budget_mib p = (if all then avail else Z.max (avail - reserve) 0)
  ∧ (all = false → spent (features p) ≤ budget_mib p)
  ∧ ∀ i f d, inputs !! i = Some f → features p !! i = Some d →
      let earlier := take i (features p) in
      d_name d = f_name f ∧ cost_mib d = cost file_len f
      ∧ (admitted d = true ↔ reason d = REASON_ON)
      ∧ (reason d = REASON_OFF_CONFIG ↔ f_enabled f = false)
      ∧ (all = true → admitted d = f_enabled f)
      ∧ (all = false → f_enabled f = true →
           (reason d = REASON_OFF_TIER ↔ includes (tier t) (f_name f) = false)
           ∧ (reason d = REASON_DEPENDENCY ↔
                includes (tier t) (f_name f) = true ∧ unmet (depends_on f) earlier = true)
           ∧ (admitted d = true ↔
                includes (tier t) (f_name f) = true ∧ unmet (depends_on f) earlier = false
                ∧ spent earlier + cost file_len f ≤ budget_mib p)).
Proof.
  intros Ha Hr p all. destruct (plan_spec file_len inputs m t total avail reserve Ha Hr)
    as (Hlen & Hsum & Hout). fold p all in Hlen, Hsum, Hout.
  split; [done|]. split; [done|]. split; [done|].
  intros i f d Hf Hd earlier. rewrite (Hout i f d Hf Hd). fold earlier.
  pose proof (plan_budget file_len inputs m t total avail reserve Ha Hr) as Hb. fold p in Hb.
  clear Hout Hsum Hlen. clearbody earlier. clearbody p all. unfold decide_feature, saturating_add.
  repeat (match goal with |- context [if ?b then _ else _] =>
            match type of b with bool => destruct b eqn:?; cbn end end);
    rewrite ?negb_true_iff, ?negb_false_iff, ?Z.leb_le, ?Z.leb_gt in *;
    repeat split; intros; try congruence; try lia; intuition (try congruence; try lia).
Qed.

(** ** The boot sequence *)

(** The loop that applies the plan turns off exactly the features it sheds. *)
Definition sheds (f : Feature) (d : FeatureDecision) : bool :=
  negb (admitted d) && disables (reason d)
  && match List.find (λ p, bytes_eqb (d_name d) p.1) gated with
     | Some (_, g) => bool_decide (g = f)
     | None => false
     end.

Lemma apply_decision_spec c d :
  llm (apply_decision c d) = llm c ∧ models (apply_decision c d) = models c
  ∧ ∀ f, enabled (apply_decision c d) f = enabled c f && negb (sheds f d).
Proof.
  unfold apply_decision, sheds, disable_named.
  generalize (List.find (λ p : bytes * Feature, bytes_eqb (d_name d) p.1) gated). intros o.
  destruct (admitted d), (disables (reason d)); cbn;
    try (repeat split; intros; rewrite ?andb_true_r; done).
  destruct o as [[n g]|]; cbn; repeat split; intros; rewrite ?andb_true_r; try done.
  case_bool_decide; destruct (decide (f = g)); subst; cbn; rewrite ?andb_true_r, ?andb_false_r; done.
Qed.

Lemma apply_plan_spec ds c :
  llm (fold_left apply_decision ds c) = llm c ∧ models (fold_left apply_decision ds c) = models c
  ∧ ∀ f, enabled (fold_left apply_decision ds c) f = enabled c f && negb (existsb (sheds f) ds).
Proof.
  revert c. induction ds as [|d ds IH]; intros c; cbn.
  { repeat split; intros. rewrite andb_true_r. done. }
  destruct (IH (apply_decision c d)) as (-> & -> & Hf).
  destruct (apply_decision_spec c d) as (-> & -> & Hd).
  repeat split. intros f. rewrite Hf, Hd, negb_orb, andb_assoc. done.
Qed.

(** With one decision for each gated feature, a feature is shed by its own. *)
Lemma existsb_sheds ds i n f d :
  map d_name ds = map fst gated → gated !! i = Some (n, f) → ds !! i = Some d →
  existsb (sheds f) ds = negb (admitted d) && disables (reason d).
Proof.
  intros Hn Hi Hd. cbn in Hn.
  do 10 (destruct ds as [|[? ? ? ?] ds]; [discriminate Hn|cbn in Hn; injection Hn as -> Hn]).
  destruct ds; [|discriminate Hn].
  unfold sheds; cbn [existsb d_name admitted reason].
  do 10 (destruct i as [|i];
    [injection Hi as <- <-; injection Hd as <-; cbn; rewrite ?andb_false_r, ?orb_false_r, ?andb_true_r;
     done|]).
  destruct i; discriminate Hi.
Qed.

(** The families of a form. *)
Definition family (form : bytes) (f : Feature) : bool :=
  let p := for_form form in
  match f with
  | Ai | Face | Ocr => vision_ai p
  | AudioAi | Voice => audio p
  | Tts => voice_out p
  | Llm | Vlm | Decision | Meeting | Conversations | Agent => dialogue p
  end.

Lemma form_apply_spec form c :
  let c' := form_apply (for_form form) c in
  llm c' = llm c ∧ models c' = models c ∧ resources c' = resources c
  ∧ ∀ f, enabled c' f = enabled c f && family form f.
Proof.
  unfold family, form_apply. destruct (for_form form) as [[] [] [] []]; cbn;
    destruct (enabled c Tts) eqn:E; cbn; repeat split;
    intros []; cbn; rewrite ?E, ?andb_true_r, ?andb_false_r; done.
Qed.

(** The configuration that the plan is made for. *)
Lemma boot_planned file_len form setting memory hw c :
  let mem := default (0, 0) memory in
  ∃ c1 source,
    (∀ f, enabled c1 f = enabled c f && family form f)
    ∧ resource_profile (boot file_len form setting memory hw c)
      = plan file_len (feature_inputs c1) (feature_gate (resources c))
          (mkContext (boot_tier hw mem.1 c).1 source hw) mem.1 mem.2 (cfg_reserve_mib (resources c))
    ∧ config (boot file_len form setting memory hw c)
      = fold_left apply_decision
          (features (resource_profile (boot file_len form setting memory hw c))) c1.
Proof.
  intros mem. destruct (form_apply_spec form c) as (_ & _ & Hr & He).
  assert (Hpin : ∀ c, (∀ f, enabled (pin_model setting c) f = enabled c f)
    ∧ resources (pin_model setting c) = resources c).
  { intros c0. unfold pin_model. destruct setting; [|done].
    repeat (match goal with |- context [if ?b then _ else _] => destruct b end; cbn); done. }
  destruct (Hpin (form_apply (for_form form) c)) as (Hpe & Hpr).
  unfold boot, boot_tier. rewrite Hpr, Hr. fold mem.
  set (c0 := pin_model _ _) in *. set (o := tier_from_name _).
  destruct (resolve_llm_tier _ _ _ _ _ _ _) as [path name].
  exists (if bytes_eqb path (model_path (llm c0)) then c0 else set_model_path path c0),
    (match o with Some _ => Config | None => Hardware end).
  split.
  { intros f. rewrite <- He, <- Hpe. destruct (bytes_eqb _ _); done. }
  destruct o, (bytes_eqb path (model_path (llm c0))); cbn; rewrite ?Hpr, ?Hr; done.
Qed.

Lemma feature_inputs_lookup c i n f :
  gated !! i = Some (n, f) →
  ∃ x, feature_inputs c !! i = Some x ∧ f_name x = n ∧ f_enabled x = enabled c f
    ∧ depends_on x = (if bool_decide (f = Decision ∨ f = Meeting) then Some (lit "voice") else None)
    ∧ ∀ c', llm c' = llm c → models c' = models c →
        feature_inputs c' !! i
        = Some (mkInput n (enabled c' f) (model_paths x) (overhead_mib x) (depends_on x)).
Proof.
  intros Hi.
  do 10 (destruct i as [|i];
    [injection Hi as <- <-; eexists; repeat split; intros c' E1 E2; cbn; rewrite ?E1, ?E2; done|]).
  destruct i; discriminate Hi.
Qed.

(** The cost of the enabled inputs of a selection. *)
Definition load (file_len : bytes → option Z) (sel : FeatureInput → bool) (xs : list FeatureInput) : Z :=
  foldr (λ x acc, (if sel x && f_enabled x then cost file_len x else 0) + acc) 0 xs.

Lemma load_spent file_len sel xs ds :
  length xs = length ds →
  (∀ i x d, xs !! i = Some x → ds !! i = Some d → sel x = true → f_enabled x = true →
     admitted d = true ∧ cost_mib d = cost file_len x) →
  (∀ i d, ds !! i = Some d → 0 ≤ cost_mib d) →
  load file_len sel xs ≤ spent ds.
Proof.
  revert ds. induction xs as [|x xs IH]; intros [|d ds] Hlen Hx Hc; try discriminate Hlen; [done|].
  pose proof (Hc 0%nat d eq_refl) as Hpos. pose proof (Hx 0%nat x d eq_refl eq_refl) as Hq.
  specialize (IH ds ltac:(cbn in Hlen; lia) (λ i, Hx (S i)) (λ i, Hc (S i))). clear Hx Hc Hlen.
  unfold load, spent in *. cbn.
  destruct (sel x), (f_enabled x); cbn; [|destruct (admitted d); lia..].
  destruct Hq as [-> ->]; [done|done|lia].
Qed.

(** The switch of a feature after its decision was applied: without an unmet
    dependency it says whether the feature was admitted, with one it ignores
    the refusal. *)
Lemma decide_switch file_len t budget ds used f :
  let d := (decide_feature file_len false t budget ds used f).1 in
  let switch := f_enabled f && negb (negb (admitted d) && disables (reason d)) in
  cost_mib d = cost file_len f
  ∧ (unmet (depends_on f) ds = false → admitted d = switch)
  ∧ (unmet (depends_on f) ds = true →
     admitted d = false ∧ switch = f_enabled f && includes t (f_name f))
  ∧ (switch = true → includes t (f_name f) = true).
Proof.
  unfold decide_feature.
  repeat (match goal with |- context [if ?b then _ else _] =>
            match type of b with bool => destruct b eqn:?; cbn end end);
    rewrite ?negb_true_iff, ?negb_false_iff in *;
    repeat match goal with H : _ = _ :> bool |- _ => rewrite H; clear H end;
    repeat split; intros; cbn in *; congruence.
Qed.

Lemma decide_name file_len all t budget ds used f :
  d_name (decide_feature file_len all t budget ds used f).1 = f_name f.
Proof.
  unfold decide_feature.
  repeat (match goal with |- context [if ?b then _ else _] => destruct b end; [done|]). done.
Qed.

(** The decision of each gated feature and its switch after the boot. *)
Lemma boot_decisions file_len form setting memory hw c :
  let b := boot file_len form setting memory hw c in
  let mem := default (0, 0) memory in
  let p := resource_profile b in
  0 ≤ mem.2 < usize_max → 0 ≤ cfg_reserve_mib (resources c) →
  length (features p) = length gated
  ∧ budget_mib p = (if eq_ignore_ascii_case (feature_gate (resources c)) (lit "all") then mem.2
                    else Z.max (mem.2 - cfg_reserve_mib (resources c)) 0)
  ∧ (eq_ignore_ascii_case (feature_gate (resources c)) (lit "all") = false →
     spent (features p) ≤ budget_mib p)
  ∧ (∀ f, enabled (config b) f = true → enabled c f && family form f = true)
  ∧ ∀ i n f, gated !! i = Some (n, f) → ∃ x d,
      features p !! i = Some d
      ∧ feature_inputs (config b) !! i
        = Some (mkInput n (enabled (config b) f) (model_paths x) (overhead_mib x) (depends_on x))
      ∧ f_name x = n ∧ f_enabled x = enabled c f && family form f
      ∧ depends_on x = (if bool_decide (f = Decision ∨ f = Meeting) then Some (lit "voice") else None)
      ∧ d = (decide_feature file_len
               (eq_ignore_ascii_case (feature_gate (resources c)) (lit "all"))
               (boot_tier hw mem.1 c).1 (budget_mib p) (take i (features p))
               (spent (take i (features p))) x).1
      ∧ enabled (config b) f = f_enabled x && negb (negb (admitted d) && disables (reason d)).
Proof.
  intros b mem p Hm Hr.
  destruct (boot_planned file_len form setting memory hw c) as (c1 & src & He & Hp & Hc).
  fold b in Hp, Hc. fold p in Hp, Hc. fold mem in Hp.
  destruct (plan_spec file_len (feature_inputs c1) (feature_gate (resources c))
    (mkContext (boot_tier hw mem.1 c).1 src hw) mem.1 mem.2 _ Hm Hr) as (Hlen & Hsum & Hout).
  rewrite <- Hp in Hlen, Hsum, Hout. cbn [tier] in Hout.
  destruct (apply_plan_spec (features p) c1) as (Hl & Hmo & Hen). rewrite <- Hc in Hl, Hmo, Hen.
  assert (Hat : ∀ i n f, gated !! i = Some (n, f) → ∃ x d, feature_inputs c1 !! i = Some x
    ∧ features p !! i = Some d ∧ d_name d = n).
  { intros i n f Hi. destruct (feature_inputs_lookup c1 i n f Hi) as (x & Hx & Hn & _).
    destruct (lookup_lt_is_Some_2 (features p) i) as [d Hd].
    { rewrite Hlen. exact (lookup_lt_Some _ _ _ Hx). }
    exists x, d. split; [done|]. split; [done|]. rewrite (Hout i x d Hx Hd), <- Hn.
    apply decide_name. }
  assert (Hnames : map d_name (features p) = map fst gated).
  { apply list_eq_same_length with (length gated);
      rewrite ?length_map; [done|done|].
    intros i u v Hi Hu Hv. apply list_lookup_fmap_Some in Hu as (d & -> & Hd).
    apply list_lookup_fmap_Some in Hv as ([n f] & -> & Hg).
    destruct (Hat i n f Hg) as (x & d' & Hx & Hd' & Hn). change (fst (n, f)) with n. congruence. }
  split; [done|]. split. { rewrite Hp. done. }
  split; [done|]. split. { intros f. rewrite Hen, <- He. intros [? _]%andb_true_iff. done. }
  intros i n f Hi. destruct (Hat i n f Hi) as (x & d & Hx & Hd & Hn).
  destruct (feature_inputs_lookup c1 i n f Hi) as (x' & Hx' & Hxn & Hxe & Hxd & Hsame).
  rewrite Hx in Hx'. injection Hx' as <-. exists x, d.
  rewrite (Hsame _ Hl Hmo), <- He, <- Hxe. repeat split; auto.
  rewrite Hen, (existsb_sheds _ i n f d Hnames Hi Hd), Hxe. done.
Qed.

(** Walk through the gated features. *)
Tactic Notation "by_gated" ident(i) ident(H) tactic3(t) :=
  do 10 (destruct i as [|i]; [cbn in H; solve [discriminate H | injection H; intros; t]|]);
  destruct i; discriminate H.

Lemma gated_voice i f : gated !! i = Some (lit "voice", f) → i = 2%nat.
Proof. intros H. by_gated i H done. Qed.

Lemma gated_dependent i n f :
  gated !! i = Some (n, f) → f = Decision ∨ f = Meeting → (2 < i)%nat.
Proof. intros H Hf. by_gated i H (destruct Hf; subst; solve [discriminate | lia]). Qed.

(** Whether the dependency on voice is unmet, given the decisions by index. *)
Lemma unmet_voice ds i dv :
  (∀ j d, ds !! j = Some d → d_name d = lit "voice" → j = 2%nat) →
  ds !! 2%nat = Some dv → d_name dv = lit "voice" → (2 < i)%nat →
  unmet (Some (lit "voice")) (take i ds) = negb (admitted dv).
Proof.
  intros Hj Hv Hn Hi. cbn [unmet]. apply eq_true_iff_eq. rewrite existsb_exists. split.
  - intros (d & Hd & [He Ha]%andb_true_iff). apply bytes_eqb_eq in He.
    apply list_elem_of_In, list_elem_of_lookup in Hd as (j & Hd).
    apply lookup_take_Some in Hd as [Hd _]. rewrite (Hj j d Hd He) in Hd. congruence.
  - intros Ha. exists dv. rewrite Hn, bytes_eqb_refl, Ha. split; [|done].
    apply list_elem_of_In, list_elem_of_lookup. exists 2%nat. apply lookup_take_Some. done.
Qed.

Section auto_mode.
Context (file_len : bytes → option Z) (form : bytes) (setting : option bytes)
  (memory : option (Z * Z)) (hw : HardwareProfile) (c : AppConfig).
Let b := boot file_len form setting memory hw c.
Let mem := default (0, 0) memory.
Let t := (boot_tier hw mem.1 c).1.
Let ds := features (resource_profile b).
Let budget := Z.max (mem.2 - cfg_reserve_mib (resources c)) 0.
Hypothesis Hm : 0 ≤ mem.2 < usize_max.
Hypothesis Hr : 0 ≤ cfg_reserve_mib (resources c).
Hypothesis Hauto : eq_ignore_ascii_case (feature_gate (resources c)) (lit "all") = false.

(** The facts of [boot_decisions] and [decide_switch] together. *)
Lemma auto_decisions :
  length ds = length gated ∧ spent ds ≤ budget
  ∧ ∀ i n f, gated !! i = Some (n, f) → ∃ x d,
      ds !! i = Some d ∧ d_name d = n ∧ cost_mib d = cost file_len x
      ∧ feature_inputs (config b) !! i
        = Some (mkInput n (enabled (config b) f) (model_paths x) (overhead_mib x) (depends_on x))
      ∧ depends_on x = (if bool_decide (f = Decision ∨ f = Meeting) then Some (lit "voice") else None)
      ∧ (unmet (depends_on x) (take i ds) = false → admitted d = enabled (config b) f)
      ∧ (unmet (depends_on x) (take i ds) = true →
         enabled (config b) f = enabled c f && family form f && includes t n)
      ∧ (enabled (config b) f = true → includes t n = true).
Proof.
  destruct (boot_decisions file_len form setting memory hw c Hm Hr)
    as (Hlen & Hb & Hsum & _ & Hat). rewrite Hauto in Hb, Hsum, Hat.
  fold b mem ds t in Hlen, Hb, Hsum, Hat. fold budget in Hb. rewrite Hb in Hsum.
  split; [exact Hlen|]. split; [exact (Hsum eq_refl)|]. intros i n f Hi.
  destruct (Hat i n f Hi) as (x & d & Hd & Hin & Hx & Hxe & Hdep & Hdec & Hen).
  destruct (decide_switch file_len t (budget_mib (resource_profile b)) (take i ds)
    (spent (take i ds)) x) as (Hcost & Hadm & Hdrop & Hinc).
  rewrite <- Hdec, <- Hen, Hx in *. rewrite Hxe in Hdrop.
  exists x, d. repeat split; auto.
  - rewrite Hdec, decide_name. exact Hx.
  - intros Hu. apply Hdrop, Hu.
Qed.

Lemma auto_unmet i n f :
  gated !! i = Some (n, f) → f = Decision ∨ f = Meeting →
  unmet (Some (lit "voice")) (take i ds) = negb (enabled (config b) Voice).
Proof.
  intros Hi Hf. destruct auto_decisions as (Hlen & _ & Hat).
  destruct (Hat 2%nat _ _ eq_refl) as (x & dv & Hdv & Hn & _ & _ & Hdep & Hadm & _).
  rewrite Hdep in Hadm. rewrite <- (Hadm eq_refl).
  apply unmet_voice; [|done|done|exact (gated_dependent i n f Hi Hf)].
  intros j d Hd Hj. destruct (lookup_lt_is_Some_2 gated j) as [[m g] Hg].
  { rewrite <- Hlen. exact (lookup_lt_Some _ _ _ Hd). }
  destruct (Hat j m g Hg) as (y & d' & Hd' & Hm' & _). apply (gated_voice j g). congruence.
Qed.

Lemma auto_load sel :
  (∀ i n f x, gated !! i = Some (n, f) →
     depends_on x = (if bool_decide (f = Decision ∨ f = Meeting) then Some (lit "voice") else None) →
     unmet (depends_on x) (take i ds) = true → sel x = false) →
  load file_len sel (feature_inputs (config b)) ≤ budget.
Proof.
  destruct auto_decisions as (Hlen & Hsum & Hat). intros Hsel.
  assert (Hg : ∀ i d, ds !! i = Some d → is_Some (gated !! i)).
  { intros i d Hd. apply lookup_lt_is_Some_2. rewrite <- Hlen. exact (lookup_lt_Some _ _ _ Hd). }
  trans (spent ds); [|exact Hsum]. apply load_spent; [rewrite Hlen; done| |].
  - intros i x' d Hx' Hd Hs He. destruct (Hg i d Hd) as [[n f] Hi].
    destruct (Hat i n f Hi) as (x & d' & Hd' & _ & Hc & Hin & Hdep & Hadm & _).
    rewrite Hin in Hx'. injection Hx' as <-. replace d with d' by congruence. cbn in He.
    rewrite Hadm; [done|]. destruct (unmet _ _) eqn:Hu; [|done].
    rewrite (Hsel i n f (mkInput n _ _ _ (depends_on x)) Hi Hdep Hu) in Hs. done.
  - intros i d Hd. destruct (Hg i d Hd) as [[n f] Hi].
    destruct (Hat i n f Hi) as (x & d' & Hd' & _ & Hc & _).
    pose proof (cost_range file_len x). replace d with d' by congruence. lia.
Qed.
End auto_mode.

(** C25 What the boot sequence leaves enabled.  No feature is enabled that the
    configuration or the form excludes.  With the gate in auto mode every
    enabled feature belongs to the tier, the independent ones fit the budget
    together, and so do all of them when voice runs.  But a feature refused
    for its dependency is not turned off: while voice does not run, the
    decision and meeting engines stay enabled and load their models, whatever
    these cost.  In all mode nothing is turned off. *)
Theorem boot_gate_budget file_len form setting memory hw c :
  let b := boot file_len form setting memory hw c in
  let mem := default (0, 0) memory in
  let t := (boot_tier hw mem.1 c).1 in
  let load sel := load file_len sel (feature_inputs (config b)) in
  let budget := Z.max (mem.2 - cfg_reserve_mib (resources c)) 0 in
  let all := eq_ignore_ascii_case (feature_gate (resources c)) (lit "all") in
  0 ≤ mem.2 < usize_max → 0 ≤ cfg_reserve_mib (resources c) →
  (∀ f, enabled (config b) f = true → enabled c f && family form f = true)
  ∧ (all = true → ∀ n f, (n, f) ∈ gated → enabled (config b) f = enabled c f && family form f)
  ∧ (all = false →
     (∀ n f, (n, f) ∈ gated → enabled (config b) f = true → includes t n = true)
     ∧ load (λ x, bool_decide (depends_on x = None)) ≤ budget
     ∧ (enabled (config b) Voice = true → load (λ _, true) ≤ budget)
     ∧ (enabled (config b) Voice = false →
        ∀ n f, (n, f) ∈ gated → f = Decision ∨ f = Meeting →
        enabled (config b) f = enabled c f && family form f && includes t n)).
Proof.
  intros b mem t ld budget all Hm Hr.
  destruct (boot_decisions file_len form setting memory hw c Hm Hr) as (_ & _ & _ & Hsub & Hat).
  fold b mem all t in Hsub, Hat. split; [exact Hsub|]. split.
  { intros Ha n f (i & Hi)%list_elem_of_lookup.
    destruct (Hat i n f Hi) as (x & d & _ & _ & _ & Hx & _ & Hd & ->). rewrite Hx, Hd, Ha.
    unfold decide_feature. destruct (f_enabled x) eqn:E; cbn; rewrite <- Hx; done. }
  clear Hsub Hat. intros Ha.
  destruct (auto_decisions file_len form setting memory hw c Hm Hr Ha) as (_ & _ & Hat).
  pose proof (auto_load file_len form setting memory hw c Hm Hr Ha) as Hload.
  pose proof (auto_unmet file_len form setting memory hw c Hm Hr Ha) as Hunmet.
  fold b mem t in Hat, Hload, Hunmet. fold budget in Hload. split; [|split; [|split]].
  - intros n f (i & Hi)%list_elem_of_lookup. destruct (Hat i n f Hi) as (x & d & H). apply H.
  - apply Hload. intros i n f x _ -> Hu.
    destruct (bool_decide (f = Decision ∨ f = Meeting)); [done|discriminate Hu].
  - intros Hv. apply Hload. intros i n f x Hg ->.
    destruct (bool_decide (f = Decision ∨ f = Meeting)) eqn:Hf; [|done].
    apply bool_decide_eq_true in Hf. rewrite (Hunmet i n f Hg Hf), Hv. done.
  - intros Hv n f (i & Hi)%list_elem_of_lookup Hf.
    destruct (Hat i n f Hi) as (x & d & _ & _ & _ & _ & Hdep & _ & Hu & _). apply Hu.
    rewrite Hdep, bool_decide_true by done. rewrite (Hunmet i n f Hi Hf), Hv. done.
Qed.

(** ** A small host without voice *)
Definition sample_file_len (p : bytes) : option Z :=
  if bytes_eqb p (lit "decision.onnx") then Some (2 ^ 31) else None.

Definition sample_config : AppConfig :=
  mkConfig (λ f, bool_decide (f = Llm ∨ f = Decision)) (mkLlm (lit "4b.gguf") [] (lit "lite.gguf"))
    (mkPaths [] [] [] [] [] [] [] false [] [] [] [] (lit "decision.onnx") [] [] [] [] [] [] [] [] [])
    (mkResources true (lit "auto") 512 (lit "full")).

Definition sample_hardware : HardwareProfile := mkHardware 4 Avx2 false.

Definition sample_boot : Boot :=
  boot sample_file_len (lit "eye") None (Some (16384, 1024)) sample_hardware sample_config.

Example dependency_not_disabled :
  budget_mib (resource_profile sample_boot) = 512
  ∧ spent (features (resource_profile sample_boot)) = 80
  ∧ load sample_file_len (λ _, true) (feature_inputs (config sample_boot)) = 80 + 40 + 2356.
Proof. vm_compute. auto. Qed.

Lemma plan_admission_witness :
  let inputs := [mkInput (lit "voice") true [] 60 None; mkInput (lit "llm") true [] 80 None;
                 mkInput (lit "decision") true [] 20 (Some (lit "voice"));
                 mkInput (lit "tts") true [] 40 None] in
  let p := plan (λ _, None) inputs (lit "auto") (mkContext Full Config sample_hardware) 4096 600 500 in
  (0 ≤ 600 < usize_max) ∧ map admitted (features p) = [true; false; true; false]
  ∧ map reason (features p) = [REASON_ON; REASON_OFF_BUDGET; REASON_ON; REASON_OFF_BUDGET]
  ∧ spent (features p) ≤ budget_mib p.
Proof.
  intros inputs p.
  destruct (plan_admission (λ _, None) inputs (lit "auto") (mkContext Full Config sample_hardware)
    4096 600 500) as (_ & _ & Hs & _); [vm_compute; auto; done|done|].
  split; [vm_compute; auto; done|]. split; [reflexivity|]. split; [reflexivity|].
  apply Hs. reflexivity.
Defined.

Lemma boot_gate_budget_witness :
  enabled (config sample_boot) Voice = false
  ∧ enabled (config sample_boot) Decision = true
  ∧ load sample_file_len (λ x, bool_decide (depends_on x = None)) (feature_inputs (config sample_boot))
    ≤ 512.
Proof.
  destruct (boot_gate_budget sample_file_len (lit "eye") None (Some (16384, 1024)) sample_hardware
    sample_config) as (_ & _ & H); [vm_compute; auto; done|done|].
  destruct (H eq_refl) as (_ & Hl & _ & Hv). fold sample_boot in Hl, Hv.
  split; [reflexivity|]. split; [|exact Hl].
  rewrite (Hv eq_refl (lit "decision") Decision); [reflexivity| |left; reflexivity].
  apply list_elem_of_lookup. exists 5%nat. reflexivity.
Defined.
