(* ===== verification/Elastic.v ===== *)
(** * The elasticity controller ([src/runtime/elastic.rs])

    The decision core [decide] with its hysteresis and cooldown, the wired
    controller that persists the decisions and swaps the language model, and
    its composition with the boot sequence of [FeatureGate]. *)
From Stdlib Require Import ZArith Lia List Bool String Sorted.
From stdpp Require Import base option numbers gmap.
From S2P Require Import Prelude Text FeatureGate.

Record ElasticConfig := mkElastic {
  cfg_enabled : bool; cfg_enter_low_mib : Z; cfg_exit_low_mib : Z; cfg_critical_mib : Z;
  cfg_cooldown_secs : Z; cfg_sustain_samples : Z;
}.

Record ElasticPolicy := mkPolicy {
  enter_low_mib : Z; exit_low_mib : Z; critical_mib : Z; cooldown_secs : Z; sustain_samples : Z;
}.

Definition default_config : ElasticConfig := mkElastic true 1024 2560 320 180 3.

Definition policy_from (cfg : ElasticConfig) : ElasticPolicy :=
  mkPolicy (cfg_enter_low_mib cfg) (cfg_exit_low_mib cfg) (cfg_critical_mib cfg)
    (cfg_cooldown_secs cfg) (Z.max (cfg_sustain_samples cfg) 1).

Record ElasticSignals := mkSignals { mem_available_mib : Z; on_battery : bool }.

Inductive ElasticAction :=
  | TierDown (from to : bytes)
  | TierUp (from to : bytes)
  | BatteryPin (from to : bytes)
  | RecommendMinimalForm
  | Noop.

Definition wire_name (a : ElasticAction) : bytes :=
  match a with
  | TierDown _ _ => lit "tier_down"
  | TierUp _ _ => lit "tier_up"
  | BatteryPin _ _ => lit "battery_pin"
  | RecommendMinimalForm => lit "recommend_minimal_form"
  | Noop => lit "noop"
  end.

Record ElasticState := mkState {
  cur_tier : bytes;
  low_streak : Z;
  high_streak : Z;
  critical_streak : Z;
  battery_latched : bool;
  last_action_at_ms : Z;
}.

Definition state_new (initial_tier : bytes) : ElasticState := mkState initial_tier 0 0 0 false 0.

Definition step_down (tier : bytes) : option bytes :=
  if bytes_eqb tier (lit "full") then Some (lit "mid")
  else if bytes_eqb tier (lit "mid") then Some (lit "lite")
  else None.

Definition step_up (tier : bytes) : option bytes :=
  if bytes_eqb tier (lit "lite") then Some (lit "mid")
  else if bytes_eqb tier (lit "mid") then Some (lit "full")
  else None.

(** The part of [decide] for a host that is not on battery; [st] is the state
    with the latch cleared. *)
Definition decide_memory (mem : Z) (st : ElasticState) (policy : ElasticPolicy) (now_ms : Z)
    : ElasticState * ElasticAction :=
  if mem <? critical_mib policy then
    let critical := wrap32 (critical_streak st + 1) in
    (mkState (cur_tier st) 0 0 critical (battery_latched st) (last_action_at_ms st),
     if sustain_samples policy <=? critical then RecommendMinimalForm else Noop)
  else
    let cooldown_open := (last_action_at_ms st =? 0)
      || (wrap64 (cooldown_secs policy * 1000) <=? saturating_sub now_ms (last_action_at_ms st)) in
    if mem <? enter_low_mib policy then
      let low := wrap32 (low_streak st + 1) in
      match (if (sustain_samples policy <=? low) && cooldown_open then step_down (cur_tier st)
             else None) with
      | Some to => (mkState to 0 0 0 (battery_latched st) now_ms, TierDown (cur_tier st) to)
      | None => (mkState (cur_tier st) low 0 0 (battery_latched st) (last_action_at_ms st), Noop)
      end
    else if exit_low_mib policy <? mem then
      let high := wrap32 (high_streak st + 1) in
      match (if (sustain_samples policy <=? high) && cooldown_open then step_up (cur_tier st)
             else None) with
      | Some to => (mkState to 0 0 0 (battery_latched st) now_ms, TierUp (cur_tier st) to)
      | None => (mkState (cur_tier st) 0 high 0 (battery_latched st) (last_action_at_ms st), Noop)
      end
    else (mkState (cur_tier st) 0 0 0 (battery_latched st) (last_action_at_ms st), Noop).

Definition decide (signals : ElasticSignals) (st : ElasticState) (policy : ElasticPolicy)
    (now_ms : Z) : ElasticState * ElasticAction :=
  if on_battery signals && negb (battery_latched st) then
    if negb (bytes_eqb (cur_tier st) (lit "lite")) then
      (mkState (lit "lite") 0 0 (critical_streak st) true now_ms,
       BatteryPin (cur_tier st) (lit "lite"))
    else (mkState (cur_tier st) 0 0 (critical_streak st) true (last_action_at_ms st), Noop)
  else if negb (on_battery signals) then
    decide_memory (mem_available_mib signals)
      (mkState (cur_tier st) (low_streak st) (high_streak st) (critical_streak st) false
         (last_action_at_ms st)) policy now_ms
  else (st, Noop).

Definition signals_from (meminfo : Z * Z) (battery : bool) : ElasticSignals :=
  mkSignals meminfo.2 battery.

Definition sample (memory_mib : option (Z * Z)) (battery : bool) : option ElasticSignals :=
  memory ← memory_mib; Some (signals_from memory battery).

(** ** The wired controller *)

Record ScaleEvent := mkScale { ev_action : bytes; ev_from : bytes; ev_to : bytes; ev_time : Z }.

(** What the controller acts on: its state, the setting in the database, the
    model file the chat engine has loaded and the events sent. *)
Record Host := mkHost {
  state : ElasticState;
  persisted : option bytes;
  running : bytes;
  sent : list ScaleEvent;
}.

(** One tick: the clock, the signals if they can be read, which model files
    load at that time and whether the setting can be written. *)
Record Tick := mkTick {
  now_ms : Z; signals : option ElasticSignals; loads : bytes → bool; persists : bool
}.

(** [swap_model]: the file that is loaded afterwards. *)
Definition swap_model (loads : bytes → bool) (new_path loaded : bytes) : bytes :=
  if bytes_eqb new_path loaded then loaded else if loads new_path then new_path else loaded.

(** The closure that the boot installs as live swap. *)
Definition live_swap (cfg : LlmConfig) (loads : bytes → bool) (tier loaded : bytes) : bytes :=
  match ladder_path tier cfg with
  | Some path => swap_model loads path loaded
  | None => loaded
  end.

Definition applied_tier_of (a : ElasticAction) : option bytes :=
  match a with
  | TierDown _ to | TierUp _ to | BatteryPin _ to => Some to
  | _ => None
  end.

Definition event_tiers (a : ElasticAction) : bytes * bytes :=
  match a with
  | TierDown from to | TierUp from to => (from, to)
  | BatteryPin _ to => ([], to)
  | _ => ([], [])
  end.

Section controller.
(** [swap] is the installed seam, if the chat engine is active. *)
Context (policy : ElasticPolicy) (swap : option LlmConfig).

Definition apply_and_report (t : Tick) (a : ElasticAction) (h : Host) : Host :=
  match a with
  | Noop => h
  | _ =>
      let running' := match applied_tier_of a, swap with
                      | Some to, Some cfg => live_swap cfg (loads t) to (running h)
                      | _, _ => running h
                      end in
      let persisted' := match applied_tier_of a with
                        | Some to => if persists t then Some to else persisted h
                        | None => persisted h
                        end in
      mkHost (state h) persisted' running'
        (sent h ++ [mkScale (wire_name a) (event_tiers a).1 (event_tiers a).2 (now_ms t)])
  end.

Definition tick (h : Host) (t : Tick) : Host :=
  let '(st, a) := match signals t with
                  | Some s => decide s (state h) policy (now_ms t)
                  | None => (state h, Noop)
                  end in
  apply_and_report t a (mkHost st (persisted h) (running h) (sent h)).

Definition run_ticks (h : Host) (ts : list Tick) : Host := fold_left tick ts h.
End controller.

(** ** Runs of the decision core *)
Abbreviation Reading := (ElasticSignals * Z)%type.

Definition decide_all (policy : ElasticPolicy) (st : ElasticState) (rs : list Reading)
    : ElasticState * list ElasticAction :=
  fold_left (λ acc r, let '(st, a) := decide r.1 acc.1 policy r.2 in (st, acc.2 ++ [a]))
    rs (st, []).

Lemma decide_all_snoc policy st rs r :
  decide_all policy st (rs ++ [r])
  = let '(st', acts) := decide_all policy st rs in
    let '(st'', a) := decide r.1 st' policy r.2 in (st'', acts ++ [a]).
Proof.
  unfold decide_all. rewrite fold_left_app. cbn.
  destruct (fold_left _ rs _) as [st' acts]. cbn. destruct (decide _ _ _ _). done.
Qed.

(** The last [n] readings satisfy [P]. *)
Definition lasting (P : Reading → Prop) (n : Z) (rs : list Reading) : Prop :=
  n ≤ zlen rs ∧ Forall P (take (Z.to_nat n) (reverse rs)).

Lemma lasting_0 P rs : lasting P 0 rs.
Proof. split; [unfold zlen; lia|constructor]. Qed.

Lemma lasting_le P n m rs : m ≤ n → lasting P n rs → lasting P m rs.
Proof.
  intros Hm [Hn Hf]. split; [lia|].
  replace (take (Z.to_nat m) (reverse rs)) with (take (Z.to_nat m) (take (Z.to_nat n) (reverse rs)))
    by (rewrite take_take; f_equal; lia).
  apply Forall_take. exact Hf.
Qed.

Lemma lasting_snoc P n rs r : 0 ≤ n → lasting P n rs → P r → lasting P (n + 1) (rs ++ [r]).
Proof.
  intros H0 [Hn Hf] Hr. split; [unfold zlen in *; rewrite length_app; cbn; lia|].
  rewrite reverse_snoc. replace (Z.to_nat (n + 1)) with (S (Z.to_nat n)) by lia. cbn.
  constructor; done.
Qed.

Lemma lasting_last P n rs r : 1 ≤ n → lasting P n (rs ++ [r]) → P r.
Proof.
  intros Hn [_ Hf]. rewrite reverse_snoc in Hf.
  replace (Z.to_nat n) with (S (Z.to_nat (n - 1))) in Hf by lia. cbn in Hf.
  inversion Hf. done.
Qed.

Definition low_reading (policy : ElasticPolicy) (r : Reading) : Prop :=
  on_battery r.1 = false ∧ critical_mib policy ≤ mem_available_mib r.1 < enter_low_mib policy.
Definition high_reading (policy : ElasticPolicy) (r : Reading) : Prop :=
  on_battery r.1 = false ∧ critical_mib policy ≤ mem_available_mib r.1
  ∧ exit_low_mib policy < mem_available_mib r.1.

(** Whether an action changes the tier. *)
Definition changes (a : ElasticAction) : Prop := applied_tier_of a ≠ None.

(** No tier change less than the cooldown before the time [now]. *)
Definition cooled (policy : ElasticPolicy) (now : Z) (rs : list Reading) (acts : list ElasticAction)
    : Prop :=
  ∀ j r a, rs !! j = Some r → acts !! j = Some a → changes a →
    cooldown_secs policy * 1000 ≤ now - r.2.

(** What each action requires of the tier before it, of the readings up to it
    and of the actions before it. *)
Definition justified (policy : ElasticPolicy) (t : bytes) (rs : list Reading)
    (acts : list ElasticAction) (r : Reading) (a : ElasticAction) : Prop :=
  match a with
  | TierDown from to =>
      from = t ∧ step_down t = Some to
      ∧ lasting (low_reading policy) (sustain_samples policy) (rs ++ [r])
      ∧ cooled policy r.2 rs acts
  | TierUp from to =>
      from = t ∧ step_up t = Some to
      ∧ lasting (high_reading policy) (sustain_samples policy) (rs ++ [r])
      ∧ cooled policy r.2 rs acts
  | BatteryPin from to =>
      from = t ∧ t ≠ lit "lite" ∧ to = lit "lite" ∧ on_battery r.1 = true
      ∧ (∀ r', last rs = Some r' → on_battery r'.1 = false)
  | RecommendMinimalForm =>
      on_battery r.1 = false ∧ mem_available_mib r.1 < critical_mib policy
  | Noop => True
  end.

(** The tier after an action. *)
Definition tier_after (t : bytes) (a : ElasticAction) : bytes := default t (applied_tier_of a).

(** The state describes the past. *)
Record past (policy : ElasticPolicy) (t0 : bytes) (rs : list Reading) (acts : list ElasticAction)
    (st : ElasticState) : Prop := {
  past_len : length acts = length rs;
  past_tier : cur_tier st = fold_left tier_after acts t0;
  past_low : 0 ≤ low_streak st ∧ lasting (low_reading policy) (low_streak st) rs;
  past_high : 0 ≤ high_streak st ∧ lasting (high_reading policy) (high_streak st) rs;
  past_latch : battery_latched st = true ↔ ∃ r, last rs = Some r ∧ on_battery r.1 = true;
  past_zero : battery_latched st = true → low_streak st = 0 ∧ high_streak st = 0;
  past_action : ∀ j r a, rs !! j = Some r → acts !! j = Some a → changes a →
    0 < last_action_at_ms st ∧ r.2 ≤ last_action_at_ms st;
}.

Definition policy_ok (policy : ElasticPolicy) : Prop :=
  1 ≤ sustain_samples policy ∧ 1 ≤ cooldown_secs policy ∧ cooldown_secs policy * 1000 < 2 ^ 64.

(** A clock that reads a positive time and does not go back. *)
Definition clock_ok (rs : list Reading) : Prop :=
  ∀ i j r s, (i ≤ j)%nat → rs !! i = Some r → rs !! j = Some s → 0 < r.2 ≤ s.2.

Lemma past_snoc policy t0 rs acts st r st' a :
  past policy t0 rs acts st → 0 < r.2 → (∀ r', r' ∈ rs → r'.2 ≤ r.2) →
  cur_tier st' = tier_after (cur_tier st) a →
  0 ≤ low_streak st' ∧ lasting (low_reading policy) (low_streak st') (rs ++ [r]) →
  0 ≤ high_streak st' ∧ lasting (high_reading policy) (high_streak st') (rs ++ [r]) →
  battery_latched st' = on_battery r.1 →
  (on_battery r.1 = true → low_streak st' = 0 ∧ high_streak st' = 0) →
  last_action_at_ms st' = (if applied_tier_of a is Some _ then r.2 else last_action_at_ms st) →
  past policy t0 (rs ++ [r]) (acts ++ [a]) st'.
Proof.
  intros Hp Hr Hmax Ht Hl Hh Hb Hz Hlast. split.
  - rewrite !length_app, (past_len _ _ _ _ _ Hp). done.
  - rewrite fold_left_app. cbn. rewrite <- (past_tier _ _ _ _ _ Hp). exact Ht.
  - exact Hl.
  - exact Hh.
  - rewrite last_snoc, Hb. split; [eauto|]. intros (r' & [= <-] & H). exact H.
  - rewrite Hb. exact Hz.
  - intros j r' a' Hj Ha Hc. rewrite Hlast.
    apply lookup_app_Some in Hj as [Hj|[Hle Hj]].
    + rewrite lookup_app_l in Ha
        by (rewrite (past_len _ _ _ _ _ Hp); exact (lookup_lt_Some _ _ _ Hj)).
      destruct (applied_tier_of a); [split; [done|]|exact (past_action _ _ _ _ _ Hp j r' a' Hj Ha Hc)].
      apply Hmax. apply list_elem_of_lookup. eauto.
    + rewrite lookup_app_r in Ha by (rewrite (past_len _ _ _ _ _ Hp); lia).
      rewrite (past_len _ _ _ _ _ Hp) in Ha.
      apply list_lookup_singleton_Some in Hj as [Hj <-]. rewrite Hj in Ha. cbn in Ha.
      injection Ha as <-. unfold changes in Hc. destruct (applied_tier_of a); [lia|done].
Qed.

Lemma past_cooled policy t0 rs acts st now :
  policy_ok policy → past policy t0 rs acts st →
  (last_action_at_ms st =? 0)
    || (wrap64 (cooldown_secs policy * 1000) <=? saturating_sub now (last_action_at_ms st)) = true →
  cooled policy now rs acts.
Proof.
  intros (_ & Hc & Hw) Hp Ho j r a Hj Ha Hch.
  destruct (past_action _ _ _ _ _ Hp j r a Hj Ha Hch) as [H0 Hle].
  unfold wrap64, saturating_sub in Ho. rewrite Z.mod_small in Ho by lia. guards. lia.
Qed.

(** A streak counts the readings in its band. *)
Lemma streak_snoc P n rs r :
  0 ≤ n ∧ lasting P n rs → P r →
  0 ≤ wrap32 (n + 1) ∧ lasting P (wrap32 (n + 1)) (rs ++ [r]).
Proof.
  intros [H0 Hn] Hr. unfold wrap32. pose proof (Z.mod_pos_bound (n + 1) (2 ^ 32) ltac:(lia)).
  split; [lia|]. apply (lasting_le P (n + 1)); [|apply lasting_snoc; done].
  apply Z.mod_le; lia.
Qed.

Lemma decide_memory_past policy t0 rs acts st r :
  policy_ok policy → past policy t0 rs acts st → 0 < r.2 → (∀ r', r' ∈ rs → r'.2 ≤ r.2) →
  on_battery r.1 = false →
  let '(st', a) := decide_memory (mem_available_mib r.1)
    (mkState (cur_tier st) (low_streak st) (high_streak st) (critical_streak st) false
       (last_action_at_ms st)) policy r.2 in
  past policy t0 (rs ++ [r]) (acts ++ [a]) st' ∧ justified policy (cur_tier st) rs acts r a.
Proof.
  intros Hpol Hp Hr Hmax Hb. unfold decide_memory.
  cbn [cur_tier low_streak high_streak critical_streak battery_latched last_action_at_ms].
  pose proof (conj (Z.le_refl 0) (lasting_0 (low_reading policy) (rs ++ [r]))) as Hl0.
  pose proof (conj (Z.le_refl 0) (lasting_0 (high_reading policy) (rs ++ [r]))) as Hh0.
  pose proof (past_cooled policy t0 rs acts st r.2 Hpol Hp) as Hcool.
  assert (Hlow : low_reading policy r → _) by exact (streak_snoc _ _ _ r (past_low _ _ _ _ _ Hp)).
  assert (Hhigh : high_reading policy r → _) by exact (streak_snoc _ _ _ r (past_high _ _ _ _ _ Hp)).
  destruct (_ <? critical_mib policy) eqn:Hcrit.
  { guards. destruct (sustain_samples policy <=? _);
      (split; [apply (past_snoc _ _ _ _ st); cbn; auto; congruence|cbn; auto]). }
  set (open := _ || _) in *.
  destruct (_ <? enter_low_mib policy) eqn:Hent.
  { guards. specialize (Hlow ltac:(unfold low_reading; auto)).
    destruct (_ <=? wrap32 (low_streak st + 1)) eqn:Hs, open eqn:Ho; cbn;
      [destruct (step_down (cur_tier st)) as [to|] eqn:Hd|..];
      (split; [apply (past_snoc _ _ _ _ st); cbn; auto; congruence|try done]).
    guards. split_and!; auto. exact (lasting_le _ _ _ _ Hs (proj2 Hlow)). }
  destruct (exit_low_mib policy <? _) eqn:Hex.
  { guards. specialize (Hhigh ltac:(unfold high_reading; auto)).
    destruct (_ <=? wrap32 (high_streak st + 1)) eqn:Hs, open eqn:Ho; cbn;
      [destruct (step_up (cur_tier st)) as [to|] eqn:Hd|..];
      (split; [apply (past_snoc _ _ _ _ st); cbn; auto; congruence|try done]).
    guards. split_and!; auto. exact (lasting_le _ _ _ _ Hs (proj2 Hhigh)). }
  split; [|done]. apply (past_snoc _ _ _ _ st); cbn; auto; congruence.
Qed.

Lemma decide_past policy t0 rs acts st r :
  policy_ok policy → past policy t0 rs acts st → 0 < r.2 → (∀ r', r' ∈ rs → r'.2 ≤ r.2) →
  let '(st', a) := decide r.1 st policy r.2 in
  past policy t0 (rs ++ [r]) (acts ++ [a]) st' ∧ justified policy (cur_tier st) rs acts r a.
Proof.
  intros Hpol Hp Hr Hmax. unfold decide.
  destruct (on_battery r.1) eqn:Hb; cbn [andb negb]; [|apply decide_memory_past; done].
  pose proof (conj (Z.le_refl 0) (lasting_0 (low_reading policy) (rs ++ [r]))) as Hl0.
  pose proof (conj (Z.le_refl 0) (lasting_0 (high_reading policy) (rs ++ [r]))) as Hh0.
  destruct (battery_latched st) eqn:Hlatch; cbn [negb].
  { destruct (past_zero _ _ _ _ _ Hp Hlatch) as [El Eh]. split; [|done].
    apply (past_snoc _ _ _ _ st); rewrite ?El, ?Eh; auto; congruence. }
  destruct (bytes_eqb (cur_tier st) (lit "lite")) eqn:Ht; cbn [negb].
  { split; [|done]. apply (past_snoc _ _ _ _ st); cbn; auto. }
  split; [apply (past_snoc _ _ _ _ st); cbn; auto|].
  cbn [justified]. split_and!; auto.
  - intros E. rewrite E in Ht. discriminate Ht.
  - intros r' Hr'. destruct (on_battery r'.1) eqn:E; [|done].
    rewrite (proj2 (past_latch _ _ _ _ _ Hp)) in Hlatch by eauto. done.
Qed.

Lemma past_new policy t0 : past policy t0 [] [] (state_new t0).
Proof.
  pose proof (lasting_0 (low_reading policy) []). pose proof (lasting_0 (high_reading policy) []).
  split; cbn; split_and?; try done.
  split; [done|]. intros [r [E _]]. discriminate E.
Qed.

Lemma clock_ok_snoc rs r :
  clock_ok (rs ++ [r]) → clock_ok rs ∧ 0 < r.2 ∧ ∀ r', r' ∈ rs → r'.2 ≤ r.2.
Proof.
  intros H. assert (Hr : (rs ++ [r]) !! length rs = Some r) by (apply list_lookup_middle; done).
  split; [|split].
  - intros i j s u Hij Hi Hj. apply (H i j s u Hij); apply lookup_app_l_Some; done.
  - destruct (H _ _ r r (Nat.le_refl _) Hr Hr). done.
  - intros r' (i & Hi)%list_elem_of_lookup.
    destruct (H i (length rs) r' r); [apply Nat.lt_le_incl, (lookup_lt_Some _ _ _ Hi)| |done|lia].
    apply lookup_app_l_Some. done.
Qed.

(** Every action of a run is justified by what came before it. *)
Lemma decide_all_past policy t0 rs :
  policy_ok policy → clock_ok rs →
  let '(st, acts) := decide_all policy (state_new t0) rs in
  past policy t0 rs acts st
  ∧ ∀ i r a, rs !! i = Some r → acts !! i = Some a →
      justified policy (fold_left tier_after (take i acts) t0) (take i rs) (take i acts) r a.
Proof.
  intros Hpol Hclock.
  induction rs as [|r rs IH] using rev_ind; [split; [apply past_new|done]|].
  apply clock_ok_snoc in Hclock as (Hclock & Hr & Hmax). specialize (IH Hclock).
  rewrite decide_all_snoc. destruct (decide_all _ _ rs) as [st acts]. destruct IH as [Hp IH].
  pose proof (decide_past policy t0 rs acts st r Hpol Hp Hr Hmax) as Hd.
  destruct (decide _ _ _ _) as [st' a]. destruct Hd as [Hp' Hj]. split; [exact Hp'|].
  pose proof (past_len _ _ _ _ _ Hp) as Hlen.
  intros i r' a' Hi Ha. apply lookup_app_Some in Hi as [Hi|[Hle Hi]].
  - pose proof (lookup_lt_Some _ _ _ Hi). rewrite lookup_app_l in Ha by lia.
    rewrite !take_app_le by lia. exact (IH i r' a' Hi Ha).
  - apply list_lookup_singleton_Some in Hi as [Hi <-].
    replace i with (length rs) in * by lia.
    rewrite lookup_app_r, Hlen, Nat.sub_diag in Ha by lia. injection Ha as <-.
    rewrite take_app_length. rewrite <- Hlen, take_app_length, <- (past_tier _ _ _ _ _ Hp). exact Hj.
Qed.

Lemma clock_ok_sorted rs :
  Forall (λ r, 0 < r.2) rs → StronglySorted (λ r s, r.2 ≤ s.2) rs → clock_ok rs.
Proof.
  intros Hp Hs. induction Hs as [|r rs Hs IH Hr]; [intros [] ? ? ? ? [=]|].
  inversion Hp as [|? ? Hr0 Hp' E]; subst. specialize (IH Hp').
  intros [|i] [|j] u v Hij Hi Hj; cbn in *; [|..|lia|apply (IH i j u v); [lia|done..]].
  - injection Hi as <-. injection Hj as <-. lia.
  - injection Hi as <-. split; [done|]. exact (proj1 (Forall_lookup _ _) Hr j v Hj).
Qed.

(** The controller for every sequence of readings, with a clock that does
    not go back.  Its tier is the initial one changed by its actions; an
    action on memory moves one step along the ladder, only after
    [sustain_samples] readings in a row in its band off battery, and at least
    [cooldown_secs] after every earlier change of the tier; a battery pin
    happens on the first reading of a battery session, at once.  So no reading
    below [critical_mib] changes the tier: the band with the least memory only
    gets the advice. *)
Theorem elastic_hysteresis policy t0 rs :
  policy_ok policy → clock_ok rs →
  let '(st, acts) := decide_all policy (state_new t0) rs in
  cur_tier st = fold_left tier_after acts t0 ∧ length acts = length rs
  ∧ ∀ i r a, rs !! i = Some r → acts !! i = Some a →
      justified policy (fold_left tier_after (take i acts) t0) (take i rs) (take i acts) r a
      ∧ (on_battery r.1 = false → mem_available_mib r.1 < critical_mib policy → ¬ changes a).
Proof.
  intros Hpol Hclock.
  pose proof (decide_all_past policy t0 rs Hpol Hclock) as Hmain.
  destruct (decide_all _ _ rs) as [st acts]. destruct Hmain as [Hp Hj].
  split; [exact (past_tier _ _ _ _ _ Hp)|]. split; [exact (past_len _ _ _ _ _ Hp)|].
  intros i r a Hi Ha. specialize (Hj i r a Hi Ha). split; [exact Hj|].
  intros Hb Hc Hch. destruct a; cbn in Hj; try done.
  - destruct Hj as (_ & _ & Hl & _). apply lasting_last in Hl as [_ Hl]; [lia|apply Hpol].
  - destruct Hj as (_ & _ & Hl & _). apply lasting_last in Hl as [_ [Hl _]]; [lia|apply Hpol].
  - destruct Hj as (_ & _ & _ & Hl & _). congruence.
Qed.

(** ** After the boot *)

(** The language models of the configuration after the boot, and the tier that
    the controller starts with. *)
Lemma boot_llm file_len form setting memory hw c :
  let b := boot file_len form setting memory hw c in
  let cfg := llm c in
  let pinned := model_path (llm (pin_model setting c)) in
  let chosen := resolve_llm_tier pinned (model_path_mid cfg) (model_path_lite cfg)
    (auto_tier (resources c)) (default (0, 0) memory).2 (hw_cores hw) (cfg_tier (resources c)) in
  llm (config b) = mkLlm chosen.1 (model_path_mid cfg) (model_path_lite cfg)
  ∧ llm_tier b = chosen.2.
Proof.
  intros b cfg pinned chosen. unfold b, boot.
  destruct (form_apply_spec form c) as (Hl & _ & Hr & _). set (c0 := form_apply _ c) in *.
  assert (Hpin : llm (pin_model setting c0) = mkLlm pinned (model_path_mid cfg) (model_path_lite cfg)
    ∧ resources (pin_model setting c0) = resources c).
  { unfold pinned, pin_model. rewrite Hl. fold cfg. rewrite <- Hr. destruct setting as [t|];
      repeat (match goal with |- context [if ?b then _ else _] => destruct b end; cbn);
      rewrite ?Hl; fold cfg; destruct cfg; done. }
  destruct Hpin as [Hp1 Hp2]. rewrite Hp2. rewrite Hp1. cbn [model_path model_path_mid model_path_lite].
  fold chosen. destruct (boot_tier _ _ _). destruct chosen as [path name]. cbn.
  match goal with |- context [fold_left apply_decision ?ds ?c'] =>
    destruct (apply_plan_spec ds c') as (-> & _) end.
  split; [|done]. destruct (bytes_eqb path pinned) eqn:E; cbn; rewrite Hp1; [|done].
  apply bytes_eqb_eq in E. subst. done.
Qed.

Lemma live_swap_range cfg loads t loaded :
  let paths := [model_path cfg; model_path_mid cfg; model_path_lite cfg] in
  loaded ∈ paths → live_swap cfg loads t loaded ∈ paths.
Proof.
  cbv zeta. rewrite !elem_of_cons. intros Hin. unfold live_swap, ladder_path, swap_model.
  repeat (match goal with |- context [if ?b then _ else _] => destruct b end; cbn);
    auto.
Qed.

Lemma apply_and_report_running policy_swap t a h :
  running (apply_and_report policy_swap t a h)
  = match applied_tier_of a, policy_swap with
    | Some to, Some cfg => live_swap cfg (loads t) to (running h)
    | _, _ => running h
    end.
Proof. destruct a; done. Qed.

Lemma run_ticks_range policy cfg h ts :
  let paths := [model_path cfg; model_path_mid cfg; model_path_lite cfg] in
  running h ∈ paths → running (run_ticks policy (Some cfg) h ts) ∈ paths.
Proof.
  intros paths. revert h. induction ts as [|t ts IH]; intros h Hh; cbn; [done|].
  apply IH. unfold tick.
  destruct (match signals t with Some s => _ | None => _ end) as [st a].
  rewrite apply_and_report_running. cbn [running].
  destruct (applied_tier_of a); [apply live_swap_range|]; done.
Qed.

(** On a tier outside the ladder, memory changes nothing. *)
Definition manual (h : Host) : Prop :=
  cur_tier (state h) = lit "manual" ∧ battery_latched (state h) = false.

Lemma tick_manual policy swap h t :
  manual h → (∀ s, signals t = Some s → on_battery s = false) →
  let h' := tick policy swap h t in
  manual h' ∧ running h' = running h ∧ persisted h' = persisted h.
Proof.
  intros [Ht Hl] Hs. unfold tick. destruct (signals t) as [s|]; [|done].
  unfold decide. rewrite (Hs s eq_refl). cbn [andb negb]. unfold decide_memory. cbn [cur_tier].
  rewrite Ht.
  repeat (match goal with |- context [if ?b then _ else _] => destruct b end; cbn);
    (split; [split; done|split; done]).
Qed.

Lemma run_ticks_manual policy swap h ts :
  manual h → (∀ t s, t ∈ ts → signals t = Some s → on_battery s = false) →
  let h' := run_ticks policy swap h ts in
  manual h' ∧ running h' = running h ∧ persisted h' = persisted h.
Proof.
  revert h. induction ts as [|t ts IH]; intros h Hm Hs; [done|].
  destruct (tick_manual policy swap h t Hm (λ s, Hs t s ltac:(left))) as (Hm' & Hr & Hp).
  cbn. destruct (IH _ Hm' (λ u s Hu, Hs u s (list_elem_of_further _ _ _ Hu))) as (Hm'' & Hr' & Hp').
  split; [exact Hm''|]. split; [exact (eq_trans Hr' Hr)|exact (eq_trans Hp' Hp)].
Qed.

Lemma ladder_full t :
  is_one_of t LADDER = true → bytes_eqb t (lit "mid") = false → bytes_eqb t (lit "lite") = false →
  t = lit "full".
Proof.
  unfold is_one_of, LADDER. cbn [existsb]. intros H Hm Hl. rewrite Hm, Hl, !orb_false_r in H.
  apply bytes_eqb_eq. exact H.
Qed.

Lemma min_by_rank_ladder b ts :
  is_one_of b LADDER = true → Forall (λ t, is_one_of t LADDER = true) ts →
  is_one_of (min_by_rank b ts) LADDER = true.
Proof.
  intros Hb Hts. revert b Hb. induction Hts as [|t ts Ht Hts IH]; intros b Hb; cbn [min_by_rank].
  - exact Hb.
  - apply IH. destruct (_ <? _); done.
Qed.

Lemma pin_lite c :
  model_path_lite (llm c) ≠ [] →
  model_path (llm (pin_model (Some (lit "lite")) c)) = model_path_lite (llm c).
Proof.
  intros Hl. unfold pin_model. replace (is_one_of (lit "lite") LADDER) with true by reflexivity.
  replace (bytes_eqb (lit "lite") (lit "mid")) with false by reflexivity.
  replace (bool_decide (model_path_lite (llm c) = [])) with false
    by (symmetry; apply bool_decide_false; exact Hl).
  rewrite bytes_eqb_refl. cbn [andb negb].
  destruct (bytes_eqb _ (model_path _)) eqn:E; [|done]. apply bytes_eqb_eq in E. symmetry. exact E.
Qed.

(** The controller that the boot starts, for every sequence of ticks.  The
    model file it runs is the one of the boot or the one of the middle or low
    tier: when the boot chose a smaller file, the primary one is never loaded
    again, not even on the way up to [full].  Without [auto_tier] the tier is
    called [manual] and, off battery, neither the tier nor the file nor the
    setting ever changes, whatever the memory does.  With [auto_tier], a
    persisted decision changes neither the tier name nor, below [full], the
    file; at [full] the file of the persisted tier runs under the name
    [full]. *)
Theorem elastic_after_boot file_len form setting memory hw c policy ts :
  let b := boot file_len form setting memory hw c in
  let b0 := boot file_len form None memory hw c in
  let cfg := llm (config b) in
  let start := mkHost (state_new (llm_tier b)) setting (model_path cfg) [] in
  let h := run_ticks policy (Some cfg) start ts in
  running h ∈ [model_path cfg; model_path_mid (llm c); model_path_lite (llm c)]
  ∧ (auto_tier (resources c) = false →
     (∀ t s, t ∈ ts → signals t = Some s → on_battery s = false) →
     cur_tier (state h) = lit "manual" ∧ running h = model_path cfg ∧ persisted h = setting)
  ∧ (auto_tier (resources c) = true → model_path_mid (llm c) ≠ [] → model_path_lite (llm c) ≠ [] →
     llm_tier b = llm_tier b0
     ∧ (llm_tier b ≠ lit "full" → model_path cfg = model_path (llm (config b0)))
     ∧ (llm_tier b = lit "full" → setting = Some (lit "lite") →
        model_path cfg = model_path_lite (llm c))).
Proof.
  intros b b0 cfg start h.
  destruct (boot_llm file_len form setting memory hw c) as [Hcfg Htier]. fold b in Hcfg, Htier.
  destruct (boot_llm file_len form None memory hw c) as [Hcfg0 Htier0]. fold b0 in Hcfg0, Htier0.
  fold cfg in Hcfg. split; [|split].
  - pose proof (run_ticks_range policy cfg start ts ltac:(left)) as H. fold h in H.
    replace (model_path_mid cfg) with (model_path_mid (llm c)) in H by (rewrite Hcfg; done).
    replace (model_path_lite cfg) with (model_path_lite (llm c)) in H by (rewrite Hcfg; done).
    exact H.
  - intros Ha Hb. rewrite Ha in Htier. cbn in Htier.
    destruct (run_ticks_manual policy (Some cfg) start ts) as ([Ht _] & Hr & Hp);
      [split; [exact Htier|done]|exact Hb|]. auto.
  - intros Ha Hmid Hlite. rewrite Hcfg, Hcfg0, Htier, Htier0, Ha. cbn [pin_model].
    unfold resolve_llm_tier. cbn [negb model_path].
    set (effective := min_by_rank _ _).
    rewrite !bool_decide_false by done. cbn [negb]. rewrite !andb_true_r.
    destruct (bytes_eqb effective (lit "mid")) eqn:Em; [split_and!; cbn; auto; discriminate|].
    destruct (bytes_eqb effective (lit "lite")) eqn:El; [split_and!; cbn; auto; discriminate|].
    split_and!; cbn [fst snd model_path]; [done| |].
    + intros []. apply ladder_full; [|done|done]. apply min_by_rank_ladder; [|apply Forall_cons; split;
        [|apply Forall_singleton]]; repeat case_match; done.
    + intros _ ->. apply pin_lite. done.
Qed.


(** ** A host that runs low, loses power and recovers *)
Definition sample_policy : ElasticPolicy := policy_from default_config.

Definition reading (mem : Z) (battery : bool) (t : Z) : Reading := (mkSignals mem battery, t).

Definition sample_readings : list Reading :=
  [reading 900 false 1000; reading 900 false 31000; reading 900 false 61000;
   reading 200 false 91000; reading 900 true 121000; reading 9000 false 300000;
   reading 9000 false 330000; reading 9000 false 360000].

Example sample_actions :
  (decide_all sample_policy (state_new (lit "full")) sample_readings).2
  = [Noop; Noop; TierDown (lit "full") (lit "mid"); Noop; BatteryPin (lit "mid") (lit "lite");
     Noop; Noop; TierUp (lit "lite") (lit "mid")].
Proof. vm_compute. reflexivity. Qed.

Lemma elastic_hysteresis_witness :
  policy_ok sample_policy ∧ clock_ok sample_readings
  ∧ lasting (high_reading sample_policy) 3 sample_readings
  ∧ 180000 ≤ 360000 - 121000.
Proof.
  assert (Hp : policy_ok sample_policy) by (unfold policy_ok; cbn; lia).
  assert (Hc : clock_ok sample_readings).
  { apply clock_ok_sorted; repeat constructor; cbn; lia. }
  split; [exact Hp|]. split; [exact Hc|].
  pose proof (elastic_hysteresis sample_policy (lit "full") sample_readings Hp Hc) as H.
  destruct (decide_all _ _ _) as [st acts] eqn:E. destruct H as (_ & _ & H).
  assert (Ea : acts = (decide_all sample_policy (state_new (lit "full")) sample_readings).2)
    by (rewrite E; reflexivity).
  rewrite sample_actions in Ea. subst acts.
  destruct (H 7%nat _ _ eq_refl eq_refl) as [(_ & _ & Hl & Hcool) _].
  split; [exact Hl|]. exact (Hcool 4%nat _ _ eq_refl eq_refl ltac:(discriminate)).
Defined.

(** The boot chose the middle file in spite of the persisted [lite]; with
    plenty of memory later, the way up to [full] reloads the middle file. *)
Definition sample_llm_config : AppConfig :=
  mkConfig (enabled sample_config) (mkLlm (lit "4b.gguf") (lit "1b.gguf") (lit "lite.gguf"))
    (models sample_config) (resources sample_config).

Definition sample_ticks : list Tick :=
  List.map (λ t, mkTick t (Some (mkSignals 9000 false)) (λ _, true) true) [1; 2; 3; 4].

Lemma elastic_after_boot_witness :
  let b := boot sample_file_len (lit "eye") (Some (lit "lite")) (Some (16384, 5000)) sample_hardware
    sample_llm_config in
  let h := run_ticks sample_policy (Some (llm (config b)))
             (mkHost (state_new (llm_tier b)) (Some (lit "lite")) (model_path (llm (config b))) []) sample_ticks in
  cur_tier (state h) = lit "full"
  ∧ running h ∈ [lit "1b.gguf"; lit "1b.gguf"; lit "lite.gguf"]
  ∧ llm_tier b ≠ lit "full" ∧ model_path (llm (config b)) = lit "1b.gguf".
Proof.
  intros b h.
  destruct (elastic_after_boot sample_file_len (lit "eye") (Some (lit "lite")) (Some (16384, 5000)) sample_hardware
    sample_llm_config sample_policy sample_ticks) as (Hr & _ & Hauto).
  fold b h in Hr, Hauto.
  destruct (Hauto eq_refl ltac:(discriminate) ltac:(discriminate)) as (_ & Hm & _).
  split; [vm_compute; reflexivity|]. split; [exact Hr|].
  split; [vm_compute; discriminate|]. rewrite Hm; [vm_compute; reflexivity|vm_compute; discriminate].
Defined.
